(* ===== verification/_CoqProject ===== *)
-Q . S2P
Prelude.v
Kernel.v
ProcData.v
Rq.v
SchedState.v
SchedClass.v
SchedSimple.v
SchedRR.v
SchedFifo.v
SchedMLFQ.v
Sched.v
SchedInv.v
SchedBalance.v
SchedEvents.v
SchedBoot.v
Kalloc.v
Spinlock.v
CString.v
Ring.v
Pipe.v
Printf.v
Console.v
FsDisk.v
Fs.v
FsAlloc.v
FsFile.v
FsExamples.v
FsDir.v
Mmu.v
KState.v
Syscall.v
FileTable.v
Exec.v
Sysfile.v
FileIO.v
Process.v
ProcMem.v
Grep.v
Sh.v
ShTotal.v
ShPrint.v
FdInv.v
FdCalls.v
FdPool.v
Bio.v
BioInv.v
BioRefine.v
SysErr.v
Umalloc.v
Mkfs.v
MkfsInv.v
MkfsRun.v
MkfsMain.v
Intr.v
Kbd.v
Mp.v
Trap.v
Main.v
StartUp.v
Boot.v
User.v
ForkTest.v
UserRun.v
UserTests.v
ShRun.v
