(* ===== verification/Prelude.v ===== *)
(** * xv6 with pluggable schedulers: a verification development

    The program is a teaching operating system for a shared-memory multiprocessor
    (src/, derived from xv6) whose scheduler is a table of functions, with four
    implementations.  This library translates its kernel, boot loader, mkfs, shell, user
    library and user programs into Rocq functions and proves what they do.

    ** How the code is represented

    Kernel code is a computation [M S A] (Kernel): it takes the locks held and a
    state [S] and returns a value, panics with the code's message, dereferences a
    bad pointer ([Fault]), runs out of fuel ([Diverge]) or goes to sleep on a
    channel; the last carries the continuation, so that an execution of several
    processes is an interleaving of the pieces between sleeps.  Integers are [Z] with the
    wrap-around of [uint], [short] and [char] written out ([u32], [s16], [u8] of
    Prelude).  A pointer into a kernel array is the index of the element; physical
    addresses are numbers.  Loops are structural recursions over what they scan, or
    take fuel: a counting loop the number of its iterations, a walk along a list one
    more than the number of nodes in memory, a loop around [sleep] the number of
    times it may find its condition false.  The theorems show that the fuel of the
    first two kinds is enough (the code returns) and hold for every fuel of the third.
    The loops of the shell's parser take fuel from the length of the line, which is
    shown to be enough; a user program that loops over its input takes fuel for the reads.

    Code that drives a device is the sequence of its port and register accesses, or a
    state with the registers it reads.  A user program is the tree of the system calls
    it makes (User), which is run on an abstract system, or on the kernel (UserRun).

    ** The parts

    - Prelude: machine integers, list lemmas, tactics.  Kernel: the monad, locks,
      sleep and wakeup, [focus] on a part of the state.
    - Scheduling.  ProcData: the structures of proc.h, rq.h and x86.h.  Rq: run
      queues as nodes in an array.  SchedState: run queues, process table,
      processors.  SchedClass: the table of functions ([struct sched_class]) as a
      record, and the law a class promises, a refinement of an abstract queue.
      SchedSimple, SchedRR, SchedFifo, SchedMLFQ: sched.c, sched_RR.c, sched_fifo.c,
      sched_MLFQ.c.  Sched: the dispatching functions of proc.c with [schedule],
      [yield], [sleep], [wakeup], [kill], [runIdle], the clock tick.  SchedInv: the
      invariant of the scheduler; SchedBalance: load balancing on one processor;
      SchedEvents: that events preserve the invariant; SchedBoot: boot, the theorems on
      the classes, and the defects found.
    - Memory and locks.  Kalloc: kalloc.c on free-list headers in memory.  Spinlock:
      spinlock.c, as a step relation on memory accesses and as one processor's
      interrupt nesting.  CString: string.c and the string functions of ulib.c.
      Mmu: segment and gate descriptors, [setupsegs], [tvinit].
    - Input and output.  Ring: ring buffers.  Pipe: pipe.c.  Printf: printf.c.
      Console: console.c and [procdump].
    - File system.  FsDisk: the format of fs.h.  Fs: fs.c over the contract of the
      buffer cache.  FsAlloc: block allocation.  FsFile: files as sequences of bytes.
      FsDir: directories.  FsExamples: a small disk, witnesses and defects.  Bio: bio.c
      and ide.c on linked buffers and the registers of the disk; BioInv: their
      invariant; BioRefine: that they meet the contract that Fs assumes.
    - The kernel put together.  KState: one state made of the parts.  Syscall:
      syscall.c.  FileTable: file.c and [pipealloc].  Exec: exec.c.  Sysfile:
      sysfile.c.  FileIO: reads and writes through an open file.  Process: the process
      functions of proc.c and sysproc.c.  ProcMem: theorems on the memory of processes.
      FdInv, FdCalls, FdPool: the count of references to open files, kept by every
      system call of several processes.  SysErr: error paths of the system calls.
    - Interrupts and start-up.  Intr: picirq.c, ioapic.c, lapic.c, timer.c.  Kbd: kbd.c.
      Mp: mp.c on the bytes of the tables.  Trap: [trap] with all its cases, on the
      whole machine.  Main: the devices in the order of main.c.  StartUp: [main] as a
      whole, with [bootothers] and [mpmain].  Boot: bootmain.c.
    - mkfs.c.  Mkfs: the program on the sectors of the image.  MkfsInv, MkfsRun: the
      invariant of a run and its steps.  MkfsMain: the image it makes.
    - The user side.  Umalloc: umalloc.c on headers in memory.  Grep: grep.c.  Sh: the
      parser of sh.c; ShTotal: that it returns on every line; ShPrint: that it inverts
      printing; ShRun: [runcmd] and [main].  User: the other programs.  ForkTest:
      forktest.c, matmul16.c and [exitwait].  UserRun: usys.S, and programs run on the
      kernel.  UserTests: the file system tests of usertests.c.

    A system call passes through most of these: [usys] and [stub] of UserRun put the
    arguments on the stack, [trap] of Trap calls [syscall] of Syscall with the handlers
    of Sysfile and Process, these use FileTable, Fs and Kalloc on their parts of the
    state ([on_fs], [on_pipe] and the like of KState).

    ** What is shown

    - Each scheduling class implements an abstract queue (the multi-level class three
      of them; a fifo queue only while the last of several is not dequeued and a queue of
      several does not yield).  On a machine with one processor any sequence of
      scheduling events keeps the invariant of the scheduler, and each runs without a
      panic or a bad pointer, with one exception: under the multi-level class, a clock tick
      of the idle process while a process is queued.  [pinit] establishes the invariant
      of the queues of every processor.
    - The page allocator (for memory below 2 GB), the block allocator and file reads and
      writes implement sets of bytes, sets of blocks and sequences of bytes; directories
      are maps from names.  The buffer cache with the disk driver refines the contract the
      file system is proved against.
    - The reference counts of open files equal the number of descriptors that point to
      them, after any system calls of any processes.
    - A program that reads and writes files through the stubs, the trap and the kernel
      sees files as sequences of bytes; the image mkfs makes holds the files it was given.
      The tests of the file system are run, as a check of the model, on one machine.
    - Pipes are queues and lose no wakeup under any interleaving, and give their page
      back once if the closes of the two ends do not overlap; spin locks
      exclude each other; the console implements its line discipline, and the keyboard
      delivers what is typed to it.
    - A killed process does not return to user mode; the interrupts of keyboard and disk
      wake the processes that wait for them.  Start-up finds the processors and leaves
      the interrupts of the devices and the timer of the local APIC enabled, and starts the
      other processors, by the interrupts it sends them, on stacks of their own; the
      whole of [main] runs up to the first clock tick on one machine; the boot loader
      loads the kernel.
    - [growproc] moves the memory of a process; the checks of system call arguments
      are exact; the segments loaded confine a process to its memory.
    - The shell parses every line or stops with a message, inverts the printer of
      commands, and wires pipes and redirections as the command says; grep decides the
      language of its pattern; malloc, of up to 32760 bytes, and free keep the blocks in use
      disjoint; wc counts lines, words and bytes.
    - Formatted output renders its format; string functions meet their contracts.
    - Defects of the code, each by a concrete execution or a general theorem: the race
      of [sleep] with [wakeup], [kill] of a sleeping process, load balancing of an
      empty level, two in the fifo class, the double free and the lost wakeup of
      pipes, the leak of [itrunc], [balloc] past the end, [sbrk] of an odd size, read
      errors of the disk, negative sizes in [argptr], [open] without a free descriptor,
      grep over several reads, malloc of more than a page, a directory of a full block
      in mkfs, dead keys, too many processors, APIC identifiers that are not indices, and
      freeing the end of the address space.

    ** Not modelled

    - Assembly: bootasm.S, bootother.S (but for its last steps, in StartUp), initcode.S,
      idlecode.S, trapasm.S, the vectors that vectors.pl generates, and the instructions
      of x86.h.  Registers saved by [swtch]: a suspended process is the code that follows
      its call of [schedule].
    - The tests of usertests.c that depend on how several processes interleave ([mem],
      [pipe1], [preempt], [sharedfd], [twofiles], [createdelete], [concreate],
      [exectest]).
    - Console messages of the kernel, except in Console; waits for the printer port and
      [microdelay]; [iinit] and [fileinit], which initialise a lock.
    - The scripts and the Makefile that build the images and print the source. *)
From Stdlib Require Export ZArith Lia.
From stdpp Require Export base numbers strings gmap list_numbers list.
Local Open Scope Z_scope.

(** ** Machine integers *)

(** The kernel is compiled for i386: [uint] is 32 bits and wraps, [int] is the
    two's complement reading of the same 32 bits, [ushort]/[short] are 16 bits
    and [uchar] is 8 bits.  All are kept as [Z] with the wrap-around explicit. *)
Definition u32 (x : Z) : Z := x mod 2 ^ 32.
Definition u16 (x : Z) : Z := x mod 2 ^ 16.
Definition u8 (x : Z) : Z := x mod 2 ^ 8.
Definition s32 (x : Z) : Z := (x + 2 ^ 31) mod 2 ^ 32 - 2 ^ 31.
Definition s16 (x : Z) : Z := (x + 2 ^ 15) mod 2 ^ 16 - 2 ^ 15.
Definition s8 (x : Z) : Z := (x + 2 ^ 7) mod 2 ^ 8 - 2 ^ 7.

Lemma u32_small x : 0 <= x < 2 ^ 32 -> u32 x = x.
Proof. intros. by apply Z.mod_small. Qed.

Lemma u32_range x : 0 <= u32 x < 2 ^ 32.
Proof. apply Z.mod_pos_bound. lia. Qed.

Lemma u8_small x : 0 <= x < 256 -> u8 x = x.
Proof. intros. by apply Z.mod_small. Qed.

Lemma u8_range x : 0 <= u8 x < 256.
Proof. apply (Z.mod_pos_bound x (2 ^ 8)). lia. Qed.

Lemma s32_small x : - 2 ^ 31 <= x < 2 ^ 31 -> s32 x = x.
Proof. intros. unfold s32. rewrite Z.mod_small; lia. Qed.

Lemma s32_range x : - 2 ^ 31 <= s32 x < 2 ^ 31.
Proof. unfold s32. pose proof (Z.mod_pos_bound (x + 2 ^ 31) (2 ^ 32)). lia. Qed.

(** ** Lists *)

(** Membership in a list built from [::] and [++], by case analysis. *)
Ltac inl :=
  repeat first
    [ setoid_rewrite elem_of_app | setoid_rewrite elem_of_cons
    | setoid_rewrite elem_of_nil ];
  repeat match goal with
    | H : context [_ ∈ _ ++ _] |- _ => setoid_rewrite elem_of_app in H
    | H : context [_ ∈ _ :: _] |- _ => setoid_rewrite elem_of_cons in H
    | H : context [_ ∈ []] |- _ => setoid_rewrite elem_of_nil in H
    end;
  first [ done | tauto | intuition (subst; first [done | tauto | congruence]) ].

(** [adj R l]: every two neighbours of [l] are related. *)
Fixpoint adj {A} (R : A → A → Prop) (l : list A) : Prop :=
  match l with
  | x :: ((y :: _) as t) => R x y ∧ adj R t
  | _ => True
  end.

Lemma app_cons_eq {A} (l1 : list A) x l2 : l1 ++ x :: l2 = (l1 ++ [x]) ++ l2.
Proof. by rewrite <- app_assoc. Qed.

Lemma adj_cons {A} (R : A → A → Prop) x y l :
  adj R (x :: y :: l) ↔ R x y ∧ adj R (y :: l).
Proof. done. Qed.

Lemma adj_app {A} (R : A → A → Prop) l1 x l2 :
  adj R (l1 ++ x :: l2) ↔ adj R (l1 ++ [x]) ∧ adj R (x :: l2).
Proof.
  induction l1 as [|a l1 IH]; [simpl; tauto|].
  destruct l1 as [|b l1]; [simpl; tauto|].
  change (((a :: b :: l1) ++ x :: l2)) with (a :: b :: (l1 ++ x :: l2)).
  change (((a :: b :: l1) ++ [x])) with (a :: b :: (l1 ++ [x])).
  rewrite !adj_cons. simpl in IH. rewrite IH. tauto.
Qed.

Lemma adj_mid {A} (R : A → A → Prop) l1 x y l2 :
  adj R (l1 ++ x :: y :: l2) → R x y.
Proof. rewrite adj_app, adj_cons. tauto. Qed.

(** A stronger relation on the pairs that occur keeps the property: the source
    of each pair is not the last element, the target not the first. *)
Lemma adj_impl {A} (R R' : A → A → Prop) l :
  (∀ l1 x y l2, l = l1 ++ x :: y :: l2 → R x y → R' x y) → adj R l → adj R' l.
Proof.
  induction l as [|a l IH]; [done|]. destruct l as [|b l]; [done|].
  intros H [Hab Hl]. split.
  - by apply (H [] a b l).
  - apply IH; [|done]. intros l1 x y l2 E. apply (H (a :: l1) x y l2). by rewrite E.
Qed.

Lemma filter_ext {A} (P Q : A → Prop) `{∀ x, Decision (P x), ∀ x, Decision (Q x)} (l : list A) :
  (∀ x, x ∈ l → P x ↔ Q x) → filter P l = filter Q l.
Proof.
  induction l as [|x l IH]; intros E; [done|]. rewrite !filter_cons, IH by (intros; apply E; inl).
  specialize (E x ltac:(inl)). by repeat case_decide; try tauto.
Qed.

(** All values below a bound, for checks by computation. *)
Lemma below_check (P : Z → bool) (n : nat) :
  forallb P (Z.of_nat <$> seq 0 n) = true → ∀ x, 0 ≤ x < Z.of_nat n → P x = true.
Proof.
  intros H x Hx. rewrite forallb_forall in H. apply H, list_elem_of_In, list_elem_of_fmap.
  exists (Z.to_nat x). split; [lia|apply elem_of_seq; lia].
Qed.
