(* ===== verification/Kernel.v ===== *)
(** * The kernel monad

    Kernel C code runs on one processor, holds spin locks, may [panic], may
    dereference a bad pointer, and may give up the processor in [sleep].  This
    file holds the monad the components are written in:

    - [outcome]: how a piece of kernel code ends.  [Ok] returns; [Panic] is
      [panic(msg)], after which the machine is frozen; [Fault] is an access
      through a null or out-of-range pointer (undefined behaviour in C);
      [Sleep] is the thread suspended inside [sleep(chan, lk)], with the
      continuation that runs when the thread is scheduled again, on whatever
      state the other threads left; [Diverge] is a loop that ran out of fuel.
    - [kctx]: the spin locks this processor holds and the log of [wakeup]
      calls.  [acquire] of a lock already held by this processor and [release]
      of one it does not hold panic, as in spinlock.c. *)
From S2P Require Import Prelude.

(** The spin locks of the kernel.  [LkRq q] is [rqs[q].rq_lock]; [LkPipe a] is
    the lock inside the pipe page at address [a]. *)
Inductive lock_id :=
| LkProcTable | LkRq (q : nat) | LkKalloc | LkPipe (a : Z) | LkFileTable
| LkBufTable | LkIcache | LkIde | LkConsole | LkInput | LkTicks.

#[export] Instance lock_id_eq_dec : EqDecision lock_id.
Proof. solve_decision. Defined.

(** Sleep channels: the kernel addresses handed to [sleep] and [wakeup]. *)
Inductive chan_id :=
| ChNone                  (* the null channel *)
| ChProc (i : nat)        (* &proc[i], used by wait *)
| ChPipeRead (a : Z)      (* &p->readp *)
| ChPipeWrite (a : Z)     (* &p->writep *)
| ChBuf (b : nat)         (* &buf[b], used by ide_rw; buf itself is &buf[0] *)
| ChInode (i : nat)       (* &icache.inode[i] *)
| ChTicks                 (* &ticks *)
| ChInput.                (* &input.r *)

#[export] Instance chan_id_eq_dec : EqDecision chan_id.
Proof. solve_decision. Defined.

Record kctx := KCtx { held : list lock_id; woken : list chan_id }.

Inductive outcome (S A : Type) : Type :=
| Ok (a : A) (c : kctx) (s : S)
| Panic (msg : string) (s : S)
| Fault
| Diverge
| Sleep (ch : chan_id) (lk : lock_id) (c : kctx) (s : S) (k : S → outcome S A).
Arguments Ok {S A} a c s.
Arguments Panic {S A} msg s.
Arguments Fault {S A}.
Arguments Diverge {S A}.
Arguments Sleep {S A} ch lk c s k.

Definition M (S A : Type) : Type := kctx → S → outcome S A.

Fixpoint obind {S A B} (o : outcome S A) (f : A → M S B) : outcome S B :=
  match o with
  | Ok a c s => f a c s
  | Panic m s => Panic m s
  | Fault => Fault
  | Diverge => Diverge
  | Sleep ch lk c s k => Sleep ch lk c s (λ s', obind (k s') f)
  end.

#[export] Instance M_ret S : MRet (M S) := λ A a c s, Ok a c s.
#[export] Instance M_bind S : MBind (M S) := λ A B f m c s, obind (m c s) f.

Section prims.
Context {S : Type}.

Definition kget : M S S := λ c s, Ok s c s.
Definition kput (s' : S) : M S unit := λ c _, Ok () c s'.
Definition kmodify (f : S → S) : M S unit := λ c s, Ok () c (f s).
Definition kgets {A} (f : S → A) : M S A := λ c s, Ok (f s) c s.
Definition panic {A} (msg : string) : M S A := λ _ s, Panic msg s.
Definition fault {A} : M S A := λ _ _, Fault.
Definition diverge {A} : M S A := λ _ _, Diverge.
(** Reading through a pointer that may be bad. *)
Definition deref {A} (o : option A) : M S A :=
    match o with Some a => mret a | None => fault end.

(** [holding], [acquire] and [release] as one processor sees them. *)
Definition holding (l : lock_id) : M S bool :=
    λ c s, Ok (bool_decide (l ∈ held c)) c s.
Definition acquire (l : lock_id) : M S unit := λ c s,
    if decide (l ∈ held c) then Panic "acquire" s
    else Ok () (KCtx (l :: held c) (woken c)) s.
Definition release (l : lock_id) : M S unit := λ c s,
    if decide (l ∈ held c)
    then Ok () (KCtx (filter (λ x, x ≠ l) (held c)) (woken c)) s
    else Panic "release" s.
(** [sleep(ch, lk)] seen from a caller that holds [lk]: the thread is
      suspended with [lk] released and resumes with [lk] held again and an empty
      [wakeup] log. *)
Definition sleep (ch : chan_id) (lk : lock_id) : M S unit := λ c s,
    if decide (lk ∈ held c) then Sleep ch lk c s (λ s', Ok () (KCtx (held c) []) s')
    else Panic "release" s.
Definition wakeup (ch : chan_id) : M S unit :=
    λ c s, Ok () (KCtx (held c) (woken c ++ [ch])) s.
End prims.

(** ** Focusing on a part of the state *)

(** [focus g p m] runs [m] on the part [g] selects; a part that does not exist
    is a bad pointer. *)
Section focus.
Context {S T A : Type} (g : S → option T) (p : T → S → S).

Fixpoint ofocus (s : S) (o : outcome T A) : outcome S A :=
    match o with
    | Ok a c t => Ok a c (p t s)
    | Panic m t => Panic m (p t s)
    | Fault => Fault
    | Diverge => Diverge
    | Sleep ch lk c t k =>
        Sleep ch lk c (p t s)
          (λ s', match g s' with Some t' => ofocus s' (k t') | None => Fault end)
    end.
Definition focus (m : M T A) : M S A := λ c s,
    match g s with Some t => ofocus s (m c t) | None => Fault end.

Lemma focus_Ok (m : M T A) c s t a c' t' :
    g s = Some t → m c t = Ok a c' t' → focus m c s = Ok a c' (p t' s).
Proof. unfold focus. by intros -> ->. Qed.

Lemma focus_Panic (m : M T A) c s t msg t' :
    g s = Some t → m c t = Panic msg t' → focus m c s = Panic msg (p t' s).
Proof. unfold focus. by intros -> ->. Qed.

Lemma focus_Fault (m : M T A) c s t :
    g s = Some t → m c t = Fault → focus m c s = Fault.
Proof. unfold focus. by intros -> ->. Qed.
End focus.

(** ** Total-correctness assertions *)

(** [returns o Q]: the code returns (no panic, fault, sleep or divergence) and
    the result satisfies [Q]. *)
Definition returns {S A} (o : outcome S A) (Q : A → kctx → S → Prop) : Prop :=
  match o with Ok a c s => Q a c s | _ => False end.

Lemma returns_bind {S A B} (m : M S A) (f : A → M S B) c s Q :
  returns (m c s) (λ a c' s', returns (f a c' s') Q) → returns ((m ≫= f) c s) Q.
Proof. unfold mbind, M_bind. by destruct (m c s). Qed.

Lemma returns_mono {S A} (o : outcome S A) (P Q : A → kctx → S → Prop) :
  returns o P → (∀ a c s, P a c s → Q a c s) → returns o Q.
Proof. destruct o; simpl; auto. Qed.

Lemma returns_eq {S A} (o : outcome S A) Q :
  returns o Q ↔ ∃ a c s, o = Ok a c s ∧ Q a c s.
Proof. split; [destruct o; naive_solver | intros (?&?&?&->&?); done]. Qed.

Lemma bind_Ok {S A B} (m : M S A) (f : A → M S B) c s a c' s' :
  m c s = Ok a c' s' → (m ≫= f) c s = f a c' s'.
Proof. unfold mbind, M_bind. by intros ->. Qed.

Lemma bind_Panic {S A B} (m : M S A) (f : A → M S B) c s msg s' :
  m c s = Panic msg s' → (m ≫= f) c s = Panic msg s'.
Proof. unfold mbind, M_bind. by intros ->. Qed.

(** Acquiring a free lock and releasing it leaves the context as it was. *)
Lemma filter_notin (l : lock_id) (ls : list lock_id) : l ∉ ls → filter (λ x, x ≠ l) ls = ls.
Proof.
  induction ls as [|x ls IH]; [done|]. intros Hn.
  rewrite filter_cons_True by inl. f_equal. apply IH. inl.
Qed.

Lemma acquire_ok {S} l c (s : S) :
  l ∉ held c → acquire l c s = Ok () (KCtx (l :: held c) (woken c)) s.
Proof. intros. unfold acquire. by rewrite decide_False. Qed.

Lemma release_ok {S} l h w (s : S) :
  l ∉ h → release l (KCtx (l :: h) w) s = Ok () (KCtx h w) s.
Proof.
  intros Hn. unfold release. simpl. rewrite decide_True by inl.
  rewrite filter_cons_False by auto. by rewrite filter_notin.
Qed.

(** Running one primitive at a time. *)
Section run.
Context {S A B : Type} (c : kctx) (s : S).
Lemma ret_run (a : A) : mret (M:=M S) a c s = Ok a c s.
Proof. done. Qed.
Lemma ret_bind (a : A) (f : A → M S B) : (mret a ≫= f) c s = f a c s.
Proof. done. Qed.
Lemma kget_bind (f : S → M S B) : (kget ≫= f) c s = f s c s.
Proof. done. Qed.
Lemma kgets_bind (g : S → A) (f : A → M S B) : (kgets g ≫= f) c s = f (g s) c s.
Proof. done. Qed.
Lemma kmodify_run (g : S → S) : kmodify g c s = Ok () c (g s).
Proof. done. Qed.
Lemma kmodify_bind (g : S → S) (f : () → M S B) : (kmodify g ≫= f) c s = f () c (g s).
Proof. done. Qed.
Lemma deref_bind (a : A) (f : A → M S B) : (deref (Some a) ≫= f) c s = f a c s.
Proof. done. Qed.
End run.

Create Rewrite HintDb krun.
#[export] Hint Rewrite @ret_run @ret_bind @kget_bind @kgets_bind @kmodify_run
  @kmodify_bind @deref_bind : krun.
