(* ===== verification/ProcData.v ===== *)
(** * Process and run-queue data (param.h, proc.h, x86.h, rq.h)

    The structures the scheduler and the process code share, field for field.
    A pointer into a kernel array is the index of the element, [None] being the
    null pointer: [struct proc*] is an index of [proc[NPROC]], [struct rq*] an
    index of [rqs[NCPU*3]], [struct rq_node*] an index of the [nodes] table of
    the queue it belongs to, [struct file*] an index of [file[NFILE]] and
    [struct inode*] an index of [icache.inode[NINODE]].  Physical addresses
    ([char *mem], [char *kstack]) are numbers, 0 being null. *)
From S2P Require Import Prelude Kernel.

Definition NPROC : nat := 64.
Definition NCPU : nat := 8.
Definition NOFILE : nat := 16.
Definition NFILE : nat := 100.
Definition NBUF : nat := 10.
Definition NINODE : nat := 50.
Local Open Scope Z_scope.
Definition NDEV : Z := 10.
Definition ROOTDEV : Z := 1.
Definition PAGE : Z := 4096.
Definition KSTACKSIZE : Z := PAGE.

(** proc.h: segment selectors. *)
Definition SEG_KCODE : Z := 1.
Definition SEG_KDATA : Z := 2.
Definition SEG_UCODE : Z := 3.
Definition SEG_UDATA : Z := 4.
Definition SEG_TSS : Z := 5.
Definition NSEGS : nat := 6.

Inductive proc_state := UNUSED | EMBRYO | SLEEPING | RUNNABLE | RUNNING | ZOMBIE.

#[export] Instance proc_state_eq_dec : EqDecision proc_state.
Proof. solve_decision. Defined.

(** proc.h: saved registers for kernel context switches. *)
Record context := Context_ {
  c_eip : Z; c_esp : Z; c_ebx : Z; c_ecx : Z;
  c_edx : Z; c_esi : Z; c_edi : Z; c_ebp : Z
}.

Definition context_zero : context := Context_ 0 0 0 0 0 0 0 0.

(** x86.h: the trap frame (the unused padding halves are left out). *)
Record trapframe := Trapframe {
  tf_edi : Z; tf_esi : Z; tf_ebp : Z; tf_oesp : Z;
  tf_ebx : Z; tf_edx : Z; tf_ecx : Z; tf_eax : Z;
  tf_es : Z; tf_ds : Z; tf_trapno : Z;
  tf_err : Z; tf_eip : Z; tf_cs : Z; tf_eflags : Z;
  tf_esp : Z; tf_ss : Z
}.

Definition trapframe_zero : trapframe :=
  Trapframe 0 0 0 0 0 0 0 0 0 0 0 0 0 0 0 0 0.

Definition set_tf_eax (v : Z) (t : trapframe) : trapframe :=
  Trapframe (tf_edi t) (tf_esi t) (tf_ebp t) (tf_oesp t) (tf_ebx t) (tf_edx t)
    (tf_ecx t) v (tf_es t) (tf_ds t) (tf_trapno t) (tf_err t) (tf_eip t)
    (tf_cs t) (tf_eflags t) (tf_esp t) (tf_ss t).

Definition set_tf_eip_esp (eip esp : Z) (t : trapframe) : trapframe :=
  Trapframe (tf_edi t) (tf_esi t) (tf_ebp t) (tf_oesp t) (tf_ebx t) (tf_edx t)
    (tf_ecx t) (tf_eax t) (tf_es t) (tf_ds t) (tf_trapno t) (tf_err t) eip
    (tf_cs t) (tf_eflags t) esp (tf_ss t).

(** proc.h: per-process state. *)
Record proc := Proc {
  p_mem : Z;
  p_sz : Z;
  p_kstack : Z;
  p_state : proc_state;
  p_pid : Z;
  p_parent : option nat;
  p_chan : chan_id;
  p_killed : bool;
  p_ofile : list (option nat);
  p_cwd : option nat;
  p_context : context;
  p_tf : trapframe;
  p_name : list Z;
  p_timeslice : Z;
  p_rq : option nat
}.

(** The process table is in the bss segment: all zeroes at boot. *)
Definition proc_zero : proc :=
  Proc 0 0 0 UNUSED 0 None ChNone false (replicate NOFILE None) None
    context_zero trapframe_zero (replicate 16 0) 0 None.

(** Field assignments of [struct proc]. *)
Section proc_fields.
Context (p : proc).
Definition set_mem v := Proc v (p_sz p) (p_kstack p) (p_state p) (p_pid p)
    (p_parent p) (p_chan p) (p_killed p) (p_ofile p) (p_cwd p) (p_context p)
    (p_tf p) (p_name p) (p_timeslice p) (p_rq p).
Definition set_sz v := Proc (p_mem p) v (p_kstack p) (p_state p) (p_pid p)
    (p_parent p) (p_chan p) (p_killed p) (p_ofile p) (p_cwd p) (p_context p)
    (p_tf p) (p_name p) (p_timeslice p) (p_rq p).
Definition set_kstack v := Proc (p_mem p) (p_sz p) v (p_state p) (p_pid p)
    (p_parent p) (p_chan p) (p_killed p) (p_ofile p) (p_cwd p) (p_context p)
    (p_tf p) (p_name p) (p_timeslice p) (p_rq p).
Definition set_state v := Proc (p_mem p) (p_sz p) (p_kstack p) v (p_pid p)
    (p_parent p) (p_chan p) (p_killed p) (p_ofile p) (p_cwd p) (p_context p)
    (p_tf p) (p_name p) (p_timeslice p) (p_rq p).
Definition set_pid v := Proc (p_mem p) (p_sz p) (p_kstack p) (p_state p) v
    (p_parent p) (p_chan p) (p_killed p) (p_ofile p) (p_cwd p) (p_context p)
    (p_tf p) (p_name p) (p_timeslice p) (p_rq p).
Definition set_parent v := Proc (p_mem p) (p_sz p) (p_kstack p) (p_state p)
    (p_pid p) v (p_chan p) (p_killed p) (p_ofile p) (p_cwd p) (p_context p)
    (p_tf p) (p_name p) (p_timeslice p) (p_rq p).
Definition set_chan v := Proc (p_mem p) (p_sz p) (p_kstack p) (p_state p)
    (p_pid p) (p_parent p) v (p_killed p) (p_ofile p) (p_cwd p) (p_context p)
    (p_tf p) (p_name p) (p_timeslice p) (p_rq p).
Definition set_killed v := Proc (p_mem p) (p_sz p) (p_kstack p) (p_state p)
    (p_pid p) (p_parent p) (p_chan p) v (p_ofile p) (p_cwd p) (p_context p)
    (p_tf p) (p_name p) (p_timeslice p) (p_rq p).
Definition set_ofile v := Proc (p_mem p) (p_sz p) (p_kstack p) (p_state p)
    (p_pid p) (p_parent p) (p_chan p) (p_killed p) v (p_cwd p) (p_context p)
    (p_tf p) (p_name p) (p_timeslice p) (p_rq p).
Definition set_cwd v := Proc (p_mem p) (p_sz p) (p_kstack p) (p_state p)
    (p_pid p) (p_parent p) (p_chan p) (p_killed p) (p_ofile p) v (p_context p)
    (p_tf p) (p_name p) (p_timeslice p) (p_rq p).
Definition set_context v := Proc (p_mem p) (p_sz p) (p_kstack p) (p_state p)
    (p_pid p) (p_parent p) (p_chan p) (p_killed p) (p_ofile p) (p_cwd p) v
    (p_tf p) (p_name p) (p_timeslice p) (p_rq p).
Definition set_tf v := Proc (p_mem p) (p_sz p) (p_kstack p) (p_state p)
    (p_pid p) (p_parent p) (p_chan p) (p_killed p) (p_ofile p) (p_cwd p)
    (p_context p) v (p_name p) (p_timeslice p) (p_rq p).
Definition set_name v := Proc (p_mem p) (p_sz p) (p_kstack p) (p_state p)
    (p_pid p) (p_parent p) (p_chan p) (p_killed p) (p_ofile p) (p_cwd p)
    (p_context p) (p_tf p) v (p_timeslice p) (p_rq p).
Definition set_timeslice v := Proc (p_mem p) (p_sz p) (p_kstack p) (p_state p)
    (p_pid p) (p_parent p) (p_chan p) (p_killed p) (p_ofile p) (p_cwd p)
    (p_context p) (p_tf p) (p_name p) v (p_rq p).
Definition set_rq v := Proc (p_mem p) (p_sz p) (p_kstack p) (p_state p)
    (p_pid p) (p_parent p) (p_chan p) (p_killed p) (p_ofile p) (p_cwd p)
    (p_context p) (p_tf p) (p_name p) (p_timeslice p) v.
End proc_fields.

(** ** Run queues (rq.h) *)

Record rq_node := RqNode {
  n_proc : option nat;
  n_next : option nat;
  n_prev : option nat
}.

(** The four [struct sched_class] objects of the kernel; a [struct sched_class*]
    is one of them. *)
Inductive class_id :=
| simple_sched_class | sched_class_fifo | sched_class_RR | sched_class_MLFQ.

#[export] Instance class_id_eq_dec : EqDecision class_id.
Proof. solve_decision. Defined.

(** [struct rq]; the lock [rq_lock] of queue [q] is [LkRq q]. *)
Record rq := Rq {
  nodes : list rq_node;
  next_to_run : option nat;
  last_to_run : option nat;
  free_list : option nat;
  max_slices : Z;
  sched_class : option class_id;
  r_next : option nat;
  sub_sched_class : option class_id;
  proc_num : Z
}.

(** [rqs] is in the bss segment: all zeroes at boot. *)
Definition rq_zero : rq :=
  Rq (replicate NPROC (RqNode None None None)) None None None 0 None None None 0.

Section rq_fields.
Context (r : rq).
Definition set_nodes v := Rq v (next_to_run r) (last_to_run r) (free_list r)
    (max_slices r) (sched_class r) (r_next r) (sub_sched_class r) (proc_num r).
Definition set_next_to_run v := Rq (nodes r) v (last_to_run r) (free_list r)
    (max_slices r) (sched_class r) (r_next r) (sub_sched_class r) (proc_num r).
Definition set_last_to_run v := Rq (nodes r) (next_to_run r) v (free_list r)
    (max_slices r) (sched_class r) (r_next r) (sub_sched_class r) (proc_num r).
Definition set_free_list v := Rq (nodes r) (next_to_run r) (last_to_run r) v
    (max_slices r) (sched_class r) (r_next r) (sub_sched_class r) (proc_num r).
Definition set_max_slices v := Rq (nodes r) (next_to_run r) (last_to_run r)
    (free_list r) v (sched_class r) (r_next r) (sub_sched_class r) (proc_num r).
Definition set_sched_class v := Rq (nodes r) (next_to_run r) (last_to_run r)
    (free_list r) (max_slices r) v (r_next r) (sub_sched_class r) (proc_num r).
Definition set_r_next v := Rq (nodes r) (next_to_run r) (last_to_run r)
    (free_list r) (max_slices r) (sched_class r) v (sub_sched_class r) (proc_num r).
Definition set_sub_sched_class v := Rq (nodes r) (next_to_run r) (last_to_run r)
    (free_list r) (max_slices r) (sched_class r) (r_next r) v (proc_num r).
Definition set_proc_num v := Rq (nodes r) (next_to_run r) (last_to_run r)
    (free_list r) (max_slices r) (sched_class r) (r_next r) (sub_sched_class r) v.
End rq_fields.
