(* ===== verification/Rq.v ===== *)
(** * Run queues as linked structures (rq.h)

    A [struct rq] holds a table of [NPROC] nodes.  Used nodes are linked into
    the queue, free nodes into [free_list].  This file has the pointer
    operations the scheduling classes are written with, and the representation
    predicates they are verified against: [ring_shape] (a circular doubly linked
    queue, used by sched.c and sched_RR.c) and [fifo_shape] (a singly linked
    queue with a tail pointer, used by sched_fifo.c). *)
From S2P Require Import Prelude Kernel ProcData.

(** ** Node fields through a pointer *)
Definition node_at (n : option nat) : M rq rq_node :=
  i ← deref n; r ← kget; deref (nodes r !! i).

Definition node_proc (n : option nat) : M rq (option nat) :=
  nd ← node_at n; mret (n_proc nd).
Definition node_next (n : option nat) : M rq (option nat) :=
  nd ← node_at n; mret (n_next nd).
Definition node_prev (n : option nat) : M rq (option nat) :=
  nd ← node_at n; mret (n_prev nd).

Definition upd_proc (i : nat) (v : option nat) (ns : list rq_node) : list rq_node :=
  alter (λ nd, RqNode v (n_next nd) (n_prev nd)) i ns.
Definition upd_next (i : nat) (v : option nat) (ns : list rq_node) : list rq_node :=
  alter (λ nd, RqNode (n_proc nd) v (n_prev nd)) i ns.
Definition upd_prev (i : nat) (v : option nat) (ns : list rq_node) : list rq_node :=
  alter (λ nd, RqNode (n_proc nd) (n_next nd) v) i ns.

Definition set_node_proc (n v : option nat) : M rq unit :=
  i ← deref n; _ ← node_at n; kmodify (λ r, set_nodes r (upd_proc i v (nodes r))).
Definition set_node_next (n v : option nat) : M rq unit :=
  i ← deref n; _ ← node_at n; kmodify (λ r, set_nodes r (upd_next i v (nodes r))).
Definition set_node_prev (n v : option nat) : M rq unit :=
  i ← deref n; _ ← node_at n; kmodify (λ r, set_nodes r (upd_prev i v (nodes r))).

(** ** Reading the fields of an updated table *)
Definition fproc (ns : list rq_node) (i : nat) : option (option nat) := n_proc <$> ns !! i.
Definition fnext (ns : list rq_node) (i : nat) : option (option nat) := n_next <$> ns !! i.
Definition fprev (ns : list rq_node) (i : nat) : option (option nat) := n_prev <$> ns !! i.

Section fields.
Context (ns : list rq_node) (i j : nat) (v : option nat).
Local Ltac go :=
  intros; unfold fproc, fnext, fprev, upd_proc, upd_next, upd_prev;
  rewrite list_lookup_alter; repeat case_decide; subst; try done;
  match goal with |- context [ns !! ?k] =>
    let E := fresh in destruct (ns !! k) eqn:E; try done;
    apply lookup_ge_None in E; lia
  end.

Lemma fproc_upd_proc : i < length ns → fproc (upd_proc i v ns) j = if decide (i = j) then Some v else fproc ns j.
Proof. go. Qed.
Lemma fnext_upd_next : i < length ns → fnext (upd_next i v ns) j = if decide (i = j) then Some v else fnext ns j.
Proof. go. Qed.
Lemma fprev_upd_prev : i < length ns → fprev (upd_prev i v ns) j = if decide (i = j) then Some v else fprev ns j.
Proof. go. Qed.
Lemma fproc_upd_next : fproc (upd_next i v ns) j = fproc ns j.
Proof. go. Qed.
Lemma fproc_upd_prev : fproc (upd_prev i v ns) j = fproc ns j.
Proof. go. Qed.
Lemma fnext_upd_proc : fnext (upd_proc i v ns) j = fnext ns j.
Proof. go. Qed.
Lemma fnext_upd_prev : fnext (upd_prev i v ns) j = fnext ns j.
Proof. go. Qed.
Lemma fprev_upd_proc : fprev (upd_proc i v ns) j = fprev ns j.
Proof. go. Qed.
Lemma fprev_upd_next : fprev (upd_next i v ns) j = fprev ns j.
Proof. go. Qed.
Lemma length_upd_proc : length (upd_proc i v ns) = length ns.
Proof. apply length_alter. Qed.
Lemma length_upd_next : length (upd_next i v ns) = length ns.
Proof. apply length_alter. Qed.
Lemma length_upd_prev : length (upd_prev i v ns) = length ns.
Proof. apply length_alter. Qed.
End fields.

Create Rewrite HintDb rqf.
#[export] Hint Rewrite fproc_upd_next fproc_upd_prev fnext_upd_proc fnext_upd_prev
  fprev_upd_proc fprev_upd_next length_upd_proc length_upd_next length_upd_prev : rqf.
#[global] Arguments upd_proc : simpl never.
#[global] Arguments upd_next : simpl never.
#[global] Arguments upd_prev : simpl never.

(** Closes or splits a goal about the fields of an updated table. *)
Ltac rqf :=
  repeat (first
    [ progress (autorewrite with rqf)
    | rewrite fproc_upd_proc by (autorewrite with rqf; lia)
    | rewrite fnext_upd_next by (autorewrite with rqf; lia)
    | rewrite fprev_upd_prev by (autorewrite with rqf; lia)
    | rewrite decide_True by congruence
    | rewrite decide_False by congruence ]).

Lemma f_lt ns i v : (fnext ns i = Some v ∨ fprev ns i = Some v ∨ fproc ns i = Some v) → i < length ns.
Proof.
  unfold fnext, fprev, fproc. intros H. apply lookup_lt_is_Some.
  destruct (ns !! i); [eauto|]. by destruct H as [?|[?|?]].
Qed.

Lemma f_is_Some ns i : i < length ns →
  is_Some (fnext ns i) ∧ is_Some (fprev ns i) ∧ is_Some (fproc ns i).
Proof.
  intros [nd E]%lookup_lt_is_Some. unfold fnext, fprev, fproc. rewrite E. eauto.
Qed.

(** ** Running the node operations *)
Section node_run.
Context {B : Type} (c : kctx) (r : rq) (i : nat).

Lemma node_proc_bind v (f : _ → M rq B) :
  fproc (nodes r) i = Some v → (node_proc (Some i) ≫= f) c r = f v c r.
Proof.
  unfold fproc. destruct (nodes r !! i) as [nd|] eqn:E; [|done]. intros [= <-].
  unfold node_proc, node_at, mbind, M_bind, deref, kget. simpl. by rewrite E.
Qed.
Lemma node_next_bind v (f : _ → M rq B) :
  fnext (nodes r) i = Some v → (node_next (Some i) ≫= f) c r = f v c r.
Proof.
  unfold fnext. destruct (nodes r !! i) as [nd|] eqn:E; [|done]. intros [= <-].
  unfold node_next, node_at, mbind, M_bind, deref, kget. simpl. by rewrite E.
Qed.
Lemma node_prev_bind v (f : _ → M rq B) :
  fprev (nodes r) i = Some v → (node_prev (Some i) ≫= f) c r = f v c r.
Proof.
  unfold fprev. destruct (nodes r !! i) as [nd|] eqn:E; [|done]. intros [= <-].
  unfold node_prev, node_at, mbind, M_bind, deref, kget. simpl. by rewrite E.
Qed.

Lemma node_proc_run v : fproc (nodes r) i = Some v → node_proc (Some i) c r = Ok v c r.
Proof.
  unfold fproc. destruct (nodes r !! i) as [nd|] eqn:E; [|done]. intros [= <-].
  unfold node_proc, node_at, mbind, M_bind, deref, kget. simpl. by rewrite E.
Qed.

Lemma set_node_proc_run v : i < length (nodes r) →
  set_node_proc (Some i) v c r = Ok () c (set_nodes r (upd_proc i v (nodes r))).
Proof.
  intros [nd E]%lookup_lt_is_Some.
  unfold set_node_proc, node_at, mbind, M_bind, deref, kget. simpl. by rewrite E.
Qed.
Lemma set_node_next_run v : i < length (nodes r) →
  set_node_next (Some i) v c r = Ok () c (set_nodes r (upd_next i v (nodes r))).
Proof.
  intros [nd E]%lookup_lt_is_Some.
  unfold set_node_next, node_at, mbind, M_bind, deref, kget. simpl. by rewrite E.
Qed.
Lemma set_node_prev_run v : i < length (nodes r) →
  set_node_prev (Some i) v c r = Ok () c (set_nodes r (upd_prev i v (nodes r))).
Proof.
  intros [nd E]%lookup_lt_is_Some.
  unfold set_node_prev, node_at, mbind, M_bind, deref, kget. simpl. by rewrite E.
Qed.
End node_run.

(** One step of the node code: reads use a known field, writes a node in range. *)
Ltac rq_len := simpl; autorewrite with rqf; (assumption || lia).
Ltac rq_fld := simpl; rqf; first [eassumption | reflexivity].
Ltac rqstep :=
  first
    [ progress (autorewrite with krun; simpl)
    | erewrite node_proc_bind by rq_fld
    | erewrite node_next_bind by rq_fld
    | erewrite node_prev_bind by rq_fld
    | erewrite bind_Ok by (apply set_node_proc_run; rq_len)
    | erewrite bind_Ok by (apply set_node_next_run; rq_len)
    | erewrite bind_Ok by (apply set_node_prev_run; rq_len)
    | erewrite node_proc_run by rq_fld
    | rewrite set_node_proc_run by rq_len
    | rewrite set_node_next_run by rq_len
    | rewrite set_node_prev_run by rq_len ].

(** ** Representation of a queue *)

(** [a] is followed by [b] in the doubly linked queue. *)
Definition linked (ns : list rq_node) (a b : nat) : Prop :=
  fnext ns a = Some (Some b) ∧ fprev ns b = Some (Some a).

(** The nodes of [l] form a circular doubly linked list in that order. *)
Definition ring (ns : list rq_node) (l : list nat) : Prop :=
  match l with [] => True | x :: _ => adj (linked ns) (l ++ [x]) end.

(** [h] heads a null-terminated chain through the [next] fields. *)
Fixpoint chain (ns : list rq_node) (h : option nat) (f : list nat) : Prop :=
  match f with
  | [] => h = None
  | n :: f' => h = Some n ∧ ∃ h', fnext ns n = Some h' ∧ chain ns h' f'
  end.

(** What every class maintains: [l] are the nodes in use, [f] the free ones,
    together the whole table; node [l[i]] carries process [ps[i]]. *)
Record node_table (r : rq) (l f ps : list nat) : Prop := {
  nt_len : length (nodes r) = NPROC;
  nt_perm : l ++ f ≡ₚ seq 0 NPROC;
  nt_free : chain (nodes r) (free_list r) f;
  nt_procs : Forall2 (λ n p, fproc (nodes r) n = Some (Some p)) l ps
}.

(** The circular queue of sched.c and sched_RR.c. *)
Record ring_shape (r : rq) (l f ps : list nat) : Prop := {
  rs_table : node_table r l f ps;
  rs_ring : ring (nodes r) l;
  rs_head : next_to_run r = head l
}.
Definition ring_rep (r : rq) (ps : list nat) : Prop := ∃ l f, ring_shape r l f ps.
(** A queue between operations: its count is right too. *)
Definition ring_queue (r : rq) (ps : list nat) : Prop :=
  ring_rep r ps ∧ proc_num r = Z.of_nat (length ps).

(** The singly linked, null-terminated queue of sched_fifo.c. *)
Record fifo_shape (r : rq) (l f ps : list nat) : Prop := {
  fs_table : node_table r l f ps;
  fs_chain : chain (nodes r) (next_to_run r) l;
  fs_last : l ≠ [] → last_to_run r = last l
}.
Definition fifo_queue (r : rq) (ps : list nat) : Prop :=
  (∃ l f, fifo_shape r l f ps) ∧ proc_num r = Z.of_nat (length ps).

(** *** Facts about the node table *)
Section table.
Context (r : rq) (l f ps : list nat) (T : node_table r l f ps).

Lemma nt_nodup : NoDup (l ++ f).
Proof. rewrite (nt_perm _ _ _ _ T). apply NoDup_seq. Qed.

Lemma nt_lt n : n ∈ l ++ f → n < length (nodes r).
Proof.
  rewrite (nt_perm _ _ _ _ T), (nt_len _ _ _ _ T). intros H. apply elem_of_seq in H. lia.
Qed.

Lemma nt_length : length l + length f = NPROC.
Proof. pose proof (Permutation_length (nt_perm _ _ _ _ T)) as H. by rewrite length_app, length_seq in H. Qed.

Lemma nt_length_ps : length ps = length l.
Proof. symmetry. apply (Forall2_length _ _ _ (nt_procs _ _ _ _ T)). Qed.
End table.

Lemma chain_ext ns ns' h f :
  (∀ n, n ∈ f → fnext ns' n = fnext ns n) → chain ns h f → chain ns' h f.
Proof.
  revert h. induction f as [|n f IH]; [done|]. intros h H [-> (h' & E & C)].
  split; [done|]. exists h'. rewrite H by inl. split; [done|].
  apply IH; [|done]. intros m Hm. apply H. inl.
Qed.

Lemma procs_ext ns ns' l ps :
  (∀ n, n ∈ l → fproc ns' n = fproc ns n) →
  Forall2 (λ n p, fproc ns n = Some (Some p)) l ps →
  Forall2 (λ n p, fproc ns' n = Some (Some p)) l ps.
Proof.
  intros H F. induction F as [|n p l ps E F IH]; constructor.
  - rewrite H by inl. done.
  - apply IH. intros m Hm. apply H. inl.
Qed.

(** *** Rings *)
Lemma ring_rotate ns x l : ring ns (x :: l) ↔ ring ns (l ++ [x]).
Proof.
  destruct l as [|y l]; [done|].
  change (ring ns (x :: y :: l)) with (adj (linked ns) (x :: y :: l ++ [x])).
  change (ring ns ((y :: l) ++ [x])) with (adj (linked ns) (y :: (l ++ [x]) ++ [y])).
  rewrite <- app_assoc, adj_cons, (adj_app _ (y :: l) x [y]). simpl. tauto.
Qed.

Lemma ring_rotate_app ns l1 l2 : ring ns (l1 ++ l2) ↔ ring ns (l2 ++ l1).
Proof.
  revert l2. induction l1 as [|x l1 IH]; intros l2; [by rewrite app_nil_r|].
  change ((x :: l1) ++ l2) with (x :: (l1 ++ l2)). rewrite ring_rotate, <- app_assoc, IH.
  by rewrite <- app_assoc.
Qed.

(** Neighbours inside a ring, and around its end. *)
Lemma ring_mid ns l1 a b l2 : ring ns (l1 ++ a :: b :: l2) → linked ns a b.
Proof.
  rewrite ring_rotate_app. simpl. unfold ring. simpl. intros [H _]. done.
Qed.
Lemma ring_ends ns a l : ring ns (a :: l) → linked ns (default a (last l)) a.
Proof.
  destruct l as [|b l] using rev_ind; [by intros [H _]|].
  rewrite last_snoc. simpl. intros H. apply (ring_mid ns [] b a l), ring_rotate, H.
Qed.

Lemma ring_ext ns ns' l :
  (∀ n, n ∈ l → fnext ns' n = fnext ns n ∧ fprev ns' n = fprev ns n) →
  ring ns l → ring ns' l.
Proof.
  destruct l as [|x l]; [done|]. intros H. apply adj_impl.
  intros l1 a b l2 E [? ?].
  assert (Hab : a ∈ (x :: l) ++ [x] ∧ b ∈ (x :: l) ++ [x]) by (rewrite E; inl).
  destruct (H a), (H b); [inl..|]. unfold linked. split; congruence.
Qed.

(** The last node of the non-empty list [u :: t]. *)
Definition tail_of (u : nat) (t : list nat) : nat := default u (last t).

Lemma tail_of_snoc u t x : tail_of u (t ++ [x]) = x.
Proof. unfold tail_of. by rewrite last_snoc. Qed.

Lemma last_tail_of u t : last (u :: t) = Some (tail_of u t).
Proof. unfold tail_of. rewrite last_cons. by destruct (last t). Qed.

Lemma tail_of_elem u t : tail_of u t ∈ u :: t.
Proof. apply last_Some_elem_of, last_tail_of. Qed.

Lemma ring_unfold ns u t :
  ring ns (u :: t) ↔ adj (linked ns) (u :: t) ∧ linked ns (tail_of u t) u.
Proof.
  change (ring ns (u :: t)) with (adj (linked ns) (u :: t ++ [u])).
  destruct t as [|x t _] using rev_ind; [unfold tail_of; simpl; tauto|].
  rewrite tail_of_snoc. change (u :: (t ++ [x]) ++ [u]) with ((u :: (t ++ [x])) ++ [u]).
  rewrite app_comm_cons, <- app_assoc.
  change ([x] ++ [u]) with (x :: [u]). rewrite adj_app. simpl. tauto.
Qed.

Lemma adj_linked_frame ns ns' u t :
  NoDup (u :: t) → adj (linked ns) (u :: t) →
  (∀ n, n ∈ u :: t → n ≠ tail_of u t → fnext ns' n = fnext ns n) →
  (∀ n, n ∈ u :: t → n ≠ u → fprev ns' n = fprev ns n) →
  adj (linked ns') (u :: t).
Proof.
  intros ND A Hn Hp. revert A. apply adj_impl. intros l1 a b l2 E [La Lb].
  assert (a ∈ u :: t ∧ b ∈ u :: t) as [Ia Ib] by (rewrite E; inl).
  rewrite E in ND. pose proof (last_tail_of u t) as Z. rewrite E, last_app_cons, last_cons_cons in Z.
  apply last_Some_elem_of in Z. apply NoDup_app in ND as (_ & ND1 & ND2).
  split; [rewrite Hn, La|rewrite Hp, Lb]; try done.
  - intros ->. apply NoDup_cons in ND2 as [ND2 _]. done.
  - intros ->. destruct l1 as [|? l1]; simplify_eq/=.
    + apply NoDup_cons in ND2 as [ND2 _]. apply ND2. inl.
    + eapply ND1; [by left|right; left].
Qed.

(** Linking [x] in before the head [u], that is, at the end of the queue. *)
Lemma ring_snoc ns ns' u t x :
  ring ns (u :: t) → NoDup (u :: t) →
  linked ns' (tail_of u t) x → linked ns' x u →
  (∀ n, n ∈ u :: t → n ≠ tail_of u t → fnext ns' n = fnext ns n) →
  (∀ n, n ∈ u :: t → n ≠ u → fprev ns' n = fprev ns n) →
  ring ns' (u :: t ++ [x]).
Proof.
  intros [A _]%ring_unfold ND L1 L2 Hn Hp. apply ring_unfold. rewrite tail_of_snoc.
  split; [|done]. pose proof (adj_linked_frame _ _ _ _ ND A Hn Hp) as A'.
  destruct t as [|y t _] using rev_ind; [done|].
  rewrite tail_of_snoc in L1. rewrite <- app_assoc.
  change (u :: t ++ [y] ++ [x]) with ((u :: t) ++ y :: [x]). rewrite adj_app. done.
Qed.

(** Unlinking [x] from a ring with other nodes. *)
Lemma ring_unlink ns ns' x u t :
  ring ns (x :: u :: t) → NoDup (u :: t) →
  linked ns' (tail_of u t) u →
  (∀ n, n ∈ u :: t → n ≠ tail_of u t → fnext ns' n = fnext ns n) →
  (∀ n, n ∈ u :: t → n ≠ u → fprev ns' n = fprev ns n) →
  ring ns' (u :: t).
Proof.
  intros [[_ A] _]%ring_unfold ND L Hn Hp. apply ring_unfold. split; [|done].
  by apply (adj_linked_frame ns).
Qed.

(** The free list gains a node at its head. *)
Lemma chain_push ns ns' h f x :
  chain ns h f → fnext ns' x = Some h → (∀ n, n ∈ f → fnext ns' n = fnext ns n) →
  chain ns' (Some x) (x :: f).
Proof. intros C E H. split; [done|]. exists h. split; [done|]. by apply (chain_ext ns). Qed.

(** ** Moving a node between the free list and the queue *)

(** The first free node becomes the last node of the queue. *)
Lemma node_table_link r r' l x f ps p :
  node_table r l (x :: f) ps →
  length (nodes r') = length (nodes r) →
  fnext (nodes r) x = Some (free_list r') →
  fproc (nodes r') x = Some (Some p) →
  (∀ n, n ∈ l → fproc (nodes r') n = fproc (nodes r) n) →
  (∀ n, n ∈ f → fnext (nodes r') n = fnext (nodes r) n) →
  node_table r' (l ++ [x]) f (ps ++ [p]).
Proof.
  intros T Hl Hx Hp Hps Hf. split.
  - by rewrite Hl, (nt_len _ _ _ _ T).
  - rewrite <- app_assoc. apply (nt_perm _ _ _ _ T).
  - pose proof (nt_free _ _ _ _ T) as [_ (h & E & C)]. simplify_eq.
    by apply (chain_ext (nodes r)).
  - apply Forall2_app; [|by repeat constructor].
    by apply (procs_ext (nodes r)), (nt_procs _ _ _ _ T).
Qed.

(** A queue node goes to the head of the free list. *)
Lemma node_table_unlink r r' l1 x l2 f p1 p p2 :
  node_table r (l1 ++ x :: l2) f (p1 ++ p :: p2) →
  length p1 = length l1 →
  length (nodes r') = length (nodes r) →
  free_list r' = Some x →
  fnext (nodes r') x = Some (free_list r) →
  (∀ n, n ∈ l1 ++ l2 → fproc (nodes r') n = fproc (nodes r) n) →
  (∀ n, n ∈ f → fnext (nodes r') n = fnext (nodes r) n) →
  node_table r' (l1 ++ l2) (x :: f) (p1 ++ p2).
Proof.
  intros T Hlen Hl Hfl Hx Hps Hf. split.
  - by rewrite Hl, (nt_len _ _ _ _ T).
  - rewrite <- (nt_perm _ _ _ _ T). rewrite <- !app_assoc.
    apply Permutation_app_head. simpl. by rewrite Permutation_middle.
  - rewrite Hfl. eapply chain_push; [apply (nt_free _ _ _ _ T)|done|done].
  - apply (procs_ext (nodes r)); [done|].
    pose proof (nt_procs _ _ _ _ T) as F.
    apply Forall2_app_inv in F as [F1 F2]; [|done]. inversion F2; subst.
    by apply Forall2_app.
Qed.

(** A field rewrite at a node known to differ from the updated ones. *)
Lemma NoDup_mid_ne {A} (l1 : list A) x l2 n : NoDup (l1 ++ x :: l2) → n ∈ l1 ++ l2 → n ≠ x.
Proof.
  rewrite <- Permutation_middle. intros [H _]%NoDup_cons Hn ->. done.
Qed.

(** Neighbours of a node in a ring: what its links say. *)
Lemma ring_links ns l1 x l2 :
  ring ns (l1 ++ x :: l2) → ∃ pv nx, fprev ns x = Some (Some pv) ∧ fnext ns x = Some (Some nx) ∧
    match l2 ++ l1 with
    | [] => pv = x ∧ nx = x
    | u :: t => nx = u ∧ pv = tail_of u t
    end.
Proof.
  rewrite ring_rotate_app. change ((x :: l2) ++ l1) with (x :: l2 ++ l1).
  destruct (l2 ++ l1) as [|u t]; intros [A [L1 L2]]%ring_unfold.
  - exists x, x. done.
  - destruct A as [[? ?] _]. exists (tail_of u t), u. split; [|done].
    rewrite L2. unfold tail_of. simpl. rewrite last_cons. by destruct (last t).
Qed.

(** The three assignments that unlink a node with neighbours [pv] and [nx]. *)
Lemma ring_unlink_upd ns l1 x l2 pv nx fl :
  ring ns (l1 ++ x :: l2) → NoDup (l1 ++ x :: l2) → l1 ++ l2 ≠ [] →
  (∀ n, n ∈ l1 ++ x :: l2 → n < length ns) →
  fprev ns x = Some (Some pv) → fnext ns x = Some (Some nx) →
  ring (upd_next x fl (upd_prev nx (Some pv) (upd_next pv (Some nx) ns))) (l1 ++ l2).
Proof.
  intros R ND NE Hlt Hpv Hnx.
  destruct (ring_links _ _ _ _ R) as (pv' & nx' & E1 & E2 & E3). simplify_eq.
  apply ring_rotate_app.
  assert (ND' : NoDup (x :: l2 ++ l1)).
  { rewrite Permutation_app_comm, Permutation_middle. done. }
  assert (Hlt' : ∀ n, n ∈ x :: l2 ++ l1 → n < length ns) by (intros; apply Hlt; inl).
  apply ring_rotate_app in R. change ((x :: l2) ++ l1) with (x :: l2 ++ l1) in R.
  destruct (l2 ++ l1) as [|u t] eqn:El.
  { apply app_eq_nil in El as [-> ->]. done. }
  destruct E3 as [-> ->]. apply NoDup_cons in ND' as [Hx ND'].
  pose proof (tail_of_elem u t) as Ht.
  assert (x ≠ u ∧ x ≠ tail_of u t) as [? ?] by (split; intros ->; apply Hx; inl).
  assert (u < length ns ∧ x < length ns ∧ tail_of u t < length ns) as (? & ? & ?)
    by (repeat split; apply Hlt'; inl).
  eapply ring_unlink; [exact R|done|..].
  - split; rqf; done.
  - intros n Hn Hne. assert (n ≠ x) by congruence. by rqf.
  - intros n Hn Hne. by rqf.
Qed.

(** The fields queue operations leave alone. *)
Definition same_cfg (r r' : rq) : Prop :=
  max_slices r' = max_slices r ∧ sched_class r' = sched_class r ∧
  r_next r' = r_next r ∧ sub_sched_class r' = sub_sched_class r.

Lemma same_cfg_refl r : same_cfg r r.
Proof. done. Qed.
Lemma same_cfg_trans r1 r2 r3 : same_cfg r1 r2 → same_cfg r2 r3 → same_cfg r1 r3.
Proof. unfold same_cfg. intuition congruence. Qed.

(** The first free node of a table that is not full. *)
Lemma ring_shape_free r l x f ps :
  ring_shape r l (x :: f) ps →
  free_list r = Some x ∧ x < length (nodes r) ∧ NoDup l ∧ x ∉ l ∧ x ∉ f ∧
  (∀ n, n ∈ l → n < length (nodes r)) ∧ (∀ n, n ∈ l → n ∉ f) ∧
  ∃ h, fnext (nodes r) x = Some h.
Proof.
  intros [T _ _]. pose proof (nt_nodup _ _ _ _ T) as ND.
  pose proof (nt_free _ _ _ _ T) as [E (h & E' & _)].
  apply NoDup_app in ND as (ND & D & [ND1 ND2]%NoDup_cons).
  split_and!; eauto.
  - apply (nt_lt _ _ _ _ T). inl.
  - intros Hx. apply (D x Hx). by left.
  - intros n Hn. apply (nt_lt _ _ _ _ T). inl.
  - intros n Hn Hf. apply (D n Hn). by right.
Qed.

Lemma ring_prev ns l1 x l2 :
  ring ns (l1 ++ x :: l2) → fprev ns x = Some (Some (default x (last (l2 ++ l1)))).
Proof.
  intros (pv & nx & E1 & _ & E3)%ring_links. rewrite E1.
  destruct (l2 ++ l1) as [|u t]; destruct E3 as [? ->]; [by subst|].
  by rewrite last_tail_of.
Qed.
Lemma ring_next ns l1 x l2 :
  ring ns (l1 ++ x :: l2) → fnext ns x = Some (Some (default x (head (l2 ++ l1)))).
Proof.
  intros (pv & nx & _ & E2 & E3)%ring_links. rewrite E2.
  destruct (l2 ++ l1) as [|u t]; destruct E3 as [? ?]; by subst.
Qed.

(** A queue node that carries [p] splits the queue the way [p] splits the
    processes. *)
Lemma procs_split ns l p1 p p2 :
  Forall2 (λ n q, fproc ns n = Some (Some q)) l (p1 ++ p :: p2) →
  ∃ l1 x l2, l = l1 ++ x :: l2 ∧ length p1 = length l1 ∧ fproc ns x = Some (Some p) ∧
    Forall2 (λ n q, fproc ns n = Some (Some q)) l1 p1 ∧
    Forall2 (λ n q, fproc ns n = Some (Some q)) l2 p2.
Proof.
  intros (l1 & l' & F1 & F2 & ->)%Forall2_app_inv_r.
  apply Forall2_cons_inv_r in F2 as (x & l2 & Hx & F2 & ->).
  exists l1, x, l2. split_and!; try done. symmetry. by eapply Forall2_length.
Qed.

Lemma procs_other ns l ps p n :
  Forall2 (λ n q, fproc ns n = Some (Some q)) l ps → p ∉ ps → n ∈ l →
  ∃ q, fproc ns n = Some (Some q) ∧ q ≠ p.
Proof.
  intros F Hp (i & Hi)%list_elem_of_lookup.
  eapply Forall2_lookup_l in F as (q & Hq & E); [|done].
  exists q. split; [done|]. intros ->. apply Hp. by eapply list_elem_of_lookup_2.
Qed.

Lemma node_table_rotate r l1 l2 f p1 p2 :
  length p1 = length l1 →
  node_table r (l1 ++ l2) f (p1 ++ p2) → node_table r (l2 ++ l1) f (p2 ++ p1).
Proof.
  intros Hl [H1 H2 H3 H4]. split; try done.
  - by rewrite (Permutation_app_comm l2).
  - apply Forall2_app_inv in H4 as [F1 F2]; [|done]. by apply Forall2_app.
Qed.

(** Everything the deletion code of a circular class needs to know about the
    node it removes. *)
Lemma ring_shape_split r ps p1 p p2 :
  ring_rep r ps → ps = p1 ++ p :: p2 →
  ∃ l1 x l2 f, ring_shape r (l1 ++ x :: l2) f (p1 ++ p :: p2) ∧
    length p1 = length l1 ∧ fproc (nodes r) x = Some (Some p) ∧
    NoDup (l1 ++ x :: l2) ∧ (∀ n, n ∈ l1 ++ x :: l2 → n < length (nodes r)) ∧
    (∀ n, n ∈ l1 ++ x :: l2 → n ∉ f) ∧
    Forall2 (λ n q, fproc (nodes r) n = Some (Some q)) l1 p1 ∧
    Forall2 (λ n q, fproc (nodes r) n = Some (Some q)) l2 p2.
Proof.
  intros (l & f & R) ->. pose proof (rs_table _ _ _ _ R) as T.
  destruct (procs_split _ _ _ _ _ (nt_procs _ _ _ _ T)) as (l1 & x & l2 & -> & Hl & Hx & F1 & F2).
  pose proof (nt_nodup _ _ _ _ T) as ND. pose proof (nt_lt _ _ _ _ T) as Hlt.
  apply NoDup_app in ND as (ND & D & _).
  exists l1, x, l2, f. split_and!; try done. intros n Hn. apply Hlt. rewrite elem_of_app. by left.
Qed.

(** The contract of the linking code of a circular class: node [x] comes from
    the free list and goes between the last node and the head. *)
Lemma ring_shape_link r r' l x f ps p :
  ring_shape r l (x :: f) ps →
  length (nodes r') = length (nodes r) →
  fnext (nodes r) x = Some (free_list r') →
  next_to_run r' = head (l ++ [x]) →
  (∀ n, fproc (nodes r') n =
     if decide (x = n) then Some (Some p) else fproc (nodes r) n) →
  (∀ n, fnext (nodes r') n =
     if decide (x = n) then Some (Some (default x (head l)))
     else if decide (last l = Some n) then Some (Some x) else fnext (nodes r) n) →
  (∀ n, fprev (nodes r') n =
     if decide (x = n) then Some (Some (default x (last l)))
     else if decide (head l = Some n) then Some (Some x) else fprev (nodes r) n) →
  ring_shape r' (l ++ [x]) f (ps ++ [p]).
Proof.
  intros R Hlen Hfl Hhd Hpr Hnx Hpv.
  destruct (ring_shape_free _ _ _ _ _ R) as (_ & Hx & NDl & Hxl & Hxf & Hlt & Hlf & _).
  split; [|destruct l as [|u t]|done].
  - eapply node_table_link; [apply R|done..| | |].
    + by rewrite Hpr, decide_True.
    + intros n Hn. rewrite Hpr, decide_False; [done|]. by intros ->.
    + intros n Hn. rewrite Hnx, !decide_False; [done| |by intros ->].
      intros E%last_Some_elem_of. by apply (Hlf n).
  - split; [|done]. split; [rewrite Hnx|rewrite Hpv]; by rewrite decide_True.
  - assert (x ≠ u) by (intros ->; apply Hxl; inl).
    pose proof (tail_of_elem u t) as Ht. pose proof (last_tail_of u t) as Hlast.
    assert (x ≠ tail_of u t) by (intros E; apply Hxl; by rewrite E).
    eapply ring_snoc; [apply R|done|split|split| |].
    + by rewrite Hnx, decide_False, decide_True by done.
    + by rewrite Hpv, decide_True, Hlast.
    + by rewrite Hnx, decide_True.
    + by rewrite Hpv, decide_False, decide_True.
    + intros n Hn Hne. rewrite Hnx, !decide_False; [done|congruence|by intros ->].
    + intros n Hn Hne. rewrite Hpv, !decide_False; [done|simpl; congruence|by intros ->].
Qed.

(** Discharges the field equations of [ring_shape_link] after running the code. *)
Ltac rqf_cases := intros; simpl; rqf; repeat case_decide; simplify_eq/=; done.

(** ** Singly linked chains *)
Definition nlink (ns : list rq_node) (a b : nat) : Prop := fnext ns a = Some (Some b).

Lemma chain_spec ns h l :
  chain ns h l ↔ h = head l ∧ adj (nlink ns) l ∧
    (∀ z, last l = Some z → fnext ns z = Some None).
Proof.
  revert h. induction l as [|x l IH]; intros h; simpl; [naive_solver|].
  setoid_rewrite IH. destruct l as [|y l]; simpl.
  - split.
    + intros (-> & h' & E & -> & _ & _). split_and!; try done. intros z [= <-]. done.
    + intros (-> & _ & H). split; [done|]. exists None. split_and!; try done. by apply H.
  - unfold nlink at 2. split.
    + intros (-> & h' & E & -> & A & H). done.
    + intros (-> & [E A] & H). split; [done|]. by exists (Some y).
Qed.

(** Where a chain continues after a node. *)
Lemma chain_next ns h l1 x l2 : chain ns h (l1 ++ x :: l2) → fnext ns x = Some (head l2).
Proof.
  intros (_ & A & H)%chain_spec. destruct l2 as [|y l2]; simpl.
  - apply H. by rewrite last_snoc.
  - by apply adj_mid in A.
Qed.

Lemma adj_remove {A} (R : A → A → Prop) l1 u x l2 :
  adj R (l1 ++ u :: x :: l2) → adj R (l1 ++ [u]) ∧ adj R l2.
Proof. rewrite adj_app. destruct l2 as [|y l2]; simpl; tauto. Qed.

(** Cutting [x] out after [u]. *)
Lemma chain_cut ns ns' h l1 u x l2 :
  chain ns h (l1 ++ u :: x :: l2) → NoDup (l1 ++ u :: x :: l2) →
  fnext ns' u = Some (head l2) →
  (∀ n, n ∈ l1 ++ l2 → fnext ns' n = fnext ns n) →
  chain ns' h (l1 ++ u :: l2).
Proof.
  intros C ND Hu Hn. pose proof C as (-> & A & H)%chain_spec. apply chain_spec.
  destruct (adj_remove _ _ _ _ _ A) as [A1 A2].
  assert (Hl2 : adj (nlink ns') l2).
  { revert A2. apply adj_impl. intros m1 a b m2 -> E. unfold nlink. rewrite Hn; [done|inl]. }
  split_and!.
  - by destruct l1.
  - apply adj_app. split.
    + revert A1. apply adj_impl. intros m1 a b m2 E La. unfold nlink. rewrite Hn; [done|].
      assert (Ha : a ∈ l1 ++ [u]) by (rewrite E; inl).
      apply elem_of_app in Ha as [Ha|Ha]; [inl|]. exfalso.
      apply list_elem_of_singleton in Ha as ->.
      destruct m2 as [|z m2 _] using rev_ind.
      * change (u :: [b]) with ([u] ++ [b]) in E. rewrite app_assoc in E.
        apply app_inj_2 in E as [-> [= ->]]; [|done].
        rewrite <- app_assoc in ND. apply NoDup_app in ND as (_ & _ & ND).
        apply NoDup_cons in ND as [ND _]. apply ND. inl.
      * rewrite (app_comm_cons m2 [z] b), (app_comm_cons _ [z] u), app_assoc in E.
        apply app_inj_2 in E as [-> [= ->]]; [|done].
        apply NoDup_app in ND as (_ & ND & _). apply (ND z); inl.
    + destruct l2 as [|y l2]; [done|]. split; [done|apply Hl2].
  - intros z Hz. rewrite last_app_cons in Hz. destruct l2 as [|y l2].
    + simpl in Hz. simplify_eq. done.
    + rewrite last_cons_cons in Hz. rewrite Hn.
      * apply H. by rewrite last_app_cons, !last_cons_cons.
      * apply last_Some_elem_of in Hz. inl.
Qed.

(** Appending [x] after the last node. *)
Lemma chain_snoc ns ns' h l x :
  chain ns h l → NoDup (l ++ [x]) → fnext ns' x = Some None →
  (∀ z, last l = Some z → fnext ns' z = Some (Some x)) →
  (∀ n, n ∈ l → last l ≠ Some n → fnext ns' n = fnext ns n) →
  chain ns' (head (l ++ [x])) (l ++ [x]).
Proof.
  intros (_ & A & H)%chain_spec ND Hx Hz Hn. apply chain_spec. split_and!.
  - done.
  - destruct l as [|z l _] using rev_ind; [done|].
    rewrite <- app_assoc. change ([z] ++ [x]) with (z :: [x]). apply adj_app. split.
    + revert A. apply adj_impl. intros m1 a b m2 E La. unfold nlink. rewrite Hn; [done|rewrite E; inl|].
      rewrite E, last_app_cons, last_cons_cons. intros Ha%last_Some_elem_of.
      rewrite E, <- app_assoc in ND. apply NoDup_app in ND as (_ & _ & ND).
      apply NoDup_cons in ND as [ND _]. apply ND. inl.
    + split; [|done]. apply Hz. by rewrite last_snoc.
  - intros z. rewrite last_snoc. by intros [= <-].
Qed.
