(* ===== verification/SchedState.v ===== *)
(** * The state the scheduler works on

    One processor's view of the scheduler: the run queues [rqs], the process
    table [proc], the [cpus] table (the fields proc.c uses), [idleproc] and the
    number of the processor that executes ([cpu()]).  [at_rq q m] runs node code
    on [rqs[q]]; [at_proc p f] assigns a field of [proc[p]]. *)
From S2P Require Import Prelude Kernel ProcData Rq.

(** proc.h: the scheduling fields of [struct cpu]; the descriptor table, the
    interrupt nesting and the boot flag are in Mmu and Spinlock. *)
Record cpu := Cpu {
  curproc : option nat;
  cpu_context : context;
  cpu_rq : option nat
}.

(** Where a process that is not running is suspended in the kernel: the code
    that runs when [swtch] returns to it.  [KForkret] is a process that has not
    run yet; the others are the callers of [schedule]. *)
Inductive kont :=
| KForkret | KYield | KTick (q : nat) | KSleep (lk : lock_id) | KExit.

Record schst := SchSt {
  rqs : list rq;
  procs : list proc;
  cpus : list cpu;
  idleproc : list (option nat);
  initproc : option nat;
  nextpid : Z;
  konts : list kont;
  ncpu : nat;
  cpu_id : nat
}.

Section schst_fields.
Context (s : schst).
Definition set_rqs v := SchSt v (procs s) (cpus s) (idleproc s) (initproc s)
    (nextpid s) (konts s) (ncpu s) (cpu_id s).
Definition set_procs v := SchSt (rqs s) v (cpus s) (idleproc s) (initproc s)
    (nextpid s) (konts s) (ncpu s) (cpu_id s).
Definition set_cpus v := SchSt (rqs s) (procs s) v (idleproc s) (initproc s)
    (nextpid s) (konts s) (ncpu s) (cpu_id s).
Definition set_idleproc v := SchSt (rqs s) (procs s) (cpus s) v (initproc s)
    (nextpid s) (konts s) (ncpu s) (cpu_id s).
Definition set_initproc v := SchSt (rqs s) (procs s) (cpus s) (idleproc s) v
    (nextpid s) (konts s) (ncpu s) (cpu_id s).
Definition set_nextpid v := SchSt (rqs s) (procs s) (cpus s) (idleproc s) (initproc s)
    v (konts s) (ncpu s) (cpu_id s).
Definition set_konts v := SchSt (rqs s) (procs s) (cpus s) (idleproc s) (initproc s)
    (nextpid s) v (ncpu s) (cpu_id s).
End schst_fields.

Definition at_rq {A} (q : nat) (m : M rq A) : M schst A :=
  focus (λ s, rqs s !! q) (λ r s, set_rqs s (<[q := r]> (rqs s))) m.

Definition get_proc_at (p : nat) : M schst proc :=
  s ← kget; deref (procs s !! p).
Definition at_proc (p : nat) (f : proc → proc) : M schst unit :=
  pr ← get_proc_at p; kmodify (λ s, set_procs s (<[p := f pr]> (procs s))).

Definition get_cpu : M schst cpu := s ← kget; deref (cpus s !! cpu_id s).
(** [cpus[cpu()].rq] *)
Definition my_rq : M schst nat := c ← get_cpu; deref (cpu_rq c).
(** [cp], the current process. *)
Definition cp : M schst (option nat) := c ← get_cpu; mret (curproc c).
(** [cp->f = v]: an assignment to a field of the current process. *)
Definition at_cp (f : proc → proc) : M schst unit :=
  me ← cp; i ← deref me; at_proc i f.

(** [idleproc[cpu()]] *)
Definition my_idle : M schst (option nat) :=
  s ← kget; deref (idleproc s !! cpu_id s).

(** The loop [for(i...) enqueue_proc(rq, procs_moved[i])] of load balancing. *)
Fixpoint enqueue_each (enqueue_proc : nat → nat → M schst unit) (q : nat)
    (l : list (option nat)) : M schst unit :=
  match l with
  | [] => mret ()
  | p :: l => i ← deref p; enqueue_proc q i;; enqueue_each enqueue_proc q l
  end.

(** ** Running them *)
Section run.
Context {A : Type} (c : kctx) (s : schst).

Lemma at_rq_run q r (m : M rq A) a c' r' :
  rqs s !! q = Some r → m c r = Ok a c' r' →
  at_rq q m c s = Ok a c' (set_rqs s (<[q := r']> (rqs s))).
Proof. intros H1 H2. unfold at_rq. by erewrite focus_Ok by eauto. Qed.

Lemma at_rq_panic q r (m : M rq A) msg r' :
  rqs s !! q = Some r → m c r = Panic msg r' →
  at_rq q m c s = Panic msg (set_rqs s (<[q := r']> (rqs s))).
Proof. intros H1 H2. unfold at_rq. by erewrite focus_Panic by eauto. Qed.

Lemma get_proc_at_bind p pr (f : proc → M schst A) :
  procs s !! p = Some pr → (get_proc_at p ≫= f) c s = f pr c s.
Proof. intros H. unfold get_proc_at, mbind, M_bind, deref. simpl. by rewrite H. Qed.

Lemma at_proc_run p pr f :
  procs s !! p = Some pr →
  at_proc p f c s = Ok () c (set_procs s (<[p := f pr]> (procs s))).
Proof.
  intros H. unfold at_proc. by rewrite (bind_Ok _ _ _ _ pr c s)
    by (unfold get_proc_at, mbind, M_bind, deref; simpl; by rewrite H).
Qed.
End run.
