(* ===== verification/SchedClass.v ===== *)
(** * The scheduling-class interface (proc.h, [struct sched_class])

    A scheduling class is a record of operations on a run queue.  [QueueSpec]
    is the contract a class gives to proc.c and to the multi-level class built
    on top of it: seen through a representation predicate, the queue is a list
    of processes, and every operation does to that list what the abstract
    operation [abs_step] does.  [run_ops_refines] lifts the contract to
    sequences of operations; it is proved once, against the interface. *)
From S2P Require Import Prelude Kernel ProcData Rq SchedState.

(** The queue operations of [struct sched_class]. *)
Record sched_ops := SchedOps {
  op_enqueue_proc : nat → nat → M schst unit;
  op_dequeue_proc : nat → nat → M schst unit;
  op_yield_proc : nat → M schst unit;
  op_pick_next_proc : nat → M schst (option nat);
  op_get_proc : nat → M schst (list (option nat))
}.

(** ** Abstract queues *)
Inductive qop := QEnqueue (p : nat) | QDequeue (p : nat) | QYield | QPick | QGet.

(** Remove [p] and start with what followed it (sched.c). *)
Fixpoint cut_after (p : nat) (ps acc : list nat) : list nat :=
  match ps with
  | [] => acc
  | q :: ps => if decide (q = p) then ps ++ acc else cut_after p ps (acc ++ [q])
  end.

Definition rotate (ps : list nat) : list nat :=
  match ps with [] => [] | p :: ps => ps ++ [p] end.

Section abstract.
Context (deq : nat → list nat → list nat) (ok : qop → list nat → bool).

(** What the operation returns (as a list of process pointers) and leaves, or
    [None] where its precondition fails. *)
Definition abs_step (op : qop) (ps : list nat) : option (list (option nat) * list nat) :=
  if ok op ps then
    match op with
    | QEnqueue p =>
        if decide (p ∉ ps ∧ p < NPROC ∧ length ps < NPROC) then Some ([], ps ++ [p]) else None
    | QDequeue p => if decide (p ∈ ps) then Some ([], deq p ps) else None
    | QYield => Some ([], rotate ps)
    | QPick => Some ([head ps], ps)
    | QGet =>
        match ps with
        | [] => None
        | p :: ps' =>
            let k := length ps / 2 in Some (Some <$> take k ps', p :: drop k ps')
        end
    end
  else None.

Fixpoint abs_run (ops : list qop) (ps : list nat) : option (list (option nat) * list nat) :=
  match ops with
  | [] => Some ([], ps)
  | op :: ops =>
      '(o, ps') ← abs_step op ps;
      '(os, ps'') ← abs_run ops ps';
      Some (o ++ os, ps'')
  end.
End abstract.

Section concrete.
Context (o : sched_ops) (q : nat).

Definition conc_step (op : qop) : M schst (list (option nat)) :=
  match op with
  | QEnqueue p => op_enqueue_proc o q p;; mret []
  | QDequeue p => op_dequeue_proc o q p;; mret []
  | QYield => op_yield_proc o q;; mret []
  | QPick => p ← op_pick_next_proc o q; mret [p]
  | QGet => op_get_proc o q
  end.

Fixpoint conc_run (ops : list qop) : M schst (list (option nat)) :=
  match ops with
  | [] => mret []
  | op :: ops => a ← conc_step op; b ← conc_run ops; mret (a ++ b)
  end.
End concrete.

(** The processes a sequence of operations enqueues. *)
Definition enqueued (ops : list qop) : list nat :=
  omap (λ op, match op with QEnqueue p => Some p | _ => None end) ops.

(** What operations on queue [q] that enqueue the processes [ps] may change: that queue,
    and for the processes [ps] the time slice and [rq], which is then [q]. *)
Record sched_frame (q : nat) (ps : list nat) (s s' : schst) : Prop := {
  sf_rqs : ∀ i, i ≠ q → rqs s' !! i = rqs s !! i;
  sf_len : length (procs s') = length (procs s);
  sf_procs : ∀ i pr, procs s !! i = Some pr → procs s' !! i = Some pr ∨
    i ∈ ps ∧ ∃ ts, procs s' !! i = Some (set_rq (set_timeslice pr ts) (Some q));
  sf_cpus : cpus s' = cpus s;
  sf_idle : idleproc s' = idleproc s;
  sf_init : initproc s' = initproc s;
  sf_pid : nextpid s' = nextpid s;
  sf_konts : konts s' = konts s;
  sf_ncpu : ncpu s' = ncpu s;
  sf_cpu : cpu_id s' = cpu_id s
}.

Lemma set_rq_timeslice_id pr : set_rq (set_timeslice pr (p_timeslice pr)) (p_rq pr) = pr.
Proof. by destruct pr. Qed.

Lemma sched_frame_refl q s : sched_frame q [] s s.
Proof. split; try done. auto. Qed.

Lemma sched_frame_trans q ps1 ps2 s1 s2 s3 :
  sched_frame q ps1 s1 s2 → sched_frame q ps2 s2 s3 → sched_frame q (ps1 ++ ps2) s1 s3.
Proof.
  intros H1 H2. split.
  - intros. by rewrite (sf_rqs _ _ _ _ H2), (sf_rqs _ _ _ _ H1).
  - by rewrite (sf_len _ _ _ _ H2), (sf_len _ _ _ _ H1).
  - intros i pr H. destruct (sf_procs _ _ _ _ H1 _ _ H) as [H'|(Hi & ts & H')].
    + destruct (sf_procs _ _ _ _ H2 _ _ H') as [?|(Hi2 & ?)]; [by left|right]. split; [inl|done].
    + right. split; [inl|]. destruct (sf_procs _ _ _ _ H2 _ _ H') as [?|(_ & ts2 & H2')]; [by exists ts|].
      exists ts2. rewrite H2'. by destruct pr.
  - by rewrite (sf_cpus _ _ _ _ H2), (sf_cpus _ _ _ _ H1).
  - by rewrite (sf_idle _ _ _ _ H2), (sf_idle _ _ _ _ H1).
  - by rewrite (sf_init _ _ _ _ H2), (sf_init _ _ _ _ H1).
  - by rewrite (sf_pid _ _ _ _ H2), (sf_pid _ _ _ _ H1).
  - by rewrite (sf_konts _ _ _ _ H2), (sf_konts _ _ _ _ H1).
  - by rewrite (sf_ncpu _ _ _ _ H2), (sf_ncpu _ _ _ _ H1).
  - by rewrite (sf_cpu _ _ _ _ H2), (sf_cpu _ _ _ _ H1).
Qed.

(** The process table after an operation on queue [q]: [enqueue_proc] sets the
    process's [rq] and possibly its time slice; nothing else is written. *)
Definition procs_after (q : nat) (op : qop) (l l' : list proc) : Prop :=
  match op with
  | QEnqueue p => ∃ pr ts, l !! p = Some pr ∧ l' = <[p := set_rq (set_timeslice pr ts) (Some q)]> l
  | _ => l' = l
  end.

(** The state after an operation on queue [q] that leaves the queue [r]. *)
Definition sched_upd (q : nat) (r : rq) (l : list proc) (s : schst) : schst :=
  set_procs (set_rqs s (<[q := r]> (rqs s))) l.

(** The contract. *)
Class QueueSpec (o : sched_ops) (rep : rq → list nat → Prop)
    (deq : nat → list nat → list nat) (ok : qop → list nat → bool) : Prop := {
  deq_perm p ps : NoDup ps → p ∈ ps → p :: deq p ps ≡ₚ ps;
  qs_step c s q r op ps obs ps' :
    rqs s !! q = Some r → rep r ps → NoDup ps → length (procs s) = NPROC →
    abs_step deq ok op ps = Some (obs, ps') →
    ∃ r' l', conc_step o q op c s = Ok obs c (sched_upd q r' l' s) ∧
      rep r' ps' ∧ same_cfg r r' ∧ procs_after q op (procs s) l'
}.

Lemma sched_upd_frame q op r l s :
  procs_after q op (procs s) l → sched_frame q (enqueued [op]) s (sched_upd q r l s).
Proof.
  intros P. split; try done; simpl.
  - intros i Hi. by rewrite list_lookup_insert_ne.
  - destruct op; simpl in P; try by subst. destruct P as (pr & ts & _ & ->). apply length_insert.
  - intros i pr' Hi. destruct op; simpl in P; try (subst; by left). destruct P as (pr & ts & Hp & ->).
    destruct (decide (i = p)) as [->|]; [right|left; by rewrite list_lookup_insert_ne].
    rewrite list_lookup_insert_eq by (by eapply lookup_lt_Some). simplify_eq. split; [inl|by exists ts].
Qed.

Lemma rqs_insert_lookup s q r r' : rqs s !! q = Some r → <[q := r']> (rqs s) !! q = Some r'.
Proof. intros H. apply list_lookup_insert_eq. by eapply lookup_lt_Some. Qed.

Section refines.
Context `{QS : QueueSpec o rep deq ok}.

Lemma abs_step_NoDup op ps obs ps' :
  NoDup ps → abs_step deq ok op ps = Some (obs, ps') → NoDup ps'.
Proof.
  intros ND. unfold abs_step. destruct (ok op ps); [|done].
  destruct op as [p|p| | |]; intros; repeat case_decide; simplify_eq.
  - apply NoDup_app. split_and!; [done|intros x Hx; inl|apply NoDup_singleton].
  - pose proof (deq_perm p ps ND H0) as P. rewrite <- P in ND.
    by apply NoDup_cons in ND as [_ ND].
  - destruct ps; [done|]. simpl. by rewrite Permutation_app_comm.
  - done.
  - destruct ps as [|p ps1]; simplify_eq.
    apply NoDup_cons in ND as [Hp ND]. apply NoDup_cons. split.
    + intros Hin. apply Hp. rewrite <- (take_drop (length (p :: ps1) / 2) ps1). inl.
    + rewrite <- (take_drop (length (p :: ps1) / 2) ps1) in ND.
      by apply NoDup_app in ND as (_ & _ & ND).
Qed.

Lemma run_ops_refines ops : ∀ c s q r ps obs ps',
  rqs s !! q = Some r → rep r ps → NoDup ps → length (procs s) = NPROC →
  abs_run deq ok ops ps = Some (obs, ps') →
  ∃ s' r', conc_run o q ops c s = Ok obs c s' ∧ rqs s' !! q = Some r' ∧
    rep r' ps' ∧ NoDup ps' ∧ same_cfg r r' ∧ sched_frame q (enqueued ops) s s'.
Proof.
  induction ops as [|op ops IH]; intros c s q r ps obs ps' Hq Hr ND HL; simpl.
  { intros [= <- <-]. exists s, r. split_and!; auto using same_cfg_refl, sched_frame_refl. }
  destruct (abs_step deq ok op ps) as [[o1 ps1]|] eqn:E1; [|done]. simpl.
  destruct (abs_run deq ok ops ps1) as [[o2 ps2]|] eqn:E2; [|done]. simpl. intros [= <- <-].
  destruct (qs_step c s q r op ps o1 ps1 Hq Hr ND HL E1) as (r1 & l1 & X1 & Hr1 & C1 & P1).
  pose proof (sched_upd_frame q op r1 l1 s P1) as F1.
  destruct (IH c (sched_upd q r1 l1 s) q r1 ps1 o2 ps2 (rqs_insert_lookup _ _ _ _ Hq) Hr1) as (s2 & r2 & X2 & Hq2 & Hr2 & ND2 & C2 & F2); try done.
  { by eapply abs_step_NoDup. }
  { by rewrite (sf_len _ _ _ _ F1). }
  exists s2, r2. rewrite (bind_Ok _ _ _ _ _ _ _ X1), (bind_Ok _ _ _ _ _ _ _ X2).
  split_and!; eauto using same_cfg_trans. pose proof (sched_frame_trans _ _ _ _ _ _ F1 F2) as F. by destruct op.
Qed.
End refines.

Lemma cut_after_spec p p1 p2 acc :
  p ∉ p1 → cut_after p (p1 ++ p :: p2) acc = p2 ++ acc ++ p1.
Proof.
  revert acc. induction p1 as [|q p1 IH]; intros acc Hp; simpl.
  - rewrite decide_True by done. by rewrite app_nil_r.
  - rewrite decide_False by (intros ->; apply Hp; inl).
    rewrite IH by inl. by rewrite <- app_assoc.
Qed.

(** A queued process splits the queue. *)
Lemma queue_split (p : nat) ps :
  NoDup ps → p ∈ ps → ∃ p1 p2, ps = p1 ++ p :: p2 ∧ p ∉ p1 ++ p2.
Proof.
  intros ND (p1 & p2 & ->)%list_elem_of_split. exists p1, p2. split; [done|].
  rewrite <- Permutation_middle in ND. by apply NoDup_cons in ND as [? _].
Qed.

(** Remove [p] in place (sched_RR.c). *)
Definition drop_proc (p : nat) (ps : list nat) : list nat := filter (λ q, q ≠ p) ps.

Lemma drop_proc_notin p ps : p ∉ ps → drop_proc p ps = ps.
Proof.
  unfold drop_proc. induction ps as [|q ps IH]; [done|]. intros H.
  rewrite filter_cons_True by (intros ->; apply H; inl). f_equal. apply IH. inl.
Qed.

Lemma drop_proc_spec p p1 p2 : p ∉ p1 ++ p2 → drop_proc p (p1 ++ p :: p2) = p1 ++ p2.
Proof.
  intros H. unfold drop_proc. rewrite filter_app, filter_cons_False by auto.
  f_equal; apply drop_proc_notin; inl.
Qed.
