(* ===== verification/SchedSimple.v ===== *)
(** * The simple scheduling class (sched.c)

    A circular queue without time slices: every clock tick yields.  The
    operations are the functions of sched.c; [enqueue_proc] and the [get_proc]
    of another queue's class, which load balancing calls through proc.c, are
    arguments that Proc.v supplies. *)
From S2P Require Import Prelude Kernel ProcData Rq SchedState SchedClass.

(** ** Operations *)
Definition init_rq_simple (q : nat) : M schst unit :=
  at_rq q (kmodify (λ r, set_nodes r
    ((λ nd, RqNode (n_proc nd) (n_next nd) None) <$> nodes r))).

(** sched.c, the node part of [enqueue_proc_simple]: take the first free node
    and link it before [next_to_run]. *)
Definition enqueue_link_simple (p : nat) : M rq unit :=
  pnode ← kgets free_list;
  nx ← node_next pnode;
  kmodify (λ r, set_free_list r nx);;
  set_node_proc pnode (Some p);;
  ntr ← kgets next_to_run;
  match ntr with
  | None =>
      kmodify (λ r, set_next_to_run r pnode);;
      set_node_prev pnode pnode;;
      set_node_next pnode pnode
  | Some _ =>
      prev ← node_prev ntr;
      set_node_next prev pnode;;
      set_node_prev pnode prev;;
      set_node_prev ntr pnode;;
      set_node_next pnode ntr
  end.

Definition enqueue_proc_simple (q p : nat) : M schst unit :=
  at_rq q (enqueue_link_simple p);;
  at_proc p (λ pr, set_rq pr (Some q));;
  at_rq q (kmodify (λ r, set_proc_num r (proc_num r + 1))).

(** The backward search of [dequeue_proc_simple]. *)
Fixpoint search_simple (fuel : nat) (cnode : option nat) (p : nat) : M rq (option nat) :=
  match fuel with
  | O => diverge
  | S fuel =>
      pr ← node_proc cnode;
      if decide (pr = Some p) then mret cnode
      else
        ntr ← kgets next_to_run;
        if decide (cnode = ntr)
        then panic "Kernel panic: Cannot find proc in dequeue_proc_simple"
        else pv ← node_prev cnode; search_simple fuel pv p
  end.

(** "delete" and "free": unlink [cnode] and push it on the free list. *)
Definition delete_simple (cnode : option nat) : M rq unit :=
  nx ← node_next cnode;
  (if decide (nx = cnode) then kmodify (λ r, set_next_to_run r None)
   else
     prev ← node_prev cnode;
     next ← node_next cnode;
     set_node_next prev next;;
     set_node_prev next prev;;
     kmodify (λ r, set_next_to_run r next));;
  fl ← kgets free_list;
  set_node_next cnode fl;;
  kmodify (λ r, set_free_list r cnode).

Definition dequeue_unlink_simple (p : nat) : M rq unit :=
  ntr ← kgets next_to_run;
  hd ← node_proc ntr;
  cnode ← (if decide (hd = Some p) then mret ntr
           else pv ← node_prev ntr; search_simple (S NPROC) pv p);
  delete_simple cnode.

Definition dequeue_proc_simple (q p : nat) : M schst unit :=
  at_rq q (dequeue_unlink_simple p);;
  at_rq q (kmodify (λ r, set_proc_num r (proc_num r - 1))).

Definition yield_nodes_simple : M rq unit :=
  ntr ← kgets next_to_run;
  match ntr with
  | Some _ => nx ← node_next ntr; kmodify (λ r, set_next_to_run r nx)
  | None => mret ()
  end.
Definition yield_proc_simple (q : nat) : M schst unit := at_rq q yield_nodes_simple.

Definition pick_next_nodes_simple : M rq (option nat) :=
  p_node ← kgets next_to_run;
  match p_node with None => mret None | Some _ => node_proc p_node end.
Definition pick_next_proc_simple (q : nat) : M schst (option nat) :=
  at_rq q pick_next_nodes_simple.

Definition proc_tick_simple (yield : M schst unit) (q p : nat) : M schst unit := yield.

(** The loop of [get_proc_simple]: [k] nodes are still to be moved, starting at
    [cnode]; [procs_moved] has room for [NPROC/2] entries. *)
Fixpoint get_proc_loop (q k : nat) (cnode : option nat) (procs_moved : list (option nat))
    : M rq (list (option nat)) :=
  match k with
  | O => mret procs_moved
  | S k =>
      nx ← node_next cnode;
      match nx with
      | None => release (LkRq q);; panic "Not enough proc to move in get_proc_simple"
      | Some _ =>
          if decide (NPROC / 2 ≤ length procs_moved) then fault
          else
            p ← node_proc cnode;
            prev ← node_prev cnode;
            next ← node_next cnode;
            set_node_next prev next;;
            set_node_prev next prev;;
            fl ← kgets free_list;
            set_node_next cnode fl;;
            kmodify (λ r, set_free_list r cnode);;
            get_proc_loop q k next (procs_moved ++ [p])
      end
  end.

Definition get_proc_nodes (q : nat) : M rq (list (option nat)) :=
  num ← kgets proc_num;
  let num_procs_moved := Z.quot num 2 in
  ntr ← kgets next_to_run;
  cnode ← node_next ntr;
  moved ← get_proc_loop q (Z.to_nat num_procs_moved) cnode [];
  kmodify (λ r, set_proc_num r (proc_num r - num_procs_moved));;
  mret moved.
Definition get_proc_simple (q : nat) : M schst (list (option nat)) :=
  at_rq q (get_proc_nodes q).

(** [load_balance_simple]: the busiest of [rqs[0..ncpu)] gives up what its class
    is willing to move.  [busiest] is the search loop. *)
Fixpoint busiest (rs : list rq) (i : nat) (max : Z) (src : option nat) : option nat :=
  match rs with
  | [] => src
  | r :: rs =>
      if decide (max < proc_num r)%Z then busiest rs (S i) (proc_num r) (Some i)
      else busiest rs (S i) max src
  end.

Definition load_balance_simple (enqueue_proc : nat → nat → M schst unit)
    (class_get_proc : nat → M schst (list (option nat))) (q : nat) : M schst unit :=
  s ← kget;
  match busiest (take (ncpu s) (rqs s)) 0 0 None with
  | None => mret ()
  | Some src =>
      acquire (LkRq src);;
      moved ← class_get_proc src;
      release (LkRq src);;
      acquire (LkRq q);;
      enqueue_each enqueue_proc q moved;;
      release (LkRq q)
  end.

(** ** Correctness *)
Lemma enqueue_link_simple_spec c r l x f ps p :
  ring_shape r l (x :: f) ps →
  ∃ r', enqueue_link_simple p c r = Ok () c r' ∧
    ring_shape r' (l ++ [x]) f (ps ++ [p]) ∧ same_cfg r r' ∧ proc_num r' = proc_num r.
Proof.
  intros R. destruct (ring_shape_free _ _ _ _ _ R) as (Hfl & Hx & NDl & Hxl & Hxf & Hlt & _ & h & Hh).
  pose proof (rs_head _ _ _ _ R) as Hhd. unfold enqueue_link_simple.
  rqstep. rewrite Hfl. repeat rqstep. rewrite Hhd. destruct l as [|u t]; simpl.
  - repeat rqstep. eexists. split; [done|]. split; [|done].
    eapply (ring_shape_link r _ []); [done|simpl; rqf; done..|rqf_cases|rqf_cases|rqf_cases].
  - pose proof (rs_ring _ _ _ _ R) as [_ [Ln Lp]]%ring_unfold.
    pose proof (tail_of_elem u t) as Ht. pose proof (last_tail_of u t) as Hlast.
    assert (x ≠ u ∧ x ≠ tail_of u t) as [Hxu Hxt] by (split; intros E; apply Hxl; rewrite E; inl).
    assert (u < length (nodes r) ∧ tail_of u t < length (nodes r)) as [Hu Htl] by (split; apply Hlt; inl).
    repeat rqstep. eexists. split; [done|]. split; [|done].
    eapply (ring_shape_link r _ (u :: t)); [done|simpl; rqf; done..| | |]; rewrite ?Hlast; rqf_cases.
Qed.

Lemma search_simple_spec c r l1 x l2 p1 p2 p fuel :
  ring (nodes r) (l1 ++ x :: l2) → NoDup (l1 ++ x :: l2) → l1 ≠ [] →
  next_to_run r = head l1 → fproc (nodes r) x = Some (Some p) →
  Forall2 (λ n q, fproc (nodes r) n = Some (Some q)) l1 p1 →
  Forall2 (λ n q, fproc (nodes r) n = Some (Some q)) l2 p2 → p ∉ p2 →
  length l2 < fuel →
  search_simple fuel (last (x :: l2)) p c r = Ok (Some x) c r.
Proof.
  intros R ND Hl1 Hhd Hx F1 F2 Hp.
  assert (G : ∀ l3 l4 fuel, l2 = l3 ++ l4 → length l3 < fuel →
              search_simple fuel (last (x :: l3)) p c r = Ok (Some x) c r).
  2: { intros. apply (G l2 [] fuel); [by rewrite app_nil_r|done]. }
  intros l3. induction l3 as [|y l3 IH] using rev_ind; intros l4 [|n] E Hf; try lia; simpl search_simple.
  - simpl. rqstep. by rewrite decide_True.
  - rewrite app_comm_cons, last_snoc.
    assert (Hy : y ∈ l2) by (rewrite E; inl).
    destruct (procs_other _ _ _ p y F2 Hp Hy) as (q & Hq & Hne).
    rqstep. rewrite decide_False by congruence. repeat rqstep.
    rewrite Hhd, decide_False.
    2: { destruct l1 as [|u l1]; [done|]. simpl. intros [= ->].
         apply NoDup_app in ND as (_ & D & _). apply (D u); inl. }
    assert (Hpy : fprev (nodes r) y = Some (last (x :: l3))).
    { rewrite (ring_prev _ (l1 ++ x :: l3) y l4)
        by (rewrite E, <- app_assoc in R; by rewrite <- app_assoc).
      f_equal. by rewrite last_app, last_app_cons, last_tail_of. }
    rqstep. apply (IH (y :: l4)); [by rewrite E, <- app_assoc|].
    rewrite length_app in Hf. simpl in Hf. lia.
Qed.
#[global] Arguments search_simple : simpl never.

Lemma delete_simple_spec c r l1 x l2 f p1 p p2 :
  ring_shape r (l1 ++ x :: l2) f (p1 ++ p :: p2) → length p1 = length l1 →
  NoDup (l1 ++ x :: l2) → (∀ n, n ∈ l1 ++ x :: l2 → n < length (nodes r)) →
  (∀ n, n ∈ l1 ++ x :: l2 → n ∉ f) →
  ∃ r', delete_simple (Some x) c r = Ok () c r' ∧ ring_rep r' (p2 ++ p1) ∧
    same_cfg r r' ∧ proc_num r' = proc_num r.
Proof.
  intros R Hl ND Hlt Hlf. pose proof (rs_ring _ _ _ _ R) as Rg.
  pose proof (ring_next _ _ _ _ Rg) as Hn. pose proof (ring_prev _ _ _ _ Rg) as Hp.
  assert (Hx : x < length (nodes r)) by (apply Hlt; inl).
  assert (Hxf : x ∉ f) by (apply Hlf; inl).
  unfold delete_simple. rqstep. destruct (l2 ++ l1) as [|u t] eqn:El.
  - apply app_eq_nil in El as [-> ->]. simpl in *.
    assert (p1 = []) as -> by (by destruct p1).
    rewrite decide_True by done. repeat rqstep. eexists. split; [done|]. split; [|done].
    pose proof (nt_length_ps _ _ _ _ (rs_table _ _ _ _ R)) as Hps.
    assert (p2 = []) as -> by (destruct p2; [done|simpl in Hps; lia]).
    exists [], (x :: f). split; [|done..].
    eapply (node_table_unlink r _ [] x [] f [] p []); [apply R|done|simpl; rqf; done..|inl|].
    intros n Hn'. assert (n ≠ x) by congruence. simpl. by rqf.
  - simpl in Hn, Hp. rewrite last_tail_of in Hp. simpl in Hp.
    assert (NDx : NoDup (x :: u :: t))
      by (rewrite <- El, Permutation_app_comm, Permutation_middle; done).
    assert (Hm : ∀ n, n ∈ u :: t → n ≠ x ∧ n < length (nodes r) ∧ n ∉ f).
    { intros n Hn'. apply NoDup_cons in NDx as [Hx' _].
      assert (n ∈ l1 ++ x :: l2) by (rewrite <- El in Hn'; inl).
      split_and!; [congruence|by apply Hlt|by apply Hlf]. }
    destruct (Hm u) as (? & ? & ?); [inl|].
    destruct (Hm (tail_of u t)) as (? & ? & ?); [apply tail_of_elem|].
    simpl. rewrite decide_False by congruence.
    erewrite bind_Ok by (repeat rqstep; reflexivity). repeat rqstep.
    eexists. split; [done|]. split; [|done].
    exists (l2 ++ l1), (x :: f). split.
    + apply node_table_rotate; [done|].
      eapply node_table_unlink; [apply R|done|simpl; rqf; done..| |].
      * intros n Hn'. simpl. by rqf.
      * intros n Hn'. assert (n ≠ x ∧ n ≠ tail_of u t) as [? ?] by (split; congruence). simpl. by rqf.
    + simpl. apply ring_rotate_app. apply ring_unlink_upd; try done.
      intros [-> ->]%app_eq_nil. done.
    + simpl. by rewrite El.
Qed.

Lemma dequeue_unlink_simple_spec c r p1 p p2 :
  ring_rep r (p1 ++ p :: p2) → p ∉ p1 ++ p2 →
  ∃ r', dequeue_unlink_simple p c r = Ok () c r' ∧ ring_rep r' (p2 ++ p1) ∧
    same_cfg r r' ∧ proc_num r' = proc_num r.
Proof.
  intros R Hp.
  destruct (ring_shape_split _ _ _ _ _ R eq_refl) as (l1 & x & l2 & f & S & Hl & Hx & ND & Hlt & Hlf & F1 & F2).
  destruct (delete_simple_spec c r _ _ _ _ _ _ _ S Hl ND Hlt Hlf) as (r' & E & Hr').
  exists r'. split; [|done]. pose proof (rs_head _ _ _ _ S) as Hh.
  unfold dequeue_unlink_simple. rqstep. rewrite Hh. destruct l1 as [|u l1]; simpl.
  - rqstep. rewrite decide_True by done. by rqstep.
  - destruct (procs_other _ _ _ p u F1) as (q & Hq & Hne); [inl|inl|].
    rqstep. rewrite decide_False by congruence.
    erewrite bind_Ok; [exact E|].
    pose proof (ring_prev _ [] u (l1 ++ x :: l2) (rs_ring _ _ _ _ S)) as Hpv.
    rewrite app_nil_r, last_app_cons, last_tail_of in Hpv. simpl in Hpv.
    rqstep. rewrite <- last_tail_of.
    eapply (search_simple_spec _ _ (u :: l1)); eauto; [apply S|inl|].
    pose proof (nt_length _ _ _ _ (rs_table _ _ _ _ S)) as HN.
    rewrite length_app in HN. simpl in HN. lia.
Qed.

(** A process that is not queued: the search comes round and panics. *)
Lemma search_simple_absent c r l ps p u t fuel :
  ring (nodes r) l → NoDup l → next_to_run r = head l → l = u :: t →
  Forall2 (λ n q, fproc (nodes r) n = Some (Some q)) l ps → p ∉ ps →
  length l < fuel →
  search_simple fuel (last l) p c r =
    Panic "Kernel panic: Cannot find proc in dequeue_proc_simple" r.
Proof.
  intros R ND Hh -> F Hp.
  assert (G : ∀ l3 l4 fuel, t = l3 ++ l4 → S (length l3) < fuel →
     search_simple fuel (last (u :: l3)) p c r =
       Panic "Kernel panic: Cannot find proc in dequeue_proc_simple" r).
  2: { intros. by apply (G t [] fuel); [rewrite app_nil_r|]. }
  intros l3. induction l3 as [|y l3 IH] using rev_ind; intros l4 [|n] E Hf; try lia;
    change (search_simple (S n)) with (λ cnode p,
      pr ← node_proc cnode;
      if decide (pr = Some p) then mret cnode
      else ntr ← kgets next_to_run;
        if decide (cnode = ntr)
        then panic "Kernel panic: Cannot find proc in dequeue_proc_simple"
        else pv ← node_prev cnode; search_simple n pv p); cbv beta.
  - destruct (procs_other _ _ _ p u F Hp) as (q & Hq & Hne); [inl|]. simpl.
    rqstep. rewrite decide_False by congruence. rqstep. by rewrite decide_True.
  - rewrite app_comm_cons, last_snoc.
    assert (Hy : y ∈ u :: t) by (rewrite E; inl).
    destruct (procs_other _ _ _ p y F Hp Hy) as (q & Hq & Hne).
    rqstep. rewrite decide_False by congruence. rqstep. rewrite Hh. simpl.
    rewrite decide_False.
    2: { intros [= ->]. apply NoDup_cons in ND as [ND _]. apply ND. rewrite E. inl. }
    assert (Hpy : fprev (nodes r) y = Some (last (u :: l3))).
    { rewrite (ring_prev _ (u :: l3) y l4) by (rewrite E, <- app_assoc in R; exact R).
      f_equal. by rewrite last_app, last_tail_of. }
    rqstep. apply (IH (y :: l4)); [by rewrite E, <- app_assoc|].
    rewrite length_app in Hf. simpl in Hf. lia.
Qed.

Lemma dequeue_unlink_simple_absent c r ps p :
  ring_rep r ps → ps ≠ [] → p ∉ ps →
  dequeue_unlink_simple p c r = Panic "Kernel panic: Cannot find proc in dequeue_proc_simple" r.
Proof.
  intros (l & f & R) Hne Hp. pose proof (rs_table _ _ _ _ R) as T.
  pose proof (nt_procs _ _ _ _ T) as F. pose proof (rs_head _ _ _ _ R) as Hh.
  destruct l as [|u t]; [by inversion F; subst|].
  destruct (procs_other _ _ _ p u F Hp) as (q & Hq & Hq'); [inl|].
  unfold dequeue_unlink_simple. rqstep. rewrite Hh. simpl. rqstep.
  rewrite decide_False by congruence. apply bind_Panic.
  pose proof (ring_prev _ [] u t (rs_ring _ _ _ _ R)) as Hpv. rewrite app_nil_r in Hpv.
  change (default u (last t)) with (tail_of u t) in Hpv. rqstep. rewrite <- last_tail_of.
  pose proof (nt_nodup _ _ _ _ T) as [ND _]%NoDup_app.
  eapply (search_simple_absent _ _ (u :: t)); eauto; [apply R|].
  pose proof (nt_length _ _ _ _ T) as HN. lia.
Qed.

Lemma yield_nodes_simple_spec c r p ps :
  ring_rep r (p :: ps) →
  ∃ r', yield_nodes_simple c r = Ok () c r' ∧ ring_rep r' (ps ++ [p]) ∧
    same_cfg r r' ∧ proc_num r' = proc_num r.
Proof.
  intros (l & f & R). pose proof (rs_table _ _ _ _ R) as T. pose proof (rs_ring _ _ _ _ R) as Rg.
  destruct l as [|x l]; [pose proof (nt_procs _ _ _ _ T) as F; inversion F|].
  pose proof (rs_head _ _ _ _ R) as Hh. pose proof (ring_next _ [] x l Rg) as Hn.
  unfold yield_nodes_simple. rqstep. rewrite Hh. simpl. repeat rqstep.
  eexists. split; [done|]. split; [|done]. exists (l ++ [x]), f. split.
  - pose proof (node_table_rotate r [x] l f [p] ps eq_refl T) as [? ? ? ?]. by split.
  - simpl. by apply ring_rotate.
  - simpl. rewrite app_nil_r. by destruct l.
Qed.

Lemma yield_nodes_simple_empty c r : ring_rep r [] → yield_nodes_simple c r = Ok () c r.
Proof.
  intros (l & f & R). pose proof (nt_procs _ _ _ _ (rs_table _ _ _ _ R)) as F. inversion F; subst.
  unfold yield_nodes_simple. rqstep. by rewrite (rs_head _ _ _ _ R).
Qed.

Lemma pick_next_nodes_simple_spec c r ps :
  ring_rep r ps → pick_next_nodes_simple c r = Ok (head ps) c r.
Proof.
  intros (l & f & R). pose proof (nt_procs _ _ _ _ (rs_table _ _ _ _ R)) as F.
  pose proof (rs_head _ _ _ _ R) as Hh. unfold pick_next_nodes_simple. rqstep. rewrite Hh.
  inversion F as [|x p l' ps' Hx F' E1 E2]; subst; simpl; [done|].
  by rqstep.
Qed.

Lemma get_proc_loop_spec c q k : ∀ r h l f p0 ps acc,
  ring_shape r (h :: l) f (p0 :: ps) → k ≤ length ps → length acc + k ≤ NPROC / 2 →
  ∃ r', get_proc_loop q k (head (l ++ [h])) acc c r = Ok (acc ++ (Some <$> take k ps)) c r' ∧
    ring_rep r' (p0 :: drop k ps) ∧ same_cfg r r' ∧ proc_num r' = proc_num r.
Proof.
  induction k as [|k IH]; intros r h l f p0 ps acc R Hk Hacc.
  { exists r. rewrite drop_0. simpl. rewrite app_nil_r. split_and!; try done. by exists (h :: l), f. }
  pose proof (rs_table _ _ _ _ R) as T. pose proof (nt_procs _ _ _ _ T) as F.
  apply Forall2_cons in F as [Hh F].
  destruct ps as [|p ps]; [simpl in Hk; lia|].
  apply Forall2_cons_inv_r in F as (x & l' & Hx & F & ->).
  pose proof (rs_ring _ _ _ _ R) as Rg.
  pose proof (ring_next _ [h] x l' Rg) as Hn. pose proof (ring_prev _ [h] x l' Rg) as Hp.
  rewrite last_snoc in Hp. simpl in Hp.
  destruct (head (l' ++ [h])) as [nx|] eqn:Enx; [|by destruct l'].
  simpl in Hn. pose proof (nt_nodup _ _ _ _ T) as ND. pose proof (nt_lt _ _ _ _ T) as Hlt.
  apply NoDup_app in ND as (ND & D & _).
  assert (Hnx : nx ∈ h :: l') by (destruct l'; simplify_eq/=; inl).
  assert (Hxne : ∀ n, n ∈ h :: l' → n ≠ x).
  { intros n Hn' ->. apply (NoDup_mid_ne [h] x l' x); [done|inl|done]. }
  assert (h < length (nodes r) ∧ x < length (nodes r) ∧ nx < length (nodes r)) as (? & ? & ?)
    by (split_and!; apply Hlt; inl).
  assert (h ≠ x ∧ nx ≠ x) as [? ?] by (split; apply Hxne; inl).
  simpl head. cbn [get_proc_loop]. rqstep.
  rewrite decide_False by (simpl in Hacc; lia). repeat rqstep.
  destruct (IH (set_free_list (set_nodes (set_nodes (set_nodes r (upd_next h (Some nx) (nodes r)))
      (upd_prev nx (Some h) (upd_next h (Some nx) (nodes r))))
      (upd_next x (free_list r) (upd_prev nx (Some h) (upd_next h (Some nx) (nodes r))))) (Some x))
      h l' (x :: f) p0 ps (acc ++ [Some p])) as (r' & E & R' & C & N).
  - split.
    + eapply (node_table_unlink r _ [h] x l' f [p0] p ps); [apply T|done|simpl; rqf; done..| |].
      * intros n Hn'. simpl. by rqf.
      * intros n Hn'. assert (n ≠ x ∧ n ≠ h) as [? ?]
          by (split; intros ->; eapply D; [|exact Hn'| |exact Hn']; inl).
        simpl. by rqf.
    + simpl. by apply (ring_unlink_upd _ [h] x l'); try (intros n Hn'; apply Hlt; inl).
    + simpl. apply (rs_head _ _ _ _ R).
  - simpl in Hk. lia.
  - rewrite length_app. cbn [length]. lia.
  - exists r'. rewrite Enx in E. rewrite E. rewrite <- app_assoc. done.
Qed.

Lemma get_proc_nodes_spec c q r p0 ps :
  ring_queue r (p0 :: ps) →
  let k := S (length ps) / 2 in
  ∃ r', get_proc_nodes q c r = Ok (Some <$> take k ps) c r' ∧
    ring_queue r' (p0 :: drop k ps) ∧ same_cfg r r'.
Proof.
  intros [(l & f & R) N] k. pose proof (rs_table _ _ _ _ R) as T.
  pose proof (nt_length _ _ _ _ T) as HN. pose proof (nt_length_ps _ _ _ _ T) as HP.
  destruct l as [|h l]; [simpl in HP; lia|].
  assert (Hk : k ≤ length ps) by (subst k; destruct ps; [done|apply Nat.Div0.div_le_upper_bound; simpl; lia]).
  assert (Hq : Z.to_nat (Z.quot (proc_num r) 2) = k).
  { rewrite N, Z.quot_div_nonneg by lia. change (length (p0 :: ps)) with (S (length ps)).
    rewrite <- (Nat2Z.inj_div _ 2), Nat2Z.id. done. }
  destruct (get_proc_loop_spec c q k r h l f p0 ps [] R Hk) as (r' & E & R' & C & N').
  { simpl in HN, HP. subst k. change (length []) with 0. rewrite Nat.add_0_l. apply Nat.Div0.div_le_mono. unfold NPROC in HN |- *. lia. }
  unfold get_proc_nodes. repeat rqstep. rewrite (rs_head _ _ _ _ R). simpl.
  pose proof (ring_next _ [] h l (rs_ring _ _ _ _ R)) as Hn.
  rewrite app_nil_r in Hn.
  assert (Hhd : Some (default h (head l)) = head (l ++ [h])) by (by destruct l).
  rqstep. rewrite Hhd, Hq. rewrite (bind_Ok _ _ _ _ _ _ _ E). repeat rqstep.
  eexists. split; [done|]. split; [|done]. split.
  - destruct R' as (l' & f' & [[? ? ? ?] ? ?]). exists l', f'. by repeat split.
  - assert (Hz : Z.quot (proc_num r) 2 = Z.of_nat k).
    { rewrite <- Hq, Z2Nat.id; [done|]. rewrite N. apply Z.quot_pos; lia. }
    simpl. rewrite N', Hz, N, length_drop. cbn [length]. lia.
Qed.

(** ** The class meets the contract *)
Definition simple_ops : sched_ops :=
  SchedOps enqueue_proc_simple dequeue_proc_simple yield_proc_simple
    pick_next_proc_simple get_proc_simple.

Lemma ring_queue_room r ps :
  ring_queue r ps → length ps < NPROC → ∃ l x f, ring_shape r l (x :: f) ps.
Proof.
  intros [(l & f & R) _] Hl. pose proof (nt_length _ _ _ _ (rs_table _ _ _ _ R)) as HN.
  pose proof (nt_length_ps _ _ _ _ (rs_table _ _ _ _ R)) as HP.
  destruct f as [|x f]; [simpl in HN; lia|]. by exists l, x, f.
Qed.

Lemma ring_queue_num r ps n :
  ring_rep r ps → n = Z.of_nat (length ps) → ring_queue (set_proc_num r n) ps.
Proof.
  intros (l & f & [[? ? ? ?] ? ?]) ->. split; [|done]. exists l, f. by repeat split.
Qed.

Lemma enqueue_proc_simple_step c s q r p pr ps :
  rqs s !! q = Some r → ring_queue r ps → procs s !! p = Some pr → length ps < NPROC →
  ∃ r', enqueue_proc_simple q p c s =
      Ok () c (sched_upd q r' (<[p := set_rq pr (Some q)]> (procs s)) s) ∧
    ring_queue r' (ps ++ [p]) ∧ same_cfg r r'.
Proof.
  intros Hq R Hp Hl. destruct (ring_queue_room _ _ R Hl) as (l & x & f & S).
  destruct R as [_ N]. destruct (enqueue_link_simple_spec c r l x f ps p S) as (r1 & E & S1 & C1 & N1).
  exists (set_proc_num r1 (proc_num r1 + 1)). split; cycle 1.
  { split; [|apply C1]. apply ring_queue_num; [by exists (l ++ [x]), f|].
    rewrite N1, N, length_app. simpl. lia. }
  unfold enqueue_proc_simple. erewrite bind_Ok by (by eapply at_rq_run).
  erewrite bind_Ok by (by eapply at_proc_run).
  erewrite at_rq_run; [|simpl; by eapply rqs_insert_lookup|reflexivity].
  simpl. by rewrite list_insert_insert_eq.
Qed.

Lemma dequeue_proc_simple_step c s q r p1 p p2 :
  rqs s !! q = Some r → ring_queue r (p1 ++ p :: p2) → p ∉ p1 ++ p2 →
  ∃ r', dequeue_proc_simple q p c s = Ok () c (sched_upd q r' (procs s) s) ∧
    ring_queue r' (p2 ++ p1) ∧ same_cfg r r'.
Proof.
  intros Hq [R N] Hp. destruct (dequeue_unlink_simple_spec c r _ _ _ R Hp) as (r1 & E & S1 & C1 & N1).
  exists (set_proc_num r1 (proc_num r1 - 1)). split; cycle 1.
  { split; [|apply C1]. apply ring_queue_num; [done|]. rewrite N1, N, !length_app. simpl. lia. }
  unfold dequeue_proc_simple. erewrite bind_Ok by (by eapply at_rq_run).
  erewrite at_rq_run; [|simpl; by eapply rqs_insert_lookup|reflexivity].
  simpl. by rewrite list_insert_insert_eq.
Qed.

#[export] Instance simple_spec :
  QueueSpec simple_ops ring_queue (λ p ps, cut_after p ps []) (λ _ _, true).
Proof.
  split.
  - intros p ps ND Hp. destruct (queue_split p ps ND Hp) as (p1 & p2 & -> & Hn).
    rewrite cut_after_spec by inl. simpl. by rewrite (Permutation_app_comm p2), Permutation_middle.
  - intros c s q r op ps obs ps' Hq R ND HL. unfold abs_step.
    destruct op as [p|p| | |]; simpl; intros; repeat case_decide; simplify_eq.
    + destruct_and!. destruct (lookup_lt_is_Some_2 (procs s) p) as [pr Hp]; [lia|].
      destruct (enqueue_proc_simple_step c s q r p pr ps) as (r' & E & ? & ?); [done..|].
      eexists r', _. rewrite (bind_Ok _ _ _ _ _ _ _ E). split_and!; try done.
      exists pr, (p_timeslice pr). split; [done|]. by destruct pr.
    + destruct (queue_split p ps) as (p1 & p2 & -> & Hn); [done..|].
      destruct (dequeue_proc_simple_step c s q r p1 p p2) as (r' & E & ? & ?); [done..|].
      rewrite cut_after_spec by inl. exists r', (procs s). by rewrite (bind_Ok _ _ _ _ _ _ _ E).
    + destruct R as [R N]. unfold yield_proc_simple. destruct ps as [|p ps].
      * erewrite bind_Ok by (by eapply at_rq_run, yield_nodes_simple_empty).
        by exists r, (procs s).
      * destruct (yield_nodes_simple_spec c r p ps R) as (r' & E & R' & C' & N').
        erewrite bind_Ok by (by eapply at_rq_run).
        exists r', (procs s). split; [done|]. split; [|done]. split; [done|].
        rewrite N', N. unfold rotate. rewrite length_app. simpl. lia.
    + unfold pick_next_proc_simple.
      erewrite bind_Ok by (eapply at_rq_run; [done|apply pick_next_nodes_simple_spec, R]).
      by exists r, (procs s).
    + destruct ps as [|p0 ps]; simplify_eq.
      destruct (get_proc_nodes_spec c q r p0 ps R) as (r' & E & R' & C').
      unfold get_proc_simple. erewrite at_rq_run by done. by exists r', (procs s).
Qed.
