(* ===== verification/SchedRR.v ===== *)
(** * The round-robin class (sched_RR.c)

    A circular queue like sched.c's, with a time slice per process: a process
    that enters a queue it was not in gets the queue's [max_slices]. *)
From S2P Require Import Prelude Kernel ProcData Rq SchedState SchedClass SchedSimple.

(** ** Operations *)
Definition init_rq_RR (q : nat) : M schst unit :=
  at_rq q (kmodify (λ r, set_nodes r
    ((λ nd, RqNode (n_proc nd) (n_next nd) None) <$> nodes r))).

(** sched_RR.c, the first two lines of [enqueue_proc_RR]. *)
Definition alloc_node_RR : M rq (option nat) :=
  pnode ← kgets free_list;
  nx ← node_next pnode;
  kmodify (λ r, set_free_list r nx);;
  mret pnode.

Definition enqueue_link_RR (pnode : option nat) (p : nat) : M rq unit :=
  set_node_proc pnode (Some p);;
  ntr ← kgets next_to_run;
  match ntr with
  | None =>
      kmodify (λ r, set_next_to_run (set_last_to_run r pnode) pnode);;
      set_node_prev pnode pnode;;
      set_node_next pnode pnode
  | Some _ =>
      prev ← node_prev ntr;
      set_node_next prev pnode;;
      prev' ← node_prev ntr;
      set_node_prev pnode prev';;
      set_node_next pnode ntr;;
      set_node_prev ntr pnode
  end.

Definition enqueue_proc_RR (q p : nat) : M schst unit :=
  pnode ← at_rq q alloc_node_RR;
  pr ← get_proc_at p;
  slices ← at_rq q (kgets max_slices);
  (if decide (p_rq pr = Some q) then mret ()
   else at_proc p (λ pr, set_timeslice pr slices));;
  at_rq q (enqueue_link_RR pnode p);;
  at_proc p (λ pr, set_rq pr (Some q));;
  at_rq q (kmodify (λ r, set_proc_num r (proc_num r + 1))).

(** The forward search of [dequeue_proc_RR]; it stops at the last node whatever
    that node holds. *)
Fixpoint search_RR (fuel : nat) (node : option nat) (p : nat) : M rq (option nat) :=
  match fuel with
  | O => diverge
  | S fuel =>
      ntr ← kgets next_to_run;
      lst ← node_prev ntr;
      if decide (node = lst) then mret node
      else
        pr ← node_proc node;
        if decide (pr = Some p) then mret node
        else nx ← node_next node; search_RR fuel nx p
  end.

(** [if(p == rq->next_to_run->proc) ...]: move the head off the removed node. *)
Definition advance_RR (node : option nat) (p : nat) : M rq unit :=
  ntr ← kgets next_to_run;
  hd ← node_proc ntr;
  if decide (hd = Some p) then
    nx ← node_next node;
    if decide (nx = node) then kmodify (λ r, set_next_to_run r None)
    else nn ← node_next ntr; kmodify (λ r, set_next_to_run r nn)
  else mret ().

(** Unlink [node] if it has neighbours, and free it. *)
Definition unlink_RR (node : option nat) : M rq unit :=
  nx ← node_next node;
  (if decide (nx = node) then mret ()
   else
     prev ← node_prev node;
     next ← node_next node;
     set_node_next prev next;;
     next' ← node_next node;
     prev' ← node_prev node;
     set_node_prev next' prev');;
  fl ← kgets free_list;
  set_node_next node fl;;
  kmodify (λ r, set_free_list r node).

Definition dequeue_unlink_RR (p : nat) : M rq unit :=
  ntr ← kgets next_to_run;
  node ← search_RR (S NPROC) ntr p;
  advance_RR node p;;
  unlink_RR node.

Definition dequeue_proc_RR (q p : nat) : M schst unit :=
  at_rq q (dequeue_unlink_RR p);;
  at_rq q (kmodify (λ r, set_proc_num r (proc_num r - 1))).

(** [yield_proc_RR], [pick_next_proc_RR], [get_proc_RR] and [load_balance_RR]
    repeat the text of sched.c. *)
Definition yield_proc_RR (q : nat) : M schst unit := at_rq q yield_nodes_simple.
Definition pick_next_proc_RR (q : nat) : M schst (option nat) := at_rq q pick_next_nodes_simple.
Definition get_proc_RR (q : nat) : M schst (list (option nat)) := at_rq q (get_proc_nodes q).
Definition load_balance_RR := load_balance_simple.

Definition proc_tick_RR (yield : M schst unit) (q p : nat) : M schst unit :=
  idle ← my_idle;
  if decide (Some p = idle) then yield
  else
    at_proc p (λ pr, set_timeslice pr (p_timeslice pr - 1));;
    pr ← get_proc_at p;
    if decide (p_timeslice pr = 0)%Z then
      slices ← at_rq q (kgets max_slices);
      at_proc p (λ pr, set_timeslice pr slices);;
      yield
    else mret ().

(** ** Correctness *)
Lemma enqueue_link_RR_spec c r l x f ps p :
  ring_shape r l (x :: f) ps →
  ∃ r1 r', alloc_node_RR c r = Ok (Some x) c r1 ∧ max_slices r1 = max_slices r ∧
    enqueue_link_RR (Some x) p c r1 = Ok () c r' ∧
    ring_shape r' (l ++ [x]) f (ps ++ [p]) ∧ same_cfg r r' ∧ proc_num r' = proc_num r.
Proof.
  intros R. destruct (ring_shape_free _ _ _ _ _ R) as (Hfl & Hx & NDl & Hxl & Hxf & Hlt & _ & h & Hh).
  pose proof (rs_head _ _ _ _ R) as Hhd. exists (set_free_list r h).
  unfold alloc_node_RR, enqueue_link_RR. rqstep. rewrite Hfl. repeat rqstep. rewrite Hhd.
  destruct l as [|u t]; simpl.
  - repeat rqstep. eexists. do 3 (split; [done|]). split; [|done].
    eapply (ring_shape_link r _ []); [done|simpl; rqf; done..|rqf_cases|rqf_cases|rqf_cases].
  - pose proof (rs_ring _ _ _ _ R) as [_ [Ln Lp]]%ring_unfold.
    pose proof (tail_of_elem u t) as Ht. pose proof (last_tail_of u t) as Hlast.
    assert (x ≠ u ∧ x ≠ tail_of u t) as [Hxu Hxt] by (split; intros E; apply Hxl; rewrite E; inl).
    assert (u < length (nodes r) ∧ tail_of u t < length (nodes r)) as [Hu Htl] by (split; apply Hlt; inl).
    repeat rqstep. eexists. do 3 (split; [done|]). split; [|done].
    eapply (ring_shape_link r _ (u :: t)); [done|simpl; rqf; done..| | |]; rewrite ?Hlast; rqf_cases.
Qed.

(** The search walks over the processes before [p]. *)
Lemma search_RR_spec c r p l2 p2 : ∀ l0 l1 x p1 fuel,
  ring (nodes r) (l0 ++ l1 ++ x :: l2) → NoDup (l0 ++ l1 ++ x :: l2) →
  next_to_run r = head (l0 ++ l1 ++ x :: l2) →
  fproc (nodes r) x = Some (Some p) →
  Forall2 (λ n q, fproc (nodes r) n = Some (Some q)) l1 p1 →
  Forall2 (λ n q, fproc (nodes r) n = Some (Some q)) l2 p2 → p ∉ p1 →
  length l1 < fuel →
  search_RR fuel (head (l1 ++ [x])) p c r = Ok (Some x) c r.
Proof.
  intros l0 l1. revert l0. induction l1 as [|y l1 IH]; intros l0 x p1 [|n] R ND Hh Hx F1 F2 Hp Hf;
    try lia; cbn [search_RR]; rqstep; rewrite Hh.
  - change ([] ++ x :: l2) with (x :: l2) in *.
    destruct (l0 ++ x :: l2) as [|u t] eqn:El; [by destruct l0|].
    pose proof (ring_prev _ [] u t R) as Hpv. rewrite app_nil_r in Hpv. simpl. rqstep.
    case_decide; [done|]. rqstep. by rewrite decide_True.
  - destruct (l0 ++ (y :: l1) ++ x :: l2) as [|u t] eqn:El; [by destruct l0|].
    pose proof (ring_prev _ [] u t R) as Hpv. rewrite app_nil_r in Hpv.
    change (default u (last t)) with (tail_of u t) in Hpv. simpl. rqstep.
    rewrite decide_False.
    2: { intros [= E]. pose proof (last_tail_of u t) as Hlast. rewrite <- El in Hlast, ND.
         rewrite app_assoc, last_app_cons in Hlast. apply last_Some_elem_of in Hlast.
         rewrite <- E in Hlast. apply NoDup_app in ND as (_ & _ & ND).
         simpl in ND. apply NoDup_cons in ND as [ND _]. apply ND. inl. }
    destruct (procs_other _ _ _ p y F1 Hp) as (q & Hq & Hne); [inl|].
    rqstep. rewrite decide_False by congruence.
    rewrite <- El in R, ND, Hh.
    pose proof (ring_next _ l0 y (l1 ++ x :: l2) R) as Hn.
    assert (Hd : Some (default y (head ((l1 ++ x :: l2) ++ l0))) = head (l1 ++ [x])) by (by destruct l1).
    rqstep. rewrite Hd. apply Forall2_cons_inv_l in F1 as (q1 & p1' & Hq1 & F1 & ->).
    apply (IH (l0 ++ [y]) x p1'); try rewrite <- app_assoc; try done; [inl|simpl in Hf; lia].
Qed.
#[global] Arguments search_RR : simpl never.

Lemma advance_RR_spec c r l1 x l2 f p1 p p2 :
  ring_shape r (l1 ++ x :: l2) f (p1 ++ p :: p2) → p ∉ p1 →
  Forall2 (λ n q, fproc (nodes r) n = Some (Some q)) l1 p1 → fproc (nodes r) x = Some (Some p) →
  NoDup (l1 ++ x :: l2) →
  advance_RR (Some x) p c r = Ok () c (set_next_to_run r (head (l1 ++ l2))).
Proof.
  intros R Hp1 F1 Hxp ND. pose proof (ring_next _ _ _ _ (rs_ring _ _ _ _ R)) as Hn.
  pose proof (rs_head _ _ _ _ R) as Hh. unfold advance_RR. rqstep. rewrite Hh.
  destruct l1 as [|v l1]; simpl.
  - rewrite app_nil_r in Hn. rqstep. rewrite decide_True by done. rqstep.
    destruct l2 as [|u l2]; simpl in *; [by rewrite decide_True|].
    apply NoDup_cons in ND as [ND _].
    rewrite decide_False by (intros [= ->]; apply ND; inl). by repeat rqstep.
  - destruct (procs_other _ _ _ p v F1 Hp1) as (q & Hq & Hne); [inl|].
    rqstep. rewrite decide_False by congruence. simpl in Hh. rqstep. rewrite <- Hh. by destruct r.
Qed.

Lemma unlink_RR_spec c r l1 x l2 f p1 p p2 :
  ring_shape r (l1 ++ x :: l2) f (p1 ++ p :: p2) → length p1 = length l1 →
  NoDup (l1 ++ x :: l2) → (∀ n, n ∈ l1 ++ x :: l2 → n < length (nodes r)) →
  (∀ n, n ∈ l1 ++ x :: l2 → n ∉ f) →
  ∃ r', unlink_RR (Some x) c (set_next_to_run r (head (l1 ++ l2))) = Ok () c r' ∧
    ring_rep r' (p1 ++ p2) ∧ same_cfg r r' ∧ proc_num r' = proc_num r.
Proof.
  intros R Hl ND Hlt Hlf. pose proof (rs_ring _ _ _ _ R) as Rg.
  pose proof (ring_next _ _ _ _ Rg) as Hn. pose proof (ring_prev _ _ _ _ Rg) as Hp.
  assert (Hx : x < length (nodes r)) by (apply Hlt; inl).
  assert (Hxf : x ∉ f) by (apply Hlf; inl).
  unfold unlink_RR. rqstep. destruct (l2 ++ l1) as [|u t] eqn:El.
  - apply app_eq_nil in El as [-> ->]. simpl in *. rewrite decide_True by done. repeat rqstep.
    eexists. split; [done|]. split; [|done]. exists [], (x :: f). split; [|done..].
    assert (p1 = []) as -> by (by destruct p1).
    pose proof (nt_length_ps _ _ _ _ (rs_table _ _ _ _ R)) as Hps.
    assert (p2 = []) as -> by (destruct p2; [done|simpl in Hps; lia]).
    eapply (node_table_unlink r _ [] x [] f [] p []); [apply R|done|simpl; rqf; done..|inl|].
    intros n Hn'. assert (n ≠ x) by congruence. simpl. by rqf.
  - simpl in Hn, Hp. rewrite last_tail_of in Hp. simpl in Hp.
    assert (NDx : NoDup (x :: u :: t))
      by (rewrite <- El, Permutation_app_comm, Permutation_middle; done).
    assert (Hm : ∀ n, n ∈ u :: t → n ≠ x ∧ n < length (nodes r) ∧ n ∉ f).
    { intros n Hn'. apply NoDup_cons in NDx as [Hx' _].
      assert (n ∈ l1 ++ x :: l2) by (rewrite <- El in Hn'; inl).
      split_and!; [by intros ->|by apply Hlt|by apply Hlf]. }
    destruct (Hm u) as (? & ? & ?); [inl|].
    destruct (Hm (tail_of u t)) as (? & ? & ?); [apply tail_of_elem|].
    simpl. rewrite decide_False by congruence.
    erewrite bind_Ok by (repeat rqstep; reflexivity). repeat rqstep.
    eexists. split; [done|]. split; [|done]. exists (l1 ++ l2), (x :: f). split.
    + eapply node_table_unlink; [apply R|done|simpl; rqf; done..| |].
      * intros n Hn'. simpl. by rqf.
      * intros n Hn'. assert (n ≠ x ∧ n ≠ tail_of u t) as [? ?] by (split; congruence). simpl. by rqf.
    + simpl. apply ring_unlink_upd; try done. intros [-> ->]%app_eq_nil. done.
    + done.
Qed.

Lemma dequeue_unlink_RR_spec c r p1 p p2 :
  ring_rep r (p1 ++ p :: p2) → p ∉ p1 ++ p2 →
  ∃ r', dequeue_unlink_RR p c r = Ok () c r' ∧ ring_rep r' (p1 ++ p2) ∧
    same_cfg r r' ∧ proc_num r' = proc_num r.
Proof.
  intros R Hp.
  destruct (ring_shape_split _ _ _ _ _ R eq_refl) as (l1 & x & l2 & f & S & Hl & Hx & ND & Hlt & Hlf & F1 & F2).
  destruct (unlink_RR_spec c r _ _ _ _ _ _ _ S Hl ND Hlt Hlf) as (r' & E & Hr').
  exists r'. split; [|done]. unfold dequeue_unlink_RR. rqstep.
  rewrite (rs_head _ _ _ _ S). erewrite bind_Ok.
  2: { assert (Hh : head (l1 ++ x :: l2) = head (l1 ++ [x])) by (by destruct l1). rewrite Hh.
       eapply (search_RR_spec _ _ _ _ _ [] l1); try done; [apply S|apply (rs_head _ _ _ _ S)|inl|].
       pose proof (nt_length _ _ _ _ (rs_table _ _ _ _ S)) as HN. rewrite length_app in HN. simpl in HN. lia. }
  erewrite bind_Ok by (eapply advance_RR_spec; try done; inl). done.
Qed.

(** ** The class meets the contract *)
Definition RR_ops : sched_ops :=
  SchedOps enqueue_proc_RR dequeue_proc_RR yield_proc_RR pick_next_proc_RR get_proc_RR.

Lemma enqueue_proc_RR_step c s q r p pr ps :
  rqs s !! q = Some r → ring_queue r ps → procs s !! p = Some pr → length ps < NPROC →
  ∃ r', enqueue_proc_RR q p c s = Ok () c
      (sched_upd q r' (<[p := set_rq (if decide (p_rq pr = Some q) then pr
          else set_timeslice pr (max_slices r)) (Some q)]> (procs s)) s) ∧
    ring_queue r' (ps ++ [p]) ∧ same_cfg r r'.
Proof.
  intros Hq R Hp Hl. destruct (ring_queue_room _ _ R Hl) as (l & x & f & S).
  destruct R as [_ N].
  destruct (enqueue_link_RR_spec c r l x f ps p S) as (r1 & r2 & E1 & Hs & E2 & S2 & C2 & N2).
  exists (set_proc_num r2 (proc_num r2 + 1)). split; cycle 1.
  { split; [|apply C2]. apply ring_queue_num; [by exists (l ++ [x]), f|].
    rewrite N2, N, length_app. simpl. lia. }
  pose proof (lookup_lt_Some _ _ _ Hp) as Hlt. pose proof (lookup_lt_Some _ _ _ Hq) as Hql.
  unfold enqueue_proc_RR, sched_upd.
  erewrite bind_Ok by (by eapply at_rq_run).
  erewrite get_proc_at_bind by (simpl; done).
  erewrite bind_Ok by (eapply at_rq_run; [simpl; by eapply rqs_insert_lookup|reflexivity]).
  case_decide as Hd.
  - erewrite bind_Ok by reflexivity.
    erewrite bind_Ok by (eapply at_rq_run; [simpl; eapply list_lookup_insert_eq; by rewrite length_insert|exact E2]).
    erewrite bind_Ok by (eapply at_proc_run; exact Hp).
    erewrite at_rq_run; [|simpl; eapply list_lookup_insert_eq; by rewrite !length_insert|reflexivity].
    simpl. by rewrite !list_insert_insert_eq.
  - erewrite bind_Ok by (eapply at_proc_run; exact Hp).
    erewrite bind_Ok by (eapply at_rq_run; [simpl; eapply list_lookup_insert_eq; by rewrite length_insert|exact E2]).
    erewrite bind_Ok by (eapply at_proc_run; simpl; by rewrite list_lookup_insert_eq).
    erewrite at_rq_run; [|simpl; eapply list_lookup_insert_eq; by rewrite !length_insert|reflexivity].
    simpl. by rewrite !list_insert_insert_eq, Hs.
Qed.

Lemma dequeue_proc_RR_step c s q r p1 p p2 :
  rqs s !! q = Some r → ring_queue r (p1 ++ p :: p2) → p ∉ p1 ++ p2 →
  ∃ r', dequeue_proc_RR q p c s = Ok () c (sched_upd q r' (procs s) s) ∧
    ring_queue r' (p1 ++ p2) ∧ same_cfg r r'.
Proof.
  intros Hq [R N] Hp. destruct (dequeue_unlink_RR_spec c r _ _ _ R Hp) as (r1 & E & S1 & C1 & N1).
  exists (set_proc_num r1 (proc_num r1 - 1)). split; cycle 1.
  { split; [|apply C1]. apply ring_queue_num; [done|]. rewrite N1, N, !length_app. simpl. lia. }
  unfold dequeue_proc_RR.
  erewrite bind_Ok by (by eapply at_rq_run).
  erewrite at_rq_run; [|simpl; by eapply rqs_insert_lookup|reflexivity].
  simpl. by rewrite list_insert_insert_eq.
Qed.

#[export] Instance RR_spec : QueueSpec RR_ops ring_queue drop_proc (λ _ _, true).
Proof.
  split.
  - intros p ps ND Hp. destruct (queue_split p ps ND Hp) as (p1 & p2 & -> & Hn).
    rewrite drop_proc_spec by done. by rewrite Permutation_middle.
  - intros c s q r op ps obs ps' Hq R ND HL Ha.
    destruct op as [p|p| | |].
    + unfold abs_step in Ha. case_decide as Hd; simplify_eq. destruct Hd as (? & ? & ?).
      destruct (lookup_lt_is_Some_2 (procs s) p) as [pr Hp]; [lia|].
      destruct (enqueue_proc_RR_step c s q r p pr ps) as (r' & E & R' & C'); [done..|].
      eexists r', _. unfold conc_step. simpl. rewrite (bind_Ok _ _ _ _ _ _ _ E).
      split_and!; try done. exists pr, (if decide (p_rq pr = Some q) then p_timeslice pr else max_slices r).
      split; [done|]. by case_decide; destruct pr.
    + unfold abs_step in Ha. case_decide as Hd; simplify_eq.
      destruct (queue_split p ps ND Hd) as (p1 & p2 & -> & Hn).
      destruct (dequeue_proc_RR_step c s q r p1 p p2 Hq R Hn) as (r' & E & R' & C').
      rewrite drop_proc_spec by done. exists r', (procs s). unfold conc_step. simpl.
      by rewrite (bind_Ok _ _ _ _ _ _ _ E).
    + by apply (qs_step (QueueSpec := simple_spec) c s q r QYield ps obs ps').
    + by apply (qs_step (QueueSpec := simple_spec) c s q r QPick ps obs ps').
    + by apply (qs_step (QueueSpec := simple_spec) c s q r QGet ps obs ps').
Qed.
