(* ===== verification/SchedFifo.v ===== *)
(** * The FIFO class (sched_fifo.c)

    A singly linked queue with a tail pointer; only the idle process yields on
    a clock tick.  The contract of SchedClass holds for this class with two
    restrictions on the operations ([fifo_ok]): the last process of a longer
    queue is not dequeued, and a queue of two or more does not yield.  Two
    theorems of SchedBoot show that both restrictions are needed: the code leaves
    [last_to_run] behind in the first case and a circular list in the second. *)
From S2P Require Import Prelude Kernel ProcData Rq SchedState SchedClass SchedSimple.

(** ** Operations *)
Definition init_rq_fifo (q : nat) : M schst unit := mret ().

Definition enqueue_link_fifo (p : nat) : M rq unit :=
  pnode ← kgets free_list;
  nx ← node_next pnode;
  kmodify (λ r, set_free_list r nx);;
  set_node_proc pnode (Some p);;
  set_node_next pnode None;;
  ntr ← kgets next_to_run;
  match ntr with
  | None => kmodify (λ r, set_next_to_run (set_last_to_run r pnode) pnode)
  | Some _ =>
      ltr ← kgets last_to_run;
      set_node_next ltr pnode;;
      kmodify (λ r, set_last_to_run r pnode)
  end.

Definition enqueue_proc_fifo (q p : nat) : M schst unit :=
  at_rq q (enqueue_link_fifo p);;
  at_proc p (λ pr, set_rq pr (Some q));;
  at_rq q (kmodify (λ r, set_proc_num r (proc_num r + 1))).

(** The search of [dequeue_proc_fifo]: the node and its predecessor. *)
Fixpoint search_fifo (fuel : nat) (pnode node : option nat) (p : nat)
    : M rq (option nat * option nat) :=
  match fuel with
  | O => diverge
  | S fuel =>
      ltr ← kgets last_to_run;
      if decide (node = ltr) then mret (pnode, node)
      else
        pr ← node_proc node;
        if decide (pr = Some p) then mret (pnode, node)
        else nx ← node_next node; search_fifo fuel node nx p
  end.

Definition unlink_fifo (pnode node : option nat) (p : nat) : M rq unit :=
  ntr ← kgets next_to_run;
  hd ← node_proc ntr;
  nx ← node_next node;
  (if decide (hd = Some p) then kmodify (λ r, set_next_to_run r nx)
   else set_node_next pnode nx);;
  fl ← kgets free_list;
  set_node_next node fl;;
  kmodify (λ r, set_free_list r node).

Definition dequeue_unlink_fifo (p : nat) : M rq unit :=
  ntr ← kgets next_to_run;
  '(pnode, node) ← search_fifo (S NPROC) None ntr p;
  unlink_fifo pnode node p.

Definition dequeue_proc_fifo (q p : nat) : M schst unit :=
  at_rq q (dequeue_unlink_fifo p);;
  at_rq q (kmodify (λ r, set_proc_num r (proc_num r - 1))).

Definition yield_nodes_fifo : M rq unit :=
  ntr ← kgets next_to_run;
  ltr ← kgets last_to_run;
  match ntr with
  | None => mret ()
  | Some _ =>
      if decide (ntr = ltr) then mret ()
      else
        set_node_next ltr ntr;;
        nx ← node_next ntr;
        kmodify (λ r, set_next_to_run r nx);;
        ln ← node_next ltr;
        kmodify (λ r, set_last_to_run r ln)
  end.
Definition yield_proc_fifo (q : nat) : M schst unit := at_rq q yield_nodes_fifo.

Definition pick_next_proc_fifo (q : nat) : M schst (option nat) := at_rq q pick_next_nodes_simple.

Definition proc_tick_fifo (yield : M schst unit) (q p : nat) : M schst unit :=
  idle ← my_idle;
  if decide (Some p = idle) then yield else mret ().

(** The loop of [get_proc_fifo]; [cnode] stays the head of the queue. *)
Fixpoint get_proc_loop_fifo (k : nat) (cnode : option nat) (procs_moved : list (option nat))
    : M rq (list (option nat)) :=
  match k with
  | O => mret procs_moved
  | S k =>
      next ← node_next cnode;
      match next with
      | None => panic "Not enough proc to move in get_proc_fifo"
      | Some _ =>
          ltr ← kgets last_to_run;
          (if decide (next = ltr) then kmodify (λ r, set_last_to_run r cnode) else mret ());;
          if decide (NPROC / 2 ≤ length procs_moved) then fault
          else
            p ← node_proc next;
            nn ← node_next next;
            set_node_next cnode nn;;
            fl ← kgets free_list;
            set_node_next next fl;;
            kmodify (λ r, set_free_list r next);;
            get_proc_loop_fifo k cnode (procs_moved ++ [p])
      end
  end.

Definition get_proc_nodes_fifo : M rq (list (option nat)) :=
  num ← kgets proc_num;
  let num_procs_moved := Z.quot num 2 in
  cnode ← kgets next_to_run;
  moved ← get_proc_loop_fifo (Z.to_nat num_procs_moved) cnode [];
  kmodify (λ r, set_proc_num r (proc_num r - num_procs_moved));;
  mret moved.
Definition get_proc_fifo (q : nat) : M schst (list (option nat)) := at_rq q get_proc_nodes_fifo.

(** [load_balance_fifo] repeats [load_balance_simple]. *)
Definition load_balance_fifo := load_balance_simple.

Definition fifo_ops : sched_ops :=
  SchedOps enqueue_proc_fifo dequeue_proc_fifo yield_proc_fifo pick_next_proc_fifo get_proc_fifo.

(** The operations the contract covers. *)
Definition fifo_ok (op : qop) (ps : list nat) : bool :=
  match op with
  | QDequeue p => bool_decide (ps = [p]) || bool_decide (last ps ≠ Some p)
  | QYield => bool_decide (length ps ≤ 1)
  | _ => true
  end.

(** ** Correctness *)
Lemma fifo_shape_free r l x f ps :
  fifo_shape r l (x :: f) ps →
  free_list r = Some x ∧ x < length (nodes r) ∧ NoDup l ∧ x ∉ l ∧ x ∉ f ∧
  (∀ n, n ∈ l → n < length (nodes r)) ∧ (∀ n, n ∈ l → n ∉ f) ∧
  ∃ h, fnext (nodes r) x = Some h.
Proof.
  intros [T _ _]. pose proof (nt_nodup _ _ _ _ T) as ND.
  pose proof (nt_free _ _ _ _ T) as [E (h & E' & _)].
  apply NoDup_app in ND as (ND & D & [ND1 ND2]%NoDup_cons).
  split_and!; eauto.
  - apply (nt_lt _ _ _ _ T). inl.
  - intros Hx. apply (D x Hx). by left.
  - intros n Hn. apply (nt_lt _ _ _ _ T). inl.
  - intros n Hn Hf. apply (D n Hn). by right.
Qed.

Lemma enqueue_link_fifo_spec c r l x f ps p :
  fifo_shape r l (x :: f) ps →
  ∃ r', enqueue_link_fifo p c r = Ok () c r' ∧
    fifo_shape r' (l ++ [x]) f (ps ++ [p]) ∧ same_cfg r r' ∧ proc_num r' = proc_num r.
Proof.
  intros S. destruct (fifo_shape_free _ _ _ _ _ S) as (Hfl & Hx & NDl & Hxl & Hxf & Hlt & Hlf & h & Hh).
  assert (NDx : NoDup (l ++ [x])) by (apply NoDup_app; split_and!; [done| |apply NoDup_singleton]; intros n Hn; inl).
  pose proof (fs_chain _ _ _ _ S) as C. pose proof C as (Hhd & _ & _)%chain_spec.
  unfold enqueue_link_fifo. rqstep. rewrite Hfl. repeat rqstep. rewrite Hhd.
  destruct l as [|u t]; simpl.
  - repeat rqstep. eexists. split; [done|]. split; [|done]. split.
    + eapply (node_table_link r _ []); [apply S|simpl; rqf; done..|inl|].
      intros n Hn. assert (n ≠ x) by congruence. simpl. by rqf.
    + simpl. split; [done|]. exists None. split; [by rqf|done].
    + done.
  - pose proof (fs_last _ _ _ _ S) as Hl. rewrite last_tail_of in Hl.
    pose proof (tail_of_elem u t) as Ht. pose proof (last_tail_of u t) as Hlast.
    assert (x ≠ tail_of u t) as Hxt by (intros E; apply Hxl; rewrite E; inl).
    assert (tail_of u t < length (nodes r)) as Htl by (apply Hlt; inl).
    repeat rqstep. rewrite Hl by done. repeat rqstep.
    eexists. split; [done|]. split; [|done]. split.
    + eapply (node_table_link r _ (u :: t)); [apply S|simpl; rqf; done..| |]; intros n Hn; simpl.
      * assert (n ≠ x) by congruence. by rqf.
      * assert (n ≠ x ∧ n ≠ tail_of u t) as [? ?] by (split; intros ->; [done|by apply (Hlf (tail_of u t))]).
        by rqf.
    + simpl. rewrite Hhd. apply (chain_snoc (nodes r) _ (next_to_run r) (u :: t)); try done.
      * by rqf.
      * intros z Hz. rewrite Hlast in Hz. simplify_eq. by rqf.
      * intros n Hn Hne. rewrite Hlast in Hne. assert (n ≠ x ∧ n ≠ tail_of u t) as [? ?] by (split; congruence).
        by rqf.
    + simpl. by rewrite app_comm_cons, last_snoc.
Qed.

Lemma search_fifo_spec c r p l2 : ∀ l1 l0 x p1 fuel,
  chain (nodes r) (next_to_run r) (l0 ++ l1 ++ x :: l2) → NoDup (l0 ++ l1 ++ x :: l2) →
  last_to_run r = last (x :: l2) → fproc (nodes r) x = Some (Some p) →
  Forall2 (λ n q, fproc (nodes r) n = Some (Some q)) l1 p1 → p ∉ p1 →
  length l1 < fuel →
  search_fifo fuel (last l0) (head (l1 ++ [x])) p c r = Ok (last (l0 ++ l1), Some x) c r.
Proof.
  induction l1 as [|y l1 IH]; intros l0 x p1 [|n] C ND Hl Hx F1 Hp Hf; try lia;
    cbn [search_fifo]; rqstep; rewrite Hl.
  - rewrite app_nil_r. simpl head. case_decide; [done|]. rqstep. by rewrite decide_True.
  - simpl head. rewrite decide_False.
    2: { rewrite last_tail_of. intros [= E]. apply NoDup_app in ND as (_ & _ & ND).
         simpl in ND. apply NoDup_cons in ND as [ND _]. apply ND.
         rewrite E. pose proof (tail_of_elem x l2). inl. }
    destruct (procs_other _ _ _ p y F1 Hp) as (q & Hq & Hne); [inl|].
    rqstep. rewrite decide_False by congruence.
    pose proof (chain_next _ _ l0 y (l1 ++ x :: l2) C) as Hn. rqstep.
    assert (Hd : head (l1 ++ x :: l2) = head (l1 ++ [x])) by (by destruct l1). rewrite Hd.
    apply Forall2_cons_inv_l in F1 as (q1 & p1' & Hq1 & F1 & ->).
    rewrite <- (last_snoc y l0). rewrite (IH (l0 ++ [y]) x p1'); try rewrite <- app_assoc; try done; [inl|].
    simpl in Hf. lia.
Qed.
#[global] Arguments search_fifo : simpl never.

Lemma fifo_shape_split r l f p1 p p2 :
  fifo_shape r l f (p1 ++ p :: p2) →
  ∃ l1 x l2, l = l1 ++ x :: l2 ∧
    length p1 = length l1 ∧ length p2 = length l2 ∧ fproc (nodes r) x = Some (Some p) ∧
    NoDup (l1 ++ x :: l2) ∧ (∀ n, n ∈ l1 ++ x :: l2 → n < length (nodes r)) ∧
    (∀ n, n ∈ l1 ++ x :: l2 → n ∉ f) ∧
    Forall2 (λ n q, fproc (nodes r) n = Some (Some q)) l1 p1.
Proof.
  intros S. pose proof (fs_table _ _ _ _ S) as T.
  destruct (procs_split _ _ _ _ _ (nt_procs _ _ _ _ T)) as (l1 & x & l2 & -> & Hl & Hx & F1 & F2).
  pose proof (nt_nodup _ _ _ _ T) as ND. pose proof (nt_lt _ _ _ _ T) as Hlt.
  apply NoDup_app in ND as (ND & D & _).
  exists l1, x, l2. split_and!; try done; [symmetry; by eapply Forall2_length|].
  intros n Hn. apply Hlt. rewrite elem_of_app. by left.
Qed.

(** Removing the head. *)
Lemma unlink_fifo_head c r x l2 f p p2 :
  fifo_shape r (x :: l2) f (p :: p2) →
  ∃ r', unlink_fifo None (Some x) p c r = Ok () c r' ∧ fifo_shape r' l2 (x :: f) p2 ∧
    same_cfg r r' ∧ proc_num r' = proc_num r.
Proof.
  intros S. pose proof (fs_table _ _ _ _ S) as T.
  pose proof (nt_nodup _ _ _ _ T) as ND. pose proof (nt_lt _ _ _ _ T) as Hlt.
  pose proof (nt_procs _ _ _ _ T) as [Hx _]%Forall2_cons.
  pose proof (fs_chain _ _ _ _ S) as [Hh (h & Hn & C)].
  assert (x < length (nodes r)) by (apply Hlt; inl).
  simpl in ND. apply NoDup_cons in ND as [Hxn _].
  unfold unlink_fifo. rqstep. rewrite Hh. repeat rqstep. rewrite decide_True by done. repeat rqstep.
  eexists. split; [done|]. split; [|done]. split.
  - eapply (node_table_unlink r _ [] x l2 f [] p p2); [apply S|done|simpl; rqf; done..| |];
      intros n Hn'; simpl; rqf; [done|]. assert (n ≠ x) by (intros ->; apply Hxn; inl). by rqf.
  - simpl. apply (chain_ext (nodes r)); [|done]. intros n Hn'.
    assert (n ≠ x) by (intros ->; apply Hxn; inl). by rqf.
  - simpl. intros Hne. rewrite (fs_last _ _ _ _ S) by done. by destruct l2.
Qed.

(** Removing a process that is neither the head nor the last. *)
Lemma unlink_fifo_mid c r l1 u x l2 f p1 q p p2 :
  fifo_shape r (l1 ++ u :: x :: l2) f (p1 ++ q :: p :: p2) → length p1 = length l1 →
  l2 ≠ [] → p ∉ p1 ++ [q] →
  ∃ r', unlink_fifo (Some u) (Some x) p c r = Ok () c r' ∧
    fifo_shape r' (l1 ++ u :: l2) (x :: f) (p1 ++ q :: p2) ∧
    same_cfg r r' ∧ proc_num r' = proc_num r.
Proof.
  intros S Hlen Hl2 Hp. pose proof (fs_table _ _ _ _ S) as T.
  pose proof (nt_nodup _ _ _ _ T) as ND. pose proof (nt_lt _ _ _ _ T) as Hlt.
  apply NoDup_app in ND as (ND & D & _).
  assert (Hx : x ∈ l1 ++ u :: x :: l2) by inl. assert (Hu : u ∈ l1 ++ u :: x :: l2) by inl.
  assert (u < length (nodes r) ∧ x < length (nodes r)) as [? ?] by (split; apply Hlt; inl).
  assert (NDm : ∀ n, n ∈ l1 ++ u :: l2 → n ≠ x).
  { intros n Hn ->. apply (NoDup_mid_ne (l1 ++ [u]) x l2 x); [by rewrite <- app_assoc|inl|done]. }
  assert (NDu : ∀ n, n ∈ l1 ++ l2 → n ≠ u).
  { intros n Hn ->. apply (NoDup_mid_ne l1 u (x :: l2) u); [done|inl|done]. }
  assert (u ≠ x) by (apply NDm; inl).
  pose proof (fs_chain _ _ _ _ S) as C.
  assert (Hn : fnext (nodes r) x = Some (head l2))
    by (eapply (chain_next _ _ (l1 ++ [u])); rewrite <- app_assoc; exact C).
  assert (Hh : ∃ v q', next_to_run r = Some v ∧ fproc (nodes r) v = Some (Some q') ∧ q' ≠ p).
  { pose proof C as (Hh & _ & _)%chain_spec. rewrite Hh. pose proof (nt_procs _ _ _ _ T) as F.
    destruct l1 as [|v l1], p1 as [|q' p1]; try done; apply Forall2_cons in F as [? _];
      eexists _, _; (split; [done|]); (split; [done|]); intros ->; apply Hp; inl. }
  destruct Hh as (v & q' & Hv & Hvq & Hq').
  unfold unlink_fifo. rqstep. rewrite Hv. repeat rqstep. rewrite decide_False by congruence.
  erewrite bind_Ok by (repeat rqstep; reflexivity). repeat rqstep.
  eexists. split; [done|]. split; [|done].
  split.
  - rewrite (app_cons_eq l1 u l2), (app_cons_eq p1 q p2).
    eapply (node_table_unlink r _ (l1 ++ [u]) x l2 f (p1 ++ [q]) p p2);
      [by rewrite <- !app_assoc|rewrite !length_app; simpl; lia|simpl; rqf; done..| |];
      intros n Hn'; simpl; rqf; [done|].
    assert (n ≠ x ∧ n ≠ u) as [? ?] by (split; intros ->; [by apply (D x)|by apply (D u)]). by rqf.
  - simpl. eapply chain_cut; [exact C|done|by rqf|].
    intros n Hn'. assert (n ≠ x) by (apply NDm; inl). assert (n ≠ u) by (by apply NDu). by rqf.
  - simpl. intros _. rewrite (fs_last _ _ _ _ S) by (by destruct l1).
    rewrite !last_app_cons, !last_cons_cons. by destruct l2.
Qed.

Lemma dequeue_unlink_fifo_spec c r l f p1 p p2 :
  fifo_shape r l f (p1 ++ p :: p2) → p ∉ p1 ++ p2 → p1 = [] ∨ p2 ≠ [] →
  ∃ r' l' f', dequeue_unlink_fifo p c r = Ok () c r' ∧ fifo_shape r' l' f' (p1 ++ p2) ∧
    same_cfg r r' ∧ proc_num r' = proc_num r.
Proof.
  intros S Hp Hok.
  destruct (fifo_shape_split _ _ _ _ _ _ S) as (l1 & x & l2 & -> & Hl1 & Hl2 & Hx & ND & Hlt & Hlf & F1).
  assert (HS : search_fifo (Datatypes.S NPROC) None (next_to_run r) p c r = Ok (last l1, Some x) c r).
  { pose proof (fs_chain _ _ _ _ S) as C. pose proof C as (Hh & _ & _)%chain_spec. rewrite Hh.
    assert (Hd : head (l1 ++ x :: l2) = head (l1 ++ [x])) by (by destruct l1). rewrite Hd.
    eapply (search_fifo_spec _ _ _ _ l1 []); try done.
    - rewrite (fs_last _ _ _ _ S) by (by destruct l1). by rewrite last_app_cons.
    - inl.
    - pose proof (nt_length _ _ _ _ (fs_table _ _ _ _ S)) as HN. rewrite length_app in HN. simpl in HN. lia. }
  unfold dequeue_unlink_fifo. rqstep. rewrite (bind_Ok _ _ _ _ _ _ _ HS).
  destruct l1 as [|u l1 _] using rev_ind.
  - destruct p1; [|done]. destruct (unlink_fifo_head c r x l2 f p p2 S) as (r' & E & S' & ?).
    exists r', l2, (x :: f). split; [exact E|done].
  - destruct p1 as [|q p1 _] using rev_ind; [rewrite length_app in Hl1; simpl in Hl1; lia|].
    rewrite !length_app in Hl1. simpl in Hl1. rewrite last_snoc.
    rewrite <- !app_assoc in S. simpl in S.
    destruct (unlink_fifo_mid c r l1 u x l2 f p1 q p p2 S) as (r' & E & S' & ?).
    + lia.
    + destruct Hok as [[? ?]%app_eq_nil|Hok]; [done|]. intros ->. by destruct p2.
    + inl.
    + exists r', (l1 ++ u :: l2), (x :: f). rewrite <- app_assoc. split; [exact E|done].
Qed.

Lemma get_proc_loop_fifo_spec c k : ∀ r h l f p0 ps acc,
  fifo_shape r (h :: l) f (p0 :: ps) → k ≤ length ps → length acc + k ≤ NPROC / 2 →
  ∃ r' l' f', get_proc_loop_fifo k (Some h) acc c r = Ok (acc ++ (Some <$> take k ps)) c r' ∧
    fifo_shape r' (h :: l') f' (p0 :: drop k ps) ∧ same_cfg r r' ∧ proc_num r' = proc_num r.
Proof.
  induction k as [|k IH]; intros r h l f p0 ps acc S Hk Hacc.
  { exists r, l, f. rewrite drop_0. simpl. by rewrite app_nil_r. }
  pose proof (fs_table _ _ _ _ S) as T. pose proof (nt_procs _ _ _ _ T) as F.
  apply Forall2_cons in F as [Hh F].
  destruct ps as [|p ps]; [simpl in Hk; lia|].
  apply Forall2_cons_inv_r in F as (x & l' & Hx & F & ->).
  pose proof (fs_chain _ _ _ _ S) as C.
  pose proof (chain_next _ _ [] h (x :: l') C : fnext (nodes r) h = Some (Some x)) as Hhn. pose proof (chain_next _ _ [h] x l' C) as Hxn.
  pose proof (nt_nodup _ _ _ _ T) as ND. pose proof (nt_lt _ _ _ _ T) as Hlt.
  apply NoDup_app in ND as (ND & D & _).
  assert (h < length (nodes r) ∧ x < length (nodes r)) as [? ?] by (split; apply Hlt; inl).
  assert (Hxne : ∀ n, n ∈ h :: l' → n ≠ x).
  { intros n Hn' ->. apply (NoDup_mid_ne [h] x l' x); [done|inl|done]. }
  assert (h ≠ x) by (apply Hxne; inl).
  change (NPROC / 2) with 32 in *. cbn [get_proc_loop_fifo]. repeat rqstep.
  set (r1 := if decide (Some x = last_to_run r) then set_last_to_run r (Some h) else r).
  assert (E1 : (if decide (Some x = last_to_run r) then kmodify (λ r, set_last_to_run r (Some h)) else mret ()) c r
    = Ok () c r1) by (unfold r1; by case_decide).
  rewrite (bind_Ok _ _ _ _ _ _ _ E1). rewrite decide_False by lia.
  assert (Hr1 : nodes r1 = nodes r ∧ free_list r1 = free_list r ∧ next_to_run r1 = next_to_run r ∧
    same_cfg r r1 ∧ proc_num r1 = proc_num r ∧
    last_to_run r1 = last (h :: l')).
  { unfold r1. pose proof (fs_last _ _ _ _ S) as Hl. rewrite last_cons_cons in Hl.
    case_decide as Hd; simpl; split_and!; try done.
    - rewrite Hl in Hd by done. destruct l' as [|z l' _] using rev_ind; [done|].
      rewrite app_comm_cons, last_snoc in Hd. simplify_eq. exfalso. apply (Hxne z); [inl|done].
    - rewrite Hl in * by done. by destruct l'. }
  destruct Hr1 as (Hns & Hfl & Hntr & Hcfg & Hnum & Hlast).
  rewrite <- Hns in Hx, Hxn.
  assert (h < length (nodes r1) ∧ x < length (nodes r1)) as [? ?] by (by rewrite Hns).
  repeat rqstep.
  match goal with |- context [get_proc_loop_fifo k (Some h) _ c ?R] => set (r2 := R) end.
  destruct (IH r2 h l' (x :: f) p0 ps (acc ++ [Some p])) as (r' & l2 & f2 & E & S' & C' & N').
  - split.
    + eapply (node_table_unlink r _ [h] x l' f [p0] p ps); [apply T|done|..]; unfold r2; simpl.
      * rqf. by rewrite Hns.
      * done.
      * rqf. by rewrite Hfl.
      * intros n Hn'. rqf. by rewrite Hns.
      * intros n Hn'. assert (n ≠ x ∧ n ≠ h) as [? ?]
          by (split; intros ->; [apply (D x)|apply (D h)]; try done; inl). rqf. by rewrite Hns.
    + unfold r2. simpl. rewrite Hntr, Hns in *.
      apply (chain_cut (nodes r) _ _ [] h x l'); try done; [by rqf|].
      intros n Hn'. assert (n ≠ x) by (apply Hxne; inl).
      assert (n ≠ h) by (intros ->; apply NoDup_cons in ND as [ND _]; apply ND; inl). by rqf.
    + unfold r2. simpl. done.
  - simpl in Hk. lia.
  - rewrite length_app. cbn [length]. lia.
  - exists r', l2, f2. rewrite E, <- app_assoc. split; [done|]. split; [done|]. split.
    + by eapply same_cfg_trans.
    + by rewrite N'.
Qed.

Lemma fifo_queue_num r l f ps n :
  fifo_shape r l f ps → n = Z.of_nat (length ps) → fifo_queue (set_proc_num r n) ps.
Proof. intros [[? ? ? ?] ? ?] ->. split; [|done]. exists l, f. by repeat (done || constructor). Qed.

Lemma get_proc_nodes_fifo_spec c r p0 ps :
  fifo_queue r (p0 :: ps) →
  let k := S (length ps) / 2 in
  ∃ r', get_proc_nodes_fifo c r = Ok (Some <$> take k ps) c r' ∧
    fifo_queue r' (p0 :: drop k ps) ∧ same_cfg r r'.
Proof.
  intros [(l & f & S) N] k. pose proof (fs_table _ _ _ _ S) as T.
  pose proof (nt_length _ _ _ _ T) as HN. pose proof (nt_length_ps _ _ _ _ T) as HP.
  destruct l as [|h l]; [simpl in HP; lia|].
  assert (Hk : k ≤ length ps) by (subst k; destruct ps; [done|apply Nat.Div0.div_le_upper_bound; simpl; lia]).
  assert (Hz : Z.quot (proc_num r) 2 = Z.of_nat k).
  { rewrite N, Z.quot_div_nonneg by lia. change (length (p0 :: ps)) with (Datatypes.S (length ps)).
    by rewrite <- (Nat2Z.inj_div _ 2). }
  destruct (get_proc_loop_fifo_spec c k r h l f p0 ps [] S Hk) as (r' & l' & f' & E & S' & C & N').
  { simpl in HN, HP. subst k. change (length []) with 0. rewrite Nat.add_0_l.
    apply Nat.Div0.div_le_mono. unfold NPROC in HN |- *. lia. }
  pose proof (fs_chain _ _ _ _ S) as (Hh & _ & _)%chain_spec.
  unfold get_proc_nodes_fifo. repeat rqstep. rewrite Hh, Hz, Nat2Z.id.
  change (head (h :: l)) with (Some h). rewrite (bind_Ok _ _ _ _ _ _ _ E). repeat rqstep.
  eexists. split; [done|]. split; [|done].
  eapply fifo_queue_num; [done|]. rewrite N', N. cbn [length]. rewrite length_drop. lia.
Qed.

Lemma pick_next_nodes_fifo_spec c r ps :
  fifo_queue r ps → pick_next_nodes_simple c r = Ok (head ps) c r.
Proof.
  intros [(l & f & S) _]. pose proof (nt_procs _ _ _ _ (fs_table _ _ _ _ S)) as F.
  pose proof (fs_chain _ _ _ _ S) as (Hh & _ & _)%chain_spec.
  unfold pick_next_nodes_simple. rqstep. rewrite Hh.
  inversion F as [|x p l' ps' Hx F' E1 E2]; subst; simpl; [done|]. by rqstep.
Qed.

Lemma yield_nodes_fifo_short c r ps :
  fifo_queue r ps → length ps ≤ 1 → yield_nodes_fifo c r = Ok () c r.
Proof.
  intros [(l & f & S) _] Hl. pose proof (nt_length_ps _ _ _ _ (fs_table _ _ _ _ S)) as HP.
  pose proof (fs_chain _ _ _ _ S) as (Hh & _ & _)%chain_spec.
  unfold yield_nodes_fifo. repeat rqstep. rewrite Hh.
  destruct l as [|x [|y l]]; [done| |simpl in HP; lia]. simpl.
  by rewrite (fs_last _ _ _ _ S), decide_True.
Qed.

Lemma enqueue_proc_fifo_step c s q r p pr ps :
  rqs s !! q = Some r → fifo_queue r ps → procs s !! p = Some pr → length ps < NPROC →
  ∃ r', enqueue_proc_fifo q p c s =
      Ok () c (sched_upd q r' (<[p := set_rq pr (Some q)]> (procs s)) s) ∧
    fifo_queue r' (ps ++ [p]) ∧ same_cfg r r'.
Proof.
  intros Hq [(l & f & S) N] Hp Hl. pose proof (nt_length _ _ _ _ (fs_table _ _ _ _ S)) as HN.
  pose proof (nt_length_ps _ _ _ _ (fs_table _ _ _ _ S)) as HP.
  destruct f as [|x f]; [simpl in HN; lia|].
  destruct (enqueue_link_fifo_spec c r l x f ps p S) as (r1 & E & S1 & C1 & N1).
  exists (set_proc_num r1 (proc_num r1 + 1)). split; cycle 1.
  { split; [|apply C1]. eapply fifo_queue_num; [done|]. rewrite N1, N, length_app. simpl. lia. }
  unfold enqueue_proc_fifo. erewrite bind_Ok by (by eapply at_rq_run).
  erewrite bind_Ok by (by eapply at_proc_run).
  erewrite at_rq_run; [|simpl; by eapply rqs_insert_lookup|reflexivity].
  simpl. by rewrite list_insert_insert_eq.
Qed.

Lemma dequeue_proc_fifo_step c s q r p1 p p2 :
  rqs s !! q = Some r → fifo_queue r (p1 ++ p :: p2) → p ∉ p1 ++ p2 → p1 = [] ∨ p2 ≠ [] →
  ∃ r', dequeue_proc_fifo q p c s = Ok () c (sched_upd q r' (procs s) s) ∧
    fifo_queue r' (p1 ++ p2) ∧ same_cfg r r'.
Proof.
  intros Hq [(l & f & S) N] Hp Hok.
  destruct (dequeue_unlink_fifo_spec c r l f p1 p p2 S Hp Hok) as (r1 & l' & f' & E & S1 & C1 & N1).
  exists (set_proc_num r1 (proc_num r1 - 1)). split; cycle 1.
  { split; [|apply C1]. eapply fifo_queue_num; [done|]. rewrite N1, N, !length_app. simpl. lia. }
  unfold dequeue_proc_fifo. erewrite bind_Ok by (by eapply at_rq_run).
  erewrite at_rq_run; [|simpl; by eapply rqs_insert_lookup|reflexivity].
  simpl. by rewrite list_insert_insert_eq.
Qed.

#[export] Instance fifo_spec : QueueSpec fifo_ops fifo_queue drop_proc fifo_ok.
Proof.
  split.
  - intros p ps ND Hp. destruct (queue_split p ps ND Hp) as (p1 & p2 & -> & Hn).
    rewrite drop_proc_spec by done. by rewrite Permutation_middle.
  - intros c s q r op ps obs ps' Hq R ND HL Ha. unfold abs_step in Ha.
    destruct (fifo_ok op ps) eqn:Hok; [|done].
    destruct op as [p|p| | |]; simpl; repeat case_decide; simplify_eq.
    + destruct_and!. destruct (lookup_lt_is_Some_2 (procs s) p) as [pr Hp]; [lia|].
      destruct (enqueue_proc_fifo_step c s q r p pr ps) as (r' & E & R' & C'); [done..|].
      eexists r', _. rewrite (bind_Ok _ _ _ _ _ _ _ E). split_and!; try done.
      exists pr, (p_timeslice pr). split; [done|]. by destruct pr.
    + destruct (queue_split p ps) as (p1 & p2 & -> & Hn); [done..|].
      destruct (dequeue_proc_fifo_step c s q r p1 p p2) as (r' & E & R' & C'); [done..| |].
      { simpl in Hok. apply orb_true_iff in Hok as [Hok|Hok]; apply bool_decide_eq_true in Hok.
        - left. by destruct p1 as [|? [|]].
        - right. intros ->. apply Hok. by rewrite last_app_cons. }
      rewrite drop_proc_spec by done. exists r', (procs s). by rewrite (bind_Ok _ _ _ _ _ _ _ E).
    + apply bool_decide_eq_true in Hok. unfold yield_proc_fifo.
      erewrite bind_Ok by (eapply at_rq_run; [done|by eapply yield_nodes_fifo_short]).
      assert (rotate ps = ps) as -> by (destruct ps as [|? [|? ?]]; simpl in *; done || lia).
      by exists r, (procs s).
    + unfold pick_next_proc_fifo.
      erewrite bind_Ok by (eapply at_rq_run; [done|apply pick_next_nodes_fifo_spec, R]).
      by exists r, (procs s).
    + destruct ps as [|p0 ps]; simplify_eq.
      destruct (get_proc_nodes_fifo_spec c r p0 ps R) as (r' & E & R' & C').
      unfold get_proc_fifo. erewrite at_rq_run by done. by exists r', (procs s).
Qed.
