(* ===== verification/SchedMLFQ.v ===== *)
(** * The multi-level feedback class (sched_MLFQ.c)

    Processor [i] has three queues, [rqs[i]], [rqs[i+NCPU]] and
    [rqs[i+2*NCPU]], linked by [next]; each has a sub-class, and the operations
    of the class are dispatched to it.  [class_ops] ties the knot between the
    classes.  [mlfq] is the representation invariant of the three queues and
    [mlfq_step] its abstract machine; the refinement is proved through the
    contract [QueueSpec] of the sub-classes. *)
From S2P Require Import Prelude Kernel ProcData Rq SchedState SchedClass SchedSimple SchedRR.
From S2P Require Import SchedFifo.

(** ** Operations *)
Definition rq_at (q : nat) : M schst rq := s ← kget; deref (rqs s !! q).
(** [rq->next], to be dereferenced *)
Definition rq_next (q : nat) : M schst nat := r ← rq_at q; deref (r_next r).
(** [rq->sub_sched_class], to be dereferenced *)
Definition sub_of (q : nat) : M schst class_id := r ← rq_at q; deref (sub_sched_class r).

Definition init_rq_MLFQ (q : nat) : M schst unit := mret ().

(** The operations take the table of the other classes, [sub]. *)
Section MLFQ.
Context (sub : class_id → sched_ops).

Definition enqueue_proc_MLFQ (q p : nat) : M schst unit :=
  k ← sub_of q; op_enqueue_proc (sub k) q p.

Definition dequeue_proc_MLFQ (q p : nat) : M schst unit :=
  pr ← get_proc_at p;
  match p_rq pr with
  | None => mret ()
  | Some pq => k ← sub_of pq; op_dequeue_proc (sub k) pq p
  end.

Definition yield_proc_MLFQ (q : nat) : M schst unit :=
  r ← rq_at q;
  match next_to_run r with
  | Some _ => k ← sub_of q; op_yield_proc (sub k) q
  | None =>
      q1 ← rq_next q;
      r1 ← rq_at q1;
      match next_to_run r1 with
      | Some _ => k ← sub_of q1; op_yield_proc (sub k) q1
      | None =>
          q2 ← rq_next q1;
          r2 ← rq_at q2;
          match next_to_run r2 with
          | Some _ => k ← sub_of q2; op_yield_proc (sub k) q2
          | None => mret ()
          end
      end
  end.

Definition pick_sub (q : nat) : M schst (option nat) :=
  k ← sub_of q; op_pick_next_proc (sub k) q.

Definition pick_next_proc_MLFQ (q : nat) : M schst (option nat) :=
  p ← pick_sub q;
  p ← match p with Some _ => mret p | None => q1 ← rq_next q; pick_sub q1 end;
  match p with
  | Some _ => mret p
  | None => q1 ← rq_next q; q2 ← rq_next q1; pick_sub q2
  end.

Definition get_proc_MLFQ (q : nat) : M schst (list (option nat)) := mret [].

Definition MLFQ_ops : sched_ops :=
  SchedOps enqueue_proc_MLFQ dequeue_proc_MLFQ yield_proc_MLFQ pick_next_proc_MLFQ get_proc_MLFQ.

(** [proc_tick_MLFQ], the move to the next level: the part between
    [acquire(&(rq->rq_lock))] and [cp->state = RUNNABLE]. *)
Definition demote_MLFQ (p : nat) : M schst unit :=
  pr ← get_proc_at p;
  pq ← deref (p_rq pr);
  k ← sub_of pq;
  op_dequeue_proc (sub k) pq p;;
  pr' ← get_proc_at p;
  pq' ← deref (p_rq pr');
  nq ← rq_next pq';
  k' ← sub_of nq;
  op_enqueue_proc (sub k') nq p.

(** The messages it prints are left out.  [schedule (KTick q)] is [schedule()]
    followed by [release(&(rq->rq_lock))]. *)
Definition proc_tick_MLFQ (sub_tick : class_id → nat → nat → M schst unit)
    (yield : M schst unit) (schedule : kont → M schst unit) (q p : nat) : M schst unit :=
  idle ← my_idle;
  if decide (Some p = idle) then yield
  else
    pr ← get_proc_at p;
    r ← rq_at q;
    if decide (p_rq pr = Some q ∨ p_rq pr = r_next r) then
      at_proc p (λ pr, set_timeslice pr (p_timeslice pr - 1));;
      pr1 ← get_proc_at p;
      if decide (p_timeslice pr1 = 0%Z) then
        acquire (LkRq q);;
        demote_MLFQ p;;
        at_cp (λ pr, set_state pr RUNNABLE);;
        schedule (KTick q)
      else mret ()
    else
      q1 ← rq_next q;
      r1 ← rq_at q1;
      if decide (p_rq pr = r_next r1) then
        pq ← deref (p_rq pr);
        k ← sub_of pq;
        sub_tick k pq p
      else panic "Error in tick_MLFQ".

Definition get_sub (q : nat) : M schst (list (option nat)) :=
  k ← sub_of q; op_get_proc (sub k) q.
Definition enqueue_sub (q p : nat) : M schst unit :=
  k ← sub_of q; op_enqueue_proc (sub k) q p.

(** [rqs[i].proc_num + rqs[i+NCPU].proc_num + rqs[i+2*NCPU].proc_num] *)
Definition load3 (rs : list rq) (i : nat) : option Z :=
  r0 ← rs !! i; r1 ← rs !! (i + NCPU); r2 ← rs !! (i + 2 * NCPU);
  Some (proc_num r0 + proc_num r1 + proc_num r2)%Z.

(** The search loop over processors [i], [n] of them left. *)
Fixpoint busiest3 (rs : list rq) (n i : nat) (max : Z) (src : option nat) : option (option nat) :=
  match n with
  | O => Some src
  | S n =>
      x ← load3 rs i;
      if decide (max < x)%Z then busiest3 rs n (S i) x (Some i)
      else busiest3 rs n (S i) max src
  end.

Definition load_balance_MLFQ (q : nat) : M schst unit :=
  s ← kget;
  src_rq ← deref (busiest3 (rqs s) (ncpu s) 0 0 None);
  match src_rq with
  | None => mret ()
  | Some src =>
      acquire (LkRq src);;
      m0 ← get_sub src;
      s1 ← rq_next src;
      m1 ← get_sub s1;
      s2 ← rq_next s1;
      m2 ← get_sub s2;
      release (LkRq src);;
      acquire (LkRq q);;
      enqueue_each enqueue_sub q m0;;
      (match m1 with [] => mret () | _ => q1 ← rq_next q; enqueue_each enqueue_sub q1 m1 end);;
      (match m2 with
       | [] => mret ()
       | _ => q1 ← rq_next q; q2 ← rq_next q1; enqueue_each enqueue_sub q2 m2
       end);;
      release (LkRq q)
  end.
End MLFQ.

(** A queue whose sub-class is the multi-level class itself: every call comes
    back to the same function, except [get_proc]. *)
Definition loop_ops : sched_ops :=
  SchedOps (λ _ _, diverge) (λ _ _, diverge) (λ _, diverge) (λ _, diverge) get_proc_MLFQ.

(** The sub-class table, and the classes. *)
Definition sub_ops (k : class_id) : sched_ops :=
  match k with
  | simple_sched_class => simple_ops
  | sched_class_fifo => fifo_ops
  | sched_class_RR => RR_ops
  | sched_class_MLFQ => loop_ops
  end.
Definition class_ops (k : class_id) : sched_ops :=
  match k with sched_class_MLFQ => MLFQ_ops sub_ops | k => sub_ops k end.

(** ** The levels, abstractly *)
Record level := Level { l_q : nat; l_class : class_id; l_procs : list nat }.

(** The queues of the levels and their classes. *)
Definition shape (lv : list level) : list (nat * class_id) := (λ l, (l_q l, l_class l)) <$> lv.

Definition sub_rep (k : class_id) : rq → list nat → Prop :=
  match k with
  | simple_sched_class | sched_class_RR => ring_queue
  | sched_class_fifo => fifo_queue
  | sched_class_MLFQ => λ _ _, False
  end.
Definition sub_deq (k : class_id) (p : nat) (ps : list nat) : list nat :=
  match k with simple_sched_class => cut_after p ps [] | _ => drop_proc p ps end.
Definition sub_ok (k : class_id) : qop → list nat → bool :=
  match k with sched_class_fifo => fifo_ok | _ => λ _ _, true end.

#[export] Instance sub_spec k : QueueSpec (sub_ops k) (sub_rep k) (sub_deq k) (sub_ok k).
Proof.
  destruct k; [apply simple_spec|apply fifo_spec|apply RR_spec|].
  split; [|done]. exact (deq_perm (QueueSpec := RR_spec)).
Qed.

(** One queue operation on level [i], where the sub-class implements it. *)
Definition at_level (i : nat) (op : qop) (lv : list level) : option (list (option nat) * list level) :=
  l ← lv !! i;
  '(o, ps) ← abs_step (sub_deq (l_class l)) (sub_ok (l_class l)) op (l_procs l);
  Some (o, <[i := Level (l_q l) (l_class l) ps]> lv).

Inductive mop := MEnqueue (p : nat) | MDequeue (p : nat) | MYield | MPick | MDemote (p : nat).

Definition level_of (p : nat) (lv : list level) : option nat :=
  fst <$> list_find (λ l, p ∈ l_procs l) lv.
Definition first_busy (lv : list level) : option nat :=
  fst <$> list_find (λ l, l_procs l ≠ []) lv.

(** New processes enter at the top; a process leaves the level it is in; the
    first level with a process is the one that runs and yields; a process that
    used up its slice moves one level down. *)
Definition mlfq_step (op : mop) (lv : list level) : option (list (option nat) * list level) :=
  match op with
  | MEnqueue p => if decide (p ∈ lv ≫= l_procs) then None else at_level 0 (QEnqueue p) lv
  | MDequeue p => i ← level_of p lv; at_level i (QDequeue p) lv
  | MYield =>
      match first_busy lv with Some i => at_level i QYield lv | None => Some ([], lv) end
  | MPick => Some ([head (lv ≫= l_procs)], lv)
  | MDemote p =>
      i ← level_of p lv;
      '(_, lv1) ← at_level i (QDequeue p) lv;
      at_level (S i) (QEnqueue p) lv1
  end.

Fixpoint mlfq_run (ops : list mop) (lv : list level) : option (list (option nat) * list level) :=
  match ops with
  | [] => Some ([], lv)
  | op :: ops =>
      '(o, lv') ← mlfq_step op lv;
      '(os, lv'') ← mlfq_run ops lv';
      Some (o ++ os, lv'')
  end.

Definition mlfq_conc (q : nat) (op : mop) : M schst (list (option nat)) :=
  match op with
  | MEnqueue p => enqueue_proc_MLFQ sub_ops q p;; mret []
  | MDequeue p => dequeue_proc_MLFQ sub_ops q p;; mret []
  | MYield => yield_proc_MLFQ sub_ops q;; mret []
  | MPick => p ← pick_next_proc_MLFQ sub_ops q; mret [p]
  | MDemote p => demote_MLFQ sub_ops p;; mret []
  end.

Fixpoint mlfq_conc_run (q : nat) (ops : list mop) : M schst (list (option nat)) :=
  match ops with
  | [] => mret []
  | op :: ops => a ← mlfq_conc q op; b ← mlfq_conc_run q ops; mret (a ++ b)
  end.

(** The queue of level [i] is well formed, belongs to its sub-class, is linked
    to the next level and holds processes that point back to it. *)
Record mlfq (s : schst) (lv : list level) : Prop := {
  mq_level i l : lv !! i = Some l → ∃ r, rqs s !! l_q l = Some r ∧
    sub_rep (l_class l) r (l_procs l) ∧ sub_sched_class r = Some (l_class l) ∧
    ∀ l', lv !! S i = Some l' → r_next r = Some (l_q l');
  mq_home i l p : lv !! i = Some l → p ∈ l_procs l → ∃ pr,
    procs s !! p = Some pr ∧ p_rq pr = Some (l_q l);
  mq_nodup : NoDup (lv ≫= l_procs);
  mq_queues : NoDup (l_q <$> lv);
  mq_len : length (procs s) = NPROC
}.

(** ** Correctness *)
Lemma abs_step_elem k op ps obs ps' p :
  NoDup ps → abs_step (sub_deq k) (sub_ok k) op ps = Some (obs, ps') → p ∈ ps' →
  p ∈ ps ∨ op = QEnqueue p.
Proof.
  intros ND. unfold abs_step. destruct (sub_ok k op ps); [|done].
  destruct op as [x|x| | |]; intros; repeat case_decide; simplify_eq; auto.
  - destruct_and!. inl.
  - left. rewrite <- (deq_perm (QueueSpec := sub_spec k) x ps) by done. by right.
  - left. destruct ps; simpl in *; [done|]. inl.
  - left. destruct ps as [|y ps]; simplify_eq.
    rewrite <- (take_drop (length (y :: ps) / 2) ps). inl.
Qed.

Lemma bind_insert (lv : list level) i l ps :
  lv !! i = Some l → ∃ (a b : list nat), lv ≫= l_procs = a ++ l_procs l ++ b ∧
    <[i := Level (l_q l) (l_class l) ps]> lv ≫= l_procs = a ++ ps ++ b.
Proof.
  intros H. destruct (list_elem_of_split_length lv i l H) as (l1 & l2 & -> & Hl).
  exists (l1 ≫= l_procs), (l2 ≫= l_procs). rewrite !bind_app. split; [done|].
  rewrite insert_app_r_alt by lia. rewrite <- Hl, Nat.sub_diag. simpl. by rewrite bind_app.
Qed.

Lemma elem_of_levels lv p : p ∈ lv ≫= l_procs ↔ ∃ i l, lv !! i = Some l ∧ p ∈ l_procs l.
Proof.
  rewrite list_elem_of_bind. setoid_rewrite list_elem_of_lookup. naive_solver.
Qed.

Lemma NoDup_replace {A} (a m m' b : list A) :
  NoDup (a ++ m ++ b) → NoDup m' → (∀ x, x ∈ m' → x ∈ m ∨ x ∉ a ++ m ++ b) → NoDup (a ++ m' ++ b).
Proof.
  rewrite !NoDup_app. intros (Na & Ha & Nm & Hm & Nb) Nm' H. split_and!; try done.
  - intros x Hx Hx'. specialize (Ha x Hx). specialize (H x). inl.
  - intros x Hx Hx'. specialize (Hm x). specialize (H x Hx). inl.
Qed.

(** Replacing one level by a well-formed one. *)
Lemma mlfq_upd s lv i l r r' pl ps' :
  mlfq s lv → lv !! i = Some l → rqs s !! l_q l = Some r → same_cfg r r' →
  sub_rep (l_class l) r' ps' → NoDup ps' → length pl = NPROC →
  (∀ p, p ∈ ps' → ∃ pr, pl !! p = Some pr ∧ p_rq pr = Some (l_q l)) →
  (∀ p, p ∈ ps' → p ∈ l_procs l ∨ p ∉ lv ≫= l_procs) →
  (∀ p, p ∈ lv ≫= l_procs → pl !! p = procs s !! p) →
  mlfq (sched_upd (l_q l) r' pl s) (<[i := Level (l_q l) (l_class l) ps']> lv).
Proof.
  intros [HL HH HN HQ Hlen] Hi Hr (C1 & C2 & C3 & C4) Hrep ND Hpl Hhome Hnew Hold.
  assert (Hqne : ∀ j l', lv !! j = Some l' → j ≠ i → l_q l' ≠ l_q l).
  { intros j l' Hj Hne E'. apply Hne. eapply (NoDup_lookup _ _ _ (l_q l) HQ); rewrite list_lookup_fmap;
      [by rewrite Hj; simpl; rewrite E'|by rewrite Hi]. }
  assert (Hq : ∀ j l', <[i := Level (l_q l) (l_class l) ps']> lv !! j = Some l' →
             ∃ l0, lv !! j = Some l0 ∧ l_q l' = l_q l0).
  { intros j l' Hj. apply list_lookup_insert_Some in Hj as [(<- & <- & _)|[_ ?]]; eauto. }
  split.
  - intros j l' Hj. destruct (decide (j = i)) as [->|Hne].
    + rewrite list_lookup_insert_eq in Hj by (by eapply lookup_lt_Some). simplify_eq. simpl.
      exists r'. destruct (HL i l Hi) as (r0 & Hr0 & _ & Hsub & Hnext). simplify_eq.
      split_and!; [by eapply rqs_insert_lookup|done|congruence|].
      intros l' (l0 & Hl0 & ->)%Hq. rewrite C3. by apply Hnext.
    + rewrite list_lookup_insert_ne in Hj by done.
      destruct (HL j l' Hj) as (r0 & Hr0 & Hrep0 & Hsub & Hnext). exists r0. simpl.
      split_and!; try done; [rewrite list_lookup_insert_ne; [done|by apply not_eq_sym, (Hqne j)]|].
      intros l'' (l0 & Hl0 & ->)%Hq. by apply Hnext.
  - intros j l' p Hj Hp. destruct (decide (j = i)) as [->|Hne].
    + rewrite list_lookup_insert_eq in Hj by (by eapply lookup_lt_Some). simplify_eq. by apply Hhome.
    + rewrite list_lookup_insert_ne in Hj by done. simpl.
      rewrite Hold by (apply elem_of_levels; eauto). by eapply HH.
  - destruct (bind_insert lv i l ps' Hi) as (a & b & Ea & ->). rewrite Ea in HN, Hnew.
    by eapply NoDup_replace.
  - rewrite list_fmap_insert. simpl. rewrite list_insert_id; [done|]. by rewrite list_lookup_fmap, Hi.
  - done.
Qed.

(** What the operations of the classes leave alone: the configuration of every
    queue and everything about processes but [rq] and [timeslice]. *)
Record rq_frame (s s' : schst) : Prop := {
  rf_cfg q r : rqs s !! q = Some r → ∃ r', rqs s' !! q = Some r' ∧ same_cfg r r';
  rf_len : length (procs s') = length (procs s);
  rf_procs i pr : procs s !! i = Some pr → ∃ ts rq', procs s' !! i =
    Some (set_rq (set_timeslice pr ts) rq');
  rf_cpus : cpus s' = cpus s;
  rf_idle : idleproc s' = idleproc s;
  rf_init : initproc s' = initproc s;
  rf_pid : nextpid s' = nextpid s;
  rf_konts : konts s' = konts s;
  rf_ncpu : ncpu s' = ncpu s;
  rf_cpu : cpu_id s' = cpu_id s
}.

Lemma rq_frame_refl s : rq_frame s s.
Proof.
  split; try done; [by eauto using same_cfg_refl|].
  intros i pr H. exists (p_timeslice pr), (p_rq pr). by rewrite set_rq_timeslice_id.
Qed.

Lemma rq_frame_trans s1 s2 s3 : rq_frame s1 s2 → rq_frame s2 s3 → rq_frame s1 s3.
Proof.
  intros [A1 A2 A3 A4 A5 A6 A7 A8 A9 A10] [B1 B2 B3 B4 B5 B6 B7 B8 B9 B10].
  split; try congruence.
  - intros q r (r1 & H1 & C1)%A1. destruct (B1 q r1 H1) as (r2 & H2 & C2). eauto using same_cfg_trans.
  - intros i pr (ts & rq1 & H1)%A3. destruct (B3 _ _ H1) as (ts2 & rq2 & H2).
    exists ts2, rq2. rewrite H2. by destruct pr.
Qed.

Lemma sched_upd_rq_frame q op r r' l s :
  rqs s !! q = Some r → same_cfg r r' → procs_after q op (procs s) l → rq_frame s (sched_upd q r' l s).
Proof.
  intros Hq C P. destruct (sched_upd_frame q op r' l s P) as [A1 A2 A3]. split; try done.
  - intros q0 r0 Hr0. destruct (decide (q0 = q)) as [->|Hne].
    + exists r'. simplify_eq. split; [|done]. by eapply rqs_insert_lookup.
    + exists r0. rewrite A1 by done. auto using same_cfg_refl.
  - intros i pr Hi. destruct (A3 i pr Hi) as [H|(_ & ts & H)]; [|by eauto].
    exists (p_timeslice pr), (p_rq pr). by rewrite set_rq_timeslice_id.
Qed.

(** An operation on one level keeps the invariant of all of them. *)
Lemma level_step c s lv i l op obs ps' :
  mlfq s lv → lv !! i = Some l → (∀ p, op = QEnqueue p → p ∉ lv ≫= l_procs) →
  abs_step (sub_deq (l_class l)) (sub_ok (l_class l)) op (l_procs l) = Some (obs, ps') →
  ∃ s', conc_step (sub_ops (l_class l)) (l_q l) op c s = Ok obs c s' ∧
    mlfq s' (<[i := Level (l_q l) (l_class l) ps']> lv) ∧ procs_after (l_q l) op (procs s) (procs s') ∧
    rq_frame s s'.
Proof.
  intros Mq Hi Hfresh Ha. destruct (mq_level _ _ Mq i l Hi) as (r & Hr & Hrep & _).
  pose proof (mq_len _ _ Mq) as Hlen.
  assert (NDl : NoDup (l_procs l)).
  { destruct (bind_insert lv i l ps' Hi) as (a & b & Ea & _). pose proof (mq_nodup _ _ Mq) as HN.
    rewrite Ea in HN. by apply NoDup_app in HN as (_ & _ & (? & _ & _)%NoDup_app). }
  pose proof (fun p => abs_step_elem _ _ _ _ _ p NDl Ha) as Hel.
  destruct (qs_step (QueueSpec := sub_spec _) c s (l_q l) r op _ _ _ Hr Hrep NDl Hlen Ha)
    as (r' & pl & E & Hrep' & C & HP).
  pose proof (sched_upd_frame (l_q l) op r' pl s HP) as F.
  exists (sched_upd (l_q l) r' pl s). split; [done|]. split; [|split; [done|by eapply sched_upd_rq_frame]].
  eapply mlfq_upd; try done.
  - by eapply abs_step_NoDup.
  - by rewrite <- Hlen, <- (sf_len _ _ _ _ F).
  - intros p Hp. destruct (Hel p Hp) as [Hin| ->].
    + destruct (mq_home _ _ Mq i l p Hi Hin) as (pr & Hpr & Hq).
      destruct op; simpl in HP; [|subst pl; by exists pr..].
      destruct HP as (pr0 & ts & Hpr0 & ->). destruct (decide (p = p0)) as [->|].
      * rewrite list_lookup_insert_eq by (by eapply lookup_lt_Some). by eexists.
      * rewrite list_lookup_insert_ne by done. by exists pr.
    + simpl in HP. destruct HP as (pr0 & ts & Hpr0 & ->).
      rewrite list_lookup_insert_eq by (by eapply lookup_lt_Some). by eexists.
  - intros p Hp. destruct (Hel p Hp) as [Hin| ->]; [by left|right; by apply Hfresh].
  - intros p Hp. destruct op; simpl in HP; [|by subst pl..]. destruct HP as (pr0 & ts & _ & ->).
    rewrite list_lookup_insert_ne; [done|]. intros ->. by eapply Hfresh.
Qed.

Lemma rq_at_bind {B} c s q r (f : rq → M schst B) :
  rqs s !! q = Some r → (rq_at q ≫= f) c s = f r c s.
Proof. intros H. unfold rq_at, mbind, M_bind, deref. simpl. by rewrite H. Qed.

Section run_mlfq.
Context (c : kctx) (s : schst) (lv : list level) (Mq : mlfq s lv).

Lemma sub_of_run {B} i l (f : class_id → M schst B) :
  lv !! i = Some l → (sub_of (l_q l) ≫= f) c s = f (l_class l) c s.
Proof.
  intros H. destruct (mq_level _ _ Mq i l H) as (r & Hr & _ & Hs & _).
  unfold sub_of, rq_at, mbind, M_bind, deref. simpl. by rewrite Hr; simpl; rewrite Hs.
Qed.

Lemma rq_next_run {B} i l l' (f : nat → M schst B) :
  lv !! i = Some l → lv !! S i = Some l' → (rq_next (l_q l) ≫= f) c s = f (l_q l') c s.
Proof.
  intros H H'. destruct (mq_level _ _ Mq i l H) as (r & Hr & _ & _ & Hn).
  unfold rq_next, rq_at, mbind, M_bind, deref. simpl. rewrite Hr; simpl. by rewrite (Hn l' H').
Qed.

Lemma rq_at_run i l :
  lv !! i = Some l → ∃ r, (∀ B (f : rq → M schst B), (rq_at (l_q l) ≫= f) c s = f r c s) ∧
    (next_to_run r = None ↔ l_procs l = []).
Proof.
  intros H. destruct (mq_level _ _ Mq i l H) as (r & Hr & Hrep & _). exists r. split.
  - intros. unfold rq_at, mbind, M_bind, deref. simpl. by rewrite Hr.
  - assert (Hhd : ∃ ns, length (l_procs l) = length ns ∧ next_to_run r = head ns).
    { destruct (l_class l); simpl in Hrep; try done; destruct Hrep as [(ns & fr & S) _]; exists ns.
      - split; [by eapply nt_length_ps, S|by apply (rs_head _ _ _ _ S)].
      - split; [by eapply nt_length_ps, S|by apply (proj1 (chain_spec _ _ _) (fs_chain _ _ _ _ S))].
      - split; [by eapply nt_length_ps, S|by apply (rs_head _ _ _ _ S)]. }
    destruct Hhd as (ns & Hl & ->). by destruct (l_procs l), ns.
Qed.

Lemma home_of p i l : lv !! i = Some l → p ∈ l_procs l →
  ∃ pr, procs s !! p = Some pr ∧ p_rq pr = Some (l_q l).
Proof. apply (mq_home _ _ Mq). Qed.
End run_mlfq.

Lemma shape_insert lv i l ps :
  lv !! i = Some l → shape (<[i := Level (l_q l) (l_class l) ps]> lv) = shape lv.
Proof.
  intros Hi. unfold shape. rewrite list_fmap_insert. apply list_insert_id.
  by rewrite list_lookup_fmap, Hi.
Qed.

(** Running an operation of [at_level] through the dispatch. *)
Lemma at_level_run c s lv i op obs lv' :
  mlfq s lv → at_level i op lv = Some (obs, lv') → (∀ p, op = QEnqueue p → p ∉ lv ≫= l_procs) →
  ∃ l s', lv !! i = Some l ∧ conc_step (sub_ops (l_class l)) (l_q l) op c s = Ok obs c s' ∧
    mlfq s' lv' ∧ shape lv' = shape lv ∧ procs_after (l_q l) op (procs s) (procs s') ∧ rq_frame s s'.
Proof.
  intros Mq Ha Hf. unfold at_level in Ha. destruct (lv !! i) as [l|] eqn:Hi; [|done]. simpl in Ha.
  destruct (abs_step _ _ op (l_procs l)) as [[o ps]|] eqn:E; [|done]. simplify_eq/=.
  destruct (level_step c s lv i l op obs ps Mq Hi Hf E) as (s' & X & M' & F).
  exists l, s'. destruct F as [F1 F2]. split_and!; try done. by apply shape_insert.
Qed.

Lemma pick_sub_run c s lv i l :
  mlfq s lv → lv !! i = Some l →
  ∃ s', pick_sub sub_ops (l_q l) c s = Ok (head (l_procs l)) c s' ∧ mlfq s' lv ∧ rq_frame s s'.
Proof.
  intros Mq Hi. destruct (level_step c s lv i l QPick [head (l_procs l)] (l_procs l) Mq Hi)
    as (s' & E & M' & _ & F); [done| |].
  { unfold abs_step. by destruct (l_class l). }
  exists s'. split.
  - unfold pick_sub. erewrite sub_of_run by done. unfold conc_step in E.
    unfold mbind, M_bind in E. destruct (op_pick_next_proc _ _ c s); try done.
    by injection E as -> -> ->.
  - split; [|done]. rewrite list_insert_id in M'; [done|]. rewrite Hi. by destruct l.
Qed.

(** The levels of one processor's queues: three, starting at [q]. *)
Definition three (q : nat) (lv : list level) : Prop :=
  length lv = 3 ∧ l_q <$> lv !! 0 = Some q.

Lemma three_inv q lv : three q lv → ∃ l0 l1 l2, lv = [l0; l1; l2] ∧ l_q l0 = q.
Proof. intros [H1 H2]. destruct lv as [|l0 [|l1 [|l2 [|]]]]; simplify_eq/=. by exists l0, l1, l2. Qed.

Lemma three_ext q lv lv' : three q lv → shape lv' = shape lv → three q lv'.
Proof.
  intros (l0 & l1 & l2 & -> & <-)%three_inv E. destruct lv' as [|? [|? [|? [|]]]]; simplify_eq/=.
  by split; simpl; f_equal.
Qed.

(** The scheduler's pick is the first process of the first level that has
    one; when all three are empty it returns NULL. *)
Lemma pick_next_proc_MLFQ_spec c s q lv :
  mlfq s lv → three q lv →
  ∃ s', pick_next_proc_MLFQ sub_ops q c s = Ok (head (lv ≫= l_procs)) c s' ∧ mlfq s' lv ∧
    rq_frame s s'.
Proof.
  intros M0 (l0 & l1 & l2 & -> & <-)%three_inv. unfold pick_next_proc_MLFQ.
  destruct (pick_sub_run c s _ 0 l0 M0 eq_refl) as (s1 & E1 & M1 & F1).
  erewrite bind_Ok by exact E1. rewrite !bind_cons.
  destruct (l_procs l0) as [|p ps] eqn:P0; simpl; [|by exists s1].
  destruct (pick_sub_run c s1 _ 1 l1 M1 eq_refl) as (s2 & E2 & M2 & F2).
  erewrite bind_Ok by (rewrite (rq_next_run _ _ _ M1 0 l0 l1) by done; exact E2).
  destruct (l_procs l1) as [|p ps] eqn:P1; simpl; [|exists s2; eauto using rq_frame_trans].
  destruct (pick_sub_run c s2 _ 2 l2 M2 eq_refl) as (s3 & E3 & M3 & F3).
  rewrite (rq_next_run _ _ _ M2 0 l0 l1), (rq_next_run _ _ _ M2 1 l1 l2) by done.
  exists s3. rewrite app_nil_r. eauto using rq_frame_trans.
Qed.

Lemma list_find_elem {A} (P : A → Prop) `{∀ x, Decision (P x)} (lv : list A) i :
  fst <$> list_find P lv = Some i → ∃ l, lv !! i = Some l ∧ P l ∧
    ∀ j y, lv !! j = Some y → j < i → ¬ P y.
Proof.
  destruct (list_find P lv) as [[j l]|] eqn:E; [|done]. intros [= <-].
  apply list_find_Some in E. by exists l.
Qed.

Lemma first_busy_spec lv :
  match first_busy lv with
  | Some i => ∃ l, lv !! i = Some l ∧ l_procs l ≠ [] ∧ ∀ j y, lv !! j = Some y → j < i → l_procs y = []
  | None => ∀ j y, lv !! j = Some y → l_procs y = []
  end.
Proof.
  unfold first_busy. destruct (list_find _ lv) as [[i l]|] eqn:E; simpl.
  - apply list_find_Some in E as (? & ? & Hn). exists l. split_and!; try done.
    intros j y Hj Hlt. apply dec_stable. by eapply Hn.
  - apply list_find_None in E. intros j y Hj. apply dec_stable.
    rewrite Forall_lookup in E. by eapply E.
Qed.

Definition yield_sub (q : nat) : M schst unit := k ← sub_of q; op_yield_proc (sub_ops k) q.

(** [yield_proc_MLFQ] yields the first level that has a process. *)
Lemma yield_which c s q lv :
  mlfq s lv → three q lv → yield_proc_MLFQ sub_ops q c s =
    match first_busy lv ≫= (lv !!.) with
    | Some l => yield_sub (l_q l) c s
    | None => Ok () c s
    end.
Proof.
  intros Mq (l0 & l1 & l2 & -> & <-)%three_inv. unfold yield_proc_MLFQ, first_busy.
  destruct (rq_at_run c s _ Mq 0 l0 eq_refl) as (r0 & E0 & N0).
  destruct (rq_at_run c s _ Mq 1 l1 eq_refl) as (r1 & E1 & N1).
  destruct (rq_at_run c s _ Mq 2 l2 eq_refl) as (r2 & E2 & N2).
  rewrite E0. simpl. destruct (next_to_run r0).
  { rewrite decide_True; [done|]. intros H. by apply N0 in H. }
  rewrite decide_False by (intros H; by apply H, N0).
  rewrite (rq_next_run _ _ _ Mq 0 l0 l1), E1 by done. destruct (next_to_run r1).
  { rewrite decide_True; [done|]. intros H. by apply N1 in H. }
  rewrite decide_False by (intros H; by apply H, N1).
  rewrite (rq_next_run _ _ _ Mq 1 l1 l2), E2 by done. destruct (next_to_run r2).
  { rewrite decide_True; [done|]. intros H. by apply N2 in H. }
  by rewrite decide_False by (intros H; by apply H, N2).
Qed.

Lemma seq_nil_inv {S A} (m : M S unit) c s (obs : list A) c' s' :
  (m;; mret []) c s = Ok obs c' s' → obs = [] ∧ m c s = Ok () c' s'.
Proof.
  unfold mbind, M_bind. destruct (m c s) as [[] | | | |]; try done. by intros [= -> -> ->].
Qed.

Lemma at_level_dequeued lv i l p o lv1 :
  NoDup (lv ≫= l_procs) → lv !! i = Some l → p ∈ l_procs l →
  at_level i (QDequeue p) lv = Some (o, lv1) → p ∉ lv1 ≫= l_procs.
Proof.
  intros ND Hi Hp Ha. unfold at_level in Ha. rewrite Hi in Ha. simpl in Ha.
  destruct (abs_step _ _ _ _) as [[o1 ps]|] eqn:E; simplify_eq/=.
  destruct (bind_insert lv i l ps Hi) as (a & b & Ea & ->). rewrite Ea in ND.
  apply NoDup_app in ND as (_ & Ha & (NDl & Hb & _)%NoDup_app).
  unfold abs_step in E. destruct (sub_ok _ _ _); [|done]. case_decide; simplify_eq.
  pose proof (deq_perm (QueueSpec := sub_spec (l_class l)) p _ NDl Hp) as P.
  rewrite <- P in NDl. apply NoDup_cons in NDl as [NDl _].
  specialize (Ha p). specialize (Hb p Hp). inl.
Qed.

(** The move to the next level. *)
Lemma demote_run c s lv i l p o1 lv1 obs lv' :
  mlfq s lv → lv !! i = Some l → p ∈ l_procs l →
  at_level i (QDequeue p) lv = Some (o1, lv1) → at_level (S i) (QEnqueue p) lv1 = Some (obs, lv') →
  ∃ s', demote_MLFQ sub_ops p c s = Ok () c s' ∧ obs = [] ∧ mlfq s' lv' ∧
    shape lv' = shape lv ∧ rq_frame s s'.
Proof.
  intros Mq Hl Hp A1 A2. pose proof (at_level_dequeued _ _ _ _ _ _ (mq_nodup _ _ Mq) Hl Hp A1) as Hout.
  destruct (at_level_run c s _ _ _ _ _ Mq A1) as (l' & s1 & Hl' & E1 & M1 & L1 & P1 & F1); [done|]. simplify_eq.
  destruct (at_level_run c s1 _ _ _ _ _ M1 A2) as (l2 & s2 & Hl2 & E2 & M2 & L2 & _ & F2); [by intros ? [= ->]|].
  apply seq_nil_inv in E1 as [_ E1]. apply seq_nil_inv in E2 as [-> E2]. simpl in P1.
  destruct (home_of s _ Mq p i l Hl Hp) as (pr & Hpr & Hq).
  exists s2. split_and!; [|done..|by rewrite L2, L1|by eapply rq_frame_trans]. unfold demote_MLFQ.
  rewrite (get_proc_at_bind _ _ _ pr) by done. rewrite Hq. autorewrite with krun.
  rewrite (sub_of_run _ _ _ Mq i) by done. erewrite bind_Ok by exact E1.
  rewrite (get_proc_at_bind _ _ _ pr) by congruence. rewrite Hq. autorewrite with krun.
  assert (∃ l1, lv1 !! i = Some l1 ∧ l_q l1 = l_q l) as (l1 & Hl1 & <-).
  { assert (Hf : shape lv1 !! i = Some (l_q l, l_class l)) by (rewrite L1; unfold shape; by rewrite list_lookup_fmap, Hl).
    unfold shape in Hf. rewrite list_lookup_fmap in Hf. destruct (lv1 !! i) as [l1|]; simplify_eq/=. by exists l1. }
  rewrite (rq_next_run _ _ _ M1 i l1 l2), (sub_of_run _ _ _ M1 (S i)) by done. done.
Qed.

(** ** The class implements the levels *)
Lemma mlfq_step_refines c s q lv op obs lv' :
  mlfq s lv → three q lv → mlfq_step op lv = Some (obs, lv') →
  ∃ s', mlfq_conc q op c s = Ok obs c s' ∧ mlfq s' lv' ∧ shape lv' = shape lv ∧ rq_frame s s'.
Proof.
  intros Mq T. pose proof T as (l0 & l1 & l2 & -> & <-)%three_inv. destruct op as [p|p| | |p]; simpl mlfq_step; intros Ha.
  - case_decide as Hp; [done|].
    destruct (at_level_run c s _ _ _ _ _ Mq Ha) as (l & s' & [= <-] & E & M' & L & _ & F); [by intros ? [= ->]|].
    exists s'. split_and!; try done.
    apply seq_nil_inv in E as [-> E]. simpl. unfold enqueue_proc_MLFQ.
    erewrite bind_Ok by (rewrite (sub_of_run _ _ _ Mq 0) by done; exact E). done.
  - destruct (level_of p _) as [i|] eqn:Ei; [|done]. simpl in Ha.
    apply list_find_elem in Ei as (l & Hl & Hp & _).
    destruct (at_level_run c s _ _ _ _ _ Mq Ha) as (l' & s' & Hl' & E & M' & L & _ & F); [done|]. simplify_eq.
    exists s'. split_and!; try done.
    apply seq_nil_inv in E as [-> E]. simpl. unfold dequeue_proc_MLFQ.
    destruct (home_of s _ Mq p i l Hl Hp) as (pr & Hpr & Hq).
    erewrite bind_Ok; [done|]. erewrite get_proc_at_bind by done. rewrite Hq.
    by rewrite (sub_of_run _ _ _ Mq i) by done.
  - pose proof (yield_which c s _ _ Mq T) as Y. destruct (first_busy _) as [i|] eqn:Ei; simpl in Y.
    + destruct (at_level_run c s _ _ _ _ _ Mq Ha) as (l & s' & Hl & E & M' & L & _ & F); [done|].
      exists s'. split_and!; try done.
      apply seq_nil_inv in E as [-> E]. simpl. erewrite bind_Ok; [done|]. rewrite Y, Hl.
      unfold yield_sub. by rewrite (sub_of_run _ _ _ Mq i) by done.
    + simplify_eq. exists s. simpl. erewrite bind_Ok by exact Y. auto using rq_frame_refl.
  - simplify_eq. destruct (pick_next_proc_MLFQ_spec c s _ _ Mq T) as (s' & E & M' & F).
    exists s'. split_and!; try done. unfold mlfq_conc. by erewrite bind_Ok by exact E.
  - destruct (level_of p _) as [i|] eqn:Ei; [|done]. simpl in Ha.
    apply list_find_elem in Ei as (l & Hl & Hp & _).
    destruct (at_level i _ _) as [[o1 lv1]|] eqn:E1; [|done]. simpl in Ha.
    destruct (demote_run c s _ i l p _ _ _ _ Mq Hl Hp E1 Ha) as (s' & E & -> & M' & L & F).
    exists s'. split_and!; try done. simpl. by erewrite bind_Ok by exact E.
Qed.

(** *** The levels without regard to the sub-classes' limits *)

(** The same operations on ordinary queues: a level is a list of processes, whatever its
    class; [None] where the caller breaks a rule: a process enqueued that is queued, or
    one dequeued or demoted that is not. *)
Definition queue_at (i : nat) (op : qop) (lv : list level) : option (list (option nat) * list level) :=
  l ← lv !! i;
  '(o, ps) ← abs_step (sub_deq (l_class l)) (λ _ _, true) op (l_procs l);
  Some (o, <[i := Level (l_q l) (l_class l) ps]> lv).

Definition levels_step (op : mop) (lv : list level) : option (list (option nat) * list level) :=
  match op with
  | MEnqueue p => if decide (p ∈ lv ≫= l_procs) then None else queue_at 0 (QEnqueue p) lv
  | MDequeue p => i ← level_of p lv; queue_at i (QDequeue p) lv
  | MYield =>
      match first_busy lv with Some i => queue_at i QYield lv | None => Some ([], lv) end
  | MPick => Some ([head (lv ≫= l_procs)], lv)
  | MDemote p =>
      i ← level_of p lv;
      '(_, lv1) ← queue_at i (QDequeue p) lv;
      queue_at (S i) (QEnqueue p) lv1
  end.
Fixpoint levels_run (ops : list mop) (lv : list level) : option (list (option nat) * list level) :=
  match ops with
  | [] => Some ([], lv)
  | op :: ops =>
      '(o, lv') ← levels_step op lv;
      '(os, lv'') ← levels_run ops lv';
      Some (o ++ os, lv'')
  end.

(** What sched_fifo.c gets wrong: a level of that class is asked to dequeue the last of
    several processes, or to yield with several processes queued. *)
Definition fifo_breaks (op : mop) (lv : list level) : bool :=
  match op with
  | MDequeue p | MDemote p =>
      existsb (λ l, bool_decide (l_class l = sched_class_fifo ∧ last (l_procs l) = Some p ∧ 1 < length (l_procs l))) lv
  | MYield =>
      match first_busy lv ≫= (lv !!.) with
      | Some l => bool_decide (l_class l = sched_class_fifo ∧ 1 < length (l_procs l))
      | None => false
      end
  | _ => false
  end.
Fixpoint fifo_spared (ops : list mop) (lv : list level) : bool :=
  match ops with
  | [] => true
  | op :: ops =>
      negb (fifo_breaks op lv) && match levels_step op lv with Some (_, lv') => fifo_spared ops lv' | None => true end
  end.

Lemma abs_step_ok deq ok op ps : ok op ps = true → abs_step deq ok op ps = abs_step deq (λ _ _, true) op ps.
Proof. intros E. unfold abs_step. by rewrite E. Qed.

Lemma queue_at_level i op lv l : lv !! i = Some l → sub_ok (l_class l) op (l_procs l) = true → at_level i op lv = queue_at i op lv.
Proof. intros Hl Hok. unfold at_level, queue_at. rewrite Hl. simpl. by rewrite abs_step_ok. Qed.

Lemma enqueue_at_level i p lv : at_level i (QEnqueue p) lv = queue_at i (QEnqueue p) lv.
Proof.
  destruct (lv !! i) as [l|] eqn:E; [eapply queue_at_level; [done|by destruct (l_class l)]|].
  unfold at_level, queue_at. by rewrite E.
Qed.

Lemma fifo_dequeue_ok p ps : p ∈ ps → ¬ (last ps = Some p ∧ 1 < length ps) → fifo_ok (QDequeue p) ps = true.
Proof.
  intros Hp Hn. unfold fifo_ok. destruct (decide (last ps = Some p)) as [E|E]; [|by rewrite (bool_decide_true (last ps ≠ Some p)), orb_true_r].
  destruct ps as [|x [|y ps]]; [by apply elem_of_nil in Hp|by simplify_eq/=; rewrite bool_decide_true|].
  exfalso. apply Hn. simpl. split; [done|lia].
Qed.

Lemma spared_dequeue p lv i l : fifo_breaks (MDequeue p) lv = false → lv !! i = Some l → p ∈ l_procs l →
  at_level i (QDequeue p) lv = queue_at i (QDequeue p) lv.
Proof.
  intros Hb Hl Hp. eapply queue_at_level; [done|]. destruct (l_class l) eqn:Ek; try done. apply fifo_dequeue_ok; [done|].
  intros [X Y]. assert (fifo_breaks (MDequeue p) lv = true); [|congruence].
  apply existsb_exists. exists l. split; [by eapply list_elem_of_In, list_elem_of_lookup_2|]. by apply bool_decide_true.
Qed.

(** Outside those two cases the levels are what the classes implement. *)
Lemma levels_step_mlfq op lv : fifo_breaks op lv = false → levels_step op lv = mlfq_step op lv.
Proof.
  intros Hb. destruct op as [p|p| | |p]; cbn [levels_step mlfq_step].
  - case_decide; [done|]. by rewrite enqueue_at_level.
  - destruct (level_of p lv) as [i|] eqn:Ei; [|done]. simpl. apply list_find_elem in Ei as (l & Hl & Hp & _).
    by rewrite (spared_dequeue p lv i l).
  - cbn [fifo_breaks] in Hb. destruct (first_busy lv) as [i|] eqn:Ei; [|done]. simpl in Hb.
    destruct (lv !! i) as [l|] eqn:Hl; [|unfold at_level, queue_at; by rewrite Hl].
    symmetry. eapply queue_at_level; [done|]. apply bool_decide_eq_false in Hb.
    destruct (l_class l); try done. apply bool_decide_true. apply Nat.nlt_ge. intros X. by apply Hb.
  - done.
  - destruct (level_of p lv) as [i|] eqn:Ei; [|done]. simpl. apply list_find_elem in Ei as (l & Hl & Hp & _).
    rewrite (spared_dequeue p lv i l) by done. destruct (queue_at i _ lv) as [[o lv1]|]; [|done]. simpl. by rewrite enqueue_at_level.
Qed.

(** C3 Every sequence of enqueues, dequeues, yields, picks and demotions on a
    processor's three queues behaves as on three abstract queues: the calls return, with
    the abstract results, the invariant holds again, and only processes' [rq] and time
    slices have changed outside the queues.  Two side conditions: the callers keep the
    rules of the queues ([levels_run] has a result: no process is enqueued twice, only
    queued ones are dequeued and demoted), and the lowest level, which sched_fifo.c
    implements, is not asked for what that gets wrong ([fifo_spared]: it is not asked to
    dequeue the last of several processes, nor to yield with several); what happens then
    is shown by [fifo_dequeue_last_loses_process] and [fifo_yield_keeps_freed_process]. *)
Theorem MLFQ_refines_levels ops : ∀ c s q lv obs lv',
  mlfq s lv → three q lv → levels_run ops lv = Some (obs, lv') → fifo_spared ops lv = true →
  ∃ s', mlfq_conc_run q ops c s = Ok obs c s' ∧ mlfq s' lv' ∧ three q lv' ∧ rq_frame s s'.
Proof.
  induction ops as [|op ops IH]; intros c s q lv obs lv' Mq T; simpl.
  { intros [= <- <-] _. exists s. by auto using rq_frame_refl. }
  destruct (levels_step op lv) as [[o1 lv1]|] eqn:E1; [|done]. simpl.
  destruct (levels_run ops lv1) as [[o2 lv2]|] eqn:E2; [|done]. simpl. intros [= <- <-] [Hb%negb_true_iff Hs]%andb_true_iff.
  rewrite levels_step_mlfq in E1 by done.
  destruct (mlfq_step_refines c s q lv op o1 lv1 Mq T E1) as (s1 & X1 & M1 & L1 & F1).
  destruct (IH c s1 q lv1 o2 lv2 M1) as (s2 & X2 & M2 & T2 & F2); [by eapply three_ext|done|done|].
  exists s2. rewrite (bind_Ok _ _ _ _ _ _ _ X1), (bind_Ok _ _ _ _ _ _ _ X2). by eauto using rq_frame_trans.
Qed.
