(* ===== verification/Sched.v ===== *)
(** * The scheduler core (proc.c, trap.c)

    The class-independent half of the scheduler: the wrappers that check the
    queue lock and dispatch on [sched_class], [pinit] with its compile-time
    choice of class, [schedule] and the functions that call it.

    A call of [schedule] switches stacks: what follows it in the text of
    [yield], [sleep], [exit] and [proc_tick_MLFQ] runs when the process is
    switched to again, and what runs now is the rest of the function in which
    the next process was suspended.  [konts] records, for each process, where
    that is; [resume] is that rest. *)
From S2P Require Import Prelude Kernel ProcData Rq SchedState SchedClass SchedSimple SchedRR.
From S2P Require Import SchedFifo SchedMLFQ.

(** ** Dispatch *)
Definition class_of (q : nat) : M schst class_id := r ← rq_at q; deref (sched_class r).

Definition class_init_rq (k : class_id) : nat → M schst unit :=
  match k with
  | simple_sched_class => init_rq_simple
  | sched_class_fifo => init_rq_fifo
  | sched_class_RR => init_rq_RR
  | sched_class_MLFQ => init_rq_MLFQ
  end.

(** The node loop of [init_rq]. *)
Definition init_nodes : list rq_node → list rq_node :=
  imap (λ i nd, RqNode None (if decide (i = NPROC - 1) then None else Some (S i)) (n_prev nd)).

Definition init_rq (q : nat) : M schst unit :=
  at_rq q (kmodify (λ r, set_next_to_run (set_free_list (set_nodes r (init_nodes (nodes r)))
    (Some 0)) None));;
  k ← sub_of q;
  class_init_rq k q;;
  at_rq q (kmodify (λ r, set_proc_num r 0)).

Definition enqueue_proc (q p : nat) : M schst unit :=
  h ← holding (LkRq q);
  if negb h then panic "enqueue_proc no lock"
  else
    r ← rq_at q;
    match free_list r with
    | None => panic "kernel panic: Do not support procs more than NPROC!(in enqueue_proc_simple)"
    | Some _ => k ← class_of q; op_enqueue_proc (class_ops k) q p
    end.

Definition dequeue_proc (q p : nat) : M schst unit :=
  h ← holding (LkRq q);
  if negb h then panic "dequeue_proc no lock"
  else
    idle ← my_idle;
    if decide (Some p = idle) then mret ()
    else k ← class_of q; op_dequeue_proc (class_ops k) q p.

Definition yield_proc (q : nat) : M schst unit :=
  h ← holding (LkRq q);
  if negb h then panic "yield no lock"
  else k ← class_of q; op_yield_proc (class_ops k) q.

Definition pick_next_proc (q : nat) : M schst (option nat) :=
  h ← holding (LkRq q);
  if negb h then panic "pick_next_proc no lock"
  else
    k ← class_of q;
    p ← op_pick_next_proc (class_ops k) q;
    match p with Some _ => mret p | None => my_idle end.

(** ** Initialisation *)

(** [pinit], the body of the first loop for processor [i]; [cfg] is the one of
    [SCHED_SIMPLE], [SCHED_FIFO], [SCHED_RR], [SCHED_MLFQ] that is defined. *)
Definition pinit_rq (cfg : class_id) (i : nat) : M schst unit :=
  match cfg with
  | simple_sched_class | sched_class_fifo =>
      at_rq i (kmodify (λ r, set_sub_sched_class (set_sched_class r (Some cfg)) (Some cfg)));;
      init_rq i
  | sched_class_RR =>
      at_rq i (kmodify (λ r, set_max_slices
        (set_sub_sched_class (set_sched_class r (Some cfg)) (Some cfg)) 100));;
      init_rq i
  | sched_class_MLFQ =>
      at_rq i (kmodify (λ r, set_r_next r (Some (i + NCPU))));;
      at_rq (i + NCPU) (kmodify (λ r, set_r_next r (Some (i + 2 * NCPU))));;
      at_rq i (kmodify (λ r, set_max_slices (set_sub_sched_class
        (set_sched_class r (Some sched_class_MLFQ)) (Some sched_class_RR)) 20));;
      at_rq (i + NCPU) (kmodify (λ r, set_max_slices (set_sub_sched_class
        (set_sched_class r (Some sched_class_MLFQ)) (Some sched_class_RR)) 500));;
      at_rq (i + 2 * NCPU) (kmodify (λ r, set_sub_sched_class
        (set_sched_class r (Some sched_class_MLFQ)) (Some sched_class_fifo)));;
      init_rq i;;
      init_rq (i + NCPU);;
      init_rq (i + 2 * NCPU)
  end.

Fixpoint for_each {S} (l : list nat) (f : nat → M S unit) : M S unit :=
  match l with [] => mret () | i :: l => f i;; for_each l f end.

Definition set_cpu_rq (i : nat) : M schst unit :=
  s ← kget;
  c ← deref (cpus s !! i);
  kput (set_cpus s (<[i := Cpu (curproc c) (cpu_context c) (Some i)]> (cpus s))).

Definition pinit (cfg : class_id) : M schst unit :=
  for_each (seq 0 NCPU) (pinit_rq cfg);;
  for_each (seq 0 NCPU) set_cpu_rq.

(** All of it is in the bss segment. *)
Definition boot_state (n me : nat) : schst :=
  SchSt (replicate (NCPU * 3) rq_zero) (replicate NPROC proc_zero)
    (replicate NCPU (Cpu None context_zero None)) (replicate NCPU None) None 1
    (replicate NPROC KForkret) n me.

(** ** Switching *)
Definition set_curproc (p : option nat) : M schst unit :=
  s ← kget;
  c ← deref (cpus s !! cpu_id s);
  kput (set_cpus s (<[cpu_id s := Cpu p (cpu_context c) (cpu_rq c)]> (cpus s))).

Definition get_kont (p : nat) : M schst kont := s ← kget; deref (konts s !! p).
Definition set_kont (p : nat) (k : kont) : M schst unit :=
  kmodify (λ s, set_konts s (<[p := k]> (konts s))).

(** [sleep], after [schedule()]. *)
Definition sleep_tail (lk : lock_id) : M schst unit :=
  acquire LkProcTable;;
  at_cp (λ pr, set_chan pr ChNone);;
  q ← my_rq;
  if decide (lk = LkProcTable) then release (LkRq q)
  else if decide (lk = LkRq q) then release LkProcTable
  else release LkProcTable;; release (LkRq q);; acquire lk.

(** What runs when the processor switches to a process suspended at [k]. *)
Definition resume (k : kont) : M schst unit :=
  match k with
  | KForkret | KYield => q ← my_rq; release (LkRq q)
  | KTick q => release (LkRq q)
  | KSleep lk => sleep_tail lk
  | KExit => panic "zombie exit"
  end.

(** [schedule], from "get next proc to run" on, together with the code [k] that
    follows the call of [schedule].  [setupsegs] writes the descriptor table,
    which is in Mmu. *)
Definition switch_from (q prev : nat) (k : kont) : M schst unit :=
  next ← pick_next_proc q;
  set_curproc next;;
  n ← deref next;
  at_proc n (λ pr, set_state pr RUNNING);;
  set_kont prev k;;
  nk ← get_kont n;
  resume nk.

Definition schedule (k : kont) : M schst unit :=
  me ← cp;
  prev ← deref me;
  ppr ← get_proc_at prev;
  q ← my_rq;
  (if decide (p_state ppr ≠ RUNNABLE ∧ p_state ppr ≠ RUNNING)
   then dequeue_proc q prev else mret ());;
  switch_from q prev k.

Definition yield : M schst unit :=
  q ← my_rq;
  acquire (LkRq q);;
  at_cp (λ pr, set_state pr RUNNABLE);;
  yield_proc q;;
  schedule KYield.

(** [sleep] of proc.c up to the call of [schedule]; [Kernel.sleep] is its
    caller's view. *)
Definition sleep_enter (chan : chan_id) (lk : lock_id) : M schst unit :=
  q ← my_rq;
  (if decide (lk = LkProcTable) then acquire (LkRq q)
   else if decide (lk = LkRq q) then acquire LkProcTable
   else acquire LkProcTable;; acquire (LkRq q);; release lk);;
  at_cp (λ pr, set_chan pr chan);;
  at_cp (λ pr, set_state pr SLEEPING);;
  release LkProcTable.

Definition proc_sleep (chan : chan_id) (lk : option lock_id) : M schst unit :=
  me ← cp;
  match me, lk with
  | None, _ => panic "sleep"
  | _, None => panic "sleep without lk"
  | Some _, Some lk => sleep_enter chan lk;; schedule (KSleep lk)
  end.

(** ** Waking up *)
Definition wakeup1_proc (chan : chan_id) (p : nat) : M schst unit :=
  pr ← get_proc_at p;
  if decide (p_state pr = SLEEPING ∧ p_chan pr = chan) then
    at_proc p (λ pr, set_state pr RUNNABLE);;
    q ← my_rq;
    enqueue_proc q p
  else mret ().
Definition wakeup1 (chan : chan_id) : M schst unit :=
  for_each (seq 0 NPROC) (wakeup1_proc chan).

Definition proc_wakeup (chan : chan_id) : M schst unit :=
  q ← my_rq;
  acquire LkProcTable;;
  acquire (LkRq q);;
  wakeup1 chan;;
  release (LkRq q);;
  release LkProcTable.

Fixpoint kill_loop (pid : Z) (l : list nat) : M schst Z :=
  match l with
  | [] => release LkProcTable;; mret (-1)%Z
  | p :: l =>
      pr ← get_proc_at p;
      if decide (p_pid pr = pid) then
        at_proc p (λ pr, set_killed pr true);;
        (if decide (p_state pr = SLEEPING) then
           at_proc p (λ pr, set_state pr RUNNABLE);;
           q ← my_rq;
           enqueue_proc q p
         else mret ());;
        release LkProcTable;;
        mret 0%Z
      else kill_loop pid l
  end.
Definition kill (pid : Z) : M schst Z :=
  acquire LkProcTable;; kill_loop pid (seq 0 NPROC).

(** ** Process slots *)
Fixpoint alloc_loop (l : list nat) : M schst (option nat) :=
  match l with
  | [] => release LkProcTable;; mret None
  | p :: l =>
      pr ← get_proc_at p;
      if decide (p_state pr = UNUSED) then
        at_proc p (λ pr, set_state pr EMBRYO);;
        s ← kget;
        at_proc p (λ pr, set_pid pr (nextpid s));;
        kmodify (λ s, set_nextpid s (nextpid s + 1));;
        at_proc p (λ pr, set_rq pr None);;
        release LkProcTable;;
        mret (Some p)
      else alloc_loop l
  end.
Definition allocproc : M schst (option nat) :=
  acquire LkProcTable;; alloc_loop (seq 0 NPROC).

(** The channel a process pointer stands for. *)
Definition proc_chan (p : option nat) : chan_id :=
  match p with Some i => ChProc i | None => ChNone end.

(** [exit], "Pass abandoned children to init". *)
Definition reparent (me : nat) (p : nat) : M schst unit :=
  pr ← get_proc_at p;
  if decide (p_parent pr = Some me) then
    s ← kget;
    at_proc p (λ pr, set_parent pr (initproc s));;
    if decide (p_state pr = ZOMBIE) then wakeup1 (proc_chan (initproc s)) else mret ()
  else mret ().

(** [exit], after the files are closed. *)
Definition exit_tail : M schst unit :=
  q ← my_rq;
  acquire LkProcTable;;
  acquire (LkRq q);;
  me ← cp;
  i ← deref me;
  pr ← get_proc_at i;
  wakeup1 (proc_chan (p_parent pr));;
  for_each (seq 0 NPROC) (reparent i);;
  at_cp (λ pr, set_killed pr false);;
  at_cp (λ pr, set_state pr ZOMBIE);;
  release LkProcTable;;
  schedule KExit.

(** [sys_fork], after [copyproc] has returned [np]. *)
Definition fork_tail (np : nat) : M schst Z :=
  q ← my_rq;
  acquire (LkRq q);;
  pr ← get_proc_at np;
  at_proc np (λ pr, set_state pr RUNNABLE);;
  enqueue_proc q np;;
  release (LkRq q);;
  mret (p_pid pr).

Definition runIdle : M schst unit :=
  idle ← my_idle;
  q ← my_rq;
  acquire (LkRq q);;
  set_curproc idle;;
  p ← deref idle;
  at_proc p (λ pr, set_state pr RUNNING);;
  k ← get_kont p;
  resume k.

(** ** The clock *)

(** A sub-class that is the multi-level class again is entered with the
    process's own queue and takes its first branch, so two levels are exact. *)
Fixpoint class_tick (depth : nat) (k : class_id) : nat → nat → M schst unit :=
  match k with
  | simple_sched_class => proc_tick_simple yield
  | sched_class_fifo => proc_tick_fifo yield
  | sched_class_RR => proc_tick_RR yield
  | sched_class_MLFQ =>
      proc_tick_MLFQ sub_ops
        (match depth with O => λ _ _ _, diverge | S d => class_tick d end) yield schedule
  end.

Definition proc_tick (q p : nat) : M schst unit :=
  k ← class_of q;
  me ← my_rq;
  cur ← cp;
  i ← deref cur;
  class_tick 1 k me i.

Definition class_load_balance (k : class_id) : nat → M schst unit :=
  let class_get_proc q := k ← class_of q; op_get_proc (class_ops k) q in
  match k with
  | simple_sched_class => load_balance_simple enqueue_proc class_get_proc
  | sched_class_fifo => load_balance_fifo enqueue_proc class_get_proc
  | sched_class_RR => load_balance_RR enqueue_proc class_get_proc
  | sched_class_MLFQ => load_balance_MLFQ sub_ops
  end.

(** trap.c, the end of [trap] on a timer interrupt, with [LOAD_BALANCE_ON] or
    without. *)
Definition timer_resched (load_balance_on : bool) : M schst unit :=
  me ← cp;
  match me with
  | None => mret ()
  | Some i =>
      pr ← get_proc_at i;
      if decide (p_state pr = RUNNING) then
        idle ← my_idle;
        q ← my_rq;
        (if load_balance_on && bool_decide (Some i = idle)
         then k ← class_of q; class_load_balance k q else mret ());;
        proc_tick q i
      else mret ()
  end.
