(* ===== verification/SchedInv.v ===== *)
(** * The scheduler keeps its queues and process states consistent

    The invariant of one processor ([sched_inv]) and the proof that every
    scheduling event - clock tick, sleep, wakeup, fork, exit - runs to the end
    from a state that satisfies it and leaves a state that does.  The events
    are proved once for all classes: a class is seen through the abstract
    levels of SchedMLFQ, one level for sched.c, sched_RR.c and sched_fifo.c. *)
From S2P Require Import Prelude Kernel ProcData Rq SchedState SchedClass SchedSimple SchedRR.
From S2P Require Import SchedFifo SchedMLFQ Sched.

(** ** One interface for all classes *)

(** The levels that class [k] keeps for the processor with queue [q]. *)
Definition config (k : class_id) (q : nat) (lv : list level) : Prop :=
  match k with
  | sched_class_MLFQ => ∃ q1 q2,
      shape lv = [(q, sched_class_RR); (q1, sched_class_RR); (q2, sched_class_fifo)]
  | k => shape lv = [(q, k)]
  end.

Lemma config_ext k q lv lv' : config k q lv → shape lv' = shape lv → config k q lv'.
Proof. unfold config. intros H E. by rewrite E. Qed.

Definition class_conc (k : class_id) (q : nat) (op : mop) : M schst (list (option nat)) :=
  match op with
  | MEnqueue p => op_enqueue_proc (class_ops k) q p;; mret []
  | MDequeue p => op_dequeue_proc (class_ops k) q p;; mret []
  | MYield => op_yield_proc (class_ops k) q;; mret []
  | MPick => p ← op_pick_next_proc (class_ops k) q; mret [p]
  | MDemote p => demote_MLFQ sub_ops p;; mret []
  end.

Lemma shape_one lv q k : shape lv = [(q, k)] → ∃ ps, lv = [Level q k ps].
Proof.
  destruct lv as [|[q0 k0 ps] [|]]; intros E; simplify_eq/=. by exists ps.
Qed.

Lemma config_three q lv : config sched_class_MLFQ q lv → three q lv.
Proof.
  intros (q1 & q2 & E). destruct lv as [|l0 [|l1 [|l2 [|]]]]; simplify_eq/=. done.
Qed.

(** The operation on the only level. *)
Definition one_op (op : mop) : option qop :=
  match op with
  | MEnqueue p => Some (QEnqueue p) | MDequeue p => Some (QDequeue p)
  | MYield => Some QYield | MPick => Some QPick | MDemote _ => None
  end.

Lemma one_level k q ps op obs lv' :
  mlfq_step op [Level q k ps] = Some (obs, lv') →
  ∃ qop, one_op op = Some qop ∧ at_level 0 qop [Level q k ps] = Some (obs, lv') ∧
    ∀ p, qop = QEnqueue p → p ∉ [Level q k ps] ≫= l_procs.
Proof.
  destruct op as [p|p| | |p]; simpl.
  - case_decide as Hp; [done|]. intros. eexists. split_and!; eauto. by intros ? [= ->].
  - unfold level_of. simpl. case_decide; simpl; [|done]. intros. eexists. by split_and!.
  - unfold first_busy. simpl. case_decide as Hp; simpl; intros E; eexists; (split; [done|]); (split; [|done]); [done|].
    simplify_eq. unfold at_level, abs_step. simpl. by destruct k.
  - intros E. simplify_eq. eexists. split; [done|]. split; [|done].
    unfold at_level, abs_step. rewrite app_nil_r. simpl. by destruct k.
  - unfold level_of. simpl. case_decide; simpl; [|done]. unfold at_level. simpl.
    destruct (abs_step _ _ _ _) as [[? ?]|]; done.
Qed.

(** Every class implements the levels. *)
Lemma class_step c s k q lv op obs lv' :
  mlfq s lv → config k q lv → mlfq_step op lv = Some (obs, lv') →
  ∃ s', class_conc k q op c s = Ok obs c s' ∧ mlfq s' lv' ∧ shape lv' = shape lv ∧ rq_frame s s'.
Proof.
  intros Mq Hc Ha. destruct (decide (k = sched_class_MLFQ)) as [->|Hk].
  { by apply (mlfq_step_refines c s q lv op obs lv' Mq (config_three _ _ Hc)). }
  assert (∃ ps, lv = [Level q k ps]) as [ps ->] by (destruct k; try done; by apply shape_one).
  destruct (one_level _ _ _ _ _ _ Ha) as (qop & Ho & Al & Hf).
  destruct (at_level_run c s _ _ _ _ _ Mq Al Hf) as (l & s' & [= <-] & E & M' & L & _ & F).
  exists s'. split_and!; try done. simpl in E. rewrite <- E.
  assert (class_ops k = sub_ops k) as Ec by (by destruct k).
  destruct op; simplify_eq/=; by rewrite Ec.
Qed.

(** ** The queues of one processor *)
Notation queued lv := (lv ≫= l_procs) (only parsing).

Record rq_inv (k : class_id) (q : nat) (s : schst) (lv : list level) : Prop := {
  ri_mlfq : mlfq s lv;
  ri_config : config k q lv;
  ri_class : ∃ r, rqs s !! q = Some r ∧ sched_class r = Some k;
  ri_cpu : ∃ cu, cpus s !! cpu_id s = Some cu ∧ cpu_rq cu = Some q
}.

Lemma rq_inv_step k q s s' lv lv' :
  rq_inv k q s lv → mlfq s' lv' → shape lv' = shape lv → rq_frame s s' → rq_inv k q s' lv'.
Proof.
  intros [M0 C (r & Hr & Hk) Hcpu] M' Hs F. split; [done|by eapply config_ext| |].
  - destruct (rf_cfg _ _ F q r Hr) as (r' & Hr' & (_ & E & _)). exists r'. split; [done|congruence].
  - by rewrite (rf_cpus _ _ F), (rf_cpu _ _ F).
Qed.

(** Writes to process fields other than [rq] keep the queues. *)
Lemma mlfq_procs s s' lv :
  mlfq s lv → rqs s' = rqs s → length (procs s') = length (procs s) →
  (∀ p pr, p ∈ queued lv → procs s !! p = Some pr →
    ∃ pr', procs s' !! p = Some pr' ∧ p_rq pr' = p_rq pr) →
  mlfq s' lv.
Proof.
  intros [HL HH HN HQ Hlen] E El Hp. split; try done.
  - intros i l Hi. rewrite E. by apply HL.
  - intros i l p Hi Hin. destruct (HH i l p Hi Hin) as (pr & Hpr & Hq).
    destruct (Hp p pr) as (pr' & ? & ?); [apply elem_of_levels; eauto|done|]. exists pr'. split; [done|congruence].
  - congruence.
Qed.

Lemma rq_inv_procs k q s l' lv :
  rq_inv k q s lv → length l' = length (procs s) →
  (∀ p pr, p ∈ queued lv → procs s !! p = Some pr → ∃ pr', l' !! p = Some pr' ∧ p_rq pr' = p_rq pr) →
  rq_inv k q (set_procs s l') lv.
Proof. intros [M0 C Hr Hcpu] El Hp. split; try done. by eapply mlfq_procs. Qed.

Lemma rq_inv_write k q s lv p pr pr' :
  rq_inv k q s lv → procs s !! p = Some pr → (p ∈ queued lv → p_rq pr' = p_rq pr) →
  rq_inv k q (set_procs s (<[p := pr']> (procs s))) lv.
Proof.
  intros R Hp E. apply rq_inv_procs; [done|apply length_insert|].
  intros i pri Hq Hi. destruct (decide (i = p)) as [->|].
  - rewrite list_lookup_insert_eq by (by eapply lookup_lt_Some). simplify_eq. exists pr'. auto.
  - rewrite list_lookup_insert_ne by done. by exists pri.
Qed.

Lemma rq_inv_update k q s lv p pr pr' :
  rq_inv k q s lv → procs s !! p = Some pr → p_rq pr' = p_rq pr →
  rq_inv k q (set_procs s (<[p := pr']> (procs s))) lv.
Proof. intros. by eapply rq_inv_write. Qed.

Section queue_facts.
Context {k : class_id} {q : nat} {s : schst} {lv : list level} (R : rq_inv k q s lv).

Lemma queued_lt p : p ∈ queued lv → p < NPROC.
Proof.
  intros (i & l & Hi & Hp)%elem_of_levels. destruct R as [Mq _ _ _].
  destruct (mq_home _ _ Mq i l p Hi Hp) as (pr & Hpr & _). rewrite <- (mq_len _ _ Mq).
  by eapply lookup_lt_Some.
Qed.

Lemma level_nodup i l : lv !! i = Some l → NoDup (l_procs l).
Proof.
  intros Hi. destruct (bind_insert lv i l [] Hi) as (a & b & Ea & _).
  pose proof (mq_nodup _ _ (ri_mlfq _ _ _ _ R)) as HN.
  rewrite Ea in HN. by apply NoDup_app in HN as (_ & _ & (? & _ & _)%NoDup_app).
Qed.

(** A process outside a level leaves room for one more. *)
Lemma level_room i l p : lv !! i = Some l → p < NPROC → p ∉ l_procs l → length (l_procs l) < NPROC.
Proof.
  intros Hi Hp Hn. assert (ND : NoDup (p :: l_procs l)).
  { apply NoDup_cons. split; [done|by eapply level_nodup]. }
  assert (length (p :: l_procs l) ≤ length (seq 0 NPROC)); [|rewrite length_seq in *; simpl in *; lia].
  apply submseteq_length, NoDup_submseteq; [done|]. intros x Hx. apply elem_of_seq.
  apply elem_of_cons in Hx as [->|Hx]; [lia|]. split; [lia|]. apply queued_lt, elem_of_levels. eauto.
Qed.

Lemma config_head : ∃ l t, lv = l :: t ∧ l_q l = q.
Proof.
  pose proof (ri_config _ _ _ _ R) as C. unfold config in C.
  destruct k; [..|destruct C as (q1 & q2 & C)]; destruct lv as [|l t]; simplify_eq/=; by exists l, t.
Qed.
End queue_facts.

Lemma sub_rep_room k r ps : sub_rep k r ps → length ps < NPROC → ∃ x, free_list r = Some x.
Proof.
  assert (G : ∀ l f, node_table r l f ps → length ps < NPROC → ∃ x, free_list r = Some x).
  { intros l f T Hl. pose proof (nt_length _ _ _ _ T). pose proof (nt_length_ps _ _ _ _ T).
    pose proof (nt_free _ _ _ _ T) as C. destruct f as [|x f]; [simpl in *; lia|].
    destruct C as [E _]. by exists x. }
  destruct k; simpl; try done; intros [(l & f & S) _]; eapply G; apply S.
Qed.

(** *** Running the accessors *)
Section accessors.
Context {k : class_id} {q : nat} {s : schst} {lv : list level} (R : rq_inv k q s lv).
Context {B : Type} (c : kctx).

Lemma my_rq_bind (f : nat → M schst B) : (my_rq ≫= f) c s = f q c s.
Proof.
  destruct (ri_cpu _ _ _ _ R) as (cu & Hc & Hq).
  unfold my_rq, get_cpu, mbind, M_bind, deref. simpl. rewrite Hc. simpl. by rewrite Hq.
Qed.

Lemma class_of_bind (f : class_id → M schst B) : (class_of q ≫= f) c s = f k c s.
Proof.
  destruct (ri_class _ _ _ _ R) as (r & Hr & Hk).
  unfold class_of, rq_at, mbind, M_bind, deref. simpl. rewrite Hr. simpl. by rewrite Hk.
Qed.
End accessors.

Lemma holding_bind {S B} c (s : S) l (f : bool → M S B) :
  l ∈ held c → (holding l ≫= f) c s = f true c s.
Proof. intros H. unfold holding, mbind, M_bind. simpl. by rewrite bool_decide_true. Qed.

Lemma my_idle_bind {B} c s i (f : option nat → M schst B) :
  idleproc s !! cpu_id s = Some i → (my_idle ≫= f) c s = f i c s.
Proof. intros H. unfold my_idle, mbind, M_bind, deref. simpl. by rewrite H. Qed.

Lemma my_idle_run c s i : idleproc s !! cpu_id s = Some i → my_idle c s = Ok i c s.
Proof. intros H. unfold my_idle, mbind, M_bind, deref. simpl. by rewrite H. Qed.

(** [cur s] is the current process. *)
Definition cur (s : schst) : option nat := c ← cpus s !! cpu_id s; curproc c.

Lemma cp_bind {B} c s p (f : option nat → M schst B) : cur s = Some p → (cp ≫= f) c s = f (Some p) c s.
Proof.
  unfold cur, cp, get_cpu, mbind, M_bind, deref. simpl. destruct (cpus s !! cpu_id s) as [cu|]; [|done].
  simpl. by intros ->.
Qed.

Lemma at_cp_run c s p pr f :
  cur s = Some p → procs s !! p = Some pr →
  at_cp f c s = Ok () c (set_procs s (<[p := f pr]> (procs s))).
Proof.
  intros Hc Hp. unfold at_cp. erewrite cp_bind by done. autorewrite with krun. by apply at_proc_run.
Qed.

(** ** The wrappers *)

(** Where a new process goes: the end of the first level. *)
Definition push (p : nat) (lv : list level) : list level :=
  match lv with
  | [] => []
  | l :: t => Level (l_q l) (l_class l) (l_procs l ++ [p]) :: t
  end.

Lemma push_queued p lv x : lv ≠ [] → x ∈ queued (push p lv) ↔ x = p ∨ x ∈ queued lv.
Proof. destruct lv as [|l t]; [done|]. intros _. simpl. rewrite !elem_of_app. inl. Qed.

Lemma push_step k q s lv p :
  rq_inv k q s lv → p < NPROC → p ∉ queued lv → mlfq_step (MEnqueue p) lv = Some ([], push p lv).
Proof.
  intros R Hp Hn. destruct (config_head R) as (l & t & -> & _). simpl mlfq_step.
  rewrite decide_False by done. unfold at_level, abs_step. simpl.
  assert (sub_ok (l_class l) (QEnqueue p) (l_procs l) = true) as -> by (by destruct (l_class l)).
  assert (p ∉ l_procs l) by (intros Hin; apply Hn; simpl; apply elem_of_app; by left).
  rewrite decide_True; [done|]. split_and!; [done..|by eapply (level_room R 0)].
Qed.

Lemma enqueue_proc_spec c k q s lv p :
  rq_inv k q s lv → LkRq q ∈ held c → p < NPROC → p ∉ queued lv →
  ∃ s', enqueue_proc q p c s = Ok () c s' ∧ rq_inv k q s' (push p lv) ∧ rq_frame s s'.
Proof.
  intros R Hh Hp Hn. pose proof (push_step _ _ _ _ _ R Hp Hn) as Hs.
  destruct (class_step c s k q lv _ _ _ (ri_mlfq _ _ _ _ R) (ri_config _ _ _ _ R) Hs)
    as (s' & E & M' & Sh & F). apply seq_nil_inv in E as [_ E].
  exists s'. split_and!; [|by eapply rq_inv_step|done].
  destruct (config_head R) as (l & t & -> & Hq).
  destruct (mq_level _ _ (ri_mlfq _ _ _ _ R) 0 l eq_refl) as (r & Hr & Hrep & _).
  assert (p ∉ l_procs l) by (intros Hin; apply Hn; simpl; apply elem_of_app; by left).
  destruct (sub_rep_room _ _ _ Hrep) as (x & Hx); [by eapply (level_room R 0)|].
  unfold enqueue_proc. rewrite holding_bind by done. simpl.
  rewrite Hq in Hr. rewrite (rq_at_bind _ _ _ _ _ Hr), Hx. by rewrite (class_of_bind R).
Qed.

(** [p] is the first of its level: the only place a running process can be. *)
Definition front (lv : list level) (p : nat) : Prop :=
  ∃ i l ps, lv !! i = Some l ∧ l_procs l = p :: ps.

Lemma front_queued lv p : front lv p → p ∈ queued lv.
Proof. intros (i & l & ps & Hi & E). apply elem_of_levels. exists i, l. rewrite E. inl. Qed.

Lemma front_push lv p x : front lv p → front (push x lv) p.
Proof.
  intros (i & l & ps & Hi & E). destruct lv as [|l0 t]; [done|]. destruct i as [|i]; simplify_eq/=.
  - exists 0, (Level (l_q l) (l_class l) (l_procs l ++ [x])), (ps ++ [x]). simpl. by rewrite E.
  - exists (S i), l, ps. done.
Qed.

Lemma level_unique s lv p i j l l' :
  mlfq s lv → lv !! i = Some l → lv !! j = Some l' → p ∈ l_procs l → p ∈ l_procs l' → i = j.
Proof.
  intros Mq Hi Hj Hp Hp'. destruct (mq_home _ _ Mq _ _ _ Hi Hp) as (pr & Hpr & E).
  destruct (mq_home _ _ Mq _ _ _ Hj Hp') as (pr' & Hpr' & E'). simplify_eq.
  eapply (NoDup_lookup _ _ _ (l_q l) (mq_queues _ _ Mq)); rewrite list_lookup_fmap, ?Hi, ?Hj; simpl; congruence.
Qed.

Lemma sub_deq_head k p ps : NoDup (p :: ps) → sub_deq k p (p :: ps) = ps.
Proof.
  intros [Hn _]%NoDup_cons. destruct k; simpl; try apply (drop_proc_spec p [] ps Hn).
  rewrite decide_True by done. apply app_nil_r.
Qed.

Lemma sub_ok_head k p ps : NoDup (p :: ps) → sub_ok k (QDequeue p) (p :: ps) = true.
Proof.
  intros [Hn _]%NoDup_cons. destruct k; try done. unfold sub_ok, fifo_ok.
  destruct ps as [|y ps]; [by rewrite bool_decide_true|]. apply orb_true_iff. right.
  apply bool_decide_eq_true. rewrite last_cons_cons. intros E%last_Some_elem_of. done.
Qed.

Lemma pop_level k q s lv i l p ps :
  rq_inv k q s lv → lv !! i = Some l → l_procs l = p :: ps →
  level_of p lv = Some i ∧
  at_level i (QDequeue p) lv = Some ([], <[i := Level (l_q l) (l_class l) ps]> lv).
Proof.
  intros R Hi E. pose proof (level_nodup R i l Hi) as ND. rewrite E in ND. split.
  - unfold level_of. destruct (list_find (λ l, p ∈ l_procs l) lv) as [[j l']|] eqn:Ef; simpl.
    + f_equal. apply list_find_Some in Ef as (Hj & Hp & _).
      eapply (level_unique s lv p); eauto using ri_mlfq. rewrite E. inl.
    + apply list_find_None in Ef. rewrite Forall_lookup in Ef. destruct (Ef i l Hi). rewrite E. inl.
  - unfold at_level, abs_step. rewrite Hi. simpl.
    by rewrite E, sub_ok_head, decide_True, sub_deq_head by (done || inl).
Qed.

Lemma pop_queued k q s lv i l p ps :
  rq_inv k q s lv → lv !! i = Some l → l_procs l = p :: ps →
  ∀ x, x ∈ queued (<[i := Level (l_q l) (l_class l) ps]> lv) ↔ x ∈ queued lv ∧ x ≠ p.
Proof.
  intros R Hi E x. pose proof (mq_nodup _ _ (ri_mlfq _ _ _ _ R)) as HN.
  destruct (bind_insert lv i l ps Hi) as (a & b & Ea & ->). rewrite Ea, E in *.
  simpl in HN. rewrite <- Permutation_middle in HN. apply NoDup_cons in HN as [HN _].
  split; [intros Hx; split; [inl|intros ->; inl]|intros [Hx Hne]; inl].
Qed.

Lemma pop_step k q s lv p :
  rq_inv k q s lv → front lv p →
  ∃ lv', mlfq_step (MDequeue p) lv = Some ([], lv') ∧
    ∀ x, x ∈ queued lv' ↔ x ∈ queued lv ∧ x ≠ p.
Proof.
  intros R (i & l & ps & Hi & E). destruct (pop_level _ _ _ _ _ _ _ _ R Hi E) as [Hl Ha].
  eexists. simpl. rewrite Hl. simpl. split; [exact Ha|]. by eapply pop_queued.
Qed.

Lemma dequeue_proc_spec c k q s lv p idle :
  rq_inv k q s lv → LkRq q ∈ held c → idleproc s !! cpu_id s = Some (Some idle) → p ≠ idle →
  front lv p →
  ∃ s' lv', dequeue_proc q p c s = Ok () c s' ∧ rq_inv k q s' lv' ∧ rq_frame s s' ∧
    ∀ x, x ∈ queued lv' ↔ x ∈ queued lv ∧ x ≠ p.
Proof.
  intros R Hh Hi Hne Hf. destruct (pop_step _ _ _ _ _ R Hf) as (lv' & Hs & Hx).
  destruct (class_step c s k q lv _ _ _ (ri_mlfq _ _ _ _ R) (ri_config _ _ _ _ R) Hs)
    as (s' & E & M' & Sh & F). apply seq_nil_inv in E as [_ E].
  exists s', lv'. split_and!; [|by eapply rq_inv_step|done..].
  unfold dequeue_proc. rewrite holding_bind by done. simpl.
  rewrite (my_idle_bind _ _ _ _ Hi), decide_False by congruence. by rewrite (class_of_bind R).
Qed.

Lemma pick_next_proc_spec c k q s lv idle :
  rq_inv k q s lv → LkRq q ∈ held c → idleproc s !! cpu_id s = Some idle →
  ∃ s', pick_next_proc q c s = Ok (match head (queued lv) with Some p => Some p | None => idle end) c s' ∧
    rq_inv k q s' lv ∧ rq_frame s s'.
Proof.
  intros R Hh Hi.
  destruct (class_step c s k q lv MPick _ _ (ri_mlfq _ _ _ _ R) (ri_config _ _ _ _ R) eq_refl)
    as (s' & E & M' & Sh & F).
  assert (Ep : op_pick_next_proc (class_ops k) q c s = Ok (head (queued lv)) c s').
  { simpl in E. unfold mbind, M_bind in E. destruct (op_pick_next_proc _ _ c s); try done. by injection E as -> -> ->. }
  exists s'. split_and!; [|by eapply rq_inv_step|done].
  unfold pick_next_proc. rewrite holding_bind by done. simpl.
  rewrite (class_of_bind R). erewrite bind_Ok by exact Ep.
  destruct (head (queued lv)); [done|]. apply my_idle_run. by rewrite (rf_idle _ _ F), (rf_cpu _ _ F).
Qed.

(** The levels a yield may meet: sched_fifo.c rotates only a short queue. *)
Definition yieldable (lv : list level) : Prop :=
  ∀ i l, first_busy lv = Some i → lv !! i = Some l → l_class l = sched_class_fifo →
    length (l_procs l) ≤ 1.

Lemma yield_step lv : yieldable lv →
  ∃ lv', mlfq_step MYield lv = Some ([], lv') ∧ ∀ x, x ∈ queued lv' ↔ x ∈ queued lv.
Proof.
  intros Hy. simpl. pose proof (first_busy_spec lv) as Hb.
  destruct (first_busy lv) as [i|] eqn:Ei; [|by exists lv].
  destruct Hb as (l & Hi & Hne & _). unfold at_level, abs_step. rewrite Hi. simpl.
  assert (sub_ok (l_class l) QYield (l_procs l) = true) as ->.
  { destruct (l_class l) eqn:E; try done. simpl. apply bool_decide_eq_true. by eapply Hy. }
  eexists. split; [done|]. intros x. destruct (bind_insert lv i l (rotate (l_procs l)) Hi) as (a & b & -> & ->).
  rewrite !elem_of_app. destruct (l_procs l); [done|]. simpl. inl.
Qed.

Lemma yield_proc_spec c k q s lv :
  rq_inv k q s lv → LkRq q ∈ held c → yieldable lv →
  ∃ s' lv', yield_proc q c s = Ok () c s' ∧ rq_inv k q s' lv' ∧ rq_frame s s' ∧
    ∀ x, x ∈ queued lv' ↔ x ∈ queued lv.
Proof.
  intros R Hh Hy. destruct (yield_step lv Hy) as (lv' & Hs & Hx).
  destruct (class_step c s k q lv _ _ _ (ri_mlfq _ _ _ _ R) (ri_config _ _ _ _ R) Hs)
    as (s' & E & M' & Sh & F). apply seq_nil_inv in E as [_ E].
  exists s', lv'. split_and!; [|by eapply rq_inv_step|done..].
  unfold yield_proc. rewrite holding_bind by done. simpl. by rewrite (class_of_bind R).
Qed.

(** ** The invariant *)
Definition active (st : proc_state) : Prop := st = RUNNABLE ∨ st = RUNNING.
Definition idles (s : schst) (p : nat) : Prop := Some p ∈ idleproc s.

(** The queues hold exactly the runnable processes that are not idle
    processes; [x] is exempt. *)
Record states_ok (s : schst) (lv : list level) (x : option nat) : Prop := {
  so_idle p : idles s p → p ∉ queued lv;
  so_idle_active p pr : idles s p → procs s !! p = Some pr → active (p_state pr);
  so_queued p pr : procs s !! p = Some pr → ¬ idles s p → Some p ≠ x →
    p ∈ queued lv ↔ active (p_state pr)
}.

(** A suspended process holds no scheduler lock it would acquire again. *)
Definition kont_ok (q : nat) (k : kont) : Prop :=
  match k with
  | KForkret | KYield => True
  | KTick q' => q' = q
  | KSleep lk => ∀ q', lk ≠ LkRq q'
  | KExit => False
  end.
(** The locks held when it has been resumed. *)
Definition kont_held (k : kont) : list lock_id :=
  match k with KSleep lk => [lk] | _ => [] end.

(** A process that may run again. *)
Definition live (st : proc_state) : Prop := st = SLEEPING ∨ active st.

Definition konts_ok (q : nat) (s : schst) (x : option nat) : Prop :=
  length (konts s) = NPROC ∧
  ∀ p pr, procs s !! p = Some pr → live (p_state pr) → Some p ≠ x →
    ∃ k, konts s !! p = Some k ∧ kont_ok q k.

Definition lower_empty (lv : list level) : Prop :=
  ∀ i l, lv !! S i = Some l → l_procs l = [].

(** Process [p] runs and everything is where its state says. *)
Record run_inv (k : class_id) (q : nat) (s : schst) (lv : list level) (p : nat) : Prop := {
  ru_rq : rq_inv k q s lv;
  ru_states : states_ok s lv None;
  ru_idle : ∃ i, idleproc s !! cpu_id s = Some (Some i) ∧ i < NPROC;
  ru_cur : cur s = Some p;
  ru_running : ∃ pr, procs s !! p = Some pr ∧ p_state pr = RUNNING;
  ru_one x pr : procs s !! x = Some pr → p_state pr = RUNNING → x = p;
  ru_konts : konts_ok q s (Some p)
}.

(** The invariant: moreover [p] is at the front of its level, or it is the idle
    process and only the first level has processes. *)
Record sched_inv (k : class_id) (q : nat) (s : schst) (lv : list level) (p : nat) : Prop := {
  si_run : run_inv k q s lv p;
  si_place : front lv p ∨ idleproc s !! cpu_id s = Some (Some p) ∧ lower_empty lv
}.

(** [rq_frame] keeps states. *)
Lemma frame_state s s' p pr' :
  rq_frame s s' → procs s' !! p = Some pr' → ∃ pr, procs s !! p = Some pr ∧
    p_state pr' = p_state pr ∧ p_chan pr' = p_chan pr ∧ p_parent pr' = p_parent pr.
Proof.
  intros F Hp. destruct (lookup_lt_is_Some_2 (procs s) p) as [pr0 Hp0].
  { rewrite <- (rf_len _ _ F). by eapply lookup_lt_Some. }
  destruct (rf_procs _ _ F _ _ Hp0) as (ts & rq' & E). rewrite E in Hp. simplify_eq. by exists pr0.
Qed.

Lemma frame_idles s s' p : rq_frame s s' → idles s' p ↔ idles s p.
Proof. intros F. unfold idles. by rewrite (rf_idle _ _ F). Qed.

Lemma states_ok_frame s s' lv lv' x :
  states_ok s lv x → rq_frame s s' → (∀ p, p ∈ queued lv' ↔ p ∈ queued lv) → states_ok s' lv' x.
Proof.
  intros [Hi Ha Hq] F Hx. split.
  - intros p Hp%(frame_idles _ _ _ F). rewrite Hx. by apply Hi.
  - intros p pr Hp%(frame_idles _ _ _ F) Hpr. destruct (frame_state _ _ _ _ F Hpr) as (pr0 & H0 & -> & _). eauto.
  - intros p pr Hpr Hn Hne. rewrite (frame_idles _ _ _ F) in Hn. rewrite Hx.
    destruct (frame_state _ _ _ _ F Hpr) as (pr0 & H0 & -> & _). by apply Hq.
Qed.

(** ** Switching *)
Lemma set_curproc_run c k q s lv p :
  rq_inv k q s lv → ∃ s', set_curproc p c s = Ok () c s' ∧ rq_inv k q s' lv ∧ cur s' = p ∧
    ∃ v, s' = set_cpus s v.
Proof.
  intros R. destruct (ri_cpu _ _ _ _ R) as (cu & Hc & Hq). eexists. split_and!.
  - unfold set_curproc. rewrite kget_bind, Hc. autorewrite with krun. reflexivity.
  - destruct R as [[] ? ? ?]. split; try done. simpl.
    rewrite list_lookup_insert_eq by (by eapply lookup_lt_Some). by eexists.
  - unfold cur. simpl. by rewrite list_lookup_insert_eq by (by eapply lookup_lt_Some).
  - by eexists.
Qed.

Lemma resume_spec c k q s lv p pr nk :
  rq_inv k q s lv → cur s = Some p → procs s !! p = Some pr → held c = [LkRq q] → kont_ok q nk →
  ∃ c' ch, resume nk c s = Ok () c' (set_procs s (<[p := set_chan pr ch]> (procs s))) ∧
    held c' = kont_held nk ∧ woken c' = woken c.
Proof.
  intros R Hc Hp Hh Hk. destruct c as [h w]. simpl in Hh. subst h.
  assert (Hid : set_procs s (<[p := set_chan pr (p_chan pr)]> (procs s)) = s).
  { rewrite list_insert_id; [by destruct s|]. rewrite Hp. by destruct pr. }
  destruct nk as [| |q'|lk|]; simpl in Hk; try done.
  - exists (KCtx [] w), (p_chan pr). rewrite Hid. split; [|done]. simpl. rewrite (my_rq_bind R). by apply release_ok; inl.
  - exists (KCtx [] w), (p_chan pr). rewrite Hid. split; [|done]. simpl. rewrite (my_rq_bind R). by apply release_ok; inl.
  - subst q'. exists (KCtx [] w), (p_chan pr). rewrite Hid. split; [|done]. simpl. by apply release_ok; inl.
  - exists (KCtx [lk] w), ChNone. split; [|done]. simpl. unfold sleep_tail.
    rewrite (bind_Ok _ _ _ _ _ _ _ (acquire_ok LkProcTable (KCtx [LkRq q] w) s ltac:(inl))). simpl.
    rewrite (bind_Ok _ _ _ _ _ _ _ (at_cp_run _ _ _ _ _ Hc Hp)).
    rewrite (my_rq_bind (rq_inv_update _ _ _ _ _ _ (set_chan pr ChNone) R Hp eq_refl)).
    case_decide as Hl; [|rewrite decide_False by apply Hk].
    + subst lk. unfold release. simpl. rewrite decide_True by inl.
      by rewrite filter_cons_True, filter_cons_False, filter_nil by auto.
    + rewrite (bind_Ok _ _ _ _ _ _ _ (release_ok LkProcTable [LkRq q] w _ ltac:(inl))).
      rewrite (bind_Ok _ _ _ _ _ _ _ (release_ok (LkRq q) [] w _ ltac:(inl))).
      by rewrite acquire_ok by inl.
Qed.

Lemma head_front lv p : head (queued lv) = Some p → front lv p.
Proof.
  induction lv as [|l t IH]; [done|]. rewrite bind_cons. destruct (l_procs l) as [|x ps] eqn:E; simpl.
  - intros (i & l' & ps & Hi & E')%IH. by exists (S i), l', ps.
  - intros [= ->]. by exists 0, l, ps.
Qed.

Lemma queued_nil lv : queued lv = [] → ∀ i l, lv !! i = Some l → l_procs l = [].
Proof.
  intros E i l Hi. destruct (l_procs l) as [|x ps] eqn:El; [done|].
  assert (x ∈ queued lv) as Hx by (apply elem_of_levels; exists i, l; rewrite El; inl).
  rewrite E in Hx. by apply elem_of_nil in Hx.
Qed.

Lemma konts_frame q s s' x : konts_ok q s x → rq_frame s s' → konts_ok q s' x.
Proof.
  intros [Kl K] F. split; rewrite (rf_konts _ _ F); [done|].
  intros p pr Hp. destruct (frame_state _ _ _ _ F Hp) as (pr0 & H0 & -> & _). eauto.
Qed.

Lemma konts_write q s y pr pr' x :
  konts_ok q s x → procs s !! y = Some pr →
  (Some y ≠ x → live (p_state pr') → live (p_state pr)) →
  konts_ok q (set_procs s (<[y := pr']> (procs s))) x.
Proof.
  intros [Kl K] Hy Hl. split; [done|]. simpl. intros p prp Hp.
  apply list_lookup_insert_Some in Hp as [(<- & <- & _)|[_ Hp]]; eauto.
Qed.

(** The state before the switch: the queues are exact and nothing runs. *)
Record switch_pre (k : class_id) (q : nat) (s : schst) (lv : list level) (prev : nat) (kk : kont) : Prop := {
  sp_rq : rq_inv k q s lv;
  sp_states : states_ok s lv None;
  sp_idle : ∃ i, idleproc s !! cpu_id s = Some (Some i) ∧ i < NPROC;
  sp_none x pr : procs s !! x = Some pr → p_state pr ≠ RUNNING;
  sp_konts : konts_ok q s (Some prev);
  sp_prev pr : procs s !! prev = Some pr → live (p_state pr) → kont_ok q kk;
  sp_lt : prev < NPROC
}.

(** The process chosen, and its place. *)
Lemma pick_place k q s lv prev kk :
  switch_pre k q s lv prev kk →
  ∃ n pr, (match head (queued lv) with Some p => Some (Some p) | None => idleproc s !! cpu_id s end) = Some (Some n) ∧
    procs s !! n = Some pr ∧ live (p_state pr) ∧
    (n ∈ queued lv ∨ idleproc s !! cpu_id s = Some (Some n)) ∧
    (front lv n ∨ idleproc s !! cpu_id s = Some (Some n) ∧ lower_empty lv).
Proof.
  intros [R S (i & Hi & Hlt) Hno K _ _]. pose proof (mq_len _ _ (ri_mlfq _ _ _ _ R)) as Hlen.
  destruct (head (queued lv)) as [n|] eqn:Eh.
  - pose proof (head_front _ _ Eh) as Hf. pose proof (front_queued _ _ Hf) as Hq.
    destruct (lookup_lt_is_Some_2 (procs s) n) as [pr Hpr]; [rewrite Hlen; by apply (queued_lt R)|].
    exists n, pr. split_and!; eauto. right.
    apply (so_queued _ _ _ S n); [done| |done|done]. intros Hid. by apply (so_idle _ _ _ S n Hid).
  - destruct (lookup_lt_is_Some_2 (procs s) i) as [pr Hpr]; [lia|]. exists i, pr. split_and!; eauto.
    + right. eapply (so_idle_active _ _ _ S); [by eapply list_elem_of_lookup_2|done].
    + right. split; [done|]. intros j l Hj. eapply queued_nil; [|done]. by destruct (queued lv).
Qed.

Lemma resumed_kont q s prev kk n pr :
  konts_ok q s (Some prev) →
  (∀ pr, procs s !! prev = Some pr → live (p_state pr) → kont_ok q kk) → prev < NPROC →
  procs s !! n = Some pr → live (p_state pr) →
  ∃ nk, <[prev := kk]> (konts s) !! n = Some nk ∧ kont_ok q nk.
Proof.
  intros [Hl K] Hp Hlt Hn Hlive. destruct (decide (n = prev)) as [->|Hne].
  - exists kk. rewrite list_lookup_insert_eq by lia. eauto.
  - rewrite list_lookup_insert_ne by done. eapply K; [done..|congruence].
Qed.

(** The state after it. *)
Lemma switched_inv k q s s1 s' lv prev kk n pr pr' :
  switch_pre k q s lv prev kk → rq_frame s s1 → rq_inv k q s' lv →
  procs s1 !! n = Some pr → procs s' = <[n := pr']> (procs s1) → p_state pr' = RUNNING →
  idleproc s' = idleproc s → cpu_id s' = cpu_id s → konts s' = <[prev := kk]> (konts s) →
  cur s' = Some n → (n ∈ queued lv ∨ idleproc s !! cpu_id s = Some (Some n)) →
  (front lv n ∨ idleproc s !! cpu_id s = Some (Some n) ∧ lower_empty lv) →
  sched_inv k q s' lv n.
Proof.
  intros [R S I Hno K Hk Hlt] F R' Hn Ep St Ei Ec Ek Hc Hw Hpl.
  assert (Hpl' : procs s' !! n = Some pr') by (rewrite Ep, list_lookup_insert_eq; [done|by eapply lookup_lt_Some]).
  split; [|by rewrite Ei, Ec]. split; try done; rewrite ?Ei, ?Ec; try done; [|by eauto| |].
  - pose proof (states_ok_frame s s1 lv lv None S F ltac:(done)) as [S1 Sa S2]. split.
    + intros p Hp. apply (so_idle _ _ _ S). unfold idles in *. by rewrite <- Ei.
    + intros p prp Hp Hpp. destruct (decide (p = n)) as [->|Hne]; [simplify_eq; by right|].
      rewrite Ep, list_lookup_insert_ne in Hpp by done. eapply Sa; [|done].
      apply (frame_idles _ _ _ F). unfold idles in *. by rewrite <- Ei.
    + intros p prp Hp Hni Hnx. destruct (decide (p = n)) as [->|Hne].
      * simplify_eq. split; [by right|]. intros _. destruct Hw as [|Hw]; [done|].
        exfalso. apply Hni. unfold idles. rewrite Ei. by eapply list_elem_of_lookup_2.
      * rewrite Ep, list_lookup_insert_ne in Hp by done. apply S2; try done.
        unfold idles in *. by rewrite (rf_idle _ _ F), <- Ei.
  - intros x prx Hx Hr. destruct (decide (x = n)) as [->|Hne]; [done|].
    rewrite Ep, list_lookup_insert_ne in Hx by done.
    destruct (frame_state _ _ _ _ F Hx) as (pr0 & Hpr0 & E & _). destruct (Hno x pr0 Hpr0). congruence.
  - split; [by rewrite Ek, length_insert; apply K|]. intros p prp Hp Hl Hne. rewrite Ek.
    rewrite Ep, list_lookup_insert_ne in Hp by congruence.
    destruct (frame_state _ _ _ _ F Hp) as (pr0 & H0 & E & _). rewrite E in Hl. by eapply resumed_kont.
Qed.

Lemma rq_inv_konts k q s lv v : rq_inv k q s lv → rq_inv k q (set_konts s v) lv.
Proof. intros [[] ? ? ?]. by repeat split. Qed.

Lemma switch_from_spec c k q s lv prev kk :
  switch_pre k q s lv prev kk → held c = [LkRq q] →
  ∃ c' s' n, switch_from q prev kk c s = Ok () c' s' ∧ sched_inv k q s' lv n ∧
    (n ∈ queued lv ∨ idleproc s !! cpu_id s = Some (Some n)) ∧
    (∃ nk, held c' = kont_held nk ∧ kont_ok q nk) ∧ woken c' = woken c.
Proof.
  intros P Hh. destruct (pick_place _ _ _ _ _ _ P) as (n & pr & Hpick & Hpr & Hst & Hw & Hpl).
  pose proof P as [R S (i & Hi & Hil) Hno K Hk Hlt].
  destruct (pick_next_proc_spec c k q s lv (Some i) R) as (s1 & E1 & R1 & F1); [rewrite Hh; inl|done|].
  assert ((match head (queued lv) with Some p => Some p | None => Some i end) = Some n) as En.
  { destruct (head (queued lv)); congruence. }
  rewrite En in E1. unfold switch_from. rewrite (bind_Ok _ _ _ _ _ _ _ E1).
  destruct (set_curproc_run c k q s1 lv (Some n) R1) as (s2 & E2 & R2 & C2 & [v ->]).
  rewrite (bind_Ok _ _ _ _ _ _ _ E2). autorewrite with krun.
  destruct (rf_procs _ _ F1 n pr Hpr) as (ts & rq' & Hn1). set (pr1 := set_rq (set_timeslice pr ts) rq') in *.
  rewrite (bind_Ok _ _ _ _ _ _ _ (at_proc_run _ (set_cpus s1 v) _ _ (λ pr, set_state pr RUNNING) Hn1)).
  unfold set_kont. rewrite kmodify_bind.
  destruct (resumed_kont q s prev kk n pr K Hk Hlt Hpr Hst) as (nk & Hnk & Hko).
  unfold get_kont. erewrite (bind_Ok _ _ _ _ nk); cycle 1.
  { rewrite kget_bind. simpl. rewrite (rf_konts _ _ F1), Hnk. reflexivity. }
  set (s4 := set_konts _ _).
  assert (R4 : rq_inv k q s4 lv) by (apply rq_inv_konts; by eapply (rq_inv_update _ _ (set_cpus s1 v))).
  destruct (resume_spec c k q s4 lv n (set_state pr1 RUNNING) nk R4 C2) as (c' & ch & E5 & Hc' & Hw'); [|done..|].
  { simpl. by rewrite list_lookup_insert_eq by (by eapply lookup_lt_Some). }
  eexists c', _, n. split; [exact E5|]. split; [|by eauto].
  eapply (switched_inv k q s s1 _ lv prev kk n pr1 (set_chan (set_state pr1 RUNNING) ch)); try done.
  - apply (rq_inv_update _ _ _ _ _ (set_state pr1 RUNNING)); [done| |done].
    simpl. by rewrite list_lookup_insert_eq by (by eapply lookup_lt_Some).
  - simpl. by rewrite list_insert_insert_eq.
  - apply (rf_idle _ _ F1).
  - apply (rf_cpu _ _ F1).
Qed.

(** The current process has left [RUNNING] and holds the queue lock; [x] is the
    process whose queue membership does not match its state, if any. *)
Record paused (k : class_id) (q : nat) (s : schst) (lv : list level) (prev : nat) (x : option nat) : Prop := {
  pa_rq : rq_inv k q s lv;
  pa_states : states_ok s lv x;
  pa_idle : ∃ i, idleproc s !! cpu_id s = Some (Some i) ∧ i < NPROC;
  pa_cur : cur s = Some prev;
  pa_none y pr : procs s !! y = Some pr → p_state pr ≠ RUNNING;
  pa_konts : konts_ok q s (Some prev);
  pa_lt : prev < NPROC
}.

Lemma cur_frame s s' : rq_frame s s' → cur s' = cur s.
Proof. intros F. unfold cur. by rewrite (rf_cpus _ _ F), (rf_cpu _ _ F). Qed.

(** Writing the state of the current process. *)
Lemma run_inv_pause k q s lv p pr pr' :
  run_inv k q s lv p → procs s !! p = Some pr → p_rq pr' = p_rq pr → p_state pr' ≠ RUNNING →
  (idles s p → p_state pr' = RUNNABLE) →
  paused k q (set_procs s (<[p := pr']> (procs s))) lv p
    (if decide (p_state pr' = RUNNABLE) then None else Some p).
Proof.
  intros [R S I C (pr0 & Hpr0 & St) One K] Hp Hrq Hst Hidle. simplify_eq.
  assert (Hlt : p < NPROC) by (rewrite <- (mq_len _ _ (ri_mlfq _ _ _ _ R)); by eapply lookup_lt_Some).
  split; try done.
  - by eapply rq_inv_update.
  - destruct S as [S1 Sa S2]. split; [done| |]; simpl.
    { intros y pry Hi Hy. apply list_lookup_insert_Some in Hy as [(<- & <- & _)|[Hne Hy]]; [left; auto|by eauto]. }
    intros y pry Hy Hi Hx.
    apply list_lookup_insert_Some in Hy as [(<- & <- & _)|[Hne Hy]].
    + case_decide as Hd; [|done]. rewrite S2 by done. split; [by left|by right].
    + apply S2; [done..|]. by destruct (decide _).
  - intros y pry Hy. apply list_lookup_insert_Some in Hy as [(<- & <- & _)|[Hne Hy]]; [done|].
    intros E. apply Hne. symmetry. by eapply One.
  - by eapply konts_write.
Qed.

Lemma paused_frame k q s lv prev x s' lv' :
  paused k q s lv prev x → rq_frame s s' → rq_inv k q s' lv' →
  (∀ y, y ∈ queued lv' ↔ y ∈ queued lv) → paused k q s' lv' prev x.
Proof.
  intros [R S I C N K L] F R' Hq. split; try done.
  - by eapply states_ok_frame.
  - by rewrite (rf_idle _ _ F), (rf_cpu _ _ F).
  - by rewrite (cur_frame _ _ F).
  - intros y pr Hy. destruct (frame_state _ _ _ _ F Hy) as (pr0 & H0 & -> & _). by eapply N.
  - by eapply konts_frame.
Qed.

Lemma paused_switch k q s lv prev kk :
  paused k q s lv prev None → kont_ok q kk → switch_pre k q s lv prev kk.
Proof. intros []. by split. Qed.

(** [schedule] by a process that stays runnable. *)
Lemma schedule_runnable c k q s lv p kk pr :
  paused k q s lv p None → held c = [LkRq q] → kont_ok q kk →
  procs s !! p = Some pr → p_state pr = RUNNABLE →
  ∃ c' s' n, schedule kk c s = Ok () c' s' ∧ sched_inv k q s' lv n ∧
    (∃ nk, held c' = kont_held nk ∧ kont_ok q nk) ∧ woken c' = woken c.
Proof.
  intros P Hh Hk Hp St. unfold schedule. rewrite (cp_bind _ _ p) by apply P. autorewrite with krun.
  rewrite (get_proc_at_bind _ _ _ _ _ Hp), (my_rq_bind (pa_rq _ _ _ _ _ _ P)).
  rewrite decide_False by (rewrite St; tauto). rewrite ret_bind.
  destruct (switch_from_spec c k q s lv p kk) as (c' & s' & n & E & I' & _ & H'); [by apply paused_switch|done|].
  by exists c', s', n.
Qed.

(** [schedule] by a process that blocks: it leaves the queues. *)
Lemma schedule_blocked c k q s lv p kk pr :
  paused k q s lv p (Some p) → held c = [LkRq q] → procs s !! p = Some pr →
  p_state pr ≠ RUNNABLE → (p_state pr = SLEEPING → kont_ok q kk) → front lv p → ¬ idles s p →
  ∃ c' s' lv' n, schedule kk c s = Ok () c' s' ∧ sched_inv k q s' lv' n ∧
    (∀ x, x ∈ queued lv' ↔ x ∈ queued lv ∧ x ≠ p) ∧ n ≠ p ∧
    (∃ nk, held c' = kont_held nk ∧ kont_ok q nk) ∧ woken c' = woken c.
Proof.
  intros P Hh Hp St Hk Hf Hni. pose proof P as [R S (i & Hi & Hil) C N K L].
  unfold schedule. rewrite (cp_bind _ _ p) by done. autorewrite with krun.
  rewrite (get_proc_at_bind _ _ _ _ _ Hp), (my_rq_bind R).
  rewrite decide_True by (split; [done|by eapply N]).
  assert (p ≠ i) by (intros ->; apply Hni; by eapply list_elem_of_lookup_2).
  destruct (dequeue_proc_spec c k q s lv p i R) as (s1 & lv1 & E1 & R1 & F1 & Hq); [rewrite Hh; inl|done..|].
  rewrite (bind_Ok _ _ _ _ _ _ _ E1).
  destruct (switch_from_spec c k q s1 lv1 p kk) as (c' & s' & n & E & I' & Hn & H'); [|done|].
  - assert (Hid : ∀ y, idles s1 y ↔ idles s y) by (intros; unfold idles; by rewrite (rf_idle _ _ F1)).
    split; try done.
    + destruct S as [S1 Sa S2].
      split; [intros y Hy; rewrite Hq; intros [? ?]; by eapply S1; [apply Hid|]| |].
      { intros y pry Hy%Hid Hpy. destruct (frame_state _ _ _ _ F1 Hpy) as (pr0 & H0 & -> & _). eauto. }
      intros y pry Hy Hy' _. destruct (frame_state _ _ _ _ F1 Hy) as (pr0 & H0 & -> & _).
      rewrite Hq. destruct (decide (y = p)) as [->|Hne].
      * simplify_eq. split; [tauto|]. intros [?|E]; [done|]. by destruct (N p pr Hp).
      * rewrite <- (S2 y pr0); [tauto|done|by rewrite <- Hid|congruence].
    + rewrite (rf_idle _ _ F1), (rf_cpu _ _ F1). eauto.
    + intros y pry Hy. destruct (frame_state _ _ _ _ F1 Hy) as (pr0 & H0 & -> & _). by eapply N.
    + by eapply konts_frame.
    + intros pr1 H1. destruct (frame_state _ _ _ _ F1 H1) as (pr0 & H0 & -> & _). simplify_eq.
      intros [?|[?|?]]; [auto|done|]. by destruct (N p pr Hp).
  - exists c', s', lv1, n. split_and!; try done; try apply H'.
    intros ->. rewrite Hq, (rf_idle _ _ F1), (rf_cpu _ _ F1) in Hn. destruct Hn as [[_ ?]|?]; [done|congruence].
Qed.
