(* ===== verification/SchedBalance.v ===== *)
(** * Load balancing on one processor, and the layout of the run queues

    The idle process's clock tick first balances the load (trap.c, with
    [LOAD_BALANCE_ON]).  On a machine with one processor the busiest queue is
    the processor's own: sched.c and sched_RR.c take half of it out and put it
    back ([balance_one_level]), and sched_MLFQ.c reads through the null
    [next_to_run] of its empty second level as soon as a process is queued
    ([balance_MLFQ_faults]).  The last part shows that no scheduler code moves
    the queues: [fixes layout]. *)
From S2P Require Import Prelude Kernel ProcData Rq SchedState SchedClass SchedSimple SchedRR.
From S2P Require Import SchedFifo SchedMLFQ Sched SchedInv.

Notation queued lv := (lv ≫= l_procs) (only parsing).

Lemma bind_acquire {S B} l c (s : S) (f : () → M S B) :
  l ∉ held c → (acquire l ≫= f) c s = f () (KCtx (l :: held c) (woken c)) s.
Proof. intros H. by rewrite (bind_Ok _ _ _ _ _ _ _ (acquire_ok l c s H)). Qed.

Lemma bind_release {S B} l h w (s : S) (f : () → M S B) :
  l ∉ h → (release l ≫= f) (KCtx (l :: h) w) s = f () (KCtx h w) s.
Proof. intros H. by rewrite (bind_Ok _ _ _ _ _ _ _ (release_ok l h w s H)). Qed.

Lemma bind_Fault {S A B} (m : M S A) (f : A → M S B) c s : m c s = Fault → (m ≫= f) c s = Fault.
Proof. unfold mbind, M_bind. by intros ->. Qed.

(** ** The machine *)

(** One processor, whose queues are where [pinit] puts them. *)
Definition uniprocessor (k : class_id) (s : schst) : Prop :=
  ncpu s = 1 ∧ (k = sched_class_MLFQ →
    (rqs s !! 0 ≫= r_next) = Some NCPU ∧ (rqs s !! NCPU ≫= r_next) = Some (2 * NCPU)).

(** What no scheduler code writes. *)
Definition layout (s : schst) : nat * list (option nat) := (ncpu s, r_next <$> rqs s).

Lemma uniprocessor_layout k s s' : layout s' = layout s → uniprocessor k s → uniprocessor k s'.
Proof.
  unfold layout, uniprocessor. intros [= E1 E2].
  assert (H : ∀ i, (rqs s' !! i ≫= r_next) = (rqs s !! i ≫= r_next)).
  { intros i. assert (Ei : (r_next <$> rqs s') !! i = (r_next <$> rqs s) !! i) by congruence.
    rewrite !list_lookup_fmap in Ei. destruct (rqs s' !! i), (rqs s !! i); simplify_eq/=; congruence. }
  by rewrite E1, !H.
Qed.

(** ** Putting back what was taken out *)
Definition pushes (l : list nat) (lv : list level) : list level := foldl (λ lv x, push x lv) lv l.

Lemma pushes_one q k ps l : pushes l [Level q k ps] = [Level q k (ps ++ l)].
Proof.
  revert ps. induction l as [|x l IH]; intros ps; simpl; [by rewrite app_nil_r|].
  rewrite IH. by rewrite <- app_assoc.
Qed.

Lemma enqueue_each_spec c k q l : ∀ s lv,
  rq_inv k q s lv → LkRq q ∈ held c → Forall (λ x, x < NPROC) l → NoDup l →
  (∀ x, x ∈ l → x ∉ queued lv) →
  ∃ s', enqueue_each enqueue_proc q (Some <$> l) c s = Ok () c s' ∧ rq_inv k q s' (pushes l lv) ∧
    rq_frame s s'.
Proof.
  induction l as [|x l IH]; intros s lv R Hh Hl ND Hn; simpl.
  { exists s. split_and!; [done..|apply rq_frame_refl]. }
  apply Forall_cons in Hl as [Hx Hl]. apply NoDup_cons in ND as [Hxl ND].
  destruct (enqueue_proc_spec c k q s lv x R Hh Hx) as (s1 & E1 & R1 & F1); [apply Hn; inl|].
  destruct (IH s1 (push x lv) R1 Hh Hl ND) as (s2 & E2 & R2 & F2).
  { intros y Hy. destruct (config_head R) as (l0 & t & -> & _). rewrite push_queued by done.
    intros [->|Hq]; [done|]. apply (Hn y); [inl|done]. }
  exists s2. autorewrite with krun. rewrite (bind_Ok _ _ _ _ _ _ _ E1).
  split_and!; [done..|by eapply rq_frame_trans].
Qed.

(** sched.c and sched_RR.c: the queue loses nothing and gains nothing. *)
Lemma balance_one_level c k s lv :
  k = simple_sched_class ∨ k = sched_class_RR → rq_inv k 0 s lv → uniprocessor k s → held c = [] →
  ∃ s' lv', class_load_balance k 0 c s = Ok () c s' ∧ rq_inv k 0 s' lv' ∧ rq_frame s s' ∧
    (∀ x, x ∈ queued lv' ↔ x ∈ queued lv) ∧ lower_empty lv'.
Proof.
  intros Hk R (Hn & _) Hh. destruct c as [h w]. simpl in Hh. subst h.
  assert (∃ ps, lv = [Level 0 k ps]) as [ps ->].
  { pose proof (ri_config _ _ _ _ R) as C. destruct Hk as [-> | ->]; by apply shape_one. }
  destruct (mq_level _ _ (ri_mlfq _ _ _ _ R) 0 _ eq_refl) as (r & Hr & Hrep & _). simpl in Hr, Hrep.
  assert (Hnum : proc_num r = Z.of_nat (length ps)) by (destruct Hk as [-> | ->]; apply Hrep).
  assert (El : class_load_balance k 0 = load_balance_simple enqueue_proc
    (λ q, k ← class_of q; op_get_proc (class_ops k) q) 0) by (by destruct Hk as [-> | ->]).
  rewrite El. unfold load_balance_simple. rewrite kget_bind, Hn.
  assert (take 1 (rqs s) = [r]) as -> by (destruct (rqs s); by simplify_eq/=).
  cbn [busiest]. rewrite Hnum. destruct ps as [|p ps].
  { simpl. exists s, [Level 0 k []]. split_and!; [done..|apply rq_frame_refl|done|]. by intros i l. }
  rewrite decide_True by (simpl; lia). rewrite bind_acquire by (simpl; inl). simpl.
  set (m := S (length ps) / 2).
  assert (Al : at_level 0 QGet [Level 0 k (p :: ps)]
      = Some (Some <$> take m ps, [Level 0 k (p :: drop m ps)])) by (by destruct Hk as [-> | ->]).
  destruct (at_level_run (KCtx [LkRq 0] w) s _ _ _ _ _ (ri_mlfq _ _ _ _ R) Al) as (l & s1 & [= <-] & E1 & M1 & Sh & _ & F1); [done|].
  pose proof (rq_inv_step _ _ _ _ _ _ R M1 Sh F1) as R1.
  rewrite (bind_Ok _ _ _ _ (Some <$> take m ps) (KCtx [LkRq 0] w) s1); cycle 1.
  { rewrite (class_of_bind R). by destruct Hk as [-> | ->]. }
  rewrite bind_release by inl. rewrite bind_acquire by (simpl; inl). simpl.
  pose proof (mq_nodup _ _ (ri_mlfq _ _ _ _ R)) as ND. simpl in ND. rewrite app_nil_r in ND.
  rewrite <- (take_drop m ps) in ND. apply NoDup_cons in ND as [Np (Nt & Nd & _)%NoDup_app].
  destruct (enqueue_each_spec (KCtx [LkRq 0] w) k 0 (take m ps) s1 _ R1) as (s2 & E2 & R2 & F2); try done.
  - by left.
  - apply Forall_forall. intros x Hx. apply (queued_lt R). simpl. rewrite <- (take_drop m ps). inl.
  - intros x Hx. simpl. rewrite app_nil_r. intros [->|Hd]%elem_of_cons; [inl|by eapply Nd].
  - rewrite (bind_Ok _ _ _ _ _ _ _ E2), release_ok by inl. rewrite pushes_one in R2.
    eexists s2, _. split_and!; [done..|by eapply rq_frame_trans| |by intros i l].
    intros x. simpl. rewrite !app_nil_r. rewrite <- (take_drop m ps) at 3. inl.
Qed.

(** sched_MLFQ.c, with nothing queued. *)
Lemma mlfq_loads s lv :
  rq_inv sched_class_MLFQ 0 s lv → uniprocessor sched_class_MLFQ s → ∃ ps0 ps1 ps2,
  lv = [Level 0 sched_class_RR ps0; Level NCPU sched_class_RR ps1; Level (2 * NCPU) sched_class_fifo ps2] ∧
  busiest3 (rqs s) (ncpu s) 0 0 None = Some (match queued lv with [] => None | _ => Some 0 end).
Proof.
  intros R (Hn & Hnext). destruct (Hnext eq_refl) as [N0 N1]. pose proof (ri_mlfq _ _ _ _ R) as Mq.
  destruct (ri_config _ _ _ _ R) as (q1 & q2 & C).
  destruct lv as [|[? ? ps0] [|[? ? ps1] [|[? ? ps2] [|]]]]; simplify_eq/=.
  destruct (mq_level _ _ Mq 0 _ eq_refl) as (r0 & H0 & Q0 & _ & L0).
  destruct (mq_level _ _ Mq 1 _ eq_refl) as (r1 & H1 & Q1 & _ & L1).
  destruct (mq_level _ _ Mq 2 _ eq_refl) as (r2 & H2 & Q2 & _). simpl in *.
  specialize (L0 _ eq_refl). specialize (L1 _ eq_refl). simpl in *.
  rewrite H0 in N0. simpl in N0. simplify_eq. rewrite H1 in N1. simpl in N1. simplify_eq.
  exists ps0, ps1, ps2. split; [done|]. rewrite Hn. simpl. unfold load3. simpl.
  rewrite H0. simpl. change (NCPU + (NCPU + 0)) with (2 * NCPU) in *. rewrite H1. simpl. rewrite H2. simpl.
  destruct Q0 as [_ ->], Q1 as [_ ->], Q2 as [_ ->].
  destruct ps0; [destruct ps1; [destruct ps2|]|]; simpl; try done; case_decide; try done; lia.
Qed.

Lemma balance_MLFQ_empty c s lv :
  rq_inv sched_class_MLFQ 0 s lv → uniprocessor sched_class_MLFQ s → queued lv = [] →
  class_load_balance sched_class_MLFQ 0 c s = Ok () c s.
Proof.
  intros R U E. destruct (mlfq_loads s lv R U) as (? & ? & ? & _ & B). rewrite E in B.
  simpl. unfold load_balance_MLFQ. by rewrite kget_bind, B.
Qed.

(** sched_MLFQ.c, with a process on the first level only. *)
Lemma balance_MLFQ_faults c s lv :
  rq_inv sched_class_MLFQ 0 s lv → uniprocessor sched_class_MLFQ s → held c = [] →
  queued lv ≠ [] → lower_empty lv → class_load_balance sched_class_MLFQ 0 c s = Fault.
Proof.
  intros R U Hh Hq Hl. destruct (mlfq_loads s lv R U) as (ps0 & ps1 & ps2 & -> & B).
  pose proof (ri_mlfq _ _ _ _ R) as Mq.
  assert (ps1 = []) as -> by (apply (Hl 0 _ eq_refl)). assert (ps2 = []) as -> by (apply (Hl 1 _ eq_refl)).
  destruct ps0 as [|p ps]; [done|]. simpl in B. simpl. unfold load_balance_MLFQ. rewrite kget_bind, B. autorewrite with krun.
  rewrite bind_acquire by (rewrite Hh; inl). set (c1 := KCtx _ _).
  destruct (at_level_run c1 s _ 0 QGet _ _ Mq eq_refl) as (l & s1 & [= <-] & E1 & M1 & _); [done|]. simpl in E1.
  erewrite bind_Ok by (etransitivity; [exact (sub_of_run _ _ _ Mq 0 _ _ eq_refl)|exact E1]).
  etransitivity; [exact (rq_next_run _ _ _ M1 0 _ _ _ eq_refl eq_refl)|]. simpl l_q.
  apply bind_Fault. etransitivity; [exact (sub_of_run _ _ _ M1 1 _ _ eq_refl)|]. simpl.
  destruct (mq_level _ _ M1 1 _ eq_refl) as (r1 & H1 & [(l & f & [T _ Hd]) _] & _). simpl in H1.
  unfold get_proc_RR, at_rq. eapply focus_Fault; [exact H1|]. unfold get_proc_nodes.
  rewrite !kgets_bind. pose proof (nt_length_ps _ _ _ _ T) as HL. destruct l; [|done].
  rewrite Hd. reflexivity.
Qed.

(** ** The layout never changes *)

(** Code that returns with [f] of the state as it was. *)
Definition fixes {S T A} (f : S → T) (m : M S A) : Prop :=
  ∀ c s, match m c s with Ok _ _ s' => f s' = f s | _ => True end.

Section fixes.
Context {S T : Type} (f : S → T).
Lemma fixes_ret {A} (a : A) : fixes f (mret a).
Proof. done. Qed.
Lemma fixes_bind {A B} (m : M S A) (g : A → M S B) :
  fixes f m → (∀ a, fixes f (g a)) → fixes f (m ≫= g).
Proof.
  intros Hm Hg c s. specialize (Hm c s). unfold mbind, M_bind.
  destruct (m c s) as [a c' s'| | | |]; simpl; try done. specialize (Hg a c' s').
  destruct (g a c' s'); congruence || done.
Qed.
Lemma fixes_kget : fixes f kget.
Proof. done. Qed.
Lemma fixes_kgets {A} (g : S → A) : fixes f (kgets g).
Proof. done. Qed.
Lemma fixes_kmodify (g : S → S) : (∀ s, f (g s) = f s) → fixes f (kmodify g).
Proof. intros H c s. apply H. Qed.
Lemma fixes_panic {A} msg : fixes f (panic (A := A) msg).
Proof. done. Qed.
Lemma fixes_fault {A} : fixes f (fault (A := A)).
Proof. done. Qed.
Lemma fixes_diverge {A} : fixes f (diverge (A := A)).
Proof. done. Qed.
Lemma fixes_deref {A} (o : option A) : fixes f (deref o).
Proof. by destruct o. Qed.
Lemma fixes_holding l : fixes f (holding l).
Proof. done. Qed.
Lemma fixes_acquire l : fixes f (acquire l).
Proof. intros c s. unfold acquire. by case_decide. Qed.
Lemma fixes_release l : fixes f (release l).
Proof. intros c s. unfold release. by case_decide. Qed.
End fixes.

Create HintDb fixes.
#[export] Hint Resolve fixes_ret fixes_kget fixes_kgets fixes_panic fixes_fault fixes_diverge
  fixes_deref fixes_holding fixes_acquire fixes_release : fixes.

Ltac fixes :=
  repeat (intros; cbv beta zeta; match goal with
    | |- fixes _ (_ ≫= _) => apply fixes_bind
    | |- fixes _ (match ?x with _ => _ end) => destruct x
    | |- fixes _ (kmodify _) => apply fixes_kmodify; intros []; reflexivity
    | |- fixes _ _ => solve [eauto 2 with fixes]
    end).

(** *** One queue *)
Lemma fixes_node_at n : fixes r_next (node_at n).
Proof. unfold node_at. fixes. Qed.
#[export] Hint Resolve fixes_node_at : fixes.
Lemma fixes_node_proc n : fixes r_next (node_proc n).
Proof. unfold node_proc. fixes. Qed.
Lemma fixes_node_next n : fixes r_next (node_next n).
Proof. unfold node_next. fixes. Qed.
Lemma fixes_node_prev n : fixes r_next (node_prev n).
Proof. unfold node_prev. fixes. Qed.
Lemma fixes_set_node_proc n v : fixes r_next (set_node_proc n v).
Proof. unfold set_node_proc. fixes. Qed.
Lemma fixes_set_node_next n v : fixes r_next (set_node_next n v).
Proof. unfold set_node_next. fixes. Qed.
Lemma fixes_set_node_prev n v : fixes r_next (set_node_prev n v).
Proof. unfold set_node_prev. fixes. Qed.
#[export] Hint Resolve fixes_node_proc fixes_node_next fixes_node_prev fixes_set_node_proc
  fixes_set_node_next fixes_set_node_prev : fixes.

Lemma fixes_search_simple fuel cnode p : fixes r_next (search_simple fuel cnode p).
Proof. revert cnode. induction fuel; intros; unfold search_simple; fold search_simple; fixes; auto. Qed.
Lemma fixes_search_RR fuel cnode p : fixes r_next (search_RR fuel cnode p).
Proof. revert cnode. induction fuel; intros; unfold search_RR; fold search_RR; fixes; auto. Qed.
Lemma fixes_search_fifo fuel pnode node p : fixes r_next (search_fifo fuel pnode node p).
Proof. revert pnode node. induction fuel; intros; unfold search_fifo; fold search_fifo; fixes; auto. Qed.
Lemma fixes_get_proc_loop q k cnode l : fixes r_next (get_proc_loop q k cnode l).
Proof. revert cnode l. induction k; intros; simpl; fixes; auto. Qed.
Lemma fixes_get_proc_loop_fifo k cnode l : fixes r_next (get_proc_loop_fifo k cnode l).
Proof. revert cnode l. induction k; intros; simpl; fixes; auto. Qed.
#[export] Hint Resolve fixes_search_simple fixes_search_RR fixes_search_fifo
  fixes_get_proc_loop fixes_get_proc_loop_fifo : fixes.

(** *** The scheduler *)
Lemma fixes_at_rq {A} q (m : M rq A) : fixes r_next m → fixes layout (at_rq q m).
Proof.
  intros Hm c s. unfold at_rq, focus. destruct (rqs s !! q) as [r|] eqn:Hr; [|done].
  specialize (Hm c r). destruct (m c r) as [a c' r'| | | |]; simpl; try done.
  unfold layout. simpl. rewrite list_fmap_insert, Hm, list_insert_id; [done|].
  by rewrite list_lookup_fmap, Hr.
Qed.
Lemma fixes_set_curproc p : fixes layout (set_curproc p).
Proof. intros c s. unfold set_curproc. rewrite kget_bind. by destruct (cpus s !! cpu_id s). Qed.
#[export] Hint Resolve fixes_set_curproc : fixes.

Section scheduler.
Implicit Types (q p : nat) (k : class_id).
#[local] Hint Extern 1 (fixes layout (at_rq _ _)) => (apply fixes_at_rq; fixes) : fixes.

Lemma fixes_get_proc_at p : fixes layout (get_proc_at p).
Proof. unfold get_proc_at. fixes. Qed.
#[local] Hint Resolve fixes_get_proc_at : fixes.
Lemma fixes_at_proc p g : fixes layout (at_proc p g).
Proof. unfold at_proc. fixes. Qed.
Lemma fixes_get_cpu : fixes layout get_cpu.
Proof. unfold get_cpu. fixes. Qed.
#[local] Hint Resolve fixes_at_proc fixes_get_cpu : fixes.
Lemma fixes_cp : fixes layout cp.
Proof. unfold cp. fixes. Qed.
Lemma fixes_my_rq : fixes layout my_rq.
Proof. unfold my_rq. fixes. Qed.
Lemma fixes_my_idle : fixes layout my_idle.
Proof. unfold my_idle. fixes. Qed.
Lemma fixes_rq_at q : fixes layout (rq_at q).
Proof. unfold rq_at. fixes. Qed.
#[local] Hint Resolve fixes_cp fixes_my_rq fixes_my_idle fixes_rq_at : fixes.
Lemma fixes_at_cp g : fixes layout (at_cp g).
Proof. unfold at_cp. fixes. Qed.
Lemma fixes_rq_next q : fixes layout (rq_next q).
Proof. unfold rq_next. fixes. Qed.
Lemma fixes_sub_of q : fixes layout (sub_of q).
Proof. unfold sub_of. fixes. Qed.
Lemma fixes_class_of q : fixes layout (class_of q).
Proof. unfold class_of. fixes. Qed.
#[local] Hint Resolve fixes_at_cp fixes_rq_next fixes_sub_of fixes_class_of : fixes.

(** The classes. *)
Record fixes_ops (o : sched_ops) : Prop := {
  fo_enqueue q p : fixes layout (op_enqueue_proc o q p);
  fo_dequeue q p : fixes layout (op_dequeue_proc o q p);
  fo_yield q : fixes layout (op_yield_proc o q);
  fo_pick q : fixes layout (op_pick_next_proc o q);
  fo_get q : fixes layout (op_get_proc o q)
}.

Lemma fixes_sub_ops k : fixes_ops (sub_ops k).
Proof.
  destruct k; split; intros; simpl;
    unfold enqueue_proc_simple, enqueue_link_simple, dequeue_proc_simple, dequeue_unlink_simple,
      delete_simple, yield_proc_simple, yield_nodes_simple, pick_next_proc_simple, pick_next_nodes_simple,
      get_proc_simple, get_proc_nodes, enqueue_proc_RR, alloc_node_RR, enqueue_link_RR, dequeue_proc_RR,
      dequeue_unlink_RR, advance_RR, unlink_RR, yield_proc_RR, pick_next_proc_RR, get_proc_RR,
      enqueue_proc_fifo, enqueue_link_fifo, dequeue_proc_fifo, dequeue_unlink_fifo, unlink_fifo,
      yield_proc_fifo, yield_nodes_fifo, pick_next_proc_fifo, get_proc_fifo, get_proc_nodes_fifo,
      get_proc_MLFQ, pick_next_nodes_simple, yield_nodes_simple, get_proc_nodes; fixes.
Qed.
#[local] Hint Resolve fixes_sub_ops fo_enqueue fo_dequeue fo_yield fo_pick fo_get : fixes.

Lemma fixes_pick_sub q : fixes layout (pick_sub sub_ops q).
Proof. unfold pick_sub. fixes. Qed.
Lemma fixes_get_sub q : fixes layout (get_sub sub_ops q).
Proof. unfold get_sub. fixes. Qed.
Lemma fixes_enqueue_sub q p : fixes layout (enqueue_sub sub_ops q p).
Proof. unfold enqueue_sub. fixes. Qed.
#[local] Hint Resolve fixes_pick_sub fixes_get_sub fixes_enqueue_sub : fixes.

Lemma fixes_class_ops k : fixes_ops (class_ops k).
Proof.
  destruct k; [exact (fixes_sub_ops simple_sched_class)|exact (fixes_sub_ops sched_class_fifo)
    |exact (fixes_sub_ops sched_class_RR)|].
  split; intros; simpl; unfold enqueue_proc_MLFQ, dequeue_proc_MLFQ, yield_proc_MLFQ,
    pick_next_proc_MLFQ, get_proc_MLFQ; fixes.
Qed.
#[local] Hint Resolve fixes_class_ops : fixes.

(** The wrappers, the switch and what calls it. *)
Lemma fixes_enqueue_proc q p : fixes layout (enqueue_proc q p).
Proof. unfold enqueue_proc. fixes. Qed.
Lemma fixes_dequeue_proc q p : fixes layout (dequeue_proc q p).
Proof. unfold dequeue_proc. fixes. Qed.
Lemma fixes_yield_proc q : fixes layout (yield_proc q).
Proof. unfold yield_proc. fixes. Qed.
Lemma fixes_pick_next_proc q : fixes layout (pick_next_proc q).
Proof. unfold pick_next_proc. fixes. Qed.
Lemma fixes_resume kk : fixes layout (resume kk).
Proof. unfold resume, sleep_tail. fixes. Qed.
Lemma fixes_set_kont p kk : fixes layout (set_kont p kk).
Proof. unfold set_kont. fixes. Qed.
Lemma fixes_get_kont p : fixes layout (get_kont p).
Proof. unfold get_kont. fixes. Qed.
#[local] Hint Resolve fixes_enqueue_proc fixes_dequeue_proc fixes_yield_proc fixes_pick_next_proc
  fixes_resume fixes_set_kont fixes_get_kont : fixes.
Lemma fixes_schedule kk : fixes layout (schedule kk).
Proof. unfold schedule, switch_from. fixes. Qed.
#[local] Hint Resolve fixes_schedule : fixes.
Lemma fixes_yield : fixes layout yield.
Proof. unfold yield. fixes. Qed.
#[local] Hint Resolve fixes_yield : fixes.
Lemma fixes_proc_sleep ch lk : fixes layout (proc_sleep ch lk).
Proof. unfold proc_sleep, sleep_enter. fixes. Qed.

Lemma fixes_for_each l (g : nat → M schst unit) : (∀ i, fixes layout (g i)) → fixes layout (for_each l g).
Proof. intros. induction l; simpl; fixes; auto. Qed.
Lemma fixes_enqueue_each (g : nat → nat → M schst unit) q l :
  (∀ p, fixes layout (g q p)) → fixes layout (enqueue_each g q l).
Proof. intros. induction l; simpl; fixes; auto. Qed.
#[local] Hint Resolve fixes_for_each fixes_enqueue_each : fixes.

Lemma fixes_wakeup1 ch : fixes layout (wakeup1 ch).
Proof. apply fixes_for_each. intros i. unfold wakeup1_proc. fixes. Qed.
#[local] Hint Resolve fixes_wakeup1 : fixes.
Lemma fixes_proc_wakeup ch : fixes layout (proc_wakeup ch).
Proof. unfold proc_wakeup. fixes. Qed.
Lemma fixes_reparent me p : fixes layout (reparent me p).
Proof. unfold reparent. fixes. Qed.
#[local] Hint Resolve fixes_reparent : fixes.
Lemma fixes_exit_tail : fixes layout exit_tail.
Proof. unfold exit_tail. fixes. Qed.
Lemma fixes_fork_tail np : fixes layout (fork_tail np).
Proof. unfold fork_tail. fixes. Qed.
Lemma fixes_allocproc : fixes layout allocproc.
Proof.
  unfold allocproc. fixes. generalize (seq 0 NPROC). intros l.
  induction l; simpl; fixes; auto.
Qed.

(** The clock tick. *)
Lemma fixes_demote p : fixes layout (demote_MLFQ sub_ops p).
Proof. unfold demote_MLFQ. fixes. Qed.
#[local] Hint Resolve fixes_demote : fixes.
Lemma fixes_class_tick d k q p : fixes layout (class_tick d k q p).
Proof.
  revert k q p. induction d as [|d IH]; intros k q p; destruct k; simpl;
    unfold proc_tick_simple, proc_tick_fifo, proc_tick_RR, proc_tick_MLFQ; fixes; auto.
Qed.
#[local] Hint Resolve fixes_class_tick : fixes.
Lemma fixes_class_load_balance k q : fixes layout (class_load_balance k q).
Proof.
  destruct k; simpl; unfold load_balance_fifo, load_balance_RR, load_balance_simple, load_balance_MLFQ; fixes.
Qed.
#[local] Hint Resolve fixes_class_load_balance : fixes.
Lemma fixes_timer_resched b : fixes layout (timer_resched b).
Proof. unfold timer_resched, proc_tick. fixes. Qed.
End scheduler.

#[export] Hint Resolve fixes_timer_resched fixes_proc_sleep fixes_proc_wakeup fixes_set_kont
  fixes_allocproc fixes_fork_tail fixes_exit_tail : fixes.
