(* ===== verification/SchedEvents.v ===== *)
(** * Scheduling events

    Each event of the scheduler run from the invariant [sched_inv]: the clock
    tick of every class, [sleep], [wakeup], the end of [fork] and of [exit], and
    process-slot allocation.  [sched_events_safe] puts them together, for one
    processor: the invariant holds after every sequence of enabled events, and
    the next event panics, dereferences a bad pointer or loops in one case only,
    the idle tick of the multi-level class with a process queued. *)
From S2P Require Import Prelude Kernel ProcData Rq SchedState SchedClass SchedSimple SchedRR.
From S2P Require Import SchedFifo SchedMLFQ Sched SchedInv SchedBalance.

(** The locks a processor may hold when a scheduling function has returned. *)
Definition quiet (c : kctx) : Prop :=
  held c = [] ∨ ∃ lk, held c = [lk] ∧ ∀ q, lk ≠ LkRq q.

Lemma kont_quiet q nk c : held c = kont_held nk → kont_ok q nk → quiet c.
Proof. unfold quiet. destruct nk; simpl; intros -> H; eauto. Qed.

(** A piece of code that runs to the end and re-establishes the invariant. *)
Definition keeps (k : class_id) (q : nat) (o : outcome schst unit) : Prop :=
  ∃ c' s' lv' n, o = Ok () c' s' ∧ sched_inv k q s' lv' n ∧ quiet c'.

(** ** Yield *)

Lemma yield_spec c k q s lv p :
  run_inv k q s lv p → held c = [] → yieldable lv → keeps k q (yield c s).
Proof.
  intros I Hh Hy. destruct (ru_running _ _ _ _ _ I) as (pr & Hp & _).
  pose proof (run_inv_pause _ _ _ _ _ _ (set_state pr RUNNABLE) I Hp eq_refl ltac:(done) ltac:(done)) as P.
  simpl in P. unfold yield. rewrite (my_rq_bind (ru_rq _ _ _ _ _ I)), bind_acquire by (rewrite Hh; inl).
  rewrite (bind_Ok _ _ _ _ _ _ _ (at_cp_run _ _ _ _ _ (ru_cur _ _ _ _ _ I) Hp)).
  rewrite Hh. set (s1 := set_procs _ _) in *. set (c1 := KCtx _ _).
  destruct (yield_proc_spec c1 k q s1 lv (pa_rq _ _ _ _ _ _ P)) as (s2 & lv2 & E2 & R2 & F2 & Hq); [by left|done|].
  rewrite (bind_Ok _ _ _ _ _ _ _ E2).
  pose proof (paused_frame _ _ _ _ _ _ _ _ P F2 R2 Hq) as P2.
  destruct (rf_procs _ _ F2 p (set_state pr RUNNABLE)) as (ts & rq' & Hp2).
  { simpl. by rewrite list_lookup_insert_eq by (by eapply lookup_lt_Some). }
  destruct (schedule_runnable c1 k q s2 lv2 p KYield _ P2 eq_refl Logic.I Hp2 eq_refl)
    as (c' & s' & n & E & I' & (nk & Hn & Hk) & _).
  exists c', s', lv2, n. eauto using kont_quiet.
Qed.

(** Writing a field that is neither [state] nor [rq]. *)
Lemma run_inv_update k q s lv p x pr pr' :
  run_inv k q s lv p → procs s !! x = Some pr → p_rq pr' = p_rq pr → p_state pr' = p_state pr →
  run_inv k q (set_procs s (<[x := pr']> (procs s))) lv p.
Proof.
  intros [R [S1 S2 S3] I C (pr0 & Hp0 & St) One K] Hx Hrq Hst.
  assert (G : ∀ y pry, <[x := pr']> (procs s) !! y = Some pry → ∃ pr1, procs s !! y = Some pr1 ∧ p_state pry = p_state pr1).
  { intros y pry Hy. apply list_lookup_insert_Some in Hy as [(<- & <- & _)|[_ Hy]]; eauto. }
  split; try done; simpl.
  - by eapply rq_inv_update.
  - split; [done| |].
    + intros y pry Hi (pr1 & H1 & ->)%G. eauto.
    + intros y pry (pr1 & H1 & ->)%G. eauto.
  - destruct (decide (x = p)) as [->|Hne].
    + simplify_eq. exists pr'. rewrite list_lookup_insert_eq by (by eapply lookup_lt_Some). split; [done|congruence].
    + exists pr0. by rewrite list_lookup_insert_ne.
  - intros y pry (pr1 & H1 & ->)%G. eauto.
  - eapply konts_write; [done..|]. by rewrite Hst.
Qed.

Lemma sched_inv_update k q s lv p x pr pr' :
  sched_inv k q s lv p → procs s !! x = Some pr → p_rq pr' = p_rq pr → p_state pr' = p_state pr →
  sched_inv k q (set_procs s (<[x := pr']> (procs s))) lv p.
Proof. intros [I Pl]. split; [by eapply run_inv_update|done]. Qed.

(** ** The clock tick *)

Lemma yieldable_config k q lv :
  config k q lv → k ≠ sched_class_fifo → (k = sched_class_MLFQ → lower_empty lv) → yieldable lv.
Proof.
  intros C Hf Hl i l Hb Hi E. pose proof (first_busy_spec lv) as B. rewrite Hb in B.
  destruct B as (l' & Hi' & Hne & _). simplify_eq.
  destruct k; [by (destruct (shape_one _ _ _ C) as (ps & ->); destruct i; simplify_eq/=)|done| |].
  - destruct (shape_one _ _ _ C) as (ps & ->). by destruct i; simplify_eq/=.
  - destruct C as (q1 & q2 & C). destruct i as [|i]; [|by rewrite (Hl eq_refl i l) in Hne].
    destruct lv; simplify_eq/=. congruence.
Qed.

(** Reading a field of the queue. *)
Lemma at_rq_gets {A B} c s q r (g : rq → A) (f : A → M schst B) :
  rqs s !! q = Some r → (at_rq q (kgets g) ≫= f) c s = f (g r) c s.
Proof.
  intros Hr. erewrite bind_Ok by (by eapply at_rq_run).
  rewrite list_insert_id by done. by destruct s.
Qed.

Lemma tick_RR_spec c q s lv p :
  sched_inv sched_class_RR q s lv p → held c = [] → keeps sched_class_RR q (proc_tick_RR yield q p c s).
Proof.
  intros J Hh. pose proof (si_run _ _ _ _ _ J) as I. pose proof (ru_rq _ _ _ _ _ I) as R.
  destruct (ru_idle _ _ _ _ _ I) as (i & Hi & _).
  assert (Y : yieldable lv) by (eapply yieldable_config; [apply R|done..]).
  unfold proc_tick_RR. rewrite (my_idle_bind _ _ _ _ Hi). case_decide; [by eapply yield_spec|].
  destruct (ru_running _ _ _ _ _ I) as (pr & Hp & St).
  rewrite (bind_Ok _ _ _ _ _ _ _ (at_proc_run _ _ _ _ _ Hp)). set (pr1 := set_timeslice pr _).
  pose proof (sched_inv_update _ _ _ _ _ p pr pr1 J Hp eq_refl eq_refl) as J1. set (s1 := set_procs s _) in *.
  assert (Hp1 : procs s1 !! p = Some pr1) by (simpl; by rewrite list_lookup_insert_eq by (by eapply lookup_lt_Some)).
  rewrite (get_proc_at_bind _ _ _ _ _ Hp1). case_decide.
  - destruct (ri_class _ _ _ _ R) as (r & Hr & _). rewrite (at_rq_gets _ _ _ r) by done.
    rewrite (bind_Ok _ _ _ _ _ _ _ (at_proc_run _ _ _ _ _ Hp1)).
    eapply yield_spec; [|done..]. by eapply run_inv_update; [apply J1|..].
  - exists c, s1, lv, p. split_and!; [done..|by left].
Qed.

(** A process of the last level is not charged; sched_fifo.c lets it run. *)
Lemma tick_fifo_spec c k q s lv q' p :
  sched_inv k q s lv p → held c = [] → (idleproc s !! cpu_id s = Some (Some p) → yieldable lv) →
  keeps k q (proc_tick_fifo yield q' p c s).
Proof.
  intros J Hh Y. destruct (ru_idle _ _ _ _ _ (si_run _ _ _ _ _ J)) as (i & Hi & _).
  unfold proc_tick_fifo. rewrite (my_idle_bind _ _ _ _ Hi). case_decide as E.
  - simplify_eq. eapply yield_spec; eauto using si_run.
  - exists c, s, lv, p. split_and!; [done..|by left].
Qed.

(** The move one level down. *)
Lemma demote_step k q s lv i l l' p ps :
  rq_inv k q s lv → lv !! i = Some l → lv !! S i = Some l' → l_procs l = p :: ps →
  ∃ lv', mlfq_step (MDemote p) lv = Some ([], lv') ∧ ∀ x, x ∈ queued lv' ↔ x ∈ queued lv.
Proof.
  intros R Hi Hi' E. destruct (pop_level _ _ _ _ _ _ _ _ R Hi E) as [Hl Ha].
  pose proof (pop_queued _ _ _ _ _ _ _ _ R Hi E) as Hq. set (lv1 := <[i := _]> lv) in *.
  assert (Hp : p ∈ queued lv) by (apply elem_of_levels; exists i, l; rewrite E; inl).
  assert (Hi1 : lv1 !! S i = Some l') by (unfold lv1; rewrite list_lookup_insert_ne by lia; done).
  assert (Hn : p ∉ l_procs l').
  { intros Hin. pose proof (level_unique _ _ p _ _ _ _ (ri_mlfq _ _ _ _ R) Hi Hi') as Hu.
    assert (i = S i) by (apply Hu; [rewrite E; inl|done]). lia. }
  eexists. simpl. rewrite Hl. simpl. rewrite Ha. simpl. split.
  - unfold at_level, abs_step. rewrite Hi1. simpl.
    assert (sub_ok (l_class l') (QEnqueue p) (l_procs l') = true) as -> by (by destruct (l_class l')).
    rewrite decide_True; [reflexivity|]. split_and!; [done|by eapply queued_lt|].
    by eapply (level_room R (S i) l' p); [|eapply queued_lt|].
  - intros x. destruct (bind_insert lv1 (S i) l' (l_procs l' ++ [p]) Hi1) as (a & b & Ea & ->).
    specialize (Hq x). rewrite Ea in Hq. destruct (decide (x = p)) as [->|]; [split; [done|inl]|].
    rewrite !elem_of_app in *. inl.
Qed.

Lemma run_inv_frame k q s lv p s' lv' :
  run_inv k q s lv p → rq_frame s s' → rq_inv k q s' lv' →
  (∀ y, y ∈ queued lv' ↔ y ∈ queued lv) → run_inv k q s' lv' p.
Proof.
  intros [R S I C (pr & Hp & St) One K] F R' Hq. split; try done.
  - by eapply states_ok_frame.
  - by rewrite (rf_idle _ _ F), (rf_cpu _ _ F).
  - by rewrite (cur_frame _ _ F).
  - destruct (rf_procs _ _ F _ _ Hp) as (ts & rq' & Hp'). eexists. by split.
  - intros y pr' Hy. destruct (frame_state _ _ _ _ F Hy) as (pr0 & H0 & -> & _). by eapply One.
  - by eapply konts_frame.
Qed.

(** The slice is used up: the process moves down and the processor is given
    away. *)
Lemma tick_demote c q s lv p i l l' ps :
  run_inv sched_class_MLFQ q s lv p → held c = [] →
  lv !! i = Some l → lv !! S i = Some l' → l_procs l = p :: ps →
  keeps sched_class_MLFQ q
    ((acquire (LkRq q);; demote_MLFQ sub_ops p;; at_cp (λ pr, set_state pr RUNNABLE);;
      schedule (KTick q)) c s).
Proof.
  intros I Hh Hi Hi' E. pose proof (ru_rq _ _ _ _ _ I) as R.
  destruct (demote_step _ _ _ _ _ _ _ _ _ R Hi Hi' E) as (lv1 & Hs & Hq).
  rewrite bind_acquire by (rewrite Hh; inl). rewrite Hh. set (c1 := KCtx _ _).
  destruct (class_step c1 s _ q lv _ _ _ (ri_mlfq _ _ _ _ R) (ri_config _ _ _ _ R) Hs)
    as (s1 & E1 & M1 & Sh & F1). apply seq_nil_inv in E1 as [_ E1].
  rewrite (bind_Ok _ _ _ _ _ _ _ E1).
  pose proof (run_inv_frame _ _ _ _ _ _ _ I F1 (rq_inv_step _ _ _ _ _ _ R M1 Sh F1) Hq) as I1.
  destruct (ru_running _ _ _ _ _ I1) as (pr & Hp & _).
  rewrite (bind_Ok _ _ _ _ _ _ _ (at_cp_run _ _ _ _ _ (ru_cur _ _ _ _ _ I1) Hp)).
  pose proof (run_inv_pause _ _ _ _ _ _ (set_state pr RUNNABLE) I1 Hp eq_refl ltac:(done) ltac:(done)) as P.
  simpl in P.
  destruct (schedule_runnable c1 _ q _ lv1 p (KTick q) (set_state pr RUNNABLE) P)
    as (c' & s' & n & E' & I' & (nk & Hn & Hk) & _); try done.
  { simpl. by rewrite list_lookup_insert_eq by (by eapply lookup_lt_Some). }
  exists c', s', lv1, n. eauto using kont_quiet.
Qed.

Lemma config_levels q lv : config sched_class_MLFQ q lv →
  ∃ l0 l1 l2, lv = [l0; l1; l2] ∧ l_q l0 = q ∧ l_class l2 = sched_class_fifo.
Proof.
  intros (q1 & q2 & E). destruct lv as [|l0 [|l1 [|l2 [|]]]]; simplify_eq/=. by exists l0, l1, l2.
Qed.

Lemma tick_MLFQ_spec c q s lv p depth :
  sched_inv sched_class_MLFQ q s lv p → held c = [] →
  keeps sched_class_MLFQ q (class_tick (S depth) sched_class_MLFQ q p c s).
Proof.
  intros J Hh. pose proof (si_run _ _ _ _ _ J) as I. pose proof (ru_rq _ _ _ _ _ I) as R.
  destruct (ru_idle _ _ _ _ _ I) as (i & Hi & _). destruct (ru_running _ _ _ _ _ I) as (pr & Hp & _).
  cbn [class_tick]. unfold proc_tick_MLFQ. rewrite (my_idle_bind _ _ _ _ Hi). case_decide as Ei.
  { eapply yield_spec; [done..|]. eapply yieldable_config; [apply R|done|].
    destruct (si_place _ _ _ _ _ J) as [Hf|[_ Hl]]; [|done]. intros _. exfalso. simplify_eq.
    eapply (so_idle _ _ _ (ru_states _ _ _ _ _ I)); [by eapply list_elem_of_lookup_2|by apply front_queued]. }
  destruct (si_place _ _ _ _ _ J) as [(j & l & ps & Hj & E)|[Hf _]]; [|congruence].
  destruct (config_levels _ _ (ri_config _ _ _ _ R)) as (l0 & l1 & l2 & -> & <- & Hc2).
  pose proof (ri_mlfq _ _ _ _ R) as Mq.
  destruct (mq_home _ _ Mq _ _ p Hj) as (pr0 & Hp0 & Hq); [rewrite E; inl|]. simplify_eq.
  destruct (mq_level _ _ Mq 0 l0 eq_refl) as (r0 & Hr0 & _ & _ & Hn0). specialize (Hn0 l1 eq_refl).
  destruct (mq_level _ _ Mq 1 l1 eq_refl) as (r1 & Hr1 & _ & _ & Hn1). specialize (Hn1 l2 eq_refl).
  pose proof (mq_queues _ _ Mq) as ND. simpl in ND.
  rewrite (get_proc_at_bind _ _ _ _ _ Hp).
  rewrite (rq_at_bind _ _ _ _ _ Hr0).
  rewrite Hq, Hn0. destruct (decide (j = 2)) as [->|Hj2].
  - simplify_eq/=. rewrite decide_False.
    2: { repeat setoid_rewrite NoDup_cons in ND. intros [[= X]|[= X]]; rewrite X in ND; inl. }
    rewrite (rq_next_run _ _ _ Mq 0 l0 l1) by done.
    rewrite (rq_at_bind _ _ _ _ _ Hr1).
    rewrite Hn1, decide_True by done. autorewrite with krun.
    rewrite (sub_of_run _ _ _ Mq 2) by done. rewrite Hc2.
    assert (class_tick depth sched_class_fifo = proc_tick_fifo yield) as -> by (by destruct depth).
    eapply tick_fifo_spec; [done..|]. congruence.
  - assert (∃ l', [l0; l1; l2] !! S j = Some l') as [l' Hj'].
    { apply lookup_lt_is_Some_2. apply lookup_lt_Some in Hj. simpl in *. lia. }
    rewrite decide_True by (destruct j as [|[|j]]; [simplify_eq/=; tauto..|apply lookup_lt_Some in Hj'; simpl in Hj'; lia]).
    rewrite (bind_Ok _ _ _ _ _ _ _ (at_proc_run _ _ _ _ _ Hp)). set (pr1 := set_timeslice pr _).
    pose proof (sched_inv_update _ _ _ _ _ p pr pr1 J Hp eq_refl eq_refl) as J1. set (s1 := set_procs s _) in *.
    assert (Hp1 : procs s1 !! p = Some pr1) by (simpl; by rewrite list_lookup_insert_eq by (by eapply lookup_lt_Some)).
    rewrite (get_proc_at_bind _ _ _ _ _ Hp1). case_decide.
    + eapply (tick_demote c _ s1 _ _ j l l' ps (si_run _ _ _ _ _ J1)); try done.

    + exists c, s1, [l0; l1; l2], p. split_and!; [done..|by left].
Qed.

Lemma proc_tick_spec c k q s lv p :
  sched_inv k q s lv p → held c = [] →
  (k = sched_class_fifo → idleproc s !! cpu_id s = Some (Some p) → yieldable lv) →
  keeps k q (proc_tick q p c s).
Proof.
  intros J Hh Hy. pose proof (si_run _ _ _ _ _ J) as I. pose proof (ru_rq _ _ _ _ _ I) as R.
  unfold proc_tick. rewrite (class_of_bind R), (my_rq_bind R), (cp_bind _ _ _ _ (ru_cur _ _ _ _ _ I)).
  autorewrite with krun. destruct k; [| | |by eapply tick_MLFQ_spec].
  - eapply yield_spec; [done..|]. eapply yieldable_config; [apply R|done..].
  - by eapply tick_fifo_spec; [done..|auto].
  - by eapply tick_RR_spec.
Qed.

(** The end of a timer interrupt on a machine with one processor. *)
(** The idle process of the multi-level class ticks while a process is queued. *)
Definition tick_faults (k : class_id) (s : schst) (lv : list level) (p : nat) : Prop :=
  k = sched_class_MLFQ ∧ idleproc s !! cpu_id s = Some (Some p) ∧ queued lv ≠ [].

Lemma idle_not_front k q s lv p :
  sched_inv k q s lv p → idleproc s !! cpu_id s = Some (Some p) → lower_empty lv.
Proof.
  intros [I [Hf|[_ ?]]] Hi; [|done]. destruct (so_idle _ _ _ (ru_states _ _ _ _ _ I) p).
  - by eapply list_elem_of_lookup_2.
  - by apply front_queued.
Qed.

Lemma timer_resched_spec c k s lv p :
  k ≠ sched_class_fifo → sched_inv k 0 s lv p → uniprocessor k s → held c = [] →
  ¬ tick_faults k s lv p → keeps k 0 (timer_resched true c s).
Proof.
  intros Hk J U Hh Ht. pose proof (si_run _ _ _ _ _ J) as I. pose proof (ru_rq _ _ _ _ _ I) as R.
  destruct (ru_running _ _ _ _ _ I) as (pr & Hp & St). destruct (ru_idle _ _ _ _ _ I) as (i & Hi & _).
  unfold timer_resched. rewrite (cp_bind _ _ _ _ (ru_cur _ _ _ _ _ I)), (get_proc_at_bind _ _ _ _ _ Hp).
  rewrite decide_True by done. rewrite (my_idle_bind _ _ _ _ Hi), (my_rq_bind R). simpl.
  case_bool_decide as Hpi; [|by apply (proc_tick_spec c k 0 s lv p)]. injection Hpi as <-.
  assert (∃ s' lv', class_load_balance k 0 c s = Ok () c s' ∧ sched_inv k 0 s' lv' p)
    as (s' & lv' & E & J').
  { destruct (decide (k = sched_class_MLFQ)) as [->|Hm].
    - exists s, lv. split; [|done]. apply (balance_MLFQ_empty c s lv); [done..|].
      destruct (queued lv) eqn:Eq; [done|]. exfalso. apply Ht. unfold tick_faults. by rewrite Eq.
    - destruct (balance_one_level c k s lv) as (s' & lv' & E & R' & F & Hq & Hl); try done.
      { destruct k; naive_solver. }
      exists s', lv'. split; [done|]. split; [by eapply run_inv_frame|]. right.
      by rewrite (rf_idle _ _ F), (rf_cpu _ _ F). }
  rewrite (bind_Ok _ _ _ _ () c s') by (by rewrite (class_of_bind R)).
  by apply (proc_tick_spec c k 0 s' lv' p).
Qed.

Lemma timer_resched_faults c k s lv p :
  sched_inv k 0 s lv p → uniprocessor k s → held c = [] → tick_faults k s lv p →
  timer_resched true c s = Fault.
Proof.
  intros J U Hh (-> & Hi & Hq). pose proof (si_run _ _ _ _ _ J) as I. pose proof (ru_rq _ _ _ _ _ I) as R.
  destruct (ru_running _ _ _ _ _ I) as (pr & Hp & St).
  unfold timer_resched. rewrite (cp_bind _ _ _ _ (ru_cur _ _ _ _ _ I)), (get_proc_at_bind _ _ _ _ _ Hp).
  rewrite decide_True by done. rewrite (my_idle_bind _ _ _ _ Hi), (my_rq_bind R).
  rewrite bool_decide_true by done. cbn [andb]. apply bind_Fault. rewrite (class_of_bind R).
  apply (balance_MLFQ_faults c s lv); try done. by eapply idle_not_front.
Qed.

(** ** Sleep *)
Lemma release_second {S} (x l : lock_id) w (s : S) :
  l ≠ x → release l (KCtx [x; l] w) s = Ok () (KCtx [x] w) s.
Proof.
  intros H. unfold release. simpl. rewrite decide_True by inl.
  by rewrite filter_cons_True, filter_cons_False, filter_nil by auto.
Qed.

Lemma release_third {S} (x y l : lock_id) w (s : S) :
  l ≠ x → l ≠ y → release l (KCtx [x; y; l] w) s = Ok () (KCtx [x; y] w) s.
Proof.
  intros H1 H2. unfold release. simpl. rewrite decide_True by inl.
  by rewrite !filter_cons_True, filter_cons_False, filter_nil by auto.
Qed.

(** The locks after the first part of [sleep]. *)
Lemma sleep_locks c s q lk :
  held c = [lk] → (∀ q', lk ≠ LkRq q') →
  ∃ h, h = [LkRq q; LkProcTable] ∧
  (if decide (lk = LkProcTable) then acquire (LkRq q)
   else if decide (lk = LkRq q) then acquire LkProcTable
   else acquire LkProcTable;; acquire (LkRq q);; release lk) c s = Ok () (KCtx h (woken c)) (s : schst).
Proof.
  intros Hh Hlk. destruct c as [h w]. simpl in Hh. subst h. eexists. split; [done|].
  case_decide as Hl; [subst; by rewrite acquire_ok by inl|]. rewrite decide_False by apply Hlk.
  rewrite bind_acquire by (simpl; inl). rewrite bind_acquire by (pose proof (Hlk q); simpl; inl).
  apply release_third; [apply Hlk|done].
Qed.

Lemma place_front k q s lv p : sched_inv k q s lv p → ¬ idles s p → front lv p.
Proof.
  intros J Hn. destruct (si_place _ _ _ _ _ J) as [|[Hi _]]; [done|].
  exfalso. apply Hn. by eapply list_elem_of_lookup_2.
Qed.

(** Giving up the processor in state [st]. *)
Lemma block_spec c k q s lv p pr st kk :
  sched_inv k q s lv p → held c = [LkRq q] → procs s !! p = Some pr → ¬ idles s p →
  st = SLEEPING ∧ kont_ok q kk ∨ st = ZOMBIE →
  ∃ c' s' lv' n, schedule kk c (set_procs s (<[p := set_state pr st]> (procs s))) = Ok () c' s' ∧
    sched_inv k q s' lv' n ∧ quiet c' ∧ n ≠ p ∧ ∀ x, x ∈ queued lv' ↔ x ∈ queued lv ∧ x ≠ p.
Proof.
  intros J Hh Hp Hn Hst. pose proof (place_front _ _ _ _ _ J Hn) as Hf.
  assert (St : st ≠ RUNNING ∧ st ≠ RUNNABLE) by (destruct Hst as [[-> _]| ->]; done).
  pose proof (run_inv_pause _ _ _ _ _ _ (set_state pr st) (si_run _ _ _ _ _ J) Hp eq_refl ltac:(apply St) ltac:(done)) as P.
  simpl in P. rewrite decide_False in P by apply St.
  destruct (schedule_blocked c k q _ lv p kk (set_state pr st) P Hh)
    as (c' & s' & lv' & n & E & J' & Hq & Hne & (nk & Hnk & Hko) & _); try done.
  - simpl. by rewrite list_lookup_insert_eq by (by eapply lookup_lt_Some).
  - apply St.
  - simpl. intros ->. by destruct Hst as [[_ ?]|].
  - exists c', s', lv', n. split; [done|]. split; [done|]. split; [by eapply kont_quiet|done].
Qed.

Lemma proc_sleep_spec c k q s lv p ch lk :
  sched_inv k q s lv p → held c = [lk] → (∀ q', lk ≠ LkRq q') → ¬ idles s p →
  ∃ c' s' lv' n, proc_sleep ch (Some lk) c s = Ok () c' s' ∧ sched_inv k q s' lv' n ∧ quiet c' ∧
    n ≠ p ∧ ∀ x, x ∈ queued lv' ↔ x ∈ queued lv ∧ x ≠ p.
Proof.
  intros J Hh Hlk Hn. pose proof (si_run _ _ _ _ _ J) as I. destruct (ru_running _ _ _ _ _ I) as (pr & Hp & _).
  pose proof (sched_inv_update _ _ _ _ _ p pr (set_chan pr ch) J Hp eq_refl eq_refl) as J1.
  set (s1 := set_procs s _) in *.
  assert (Hp1 : procs s1 !! p = Some (set_chan pr ch)) by (simpl; by rewrite list_lookup_insert_eq by (by eapply lookup_lt_Some)).
  unfold proc_sleep. rewrite (cp_bind _ _ _ _ (ru_cur _ _ _ _ _ I)).
  erewrite bind_Ok; [eapply (block_spec (KCtx [LkRq q] (woken c)) k q s1); try done; by left|].
  unfold sleep_enter. rewrite (my_rq_bind (ru_rq _ _ _ _ _ I)).
  destruct (sleep_locks c s q lk Hh Hlk) as (h & -> & E0). rewrite (bind_Ok _ _ _ _ _ _ _ E0).
  rewrite (bind_Ok _ _ _ _ _ _ _ (at_cp_run _ _ _ _ _ (ru_cur _ _ _ _ _ I) Hp)).
  rewrite (bind_Ok _ _ _ _ _ _ _ (at_cp_run _ _ _ _ _ (ru_cur _ _ _ _ _ (si_run _ _ _ _ _ J1)) Hp1)).
  by apply release_second.
Qed.

(** ** Making a process runnable *)
Lemma lower_push lv x : lower_empty lv → lower_empty (push x lv).
Proof. intros H i l. destruct lv as [|l0 t]; [done|]. apply (H i l). Qed.

Lemma make_runnable c k q s lv p x pr kx :
  sched_inv k q s lv p → LkRq q ∈ held c → procs s !! x = Some pr → ¬ active (p_state pr) →
  ¬ idles s x → konts s !! x = Some kx → kont_ok q kx →
  ∃ s', enqueue_proc q x c (set_procs s (<[x := set_state pr RUNNABLE]> (procs s))) = Ok () c s' ∧
    sched_inv k q s' (push x lv) p ∧
    rq_frame (set_procs s (<[x := set_state pr RUNNABLE]> (procs s))) s'.
Proof.
  intros [[R S I C (prp & Hpp & Stp) One K] Pl] Hh Hx Hna Hni Hkx Hok.
  set (s1 := set_procs s _). assert (Hlt : x < length (procs s)) by (by eapply lookup_lt_Some).
  assert (Hxq : x ∉ queued lv) by (by rewrite (so_queued _ _ _ S x pr)).
  assert (Hxp : x ≠ p) by (intros ->; simplify_eq; apply Hna; by right).
  assert (R1 : rq_inv k q s1 lv) by (by eapply rq_inv_update).
  destruct (enqueue_proc_spec c k q s1 lv x R1 Hh) as (s' & E & R' & F); [|done|].
  { rewrite <- (mq_len _ _ (ri_mlfq _ _ _ _ R)). done. }
  exists s'. split; [done|]. split; [|done].
  assert (Hne : lv ≠ []) by (destruct (config_head R) as (l & t & -> & _); done).
  split; [split|]; try done.
  - destruct S as [S1 S2 S3]. split.
    + intros y Hy%(frame_idles _ _ _ F). rewrite push_queued by done. intros [->|?]; [done|by eapply S1].
    + intros y pry Hy%(frame_idles _ _ _ F) Hpy. destruct (frame_state _ _ _ _ F Hpy) as (pr0 & H0 & -> & _).
      apply list_lookup_insert_Some in H0 as [(<- & <- & _)|[_ H0]]; [by left|by eapply S2].
    + intros y pry Hpy Hy _. rewrite (frame_idles _ _ _ F) in Hy. rewrite push_queued by done.
      destruct (frame_state _ _ _ _ F Hpy) as (pr0 & H0 & -> & _).
      apply list_lookup_insert_Some in H0 as [(<- & <- & _)|[Hyx H0]].
      * split; [by left|by left].
      * rewrite <- (S3 y pr0) by done. split; [intros [->|?]; done|by right].
  - by rewrite (rf_idle _ _ F), (rf_cpu _ _ F).
  - by rewrite (cur_frame _ _ F).
  - destruct (rf_procs _ _ F p prp) as (ts & rq' & Hp'); [simpl; by rewrite list_lookup_insert_ne|]. by eexists.
  - intros y pry Hy. destruct (frame_state _ _ _ _ F Hy) as (pr0 & H0 & -> & _).
    apply list_lookup_insert_Some in H0 as [(<- & <- & _)|[_ H0]]; [done|by eapply One].
  - eapply konts_frame; [|done]. destruct K as [Kl K]. split; [done|]. simpl. intros y pry Hy Hlv Hyp.
    apply list_lookup_insert_Some in Hy as [(<- & <- & _)|[_ Hy]]; [by exists kx|by eapply K].
  - rewrite (rf_idle _ _ F), (rf_cpu _ _ F). destruct Pl as [Pl|[? ?]]; [left; by apply front_push|].
    right. split; [done|by apply lower_push].
Qed.

(** ** Wakeup *)
Definition wakes (s : schst) (ch : chan_id) (y : nat) : bool :=
  match procs s !! y with
  | Some pr => bool_decide (p_state pr = SLEEPING ∧ p_chan pr = ch)
  | None => false
  end.

(** [s'] is [s] with the processes of [l] that sleep on [ch] made runnable. *)
Record woke (ch : chan_id) (l : list nat) (s s' : schst) : Prop := {
  wk_procs y pr : procs s !! y = Some pr → ∃ ts rq',
    procs s' !! y = Some (set_rq (set_timeslice
      (if decide (y ∈ l ∧ wakes s ch y = true) then set_state pr RUNNABLE else pr) ts) rq');
  wk_len : length (procs s') = length (procs s);
  wk_idle : idleproc s' = idleproc s;
  wk_init : initproc s' = initproc s;
  wk_cpus : cpus s' = cpus s;
  wk_cpu : cpu_id s' = cpu_id s
}.

Lemma woke_state ch l s s' y pr' :
  woke ch l s s' → procs s' !! y = Some pr' → ∃ pr, procs s !! y = Some pr ∧
    p_chan pr' = p_chan pr ∧ p_parent pr' = p_parent pr ∧
    p_state pr' = if decide (y ∈ l ∧ wakes s ch y = true) then RUNNABLE else p_state pr.
Proof.
  intros W Hy. destruct (lookup_lt_is_Some_2 (procs s) y) as [pr Hpr].
  { rewrite <- (wk_len _ _ _ _ W). by eapply lookup_lt_Some. }
  destruct (wk_procs _ _ _ _ W _ _ Hpr) as (ts & rq' & E). rewrite E in Hy. simplify_eq.
  exists pr. split_and!; [done|by case_decide..].
Qed.

Lemma woke_nil ch s : woke ch [] s s.
Proof.
  split; try done. intros y pr Hy. rewrite decide_False by (intros [? _]; by eapply not_elem_of_nil).
  exists (p_timeslice pr), (p_rq pr). by rewrite set_rq_timeslice_id.
Qed.

Lemma woke_app ch l1 l2 s1 s2 s3 :
  woke ch l1 s1 s2 → woke ch l2 s2 s3 → woke ch (l1 ++ l2) s1 s3.
Proof.
  intros W1 W2. destruct W1 as [A1 A2 A3 A4 A5 A6] eqn:?, W2 as [B1 B2 B3 B4 B5 B6]. split; try congruence.
  intros y pr Hy. destruct (A1 y pr Hy) as (ts & rq' & Hy2). destruct (B1 _ _ Hy2) as (ts2 & rq2 & Hy3).
  exists ts2, rq2. rewrite Hy3. f_equal.
  assert (Hw : wakes s2 ch y = true ↔ wakes s1 ch y = true ∧ y ∉ l1).
  { unfold wakes at 1. rewrite Hy2. rewrite bool_decide_eq_true.
    destruct (decide (y ∈ l1 ∧ wakes s1 ch y = true)) as [Hd|Hd]; [split; [by intros [? _]|tauto]|].
    unfold wakes in *. rewrite Hy, bool_decide_eq_true in *. simpl. tauto. }
  destruct pr. repeat case_decide; simpl in *; try done; exfalso; rewrite ?elem_of_app in *;
    destruct (decide (y ∈ l1)); tauto.
Qed.

Lemma wakeup1_proc_spec c k q s lv p ch x :
  sched_inv k q s lv p → LkRq q ∈ held c → x < NPROC →
  ∃ s', wakeup1_proc ch x c s = Ok () c s' ∧ woke ch [x] s s' ∧
    sched_inv k q s' (if wakes s ch x then push x lv else lv) p.
Proof.
  intros J Hh Hlt. pose proof (si_run _ _ _ _ _ J) as I. pose proof (ru_rq _ _ _ _ _ I) as R.
  destruct (lookup_lt_is_Some_2 (procs s) x) as [pr Hx]; [by rewrite (mq_len _ _ (ri_mlfq _ _ _ _ R))|].
  unfold wakeup1_proc. rewrite (get_proc_at_bind _ _ _ _ _ Hx).
  assert (Hw : wakes s ch x = bool_decide (p_state pr = SLEEPING ∧ p_chan pr = ch)) by (unfold wakes; by rewrite Hx).
  destruct (decide (p_state pr = SLEEPING ∧ p_chan pr = ch)) as [Hd|Hd];
    [rewrite (bool_decide_true _ Hd) in Hw|rewrite (bool_decide_false _ Hd) in Hw]; rewrite Hw.
  - rewrite (bind_Ok _ _ _ _ _ _ _ (at_proc_run _ _ _ _ _ Hx)). destruct Hd as [Hs Hc].
    rewrite (my_rq_bind (rq_inv_update _ _ _ _ _ _ (set_state pr RUNNABLE) R Hx eq_refl)).
    destruct (ru_konts _ _ _ _ _ I) as [_ K].
    assert (x ≠ p) by (intros ->; destruct (ru_running _ _ _ _ _ I) as (? & ? & ?); simplify_eq; congruence).
    destruct (K x pr Hx) as (kx & Hkx & Hok); [by left|congruence|].
    destruct (make_runnable c k q s lv p x pr kx J Hh Hx) as (s' & E & J' & F); try done.
    { rewrite Hs. by intros [?|?]. }
    { intros Hid. destruct (so_idle_active _ _ _ (ru_states _ _ _ _ _ I) x pr Hid Hx); congruence. }
    exists s'. split; [done|]. split; [|done]. destruct F as [F1 F2 F3 F4 F5 F6 F7 F8 F9 F10]. split; try done.
    + intros y pry Hy. destruct (decide (y = x)) as [->|Hne].
      * simplify_eq. rewrite decide_True by (split; [inl|done]). apply F3. simpl.
        by rewrite list_lookup_insert_eq by (by eapply lookup_lt_Some).
      * rewrite decide_False by inl. apply F3. simpl. by rewrite list_lookup_insert_ne.
    + by rewrite F2; simpl; rewrite length_insert.
  - exists s. split; [done|]. split; [|done]. split; try done. intros y pry Hy.
    rewrite decide_False by (intros [?%list_elem_of_singleton ?]; congruence).
    exists (p_timeslice pry), (p_rq pry). by rewrite set_rq_timeslice_id.
Qed.

Lemma wakeup_loop_spec c k q ch p l : ∀ s lv,
  sched_inv k q s lv p → LkRq q ∈ held c → Forall (λ x, x < NPROC) l → NoDup l →
  ∃ s', for_each l (wakeup1_proc ch) c s = Ok () c s' ∧ woke ch l s s' ∧
    sched_inv k q s' (pushes (filter (λ y, wakes s ch y = true) l) lv) p.
Proof.
  induction l as [|x l IH]; intros s lv J Hh Hl ND; simpl.
  { exists s. split_and!; [done|apply woke_nil|done]. }
  apply Forall_cons in Hl as [Hx Hl]. apply NoDup_cons in ND as [Hxl ND].
  destruct (wakeup1_proc_spec c k q s lv p ch x J Hh Hx) as (s1 & E1 & W1 & J1).
  destruct (IH s1 _ J1 Hh Hl ND) as (s2 & E2 & W2 & J2).
  exists s2. rewrite (bind_Ok _ _ _ _ _ _ _ E1). split; [done|]. split; [by apply (woke_app ch [x] l s s1 s2)|].
  assert (Hf : filter (λ y, wakes s1 ch y = true) l = filter (λ y, wakes s ch y = true) l).
  { apply filter_ext. intros y Hy. assert (y ≠ x) by congruence.
    unfold wakes. destruct (procs s !! y) as [pry|] eqn:Hpy.
    - destruct (wk_procs _ _ _ _ W1 _ _ Hpy) as (ts & rq' & ->). by rewrite decide_False by inl.
    - destruct (procs s1 !! y) eqn:Hp1; [|done]. apply lookup_lt_Some in Hp1.
      apply lookup_ge_None in Hpy. rewrite (wk_len _ _ _ _ W1) in Hp1. lia. }
  rewrite Hf in J2. rewrite filter_cons. destruct (wakes s ch x); [by rewrite decide_True|by rewrite decide_False].
Qed.

Lemma seq_NPROC : Forall (λ x, x < NPROC) (seq 0 NPROC) ∧ NoDup (seq 0 NPROC).
Proof. split; [apply Forall_forall; intros x ?%elem_of_seq; lia|apply NoDup_seq]. Qed.

Lemma wakeup1_spec c k q s lv p ch :
  sched_inv k q s lv p → LkRq q ∈ held c →
  ∃ s', wakeup1 ch c s = Ok () c s' ∧ woke ch (seq 0 NPROC) s s' ∧
    sched_inv k q s' (pushes (filter (λ y, wakes s ch y = true) (seq 0 NPROC)) lv) p.
Proof. intros. by apply wakeup_loop_spec; try apply seq_NPROC. Qed.

Lemma proc_wakeup_spec c k q s lv p ch :
  sched_inv k q s lv p → LkProcTable ∉ held c → LkRq q ∉ held c →
  ∃ s', proc_wakeup ch c s = Ok () c s' ∧ woke ch (seq 0 NPROC) s s' ∧
    sched_inv k q s' (pushes (filter (λ y, wakes s ch y = true) (seq 0 NPROC)) lv) p.
Proof.
  intros J H1 H2. unfold proc_wakeup. destruct c as [h w]. simpl in *.
  rewrite (my_rq_bind (ru_rq _ _ _ _ _ (si_run _ _ _ _ _ J))), bind_acquire by done.
  rewrite bind_acquire by (simpl; inl). simpl. set (c1 := KCtx _ _).
  destruct (wakeup1_spec c1 k q s lv p ch J ltac:(by left)) as (s' & E & W & J').
  exists s'. rewrite (bind_Ok _ _ _ _ _ _ _ E). split; [|done].
  unfold c1. rewrite bind_release by inl. by rewrite release_ok.
Qed.

(** ** Fork *)
Lemma fork_tail_spec c k q s lv p np pr kx :
  sched_inv k q s lv p → LkRq q ∉ held c → procs s !! np = Some pr → p_state pr = EMBRYO →
  konts s !! np = Some kx → kont_ok q kx →
  ∃ s', fork_tail np c s = Ok (p_pid pr) c s' ∧ sched_inv k q s' (push np lv) p.
Proof.
  intros J Hh Hp St Hk Hok. pose proof (si_run _ _ _ _ _ J) as I. unfold fork_tail. destruct c as [h w]. simpl in *.
  rewrite (my_rq_bind (ru_rq _ _ _ _ _ I)), bind_acquire by done.
  rewrite (get_proc_at_bind _ _ _ _ _ Hp), (bind_Ok _ _ _ _ _ _ _ (at_proc_run _ _ _ _ _ Hp)). simpl.
  destruct (make_runnable (KCtx (LkRq q :: h) w) k q s lv p np pr kx J) as (s' & E & J' & F); try done.
  - by left.
  - rewrite St. by intros [?|?].
  - intros Hid. destruct (so_idle_active _ _ _ (ru_states _ _ _ _ _ I) np pr Hid Hp); congruence.
  - exists s'. rewrite (bind_Ok _ _ _ _ _ _ _ E). by rewrite bind_release.
Qed.

(** ** Exit *)

(** Children are handed to [init]; zombies among them wake it. *)
Lemma reparent_spec c k q s lv p x :
  sched_inv k q s lv p → LkRq q ∈ held c → x < NPROC →
  ∃ s' lv', reparent p x c s = Ok () c s' ∧ sched_inv k q s' lv' p ∧ idleproc s' = idleproc s ∧
    cpu_id s' = cpu_id s.
Proof.
  intros J Hh Hx. pose proof (ru_rq _ _ _ _ _ (si_run _ _ _ _ _ J)) as R.
  destruct (lookup_lt_is_Some_2 (procs s) x) as [pr Hp]; [by rewrite (mq_len _ _ (ri_mlfq _ _ _ _ R))|].
  unfold reparent. rewrite (get_proc_at_bind _ _ _ _ _ Hp). case_decide; [|by exists s, lv].
  rewrite kget_bind, (bind_Ok _ _ _ _ _ _ _ (at_proc_run _ _ _ _ _ Hp)).
  pose proof (sched_inv_update _ _ _ _ _ x pr (set_parent pr (initproc s)) J Hp eq_refl eq_refl) as J1.
  case_decide; [|by eexists _, lv].
  destruct (wakeup1_spec c k q _ lv p (proc_chan (initproc s)) J1 Hh) as (s' & E & W & J').
  eexists s', _. split; [done|]. split; [done|]. split; apply W.
Qed.

Lemma reparent_all c k q p l : ∀ s lv,
  sched_inv k q s lv p → LkRq q ∈ held c → Forall (λ x, x < NPROC) l →
  ∃ s' lv', for_each l (reparent p) c s = Ok () c s' ∧ sched_inv k q s' lv' p ∧
    idleproc s' = idleproc s ∧ cpu_id s' = cpu_id s.
Proof.
  induction l as [|x l IH]; intros s lv J Hh Hl; simpl; [by exists s, lv|].
  apply Forall_cons in Hl as [Hx Hl].
  destruct (reparent_spec c k q s lv p x J Hh Hx) as (s1 & lv1 & E1 & J1 & I1 & C1).
  destruct (IH s1 lv1 J1 Hh Hl) as (s2 & lv2 & E2 & J2 & I2 & C2).
  exists s2, lv2. rewrite (bind_Ok _ _ _ _ _ _ _ E1). split_and!; [done..| |]; congruence.
Qed.

Lemma exit_tail_spec c k q s lv p :
  sched_inv k q s lv p → held c = [] → ¬ idles s p →
  ∃ c' s' lv' n, exit_tail c s = Ok () c' s' ∧ sched_inv k q s' lv' n ∧ quiet c' ∧ n ≠ p ∧ p ∉ queued lv'.
Proof.
  intros J Hh Hn. pose proof (si_run _ _ _ _ _ J) as I. destruct (ru_running _ _ _ _ _ I) as (pr & Hp & _).
  unfold exit_tail. destruct c as [h w]. simpl in Hh. subst h.
  rewrite (my_rq_bind (ru_rq _ _ _ _ _ I)), bind_acquire by (simpl; inl). rewrite bind_acquire by (simpl; inl). simpl.
  rewrite (cp_bind _ _ _ _ (ru_cur _ _ _ _ _ I)). autorewrite with krun.
  rewrite (get_proc_at_bind _ _ _ _ _ Hp). set (c1 := KCtx _ _).
  destruct (wakeup1_spec c1 k q s lv p (proc_chan (p_parent pr)) J ltac:(by left)) as (s1 & E1 & W1 & J1).
  rewrite (bind_Ok _ _ _ _ _ _ _ E1).
  destruct (reparent_all c1 k q p (seq 0 NPROC) s1 _ J1 ltac:(by left)) as (s2 & lv2 & E2 & J2 & I2 & C2); [apply seq_NPROC|].
  rewrite (bind_Ok _ _ _ _ _ _ _ E2). destruct (ru_running _ _ _ _ _ (si_run _ _ _ _ _ J2)) as (pr2 & Hp2 & St2).
  rewrite (bind_Ok _ _ _ _ _ _ _ (at_cp_run _ _ _ _ _ (ru_cur _ _ _ _ _ (si_run _ _ _ _ _ J2)) Hp2)).
  pose proof (sched_inv_update _ _ _ _ _ p pr2 (set_killed pr2 false) J2 Hp2 eq_refl eq_refl) as J3.
  set (s3 := set_procs s2 _) in *.
  assert (Hp3 : procs s3 !! p = Some (set_killed pr2 false)) by (simpl; by rewrite list_lookup_insert_eq by (by eapply lookup_lt_Some)).
  rewrite (bind_Ok _ _ _ _ _ _ _ (at_cp_run _ _ _ _ _ (ru_cur _ _ _ _ _ (si_run _ _ _ _ _ J3)) Hp3)).
  rewrite (bind_Ok _ _ _ _ _ _ _ (release_second (LkRq q) LkProcTable w _ ltac:(done))).
  destruct (block_spec (KCtx [LkRq q] w) k q s3 lv2 p _ ZOMBIE KExit J3 eq_refl Hp3) as (c' & s' & lv' & n & E & J' & Q & Hne & Hq).
  - unfold idles in *. simpl. by rewrite I2, (wk_idle _ _ _ _ W1).
  - by right.
  - exists c', s', lv', n. split_and!; [done..|rewrite Hq; tauto].
Qed.

(** ** Process slots *)
Lemma sched_inv_slot k q s lv p x pr pr' :
  sched_inv k q s lv p → procs s !! x = Some pr → ¬ active (p_state pr) → ¬ active (p_state pr') →
  (live (p_state pr') → live (p_state pr)) →
  sched_inv k q (set_procs s (<[x := pr']> (procs s))) lv p.
Proof.
  intros [[R [S1 S2 S3] I C (prp & Hpp & Stp) One K] Pl] Hx Hna Hna' Hl.
  assert (Hni : ¬ idles s x) by eauto.
  assert (Hxq : x ∉ queued lv) by (by rewrite (S3 x pr)).
  assert (Hxp : x ≠ p) by (intros ->; simplify_eq; apply Hna; by right).
  split; [split|]; try done; simpl.
  - by eapply rq_inv_write.
  - split; [done| |].
    + intros y pry Hi [(<- & <- & _)|[_ Hy]]%list_lookup_insert_Some; [done|eauto].
    + intros y pry [(<- & <- & _)|[_ Hy]]%list_lookup_insert_Some Hi Hn; [tauto|eauto].
  - exists prp. by rewrite list_lookup_insert_ne.
  - intros y pry [(<- & <- & _)|[_ Hy]]%list_lookup_insert_Some E; [|by eapply One].
    destruct Hna'. by right.
  - by eapply konts_write.
Qed.

Lemma sched_inv_nextpid k q s lv p v : sched_inv k q s lv p → sched_inv k q (set_nextpid s v) lv p.
Proof.
  intros [[[[] ? ? ?] [] ? ? ? ? []] ?]. by split; [split|]; try done; split.
Qed.

(** The slot found, and the process it becomes. *)
Definition embryo (pr : proc) (pid : Z) : proc := set_rq (set_pid (set_state pr EMBRYO) pid) None.

Lemma alloc_loop_spec h w k q s lv p l :
  sched_inv k q s lv p → LkProcTable ∉ h → Forall (λ x, x < NPROC) l →
  ∃ o s', alloc_loop l (KCtx (LkProcTable :: h) w) s = Ok o (KCtx h w) s' ∧ sched_inv k q s' lv p ∧
    match o with
    | Some x => ∃ pr, procs s !! x = Some pr ∧ p_state pr = UNUSED ∧
        procs s' = <[x := embryo pr (nextpid s)]> (procs s) ∧ nextpid s' = (nextpid s + 1)%Z
    | None => s' = s ∧ ∀ x pr, x ∈ l → procs s !! x = Some pr → p_state pr ≠ UNUSED
    end.
Proof.
  intros J Hh. pose proof (ru_rq _ _ _ _ _ (si_run _ _ _ _ _ J)) as R.
  induction l as [|x l IH]; intros Hl; cbn [alloc_loop].
  { exists None, s. rewrite bind_release by done. split_and!; [done..|]. intros x pr Hx. by apply elem_of_nil in Hx. }
  apply Forall_cons in Hl as [Hx Hl].
  destruct (lookup_lt_is_Some_2 (procs s) x) as [pr Hp]; [by rewrite (mq_len _ _ (ri_mlfq _ _ _ _ R))|].
  rewrite (get_proc_at_bind _ _ _ _ _ Hp). case_decide as St.
  - exists (Some x). pose proof (lookup_lt_Some _ _ _ Hp) as Hlt.
    rewrite (bind_Ok _ _ _ _ _ _ _ (at_proc_run _ _ _ _ _ Hp)), kget_bind.
    erewrite bind_Ok by (eapply at_proc_run; simpl; by apply list_lookup_insert_eq).
    rewrite kmodify_bind. simpl. rewrite list_insert_insert_eq.
    erewrite bind_Ok by (eapply at_proc_run; simpl; by apply list_lookup_insert_eq).
    rewrite bind_release by done. eexists. split; [reflexivity|]. simpl. rewrite list_insert_insert_eq. split; [|by exists pr].
    eapply (sched_inv_nextpid k q (set_procs s _)), sched_inv_slot; [done..| | |]; rewrite ?St; simpl; unfold live, active; intuition done.
  - destruct (IH Hl) as (o & s' & E & J' & Ho). exists o, s'. split; [done|]. split; [done|].
    destruct o; [done|]. destruct Ho as [-> Ho]. split; [done|]. intros y pry [->|Hy]%elem_of_cons Hpy; [|by eapply Ho].
    by simplify_eq.
Qed.

(** ** Sequences of events *)

(** What the running process, or an interrupt during it, asks of the scheduler.
    [ETick] is the end of [trap] on a timer interrupt, with the load balancing of
    the idle process; [EAlloc] is [allocproc] followed by [copyproc]'s setting of
    the saved context to [forkret]; [EAcquire] and [ERelease] are locks of other
    components. *)
Inductive event :=
| ETick | ESleep (ch : chan_id) (lk : lock_id) | EWakeup (ch : chan_id)
| EAlloc | EFork (np : nat) | EExit | EAcquire (lk : lock_id) | ERelease (lk : lock_id).

Definition run_event (e : event) : M schst unit :=
  match e with
  | ETick => timer_resched true
  | ESleep ch lk => proc_sleep ch (Some lk)
  | EWakeup ch => proc_wakeup ch
  | EAlloc => x ← allocproc; match x with Some x => set_kont x KForkret | None => mret () end
  | EFork np => _ ← fork_tail np; mret ()
  | EExit => exit_tail
  | EAcquire lk => acquire lk
  | ERelease lk => release lk
  end.

(** Interrupts are off while a lock is held; a process sleeps and exits as the
    callers in the kernel do; the idle process does neither. *)
Definition enabled (p : nat) (e : event) (c : kctx) (s : schst) : Prop :=
  match e with
  | ETick => held c = []
  | ESleep ch lk => held c = [lk] ∧ ¬ idles s p
  | EWakeup _ | EAlloc => LkProcTable ∉ held c
  | EFork np => konts s !! np = Some KForkret ∧ ∃ pr, procs s !! np = Some pr ∧ p_state pr = EMBRYO
  | EExit => held c = [] ∧ ¬ idles s p
  | EAcquire lk => held c = [] ∧ ∀ q, lk ≠ LkRq q
  | ERelease lk => held c = [lk]
  end.

Inductive event_step : kctx * schst → kctx * schst → Prop :=
| event_run e p c s c' s' :
    cur s = Some p → enabled p e c s → run_event e c s = Ok () c' s' → event_step (c, s) (c', s').

Lemma fixes_run_event e : fixes layout (run_event e).
Proof. destruct e; simpl; fixes. Qed.

Lemma quiet_rq c q : quiet c → LkRq q ∉ held c.
Proof. intros [->|(lk & -> & H)]; [inl|]. specialize (H q). inl. Qed.

Lemma sched_inv_kont k q s lv p x kx :
  sched_inv k q s lv p → kont_ok q kx → sched_inv k q (set_konts s (<[x := kx]> (konts s))) lv p.
Proof.
  intros [[R S I C St One [Kl K]] Pl] Hk. split; [split|]; try done.
  - by apply rq_inv_konts.
  - destruct S. by split.
  - split; simpl; [by rewrite length_insert|]. intros y pry Hy Hl Hn.
    destruct (K y pry Hy Hl Hn) as (ky & Hky & Hok). destruct (decide (y = x)) as [->|].
    + exists kx. by rewrite list_lookup_insert_eq by (by eapply lookup_lt_Some).
    + exists ky. by rewrite list_lookup_insert_ne.
Qed.

Lemma alloc_event_spec c k q s lv p :
  sched_inv k q s lv p → LkProcTable ∉ held c →
  ∃ s', run_event EAlloc c s = Ok () c s' ∧ sched_inv k q s' lv p.
Proof.
  intros J Hh. destruct c as [h w]. simpl in Hh. unfold run_event, allocproc.
  destruct (alloc_loop_spec h w k q s lv p (seq 0 NPROC) J Hh) as (o & s' & E & J' & _); [apply seq_NPROC|].
  erewrite bind_Ok by (rewrite bind_acquire by done; exact E).
  destruct o as [x|]; [|by exists s']. eexists. split; [reflexivity|]. by apply sched_inv_kont.
Qed.

(** Every enabled event other than that tick returns and keeps the invariant. *)
Lemma event_safe c k s lv p e :
  k ≠ sched_class_fifo → sched_inv k 0 s lv p → uniprocessor k s → quiet c → enabled p e c s →
  ¬ (e = ETick ∧ tick_faults k s lv p) → keeps k 0 (run_event e c s).
Proof.
  intros Hk J U Q En Ht. destruct e as [|ch lk|ch| |np| |lk|lk]; simpl in En.
  - apply (timer_resched_spec c k s lv p); auto.
  - destruct En as [Hh Hn].
    assert (Hlk : ∀ q', lk ≠ LkRq q') by (intros q' ->; apply (quiet_rq _ q' Q); rewrite Hh; inl).
    destruct (proc_sleep_spec c k 0 s lv p ch lk J Hh Hlk Hn) as (c' & s' & lv' & n & E & J' & Q' & _).
    by exists c', s', lv', n.
  - destruct (proc_wakeup_spec c k 0 s lv p ch J En (quiet_rq _ _ Q)) as (s' & E & _ & J').
    by eexists c, s', _, p.
  - destruct (alloc_event_spec c k 0 s lv p J En) as (s' & E & J'). by exists c, s', lv, p.
  - destruct En as (Hkn & pr & Hp & St).
    destruct (fork_tail_spec c k 0 s lv p np pr KForkret J (quiet_rq _ _ Q) Hp St Hkn Logic.I) as (s' & E & J').
    eexists c, s', _, p. split; [|by split]. simpl. by rewrite (bind_Ok _ _ _ _ _ _ _ E).
  - destruct En as [Hh Hn]. destruct (exit_tail_spec c k 0 s lv p J Hh Hn) as (c' & s' & lv' & n & E & J' & Q' & _).
    by exists c', s', lv', n.
  - destruct En as [Hh Hn]. eexists _, s, lv, p. split; [simpl; apply acquire_ok; rewrite Hh; inl|]. split; [done|].
    right. exists lk. simpl. by rewrite Hh.
  - destruct c as [h w]. simpl in En. subst h. eexists _, s, lv, p.
    split; [simpl; apply release_ok; inl|]. split; [done|by left].
Qed.

(** C1 A machine with one processor, from a state that satisfies the scheduler's
    invariant, running any sequence of timer interrupts (with the idle process's
    load balancing), sleeps, wakeups, forks, exits and lock operations.  The
    invariant (queues well formed, queued exactly when runnable, one running
    process) holds throughout, and every enabled event returns: it does not panic,
    dereference a bad pointer or fail to terminate - with one exception, which is
    exact.  Under the multi-level class a timer interrupt during the idle process
    while some process is queued dereferences a null pointer in the load balancing.
    For the simple, round-robin and multi-level classes. *)
Theorem sched_events_safe k c0 s0 lv0 p0 c s :
  k ≠ sched_class_fifo → sched_inv k 0 s0 lv0 p0 → uniprocessor k s0 → quiet c0 →
  rtc event_step (c0, s0) (c, s) →
  ∃ lv p, sched_inv k 0 s lv p ∧ quiet c ∧
    (∀ e, enabled p e c s → ¬ (e = ETick ∧ tick_faults k s lv p) →
      ∃ c' s', run_event e c s = Ok () c' s') ∧
    (enabled p ETick c s → tick_faults k s lv p → run_event ETick c s = Fault).
Proof.
  intros Hk J U Q Hr. assert (G : ∃ lv p, sched_inv k 0 s lv p ∧ uniprocessor k s ∧ quiet c).
  { remember (c0, s0) as x eqn:Ex. remember (c, s) as y eqn:Ey. revert c0 s0 lv0 p0 J U Q Ex.
    induction Hr as [x|x y' z Hs Hr IH]; intros c1 s1 lv1 p1 J U Q ->; [simplify_eq; eauto|].
    inversion Hs as [e p ? ? c' s' Hc En E]; subst.
    pose proof (ru_cur _ _ _ _ _ (si_run _ _ _ _ _ J)) as Hc'. simplify_eq.
    destruct (event_safe c1 k s1 lv1 p e Hk J U Q En) as (c2 & s2 & lv2 & n & E2 & J2 & Q2).
    { intros [-> Ht]. simpl in E. by rewrite (timer_resched_faults c1 k s1 lv1 p) in E. }
    rewrite E in E2. injection E2 as -> ->. pose proof (fixes_run_event e c1 s1) as L. rewrite E in L.
    eapply (IH eq_refl); [done|by eapply uniprocessor_layout|done..]. }
  destruct G as (lv & p & J' & U' & Q'). exists lv, p. split_and!; [done..| |].
  - intros e En Ht. destruct (event_safe c k s lv p e Hk J' U' Q' En Ht) as (c2 & s2 & _ & _ & E2 & _). eauto.
  - intros En. by apply timer_resched_faults.
Qed.
