(* ===== verification/SchedBoot.v ===== *)
(** * Boot, and the scheduler's corner cases

    [pinit] evaluated on the zeroed data segment, for each compile-time choice
    of class; the entry of a processor into its idle process; and concrete runs
    that show where the code leaves its own contract. *)
From S2P Require Import Prelude Kernel ProcData Rq SchedState SchedClass SchedSimple SchedRR.
From S2P Require Import SchedFifo SchedMLFQ Sched SchedInv SchedBalance SchedEvents.

(** ** pinit *)

(** A queue after [init_rq]. *)
Definition fresh_rq (slices : Z) (k : class_id) (nx : option nat) (sub : class_id) : rq :=
  Rq (init_nodes (replicate NPROC (RqNode None None None))) None None (Some 0) slices
    (Some k) nx (Some sub) 0.

Definition booted_rqs (cfg : class_id) : list rq :=
  match cfg with
  | sched_class_MLFQ =>
      ((λ i, fresh_rq 20 cfg (Some (i + NCPU)) sched_class_RR) <$> seq 0 NCPU) ++
      ((λ i, fresh_rq 500 cfg (Some (i + 2 * NCPU)) sched_class_RR) <$> seq 0 NCPU) ++
      replicate NCPU (fresh_rq 0 cfg None sched_class_fifo)
  | sched_class_RR => replicate NCPU (fresh_rq 100 cfg None cfg) ++ replicate (2 * NCPU) rq_zero
  | _ => replicate NCPU (fresh_rq 0 cfg None cfg) ++ replicate (2 * NCPU) rq_zero
  end.

Definition booted (cfg : class_id) (n me : nat) : schst :=
  SchSt (booted_rqs cfg) (replicate NPROC proc_zero)
    ((λ i, Cpu None context_zero (Some i)) <$> seq 0 NCPU) (replicate NCPU None) None 1
    (replicate NPROC KForkret) n me.

Lemma pinit_run cfg n me c : pinit cfg c (boot_state n me) = Ok () c (booted cfg n me).
Proof. destruct cfg; vm_compute; reflexivity. Qed.

(** The levels of processor [i] after [pinit]. *)
Definition booted_levels (cfg : class_id) (i : nat) : list level :=
  match cfg with
  | sched_class_MLFQ =>
      [Level i sched_class_RR []; Level (i + NCPU) sched_class_RR [];
       Level (i + 2 * NCPU) sched_class_fifo []]
  | k => [Level i k []]
  end.

Lemma chain_init ns n k :
  (∀ i, i < n → fnext ns (k + i) = Some (if decide (S i = n) then None else Some (S (k + i)))) →
  chain ns (if decide (n = 0) then None else Some k) (seq k n).
Proof.
  revert k. induction n as [|n IH]; intros k H; [done|]. simpl. split; [done|].
  eexists. split; [by specialize (H 0 ltac:(lia)); rewrite Nat.add_0_r in H|].
  replace (if decide (1 = S n) then None else Some (S k)) with (if decide (n = 0) then None else Some (S k))
    by (repeat case_decide; done || lia).
  apply IH. intros i Hi. replace (S k + i) with (k + S i) by lia. rewrite H by lia.
  repeat case_decide; done || lia.
Qed.

Lemma fresh_table slices k nx sub : node_table (fresh_rq slices k nx sub) [] (seq 0 NPROC) [].
Proof.
  split; try done. apply (chain_init _ NPROC 0). intros i Hi. unfold fnext, fresh_rq, init_nodes.
  cbn [nodes]. rewrite list_lookup_imap, lookup_replicate_2 by done. cbn [fmap option_fmap option_map n_next].
  repeat case_decide; done || lia.
Qed.

Lemma fresh_rep slices k nx sub : sub ≠ sched_class_MLFQ → sub_rep sub (fresh_rq slices k nx sub) [].
Proof.
  intros Hs. pose proof (fresh_table slices k nx sub) as T.
  destruct sub; try done; split; try done; exists [], (seq 0 NPROC); by split.
Qed.

Lemma booted_rq cfg i j l :
  i < NCPU → booted_levels cfg i !! j = Some l →
  ∃ slices, booted_rqs cfg !! l_q l =
      Some (fresh_rq slices cfg (l_q <$> booted_levels cfg i !! S j) (l_class l)) ∧
    l_class l ≠ sched_class_MLFQ ∧ l_procs l = [].
Proof.
  unfold NCPU. intros Hi Hl.
  destruct cfg; destruct j as [|[|[|j]]]; simplify_eq/=;
  repeat (destruct i as [|i]; [eexists _; by split_and!|]); lia.
Qed.

Lemma booted_inv cfg n me : me < NCPU → rq_inv cfg me (booted cfg n me) (booted_levels cfg me).
Proof.
  intros Hm. assert (H0 : ∃ l, booted_levels cfg me !! 0 = Some l ∧ l_q l = me) by (destruct cfg; by eexists).
  destruct H0 as (l0 & Hl0 & Hq0). destruct (booted_rq cfg me 0 l0 Hm Hl0) as (sl & Hr & _).
  split.
  - split.
    + intros i l Hi. destruct (booted_rq cfg me i l Hm Hi) as (slices & Hr' & Hk & Hp).
      eexists. split; [done|]. split; [rewrite Hp; by apply fresh_rep|]. split; [done|].
      intros l' Hi'. cbn [fresh_rq r_next]. by rewrite Hi'.
    + intros i l p Hi Hp. destruct (booted_rq cfg me i l Hm Hi) as (_ & _ & _ & E).
      rewrite E in Hp. by apply elem_of_nil in Hp.
    + destruct cfg; apply NoDup_nil_2.
    + unfold NCPU in *. destruct cfg; simpl; repeat (apply NoDup_cons; split); try apply NoDup_nil_2;
        rewrite ?elem_of_cons, ?elem_of_nil; unfold NCPU; lia.
    + done.
  - destruct cfg; simpl; by eauto.
  - rewrite Hq0 in Hr. eexists. split; [exact Hr|done].
  - unfold booted. cbn [cpus cpu_id]. rewrite list_lookup_fmap, lookup_seq_lt by done. by eexists.
Qed.

(** The state as processor [n] sees it. *)
Definition on_cpu (n : nat) (s : schst) : schst :=
  SchSt (rqs s) (procs s) (cpus s) (idleproc s) (initproc s) (nextpid s) (konts s) (ncpu s) n.

(** C23 [pinit], run on any one processor, returns and leaves each of the [NCPU]
    processors with well-formed, empty queues of the configured class, linked to each
    other and to the processor. *)
Theorem pinit_establishes cfg n me c :
  ∃ s, pinit cfg c (boot_state n me) = Ok () c s ∧
    ∀ i, i < NCPU → rq_inv cfg i (on_cpu i s) (booted_levels cfg i) ∧
      ∀ l, l ∈ booted_levels cfg i → l_procs l = [].
Proof.
  exists (booted cfg n me). split; [apply pinit_run|]. intros i Hi. split; [by apply (booted_inv cfg n i)|].
  intros l [j Hj]%list_elem_of_lookup. by destruct (booted_rq cfg i j l Hi Hj) as (_ & _ & _ & ?).
Qed.

(** ** Entering the idle process *)
Lemma runIdle_spec c k q s lv i :
  rq_inv k q s lv → states_ok s lv None → idleproc s !! cpu_id s = Some (Some i) → i < NPROC →
  (∀ x pr, procs s !! x = Some pr → p_state pr ≠ RUNNING) → konts_ok q s None → lower_empty lv →
  held c = [] → ∃ c' s', runIdle c s = Ok () c' s' ∧ sched_inv k q s' lv i ∧ quiet c'.
Proof.
  intros R S Hi Hlt Hno K Hl Hh. destruct c as [h w]. simpl in Hh. subst h.
  destruct (lookup_lt_is_Some_2 (procs s) i) as [pr Hp]; [by rewrite (mq_len _ _ (ri_mlfq _ _ _ _ R))|].
  assert (Ha : active (p_state pr)) by (eapply (so_idle_active _ _ _ S); [by eapply list_elem_of_lookup_2|done]).
  destruct K as [Kl K]. destruct (K i pr Hp) as (ki & Hki & Hok); [by right|done|].
  unfold runIdle. rewrite (my_idle_bind _ _ _ _ Hi), (my_rq_bind R), bind_acquire by (simpl; inl). simpl.
  destruct (set_curproc_run (KCtx [LkRq q] w) k q s lv (Some i) R) as (s2 & E2 & R2 & C2 & [v ->]).
  rewrite (bind_Ok _ _ _ _ _ _ _ E2). autorewrite with krun.
  rewrite (bind_Ok _ _ _ _ _ _ _ (at_proc_run _ (set_cpus s v) _ _ (λ pr, set_state pr RUNNING) Hp)).
  set (s3 := set_procs _ _).
  assert (Hg : get_kont i (KCtx [LkRq q] w) s3 = Ok ki (KCtx [LkRq q] w) s3) by (unfold get_kont; rewrite kget_bind; simpl; by rewrite Hki).
  rewrite (bind_Ok _ _ _ _ _ _ _ Hg). assert (R3 : rq_inv k q s3 lv) by (by eapply (rq_inv_update _ _ (set_cpus s v))).
  assert (Hp3 : procs s3 !! i = Some (set_state pr RUNNING)) by (simpl; by rewrite list_lookup_insert_eq by (by eapply lookup_lt_Some)).
  destruct (resume_spec (KCtx [LkRq q] w) k q s3 lv i _ ki R3 C2 Hp3 eq_refl Hok) as (c' & ch & E5 & Hc' & _).
  eexists c', _. split; [exact E5|]. split; [|by eapply kont_quiet].
  eapply (switched_inv k q s s _ lv i ki i pr (set_chan (set_state pr RUNNING) ch)); try done; eauto using rq_frame_refl.
  - split; eauto. split; [done|]. intros x prx Hx Hlx _. eauto.
  - by apply (rq_inv_update _ _ _ _ _ _ (set_chan (set_state pr RUNNING) ch) R3 Hp3).
  - simpl. by rewrite list_insert_insert_eq.
  - simpl. by rewrite list_insert_id.
Qed.

(** ** The classes implement queues *)

(** C24 sched.c: every sequence of enqueues, dequeues, yields, picks and
    load-balancing extractions whose abstract preconditions hold (no process
    enqueued twice, only queued ones dequeued, no extraction from an empty
    queue) returns with the results of the abstract queue, leaves a well-formed
    circular list with that contents, and touches nothing else but the [rq] and the time
    slice of the processes it enqueues. *)
Theorem simple_refines_queue ops c s q r ps obs ps' :
  rqs s !! q = Some r → ring_queue r ps → NoDup ps → length (procs s) = NPROC →
  abs_run (λ p ps, cut_after p ps []) (λ _ _, true) ops ps = Some (obs, ps') →
  ∃ s' r', conc_run simple_ops q ops c s = Ok obs c s' ∧ rqs s' !! q = Some r' ∧
    ring_queue r' ps' ∧ NoDup ps' ∧ same_cfg r r' ∧ sched_frame q (enqueued ops) s s'.
Proof. apply run_ops_refines. Qed.

(** C25 sched_RR.c: every sequence of enqueues, dequeues, yields, picks and
    load-balancing extractions whose abstract preconditions hold (no process
    enqueued twice, only queued ones dequeued, no extraction from an empty
    queue) returns with the results of the abstract queue, in which a dequeued
    process leaves the order of the others unchanged, leaves a well-formed circular
    list with that contents, and touches nothing else but the [rq] and the time slice of
    the processes it enqueues. *)
Theorem RR_refines_queue ops c s q r ps obs ps' :
  rqs s !! q = Some r → ring_queue r ps → NoDup ps → length (procs s) = NPROC →
  abs_run drop_proc (λ _ _, true) ops ps = Some (obs, ps') →
  ∃ s' r', conc_run RR_ops q ops c s = Ok obs c s' ∧ rqs s' !! q = Some r' ∧
    ring_queue r' ps' ∧ NoDup ps' ∧ same_cfg r r' ∧ sched_frame q (enqueued ops) s s'.
Proof. apply run_ops_refines. Qed.

(** sched_fifo.c: the same for the first-in first-out queue, as long as the
    last of several processes is not dequeued and a queue of several does not
    yield. *)
Theorem fifo_refines_queue ops c s q r ps obs ps' :
  rqs s !! q = Some r → fifo_queue r ps → NoDup ps → length (procs s) = NPROC →
  abs_run drop_proc fifo_ok ops ps = Some (obs, ps') →
  ∃ s' r', conc_run fifo_ops q ops c s = Ok obs c s' ∧ rqs s' !! q = Some r' ∧
    fifo_queue r' ps' ∧ NoDup ps' ∧ same_cfg r r' ∧ sched_frame q (enqueued ops) s s'.
Proof. apply run_ops_refines. Qed.

(** ** Where the code leaves the contract *)
Definition no_locks : kctx := KCtx [] [].
Definition result {S A} (o : outcome S A) : option A :=
  match o with Ok a _ _ => Some a | _ => None end.
Definition final {S A} (o : outcome S A) : option S :=
  match o with Ok _ _ s => Some s | _ => None end.

(** sched_fifo.c [dequeue_proc_fifo] does not move [last_to_run] when it
    removes the last of several processes: the next process enqueued is linked
    behind a free node and is never picked (the queue reports that it is empty
    although process 3 was enqueued and not dequeued). *)
Theorem fifo_dequeue_last_loses_process :
  result (conc_run fifo_ops 0 [QEnqueue 1; QEnqueue 2; QDequeue 2; QEnqueue 3; QDequeue 1; QPick]
    no_locks (booted sched_class_fifo 1 0)) = Some [None] ∧
  abs_run drop_proc (λ _ _, true) [QEnqueue 1; QEnqueue 2; QDequeue 2; QEnqueue 3; QDequeue 1; QPick] []
    = Some ([Some 3], [3]).
Proof. by split; vm_compute. Qed.

(** sched_fifo.c [yield_proc_fifo] leaves the list circular: after both
    processes have been dequeued again, the queue still hands out process 2. *)
Theorem fifo_yield_keeps_freed_process :
  result (conc_run fifo_ops 0 [QEnqueue 1; QEnqueue 2; QYield; QDequeue 2; QDequeue 1; QPick]
    no_locks (booted sched_class_fifo 1 0)) = Some [Some 2] ∧
  abs_run drop_proc (λ _ _, true) [QEnqueue 1; QEnqueue 2; QYield; QDequeue 2; QDequeue 1; QPick] []
    = Some ([None], []).
Proof. by split; vm_compute. Qed.

(** sched_MLFQ.c [load_balance_MLFQ] asks every level of the busiest
    processor for processes; sched_RR.c [get_proc_RR] reads
    [rq->next_to_run->next] without looking whether the level is empty: with one
    process in the system, balancing goes through a null pointer. *)
Theorem load_balance_reads_null :
  (x ← final (enqueue_proc_MLFQ sub_ops 1 5 no_locks (booted sched_class_MLFQ 2 0));
   Some (load_balance_MLFQ sub_ops 0 no_locks x)) = Some Fault.
Proof. by vm_compute. Qed.

(** proc.c [kill] calls [enqueue_proc] without the run-queue lock: killing a
    sleeping process panics the kernel. *)
Theorem kill_sleeping_panics c s q p pr pid :
  LkProcTable ∉ held c → LkRq q ∉ held c →
  (∃ cu, cpus s !! cpu_id s = Some cu ∧ cpu_rq cu = Some q) →
  p < NPROC → procs s !! p = Some pr → p_pid pr = pid → p_state pr = SLEEPING →
  (∀ i pri, i < p → procs s !! i = Some pri → p_pid pri ≠ pid) →
  length (procs s) = NPROC →
  ∃ s', kill pid c s = Panic "enqueue_proc no lock" s'.
Proof.
  intros H1 H2 (cu & Hcu & Hq) Hlt Hp Hpid St Hfirst Hlen. unfold kill. rewrite bind_acquire by done.
  assert (Hl : ∀ n, n ≤ p → p < n + (NPROC - n)) by lia.
  assert (G : ∀ n, n ≤ p → kill_loop pid (seq n (NPROC - n)) (KCtx (LkProcTable :: held c) (woken c)) s =
    kill_loop pid (seq p (NPROC - p)) (KCtx (LkProcTable :: held c) (woken c)) s).
  { intros n Hn. remember (p - n) as d eqn:Ed. revert n Hn Ed. induction d as [|d IH]; intros n Hn Ed.
    { by replace n with p by lia. }
    rewrite <- (IH (S n)) by lia. replace (NPROC - n) with (S (NPROC - S n)) by lia. cbn [seq kill_loop].
    destruct (lookup_lt_is_Some_2 (procs s) n) as [pn Hpn]; [lia|].
    rewrite (get_proc_at_bind _ _ _ _ _ Hpn). by rewrite decide_False by (eapply Hfirst; [|done]; lia). }
  specialize (G 0 ltac:(lia)). rewrite Nat.sub_0_r in G. rewrite G.
  replace (NPROC - p) with (S (NPROC - S p)) by lia. cbn [seq kill_loop].
  rewrite (get_proc_at_bind _ _ _ _ _ Hp), decide_True by done.
  rewrite (bind_Ok _ _ _ _ _ _ _ (at_proc_run _ _ _ _ _ Hp)).
  eexists. apply bind_Panic. rewrite decide_True by done.
  erewrite bind_Ok by (eapply at_proc_run; simpl; by rewrite list_lookup_insert_eq by (by eapply lookup_lt_Some)).
  unfold my_rq, get_cpu. erewrite (bind_Ok _ _ _ _ q);
    [|unfold mbind, M_bind, deref; simpl; rewrite Hcu; simpl; rewrite Hq; reflexivity].
  unfold enqueue_proc, holding. unfold mbind at 1, M_bind at 1. simpl.
  rewrite bool_decide_false by inl. reflexivity.
Qed.

(** Two processors with sched.c's class; process 5 runs on processor 0. *)
Definition two_cpus : option schst :=
  s ← final (enqueue_proc_simple 0 5 no_locks (booted simple_sched_class 2 0));
  final ((set_curproc (Some 5);; at_proc 5 (λ pr, set_state pr RUNNING)) no_locks s).

(** proc.c [sleep] releases [proc_table_lock] before [schedule] has removed
    the process from its queue.  If processor 1 calls [wakeup] in between, it
    puts process 5 in its own queue while it is still in the queue of processor
    0, and processor 0, finding it [RUNNABLE], leaves it there: both queues now
    hand out the same process. *)
Theorem sleep_wakeup_race :
  (s0 ← two_cpus;
   s1 ← final (sleep_enter ChTicks LkTicks (KCtx [LkTicks] []) s0);
   s2 ← final (proc_wakeup ChTicks no_locks (on_cpu 1 s1));
   s3 ← final (schedule (KSleep LkTicks) (KCtx [LkRq 0] []) (on_cpu 0 s2));
   Some (result (pick_next_proc_simple 0 no_locks s3), result (pick_next_proc_simple 1 no_locks s3)))
  = Some (Some (Some 5), Some (Some 5)).
Proof. by vm_compute. Qed.

(** ** The functional behaviour of wakeup and of the choice of the next process *)

(** C26 [wakeup(chan)] makes runnable exactly the processes that sleep on [chan],
    appends them to the first level in the order of the process table, changes
    nothing else about any process but its queue and time slice, and gives back
    both locks. *)
Theorem wakeup_exact c k q s lv p ch :
  sched_inv k q s lv p → LkProcTable ∉ held c → LkRq q ∉ held c →
  ∃ s', proc_wakeup ch c s = Ok () c s' ∧
    sched_inv k q s' (pushes (filter (λ y, wakes s ch y = true) (seq 0 NPROC)) lv) p ∧
    ∀ y pr, procs s !! y = Some pr → ∃ ts rq', procs s' !! y = Some
      (set_rq (set_timeslice (if decide (p_state pr = SLEEPING ∧ p_chan pr = ch)
                              then set_state pr RUNNABLE else pr) ts) rq').
Proof.
  intros J H1 H2. destruct (proc_wakeup_spec c k q s lv p ch J H1 H2) as (s' & E & W & J').
  exists s'. split_and!; [done..|]. intros y pr Hy.
  destruct (wk_procs _ _ _ _ W y pr Hy) as (ts & rq' & E'). exists ts, rq'. rewrite E'. do 3 f_equal.
  pose proof (mq_len _ _ (ri_mlfq _ _ _ _ (ru_rq _ _ _ _ _ (si_run _ _ _ _ _ J)))) as Hlen.
  pose proof (lookup_lt_Some _ _ _ Hy) as Hlt. unfold wakes. rewrite Hy.
  assert (y ∈ seq 0 NPROC) by (apply elem_of_seq; lia).
  destruct (decide (p_state pr = SLEEPING ∧ p_chan pr = ch)) as [Hd|Hd].
  - rewrite decide_True; [done|]. by rewrite bool_decide_true.
  - rewrite decide_False; [done|]. by rewrite bool_decide_false by done; intros [_ ?].
Qed.

(** [pick_next_proc] returns the first process of the first non-empty level,
    and the processor's idle process when every level is empty; the queues are
    not changed. *)
Theorem pick_highest_level c k q s lv idle :
  rq_inv k q s lv → LkRq q ∈ held c → idleproc s !! cpu_id s = Some idle →
  ∃ s', pick_next_proc q c s =
      Ok (match first_busy lv ≫= (lv !!.) with Some l => head (l_procs l) | None => idle end) c s' ∧
    rq_inv k q s' lv.
Proof.
  intros R Hh Hi. destruct (pick_next_proc_spec c k q s lv idle R Hh Hi) as (s' & E & R' & _).
  exists s'. split; [|done]. rewrite E. f_equal. clear. induction lv as [|l t IH]; [done|].
  rewrite bind_cons. unfold first_busy. simpl. destruct (l_procs l) as [|x ps] eqn:El.
  - rewrite decide_False by tauto. simpl. rewrite IH. unfold first_busy.
    by destruct (list_find _ t) as [[j l']|].
  - rewrite decide_True by done. simpl. by rewrite El.
Qed.

(** ** Witnesses *)

(** One processor in its idle process, number 0; process 1 sleeps on the clock. *)
Definition idle_running (cfg : class_id) : schst :=
  SchSt (booted_rqs cfg)
    (<[1 := set_chan (set_state proc_zero SLEEPING) ChTicks]>
      (<[0 := set_state proc_zero RUNNING]> (replicate NPROC proc_zero)))
    (<[0 := Cpu (Some 0) context_zero (Some 0)]> (cpus (booted cfg 1 0)))
    (<[0 := Some 0]> (replicate NCPU None)) None 1 (replicate NPROC KForkret) 1 0.

Lemma idle_running_proc cfg x pr :
  procs (idle_running cfg) !! x = Some pr →
  x = 0 ∧ p_state pr = RUNNING ∨ x = 1 ∧ p_state pr = SLEEPING ∨ p_state pr = UNUSED.
Proof.
  unfold idle_running. cbn [procs].
  intros [(<- & <- & _)|[Hx Hp]]%list_lookup_insert_Some; [auto|].
  apply list_lookup_insert_Some in Hp as [(<- & <- & _)|[Hx' Hp]]; [auto|].
  apply lookup_replicate in Hp as [-> _]. auto.
Qed.

Lemma idle_running_levels cfg : (booted_levels cfg 0) ≫= l_procs = [].
Proof. by destruct cfg. Qed.

Lemma idle_running_inv cfg : sched_inv cfg 0 (idle_running cfg) (booted_levels cfg 0) 0.
Proof.
  assert (Hid : ∀ p, idles (idle_running cfg) p ↔ p = 0).
  { intros p. unfold idles. split; [|intros ->; by left]. intros [i Hi]%list_elem_of_lookup.
    apply list_lookup_insert_Some in Hi as [(_ & ? & _)|[_ Hi]]; [congruence|].
    by apply lookup_replicate in Hi as [? _]. }
  split; [split|].
  - destruct (booted_inv cfg 1 0 ltac:(unfold NCPU; lia)) as [Mq C Cl _]. split; [|done..|].
    + eapply mlfq_procs; [done..|]. intros p pr Hp. rewrite idle_running_levels in Hp. by apply elem_of_nil in Hp.
    + by eexists.
  - split.
    + intros p _. rewrite idle_running_levels. inl.
    + intros p pr ->%Hid Hp. vm_compute in Hp. simplify_eq. by right.
    + intros p pr Hp Hn _. rewrite idle_running_levels, elem_of_nil.
      destruct (idle_running_proc _ _ _ Hp) as [[-> _]|[[_ ->]| ->]]; [by destruct Hn; apply Hid|..]; unfold active; intuition done.
  - exists 0. split; [done|unfold NPROC; lia].
  - done.
  - by eexists.
  - intros x pr [[? _]|[[_ ?]|?]]%idle_running_proc; [done|congruence..].
  - split; [done|]. intros p pr Hp _ _. exists KForkret. split; [|done].
    apply lookup_replicate_2. by apply lookup_lt_Some in Hp.
  - right. split; [done|]. intros i l Hi. destruct cfg; destruct i as [|[|i]]; by simplify_eq/=.
Qed.

Definition demo_ops : list qop :=
  [QEnqueue 1; QEnqueue 2; QEnqueue 3; QYield; QPick; QDequeue 3; QGet; QPick].

Lemma simple_refines_queue_witness :
  ∃ s', conc_run simple_ops 0 demo_ops no_locks (booted simple_sched_class 1 0) =
    Ok [Some 2; Some 2; Some 1] no_locks s'.
Proof.
  destruct (simple_refines_queue demo_ops no_locks (booted simple_sched_class 1 0) 0
    (fresh_rq 0 simple_sched_class None simple_sched_class) [] [Some 2; Some 2; Some 1] [1])
    as (s' & r' & E & _).
  - reflexivity.
  - apply (fresh_rep 0 simple_sched_class None simple_sched_class). done.
  - apply NoDup_nil_2.
  - reflexivity.
  - vm_compute. reflexivity.
  - exists s'. exact E.
Defined.

Lemma RR_refines_queue_witness :
  ∃ s', conc_run RR_ops 0 demo_ops no_locks (booted sched_class_RR 1 0) =
    Ok [Some 2; Some 1; Some 2] no_locks s'.
Proof.
  destruct (RR_refines_queue demo_ops no_locks (booted sched_class_RR 1 0) 0
    (fresh_rq 100 sched_class_RR None sched_class_RR) [] [Some 2; Some 1; Some 2] [2])
    as (s' & r' & E & _).
  - reflexivity.
  - apply (fresh_rep 100 sched_class_RR None sched_class_RR). done.
  - apply NoDup_nil_2.
  - reflexivity.
  - vm_compute. reflexivity.
  - exists s'. exact E.
Defined.

Definition demo_ops_fifo : list qop :=
  [QEnqueue 1; QEnqueue 2; QEnqueue 3; QPick; QDequeue 2; QGet; QYield; QPick].

Lemma fifo_refines_queue_witness :
  ∃ s', conc_run fifo_ops 0 demo_ops_fifo no_locks (booted sched_class_fifo 1 0) =
    Ok [Some 1; Some 3; Some 1] no_locks s'.
Proof.
  destruct (fifo_refines_queue demo_ops_fifo no_locks (booted sched_class_fifo 1 0) 0
    (fresh_rq 0 sched_class_fifo None sched_class_fifo) [] [Some 1; Some 3; Some 1] [1])
    as (s' & r' & E & _).
  - reflexivity.
  - apply (fresh_rep 0 sched_class_fifo None sched_class_fifo). done.
  - apply NoDup_nil_2.
  - reflexivity.
  - vm_compute. reflexivity.
  - exists s'. exact E.
Defined.

Definition demo_mops : list mop :=
  [MEnqueue 1; MEnqueue 2; MPick; MYield; MPick; MDemote 2; MPick; MDequeue 1; MPick; MDemote 2; MPick].

Lemma MLFQ_refines_levels_witness :
  ∃ s', mlfq_conc_run 0 demo_mops no_locks (booted sched_class_MLFQ 1 0) =
    Ok [Some 1; Some 2; Some 1; Some 2; Some 2] no_locks s'.
Proof.
  destruct (MLFQ_refines_levels demo_mops no_locks (booted sched_class_MLFQ 1 0) 0
    (booted_levels sched_class_MLFQ 0) [Some 1; Some 2; Some 1; Some 2; Some 2]
    [Level 0 sched_class_RR []; Level 8 sched_class_RR []; Level 16 sched_class_fifo [2]])
    as (s' & E & _).
  - apply (ri_mlfq _ _ _ _ (booted_inv sched_class_MLFQ 1 0 ltac:(unfold NCPU; lia))).
  - split; reflexivity.
  - vm_compute. reflexivity.
  - vm_compute. reflexivity.
  - exists s'. exact E.
Defined.

Lemma pinit_establishes_witness :
  ∃ s, pinit sched_class_MLFQ no_locks (boot_state 2 1) = Ok () no_locks s ∧
    rq_inv sched_class_MLFQ 5 (on_cpu 5 s) (booted_levels sched_class_MLFQ 5).
Proof.
  destruct (pinit_establishes sched_class_MLFQ 2 1 no_locks) as (s & E & H).
  exists s. split; [exact E|]. apply H. unfold NCPU. lia.
Defined.

Lemma sched_events_safe_witness :
  uniprocessor sched_class_MLFQ (idle_running sched_class_MLFQ) ∧
  ∃ lv p, sched_inv sched_class_MLFQ 0 (idle_running sched_class_MLFQ) lv p ∧
    ∀ e, enabled p e no_locks (idle_running sched_class_MLFQ) →
      ¬ (e = ETick ∧ tick_faults sched_class_MLFQ (idle_running sched_class_MLFQ) lv p) →
      ∃ c' s', run_event e no_locks (idle_running sched_class_MLFQ) = Ok () c' s'.
Proof.
  assert (U : uniprocessor sched_class_MLFQ (idle_running sched_class_MLFQ)).
  { split; [reflexivity|]. intros _. split; reflexivity. }
  split; [exact U|].
  destruct (sched_events_safe sched_class_MLFQ no_locks (idle_running sched_class_MLFQ)
    (booted_levels sched_class_MLFQ 0) 0 no_locks (idle_running sched_class_MLFQ))
    as (lv & p & J & _ & H & _).
  - discriminate.
  - apply idle_running_inv.
  - exact U.
  - left. reflexivity.
  - apply rtc_refl.
  - exists lv, p. split; [exact J|exact H].
Defined.

Lemma kill_sleeping_panics_witness :
  ∃ s', kill 7 no_locks (set_procs (booted sched_class_MLFQ 1 0)
    (<[3 := set_pid (set_state proc_zero SLEEPING) 7]> (replicate NPROC proc_zero)))
    = Panic "enqueue_proc no lock" s'.
Proof.
  apply (kill_sleeping_panics no_locks _ 0 3 (set_pid (set_state proc_zero SLEEPING) 7) 7).
  - apply not_elem_of_nil.
  - apply not_elem_of_nil.
  - eexists. split; reflexivity.
  - unfold NPROC; lia.
  - reflexivity.
  - reflexivity.
  - reflexivity.
  - intros i pri Hi Hp. destruct i as [|[|[|i]]]; [vm_compute in Hp; injection Hp as <-; discriminate..|lia].
  - reflexivity.
Defined.

Lemma wakeup_exact_witness :
  ∃ s', proc_wakeup ChTicks no_locks (idle_running sched_class_MLFQ) = Ok () no_locks s' ∧
    sched_inv sched_class_MLFQ 0 s' [Level 0 sched_class_RR [1]; Level 8 sched_class_RR [];
      Level 16 sched_class_fifo []] 0.
Proof.
  destruct (wakeup_exact no_locks sched_class_MLFQ 0 (idle_running sched_class_MLFQ)
    (booted_levels sched_class_MLFQ 0) 0 ChTicks) as (s' & E & J & _).
  - apply idle_running_inv.
  - apply not_elem_of_nil.
  - apply not_elem_of_nil.
  - exists s'. split; [exact E|exact J].
Defined.

Lemma pick_highest_level_witness :
  ∃ s', pick_next_proc 0 (KCtx [LkRq 0] []) (idle_running sched_class_MLFQ) =
    Ok (Some 0) (KCtx [LkRq 0] []) s'.
Proof.
  destruct (pick_highest_level (KCtx [LkRq 0] []) sched_class_MLFQ 0 (idle_running sched_class_MLFQ)
    (booted_levels sched_class_MLFQ 0) (Some 0)) as (s' & E & _).
  - apply (ru_rq _ _ _ _ _ (si_run _ _ _ _ _ (idle_running_inv sched_class_MLFQ))).
  - left.
  - reflexivity.
  - exists s'. exact E.
Defined.
