(* ===== verification/Kalloc.v ===== *)
(** * The physical memory allocator (kalloc.c)

    The free list is threaded through the free pages: a run of free pages
    starts with a header [struct run].  The state is the list head and the
    headers that are in memory, by address; [memset] in [kfree] overwrites
    headers with junk like everything else.  A [struct run **] is [None] for
    [&freelist] and [Some r] for [&r->next].  Addresses are 32-bit pointers and lengths
    are of type [int]: sums of them wrap around.

    The list is shown to represent the set of free bytes by a sorted sequence
    of maximal runs; [kfree] and [kalloc] are proved to add and remove exactly
    the bytes they are asked for, as long as the memory lies below 2 GB ([MEMTOP]);
    [kfree_wraps] shows what happens at the end of the address space. *)
From S2P Require Import Prelude Kernel ProcData.
Local Open Scope Z_scope.

Record run := Run { run_next : Z; run_len : Z }.
Record kmem := KMem { freelist : Z; headers : gmap Z run }.

Definition set_freelist (v : Z) (k : kmem) : kmem := KMem v (headers k).
Definition set_headers (v : gmap Z run) (k : kmem) : kmem := KMem (freelist k) v.

(** ** Operations *)
Definition header (r : Z) : M kmem run := k ← kget; deref (headers k !! r).
Definition set_header (r : Z) (h : run) : M kmem unit :=
  kmodify (λ k, set_headers (<[r := h]> (headers k)) k).
Definition set_len (r len : Z) : M kmem unit :=
  h ← header r; set_header r (Run (run_next h) len).
Definition set_next (r nx : Z) : M kmem unit :=
  h ← header r; set_header r (Run nx (run_len h)).

(** [*rp] and [*rp = v] *)
Definition read_rp (rp : option Z) : M kmem Z :=
  match rp with
  | None => kgets freelist
  | Some r => h ← header r; mret (run_next h)
  end.
Definition write_rp (rp : option Z) (v : Z) : M kmem unit :=
  match rp with None => kmodify (set_freelist v) | Some r => set_next r v end.

(** [memset(v, 1, len)]: every header in the range becomes junk. *)
Definition junk : run := Run 0x01010101 0x01010101.
Definition fill_junk (v len : Z) : M kmem unit :=
  kmodify (λ k, set_headers (map_imap (λ a h, Some (if decide (u32 (a - v) < len) then junk else h))
    (headers k)) k).

Fixpoint kfree_loop (fuel : nat) (p len : Z) (rp : option Z) : M kmem unit :=
  match fuel with
  | O => diverge
  | S fuel =>
      let pend := u32 (p + len) in
      r ← read_rp rp;
      if decide (r ≠ 0 ∧ r ≤ pend) then
        h ← header r;
        let rend := u32 (r + run_len h) in
        if decide (r ≤ p ∧ p < rend) then panic "freeing free page"
        else if decide (pend = r) then
          set_header p (Run (run_next h) (s32 (len + run_len h)));;
          write_rp rp p
        else if decide (rend = p) then
          set_len r (s32 (run_len h + len));;
          if decide (run_next h ≠ 0 ∧ run_next h = pend) then
            h2 ← header (run_next h);
            set_len r (s32 (s32 (run_len h + len) + run_len h2));;
            set_next r (run_next h2)
          else mret ()
        else kfree_loop fuel p len (Some r)
      else
        set_header p (Run r len);;
        write_rp rp p
  end.

Definition kfree (v len : Z) : M kmem unit :=
  if decide (len ≤ 0 ∨ Z.rem len PAGE ≠ 0) then panic "kfree"
  else
    fill_junk v len;;
    acquire LkKalloc;;
    n ← kgets (λ k, S (size (headers k)));
    kfree_loop n v len None;;
    release LkKalloc.

Fixpoint kalloc_loop (fuel : nat) (n : Z) (rp : option Z) : M kmem Z :=
  match fuel with
  | O => diverge
  | S fuel =>
      r ← read_rp rp;
      if decide (r ≠ 0) then
        h ← header r;
        if decide (run_len h = n) then
          write_rp rp (run_next h);;
          release LkKalloc;;
          mret r
        else if decide (run_len h > n) then
          set_len r (s32 (run_len h - n));;
          let p := u32 (r + s32 (run_len h - n)) in
          release LkKalloc;;
          mret p
        else kalloc_loop fuel n (Some r)
      else
        release LkKalloc;;
        mret 0
  end.

Definition kalloc (n : Z) : M kmem Z :=
  if decide (Z.rem n PAGE ≠ 0 ∨ n ≤ 0) then panic "kalloc"
  else
    acquire LkKalloc;;
    f ← kgets (λ k, S (size (headers k)));
    kalloc_loop f n None.

(** [end] is the first address after the kernel image. *)
Definition kinit (kend : Z) : M kmem unit :=
  let start := Z.land (u32 (kend + PAGE)) (Z.lnot (PAGE - 1)) in
  kfree start (256 * PAGE).

(** ** The free list as a list of runs *)

(** [seg h a rs b]: following the headers from [a] passes the runs [rs], each an
    address and a length, and arrives at [b]. *)
Fixpoint seg (h : gmap Z run) (a : Z) (rs : list (Z * Z)) (b : Z) : Prop :=
  match rs with
  | [] => a = b
  | (r, l) :: rs => a = r ∧ r ≠ 0 ∧ ∃ nx, h !! r = Some (Run nx l) ∧ seg h nx rs b
  end.

(** What the two loops do to that list. *)
Fixpoint finsert (p len : Z) (rs : list (Z * Z)) : option (list (Z * Z)) :=
  match rs with
  | [] => Some [(p, len)]
  | (r, l) :: t =>
      if decide (r ≤ p + len) then
        if decide (r ≤ p ∧ p < r + l) then None
        else if decide (p + len = r) then Some ((p, len + l) :: t)
        else if decide (r + l = p) then
          match t with
          | (r2, l2) :: t2 =>
              if decide (r2 = p + len) then Some ((r, l + len + l2) :: t2)
              else Some ((r, l + len) :: t)
          | [] => Some [(r, l + len)]
          end
        else cons (r, l) <$> finsert p len t
      else Some ((p, len) :: (r, l) :: t)
  end.

Fixpoint falloc (n : Z) (rs : list (Z * Z)) : option (Z * list (Z * Z)) :=
  match rs with
  | [] => None
  | (r, l) :: t =>
      if decide (l = n) then Some (r, t)
      else if decide (l > n) then Some (r + (l - n), (r, l - n) :: t)
      else prod_map id (cons (r, l)) <$> falloc n t
  end.

(** Runs that lie below 2 GB, where neither pointers nor lengths wrap around. *)
Definition MEMTOP : Z := 2 ^ 31.
Definition low (rl : Z * Z) : Prop := 0 < rl.1 ∧ 0 < rl.2 ∧ rl.1 + rl.2 ≤ MEMTOP.

Lemma low_end r l : low (r, l) → u32 (r + l) = r + l.
Proof. unfold low, MEMTOP. simpl. intros. apply u32_small. lia. Qed.
Lemma low_len r l l' : low (r, l) → 0 ≤ l' ≤ l → s32 l' = l'.
Proof. unfold low, MEMTOP. simpl. intros. apply s32_small. lia. Qed.

(** *** Following and updating the links *)
Lemma seg_app h rs1 rs2 b : ∀ a,
  seg h a (rs1 ++ rs2) b ↔ ∃ m, seg h a rs1 m ∧ seg h m rs2 b.
Proof.
  induction rs1 as [|[r l] rs1 IH]; intros a; simpl; [naive_solver|].
  setoid_rewrite IH. naive_solver.
Qed.

Lemma seg_frame h h' rs b : ∀ a,
  (∀ r, r ∈ rs.*1 → h' !! r = h !! r) → seg h a rs b → seg h' a rs b.
Proof.
  induction rs as [|[r l] rs IH]; intros a E; simpl; [done|].
  intros (-> & Hr & nx & Hn & S). split_and!; [done..|]. exists nx. split.
  - rewrite E; [done|]. by left.
  - apply IH; [|done]. intros r' Hr'. apply E. by right.
Qed.

Lemma seg_last h rs r l b : ∀ a,
  seg h a (rs ++ [(r, l)]) b ↔ seg h a rs r ∧ r ≠ 0 ∧ h !! r = Some (Run b l).
Proof.
  intros a. rewrite seg_app. simpl. split.
  - intros (m & Hs & -> & Hr & nx & Hn & ->). done.
  - intros (Hs & Hr & Hn). exists r. split_and!; eauto.
Qed.

(** The position after the runs [pre]. *)
Definition rp_after (pre : list (Z * Z)) : option Z := fst <$> last pre.

Lemma header_run k c r h : headers k !! r = Some h → header r c k = Ok h c k.
Proof. intros H. unfold header, mbind, M_bind, deref. simpl. by rewrite H. Qed.

Lemma read_rp_run k c pre b :
  seg (headers k) (freelist k) pre b → read_rp (rp_after pre) c k = Ok b c k.
Proof.
  destruct pre as [|[r l] pre _] using rev_ind; unfold rp_after.
  - intros <-. done.
  - rewrite last_snoc, seg_last. simpl. intros (_ & _ & H).
    by rewrite (bind_Ok _ _ _ _ _ _ _ (header_run _ c _ _ H)).
Qed.

Lemma write_rp_run k c pre b v :
  seg (headers k) (freelist k) pre b → NoDup pre.*1 →
  ∃ k', write_rp (rp_after pre) v c k = Ok () c k' ∧ seg (headers k') (freelist k') pre v ∧
    ∀ r, r ∉ pre.*1 → headers k' !! r = headers k !! r.
Proof.
  destruct pre as [|[r l] pre _] using rev_ind; unfold rp_after.
  - intros _ _. by exists (set_freelist v k).
  - rewrite last_snoc, seg_last, fmap_app. simpl. intros (S & Hr & H) ND.
    apply NoDup_app in ND as (_ & ND & _).
    eexists. split; [|split].
    + unfold set_next. rewrite (bind_Ok _ _ _ _ _ _ _ (header_run _ c _ _ H)). reflexivity.
    + apply seg_last. simpl. split_and!; [|done|by rewrite lookup_insert_eq].
      eapply seg_frame; [|done]. intros r' Hr'. simpl. apply lookup_insert_ne. intros ->.
      apply (ND r' Hr'). by left.
    + intros r' Hr'. simpl. apply lookup_insert_ne. intros ->. apply Hr'. inl.
Qed.

(** Replacing what follows [pre]: first write the new nodes, then the link. *)
Lemma relink k c pre b v rs' :
  seg (headers k) (freelist k) pre b → NoDup pre.*1 → (∀ r, r ∈ rs'.*1 → r ∉ pre.*1) →
  seg (headers k) v rs' 0 →
  ∃ k', write_rp (rp_after pre) v c k = Ok () c k' ∧ seg (headers k') (freelist k') (pre ++ rs') 0.
Proof.
  intros S ND D S'. destruct (write_rp_run k c pre b v S ND) as (k' & E & Sp & F).
  exists k'. split; [done|]. apply seg_app. exists v. split; [done|].
  eapply seg_frame; [|done]. intros r Hr. auto.
Qed.

Lemma seg_insert h p x a rs b : p ∉ rs.*1 → seg h a rs b → seg (<[p := x]> h) a rs b.
Proof.
  intros Hp. apply seg_frame. intros r Hr. apply lookup_insert_ne. by intros ->.
Qed.

(** The node [r] rewritten in place. *)
Lemma seg_update h a pre r l nx t nx' l' t' :
  seg h a (pre ++ (r, l) :: t) 0 → NoDup (pre ++ (r, l) :: t).*1 → h !! r = Some (Run nx l) →
  seg h nx' t' 0 → r ∉ t'.*1 →
  seg (<[r := Run nx' l']> h) a (pre ++ (r, l') :: t') 0.
Proof.
  intros S ND H S' Hr. apply seg_app in S as (m & Sp & -> & Hr0 & nx0 & Hn & St).
  rewrite fmap_app in ND. simpl in ND. rewrite <- Permutation_middle in ND.
  apply NoDup_cons in ND as [ND _].
  apply seg_app. exists r. split; [apply seg_insert; [inl|done]|]. simpl. split_and!; [done..|].
  exists nx'. rewrite lookup_insert_eq. split; [done|]. by apply seg_insert.
Qed.

Lemma set_len_run k c r nx l l' :
  headers k !! r = Some (Run nx l) →
  set_len r l' c k = Ok () c (set_headers (<[r := Run nx l']> (headers k)) k).
Proof. intros H. unfold set_len. by rewrite (bind_Ok _ _ _ _ _ _ _ (header_run k c r _ H)). Qed.

Lemma set_next_run k c r nx l nx' :
  headers k !! r = Some (Run nx l) →
  set_next r nx' c k = Ok () c (set_headers (<[r := Run nx' l]> (headers k)) k).
Proof. intros H. unfold set_next. by rewrite (bind_Ok _ _ _ _ _ _ _ (header_run k c r _ H)). Qed.

(** The branch "r next to p": [r] grows, and swallows its successor if that
    starts where the freed memory ends. *)
Lemma grow_run k c pre r l nx t len pend :
  seg (headers k) (freelist k) (pre ++ (r, l) :: t) 0 → NoDup (pre ++ (r, l) :: t).*1 →
  headers k !! r = Some (Run nx l) → seg (headers k) nx t 0 →
  Forall low t → low (r, l + len) → 0 ≤ l + len → pend = r + (l + len) →
  ∃ k', (set_len r (s32 (l + len));;
         if decide (nx ≠ 0 ∧ nx = pend) then
           h2 ← header nx; set_len r (s32 (s32 (l + len) + run_len h2));; set_next r (run_next h2)
         else mret ()) c k = Ok () c k' ∧
    seg (headers k') (freelist k') (pre ++ match t with
      | (r2, l2) :: t2 => if decide (r2 = pend) then (r, l + len + l2) :: t2 else (r, l + len) :: t
      | [] => [(r, l + len)] end) 0.
Proof.
  intros S0 ND Hn St Lt Lr Hll Hpe. rewrite (low_len r (l + len)) by (done || lia).
  rewrite (bind_Ok _ _ _ _ _ _ _ (set_len_run k c r nx l (l + len) Hn)).
  pose proof ND as NDr. rewrite fmap_app in NDr. simpl in NDr. apply NoDup_app in NDr as (_ & _ & [NDr _]%NoDup_cons).
  set (k1 := set_headers _ k).
  assert (Hk1 : headers k1 !! r = Some (Run nx (l + len))) by apply lookup_insert_eq.
  destruct t as [|[r2 l2] t2].
  { simpl in St. subst nx. rewrite decide_False by tauto. exists k1. split; [done|]. by eapply seg_update. }
  pose proof St as (-> & Hr2 & nx2 & Hn2 & St2).
  destruct (decide (r2 = pend)) as [D5|D5].
  2: { rewrite decide_False by tauto. exists k1. split; [done|]. by eapply seg_update. }
  rewrite decide_True by done. assert (r ≠ r2) by (intros ->; apply NDr; simpl; inl).
  apply Forall_cons in Lt as [L2 _]. assert (E2 : s32 (l + len + l2) = l + len + l2).
  { apply (low_len r (l + len + l2)); unfold low in *; simpl in *; lia. }
  assert (Hk2 : headers k1 !! r2 = Some (Run nx2 l2)) by (simpl; by rewrite lookup_insert_ne).
  rewrite (bind_Ok _ _ _ _ _ _ _ (header_run k1 c r2 _ Hk2)). cbn [run_len run_next]. rewrite E2.
  rewrite (bind_Ok _ _ _ _ _ _ _ (set_len_run k1 c r _ _ _ Hk1)).
  erewrite set_next_run by (simpl; by rewrite lookup_insert_eq).
  eexists. split; [done|]. simpl. rewrite !insert_insert_eq.
  eapply (seg_update _ _ pre r l); [done..|]. intros X. apply NDr. by right.
Qed.

Lemma kfree_loop_spec c p len : ∀ rs pre b k fuel rs',
  seg (headers k) (freelist k) pre b → seg (headers k) b rs 0 → NoDup (pre ++ rs).*1 →
  p ∉ (pre ++ rs).*1 → low (p, len) → Forall low rs → (length rs < fuel)%nat → finsert p len rs = Some rs' →
  ∃ k', kfree_loop fuel p len (rp_after pre) c k = Ok () c k' ∧
    seg (headers k') (freelist k') (pre ++ rs') 0.
Proof.
  induction rs as [|[r l] t IH]; intros pre b k [|fuel] rs' Sp Sr ND Hp Lp Ls Hf; try (simpl in Hf; lia);
    (assert (Hp0 : p ≠ 0) by (destruct Lp; simpl in *; lia)); cbn [finsert kfree_loop]; rewrite (low_end p len Lp); rewrite (bind_Ok _ _ _ _ _ _ _ (read_rp_run k c pre b Sp)).
  { simpl in Sr. subst b. rewrite decide_False by tauto. intros [= <-].
    unfold set_header. rewrite kmodify_bind. rewrite app_nil_r in *.
    apply (relink (set_headers (<[p := Run 0 len]> (headers k)) k) c pre 0 p [(p, len)]); simpl; try done.
    - by apply seg_insert.
    - intros x ->%list_elem_of_singleton. done.
    - split_and!; [done..|]. exists 0. by rewrite lookup_insert_eq. }
  destruct Sr as (-> & Hr0 & nx & Hn & St). apply Forall_cons in Ls as [Lr Lt].
  assert (Hpr : p ≠ r) by (intros ->; apply Hp; rewrite fmap_app; simpl; inl).
  assert (Hpt : p ∉ t.*1) by (intros X; apply Hp; rewrite fmap_app; simpl; inl).
  assert (Hpp : p ∉ pre.*1) by (intros X; apply Hp; rewrite fmap_app; inl).
  pose proof ND as ND'. rewrite fmap_app in ND'. simpl in ND'. apply NoDup_app in ND' as (NDp & NDx & [NDr NDt]%NoDup_cons).
  assert (S0 : seg (headers k) (freelist k) (pre ++ (r, l) :: t) 0) by (apply seg_app; exists r; split; [done|]; simpl; eauto).
  destruct (decide (r ≤ p + len)) as [D1|D1].
  2: { rewrite decide_False by tauto. intros [= <-]. unfold set_header. rewrite kmodify_bind.
    apply (relink (set_headers (<[p := Run r len]> (headers k)) k) c pre r p); simpl; try done.
    - by apply seg_insert.
    - intros x [->|[->|Hx]%elem_of_cons]%elem_of_cons; [done|intros ?; by eapply NDx; [done|left]|intros ?; by eapply NDx; [done|right]].
    - split_and!; [done..|]. exists r. rewrite lookup_insert_eq. split; [done|]. split_and!; [done..|].
      exists nx. rewrite lookup_insert_ne by done. split; [done|by apply seg_insert]. }
  destruct (decide (r ≠ 0 ∧ r ≤ p + len)) as [_|D0]; [|by destruct D0].
  rewrite (bind_Ok _ _ _ _ _ _ _ (header_run k c r _ Hn)). cbn [run_len run_next]. rewrite (low_end r l Lr).
  destruct (decide (r ≤ p ∧ p < r + l)) as [D2|D2]; [done|].
  destruct (decide (p + len = r)) as [D3|D3].
  { intros [= <-]. rewrite (low_len p (len + l)) by (unfold low in *; simpl in *; lia).
    unfold set_header. rewrite kmodify_bind.
    apply (relink (set_headers (<[p := Run nx (len + l)]> (headers k)) k) c pre r p); simpl; try done.
    - by apply seg_insert.
    - intros x [->|Hx]%elem_of_cons; [done|intros ?; by eapply NDx; [done|right]].
    - split_and!; [done..|]. exists nx. rewrite lookup_insert_eq. split; [done|by apply seg_insert]. }
  destruct (decide (r + l = p)) as [D4|D4].
  2: { destruct (finsert p len t) as [t'|] eqn:Et; [|done]. intros [= <-].
    assert (rp_after (pre ++ [(r, l)]) = Some r) as <- by (unfold rp_after; by rewrite last_snoc).
    rewrite app_cons_eq in ND, Hp. rewrite (app_cons_eq pre (r, l) t').
    eapply (IH (pre ++ [(r, l)])); try done; [by apply seg_last|simpl in Hf; lia]. }
  intros E. destruct (grow_run k c pre r l nx t len (p + len) S0 ND Hn St Lt) as (k' & Ek & Sk);
    [unfold low in *; simpl in *; lia..|].
  exists k'. split; [exact Ek|]. by destruct t as [|[r2 l2] t2]; [|case_decide]; simplify_eq.
Qed.

Lemma kalloc_loop_spec h w n : ∀ rs pre b k fuel,
  seg (headers k) (freelist k) pre b → seg (headers k) b rs 0 → NoDup (pre ++ rs).*1 →
  Forall low rs → 0 < n → (length rs < fuel)%nat → LkKalloc ∉ h →
  ∃ k', kalloc_loop fuel n (rp_after pre) (KCtx (LkKalloc :: h) w) k =
      Ok (default 0 (fst <$> falloc n rs)) (KCtx h w) k' ∧
    seg (headers k') (freelist k') (pre ++ default rs (snd <$> falloc n rs)) 0.
Proof.
  induction rs as [|[r l] t IH]; intros pre b k [|fuel] Sp Sr ND Ls H0 Hf Hl; try (simpl in Hf; lia);
    cbn [falloc kalloc_loop]; rewrite (bind_Ok _ _ _ _ _ _ _ (read_rp_run k _ pre b Sp)).
  { simpl in Sr. subst b. rewrite decide_False by tauto.
    rewrite (bind_Ok _ _ _ _ _ _ _ (release_ok LkKalloc h w k Hl)). exists k. by rewrite app_nil_r. }
  pose proof Sr as (-> & Hr0 & nx & Hn & St). destruct (decide (r ≠ 0)) as [_|]; [|done].
  apply Forall_cons in Ls as [Lr Lt].
  rewrite (bind_Ok _ _ _ _ _ _ _ (header_run k _ r _ Hn)). cbn [run_len run_next].
  pose proof ND as ND'. rewrite fmap_app in ND'. simpl in ND'. apply NoDup_app in ND' as (NDp & NDx & [NDr NDt]%NoDup_cons).
  assert (S0 : seg (headers k) (freelist k) (pre ++ (r, l) :: t) 0) by (apply seg_app; eauto).
  destruct (decide (l = n)) as [->|Hne].
  { destruct (relink k (KCtx (LkKalloc :: h) w) pre r nx t Sp NDp) as (k' & Ek & Sk); [|done|].
    - intros x Hx Hp. eapply NDx; [done|by right].
    - exists k'. rewrite (bind_Ok _ _ _ _ _ _ _ Ek), (bind_Ok _ _ _ _ _ _ _ (release_ok LkKalloc h w k' Hl)). done. }
  destruct (decide (l > n)) as [Hgt|Hle].
  { rewrite (low_len r l) by (done || lia). rewrite (low_end r (l - n)) by (unfold low in *; simpl in *; lia).
    rewrite (bind_Ok _ _ _ _ _ _ _ (set_len_run k _ r nx l (l - n) Hn)).
    rewrite (bind_Ok _ _ _ _ _ _ _ (release_ok LkKalloc h w _ Hl)).
    eexists. split; [done|]. by eapply seg_update. }
  assert (rp_after (pre ++ [(r, l)]) = Some r) as <- by (unfold rp_after; by rewrite last_snoc).
  rewrite app_cons_eq in ND. simpl in Hf.
  destruct (IH (pre ++ [(r, l)]) nx k fuel) as (k' & Ek & Sk); [by apply seg_last|done..|lia|done|].
  exists k'. destruct (falloc n t) as [[p t']|]; simpl in *; rewrite <- app_assoc in Sk; done.
Qed.

(** ** The free memory *)

(** Sorted runs with a gap between any two, above [lo]. *)
Fixpoint sorted_from (lo : Z) (rs : list (Z * Z)) : Prop :=
  match rs with
  | [] => True
  | (r, l) :: rs => lo < r ∧ 0 < l ∧ (PAGE | r) ∧ (PAGE | l) ∧ sorted_from (r + l) rs
  end.

(** The free bytes. *)
Fixpoint free (rs : list (Z * Z)) (x : Z) : Prop :=
  match rs with [] => False | (r, l) :: rs => r ≤ x < r + l ∨ free rs x end.

Lemma free_above lo rs x : sorted_from lo rs → free rs x → lo < x.
Proof.
  revert lo. induction rs as [|[r l] rs IH]; intros lo; simpl; [done|].
  intros (? & ? & _ & _ & S) [?|F]; [lia|]. specialize (IH _ S F). lia.
Qed.

Lemma sorted_weaken lo lo' rs : lo' ≤ lo → sorted_from lo rs → sorted_from lo' rs.
Proof. destruct rs as [|[r l] rs]; simpl; [done|]. intros ? (? & ?). split; [lia|done]. Qed.

Lemma sorted_NoDup lo rs : sorted_from lo rs → NoDup rs.*1 ∧ ∀ r, r ∈ rs.*1 → lo < r.
Proof.
  revert lo. induction rs as [|[r l] rs IH]; intros lo; simpl.
  { split; [apply NoDup_nil_2|]. intros r Hr. by apply elem_of_nil in Hr. }
  intros (? & ? & _ & _ & S). destruct (IH _ S) as [ND Hr]. split.
  - apply NoDup_cons. split; [|done]. intros X. specialize (Hr _ X). lia.
  - intros x [->|X]%elem_of_cons; [done|]. specialize (Hr _ X). lia.
Qed.

Lemma headers_free lo rs r : sorted_from lo rs → r ∈ rs.*1 → free rs r.
Proof.
  revert lo. induction rs as [|[a l] rs IH]; intros lo; simpl; [intros _ X; by apply elem_of_nil in X|].
  intros (? & ? & _ & _ & S) [->|X]%elem_of_cons; [left; lia|right; by eapply IH].
Qed.

(** Freeing memory that is not free adds it, merging runs that touch. *)
Lemma finsert_ok p len : ∀ rs lo,
  sorted_from lo rs → lo < p → 0 < len → (PAGE | p) → (PAGE | len) →
  (∀ x, p ≤ x < p + len → ¬ free rs x) →
  ∃ rs', finsert p len rs = Some rs' ∧ sorted_from lo rs' ∧
    ∀ x, free rs' x ↔ free rs x ∨ p ≤ x < p + len.
Proof.
  induction rs as [|[r l] t IH]; intros lo S Hlo Hlen Dp Dl Hd; cbn [finsert].
  { exists [(p, len)]. simpl. split_and!; [done..|]. intros x. tauto. }
  destruct S as (H1 & H2 & D1 & D2 & S). pose proof (Hd p) as Hdp. pose proof (Hd r) as Hdr. simpl in Hdp, Hdr.
  destruct (decide (r ≤ p + len)) as [C1|C1].
  2: { exists ((p, len) :: (r, l) :: t). simpl. split_and!; try done; [lia|]. intros x. tauto. }
  destruct (decide (r ≤ p ∧ p < r + l)) as [C2|C2]; [exfalso; apply Hdp; [lia|left; lia]|].
  destruct (decide (p + len = r)) as [C3|C3].
  { exists ((p, len + l) :: t). simpl. split_and!; try done; [lia|by apply Z.divide_add_r| |].
    - replace (p + (len + l)) with (r + l) by lia. done.
    - intros x. split; [intros [?|?]|intros [[?|?]|?]]; try tauto; lia. }
  destruct (decide (r + l = p)) as [C4|C4].
  2: { destruct (decide (p < r)); [exfalso; apply Hdr; [lia|left; lia]|].
    destruct (IH (r + l) S) as (t' & E & S' & F'); try done; [lia|intros x Hx Hf; apply (Hd x Hx); by right|].
    rewrite E. exists ((r, l) :: t'). simpl. split_and!; try done. intros x. rewrite F'. tauto. }
  destruct t as [|[r2 l2] t2].
  { eexists; split; [done|]. simpl. split; [split_and!; try done; [lia|by apply Z.divide_add_r]|].
    intros x. split; [intros [?|[]]|intros [[?|[]]|?]]; lia. }
  destruct S as (H3 & H4 & D3 & D4 & S). pose proof (Hd r2) as Hd2. simpl in Hd2.
  destruct (decide (r2 = p + len)) as [C5|C5]; eexists; (split; [done|]); simpl.
  - split; [split_and!; try done; [lia|apply Z.divide_add_r; [by apply Z.divide_add_r|done]|]|].
    { replace (r + (l + len + l2)) with (r2 + l2) by lia. done. }
    intros x. split; [intros [?|?]|intros [[?|[?|?]]|?]]; try tauto; lia.
  - destruct (decide (r2 < p + len)); [exfalso; apply Hd2; lia|].
    split; [split_and!; try done; [lia|by apply Z.divide_add_r|lia]|].
    intros x. split; [intros [?|?]|intros [[?|?]|?]]; try tauto; lia.
Qed.

(** First fit: the memory comes from the first run that is long enough. *)
Lemma falloc_ok n : ∀ rs lo, 0 < n → (PAGE | n) → 0 ≤ lo → sorted_from lo rs →
  match falloc n rs with
  | Some (p, rs') => lo < p ∧ (PAGE | p) ∧ sorted_from lo rs' ∧
      (∀ x, p ≤ x < p + n → free rs x) ∧ ∀ x, free rs' x ↔ free rs x ∧ ¬ p ≤ x < p + n
  | None => Forall (λ rl, rl.2 < n) rs
  end.
Proof.
  induction rs as [|[r l] t IH]; intros lo Hn Dn Hlo; [by constructor|]. cbn [falloc].
  intros (H1 & H2 & D1 & D2 & S). pose proof (fun x => free_above _ _ x S) as Hab.
  destruct (decide (l = n)) as [->|C1]; [|destruct (decide (l > n)) as [C2|C2]].
  - split_and!; [done..|eapply sorted_weaken; [|done]; lia|simpl; auto|].
    intros x. simpl. specialize (Hab x). split; [intros F; specialize (Hab F); split; [by right|lia]|tauto].
  - assert (D3 : (PAGE | l - n)) by (by apply Z.divide_sub_r). simpl.
    split; [lia|]. split; [by apply Z.divide_add_r|]. split; [|split].
    + split_and!; try done; [lia|eapply sorted_weaken; [|done]; lia].
    + intros x Hx. left. lia.
    + intros x. specialize (Hab x). split.
      * intros [F|F]; [split; [left|]; lia|]. specialize (Hab F). split; [by right|lia].
      * intros [[F|F] Hx]; [left; lia|by right].
  - specialize (IH (r + l) Hn Dn ltac:(lia) S). destruct (falloc n t) as [[p t']|]; simpl.
    + destruct IH as (P1 & P2 & P3 & P4 & P5). split_and!; try done; [lia|auto|].
      intros x. rewrite P5. split; [intros [F|[F Hx]]; [split; [by left|lia]|split; [by right|done]]|tauto].
    + constructor; [simpl; lia|done].
Qed.

(** The allocator's state: a well-formed list of the free runs. *)
Definition allocator (k : kmem) (rs : list (Z * Z)) : Prop :=
  seg (headers k) (freelist k) rs 0 ∧ sorted_from 0 rs ∧ ∀ x, free rs x → x < MEMTOP.

Lemma sorted_low rs : ∀ lo, 0 ≤ lo → sorted_from lo rs → (∀ x, free rs x → x < MEMTOP) → Forall low rs.
Proof.
  induction rs as [|[r l] rs IH]; intros lo Hlo; simpl; [constructor|]. intros (H1 & H2 & _ & _ & S) F.
  constructor; [|eapply (IH (r + l)); [lia|done|auto]].
  pose proof (F (r + l - 1) ltac:(left; lia)). unfold low. simpl. lia.
Qed.

Lemma seg_dom h rs b : ∀ a, seg h a rs b → ∀ r, r ∈ rs.*1 → is_Some (h !! r).
Proof.
  induction rs as [|[r l] rs IH]; intros a; simpl; [intros _ r X; by apply elem_of_nil in X|].
  intros (-> & _ & nx & Hn & S) x [->|X]%elem_of_cons; [by eexists|by eapply IH].
Qed.

(** The headers in memory are enough fuel. *)
Lemma seg_fuel h a rs b : seg h a rs b → NoDup rs.*1 → (length rs < S (size h))%nat.
Proof.
  intros S ND. rewrite <- (length_fmap fst), <- size_dom. apply le_n_S.
  rewrite <- (size_list_to_set (C := gset Z)) by done. apply subseteq_size.
  intros r Hr%elem_of_list_to_set. apply elem_of_dom. by eapply seg_dom.
Qed.

Lemma pages_ok len : 0 < len → (PAGE | len) → ¬ (len ≤ 0 ∨ Z.rem len PAGE ≠ 0).
Proof. intros H D [?|X]; [lia|]. apply X. by apply Z.rem_divide. Qed.

Lemma in_block x v len : 0 < x < MEMTOP → low (v, len) → u32 (x - v) < len ↔ v ≤ x < v + len.
Proof.
  unfold low, MEMTOP, u32. simpl. intros Hx (Hv & Hl & Ht). destruct (decide (v ≤ x)) as [H|H].
  - rewrite Z.mod_small by lia. lia.
  - rewrite <- (Z.mod_add _ 1), Z.mod_small by lia. lia.
Qed.

(** Filling memory that is not free leaves the list alone. *)
Lemma fill_junk_run c k v len rs b :
  seg (headers k) (freelist k) rs b → (∀ r, r ∈ rs.*1 → ¬ v ≤ r < v + len) →
  (∀ r, r ∈ rs.*1 → 0 < r < MEMTOP) → low (v, len) →
  ∃ k', fill_junk v len c k = Ok () c k' ∧ seg (headers k') (freelist k') rs b.
Proof.
  intros S Hr Hb L. eexists. split; [done|]. simpl. eapply seg_frame; [|done].
  intros r Hin. rewrite map_lookup_imap. destruct (headers k !! r) eqn:E; [|done].
  simpl. rewrite decide_False; [done|]. rewrite (in_block r v len) by auto. auto.
Qed.

Lemma kfree_run c k rs v len :
  allocator k rs → LkKalloc ∉ held c → 0 < v → 0 < len → v + len ≤ MEMTOP → (PAGE | v) → (PAGE | len) →
  (∀ x, v ≤ x < v + len → ¬ free rs x) →
  ∃ k' rs', kfree v len c k = Ok () c k' ∧ finsert v len rs = Some rs' ∧ allocator k' rs' ∧
    ∀ x, free rs' x ↔ free rs x ∨ v ≤ x < v + len.
Proof.
  intros (S & So & Bd) Hc Hv Hl Ht Dv Dl Hd. destruct c as [h w]. simpl in Hc.
  pose proof (sorted_low rs 0 ltac:(done) So Bd) as Ls. assert (Lv : low (v, len)) by done.
  destruct (finsert_ok v len rs 0 So Hv Hl Dv Dl Hd) as (rs' & E & So' & F).
  destruct (sorted_NoDup _ _ So) as [ND _].
  assert (Hh : ∀ r, r ∈ rs.*1 → ¬ v ≤ r < v + len) by (intros r Hr X; by apply (Hd r X), (headers_free 0)).
  destruct (fill_junk_run (KCtx h w) k v len rs 0 S Hh) as (k1 & E1 & S1); [|done|].
  { intros r Hr. split; [by apply (sorted_NoDup 0 rs So)|]. by apply Bd, (headers_free 0). }
  unfold kfree. rewrite decide_False by (by apply pages_ok).
  rewrite (bind_Ok _ _ _ _ _ _ _ E1), (bind_Ok _ _ _ _ _ _ _ (acquire_ok LkKalloc (KCtx h w) k1 Hc)). simpl.
  rewrite kgets_bind.
  destruct (kfree_loop_spec (KCtx (LkKalloc :: h) w) v len rs [] (freelist k1) k1 (Datatypes.S (size (headers k1))) rs')
    as (k' & E' & S'); try done; [|by eapply seg_fuel|].
  { intros X. apply (Hd v); [lia|]. by apply (headers_free 0). }
  exists k', rs'. rewrite (bind_Ok _ _ _ _ _ _ _ E'), release_ok by done. split; [done|]. split; [done|].
  split; [|done]. split; [done|]. split; [done|]. intros x [?%Bd|?]%F; lia.
Qed.

Lemma kalloc_run c k rs n :
  allocator k rs → LkKalloc ∉ held c → 0 < n → (PAGE | n) →
  ∃ k', kalloc n c k = Ok (default 0 (fst <$> falloc n rs)) c k' ∧
    allocator k' (default rs (snd <$> falloc n rs)).
Proof.
  intros (S & So & Bd) Hc Hn Dn. destruct c as [h w]. simpl in Hc. destruct (sorted_NoDup _ _ So) as [ND _].
  pose proof (sorted_low rs 0 ltac:(done) So Bd) as Ls. unfold kalloc. rewrite decide_False by (intros [?|?]; eapply (pages_ok n); eauto).
  rewrite (bind_Ok _ _ _ _ _ _ _ (acquire_ok LkKalloc (KCtx h w) k Hc)). simpl. rewrite kgets_bind.
  destruct (kalloc_loop_spec h w n rs [] (freelist k) k (Datatypes.S (size (headers k)))) as (k' & E' & S'); try done.
  { by eapply seg_fuel. }
  exists k'. split; [exact E'|]. split; [exact S'|].
  pose proof (falloc_ok n rs 0 Hn Dn ltac:(lia) So) as F. destruct (falloc n rs) as [[p rs']|]; [|done].
  destruct F as (_ & _ & F1 & _ & F2). split; [done|]. intros x [Hx _]%F2. by apply Bd.
Qed.

(** The list is determined by the set of free bytes. *)
Lemma sorted_unique rs1 : ∀ rs2 lo, sorted_from lo rs1 → sorted_from lo rs2 →
  (∀ x, free rs1 x ↔ free rs2 x) → rs1 = rs2.
Proof.
  induction rs1 as [|[r1 l1] t1 IH]; intros [|[r2 l2] t2] lo S1 S2 E; [done|..].
  - destruct S2 as (? & ? & _). exfalso. apply (E r2). simpl. lia.
  - destruct S1 as (? & ? & _). exfalso. apply (E r1). simpl. lia.
  - destruct S1 as (A1 & A2 & _ & _ & S1), S2 as (B1 & B2 & _ & _ & S2).
    pose proof (fun x => free_above _ _ x S1) as F1. pose proof (fun x => free_above _ _ x S2) as F2.
    simpl in E. assert (r1 = r2) as <-.
    { pose proof (E r1) as E1. pose proof (E r2) as E2. specialize (F1 r2). specialize (F2 r1).
      destruct (proj1 E1) as [?|?%F2]; [left; lia|..]; destruct (proj2 E2) as [?|?%F1]; lia. }
    assert (l1 = l2) as <-.
    { pose proof (E (r1 + l1)) as E1. pose proof (E (r1 + l2)) as E2.
      specialize (F1 (r1 + l1)). specialize (F2 (r1 + l2)).
      destruct (Z.lt_trichotomy l1 l2) as [?|[?|?]]; [|done|]; exfalso.
      - destruct (proj2 E1) as [?|?%F1]; lia.
      - destruct (proj1 E2) as [?|?%F2]; lia. }
    f_equal. apply (IH t2 (r1 + l1) S1 S2). intros x. specialize (E x). specialize (F1 x). specialize (F2 x).
    destruct E as [Ea Eb]. split; intros F.
    + destruct (Ea (or_intror F)) as [?|?]; [specialize (F1 F); lia|done].
    + destruct (Eb (or_intror F)) as [?|?]; [specialize (F2 F); lia|done].
Qed.

(** The loop of [kfree] runs into the run that contains [p], whatever has been
    written over the memory from [p] on. *)
Fixpoint leads (h : gmap Z run) (a p : Z) (rs : list (Z * Z)) : Prop :=
  match rs with
  | [] => False
  | (r, l) :: rs => a = r ∧ r ≠ 0 ∧ r ≤ p ∧ ∃ hd, h !! r = Some hd ∧
      (p < u32 (r + run_len hd) ∨ hd = Run (run_next hd) l ∧ r + l < p ∧ leads h (run_next hd) p rs)
  end.

Lemma leads_junk h p len : ∀ rs lo a, 0 < len → sorted_from lo rs → free rs p → seg h a rs 0 →
  Forall low rs → low (p, len) →
  leads (map_imap (λ a h, Some (if decide (u32 (a - p) < len) then junk else h)) h) a p rs.
Proof.
  induction rs as [|[r l] t IH]; intros lo a Hl; [done|]. simpl.
  intros (A1 & A2 & _ & _ & S) F (-> & Hr & nx & Hn & Sg) [Lr Lt]%Forall_cons Lp.
  assert (Hle : r ≤ p) by (destruct F as [?|F]; [lia|]; pose proof (free_above _ _ _ S F); lia). split_and!; try done.
  rewrite map_lookup_imap, Hn. simpl. pose proof (in_block r p len) as B. unfold low, MEMTOP in *. simpl in *. case_decide as D.
  - exists junk. split; [done|left]. apply B in D; [|lia..]. simpl. rewrite u32_small; lia.
  - eexists. split; [done|]. simpl. destruct F as [F|F]; [left; rewrite u32_small; lia|right].
    split; [done|]. split; [by eapply free_above|by eapply IH].
Qed.

Lemma kfree_loop_double c p len : ∀ rs a rp k fuel, low (p, len) → Forall low rs →
  leads (headers k) a p rs → read_rp rp c k = Ok a c k → (length rs < fuel)%nat →
  kfree_loop fuel p len rp c k = Panic "freeing free page" k.
Proof.
  induction rs as [|[r l] t IH]; intros a rp k [|fuel] Lp Ls L E Hf; try done; try (simpl in Hf; lia).
  apply Forall_cons in Ls as [Lr Lt]. pose proof Lp as (_ & Hl & _). simpl in Hl.
  destruct L as (-> & Hr & Hle & hd & Hh & L). cbn [kfree_loop]. rewrite (bind_Ok _ _ _ _ _ _ _ E), (low_end p len Lp).
  rewrite decide_True by (split; [done|lia]). rewrite (bind_Ok _ _ _ _ _ _ _ (header_run k c r _ Hh)).
  destruct L as [L|(Ehd & L1 & L2)]; [by rewrite decide_True|].
  assert (run_len hd = l) as -> by (by rewrite Ehd). rewrite (low_end r l Lr).
  rewrite decide_False by lia. rewrite decide_False by lia. rewrite decide_False by lia.
  eapply IH; [done..| |simpl in Hf; lia]. simpl. by rewrite (bind_Ok _ _ _ _ _ _ _ (header_run k c r _ Hh)).
Qed.

(** ** Properties *)

(** C35 [kfree(v, len)] of whole pages that are not free and lie below 2 GB, as all the
    free memory does, returns, keeps the free list sorted and fully merged, and makes
    exactly those bytes free, with the 32-bit pointers and the [int] lengths of the code.
    The bound is needed: a block that ends at the end of the address space is put in the
    wrong place ([kfree_wraps]). *)
Theorem kfree_adds c k rs v len :
  allocator k rs → LkKalloc ∉ held c → 0 < v → 0 < len → v + len ≤ MEMTOP → (PAGE | v) → (PAGE | len) →
  (∀ x, v ≤ x < v + len → ¬ free rs x) →
  ∃ k' rs', kfree v len c k = Ok () c k' ∧ allocator k' rs' ∧
    ∀ x, free rs' x ↔ free rs x ∨ v ≤ x < v + len.
Proof.
  intros A Hc Hv Hl Ht Dv Dl Hd. destruct (kfree_run c k rs v len A Hc Hv Hl Ht Dv Dl Hd) as (k' & rs' & E & _ & A' & F).
  by exists k', rs'.
Qed.

(** [kalloc(n)] of whole pages always returns; it returns 0 only when no free
    run is long enough, and otherwise a page-aligned block that was free,
    removing exactly its bytes from the free memory. *)
Theorem kalloc_takes c k rs n :
  allocator k rs → LkKalloc ∉ held c → 0 < n → (PAGE | n) →
  ∃ p k' rs', kalloc n c k = Ok p c k' ∧ allocator k' rs' ∧
    (p = 0 ∧ rs' = rs ∧ Forall (λ rl, rl.2 < n) rs ∨
     0 < p ∧ (PAGE | p) ∧ (∀ x, p ≤ x < p + n → free rs x) ∧
     ∀ x, free rs' x ↔ free rs x ∧ ¬ p ≤ x < p + n).
Proof.
  intros A Hc Hn Dn. destruct (kalloc_run c k rs n A Hc Hn Dn) as (k' & E & A').
  pose proof (falloc_ok n rs 0 Hn Dn ltac:(lia) (proj1 (proj2 A))) as F.
  destruct (falloc n rs) as [[p rs']|]; simpl in *; eexists _, k', _; (split; [exact E|]); (split; [exact A'|]).
  - right. by destruct F as (? & ? & _ & ? & ?).
  - by left.
Qed.

(** Freeing a block right after it was allocated restores the free list run
    for run: splitting and merging are inverse to each other. *)
Theorem kalloc_kfree_roundtrip c k rs n p k1 :
  allocator k rs → LkKalloc ∉ held c → 0 < n → (PAGE | n) →
  kalloc n c k = Ok p c k1 → p ≠ 0 →
  ∃ k2, kfree p n c k1 = Ok () c k2 ∧ allocator k2 rs.
Proof.
  intros A Hc Hn Dn E Hp. destruct (kalloc_run c k rs n A Hc Hn Dn) as (k' & E' & A').
  pose proof (falloc_ok n rs 0 Hn Dn ltac:(lia) (proj1 (proj2 A))) as F.
  destruct (falloc n rs) as [[p' rs']|]; simpl in *; [|congruence]. rewrite E in E'. injection E' as <- <-.
  destruct F as (P1 & P2 & _ & P4 & P5).
  assert (Hpt : p + n ≤ MEMTOP) by (pose proof (proj2 (proj2 A) _ (P4 (p + n - 1) ltac:(lia))); lia).
  destruct (kfree_run c k1 rs' p n A' Hc P1 Hn Hpt P2 Dn) as (k2 & rs2 & E2 & _ & A2 & F2).
  { intros x Hx Hf. apply P5 in Hf. tauto. }
  exists k2. split; [done|]. replace rs with rs2; [done|]. apply (sorted_unique rs2 rs 0); [apply A2|apply A|].
  intros x. rewrite F2, P5. specialize (P4 x). destruct (decide (p ≤ x < p + n)); tauto.
Qed.

(** [kfree] of memory that is free already stops the kernel, although the
    memory has been overwritten before the check. *)
Theorem kfree_double_panics c k rs v len :
  allocator k rs → LkKalloc ∉ held c → 0 < len → v + len ≤ MEMTOP → (PAGE | len) → free rs v →
  ∃ k', kfree v len c k = Panic "freeing free page" k'.
Proof.
  intros (S & So & Bd) Hc Hl Ht Dl F. destruct (sorted_NoDup _ _ So) as [ND _].
  pose proof (sorted_low rs 0 ltac:(done) So Bd) as Ls. pose proof (free_above _ _ _ So F) as Hv.
  assert (Lv : low (v, len)) by done.
  unfold kfree. rewrite decide_False by (by apply pages_ok).
  unfold fill_junk. rewrite kmodify_bind. set (k1 := set_headers _ k).
  rewrite (bind_Ok _ _ _ _ _ _ _ (acquire_ok LkKalloc c k1 Hc)), kgets_bind.
  exists k1. apply bind_Panic. eapply kfree_loop_double; [done|done|by eapply leads_junk|done|].
  replace (size (headers k1)) with (size (headers k)); [by eapply seg_fuel|].
  rewrite <- !size_dom. f_equal. simpl. apply set_eq. intros x. rewrite !elem_of_dom, map_lookup_imap.
  destruct (headers k !! x); simpl; split; intros [? ?]; by eexists || done.
Qed.

Lemma round_page a : 0 ≤ a → Z.land a (Z.lnot (PAGE - 1)) = a - a mod PAGE.
Proof.
  intros Ha. change (PAGE - 1) with (Z.ones 12). rewrite <- Z.ldiff_land, Z.ldiff_ones_r by lia.
  rewrite Z.shiftl_mul_pow2, Z.shiftr_div_pow2 by lia. change (2 ^ 12) with PAGE.
  pose proof (Z.div_mod a PAGE ltac:(done)). lia.
Qed.

(** [kinit] leaves one free run: the 256 pages from the first page boundary
    after the kernel image. *)
Theorem kinit_establishes c kend :
  0 ≤ kend → kend + 257 * PAGE ≤ MEMTOP → LkKalloc ∉ held c →
  ∃ k start, kinit kend c (KMem 0 ∅) = Ok () c k ∧ allocator k [(start, 256 * PAGE)] ∧
    kend < start ≤ kend + PAGE ∧ (PAGE | start).
Proof.
  intros He Ht Hc. unfold kinit. rewrite u32_small by (unfold PAGE, MEMTOP in *; lia). rewrite round_page by (unfold PAGE; lia).
  set (start := kend + PAGE - (kend + PAGE) mod PAGE).
  assert (D : (PAGE | start)).
  { exists ((kend + PAGE) / PAGE). pose proof (Z.div_mod (kend + PAGE) PAGE ltac:(done)). unfold start. lia. }
  pose proof (Z.mod_pos_bound (kend + PAGE) PAGE ltac:(done)) as Hm.
  destruct (kfree_run c (KMem 0 ∅) [] start (256 * PAGE)) as (k & rs & E & Ef & A & _); try done.
  - unfold start. lia.
  - unfold start. lia.
  - by exists 256.
  - tauto.
  - exists k, start. simpl in Ef. simplify_eq. split_and!; try done; unfold start; lia.
Qed.

(** A block that ends at the end of the address space: [pend] is 0, and the block is put
    at the head of the list, before runs with lower addresses.  Freeing the page before
    one of them then does not merge the two. *)
Definition after_frees (bs : list (Z * Z)) (k : kmem) : option kmem :=
  foldl (λ o b, k ← o; match kfree b.1 b.2 (KCtx [] []) k with Ok _ _ k => Some k | _ => None end) (Some k) bs.
Definition head_run (k : kmem) : option (Z * run) := h ← headers k !! freelist k; Some (freelist k, h).

Theorem kfree_wraps :
  let k := KMem 16384 {[16384 := Run 0 8192]} in
  (after_frees [(2 ^ 32 - 4096, 4096)] k ≫= head_run) = Some (2 ^ 32 - 4096, Run 16384 4096) ∧
  (after_frees [(2 ^ 32 - 4096, 4096); (12288, 4096)] k ≫= head_run) = Some (12288, Run (2 ^ 32 - 4096) 4096).
Proof. split; vm_compute; reflexivity. Qed.

(** ** Witnesses *)
Definition no_lock : kctx := KCtx [] [].
Definition two_runs : kmem :=
  KMem 4096 (<[4096 := Run 16384 4096]> (<[16384 := Run 0 8192]> ∅)).

Lemma two_runs_ok : allocator two_runs [(4096, 4096); (16384, 8192)].
Proof.
  split; simpl.
  - split_and!; try done. exists 16384. split; [done|]. split_and!; try done. by exists 0.
  - split; [split_and!; try lia; try done; (by exists 1) || (by exists 4) || (by exists 2)|unfold MEMTOP; lia].
Qed.

Lemma kfree_adds_witness : ∃ k' rs', kfree 8192 8192 no_lock two_runs = Ok () no_lock k' ∧
  allocator k' rs' ∧ free rs' 8192.
Proof.
  destruct (kfree_adds no_lock two_runs [(4096, 4096); (16384, 8192)] 8192 8192) as (k' & rs' & E & A & F).
  - apply two_runs_ok.
  - apply not_elem_of_nil.
  - lia.
  - lia.
  - unfold MEMTOP. lia.
  - by exists 2.
  - by exists 2.
  - simpl. lia.
  - exists k', rs'. split; [exact E|]. split; [exact A|]. apply F. right. lia.
Defined.

Lemma kalloc_takes_witness : ∃ p k' rs', kalloc 8192 no_lock two_runs = Ok p no_lock k' ∧ allocator k' rs'.
Proof.
  destruct (kalloc_takes no_lock two_runs [(4096, 4096); (16384, 8192)] 8192) as (p & k' & rs' & E & A & _).
  - apply two_runs_ok.
  - apply not_elem_of_nil.
  - lia.
  - by exists 2.
  - exists p, k', rs'. split; [exact E|exact A].
Defined.

Lemma kalloc_kfree_roundtrip_witness :
  ∃ k1 k2, kalloc 4096 no_lock (KMem 16384 (<[16384 := Run 0 8192]> ∅)) = Ok 20480 no_lock k1 ∧
    kfree 20480 4096 no_lock k1 = Ok () no_lock k2.
Proof.
  eexists. destruct (kalloc_kfree_roundtrip no_lock (KMem 16384 (<[16384 := Run 0 8192]> ∅))
    [(16384, 8192)] 4096 20480 (KMem 16384 (<[16384 := Run 0 4096]> (<[16384 := Run 0 8192]> ∅)))) as (k2 & E & _).
  - split; simpl; [split_and!; try done; by exists 0|].
    split; [split_and!; try lia; try done; (by exists 4) || (by exists 2)|unfold MEMTOP; lia].
  - apply not_elem_of_nil.
  - lia.
  - by exists 1.
  - vm_compute. reflexivity.
  - discriminate.
  - exists k2. split; [vm_compute; reflexivity|]. exact E.
Defined.

Lemma kfree_double_panics_witness : ∃ k', kfree 20480 4096 no_lock two_runs = Panic "freeing free page" k'.
Proof.
  apply (kfree_double_panics no_lock two_runs [(4096, 4096); (16384, 8192)]).
  - apply two_runs_ok.
  - apply not_elem_of_nil.
  - lia.
  - unfold MEMTOP. lia.
  - by exists 1.
  - simpl. lia.
Defined.

Lemma kinit_establishes_witness : ∃ k start, kinit 1050000 no_lock (KMem 0 ∅) = Ok () no_lock k ∧
  allocator k [(start, 256 * PAGE)].
Proof.
  destruct (kinit_establishes no_lock 1050000) as (k & start & E & A & _).
  - lia.
  - unfold PAGE, MEMTOP. lia.
  - apply not_elem_of_nil.
  - exists k, start. split; [exact E|exact A].
Defined.
