(* ===== verification/Spinlock.v ===== *)
(** * Spin locks (spinlock.c)

    Two parts.  [pushcli] and [popcli] on the interrupt state of one processor:
    the nesting count restores the interrupt flag exactly.  And [acquire],
    [release] and [holding] on one lock shared by several processors, as a step
    relation in which every memory access of the code is a step of its own and
    the steps of different processors interleave freely: mutual exclusion, and
    [holding] is right about who has the lock.  The kernel monad's view of a
    lock (Kernel.v) is the one this file justifies. *)
From S2P Require Import Prelude Kernel ProcData.
Local Open Scope Z_scope.

(** ** Interrupt nesting *)

(** [ncli] and [intena] of [struct cpu], and the interrupt flag FL_IF of the
    processor. *)
Record cli_state := Cli { ncli : Z; intena : bool; iflag : bool }.

Definition pushcli : M cli_state unit :=
  s ← kget;
  let eflags := iflag s in
  kput (Cli (ncli s + 1) (if decide (ncli s = 0) then eflags else intena s) false).

Definition popcli : M cli_state unit :=
  s ← kget;
  if iflag s then panic "popcli - interruptible"
  else
    let n := ncli s - 1 in
    if decide (n < 0) then kput (Cli n (intena s) (iflag s));; panic "popcli"
    else kput (Cli n (intena s) (if decide (n = 0) then if intena s then true else false else false)).

(** [true] is [pushcli], [false] is [popcli]. *)
Fixpoint cli_run (l : list bool) : M cli_state unit :=
  match l with
  | [] => mret ()
  | b :: l => (if b then pushcli else popcli);; cli_run l
  end.

(** [balanced d l]: started [d] levels deep, no pop without a push, and all
    levels are popped at the end. *)
Fixpoint balanced (d : nat) (l : list bool) : bool :=
  match l, d with
  | [], O => true
  | [], S _ => false
  | true :: l, d => balanced (S d) l
  | false :: l, S d => balanced d l
  | false :: l, O => false
  end.

Lemma cli_run_nested l : ∀ (d : nat) b s c,
  balanced d l = true → ncli s = Z.of_nat d →
  match d with O => iflag s = b | S _ => intena s = b ∧ iflag s = false end →
  ∃ s', cli_run l c s = Ok () c s' ∧ ncli s' = 0 ∧ iflag s' = b.
Proof.
  induction l as [|[] l IH]; intros d b s c Hb Hn Hi; simpl in *.
  - destruct d; [|done]. exists s. by split_and!.
  - rewrite (bind_Ok _ _ _ _ _ _ _ (eq_refl : pushcli c s = Ok () c _)).
    apply (IH (S d) b); [done|simpl; lia|]. simpl. case_decide; destruct d; try lia; [done|by destruct Hi].
  - destruct d as [|d]; [done|]. destruct Hi as [Hia Hif].
    unfold popcli. rewrite (bind_Ok _ _ c s () c (Cli (ncli s - 1) (intena s)
      (if decide (ncli s - 1 = 0) then if intena s then true else false else false))).
    2: { rewrite kget_bind, Hif. by rewrite decide_False by lia. }
    apply (IH d b); [done|simpl; lia|]. simpl. destruct d.
    + rewrite decide_True by lia. rewrite Hia. by destruct b.
    + rewrite decide_False by lia. done.
Qed.

(** pushcli and popcli match up: any well-nested sequence of them, run with no
    level open, returns without a panic, closes all levels and leaves the
    interrupt flag as it found it, off if it was off. *)
Theorem cli_balanced l s c :
  balanced 0 l = true → ncli s = 0 →
  ∃ s', cli_run l c s = Ok () c s' ∧ ncli s' = 0 ∧ iflag s' = iflag s.
Proof. intros. by apply (cli_run_nested l 0). Qed.

Lemma cli_balanced_witness :
  ∃ s', cli_run [true; true; false; true; false; false] (KCtx [] []) (Cli 0 false true) =
    Ok () (KCtx [] []) s' ∧ ncli s' = 0 ∧ iflag s' = true.
Proof.
  apply (cli_balanced [true; true; false; true; false; false] (Cli 0 false true) (KCtx [] [])).
  - reflexivity.
  - reflexivity.
Defined.

(** ** The lock *)

(** [struct spinlock] without its debugging fields; [l_cpu] is -1 (0xffffffff)
    when no processor has it. *)
Record spinlock := Spinlock { locked : bool; l_cpu : Z }.
Definition initlock : spinlock := Spinlock false (-1).

Definition is_cpu (l : spinlock) (me : nat) : bool := bool_decide (l_cpu l = Z.of_nat me + 10).
Definition holding (l : spinlock) (me : nat) : bool := locked l && is_cpu l me.

(** Where a processor is in [acquire] or [release]; the code between them is
    [Outside] (the lock not taken) or [Inside].  [again] and [own] tell apart
    calls made inside and outside. *)
Inductive pc :=
| Outside | Inside
| AcqCheck (again : bool) (* if(holding(lock)): lock->locked *)
| AcqCpu (again : bool)   (* the same: lock->cpu == cpu() + 10 *)
| AcqXchg                 (* while(xchg(&lock->locked, 1) == 1) *)
| AcqSet                  (* lock->cpu = cpu() + 10 *)
| RelCheck (own : bool)   (* if(!holding(lock)): lock->locked *)
| RelCpu (own : bool)     (* the same: lock->cpu == cpu() + 10 *)
| RelClear                (* lock->cpu = 0xffffffff *)
| RelXchg                 (* xchg(&lock->locked, 0) *)
| Panicked (own : bool) (msg : string).

Record machine := Machine { the_lock : spinlock; pcs : list pc }.

Definition goto (m : machine) (i : nat) (l : spinlock) (p : pc) : machine :=
  Machine l (<[i := p]> (pcs m)).

(** One memory access of processor [i]. *)
Inductive lstep : machine → machine → Prop :=
| step_acquire m i (b : bool) :
    pcs m !! i = Some (if b then Inside else Outside) → lstep m (goto m i (the_lock m) (AcqCheck b))
| step_release m i (b : bool) :
    pcs m !! i = Some (if b then Inside else Outside) → lstep m (goto m i (the_lock m) (RelCheck b))
| step_acq_check m i b :
    pcs m !! i = Some (AcqCheck b) →
    lstep m (goto m i (the_lock m) (if locked (the_lock m) then AcqCpu b else AcqXchg))
| step_acq_cpu m i b :
    pcs m !! i = Some (AcqCpu b) →
    lstep m (goto m i (the_lock m) (if is_cpu (the_lock m) i then Panicked b "acquire" else AcqXchg))
| step_acq_xchg m i :
    pcs m !! i = Some AcqXchg →
    lstep m (goto m i (Spinlock true (l_cpu (the_lock m)))
      (if locked (the_lock m) then AcqXchg else AcqSet))
| step_acq_set m i :
    pcs m !! i = Some AcqSet →
    lstep m (goto m i (Spinlock (locked (the_lock m)) (Z.of_nat i + 10)) Inside)
| step_rel_check m i b :
    pcs m !! i = Some (RelCheck b) →
    lstep m (goto m i (the_lock m) (if locked (the_lock m) then RelCpu b else Panicked b "release"))
| step_rel_cpu m i b :
    pcs m !! i = Some (RelCpu b) →
    lstep m (goto m i (the_lock m) (if is_cpu (the_lock m) i then RelClear else Panicked b "release"))
| step_rel_clear m i :
    pcs m !! i = Some RelClear →
    lstep m (goto m i (Spinlock (locked (the_lock m)) (-1)) RelXchg)
| step_rel_xchg m i :
    pcs m !! i = Some RelXchg →
    lstep m (goto m i (Spinlock false (l_cpu (the_lock m))) Outside).

(** The processor has the lock; it has it and [lock->cpu] says so. *)
Definition owner (p : pc) : bool :=
  match p with
  | Inside | AcqCheck true | AcqCpu true | AcqSet | RelCheck true | RelCpu true | RelClear | RelXchg | Panicked true _ => true
  | _ => false
  end.
Definition named (p : pc) : bool :=
  match p with
  | Inside | AcqCheck true | AcqCpu true | RelCheck true | RelCpu true | RelClear | Panicked true _ => true
  | _ => false
  end.

Record lock_inv (m : machine) : Prop := {
  li_locked i p : pcs m !! i = Some p → owner p = true → locked (the_lock m) = true;
  li_one i j p p' : pcs m !! i = Some p → pcs m !! j = Some p' → owner p = true → owner p' = true → i = j;
  li_named i p : pcs m !! i = Some p → named p = true ↔ l_cpu (the_lock m) = Z.of_nat i + 10
}.

Lemma named_owner p : named p = true → owner p = true.
Proof. by destruct p as [| |[]|[]| | |[]|[]| | |[]]. Qed.

Lemma is_cpu_named m i p : lock_inv m → pcs m !! i = Some p → is_cpu (the_lock m) i = named p.
Proof.
  intros [L O N] Hi. unfold is_cpu. destruct (named p) eqn:E.
  - apply bool_decide_true. by apply (N i p Hi).
  - apply bool_decide_false. intros X. apply (N i p Hi) in X. congruence.
Qed.

Lemma holding_named m i p : lock_inv m → pcs m !! i = Some p → holding (the_lock m) i = named p.
Proof.
  intros Inv Hi. unfold holding. rewrite (is_cpu_named _ _ _ Inv Hi). destruct (named p) eqn:E; [|apply andb_false_r].
  by rewrite (li_locked _ Inv i p Hi (named_owner _ E)).
Qed.

(** Whoever finds the lock free does not have it. *)
Lemma free_not_owner m i p : lock_inv m → pcs m !! i = Some p → locked (the_lock m) = false → owner p = false.
Proof. intros Inv Hi Hf. destruct (owner p) eqn:E; [|done]. by rewrite (li_locked _ Inv i p Hi E) in Hf. Qed.

(** A step of processor [i] that keeps its claim to the lock. *)
Lemma inv_move m i p p' :
  lock_inv m → pcs m !! i = Some p → owner p' = owner p → named p' = named p →
  lock_inv (goto m i (the_lock m) p').
Proof.
  intros [L O N] Hi Eo En.
  assert (G : ∀ j q, pcs (goto m i (the_lock m) p') !! j = Some q →
    ∃ q', pcs m !! j = Some q' ∧ owner q = owner q' ∧ named q = named q').
  { intros j q [(<- & <- & _)|[_ Hq]]%list_lookup_insert_Some; eauto. }
  split; simpl.
  - intros j q (q' & Hq & -> & _)%G. by eapply L.
  - intros j k q r (q' & Hq & -> & _)%G (r' & Hr & -> & _)%G. by eapply O.
  - intros j q (q' & Hq & _ & ->)%G. by apply N.
Qed.

(** What the others know when processor [i] has the lock or nobody has. *)
Lemma inv_take m i p l p' :
  lock_inv m → pcs m !! i = Some p →
  (owner p = true ∨ locked (the_lock m) = false) →
  (owner p' = true → locked l = true) →
  (named p' = true → l_cpu l = Z.of_nat i + 10) →
  (named p' = false → l_cpu l = -1 ∨ l_cpu l = l_cpu (the_lock m) ∧ named p = false) →
  lock_inv (goto m i l p').
Proof.
  intros [L O N] Hi Hown Hl Hn Hnn.
  assert (Hoth : ∀ j q, pcs m !! j = Some q → j ≠ i → owner q = false).
  { intros j q Hj Hne. destruct (owner q) eqn:E; [|done]. exfalso.
    destruct Hown as [Ho|Hf]; [by apply Hne; eapply O|]. rewrite (L j q Hj E) in Hf. done. }
  split; simpl.
  - intros j q [(<- & <- & _)|[Hne Hj]]%list_lookup_insert_Some Ho; [by apply Hl|].
    rewrite (Hoth j q Hj) in Ho by done. done.
  - intros j k q r [(<- & <- & _)|[Hj1 Hj]]%list_lookup_insert_Some [(<- & <- & _)|[Hk1 Hk]]%list_lookup_insert_Some Hq Hr; [done|..].
    + by rewrite (Hoth k r Hk) in Hr.
    + by rewrite (Hoth j q Hj) in Hq.
    + by eapply O.
  - intros j q [(<- & <- & _)|[Hne Hj]]%list_lookup_insert_Some.
    + split; [done|]. intros E. destruct (named p') eqn:En; [done|]. exfalso.
      destruct (Hnn eq_refl) as [?|[E' Hp]]; [lia|]. rewrite E in E'.
      rewrite (proj2 (N i p Hi) (eq_sym E')) in Hp. done.
    + pose proof (Hoth j q Hj ltac:(done)) as Ho. split.
      * intros X%named_owner. congruence.
      * intros X. exfalso. destruct (named p') eqn:En; [rewrite Hn in X by done; lia|].
        destruct (Hnn eq_refl) as [?|[E' _]]; [lia|]. rewrite X in E'. symmetry in E'. apply (N j q Hj) in E'.
        apply named_owner in E'. congruence.
Qed.

Lemma lock_inv_step m m' : lock_inv m → lstep m m' → lock_inv m'.
Proof.
  intros Inv St. pose proof (is_cpu_named m) as Cpu. pose proof (free_not_owner m) as Free.
  destruct St as [m i [] Hi|m i [] Hi|m i b Hi|m i b Hi|m i Hi|m i Hi|m i b Hi|m i b Hi|m i Hi|m i Hi];
    try (by eapply inv_move; [done|exact Hi|..]).
  - destruct (locked _) eqn:E; [by destruct b; eapply inv_move; [done|exact Hi|..]|].
    specialize (Free i _ Inv Hi eq_refl). by destruct b; [|eapply inv_move; [done|exact Hi|..]].
  - rewrite (Cpu i _ Inv Hi). by destruct b; eapply inv_move; [done|exact Hi|..].
  - destruct (the_lock m) as [lk cp] eqn:El. simpl. destruct lk.
    + assert (Spinlock true cp = the_lock m) as -> by done. by eapply inv_move; [done|exact Hi|..].
    + eapply inv_take; [done|exact Hi|right; by rewrite El|done..|]. simpl. rewrite El. auto.
  - eapply inv_take; [done|exact Hi|by left| |done..]. intros _. by eapply (li_locked _ Inv).
  - destruct (locked _) eqn:E; [by destruct b; eapply inv_move; [done|exact Hi|..]|].
    specialize (Free i _ Inv Hi eq_refl). by destruct b; [|eapply inv_move; [done|exact Hi|..]].
  - rewrite (Cpu i _ Inv Hi). by destruct b; eapply inv_move; [done|exact Hi|..].
  - eapply inv_take; [done|exact Hi|by left|intros _; by eapply (li_locked _ Inv)|done|by left].
  - eapply inv_take; [done|exact Hi|by left|done..|]. simpl. auto.
Qed.

Definition lock_boot (n : nat) : machine := Machine initlock (replicate n Outside).

Lemma lock_boot_inv n : lock_inv (lock_boot n).
Proof.
  split; simpl.
  - by intros i p [-> _]%lookup_replicate.
  - by intros i j p p' [-> _]%lookup_replicate.
  - intros i p [-> _]%lookup_replicate. simpl. split; [done|lia].
Qed.

(** C36 Mutual exclusion for any number of processors and any interleaving of
    their memory accesses: two processors are never both past the [xchg] of
    [acquire] and not yet at that of [release]; and [holding], whose two reads may have
    steps of others between them, answers exactly whether the asking processor has the
    lock, so an acquire outside and a
    release inside never panic, while an acquire inside and a release outside
    always do. *)
Theorem spinlock_mutual_exclusion n m :
  rtc lstep (lock_boot n) m →
  (∀ i j p p', pcs m !! i = Some p → pcs m !! j = Some p' → owner p = true → owner p' = true → i = j) ∧
  (∀ i b, pcs m !! i = Some (AcqCheck b) ∨ pcs m !! i = Some (RelCheck b) → holding (the_lock m) i = b) ∧
  (∀ i b, pcs m !! i = Some (AcqCpu b) ∨ pcs m !! i = Some (RelCpu b) → is_cpu (the_lock m) i = b) ∧
  (∀ i b msg, pcs m !! i = Some (Panicked b msg) → msg = if b then "acquire" else "release").
Proof.
  intros Hr. assert (G : lock_inv m ∧ ∀ i b msg, pcs m !! i = Some (Panicked b msg) → msg = if b then "acquire" else "release").
  { remember (lock_boot n) as m0 eqn:E0.
    assert (P0 : ∀ i b msg, pcs m0 !! i = Some (Panicked b msg) → msg = if b then "acquire" else "release").
    { subst. by intros i b msg [? _]%lookup_replicate. }
    pose proof (lock_boot_inv n) as I0. rewrite <- E0 in I0. clear E0. revert I0 P0.
    induction Hr as [|m0 m1 m2 St Hr IH]; intros I0 P0; [done|]. apply IH; [by eapply lock_inv_step|].
    intros i b msg Hp. pose proof (is_cpu_named m0) as Cpu. pose proof (free_not_owner m0) as Free.
    destruct St; simpl in Hp; apply list_lookup_insert_Some in Hp as [(<- & Hp & _)|[_ Hp]]; eauto; try done.
    - by destruct (locked _).
    - rewrite (Cpu _ _ I0 H) in Hp. by destruct b0; simplify_eq/=.
    - by destruct (locked _).
    - destruct (locked _) eqn:E; [done|]. specialize (Free _ _ I0 H eq_refl). by destruct b0; simplify_eq/=.
    - rewrite (Cpu _ _ I0 H) in Hp. by destruct b0; simplify_eq/=. }
  destruct G as [Inv P]. split_and!; [apply (li_one _ Inv)| | |done].
  - intros i b [H|H]; rewrite (holding_named _ _ _ Inv H); by destruct b.
  - intros i b [H|H]; rewrite (is_cpu_named _ _ _ Inv H); by destruct b.
Qed.

(** Processor 0 about to release, processor 1 spinning. *)
Definition contended : machine := Machine (Spinlock true 10) [RelCheck true; AcqXchg].

Lemma spinlock_mutual_exclusion_witness :
  rtc lstep (lock_boot 2) contended ∧ holding (the_lock contended) 0 = true.
Proof.
  assert (R : rtc lstep (lock_boot 2) contended).
  { eapply rtc_l; [apply (step_acquire _ 0 false); reflexivity|].
    eapply rtc_l; [apply (step_acq_check _ 0 false); reflexivity|].
    eapply rtc_l; [apply (step_acq_xchg _ 0); reflexivity|].
    eapply rtc_l; [apply (step_acq_set _ 0); reflexivity|].
    eapply rtc_l; [apply (step_acquire _ 1 false); reflexivity|].
    eapply rtc_l; [apply (step_acq_check _ 1 false); reflexivity|].
    eapply rtc_l; [apply (step_acq_cpu _ 1 false); reflexivity|].
    eapply rtc_l; [apply (step_acq_xchg _ 1); reflexivity|].
    eapply rtc_l; [apply (step_release _ 0 true); reflexivity|]. apply rtc_refl. }
  split; [exact R|]. destruct (spinlock_mutual_exclusion 2 contended R) as (_ & H & _).
  apply H. right. reflexivity.
Defined.
