(* ===== verification/CString.v ===== *)
(** * Memory and string functions (string.c, ulib.c)

    The C functions run on a byte-addressed memory; addresses are numbers and a
    byte that was never written reads as 0.  Loops that count down a length are
    structural on it; the loops that run to a NUL take fuel, and the theorems
    give the fuel that is enough (one more than the length of the string).
    Pointers do not wrap around. *)
From S2P Require Import Prelude.
Local Open Scope Z_scope.

Notation mem := (gmap Z Z).
Definition rd (m : mem) (a : Z) : Z := default 0 (m !! a).
Definition wr (m : mem) (a v : Z) : mem := <[a := u8 v]> m.

(** The bytes of a string literal. *)
Definition lit (s : string) : list Z := (λ c, Z.of_N (Ascii.N_of_ascii c)) <$> String.list_ascii_of_string s.

(** ** string.c *)
Fixpoint memset_loop (d c : Z) (n : nat) (m : mem) : mem :=
  match n with O => m | S n => memset_loop (d + 1) c n (wr m d c) end.
Definition memset (dst c n : Z) (m : mem) : mem := memset_loop dst c (Z.to_nat n) m.

Fixpoint memcmp_loop (m : mem) (s1 s2 : Z) (n : nat) : Z :=
  match n with
  | O => 0
  | S n =>
      if decide (rd m s1 ≠ rd m s2) then rd m s1 - rd m s2
      else memcmp_loop m (s1 + 1) (s2 + 1) n
  end.
Definition memcmp (m : mem) (v1 v2 n : Z) : Z := memcmp_loop m v1 v2 (Z.to_nat n).

Fixpoint copy_forward (d s : Z) (n : nat) (m : mem) : mem :=
  match n with O => m | S n => copy_forward (d + 1) (s + 1) n (wr m d (rd m s)) end.
Fixpoint copy_backward (d s : Z) (n : nat) (m : mem) : mem :=
  match n with
  | O => m
  | S n => copy_backward (d - 1) (s - 1) n (wr m (d - 1) (rd m (s - 1)))
  end.
Definition memmove (dst src n : Z) (m : mem) : mem :=
  if decide (src < dst ∧ src + n > dst)
  then copy_backward (dst + n) (src + n) (Z.to_nat n) m
  else copy_forward dst src (Z.to_nat n) m.

Fixpoint strncmp_loop (m : mem) (p q : Z) (n : nat) : Z :=
  match n with
  | O => 0
  | S n' =>
      if decide (rd m p ≠ 0 ∧ rd m p = rd m q) then strncmp_loop m (p + 1) (q + 1) n'
      else u8 (rd m p) - u8 (rd m q)
  end.
Definition strncmp (m : mem) (p q n : Z) : Z := strncmp_loop m p q (Z.to_nat n).

(** The second loop of [strncpy]. *)
Fixpoint pad_zero (s : Z) (n : nat) (m : mem) : mem :=
  match n with O => m | S n => pad_zero (s + 1) n (wr m s 0) end.
Fixpoint strncpy_loop (s t : Z) (n : nat) (m : mem) : mem :=
  match n with
  | O => m
  | S n =>
      let ch := rd m t in
      let m := wr m s ch in
      if decide (ch ≠ 0) then strncpy_loop (s + 1) (t + 1) n m
      else pad_zero (s + 1) n m
  end.
Definition strncpy (s t n : Z) (m : mem) : mem := strncpy_loop s t (Z.to_nat n) m.

Fixpoint safestrcpy_loop (s t : Z) (n : nat) (m : mem) : mem :=
  match n with
  | O => wr m s 0
  | S n =>
      let ch := rd m t in
      let m := wr m s ch in
      if decide (ch ≠ 0) then safestrcpy_loop (s + 1) (t + 1) n m
      else wr m (s + 1) 0
  end.
Definition safestrcpy (s t n : Z) (m : mem) : mem :=
  if decide (n ≤ 0) then m else safestrcpy_loop s t (Z.to_nat (n - 1)) m.

Fixpoint strlen_loop (m : mem) (s : Z) (fuel : nat) (n : Z) : option Z :=
  match fuel with
  | O => None
  | S fuel => if decide (rd m (s + n) ≠ 0) then strlen_loop m s fuel (n + 1) else Some n
  end.
Definition strlen (m : mem) (s : Z) (fuel : nat) : option Z := strlen_loop m s fuel 0.

(** ** ulib.c *)
Fixpoint strcpy (s t : Z) (fuel : nat) (m : mem) : option mem :=
  match fuel with
  | O => None
  | S fuel =>
      let ch := rd m t in
      let m := wr m s ch in
      if decide (ch ≠ 0) then strcpy (s + 1) (t + 1) fuel m else Some m
  end.

Fixpoint strcmp (m : mem) (p q : Z) (fuel : nat) : option Z :=
  match fuel with
  | O => None
  | S fuel =>
      if decide (rd m p ≠ 0 ∧ rd m p = rd m q) then strcmp m (p + 1) (q + 1) fuel
      else Some (u8 (rd m p) - u8 (rd m q))
  end.

Fixpoint strchr (m : mem) (s c : Z) (fuel : nat) : option Z :=
  match fuel with
  | O => None
  | S fuel =>
      if decide (rd m s = 0) then Some 0
      else if decide (rd m s = u8 c) then Some s
      else strchr m (s + 1) c fuel
  end.

Fixpoint atoi_loop (m : mem) (s : Z) (fuel : nat) (n : Z) : option Z :=
  match fuel with
  | O => None
  | S fuel =>
      if decide (48 ≤ rd m s ∧ rd m s ≤ 57)
      then atoi_loop m (s + 1) fuel (s32 (n * 10 + rd m s - 48))
      else Some n
  end.
Definition atoi (m : mem) (s : Z) (fuel : nat) : option Z := atoi_loop m s fuel 0.

(** [ulib.c]'s [memmove] copies forward whatever the overlap. *)
Definition ulib_memmove (dst src n : Z) (m : mem) : mem := copy_forward dst src (Z.to_nat n) m.

(** ** Strings in memory *)
Definition bytes_at (m : mem) (a : Z) (l : list Z) : Prop :=
  ∀ i b, l !! i = Some b → rd m (a + Z.of_nat i) = b.
Definition cstr (m : mem) (a : Z) (s : list Z) : Prop :=
  Forall (λ b, 0 < b < 256) s ∧ bytes_at m a (s ++ [0]).
(** Memory is unchanged outside [a, a+n). *)
Definition same_outside (m m' : mem) (a n : Z) : Prop := ∀ x, ¬ a ≤ x < a + n → rd m' x = rd m x.
(** Every cell holds a byte. *)
Definition bytes_mem (m : mem) : Prop := ∀ x, 0 ≤ rd m x < 256.

Lemma rd_wr m a v x : rd (wr m a v) x = if decide (x = a) then u8 v else rd m x.
Proof.
  unfold rd, wr. case_decide; subst; [by rewrite lookup_insert_eq|by rewrite lookup_insert_ne by done].
Qed.
Lemma rd_wr_eq m a v : rd (wr m a v) a = u8 v.
Proof. rewrite rd_wr. by rewrite decide_True. Qed.
Lemma rd_wr_ne m a v x : x ≠ a → rd (wr m a v) x = rd m x.
Proof. intros. rewrite rd_wr. by rewrite decide_False. Qed.

Lemma wr_bytes m a v : bytes_mem m → bytes_mem (wr m a v).
Proof. intros H x. rewrite rd_wr. case_decide; [apply u8_range|apply H]. Qed.

Lemma bytes_at_cons m a b l : bytes_at m a (b :: l) ↔ rd m a = b ∧ bytes_at m (a + 1) l.
Proof.
  unfold bytes_at. split.
  - intros H. split; [specialize (H 0%nat b eq_refl); by rewrite Z.add_0_r in H|].
    intros i x Hi. specialize (H (S i) x Hi). by replace (a + 1 + Z.of_nat i) with (a + Z.of_nat (S i)) by lia.
  - intros [H1 H2] [|i] x Hi; simpl in Hi; [simplify_eq; by rewrite Z.add_0_r|].
    replace (a + Z.of_nat (S i)) with (a + 1 + Z.of_nat i) by lia. by apply H2.
Qed.

Lemma bytes_at_nil m a : bytes_at m a [].
Proof. by intros i b. Qed.

Lemma bytes_at_frame m m' a l :
  (∀ x, a ≤ x < a + Z.of_nat (length l) → rd m' x = rd m x) → bytes_at m a l → bytes_at m' a l.
Proof. intros F H i b Hi. rewrite F; [by apply H|]. apply lookup_lt_Some in Hi. lia. Qed.

Lemma cstr_nil m a : cstr m a [] ↔ rd m a = 0.
Proof.
  unfold cstr. simpl. rewrite bytes_at_cons. split; [tauto|]. intros H. split_and!; [constructor|done|apply bytes_at_nil].
Qed.

Lemma cstr_cons m a b s : cstr m a (b :: s) ↔ 0 < b < 256 ∧ rd m a = b ∧ cstr m (a + 1) s.
Proof. unfold cstr. simpl. rewrite Forall_cons, bytes_at_cons. tauto. Qed.

Lemma cstr_frame m m' a s :
  (∀ x, a ≤ x ≤ a + Z.of_nat (length s) → rd m' x = rd m x) → cstr m a s → cstr m' a s.
Proof.
  intros F [H1 H2]. split; [done|]. eapply bytes_at_frame; [|done].
  rewrite length_app. simpl. intros x Hx. apply F. lia.
Qed.

(** ** memset, memcmp, memmove *)
Lemma memset_loop_spec c n : ∀ d m x,
  rd (memset_loop d c n m) x = if decide (d ≤ x < d + Z.of_nat n) then u8 c else rd m x.
Proof.
  induction n as [|n IH]; intros d m x; cbn [memset_loop]; [by rewrite decide_False by lia|].
  rewrite IH, rd_wr. repeat case_decide; try done; lia.
Qed.

Lemma copy_forward_spec n : ∀ d s m, bytes_mem m → ¬ s < d < s + Z.of_nat n →
  ∀ x, rd (copy_forward d s n m) x = if decide (d ≤ x < d + Z.of_nat n) then rd m (s + (x - d)) else rd m x.
Proof.
  induction n as [|n IH]; intros d s m B H x; cbn [copy_forward]; [by rewrite decide_False by lia|].
  rewrite IH by (auto using wr_bytes; lia). rewrite !rd_wr.
  repeat case_decide; try lia; subst.
  - f_equal. lia.
  - rewrite u8_small by apply B. f_equal. lia.
Qed.

Lemma copy_backward_spec n : ∀ d s m, bytes_mem m → s < d →
  ∀ x, rd (copy_backward d s n m) x = if decide (d - Z.of_nat n ≤ x < d) then rd m (s + (x - d)) else rd m x.
Proof.
  induction n as [|n IH]; intros d s m B H x; cbn [copy_backward]; [by rewrite decide_False by lia|].
  rewrite IH by (auto using wr_bytes; lia). rewrite !rd_wr.
  repeat case_decide; try lia; subst.
  - f_equal. lia.
  - rewrite u8_small by apply B. f_equal. lia.
Qed.

Lemma memmove_spec dst src n m x : bytes_mem m → 0 ≤ n →
  rd (memmove dst src n m) x = if decide (dst ≤ x < dst + n) then rd m (src + (x - dst)) else rd m x.
Proof.
  intros B Hn. unfold memmove. destruct (decide (src < dst ∧ src + n > dst)) as [D|D].
  - rewrite copy_backward_spec by (done || lia). rewrite Z2Nat.id by done.
    repeat case_decide; try lia; f_equal; lia.
  - rewrite copy_forward_spec by (done || lia). by rewrite Z2Nat.id.
Qed.

(** [memmove(dst, src, n)] copies correctly for any overlap of the two ranges:
    every byte of the destination is the byte the source had before the call,
    and nothing else changes. *)
Theorem memmove_correct dst src n m :
  bytes_mem m → 0 ≤ n →
  (∀ i, 0 ≤ i < n → rd (memmove dst src n m) (dst + i) = rd m (src + i)) ∧
  same_outside m (memmove dst src n m) dst n.
Proof.
  intros B Hn. split.
  - intros i Hi. rewrite memmove_spec, decide_True by (done || lia). f_equal. lia.
  - intros x Hx. by rewrite memmove_spec, decide_False.
Qed.

(** ulib.c's [memmove] is the kernel's except when the destination overlaps the
    source from above: there it copies bytes it has already overwritten. *)
Theorem ulib_memmove_overlap :
  (∀ dst src n m, ¬ (src < dst ∧ src + n > dst) → ulib_memmove dst src n m = memmove dst src n m) ∧
  (let m : mem := list_to_map [(100, 65); (101, 66); (102, 67)] in
   (λ i, rd (ulib_memmove 101 100 2 m) (101 + i)) <$> [0; 1] = [65; 65] ∧
   (λ i, rd (memmove 101 100 2 m) (101 + i)) <$> [0; 1] = [65; 66]).
Proof.
  split; [|by vm_compute]. intros dst src n m D. unfold memmove, ulib_memmove. by rewrite decide_False.
Qed.

Lemma memcmp_loop_zero m n : ∀ a b,
  memcmp_loop m a b n = 0 ↔ ∀ i, 0 ≤ i < Z.of_nat n → rd m (a + i) = rd m (b + i).
Proof.
  induction n as [|n IH]; intros a b; cbn [memcmp_loop].
  { split; [intros _ i Hi; lia|done]. }
  case_decide as D.
  - split; [lia|]. intros H. specialize (H 0 ltac:(lia)). by rewrite !Z.add_0_r in H.
  - rewrite IH. split; intros H i Hi.
    + destruct (decide (i = 0)) as [->|]; [rewrite !Z.add_0_r; done|].
      specialize (H (i - 1) ltac:(lia)). by replace (a + i) with (a + 1 + (i - 1)) by lia; replace (b + i) with (b + 1 + (i - 1)) by lia.
    + specialize (H (i + 1) ltac:(lia)). by replace (a + 1 + i) with (a + (i + 1)) by lia; replace (b + 1 + i) with (b + (i + 1)) by lia.
Qed.

(** ** Strings *)
Definition disjoint (a n b k : Z) : Prop := a + n ≤ b ∨ b + k ≤ a.

Lemma pad_zero_spec n : ∀ s m x,
  rd (pad_zero s n m) x = if decide (s ≤ x < s + Z.of_nat n) then 0 else rd m x.
Proof.
  induction n as [|n IH]; intros s m x; cbn [pad_zero]; [by rewrite decide_False by lia|].
  rewrite IH, rd_wr. repeat case_decide; try done; lia.
Qed.

Lemma strncpy_loop_outside n : ∀ s t m, same_outside m (strncpy_loop s t n m) s (Z.of_nat n).
Proof.
  induction n as [|n IH]; intros s t m x Hx; cbn [strncpy_loop]; [done|].
  case_decide.
  - rewrite IH by lia. rewrite rd_wr. case_decide; [lia|done].
  - rewrite pad_zero_spec, rd_wr. repeat case_decide; (lia || done).
Qed.

Lemma strncpy_loop_bytes str : ∀ n s t m,
  cstr m t str → disjoint s (Z.of_nat n) t (Z.of_nat (length str) + 1) →
  bytes_at (strncpy_loop s t n m) s (take n (str ++ replicate n 0)).
Proof.
  induction str as [|b str IH]; intros [|n] s t m C D; cbn [strncpy_loop]; try (intros i x Hi; done).
  - apply cstr_nil in C. rewrite C, decide_False by tauto. cbn [app].
    intros i x Hi. apply lookup_take_Some in Hi as [Hi Hl].
    apply lookup_replicate in Hi as [-> _]. rewrite pad_zero_spec, rd_wr.
    repeat case_decide; try done; lia.
  - apply cstr_cons in C as (Hb & -> & C). rewrite decide_True by lia. simpl in D.
    cbn [app take]. apply bytes_at_cons. split.
    + rewrite strncpy_loop_outside by lia. rewrite rd_wr_eq. apply u8_small. lia.
    + replace (take n (str ++ replicate (S n) 0)) with (take n (str ++ replicate n 0)).
      * apply IH; [|unfold disjoint in *; lia]. eapply cstr_frame; [|done].
        intros x Hx. apply rd_wr_ne. unfold disjoint in D. lia.
      * rewrite !take_app, !take_replicate. f_equal. f_equal. lia.
Qed.

(** [strncpy(s, t, n)] writes exactly the first [n] bytes of the string padded
    with NULs, nothing outside the [n]-byte destination; a string of [n] or more
    bytes is therefore left unterminated, as directory entries rely on. *)
Theorem strncpy_correct s t n str m :
  cstr m t str → 0 ≤ n → disjoint s n t (Z.of_nat (length str) + 1) →
  bytes_at (strncpy s t n m) s (take (Z.to_nat n) (str ++ replicate (Z.to_nat n) 0)) ∧
  same_outside m (strncpy s t n m) s n.
Proof.
  intros C Hn D. unfold strncpy. pose proof (strncpy_loop_outside (Z.to_nat n) s t m) as O.
  rewrite Z2Nat.id in O by done. split; [|done].
  apply strncpy_loop_bytes; [done|by rewrite Z2Nat.id].
Qed.

Lemma safestrcpy_loop_correct n : ∀ str s t m,
  cstr m t str → disjoint s (Z.of_nat n + 1) t (Z.of_nat (length str) + 1) →
  cstr (safestrcpy_loop s t n m) s (take n str) ∧
  same_outside m (safestrcpy_loop s t n m) s (Z.of_nat n + 1).
Proof.
  induction n as [|n IH]; intros str s t m C D; cbn [safestrcpy_loop].
  { split; [apply cstr_nil, rd_wr_eq|]. intros x Hx. apply rd_wr_ne. lia. }
  destruct str as [|b str].
  { apply cstr_nil in C. rewrite C, decide_False by tauto. split.
    - apply cstr_nil. rewrite rd_wr_ne by lia. apply rd_wr_eq.
    - intros x Hx. by rewrite !rd_wr_ne by lia. }
  apply cstr_cons in C as (Hb & -> & C). rewrite decide_True by lia. simpl in D.
  destruct (IH str (s + 1) (t + 1) (wr m s b)) as [IC IO].
  { eapply cstr_frame; [|done]. intros x Hx. apply rd_wr_ne. unfold disjoint in D. lia. }
  { unfold disjoint in *. lia. }
  split.
  - cbn [take]. apply cstr_cons. split; [done|split; [|done]]. rewrite IO by lia. rewrite rd_wr_eq. apply u8_small. lia.
  - intros x Hx. rewrite IO by lia. apply rd_wr_ne. lia.
Qed.

(** [safestrcpy(s, t, n)] with [n > 0] leaves at [s] the NUL-terminated string
    of the first [n - 1] characters of [t], and touches only the [n] bytes at [s]. *)
Theorem safestrcpy_correct s t n str m :
  cstr m t str → 0 < n → disjoint s n t (Z.of_nat (length str) + 1) →
  cstr (safestrcpy s t n m) s (take (Z.to_nat (n - 1)) str) ∧
  same_outside m (safestrcpy s t n m) s n.
Proof.
  intros C Hn D. unfold safestrcpy. rewrite decide_False by lia.
  destruct (safestrcpy_loop_correct (Z.to_nat (n - 1)) str s t m C) as [H1 H2].
  { by replace (Z.of_nat (Z.to_nat (n - 1)) + 1) with n by lia. }
  split; [done|]. by replace (Z.of_nat (Z.to_nat (n - 1)) + 1) with n in H2 by lia.
Qed.

Lemma strlen_loop_correct m str : ∀ s k fuel,
  cstr m (s + k) str → (length str < fuel)%nat → strlen_loop m s fuel k = Some (k + Z.of_nat (length str)).
Proof.
  induction str as [|b str IH]; intros s k [|fuel] C F; simpl in F; try lia; cbn [strlen_loop].
  - apply cstr_nil in C. rewrite C, decide_False by tauto. simpl. f_equal. lia.
  - apply cstr_cons in C as (Hb & -> & C). rewrite decide_True by lia.
    rewrite IH; [simpl; f_equal; lia| |lia]. by rewrite Z.add_assoc.
Qed.

(** The order in which [strcmp] puts strings: the sign of the difference of the
    first characters that differ, the NUL counting as the smallest. *)
Fixpoint lex (a b : list Z) : comparison :=
  match a, b with
  | [], [] => Eq
  | [], _ => Lt
  | _, [] => Gt
  | x :: a, y :: b => match (x ?= y)%Z with Eq => lex a b | c => c end
  end.

Lemma lex_eq a : ∀ b, lex a b = Eq ↔ a = b.
Proof.
  induction a as [|x a IH]; intros [|y b]; simpl; try done.
  destruct (Z.compare_spec x y) as [->|H|H]; [rewrite IH; split; congruence| |]; split; try done; intros [=]; lia.
Qed.

Definition sign (c : comparison) (d : Z) : Prop :=
  match c with Eq => d = 0 | Lt => d < 0 | Gt => 0 < d end.

Lemma lex_step x y a b d : x ≠ y → 0 < x < 256 → 0 < y < 256 → d = u8 x - u8 y →
  sign (lex (x :: a) (y :: b)) d.
Proof.
  intros Hne Hx Hy ->. rewrite !u8_small by lia. simpl.
  destruct (Z.compare_spec x y); simpl; lia.
Qed.

(** [strcmp] terminates on two strings and compares them: the result is 0
    exactly for equal strings, negative or positive by their order as strings of
    unsigned characters. *)
Theorem strcmp_correct m a : ∀ b p q fuel,
  cstr m p a → cstr m q b → (length a < fuel)%nat →
  ∃ d, strcmp m p q fuel = Some d ∧ sign (lex a b) d ∧ (d = 0 ↔ a = b).
Proof.
  intros b p q fuel. cut (cstr m p a → cstr m q b → (length a < fuel)%nat →
    ∃ d, strcmp m p q fuel = Some d ∧ sign (lex a b) d).
  { intros G Ha Hb F. destruct (G Ha Hb F) as (d & E & Sg). exists d. split_and!; [done|done|].
    rewrite <- lex_eq. destruct (lex a b); simpl in Sg; split; try done; lia. }
  revert b p q fuel. induction a as [|x a IH]; intros b p q [|fuel] Ha Hb F; simpl in F; try lia;
    cbn [strcmp].
  - apply cstr_nil in Ha. rewrite decide_False by tauto. eexists. split; [done|]. rewrite Ha.
    destruct b as [|y b]; [by apply cstr_nil in Hb as ->|].
    apply cstr_cons in Hb as (Hy & -> & _). rewrite !u8_small by lia. cbn. lia.
  - apply cstr_cons in Ha as (Hx & -> & Ha). destruct b as [|y b].
    { apply cstr_nil in Hb. rewrite Hb, decide_False by lia. eexists. split; [done|].
      rewrite !u8_small by lia. cbn. lia. }
    apply cstr_cons in Hb as (Hy & -> & Hb). case_decide as D.
    + destruct D as [_ ->]. cbn [lex]. rewrite Z.compare_refl. apply IH; (done || lia).
    + eexists. split; [done|]. apply lex_step; (done || lia).
Qed.

(** [strncmp] is [strcmp] on the first [n] characters. *)
Lemma strncmp_correct m n : ∀ a b p q,
  cstr m p a → cstr m q b → sign (lex (take n a) (take n b)) (strncmp_loop m p q n).
Proof.
  induction n as [|n IH]; intros a b p q Ha Hb; cbn [strncmp_loop take]; [done|].
  destruct a as [|x a].
  - apply cstr_nil in Ha. rewrite decide_False by tauto. rewrite Ha.
    destruct b as [|y b]; [by apply cstr_nil in Hb as ->|].
    apply cstr_cons in Hb as (Hy & -> & _). rewrite !u8_small by lia. cbn. lia.
  - apply cstr_cons in Ha as (Hx & -> & Ha). destruct b as [|y b].
    { apply cstr_nil in Hb. rewrite Hb, decide_False by lia. rewrite !u8_small by lia. cbn. lia. }
    apply cstr_cons in Hb as (Hy & -> & Hb). case_decide as D.
    + destruct D as [_ ->]. cbn [take lex]. rewrite Z.compare_refl. by apply IH.
    + cbn [take]. apply lex_step; (done || lia).
Qed.

Lemma strcpy_correct str : ∀ s t m fuel,
  cstr m t str → (length str < fuel)%nat →
  disjoint s (Z.of_nat (length str) + 1) t (Z.of_nat (length str) + 1) →
  ∃ m', strcpy s t fuel m = Some m' ∧ cstr m' s str ∧
    same_outside m m' s (Z.of_nat (length str) + 1).
Proof.
  induction str as [|b str IH]; intros s t m [|fuel] C F D; simpl in F; try lia; cbn [strcpy].
  - apply cstr_nil in C. rewrite C, decide_False by tauto. eexists. split_and!; [done|apply cstr_nil, rd_wr_eq|].
    intros x Hx. apply rd_wr_ne. simpl in Hx. lia.
  - apply cstr_cons in C as (Hb & -> & C). rewrite decide_True by lia. simpl in D.
    destruct (IH (s + 1) (t + 1) (wr m s b) fuel) as (m' & E & C' & O').
    { eapply cstr_frame; [|done]. intros x Hx. apply rd_wr_ne. unfold disjoint in D. lia. }
    { lia. }
    { unfold disjoint in *. lia. }
    exists m'. split; [done|]. split.
    + apply cstr_cons. split; [done|split; [|done]]. rewrite O' by lia. rewrite rd_wr_eq. apply u8_small. lia.
    + simpl. intros x Hx. rewrite O' by lia. apply rd_wr_ne. lia.
Qed.

(** [strchr] returns the first occurrence, or NULL. *)
Lemma strchr_correct m c str : ∀ s fuel,
  cstr m s str → (length str < fuel)%nat →
  strchr m s c fuel = Some (match list_find (λ b, b = u8 c) str with
                            | Some (i, _) => s + Z.of_nat i | None => 0 end).
Proof.
  induction str as [|b str IH]; intros s [|fuel] C F; simpl in F; try lia; cbn [strchr].
  - apply cstr_nil in C. by rewrite decide_True.
  - apply cstr_cons in C as (Hb & -> & C). rewrite decide_False by lia. cbn [list_find].
    case_decide; [by rewrite Z.add_0_r|]. rewrite IH by (done || lia). f_equal.
    destruct (list_find _ str) as [[i x]|]; simpl; lia.
Qed.

(** ** Witnesses *)
Definition hello : mem := list_to_map (imap (λ i b, (100 + Z.of_nat i, b)) [104; 101; 108; 108; 111; 0; 104; 105; 0]).

Lemma hello_bytes : bytes_mem hello.
Proof.
  assert (G : ∀ l k, Forall (λ b, 0 ≤ b < 256) l →
    bytes_mem (list_to_map (imap (λ i b, (100 + Z.of_nat (k + i), b)) l))).
  { induction l as [|b l IH]; intros k Hl x; [done|]. inversion_clear Hl as [|? ? Hb Hl'].
    rewrite imap_cons. cbn [list_to_map foldr fst snd]. unfold rd.
    destruct (decide (x = 100 + Z.of_nat (k + 0))) as [->|Hne].
    - by rewrite lookup_insert_eq.
    - rewrite lookup_insert_ne by done.
      rewrite (imap_ext _ (λ i b, (100 + Z.of_nat (S k + i), b))).
      + apply (IH (S k) Hl').
      + intros i y _. unfold compose. f_equal. lia. }
  apply (G _ 0%nat). repeat constructor; lia.
Qed.

Lemma hello_cstr : cstr hello 100 [104; 101; 108; 108; 111] ∧ cstr hello 106 [104; 105].
Proof.
  split; (split; [repeat constructor; lia|]);
    repeat (apply bytes_at_cons; split; [by vm_compute|]); apply bytes_at_nil.
Qed.

Lemma memmove_correct_witness :
  (∀ i, 0 ≤ i < 5 → rd (memmove 102 100 5 hello) (102 + i) = rd hello (100 + i)) ∧
  same_outside hello (memmove 102 100 5 hello) 102 5.
Proof. apply memmove_correct; [apply hello_bytes|lia]. Defined.

Lemma strncpy_correct_witness :
  bytes_at (strncpy 200 100 14 hello) 200 [104; 101; 108; 108; 111; 0; 0; 0; 0; 0; 0; 0; 0; 0].
Proof.
  apply (strncpy_correct 200 100 14 [104; 101; 108; 108; 111] hello);
    [apply hello_cstr|lia|right; simpl; lia].
Defined.

Lemma safestrcpy_correct_witness : cstr (safestrcpy 200 100 4 hello) 200 [104; 101; 108].
Proof.
  apply (safestrcpy_correct 200 100 4 [104; 101; 108; 108; 111] hello);
    [apply hello_cstr|lia|right; simpl; lia].
Defined.

Lemma strcmp_correct_witness : ∃ d, strcmp hello 100 106 6 = Some d ∧ d < 0.
Proof.
  destruct (strcmp_correct hello [104; 101; 108; 108; 111] [104; 105] 100 106 6) as (d & E & L & _);
    [apply hello_cstr|apply hello_cstr|simpl; lia|]. by exists d.
Defined.
