(* ===== verification/Ring.v ===== *)
(** * Ring buffers indexed by free-running 32-bit counters

    Pipes (pipe.c) and the console input buffer (console.c) keep an array of [N]
    bytes, [N] a power of two, with [uint] counters that are never reduced modulo
    [N] except to index the array.  [ring d r l] says that the array [d] holds the
    bytes [l], oldest first, from the counter value [r] on; the counter of the
    next free cell is then [u32 (r + length l)].  The lemmas hold through the
    wrap-around of the counters because [N] divides 2^32. *)
From S2P Require Import Prelude.
Local Open Scope Z_scope.

Section ring.
Context (N : Z) (HN : 0 < N < 2 ^ 32) (Hdiv : (N | 2 ^ 32)).

Definition cell (i : Z) : nat := Z.to_nat (i mod N).
Definition ring_get (d : list Z) (i : Z) : Z := d !!! cell i.
Definition ring_set (d : list Z) (i v : Z) : list Z := <[cell i := v]> d.

(** The [n] bytes from counter value [r] on. *)
Definition ring_slice (d : list Z) (r : Z) (n : nat) : list Z :=
  (λ i, ring_get d (r + Z.of_nat i)) <$> seq 0 n.

Record ring (d : list Z) (r : Z) (l : list Z) : Prop := {
  ring_len : length d = Z.to_nat N;
  ring_fits : Z.of_nat (length l) ≤ N;
  ring_bytes : ∀ i b, l !! i = Some b → d !! cell (r + Z.of_nat i) = Some b
}.

Lemma cell_u32 i : cell (u32 i) = cell i.
Proof.
  unfold cell, u32. destruct Hdiv as [k Hk]. rewrite Hk. f_equal.
  rewrite <- Znumtheory.Zmod_div_mod; [done|lia|nia|by exists k].
Qed.

Lemma cell_lt i : (cell i < Z.to_nat N)%nat.
Proof. unfold cell. pose proof (Z.mod_pos_bound i N). lia. Qed.

Lemma cell_ne i j : 0 < j - i < N → cell i ≠ cell j.
Proof.
  intros H E. unfold cell in E.
  pose proof (Z.mod_pos_bound i N ltac:(lia)). pose proof (Z.mod_pos_bound j N ltac:(lia)).
  assert (E' : i mod N = j mod N) by lia.
  pose proof (Z.div_mod i N ltac:(lia)). pose proof (Z.div_mod j N ltac:(lia)).
  assert (j - i = N * (j / N - i / N)) as D by lia. rewrite D in H.
  destruct (Z.lt_trichotomy (j / N - i / N) 0) as [?|[E0|?]]; [nia|rewrite E0 in H; lia|nia].
Qed.

Lemma u32_diff r k : 0 ≤ k < 2 ^ 32 → u32 (u32 (r + k) - u32 r) = k.
Proof.
  intros Hk. unfold u32. rewrite <- Zminus_mod. replace (r + k - r) with k by lia. by apply Z.mod_small.
Qed.

Lemma u32_u32_add a b : u32 (u32 a + b) = u32 (a + b).
Proof. unfold u32. by rewrite Zplus_mod_idemp_l. Qed.

Lemma u32_inj_add r a b : 0 ≤ a < 2 ^ 32 → 0 ≤ b < 2 ^ 32 → u32 (r + a) = u32 (r + b) → a = b.
Proof. intros Ha Hb E. rewrite <- (u32_diff r a), <- (u32_diff r b), E by done. done. Qed.

Lemma ring_nil d r : length d = Z.to_nat N → ring d r [].
Proof. split; [done|simpl; lia|by intros i b]. Qed.

Lemma ring_push d r l v :
  ring d r l → Z.of_nat (length l) < N →
  ring (ring_set d (u32 (r + Z.of_nat (length l))) v) r (l ++ [v]).
Proof.
  intros [H1 H2 H3] Hl. unfold ring_set. split; rewrite ?length_insert, ?length_app; simpl; try (done || lia).
  intros i b Hi. rewrite cell_u32. apply lookup_app_Some in Hi as [Hi|[Hge Hi]].
  - pose proof (lookup_lt_Some _ _ _ Hi). rewrite list_lookup_insert_ne; [by apply H3|].
    apply not_eq_sym, cell_ne. lia.
  - apply list_lookup_singleton_Some in Hi as [Hz ->]. replace i with (length l) by lia.
    apply list_lookup_insert_eq. rewrite H1. apply cell_lt.
Qed.

Lemma ring_pop d r v l : ring d r (v :: l) → ring_get d r = v ∧ ring d (u32 (r + 1)) l.
Proof.
  intros [H1 H2 H3]. simpl in H2. split.
  - specialize (H3 0%nat v eq_refl). rewrite Z.add_0_r in H3. unfold ring_get. by apply list_lookup_total_correct.
  - split; [done|lia|]. intros i b Hi. rewrite <- cell_u32, u32_u32_add, cell_u32.
    replace (r + 1 + Z.of_nat i) with (r + Z.of_nat (S i)) by lia. by apply H3.
Qed.

Lemma ring_prefix d r l k : ring d r (l ++ k) → ring d r l.
Proof.
  intros [H1 H2 H3]. rewrite length_app in H2. split; [done|lia|].
  intros i b Hi. apply H3. by apply lookup_app_l_Some.
Qed.

Lemma ring_drop d r l k : ring d r (l ++ k) → ring d (u32 (r + Z.of_nat (length l))) k.
Proof.
  intros [H1 H2 H3]. rewrite length_app in H2. split; [done|lia|].
  intros i b Hi. rewrite <- cell_u32, u32_u32_add, cell_u32, <- Z.add_assoc, <- Nat2Z.inj_add.
  apply H3. by rewrite lookup_app_r, Nat.add_sub' by lia.
Qed.

Lemma ring_last d r l v : ring d r (l ++ [v]) → ring_get d (u32 (r + Z.of_nat (length l))) = v.
Proof.
  intros [_ _ H3]. unfold ring_get. rewrite cell_u32. apply list_lookup_total_correct, H3.
  by apply list_lookup_middle.
Qed.

Lemma ring_slice_correct d r l k : ring d r (l ++ k) → ring_slice d r (length l) = l.
Proof.
  intros R. apply list_eq. intros i. unfold ring_slice. rewrite list_lookup_fmap.
  destruct (decide (i < length l)%nat) as [H|H].
  - rewrite lookup_seq_lt by done. simpl. destruct (lookup_lt_is_Some_2 l i H) as [b Hb]. rewrite Hb.
    f_equal. apply list_lookup_total_correct, (ring_bytes _ _ _ R). by apply lookup_app_l_Some.
  - rewrite (lookup_ge_None_2 l) by lia. by rewrite lookup_seq_ge by lia.
Qed.
End ring.
