(* ===== verification/Pipe.v ===== *)
(** * Pipes (pipe.c)

    A pipe is a page with a ring of [PIPESIZE] bytes, two free-running counters
    and the open flags of its two ends.  Its operations run under [p->lock] and
    give it up only in [sleep], so an execution is an interleaving of the sections
    between these points.  [pst] is the state a section runs on: the pipe and the
    [killed] flag of the running process, which other processes may set while it
    sleeps.  The loops around [sleep] take fuel, the number of times the caller
    may find its condition still false; the theorems hold for every fuel.
    The caller's buffer is the list of the [n] bytes written, or read. *)
From S2P Require Import Prelude Kernel ProcData Ring Kalloc.
Local Open Scope Z_scope.

Definition PIPESIZE : Z := 512.

Record pipe := Pipe {
  readopen : bool;
  writeopen : bool;
  writep : Z;
  readp : Z;
  data : list Z
}.

Record pst := Pst { pp : pipe; killed : bool }.

Definition set_pipe (f : pipe → pipe) : M pst unit := kmodify (λ s, Pst (f (pp s)) (killed s)).

Section ops.
(** The address of the pipe. *)
Context (a : Z).

(** The [while] loop of [pipewrite]; [false] when it gives up with -1. *)
Fixpoint wait_room (fuel : nat) : M pst bool :=
  match fuel with
  | O => diverge
  | S fuel =>
      s ← kget;
      if decide (writep (pp s) = u32 (readp (pp s) + PIPESIZE)) then
        if negb (readopen (pp s)) || killed s then mret false
        else wakeup (ChPipeRead a);; sleep (ChPipeWrite a) (LkPipe a);; wait_room fuel
      else mret true
  end.

(** [p->data[p->writep++ % PIPESIZE] = b] *)
Definition store (b : Z) : M pst unit :=
  set_pipe (λ p, Pipe (readopen p) (writeopen p) (u32 (writep p + 1)) (readp p)
                   (ring_set PIPESIZE (data p) (writep p) b)).

Fixpoint pipewrite_loop (fuel : nat) (rest : list Z) (i : Z) : M pst Z :=
  match rest with
  | [] => wakeup (ChPipeRead a);; release (LkPipe a);; mret i
  | b :: rest =>
      ok ← wait_room fuel;
      if (ok : bool) then store b;; pipewrite_loop fuel rest (i + 1)
      else release (LkPipe a);; mret (-1)
  end.

Definition pipewrite (fuel : nat) (addr : list Z) : M pst Z :=
  acquire (LkPipe a);; pipewrite_loop fuel addr 0.

(** The [while] loop of [piperead]; [false] when the process was killed. *)
Fixpoint wait_data (fuel : nat) : M pst bool :=
  match fuel with
  | O => diverge
  | S fuel =>
      s ← kget;
      if decide (readp (pp s) = writep (pp s) ∧ writeopen (pp s) = true) then
        if killed s then mret false
        else sleep (ChPipeRead a) (LkPipe a);; wait_data fuel
      else mret true
  end.

Fixpoint piperead_loop (n : nat) (addr : list Z) : M pst (list Z) :=
  match n with
  | O => mret addr
  | S n =>
      s ← kget;
      if decide (readp (pp s) = writep (pp s)) then mret addr
      else
        set_pipe (λ p, Pipe (readopen p) (writeopen p) (writep p) (u32 (readp p + 1)) (data p));;
        piperead_loop n (addr ++ [ring_get PIPESIZE (data (pp s)) (readp (pp s))])
  end.

(** [None] is the result -1, [Some l] the result [length l] with [l] in [addr]. *)
Definition piperead_tail (n : Z) (ok : bool) : M pst (option (list Z)) :=
  if ok then
    l ← piperead_loop (Z.to_nat n) [];
    wakeup (ChPipeWrite a);; release (LkPipe a);; mret (Some l)
  else release (LkPipe a);; mret None.
Definition piperead (fuel : nat) (n : Z) : M pst (option (list Z)) :=
  acquire (LkPipe a);; ok ← wait_data fuel; piperead_tail n ok.

(** [pipeclose] up to the release of the lock, and the unlocked test after it. *)
Definition pipeclose_locked (writable : bool) : M pst unit :=
  acquire (LkPipe a);;
  (if writable then
     set_pipe (λ p, Pipe (readopen p) false (writep p) (readp p) (data p));; wakeup (ChPipeRead a)
   else
     set_pipe (λ p, Pipe false (writeopen p) (writep p) (readp p) (data p));; wakeup (ChPipeWrite a));;
  release (LkPipe a).
Definition pipeclose_unused : M pst bool :=
  kgets (λ s, negb (readopen (pp s)) && negb (writeopen (pp s))).

(** The pipe and the page allocator. *)
Record pmem := Pmem { pm_pipe : pst; pm_kmem : kmem }.
Definition on_pipe {A} : M pst A → M pmem A :=
  focus (λ s, Some (pm_pipe s)) (λ p s, Pmem p (pm_kmem s)).
Definition on_kmem {A} : M kmem A → M pmem A :=
  focus (λ s, Some (pm_kmem s)) (λ k s, Pmem (pm_pipe s) k).

Definition pipeclose (writable : bool) : M pmem unit :=
  on_pipe (pipeclose_locked writable);;
  unused ← on_pipe pipeclose_unused;
  if (unused : bool) then on_kmem (kfree a PAGE) else mret ().
End ops.

(** ** What one section does *)

(** The pipe holds the bytes [l], oldest first. *)
Record holds (p : pipe) (l : list Z) : Prop := {
  holds_ring : ring PIPESIZE (data p) (readp p) l;
  holds_writep : writep p = u32 (readp p + Z.of_nat (length l));
  holds_readp : u32 (readp p) = readp p
}.

Lemma PIPESIZE_ok : 0 < PIPESIZE < 2 ^ 32 ∧ (PIPESIZE | 2 ^ 32).
Proof. split; [done|by exists (2 ^ 23)]. Qed.

Lemma holds_fits p l : holds p l → Z.of_nat (length l) ≤ 512.
Proof. intros H. apply (ring_fits _ _ _ _ (holds_ring _ _ H)). Qed.

Lemma holds_full p l : holds p l → writep p = u32 (readp p + PIPESIZE) ↔ length l = 512%nat.
Proof.
  intros H. pose proof (holds_fits _ _ H). rewrite (holds_writep _ _ H). split; intros E.
  - apply u32_inj_add in E; unfold PIPESIZE in *; lia.
  - rewrite E. done.
Qed.

Lemma holds_empty p l : holds p l → readp p = writep p ↔ l = [].
Proof.
  intros H. pose proof (holds_fits _ _ H). rewrite (holds_writep _ _ H), <- (holds_readp _ _ H) at 1.
  split; intros E.
  - rewrite <- (Z.add_0_r (readp p)) in E at 1. apply u32_inj_add in E; [|lia..].
    destruct l; simpl in *; [done|lia].
  - subst. by rewrite Z.add_0_r.
Qed.

(** [p'] is [p] with the bytes [bs] added behind [l]. *)
Record pushed (p p' : pipe) (l bs : list Z) : Prop := {
  pushed_holds : holds p' (l ++ bs);
  pushed_ro : readopen p' = readopen p;
  pushed_wo : writeopen p' = writeopen p;
  pushed_readp : readp p' = readp p
}.

(** [p'] is [p] with the bytes [bs] taken from the front, [l] remaining. *)
Record popped (p p' : pipe) (bs l : list Z) : Prop := {
  popped_holds : holds p' l;
  popped_ro : readopen p' = readopen p;
  popped_wo : writeopen p' = writeopen p;
  popped_readp : readp p' = u32 (readp p + Z.of_nat (length bs));
  popped_data : data p' = data p
}.

Lemma pushed_nil p l : holds p l → pushed p p l [].
Proof. intros. by split; [rewrite app_nil_r|..]. Qed.

Lemma store_pushed p l b bs p' :
  holds p l → (length l < 512)%nat →
  pushed (Pipe (readopen p) (writeopen p) (u32 (writep p + 1)) (readp p)
            (ring_set PIPESIZE (data p) (writep p) b)) p' (l ++ [b]) bs →
  pushed p p' l (b :: bs).
Proof. intros H Hl [P1 P2 P3 P4]. simpl in *. split; try done. by rewrite <- app_assoc in P1. Qed.

Lemma store_holds p l b :
  holds p l → (length l < 512)%nat →
  holds (Pipe (readopen p) (writeopen p) (u32 (writep p + 1)) (readp p)
           (ring_set PIPESIZE (data p) (writep p) b)) (l ++ [b]).
Proof.
  intros [R W P] Hl. destruct PIPESIZE_ok as [B D]. split; simpl; [|..|done].
  - rewrite W. apply ring_push; try done. unfold PIPESIZE. lia.
  - rewrite W, u32_u32_add, length_app. f_equal. simpl. lia.
Qed.

Section sections.
Context (a : Z) (h : list lock_id) (Hh : LkPipe a ∉ h).

(** [pipewrite] from inside its [while] loop, about to store [b]. *)
Definition write_at (f1 fuel : nat) (b : Z) (rest : list Z) (i : Z) : M pst Z :=
  ok ← wait_room a f1;
  if (ok : bool) then store b;; pipewrite_loop a fuel rest (i + 1)
  else release (LkPipe a);; mret (-1).

(** [piperead] from its [while] loop on. *)
Definition read_at (fuel : nat) (n : Z) : M pst (option (list Z)) :=
  ok ← wait_data a fuel; piperead_tail a n ok.

(** A section of a write with [rest] still to store: it stores a prefix [bs] and
    returns, or sleeps with the pipe full. *)
Definition write_post (fuel : nat) (s : pst) (w : list chan_id) (l rest : list Z) (i : Z) (o : outcome pst Z) : Prop :=
  match o with
  | Ok r c' s' => killed s' = killed s ∧ ∃ bs rest', rest = bs ++ rest' ∧ pushed (pp s) (pp s') l bs ∧
      (r = i + Z.of_nat (length rest) ∧ rest' = [] ∧ c' = KCtx h (w ++ [ChPipeRead a]) ∨
       r = -1 ∧ (readopen (pp s) = false ∨ killed s = true) ∧ rest' ≠ [] ∧ c' = KCtx h w)
  | Sleep ch lk c' s' k =>
      ch = ChPipeWrite a ∧ lk = LkPipe a ∧ c' = KCtx (LkPipe a :: h) (w ++ [ChPipeRead a]) ∧
      readopen (pp s) = true ∧
      ∃ bs b rest' f1, rest = bs ++ b :: rest' ∧ pushed (pp s) (pp s') l bs ∧
        length (l ++ bs) = 512%nat ∧
        (∀ s'', k s'' = write_at f1 fuel b rest' (i + Z.of_nat (length bs)) (KCtx (LkPipe a :: h) []) s'')
  | Diverge => True
  | _ => False
  end.

(** A section of a read of [n] bytes: it takes the first bytes there are, or
    sleeps with the pipe empty. *)
Definition read_post (s : pst) (w : list chan_id) (l : list Z) (n : Z) (o : outcome pst (option (list Z))) : Prop :=
  match o with
  | Ok (Some bs) c' s' => killed s' = killed s ∧ c' = KCtx h (w ++ [ChPipeWrite a]) ∧
      bs = take (Z.to_nat n) l ∧ popped (pp s) (pp s') bs (drop (Z.to_nat n) l) ∧
      (l = [] → writeopen (pp s) = false)
  | Ok None c' s' => s' = s ∧ killed s = true ∧ c' = KCtx h w
  | Sleep ch lk c' s' k =>
      ch = ChPipeRead a ∧ lk = LkPipe a ∧ c' = KCtx (LkPipe a :: h) w ∧ s' = s ∧
      l = [] ∧ writeopen (pp s) = true ∧
      ∃ f1, ∀ s'', k s'' = read_at f1 n (KCtx (LkPipe a :: h) []) s''
  | Diverge => True
  | _ => False
  end.

Lemma write_post_cons fuel s w l b rest i o :
  holds (pp s) l → (length l < 512)%nat →
  write_post fuel (Pst (Pipe (readopen (pp s)) (writeopen (pp s)) (u32 (writep (pp s) + 1)) (readp (pp s))
              (ring_set PIPESIZE (data (pp s)) (writep (pp s)) b)) (killed s)) w (l ++ [b]) rest (i + 1) o →
  write_post fuel s w l (b :: rest) i o.
Proof.
  intros H Hl. unfold write_post. destruct o as [r c' s'| | | |ch lk c' s' k]; try done.
  - intros (K & bs & rest' & -> & P & D). split; [done|]. exists (b :: bs), rest'.
    split; [done|]. split; [by apply store_pushed|].
    destruct D as [(-> & -> & ->)|D]; [left|right; done]. simpl. split_and!; [|done..].
    rewrite !length_app. simpl. lia.
  - intros (-> & -> & -> & Hro & bs & x & rest' & f1 & -> & P & F & E). split_and!; try done.
    exists (b :: bs), x, rest', f1. split_and!; [done|by apply store_pushed| |].
    + rewrite <- app_assoc in F. done.
    + intros s''. rewrite E. by replace (i + 1 + Z.of_nat (length bs)) with (i + Z.of_nat (length (b :: bs))) by (simpl; lia).
Qed.

Lemma wait_room_run f w s l : holds (pp s) l →
  wait_room a (S f) (KCtx (LkPipe a :: h) w) s =
  if decide (length l = 512%nat) then
    if negb (readopen (pp s)) || killed s then Ok false (KCtx (LkPipe a :: h) w) s
    else Sleep (ChPipeWrite a) (LkPipe a) (KCtx (LkPipe a :: h) (w ++ [ChPipeRead a])) s
           (λ s', wait_room a f (KCtx (LkPipe a :: h) []) s')
  else Ok true (KCtx (LkPipe a :: h) w) s.
Proof.
  intros H. cbn [wait_room]. rewrite kget_bind.
  destruct (decide (writep (pp s) = u32 (readp (pp s) + PIPESIZE))) as [F|F];
    rewrite (holds_full _ _ H) in F; [rewrite decide_True by done|by rewrite decide_False by done].
  destruct (negb (readopen (pp s)) || killed s); [done|].
  unfold sleep, wakeup, mbind, M_bind. cbn [obind held woken]. rewrite decide_True by inl. done.
Qed.

Lemma wait_data_run f w s l : holds (pp s) l →
  wait_data a (S f) (KCtx (LkPipe a :: h) w) s =
  if decide (l = [] ∧ writeopen (pp s) = true) then
    if killed s then Ok false (KCtx (LkPipe a :: h) w) s
    else Sleep (ChPipeRead a) (LkPipe a) (KCtx (LkPipe a :: h) w) s
           (λ s', wait_data a f (KCtx (LkPipe a :: h) []) s')
  else Ok true (KCtx (LkPipe a :: h) w) s.
Proof.
  intros H. cbn [wait_data]. rewrite kget_bind.
  destruct (decide (readp (pp s) = writep (pp s) ∧ writeopen (pp s) = true)) as [F|F];
    rewrite (holds_empty _ _ H) in F; [rewrite decide_True by done|by rewrite decide_False by done].
  destruct (killed s); [done|].
  unfold sleep, mbind, M_bind. cbn [obind held woken]. rewrite decide_True by inl. done.
Qed.

Lemma release_ret {A} w (s : pst) (r : A) :
  (release (LkPipe a);; mret r) (KCtx (LkPipe a :: h) w) s = Ok r (KCtx h w) s.
Proof. by rewrite (bind_Ok _ _ _ _ _ _ _ (release_ok _ _ _ _ Hh)). Qed.

Lemma wakeup_bind {A} ch w k (s : pst) (m : M pst A) :
  (wakeup ch;; m) (KCtx k w) s = m (KCtx k (w ++ [ch])) s.
Proof. done. Qed.

Lemma write_at_post f1 fuel s w l b rest i :
  holds (pp s) l →
  (∀ s l i, holds (pp s) l →
     write_post fuel s w l rest i (pipewrite_loop a fuel rest i (KCtx (LkPipe a :: h) w) s)) →
  write_post fuel s w l (b :: rest) i (write_at f1 fuel b rest i (KCtx (LkPipe a :: h) w) s).
Proof.
  intros H IH. destruct f1 as [|f1]; [done|]. pose proof (wait_room_run f1 w s l H) as E.
  unfold write_at. destruct (decide (length l = 512%nat)) as [F|F].
  - destruct (negb (readopen (pp s)) || killed s) eqn:G.
    + rewrite (bind_Ok _ _ _ _ _ _ _ E), release_ret.
      split; [done|]. exists [], (b :: rest). split; [done|]. split; [by apply pushed_nil|].
      right. split_and!; try done. apply orb_true_iff in G as [G|G]; [left|by right].
      by destruct (readopen (pp s)).
    + unfold mbind at 1, M_bind at 1. rewrite E. cbn [obind].
      apply orb_false_iff in G as [G _]. split_and!; try done; [by destruct (readopen (pp s))|].
      exists [], b, rest, f1. split_and!; [done|by apply pushed_nil|by rewrite app_nil_r|].
      intros s''. cbn [length Z.of_nat]. by rewrite Z.add_0_r.
  - rewrite (bind_Ok _ _ _ _ _ _ _ E). pose proof (holds_fits _ _ H).
    apply write_post_cons; [done|lia|].
    apply IH. apply store_holds; [done|lia].
Qed.

Lemma pipewrite_loop_post fuel rest : ∀ s w l i, holds (pp s) l →
  write_post fuel s w l rest i (pipewrite_loop a fuel rest i (KCtx (LkPipe a :: h) w) s).
Proof.
  induction rest as [|b rest IH]; intros s w l i H.
  - cbn [pipewrite_loop]. rewrite wakeup_bind, release_ret.
    split; [done|]. exists [], []. split; [done|]. split; [by apply pushed_nil|].
    left. split_and!; [simpl; lia|done..].
  - apply write_at_post; [done|]. intros. by apply IH.
Qed.

Lemma pipewrite_post fuel d s w l : holds (pp s) l →
  write_post fuel s w l d 0 (pipewrite a fuel d (KCtx h w) s).
Proof.
  intros H. unfold pipewrite. rewrite (bind_Ok _ _ _ _ _ _ _ (acquire_ok _ (KCtx h w) _ Hh)).
  by apply pipewrite_loop_post.
Qed.

Lemma write_resume_post f1 fuel s w l b rest i : holds (pp s) l →
  write_post fuel s w l (b :: rest) i (write_at f1 fuel b rest i (KCtx (LkPipe a :: h) w) s).
Proof. intros H. apply write_at_post; [done|]. intros. by apply pipewrite_loop_post. Qed.

Lemma piperead_loop_run n : ∀ l addr c s, holds (pp s) l →
  ∃ p', piperead_loop n addr c s = Ok (addr ++ take n l) c (Pst p' (killed s)) ∧
        popped (pp s) p' (take n l) (drop n l).
Proof.
  induction n as [|n IH]; intros l addr c s H; cbn [piperead_loop].
  - exists (pp s). cbn [take drop]. rewrite app_nil_r. split; [by destruct s|]. split; try done.
    simpl. rewrite Z.add_0_r. symmetry. apply (holds_readp _ _ H).
  - rewrite kget_bind. destruct (decide (readp (pp s) = writep (pp s))) as [E|E];
      rewrite (holds_empty _ _ H) in E.
    + subst. exists (pp s). cbn [take drop]. rewrite app_nil_r. split; [by destruct s|]. split; try done.
      simpl. rewrite Z.add_0_r. symmetry. apply (holds_readp _ _ H).
    + destruct l as [|v l]; [done|]. destruct PIPESIZE_ok as [B D].
      destruct (ring_pop _ B D _ _ _ _ (holds_ring _ _ H)) as [G R]. rewrite G.
      unfold set_pipe. rewrite kmodify_bind.
      edestruct (IH l (addr ++ [v]) c (Pst (Pipe (readopen (pp s)) (writeopen (pp s)) (writep (pp s))
        (u32 (readp (pp s) + 1)) (data (pp s))) (killed s))) as (p' & -> & [P1 P2 P3 P4 P5]).
      { split; simpl; [done| |by unfold u32; rewrite Zmod_mod]. rewrite (holds_writep _ _ H), u32_u32_add.
        f_equal. simpl. lia. }
      exists p'. rewrite <- app_assoc. split; [done|]. split; try done.
      rewrite P4. simpl. rewrite u32_u32_add. f_equal. lia.
Qed.

Lemma read_at_post fuel s w l n : holds (pp s) l →
  read_post s w l n (read_at fuel n (KCtx (LkPipe a :: h) w) s).
Proof.
  intros H. destruct fuel as [|fuel]; [done|]. pose proof (wait_data_run fuel w s l H) as E.
  unfold read_at. destruct (decide (l = [] ∧ writeopen (pp s) = true)) as [[-> W]|F].
  - destruct (killed s) eqn:K.
    + rewrite (bind_Ok _ _ _ _ _ _ _ E). unfold piperead_tail. by rewrite release_ret.
    + unfold mbind at 1, M_bind at 1. rewrite E. cbn [obind]. split_and!; try done. by exists fuel.
  - rewrite (bind_Ok _ _ _ _ _ _ _ E). unfold piperead_tail.
    destruct (piperead_loop_run (Z.to_nat n) l [] (KCtx (LkPipe a :: h) w) s H) as (p' & E' & P).
    rewrite (bind_Ok _ _ _ _ _ _ _ E'), wakeup_bind, release_ret. split_and!; try done.
    intros ->. by destruct (writeopen (pp s)); [destruct F|].
Qed.

Lemma piperead_post fuel s w l n : holds (pp s) l →
  read_post s w l n (piperead a fuel n (KCtx h w) s).
Proof.
  intros H. unfold piperead. rewrite (bind_Ok _ _ _ _ _ _ _ (acquire_ok _ (KCtx h w) _ Hh)).
  by apply read_at_post.
Qed.
End sections.

(** ** Any interleaving of calls *)

(** A call suspended in [sleep]: a write of [d] that has stored [put], or a read of
    [n] bytes, with the continuation it resumes at. *)
Inductive call :=
| Writing (d put : list Z) (k : pst → outcome pst Z)
| Reading (n : Z) (k : pst → outcome pst (option (list Z))).

Record sleeper := Sleeper { on : chan_id; roused : bool; what : call }.

(** The pipe, the calls asleep, the bytes stored so far in the order they were
    stored, the finished writes (buffer, bytes stored, result) and the results of
    the finished reads in the order they finished. *)
Record sys := Sys {
  sp : pipe;
  asleep : list sleeper;
  stored_log : list Z;
  wrote : list (list Z * list Z * Z);
  got : list (option (list Z));
  broken : bool
}.

Definition rouse (ws : list chan_id) (ss : list sleeper) : list sleeper :=
  (λ t, if decide (on t ∈ ws) then Sleeper (on t) true (what t) else t) <$> ss.

(** The bytes between the write counters before and after a section. *)
Definition stored (p p' : pipe) : list Z :=
  ring_slice PIPESIZE (data p') (writep p) (Z.to_nat (u32 (writep p' - writep p))).

Definition after_write (d put : list Z) (ss : list sleeper) (σ : sys) (o : outcome pst Z) : sys :=
  match o with
  | Ok r c' s' =>
      let bs := stored (sp σ) (pp s') in
      Sys (pp s') (rouse (woken c') ss) (stored_log σ ++ bs) (wrote σ ++ [(d, put ++ bs, r)]) (got σ) (broken σ)
  | Sleep ch _ c' s' k =>
      let bs := stored (sp σ) (pp s') in
      Sys (pp s') (rouse (woken c') ss ++ [Sleeper ch false (Writing d (put ++ bs) k)])
        (stored_log σ ++ bs) (wrote σ) (got σ) (broken σ)
  | _ => Sys (sp σ) ss (stored_log σ) (wrote σ) (got σ) true
  end.

Definition after_read (n : Z) (ss : list sleeper) (σ : sys) (o : outcome pst (option (list Z))) : sys :=
  match o with
  | Ok r c' s' => Sys (pp s') (rouse (woken c') ss) (stored_log σ) (wrote σ) (got σ ++ [r]) (broken σ)
  | Sleep ch _ c' s' k =>
      Sys (pp s') (rouse (woken c') ss ++ [Sleeper ch false (Reading n k)])
        (stored_log σ) (wrote σ) (got σ) (broken σ)
  | _ => Sys (sp σ) ss (stored_log σ) (wrote σ) (got σ) true
  end.

Definition after_close (σ : sys) (o : outcome pst unit) : sys :=
  match o with
  | Ok _ c' s' => Sys (pp s') (rouse (woken c') (asleep σ)) (stored_log σ) (wrote σ) (got σ) (broken σ)
  | _ => Sys (sp σ) (asleep σ) (stored_log σ) (wrote σ) (got σ) true
  end.

(** A [pipeclose] after its locked part: about to test the two flags, or about to
    free the page. *)
Inductive closer := Testing | Freeing.

(** The calls, the closes in progress, the page allocator, whether the page has
    been freed, and whether it has been used or freed again since. *)
Record world := World {
  calls : sys;
  closing : list closer;
  w_mem : kmem;
  freed : bool;
  misused : bool
}.

Definition set_calls (ω : world) (σ : sys) : world :=
  World σ (closing ω) (w_mem ω) (freed ω) (misused ω).

Definition after_test (i : nat) (ω : world) (o : outcome pst bool) : world :=
  match o with
  | Ok unused _ _ =>
      World (calls ω) (if unused then <[i := Freeing]> (closing ω) else delete i (closing ω))
        (w_mem ω) (freed ω) (misused ω)
  | _ => World (calls ω) (closing ω) (w_mem ω) (freed ω) true
  end.

Definition after_free (i : nat) (ω : world) (o : outcome kmem unit) : world :=
  match o with
  | Ok _ _ m => World (calls ω) (delete i (closing ω)) m true (misused ω)
  | _ => World (calls ω) (closing ω) (w_mem ω) (freed ω) true
  end.

(** What a section does to the pipe: a new write or read, a call that resumes, and
    the three sections of a [pipeclose]. *)
Inductive access := AWrite | ARead | AResume (i : nat) | AClose (w : bool) | ATest (i : nat) | AFree (i : nat).

(** The sections that read or write the page. *)
Definition touches (ac : access) (ω : world) : Prop :=
  match ac with
  | AWrite | ARead | AClose _ => True
  | AResume i => roused <$> asleep (calls ω) !! i = Some true
  | ATest i => closing ω !! i = Some Testing
  | AFree _ => False
  end.

(** One section of one thread.  [K]: processes may be killed at any time. *)
Inductive pstep (a : Z) (K : bool) : access → world → world → Prop :=
| st_write ω σ d fuel kf o : implb kf K = true → calls ω = σ → freed ω = false →
    o = pipewrite a fuel d (KCtx [] []) (Pst (sp σ) kf) → o ≠ Diverge →
    pstep a K AWrite ω (set_calls ω (after_write d [] (asleep σ) σ o))
| st_read ω σ n fuel kf o : implb kf K = true → calls ω = σ → freed ω = false →
    o = piperead a fuel n (KCtx [] []) (Pst (sp σ) kf) → o ≠ Diverge →
    pstep a K ARead ω (set_calls ω (after_read n (asleep σ) σ o))
| st_rewrite ω σ i ch d put k kf o : implb kf K = true → calls ω = σ → freed ω = false →
    asleep σ !! i = Some (Sleeper ch true (Writing d put k)) →
    o = k (Pst (sp σ) kf) → o ≠ Diverge →
    pstep a K (AResume i) ω (set_calls ω (after_write d put (delete i (asleep σ)) σ o))
| st_reread ω σ i ch n k kf o : implb kf K = true → calls ω = σ → freed ω = false →
    asleep σ !! i = Some (Sleeper ch true (Reading n k)) →
    o = k (Pst (sp σ) kf) → o ≠ Diverge →
    pstep a K (AResume i) ω (set_calls ω (after_read n (delete i (asleep σ)) σ o))
| st_close ω w kf o : freed ω = false →
    o = pipeclose_locked a w (KCtx [] []) (Pst (sp (calls ω)) kf) →
    pstep a K (AClose w) ω (World (after_close (calls ω) o) (closing ω ++ [Testing]) (w_mem ω) (freed ω) (misused ω))
| st_test ω i kf o : freed ω = false → closing ω !! i = Some Testing →
    o = pipeclose_unused (KCtx [] []) (Pst (sp (calls ω)) kf) →
    pstep a K (ATest i) ω (after_test i ω o)
| st_free ω i o : closing ω !! i = Some Freeing → o = kfree a PAGE (KCtx [] []) (w_mem ω) →
    pstep a K (AFree i) ω (after_free i ω o)
| st_touch ω ac : freed ω = true → touches ac ω →
    pstep a K ac ω (World (calls ω) (closing ω) (w_mem ω) (freed ω) true).

Definition sstep (a : Z) (K : bool) (ω ω' : world) : Prop := ∃ ac, pstep a K ac ω ω'.

(** What file.c lets its callers do, when the closes of the two ends do not
    overlap: an end is used only while it is open and closed only once, when no call
    uses it. *)
Definition writer (t : sleeper) : bool := match what t with Writing _ _ _ => true | Reading _ _ => false end.
Definition end_open (w : bool) (p : pipe) : bool := if w then writeopen p else readopen p.
Definition proper (ac : access) (ω : world) : Prop :=
  match ac with
  | AWrite => writeopen (sp (calls ω)) = true
  | ARead => readopen (sp (calls ω)) = true
  | AClose w => end_open w (sp (calls ω)) = true ∧ closing ω = [] ∧
      Forall (λ t, writer t ≠ w) (asleep (calls ω))
  | AResume _ | ATest _ | AFree _ => True
  end.
Definition dstep (a : Z) (K : bool) (ω ω' : world) : Prop := ∃ ac, proper ac ω ∧ pstep a K ac ω ω'.

(** What pipealloc leaves in the page: both ends open, counters 0. *)
Definition new_pipe (junk : list Z) : pipe := Pipe true true 0 0 junk.
Definition sys_init (junk : list Z) : sys := Sys (new_pipe junk) [] [] [] [] false.
Definition world_init (junk : list Z) (m : kmem) : world := World (sys_init junk) [] m false false.

(** The contents of the pipe. *)
Definition contents (p : pipe) : list Z :=
  ring_slice PIPESIZE (data p) (readp p) (Z.to_nat (u32 (writep p - readp p))).

Definition write_done (w : list Z * list Z * Z) : Prop :=
  let '(d, put, r) := w in
  ∃ rest, d = put ++ rest ∧ (r = Z.of_nat (length d) ∧ rest = [] ∨ r = -1 ∧ rest ≠ []).

(** A call asleep and not woken waits for something that has not happened. *)
Definition waits (K : bool) (p : pipe) (l : list Z) (t : sleeper) : Prop :=
  match what t with
  | Writing _ _ _ => length l = 512%nat ∧ readopen p = true
  | Reading _ _ => K = true ∨ readopen p = false ∨ l = [] ∧ writeopen p = true
  end.

Definition at_point (a : Z) (t : sleeper) : Prop :=
  match what t with
  | Writing d put k =>
      on t = ChPipeWrite a ∧ ∃ b rest f1 f0, d = put ++ b :: rest ∧
      ∀ s, k s = write_at a f1 f0 b rest (Z.of_nat (length put)) (KCtx [LkPipe a] []) s
  | Reading n k =>
      on t = ChPipeRead a ∧ ∃ f1, ∀ s, k s = read_at a f1 n (KCtx [LkPipe a] []) s
  end.

Record sys_ok (a : Z) (K : bool) (σ : sys) (l : list Z) : Prop := {
  so_holds : holds (sp σ) l;
  so_fifo : concat (omap id (got σ)) ++ l = stored_log σ;
  so_wrote : Forall write_done (wrote σ);
  so_points : Forall (at_point a) (asleep σ);
  so_waits : Forall (λ t, roused t = false → waits K (sp σ) l t) (asleep σ);
  so_fine : broken σ = false
}.

Lemma stored_pushed p p' l bs : holds p l → pushed p p' l bs → stored p p' = bs.
Proof.
  intros H [P1 _ _ P4]. unfold stored. destruct PIPESIZE_ok as [B D].
  pose proof (holds_fits _ _ P1) as F. rewrite length_app in F.
  rewrite (holds_writep _ _ P1), (holds_writep _ _ H), P4, length_app, Nat2Z.inj_add, Z.add_assoc.
  rewrite u32_diff, Nat2Z.id by lia. rewrite <- P4.
  apply (ring_slice_correct _ _ _ _ []). rewrite app_nil_r. apply ring_drop; [done..|].
  apply (holds_ring _ _ P1).
Qed.

Lemma contents_holds p l : holds p l → contents p = l.
Proof.
  intros H. unfold contents. pose proof (holds_fits _ _ H) as F.
  rewrite (holds_writep _ _ H). rewrite <- (holds_readp _ _ H) at 3.
  rewrite u32_diff, Nat2Z.id by lia. apply (ring_slice_correct _ _ _ _ []). rewrite app_nil_r.
  apply (holds_ring _ _ H).
Qed.

Section system.
Context (a : Z) (K : bool).

(** The sleepers of a system in order, given the pipe contents. *)
Definition sleepers_ok (p : pipe) (l : list Z) (ss : list sleeper) : Prop :=
  Forall (at_point a) ss ∧ Forall (λ t, roused t = false → waits K p l t) ss.

Lemma rouse_ok ws p l p' l' ss :
  sleepers_ok p l ss →
  (∀ t, at_point a t → on t ∉ ws → waits K p l t → waits K p' l' t) →
  sleepers_ok p' l' (rouse ws ss).
Proof.
  intros [H1 H2] H. unfold rouse. split; rewrite Forall_fmap; rewrite Forall_forall in *.
  - intros t Ht. simpl. case_decide; [|by apply H1]. apply (H1 t Ht).
  - intros t Ht. simpl. case_decide as D; [done|]. intros R. apply H; auto.
Qed.

Lemma sleepers_delete p l ss i : sleepers_ok p l ss → sleepers_ok p l (delete i ss).
Proof. intros [H1 H2]. split; by apply Forall_delete. Qed.

Lemma sleepers_snoc p l ss t :
  sleepers_ok p l ss → at_point a t → waits K p l t → sleepers_ok p l (ss ++ [t]).
Proof. intros [H1 H2] Ht W. split; apply Forall_app; split; auto; repeat constructor; auto. Qed.

(** What stays true of a sleeper that a section did not wake. *)
Lemma waits_pushed p p' l bs t :
  pushed p p' l bs → on t ∉ [ChPipeRead a] → at_point a t → holds p l →
  waits K p l t → waits K p' (l ++ bs) t.
Proof.
  intros P Hn Hp H. unfold waits. unfold at_point in Hp. pose proof (holds_fits _ _ (pushed_holds _ _ _ _ P)) as F.
  destruct (what t).
  - intros [E R]. rewrite (pushed_ro _ _ _ _ P). split; [|done]. rewrite length_app in *. lia.
  - destruct Hp as [Hp _]. destruct Hn. rewrite Hp. by apply list_elem_of_singleton.
Qed.

Lemma waits_stuck p p' l bs kf t :
  pushed p p' l bs → readopen p = false ∨ kf = true → implb kf K = true → holds p l →
  waits K p l t → waits K p' (l ++ bs) t.
Proof.
  intros P G HK H. unfold waits. pose proof (holds_fits _ _ (pushed_holds _ _ _ _ P)) as F.
  destruct (what t).
  - intros [E R]. rewrite (pushed_ro _ _ _ _ P). split; [|done]. rewrite length_app in *. lia.
  - intros _. destruct G as [G| ->]; [right; left; by rewrite (pushed_ro _ _ _ _ P)|by left].
Qed.

Lemma waits_popped p p' bs l l' t :
  popped p p' bs l' → l = bs ++ l' → on t ∉ [ChPipeWrite a] → at_point a t →
  waits K p l t → waits K p' l' t.
Proof.
  intros P -> Hn Hp. unfold waits. unfold at_point in Hp.
  destruct (what t); [destruct Hp as [Hp _]; destruct Hn; rewrite Hp; by apply list_elem_of_singleton|].
  rewrite (popped_ro _ _ _ _ P), (popped_wo _ _ _ _ P). intros [W|[W|[W1 W2]]]; auto.
  apply app_nil in W1 as [-> ->]. auto.
Qed.

Lemma after_write_ok fuel d put rest ss σ l kf o :
  sys_ok a K σ l → sleepers_ok (sp σ) l ss → implb kf K = true → d = put ++ rest → o ≠ Diverge →
  write_post a [] fuel (Pst (sp σ) kf) [] l rest (Z.of_nat (length put)) o →
  ∃ l', sys_ok a K (after_write d put ss σ o) l'.
Proof.
  intros S SS HK Hd Hdiv P. destruct o as [r c' s'| | | |ch lk c' s' k]; try done; simpl in P.
  - destruct P as (_ & bs & rest' & -> & Pu & D). exists (l ++ bs). simpl.
    rewrite (stored_pushed _ _ _ _ (so_holds _ _ _ _ S) Pu).
    assert (sleepers_ok (pp s') (l ++ bs) (rouse (woken c') ss)) as [S1 S2].
    { eapply rouse_ok; [exact SS|]. intros t Hp Hn W. pose proof (so_holds _ _ _ _ S).
      destruct D as [(_ & _ & ->)|(_ & G & _ & ->)].
      - by eapply waits_pushed.
      - by eapply waits_stuck. }
    split; simpl; try done; [apply Pu| | |apply S].
    + by rewrite app_assoc, (so_fifo _ _ _ _ S).
    + apply Forall_app. split; [apply S|]. constructor; [|done]. exists rest'. subst d.
      split; [by rewrite app_assoc|]. destruct D as [(-> & -> & _)|(-> & _ & Hne & _)]; [left|by right].
      split; [|done]. rewrite !length_app. lia.
  - destruct P as (-> & -> & -> & Hro & bs & b & rest' & f1 & -> & Pu & F & E). exists (l ++ bs). simpl.
    rewrite (stored_pushed _ _ _ _ (so_holds _ _ _ _ S) Pu).
    assert (sleepers_ok (pp s') (l ++ bs) (rouse [ChPipeRead a] ss ++
      [Sleeper (ChPipeWrite a) false (Writing d (put ++ bs) k)])) as [S1 S2].
    { apply sleepers_snoc.
      - eapply rouse_ok; [exact SS|]. intros t Hp Hn W. eapply waits_pushed; try done. apply S.
      - split; [done|]. exists b, rest', f1, fuel. split; [by rewrite <- app_assoc|].
        intros s. rewrite E. by rewrite length_app, Nat2Z.inj_add.
      - split; [done|]. by rewrite (pushed_ro _ _ _ _ Pu). }
    split; simpl; try done; [apply Pu| |apply S|apply S].
    by rewrite app_assoc, (so_fifo _ _ _ _ S).
Qed.

Lemma after_read_ok n ss σ l kf o :
  sys_ok a K σ l → sleepers_ok (sp σ) l ss → implb kf K = true → o ≠ Diverge →
  read_post a [] (Pst (sp σ) kf) [] l n o →
  ∃ l', sys_ok a K (after_read n ss σ o) l'.
Proof.
  intros S SS HK Hdiv P. destruct o as [[bs|] c' s'| | | |ch lk c' s' k]; try done; simpl in P.
  - destruct P as (_ & -> & Hbs & Po & _). exists (drop (Z.to_nat n) l).
    assert (E : l = bs ++ drop (Z.to_nat n) l) by (by rewrite Hbs, take_drop).
    assert (sleepers_ok (pp s') (drop (Z.to_nat n) l) (rouse [ChPipeWrite a] ss)) as [S1 S2].
    { eapply rouse_ok; [exact SS|]. intros t Hp Hn W. by eapply waits_popped. }
    split; simpl; try done; [apply Po| |apply S|apply S].
    rewrite omap_app, concat_app. simpl. rewrite app_nil_r, <- app_assoc, <- E. apply S.
  - destruct P as (-> & _ & ->). exists l.
    assert (sleepers_ok (sp σ) l (rouse [] ss)) as [S1 S2] by (eapply rouse_ok; [exact SS|done]).
    split; simpl; try done; [apply S| |apply S|apply S].
    rewrite omap_app, concat_app. simpl. rewrite app_nil_r. apply S.
  - destruct P as (-> & -> & -> & -> & -> & W & f1 & E). exists [].
    assert (sleepers_ok (sp σ) [] (rouse [] ss ++ [Sleeper (ChPipeRead a) false (Reading n k)])) as [S1 S2].
    { apply sleepers_snoc; [eapply rouse_ok; [exact SS|done]| |by right; right].
      split; [done|]. by exists f1. }
    split; simpl; try done; apply S.
Qed.

Lemma pipeclose_locked_run w s :
  pipeclose_locked a w (KCtx [] []) s =
  Ok () (KCtx [] [if w then ChPipeRead a else ChPipeWrite a])
    (Pst (if w then Pipe (readopen (pp s)) false (writep (pp s)) (readp (pp s)) (data (pp s))
          else Pipe false (writeopen (pp s)) (writep (pp s)) (readp (pp s)) (data (pp s))) (killed s)).
Proof.
  unfold pipeclose_locked. rewrite (bind_Ok _ _ _ _ _ _ _ (acquire_ok (LkPipe a) (KCtx [] []) s (not_elem_of_nil _))).
  destruct w; unfold mbind at 1, M_bind at 1; cbn -[release]; apply release_ok, not_elem_of_nil.
Qed.

Lemma after_close_ok σ l w kf :
  sys_ok a K σ l → sys_ok a K (after_close σ (pipeclose_locked a w (KCtx [] []) (Pst (sp σ) kf))) l.
Proof.
  intros S. rewrite pipeclose_locked_run. cbn [after_close pp killed woken].
  pose proof (so_holds _ _ _ _ S) as [R W P].
  match goal with |- sys_ok _ _ (Sys ?p (rouse ?ws _) _ _ _ _) _ =>
    assert (sleepers_ok p l (rouse ws (asleep σ))) as [S1 S2] end.
  { eapply rouse_ok; [split; apply S|]. intros t Hp Hn Hw. unfold waits, at_point in *.
    destruct w, (what t); simpl in *; try done.
    - destruct Hp as [Hp _]. destruct Hn. rewrite Hp. by apply list_elem_of_singleton.
    - destruct Hp as [Hp _]. destruct Hn. rewrite Hp. by apply list_elem_of_singleton.
    - destruct Hw as [?|[?|?]]; auto. }
  split; simpl; try done; try apply S. by destruct w.
Qed.

Lemma pstep_ok ac ω ω' l : sys_ok a K (calls ω) l → pstep a K ac ω ω' → ∃ l', sys_ok a K (calls ω') l'.
Proof.
  intros S St.
  assert (SS : sleepers_ok (sp (calls ω)) l (asleep (calls ω))) by (split; apply S).
  pose proof (so_holds _ _ _ _ S) as H.
  assert (Hn : LkPipe a ∉ []) by apply not_elem_of_nil.
  destruct St as [ω σ d fuel kf o HK <- Hf Ho Hd|ω σ n fuel kf o HK <- Hf Ho Hd|ω σ i ch d put k kf o HK <- Hf Hi Ho Hd
    |ω σ i ch n k kf o HK <- Hf Hi Ho Hd|ω w kf o Hf Ho|ω i kf o Hf Hi Ho|ω i o Hi Ho|ω ac Hf Ht]; simpl.
  - eapply after_write_ok; try done. rewrite Ho. by apply pipewrite_post.
  - eapply after_read_ok; try done. rewrite Ho. by apply piperead_post.
  - destruct (Forall_lookup_1 _ _ _ _ (so_points _ _ _ _ S) Hi) as [_ (b & rest & f1 & f0 & E & Ek)].
    eapply after_write_ok; try done; [by apply sleepers_delete|]. rewrite Ho, Ek. by apply write_resume_post.
  - destruct (Forall_lookup_1 _ _ _ _ (so_points _ _ _ _ S) Hi) as [_ [f1 Ek]].
    eapply after_read_ok; try done; [by apply sleepers_delete|]. rewrite Ho, Ek. by apply read_at_post.
  - exists l. rewrite Ho. by apply after_close_ok.
  - exists l. by destruct o.
  - exists l. by destruct o.
  - by exists l.
Qed.

(** *** What a section leaves alone *)
Definition flags (p : pipe) : bool * bool := (readopen p, writeopen p).

(** Who waits on the end that [w] names. *)
Definition no_user (w : bool) (ss : list sleeper) : Prop := Forall (λ t, writer t ≠ w) ss.

Lemma no_user_rouse w ws ss : no_user w ss → no_user w (rouse ws ss).
Proof.
  unfold no_user, rouse. rewrite Forall_fmap, !Forall_forall. intros H t Ht. simpl.
  case_decide; [|by apply H]. apply (H t Ht).
Qed.

Lemma after_write_frame fuel d put rest ss σ l kf i o :
  write_post a [] fuel (Pst (sp σ) kf) [] l rest i o → o ≠ Diverge →
  flags (sp (after_write d put ss σ o)) = flags (sp σ) ∧
  (no_user false ss → no_user false (asleep (after_write d put ss σ o))).
Proof.
  unfold flags. intros P Hd. destruct o as [r c' s'| | | |ch lk c' s' k]; try done; simpl in *.
  - destruct P as (_ & bs & rest' & _ & [_ -> -> _] & _). split; [done|]. apply no_user_rouse.
  - destruct P as (_ & _ & _ & _ & bs & b & rest' & f1 & _ & [_ -> -> _] & _). split; [done|].
    intros N. apply Forall_app. split; [by apply no_user_rouse|]. by repeat constructor.
Qed.

Lemma after_read_frame n ss σ l kf o :
  read_post a [] (Pst (sp σ) kf) [] l n o → o ≠ Diverge →
  flags (sp (after_read n ss σ o)) = flags (sp σ) ∧
  (no_user true ss → no_user true (asleep (after_read n ss σ o))).
Proof.
  unfold flags. intros P Hd. destruct o as [[bs|] c' s'| | | |ch lk c' s' k]; try done; simpl in *.
  - destruct P as (_ & _ & _ & [_ -> -> _ _] & _). split; [done|]. apply no_user_rouse.
  - destruct P as (-> & _). split; [done|]. apply no_user_rouse.
  - destruct P as (_ & _ & _ & -> & _). split; [done|]. intros N. apply Forall_app.
    split; [by apply no_user_rouse|]. by repeat constructor.
Qed.

Definition is_shut (p : pipe) : bool := negb (readopen p) && negb (writeopen p).

Lemma flags_shut p p' : flags p' = flags p → is_shut p' = is_shut p.
Proof. unfold flags, is_shut. by intros [= -> ->]. Qed.

(** A close that is about to free the page, or has done so, saw both ends closed,
    and an end once closed stays closed. *)
Definition free_ok (ω : world) : Prop :=
  freed ω = true ∨ Freeing ∈ closing ω → is_shut (sp (calls ω)) = true.

Lemma pstep_flags ac ω ω' l :
  sys_ok a K (calls ω) l → pstep a K ac ω ω' → match ac with AClose _ => True | _ => flags (sp (calls ω')) = flags (sp (calls ω)) end.
Proof.
  intros S St. pose proof (so_holds _ _ _ _ S) as H. assert (Hn : LkPipe a ∉ []) by apply not_elem_of_nil.
  destruct St as [ω σ d fuel kf o HK <- Hf Ho Hd|ω σ n fuel kf o HK <- Hf Ho Hd|ω σ i ch d put k kf o HK <- Hf Hi Ho Hd
    |ω σ i ch n k kf o HK <- Hf Hi Ho Hd|ω w kf o Hf Ho|ω i kf o Hf Hi Ho|ω i o Hi Ho|ω ac Hf Ht]; simpl.
  - eapply after_write_frame; [|done]. rewrite Ho. by apply pipewrite_post.
  - eapply after_read_frame; [|done]. rewrite Ho. by apply piperead_post.
  - destruct (Forall_lookup_1 _ _ _ _ (so_points _ _ _ _ S) Hi) as [_ (b & rest & f1 & f0 & E & Ek)].
    eapply after_write_frame; [|done]. rewrite Ho, Ek. by apply write_resume_post.
  - destruct (Forall_lookup_1 _ _ _ _ (so_points _ _ _ _ S) Hi) as [_ [f1 Ek]].
    eapply after_read_frame; [|done]. rewrite Ho, Ek. by apply read_at_post.
  - done.
  - by destruct o.
  - by destruct o.
  - by destruct ac.
Qed.

Lemma after_close_shut ω w kf :
  is_shut (sp (calls ω)) = true →
  is_shut (sp (after_close (calls ω) (pipeclose_locked a w (KCtx [] []) (Pst (sp (calls ω)) kf)))) = true.
Proof.
  rewrite pipeclose_locked_run. unfold is_shut. intros [E1 E2]%andb_true_iff.
  destruct w; simpl; by rewrite ?E1, ?E2.
Qed.

Lemma pstep_free ac ω ω' l : sys_ok a K (calls ω) l → free_ok ω → pstep a K ac ω ω' → free_ok ω'.
Proof.
  intros S F St. pose proof (pstep_flags _ _ _ _ S St) as Fl. unfold free_ok in *.
  destruct St as [ω σ d fuel kf o HK <- Hf Ho Hd|ω σ n fuel kf o HK <- Hf Ho Hd|ω σ i ch d put k kf o HK <- Hf Hi Ho Hd
    |ω σ i ch n k kf o HK <- Hf Hi Ho Hd|ω w kf o Hf Ho|ω i kf o Hf Hi Ho|ω i o Hi Ho|ω ac Hf Ht]; simpl in *;
    try (rewrite (flags_shut _ _ Fl); exact F).
  - intros [G|G]; [congruence|]. rewrite Ho. apply after_close_shut. apply F. right. inl.
  - rewrite Ho. unfold pipeclose_unused, kgets. simpl. destruct (is_shut (sp (calls ω))) eqn:E; [done|].
    unfold is_shut in E. rewrite E. simpl. intros [G|G]; [congruence|]. apply F. right.
    eapply elem_of_submseteq; [exact G|]. apply sublist_submseteq, sublist_delete.
  - assert (is_shut (sp (calls ω)) = true) by (apply F; right; by eapply list_elem_of_lookup_2).
    by destruct o.
  - exact F.
Qed.

Lemma world_reach junk m ω :
  length junk = 512%nat → rtc (sstep a K) (world_init junk m) ω → (∃ l, sys_ok a K (calls ω) l) ∧ free_ok ω.
Proof.
  intros Hj. eapply (rtc_ind_r (λ ω, (∃ l, sys_ok a K (calls ω) l) ∧ free_ok ω)).
  - split; [by exists []|]. intros [G|G]; [done|by apply elem_of_nil in G].
  - intros ω1 ω2 _ [ac St] [[l H] F]. split; [by eapply pstep_ok|by eapply pstep_free].
Qed.

(** *** Closes that do not overlap *)

(** The page of the pipe, not free. *)
Record page_held (m : kmem) (rs : list (Z * Z)) : Prop := {
  ph_alloc : allocator m rs;
  ph_addr : 0 < a ∧ a + PAGE ≤ MEMTOP ∧ (PAGE | a);
  ph_used x : a ≤ x < a + PAGE → ¬ free rs x
}.

(** The page goes back to the allocator exactly when the second of the two closes
    ends. *)
Record tidy (rs : list (Z * Z)) (ω : world) : Prop := {
  td_fine : misused ω = false;
  td_mem : ∃ rs', allocator (w_mem ω) rs' ∧ ∀ x, free rs' x ↔ free rs x ∨ freed ω = true ∧ a ≤ x < a + PAGE;
  td_users w : end_open w (sp (calls ω)) = false → no_user w (asleep (calls ω));
  td_phase : closing ω = [] ∧ is_shut (sp (calls ω)) = freed ω ∨
    freed ω = false ∧ (closing ω = [Testing] ∨ closing ω = [Freeing] ∧ is_shut (sp (calls ω)) = true)
}.

(** A section that keeps the flags and the other end's sleepers. *)
Lemma tidy_calls rs ω σ w ss :
  tidy rs ω → flags (sp σ) = flags (sp (calls ω)) → end_open w (sp (calls ω)) = true →
  (∀ v, no_user v (asleep (calls ω)) → no_user v ss) →
  (no_user (negb w) ss → no_user (negb w) (asleep σ)) → tidy rs (set_calls ω σ).
Proof.
  intros [T1 T2 T3 T4] F Ho Hss N. split; simpl; try done.
  - intros v Hv. unfold end_open, flags in *. injection F as F1 F2.
    assert (end_open v (sp (calls ω)) = false) as Hv' by (unfold end_open; by destruct v; congruence).
    assert (v = negb w) as -> by (unfold end_open in *; destruct v, w; simpl; congruence). by apply N, Hss, T3.
  - by rewrite (flags_shut _ _ F).
Qed.

Lemma no_user_delete w i ss : no_user w ss → no_user w (delete i ss).
Proof. apply Forall_delete. Qed.

(** The end a suspended call uses is open. *)
Lemma user_open rs ω i t :
  tidy rs ω → asleep (calls ω) !! i = Some t → end_open (writer t) (sp (calls ω)) = true.
Proof.
  intros T Hi. destruct (end_open (writer t) (sp (calls ω))) eqn:E; [done|].
  by destruct (Forall_lookup_1 _ _ _ _ (td_users _ _ T _ E) Hi).
Qed.

Lemma tidy_close rs ω w kf :
  tidy rs ω → proper (AClose w) ω → freed ω = false →
  tidy rs (World (after_close (calls ω) (pipeclose_locked a w (KCtx [] []) (Pst (sp (calls ω)) kf)))
    (closing ω ++ [Testing]) (w_mem ω) (freed ω) (misused ω)).
Proof.
  intros [T1 T2 T3 T4] (Ho & Hc & N) Hf. rewrite pipeclose_locked_run. split; simpl; try done.
  - intros v Hv. apply no_user_rouse. destruct (decide (v = w)) as [->|]; [done|]. apply T3.
    destruct v, w; simpl in *; done.
  - right. rewrite Hc. auto.
Qed.

Lemma tidy_free m rs ω i :
  page_held m rs → tidy rs ω → closing ω !! i = Some Freeing →
  tidy rs (after_free i ω (kfree a PAGE (KCtx [] []) (w_mem ω))).
Proof.
  intros [_ (Ha & Ht & Hd) Hu] [T1 (rs' & A & Fr) T3 T4] Hi.
  destruct T4 as [[E _]|(Hf & [E|[E Sh]])]; rewrite E in Hi; destruct i as [|[|i]]; simplify_eq/=.
  destruct (kfree_run (KCtx [] []) (w_mem ω) rs' a PAGE A) as (m' & rs2 & -> & _ & A' & Fr'); try done.
  - apply not_elem_of_nil.
  - intros x Hx. rewrite Fr, Hf. intros [?|[? _]]; [by apply (Hu x)|done].
  - split; simpl; try done; [|by left; rewrite E]. exists rs2. split; [done|].
    intros x. rewrite Fr', Fr, Hf. naive_solver.
Qed.

Lemma tidy_step m rs ω ω' l :
  page_held m rs → sys_ok a K (calls ω) l → tidy rs ω → dstep a K ω ω' → tidy rs ω'.
Proof.
  intros P S T (ac & Hp & St). pose proof (so_holds _ _ _ _ S) as H.
  assert (Hn : LkPipe a ∉ []) by apply not_elem_of_nil.
  destruct St as [ω σ d fuel kf o HK <- Hf Ho Hd|ω σ n fuel kf o HK <- Hf Ho Hd|ω σ i ch d put k kf o HK <- Hf Hi Ho Hd
    |ω σ i ch n k kf o HK <- Hf Hi Ho Hd|ω w kf o Hf Ho|ω i kf o Hf Hi Ho|ω i o Hi Ho|ω ac Hf Ht].
  - edestruct (after_write_frame fuel d [] d (asleep (calls ω))) as [F N]; [rewrite Ho; by apply pipewrite_post|by rewrite <- Ho|].
    rewrite <- Ho in F, N. by apply (tidy_calls rs ω _ true (asleep (calls ω))).
  - edestruct (after_read_frame n (asleep (calls ω))) as [F N]; [rewrite Ho; by apply piperead_post|by rewrite <- Ho|].
    rewrite <- Ho in F, N. by apply (tidy_calls rs ω _ false (asleep (calls ω))).
  - destruct (Forall_lookup_1 _ _ _ _ (so_points _ _ _ _ S) Hi) as [_ (b & rest & f1 & f0 & E & Ek)].
    edestruct (after_write_frame f0 d put (b :: rest) (delete i (asleep (calls ω)))) as [F N]; [|exact Hd|].
    { rewrite Ho, Ek. by apply write_resume_post. }
    eapply (tidy_calls rs ω _ true); eauto using no_user_delete. by apply (user_open rs ω _ _ T Hi).
  - destruct (Forall_lookup_1 _ _ _ _ (so_points _ _ _ _ S) Hi) as [_ [f1 Ek]].
    edestruct (after_read_frame n (delete i (asleep (calls ω)))) as [F N]; [|exact Hd|].
    { rewrite Ho, Ek. by apply read_at_post. }
    eapply (tidy_calls rs ω _ false); eauto using no_user_delete. by apply (user_open rs ω _ _ T Hi).
  - rewrite Ho. by apply tidy_close.
  - destruct T as [T1 T2 T3 T4]. destruct T4 as [[E _]|(_ & [E|[E _]])]; rewrite E in Hi;
      destruct i as [|[|i]]; simplify_eq/=.
    unfold pipeclose_unused, kgets. simpl. fold (is_shut (sp (calls ω))).
    destruct (is_shut (sp (calls ω))) eqn:Sh; split; simpl; try done; rewrite E; [right; auto|left; split; [done|congruence]].
  - rewrite Ho. by eapply tidy_free.
  - exfalso. destruct T as [T1 T2 T3 T4]. destruct T4 as [[E Sh]|[? _]]; [|congruence].
    rewrite Hf in Sh. apply andb_true_iff in Sh as [R%negb_true_iff W%negb_true_iff].
    destruct ac as [| |i|w|i|i]; simpl in Hp, Ht; try congruence.
    + destruct (asleep (calls ω) !! i) as [t|] eqn:Hi; [|done].
      assert (no_user (writer t) (asleep (calls ω))) as N by (apply T3; unfold end_open; by destruct (writer t)).
      by destruct (Forall_lookup_1 _ _ _ _ N Hi).
    + destruct Hp as [Hp _]. destruct w; simpl in Hp; congruence.
    + by rewrite E in Ht.
Qed.

Lemma tidy_reach junk m rs ω :
  length junk = 512%nat → page_held m rs → rtc (dstep a K) (world_init junk m) ω → tidy rs ω.
Proof.
  intros Hj P R. cut ((∃ l, sys_ok a K (calls ω) l) ∧ tidy rs ω); [by intros [_ ?]|].
  revert R. eapply (rtc_ind_r (λ ω, (∃ l, sys_ok a K (calls ω) l) ∧ tidy rs ω)).
  - split; [by exists []|]. split; try done; try (by left). exists rs. split; [apply P|]. naive_solver.
  - intros ω1 ω2 _ D [[l H] T]. split; [|by eapply tidy_step]. destruct D as (ac & _ & St). by eapply pstep_ok.
Qed.
End system.

(** C9 A new pipe under any interleaving of the sections of [pipewrite], [piperead] and
    [pipeclose] calls, any kills included, is a queue: the results of the finished
    reads, in order, followed by the bytes in the pipe are exactly the bytes
    stored, in the order in which they were stored; a finished write has stored
    its whole buffer and returns its length, or stored a proper prefix and
    returns -1; no section panics or reads out of the ring while the page is the
    pipe's; and the page is freed only after both ends are closed.  When moreover
    each end is used only while it is open and closed once, and the two closes do not
    overlap, the page is not used or freed again after [kfree], exactly its bytes
    are given back to the allocator, and they are once both ends are closed and
    the closes have returned.  (Two closes that overlap free the page twice:
    [pipeclose_double_free].) *)
Theorem pipe_fifo a K junk m ω :
  length junk = 512%nat → rtc (sstep a K) (world_init junk m) ω →
  concat (omap id (got (calls ω))) ++ contents (sp (calls ω)) = stored_log (calls ω) ∧
  Forall write_done (wrote (calls ω)) ∧ broken (calls ω) = false ∧
  (freed ω = true → is_shut (sp (calls ω)) = true) ∧
  ∀ rs, page_held a m rs → rtc (dstep a K) (world_init junk m) ω →
    misused ω = false ∧ (closing ω = [] → freed ω = is_shut (sp (calls ω))) ∧
    ∃ rs', allocator (w_mem ω) rs' ∧ ∀ x, free rs' x ↔ free rs x ∨ freed ω = true ∧ a ≤ x < a + PAGE.
Proof.
  intros Hj R. destruct (world_reach _ _ _ _ _ Hj R) as [[l H] F].
  rewrite (contents_holds _ _ (so_holds _ _ _ _ H)). split_and!; try apply H; [intros G; apply F; by left|].
  intros rs P D. pose proof (tidy_reach _ _ _ _ _ _ Hj P D) as [T1 T2 _ T4]. split_and!; [done| |done].
  intros E. destruct T4 as [[_ ?]|(_ & [?|[? _]])]; congruence.
Qed.

(** C10 No wakeup is lost while no process is killed: a writer that is asleep and was
    not woken faces a full pipe whose read end is open, and a reader that is
    asleep and was not woken faces an empty pipe whose write end is open (or its
    own end has been closed meanwhile). *)
Theorem pipe_no_lost_wakeup a junk m ω t :
  length junk = 512%nat → rtc (sstep a false) (world_init junk m) ω →
  t ∈ asleep (calls ω) → roused t = false →
  match what t with
  | Writing _ _ _ => length (contents (sp (calls ω))) = 512%nat ∧ readopen (sp (calls ω)) = true
  | Reading _ _ => readopen (sp (calls ω)) = false ∨
      contents (sp (calls ω)) = [] ∧ writeopen (sp (calls ω)) = true
  end.
Proof.
  intros Hj R Ht Hr. destruct (world_reach _ _ _ _ _ Hj R) as [[l H] _].
  rewrite (contents_holds _ _ (so_holds _ _ _ _ H)).
  pose proof (so_waits _ _ _ _ H) as W. rewrite Forall_forall in W. specialize (W t Ht Hr).
  unfold waits in W. destruct (what t); [done|]. by destruct W.
Qed.

(** A killed writer loses a wakeup: it fills the pipe, finds it full, sees
    [killed] and returns -1 without waking the readers.  A reader that was asleep
    stays asleep on a full pipe whose two ends are open. *)
Theorem pipewrite_killed_lost_wakeup :
  ∃ ω σ, rtc (sstep 0 true) (world_init (replicate 512 0) (KMem 0 ∅)) ω ∧ σ = calls ω ∧
    roused <$> asleep σ = [false] ∧ (λ t, on t) <$> asleep σ = [ChPipeRead 0] ∧
    length (contents (sp σ)) = 512%nat ∧ readopen (sp σ) = true ∧ writeopen (sp σ) = true ∧
    snd <$> wrote σ = [-1].
Proof.
  eexists _, _. split; [|split; [reflexivity|]].
  - eapply rtc_l; [exists ARead; eapply (st_read 0 true _ _ 1 1 false); [done|reflexivity..|by vm_compute]|].
    eapply rtc_l; [exists AWrite; eapply (st_write 0 true _ _ (replicate 600 7) 1 true); [done|reflexivity..|by vm_compute]|].
    apply rtc_refl.
  - by vm_compute.
Qed.

(** ** Closing both ends *)

(** Two [pipeclose] calls on two processors, whose locked parts and unlocked tests
    have both run before either frees the page. *)
Definition pipeclose_race (a : Z) : M pmem unit :=
  on_pipe (pipeclose_locked a true);;
  on_pipe (pipeclose_locked a false);;
  unused1 ← on_pipe pipeclose_unused;
  unused2 ← on_pipe pipeclose_unused;
  (if (unused1 : bool) then on_kmem (kfree a PAGE) else mret ());;
  (if (unused2 : bool) then on_kmem (kfree a PAGE) else mret ()).

Definition one_pipe : pmem := Pmem (Pst (new_pipe []) false) (KMem 0 ∅).

(** [pipeclose] tests whether both ends are closed after releasing the lock.  One
    close after the other frees the page once; but when the two closes overlap,
    both see the pipe closed and both free the page, and the second [kfree]
    panics. *)
Theorem pipeclose_double_free :
  (∃ s, (pipeclose 4096 true;; pipeclose 4096 false) no_lock one_pipe =
        Ok () (KCtx [] [ChPipeRead 4096; ChPipeWrite 4096]) s ∧
        freelist (pm_kmem s) = 4096) ∧
  ∃ s, pipeclose_race 4096 no_lock one_pipe = Panic "freeing free page" s.
Proof. split; eexists; [split|]; by vm_compute. Qed.

(** ** Witnesses *)
Definition pipe_w0 : world := world_init (replicate 512 0) two_runs.
Definition pipe_w1 : world :=
  set_calls pipe_w0 (after_write [1; 2; 3] [] [] (calls pipe_w0)
    (pipewrite 8192 1 [1; 2; 3] (KCtx [] []) (Pst (sp (calls pipe_w0)) false))).
Definition pipe_w2 : world :=
  set_calls pipe_w1 (after_read 2 (asleep (calls pipe_w1)) (calls pipe_w1)
    (piperead 8192 1 2 (KCtx [] []) (Pst (sp (calls pipe_w1)) false))).

Lemma pipe_w2_steps : rtc (dstep 8192 true) pipe_w0 pipe_w2.
Proof.
  eapply rtc_l; [exists AWrite; split; [reflexivity|];
    eapply (st_write 8192 true _ _ [1; 2; 3] 1 false); [done|reflexivity..|by vm_compute]|].
  eapply rtc_l; [exists ARead; split; [reflexivity|];
    eapply (st_read 8192 true _ _ 2 1 false); [done|reflexivity..|by vm_compute]|].
  apply rtc_refl.
Qed.

Lemma pipe_fifo_witness :
  concat (omap id (got (calls pipe_w2))) ++ contents (sp (calls pipe_w2)) = stored_log (calls pipe_w2) ∧
  stored_log (calls pipe_w2) = [1; 2; 3] ∧ got (calls pipe_w2) = [Some [1; 2]] ∧ misused pipe_w2 = false.
Proof.
  destruct (pipe_fifo 8192 true (replicate 512 0) two_runs pipe_w2) as (F & _ & _ & _ & T).
  - by apply length_replicate.
  - eapply rtc_subrel; [|exact pipe_w2_steps]. intros x y (ac & _ & H). by exists ac.
  - destruct (T [(4096, 4096); (16384, 8192)]) as (M & _ & _).
    + split; [apply two_runs_ok|split_and!; [done|done|by exists 2]|simpl; unfold PAGE; lia].
    + exact pipe_w2_steps.
    + split; [exact F|]. split; [by vm_compute|]. split; [by vm_compute|exact M].
Defined.

Definition pipe_wait : world :=
  set_calls pipe_w0 (after_read 1 [] (calls pipe_w0)
    (piperead 8192 1 1 (KCtx [] []) (Pst (sp (calls pipe_w0)) false))).

Lemma pipe_no_lost_wakeup_witness :
  ∃ t, t ∈ asleep (calls pipe_wait) ∧ (readopen (sp (calls pipe_wait)) = false ∨
    contents (sp (calls pipe_wait)) = [] ∧ writeopen (sp (calls pipe_wait)) = true).
Proof.
  eexists. split.
  - unfold pipe_wait, after_read. vm_compute. left.
  - refine (pipe_no_lost_wakeup 8192 (replicate 512 0) two_runs pipe_wait (Sleeper (ChPipeRead 8192) false (Reading 1 _)) _ _ _ _).
    + by apply length_replicate.
    + eapply rtc_l; [exists ARead; eapply (st_read 8192 false _ _ 1 1 false); [done|reflexivity..|by vm_compute]|]. apply rtc_refl.
    + vm_compute. left.
    + done.
Defined.
