(* ===== verification/Printf.v ===== *)
(** * Formatted output (printf.c, and the number formatting of console.c)

    [printint] fills a 16-byte stack buffer from the least significant digit and
    writes it out backwards; a store past the buffer is [None].  [printf] is a
    two-state machine over the format.  Both are given the output as the list of
    bytes handed to [putc].  The variadic arguments are the words after [fmt] on
    the stack, read in order; reading past the ones passed is [None]. *)
From S2P Require Import Prelude CString.
Local Open Scope Z_scope.

(** ** printint *)
Definition digits : list Z := [48; 49; 50; 51; 52; 53; 54; 55; 56; 57; 65; 66; 67; 68; 69; 70].

(** [buf[i++] = c], [i] being the length. *)
Definition put_buf (buf : list Z) (c : Z) : option (list Z) :=
  if decide (length buf < 16)%nat then Some (buf ++ [c]) else None.

(** The [do ... while] loop; one more iteration than [buf] has room for. *)
Fixpoint digit_loop (fuel : nat) (x base : Z) (buf : list Z) : option (list Z) :=
  match fuel with
  | O => None
  | S fuel =>
      d ← digits !! Z.to_nat (x mod base);
      buf ← put_buf buf d;
      let x := x / base in
      if decide (x ≠ 0) then digit_loop fuel x base buf else Some buf
  end.

Definition printint (xx base : Z) (sgn : bool) : option (list Z) :=
  let neg := sgn && bool_decide (xx < 0) in
  let x := if neg then u32 (- xx) else u32 xx in
  buf ← digit_loop 17 x base [];
  buf ← (if neg then put_buf buf 45 else Some buf);
  Some (reverse buf).

(** ** printf *)

(** An argument word: a number, or a [char*] given by the string it points to
    ([None] for the null pointer).  A [%d] or [%c] of a pointer prints an address
    and is left undefined, as is a [%s] of a number. *)
Inductive arg := Num (x : Z) | Ptr (s : option (list Z)).

Definition arg_num (a : arg) : option Z := match a with Num x => Some x | Ptr _ => None end.

Definition null_string : list Z := lit "(null)".

Definition arg_string (a : arg) : option (list Z) :=
  match a with
  | Num _ => None
  | Ptr None => Some null_string
  | Ptr (Some s) => Some s
  end.

Inductive fstate := Text | Percent.

Fixpoint printf_loop (fmt : list Z) (ap : list arg) (state : fstate) (out : list Z)
    : option (list Z) :=
  match fmt with
  | [] => Some out
  | c :: fmt =>
      match state with
      | Text =>
          if decide (c = 37) then printf_loop fmt ap Percent out
          else printf_loop fmt ap Text (out ++ [u8 c])
      | Percent =>
          if decide (c = 100) then                                  (* d *)
            x ← head ap ≫= arg_num; l ← printint (s32 x) 10 true;
            printf_loop fmt (tail ap) Text (out ++ l)
          else if decide (c = 120 ∨ c = 112) then                   (* x, p *)
            x ← head ap ≫= arg_num; l ← printint (s32 x) 16 false;
            printf_loop fmt (tail ap) Text (out ++ l)
          else if decide (c = 115) then                             (* s *)
            l ← head ap ≫= arg_string;
            printf_loop fmt (tail ap) Text (out ++ l)
          else if decide (c = 99) then                              (* c *)
            x ← head ap ≫= arg_num; printf_loop fmt (tail ap) Text (out ++ [u8 x])
          else if decide (c = 37) then printf_loop fmt ap Text (out ++ [u8 c])
          else printf_loop fmt ap Text (out ++ [37; u8 c])
      end
  end.

Definition printf (fmt : list Z) (ap : list arg) : option (list Z) :=
  printf_loop fmt ap Text [].

(** ** Numerals *)
Definition value (base : Z) (ds : list Z) : Z := foldl (λ v d, v * base + d) 0 ds.

(** [ds] are the digits of [x], most significant first, without leading zeros. *)
Definition numeral (base x : Z) (ds : list Z) : Prop :=
  Forall (λ d, 0 ≤ d < base) ds ∧ value base ds = x ∧ (∃ d ds', ds = d :: ds' ∧ (d = 0 → ds' = [])).

Definition digit_char (d : Z) : Z := digits !!! Z.to_nat d.

Lemma value_snoc base ds d : value base (ds ++ [d]) = value base ds * base + d.
Proof. unfold value. by rewrite foldl_app. Qed.

Lemma digits_lookup d : 0 ≤ d < 16 → digits !! Z.to_nat d = Some (digit_char d).
Proof. intros H. apply list_lookup_lookup_total_lt. simpl. lia. Qed.

Section digit_loop.
Context (base : Z) (Hb : 10 ≤ base ≤ 16).

(** The loop ends within as many iterations as the number has digits, leaving
    the numeral backwards behind what the buffer held. *)
Lemma digit_loop_run n : ∀ fuel x buf,
  0 ≤ x < base ^ Z.of_nat (S n) → (n < fuel)%nat → (length buf + n < 16)%nat →
  ∃ ds, digit_loop fuel x base buf = Some (buf ++ reverse (digit_char <$> ds)) ∧ numeral base x ds ∧
    (length ds ≤ S n)%nat.
Proof.
  induction n as [|n IH]; intros [|fuel] x buf Hx Hf Hl; try lia; cbn [digit_loop].
  all: pose proof (Z.mod_pos_bound x base ltac:(lia)) as Hm.
  all: rewrite digits_lookup by lia; cbn [mbind option_bind].
  all: unfold put_buf; rewrite decide_True by lia; cbn [mbind option_bind].
  all: pose proof (Z.div_mod x base ltac:(lia)) as Hd; pose proof (Z.div_pos x base ltac:(lia) ltac:(lia)) as Hp.
  all: destruct (decide (x / base ≠ 0)) as [Hne|E%dec_stable].
  - exfalso. apply Hne. apply Z.div_small. change (Z.of_nat 1) with 1 in Hx. lia.
  - exists [x mod base]. split_and!; [done| |simpl; lia]. split; [by constructor|]. split; [unfold value; simpl; lia|].
    by eexists _, [].
  - destruct (IH fuel (x / base) (buf ++ [digit_char (x mod base)])) as (ds & E & (N1 & N2 & d & ds' & -> & N3) & N4).
    + split; [done|]. apply Z.div_lt_upper_bound; [lia|].
      rewrite (Nat2Z.inj_succ (S n)), Z.pow_succ_r in Hx by lia. lia.
    + lia.
    + rewrite length_app. simpl. lia.
    + exists ((d :: ds') ++ [x mod base]). rewrite E. split_and!.
      * by rewrite fmap_app, reverse_app, <- app_assoc.
      * split; [by apply Forall_app_2; [|constructor]|]. split; [rewrite value_snoc; lia|].
        exists d, (ds' ++ [x mod base]). split; [done|]. intros ->. specialize (N3 eq_refl) as ->.
        unfold value in N2. simpl in N2. lia.
      * rewrite length_app. simpl in *. lia.
  - exists [x mod base]. split_and!; [done| |simpl; lia]. split; [by constructor|]. split; [unfold value; simpl; lia|].
    by eexists _, [].
Qed.
End digit_loop.

Lemma printint_run xx base sgn :
  10 ≤ base ≤ 16 → - 2 ^ 31 ≤ xx < 2 ^ 31 →
  ∃ ds, printint xx base sgn =
          Some ((if sgn && bool_decide (xx < 0) then [45] else []) ++ (digit_char <$> ds)) ∧
        numeral base (if (sgn : bool) then Z.abs xx else u32 xx) ds.
Proof.
  intros Hb Hx. unfold printint.
  set (neg := sgn && bool_decide (xx < 0)). set (x := if neg then u32 (- xx) else u32 xx).
  assert (Ex : x = if sgn then Z.abs xx else u32 xx).
  { unfold x, neg. destruct sgn; [|done]. simpl. case_bool_decide; rewrite u32_small; lia. }
  assert (Hr : 0 ≤ x < base ^ Z.of_nat 10).
  { assert (0 ≤ x < 2 ^ 32) by (unfold x; destruct neg; apply u32_range).
    assert (10 ^ 10 ≤ base ^ 10) by (apply Z.pow_le_mono_l; lia). lia. }
  destruct (digit_loop_run base Hb 9 17 x [] Hr ltac:(lia) ltac:(simpl; lia)) as (ds & E & N & L).
  exists ds. rewrite <- Ex. split; [|done]. rewrite E. cbn [mbind option_bind app].
  destruct neg; cbn [mbind option_bind].
  - unfold put_buf. rewrite decide_True; [|rewrite length_reverse, length_fmap; lia].
    cbn [mbind option_bind]. by rewrite reverse_app, reverse_involutive.
  - by rewrite reverse_involutive.
Qed.

(** [printint] never runs past its 16-byte buffer in base 10 or 16 and prints the
    numeral of the number: a minus sign exactly when it is negative and printed
    signed, then the digits of its magnitude, most significant first and without
    leading zeros; the most negative number included. *)
Theorem printint_numeral xx base sgn :
  10 ≤ base ≤ 16 → - 2 ^ 31 ≤ xx < 2 ^ 31 →
  ∃ ds, printint xx base sgn =
          Some ((if sgn && bool_decide (xx < 0) then [45] else []) ++ (digit_char <$> ds)) ∧
        numeral base (if (sgn : bool) then Z.abs xx else u32 xx) ds.
Proof. apply printint_run. Qed.

Lemma digit_char_dec d : 0 ≤ d < 10 → digit_char d = 48 + d.
Proof.
  intros H. assert (d = 0 ∨ d = 1 ∨ d = 2 ∨ d = 3 ∨ d = 4 ∨ d = 5 ∨ d = 6 ∨ d = 7 ∨ d = 8 ∨ d = 9) as D by lia.
  by repeat destruct D as [->|D]; subst.
Qed.

Lemma value_mono ds : ∀ v, 0 ≤ v → Forall (λ d, 0 ≤ d < 10) ds → v ≤ foldl (λ v d, v * 10 + d) v ds.
Proof.
  induction ds as [|d ds IH]; intros v Hv F; simpl; [done|].
  inversion_clear F. specialize (IH (v * 10 + d) ltac:(lia) ltac:(done)). lia.
Qed.

Lemma atoi_loop_run m ds : ∀ s fuel v, (length ds < fuel)%nat → Forall (λ d, 0 ≤ d < 10) ds →
  cstr m s (digit_char <$> ds) → 0 ≤ v → foldl (λ v d, v * 10 + d) v ds < 2 ^ 31 →
  atoi_loop m s fuel v = Some (foldl (λ v d, v * 10 + d) v ds).
Proof.
  induction ds as [|d ds IH]; intros s [|fuel] v Hf F C Hv Hlt; simpl in Hf; try lia; cbn [atoi_loop].
  - apply cstr_nil in C. by rewrite C, decide_False by lia.
  - inversion_clear F as [|? ? Hd Hds]. rewrite fmap_cons in C. apply cstr_cons in C as (_ & Hr & C).
    rewrite (digit_char_dec d Hd) in Hr. rewrite Hr, decide_True by lia.
    cbn [foldl] in Hlt |- *. pose proof (value_mono ds (v * 10 + d) ltac:(lia) Hds).
    replace (v * 10 + (48 + d) - 48) with (v * 10 + d) by lia.
    rewrite s32_small by lia. apply IH; (done || lia).
Qed.

(** [atoi] reads back what [printint] (that is, [%d]) writes for every number that
    is not negative. *)
Theorem atoi_printint m s x l :
  0 ≤ x < 2 ^ 31 → printint x 10 true = Some l → cstr m s l → ∀ fuel, (length l < fuel)%nat →
  atoi m s fuel = Some x.
Proof.
  intros Hx E C fuel Hf.
  assert (Hr : 0 ≤ u32 x < 10 ^ Z.of_nat 10) by (rewrite u32_small; lia).
  destruct (digit_loop_run 10 ltac:(lia) 9 17 (u32 x) [] Hr ltac:(lia) ltac:(simpl; lia))
    as (ds & E' & (N1 & N2 & _) & _).
  unfold printint in E. rewrite bool_decide_eq_false_2 in E by lia. cbn [andb] in E.
  rewrite E' in E. cbn [mbind option_bind app] in E. rewrite reverse_involutive in E.
  injection E as <-. rewrite length_fmap in Hf. rewrite u32_small in N2 by lia. unfold value in N2.
  unfold atoi. rewrite (atoi_loop_run m ds); [by rewrite N2|done..|lia|lia].
Qed.

(** ** What a format means *)

(** The character of a digit, and the positional numeral of a number, most significant
    digit first: the numeral of the quotient, if there is one, then the remainder.
    Thirty-two digits are enough for 32-bit numbers in every base. *)
Definition digit_ascii (d : Z) : Z := if decide (d < 10) then 48 + d else 65 + (d - 10).
Fixpoint numeral_loop (k : nat) (base x : Z) : list Z :=
  match k with
  | O => []
  | S k => (if decide (x < base) then [] else numeral_loop k base (x / base)) ++ [digit_ascii (x mod base)]
  end.
Definition numeral_of (base x : Z) : list Z := numeral_loop 32 base x.

(** An [int] in decimal, and a word in hexadecimal. *)
Definition decimal (x : Z) : list Z :=
  if decide (s32 x < 0) then 45 :: numeral_of 10 (- s32 x) else numeral_of 10 (s32 x).
Definition hexadecimal (x : Z) : list Z := numeral_of 16 (u32 x).

Lemma numeral_loop_spec base k : 2 ≤ base → ∀ x, 0 ≤ x < base ^ Z.of_nat (S k) →
  ∃ ds, numeral_loop (S k) base x = digit_ascii <$> ds ∧ numeral base x ds.
Proof.
  intros Hb. induction k as [|k IH]; intros x Hx.
  all: pose proof (Z.mod_pos_bound x base ltac:(lia)) as Hm; pose proof (Z.div_mod x base ltac:(lia)) as Hd.
  all: cbn [numeral_loop]; destruct (decide (x < base)) as [Hs|Hl].
  1, 3: exists [x mod base]; split; [done|]; split; [by constructor|]; split; [unfold value; simpl; rewrite Z.mod_small; lia|by eexists _, []].
  - exfalso. change (Z.of_nat 1) with 1 in Hx. lia.
  - destruct (IH (x / base)) as (ds & E & N1 & N2 & d & ds' & -> & N3).
    { split; [apply Z.div_pos; lia|]. apply Z.div_lt_upper_bound; [lia|].
      rewrite (Nat2Z.inj_succ (S k)), Z.pow_succ_r in Hx by lia. lia. }
    cbn [numeral_loop] in E. rewrite E.
    exists ((d :: ds') ++ [x mod base]). split; [by rewrite fmap_app|].
    split; [by apply Forall_app_2; [|constructor]|]. split; [rewrite value_snoc; lia|].
    exists d, (ds' ++ [x mod base]). split; [done|]. intros ->. specialize (N3 eq_refl) as ->.
    unfold value in N2. simpl in N2. pose proof (Z.div_str_pos x base). lia.
Qed.

Lemma value_pos base ds : ∀ v, 2 ≤ base → 0 < v → Forall (λ d, 0 ≤ d < base) ds → 0 < foldl (λ v d, v * base + d) v ds.
Proof.
  induction ds as [|d ds IH]; intros v Hb Hv F; simpl; [done|]. apply Forall_cons in F as [Hd F]. apply IH; [done|nia|done].
Qed.

(** A number has one numeral. *)
Lemma numeral_unique base : 2 ≤ base → ∀ ds1 ds2 x, numeral base x ds1 → numeral base x ds2 → ds1 = ds2.
Proof.
  intros Hb.
  assert (Lst : ∀ ds d x, numeral base x (ds ++ [d]) → d = x mod base ∧ value base ds = x / base ∧ (ds ≠ [] → numeral base (x / base) ds)).
  { intros ds d x (F & V & e & r & E & Hz). apply Forall_app in F as [F [Hd _]%Forall_cons]. rewrite value_snoc in V.
    assert (V' : value base ds = x / base) by (subst x; rewrite Z.div_add_l, Z.div_small by lia; lia).
    split; [subst x; rewrite Z.add_comm, Z.mod_add, Z.mod_small; lia|]. split; [done|]. intros Hne. split; [done|]. split; [done|].
    destruct ds as [|e' r']; [done|]. simplify_eq/=. exists e, r'. split; [done|]. intros H0%Hz. by destruct r'. }
  assert (Pos : ∀ ds x, numeral base x ds → ds = [x] ∨ 0 < x).
  { intros ds x (F & V & e & r & -> & Hz). apply Forall_cons in F as [He F]. unfold value in V. simpl in V.
    destruct (decide (e = 0)) as [->|]; [left; rewrite (Hz eq_refl) in *; simpl in V; by subst|right].
    rewrite <- V. by apply value_pos; [|lia|]. }
  induction ds1 as [|d1 ds1 IH] using rev_ind; intros ds2 x N1 N2; [by destruct N1 as (_ & _ & ? & ? & ? & _)|].
  destruct ds2 as [|d2 ds2 _] using rev_ind; [by destruct N2 as (_ & _ & ? & ? & ? & _)|].
  destruct (Lst _ _ _ N1) as (E1 & V1 & M1), (Lst _ _ _ N2) as (E2 & V2 & M2). subst d1 d2. f_equal.
  assert (Nil : ∀ ds, value base ds = x / base → numeral base x (ds ++ [x mod base]) → (ds ≠ [] → numeral base (x / base) ds) → x / base = 0 → ds = []).
  { intros ds _ Nx M Hq. destruct ds as [|e r]; [done|]. destruct (Pos _ _ (M ltac:(done))) as [E|?]; [|lia].
    destruct Nx as (_ & _ & e' & r' & E' & Hz'). simplify_eq/=. by specialize (Hz' Hq). }
  destruct (decide (x / base = 0)) as [Hq|Hq]; [by rewrite (Nil ds1), (Nil ds2)|].
  apply (IH ds2 (x / base)); [apply M1|apply M2]; intros ->; unfold value in *; simpl in *; congruence.
Qed.

Lemma digit_char_ascii d : 0 ≤ d < 16 → digit_char d = digit_ascii d.
Proof.
  intros H. apply (Z.eqb_eq (digit_char d) (digit_ascii d)).
  assert (E : forallb (λ i, digit_char (Z.of_nat i) =? digit_ascii (Z.of_nat i)) (seq 0 16) = true) by (by vm_compute).
  rewrite forallb_forall in E. rewrite <- (Z2Nat.id d) by lia. apply E, in_seq. lia.
Qed.

(** The code prints that numeral. *)
Lemma printed_numeral base x ds : 10 ≤ base ≤ 16 → 0 ≤ x < 2 ^ 32 → numeral base x ds → digit_char <$> ds = numeral_of base x.
Proof.
  intros Hb Hx N. destruct (numeral_loop_spec base 31 ltac:(lia) x) as (ds' & E & N').
  { assert (2 ^ Z.of_nat 32 ≤ base ^ Z.of_nat 32) by (apply Z.pow_le_mono_l; lia). change (2 ^ Z.of_nat 32) with (2 ^ 32) in *. lia. }
  unfold numeral_of. rewrite E, (numeral_unique base ltac:(lia) _ _ _ N N'). apply list_fmap_ext.
  intros i d Hd. apply digit_char_ascii. pose proof (Forall_lookup_1 _ _ _ _ (proj1 N') Hd) as Hr. cbv beta in Hr. lia.
Qed.

Lemma u32_s32 x : u32 (s32 x) = u32 x.
Proof.
  unfold u32, s32. rewrite <- (Z.mod_add _ 1) by done.
  replace ((x + 2 ^ 31) mod 2 ^ 32 - 2 ^ 31 + 1 * 2 ^ 32) with ((x + 2 ^ 31) mod 2 ^ 32 + 2 ^ 31) by lia.
  rewrite Zplus_mod_idemp_l. replace (x + 2 ^ 31 + 2 ^ 31) with (x + 1 * 2 ^ 32) by lia. by apply Z.mod_add.
Qed.

Lemma printint_dec x : printint (s32 x) 10 true = Some (decimal x).
Proof.
  pose proof (s32_range x). destruct (printint_run (s32 x) 10 true) as (ds & E & N); [lia|done|]. rewrite E. f_equal. unfold decimal.
  rewrite (printed_numeral 10 (Z.abs (s32 x)) ds ltac:(lia) ltac:(lia) N). cbn [andb].
  destruct (decide (s32 x < 0)).
  - rewrite bool_decide_true by done. cbn [app]. by rewrite Z.abs_neq by lia.
  - rewrite bool_decide_false by done. cbn [app]. by rewrite Z.abs_eq by lia.
Qed.
Lemma printint_hex x : printint (s32 x) 16 false = Some (hexadecimal x).
Proof.
  destruct (printint_run (s32 x) 16 false) as (ds & E & N); [lia|apply s32_range|]. rewrite E. f_equal. unfold hexadecimal.
  rewrite u32_s32 in N. exact (printed_numeral 16 _ _ ltac:(lia) (u32_range x) N).
Qed.

(** A format is a sequence of directives. *)
Inductive directive := Lit (c : Z) | Dec | Hex | Str | Chr | Pct | Unknown (c : Z).

(** The directive [%c]; cprintf does not have [Chr]. *)
Definition directive_of (has_c : bool) (c : Z) : directive :=
  if decide (c = 100) then Dec else if decide (c = 120 ∨ c = 112) then Hex
  else if decide (c = 115) then Str else if decide (has_c = true ∧ c = 99) then Chr
  else if decide (c = 37) then Pct else Unknown c.

(** A single [%] at the end of the format prints nothing. *)
Fixpoint parse_fmt (has_c : bool) (fmt : list Z) : list directive :=
  match fmt with
  | [] => []
  | c :: fmt' =>
      if decide (c = 37) then
        match fmt' with [] => [] | d :: fmt'' => directive_of has_c d :: parse_fmt has_c fmt'' end
      else Lit c :: parse_fmt has_c fmt'
  end.

Definition takes_arg (d : directive) : bool :=
  match d with Dec | Hex | Str | Chr => true | _ => false end.

Definition render (d : directive) (a : arg) : option (list Z) :=
  match d with
  | Lit c => Some [u8 c]
  | Dec => x ← arg_num a; Some (decimal x)
  | Hex => x ← arg_num a; Some (hexadecimal x)
  | Str => arg_string a
  | Chr => x ← arg_num a; Some [u8 x]
  | Pct => Some [37]
  | Unknown c => Some [37; u8 c]
  end.

(** Each directive that takes an argument renders the next one. *)
Fixpoint render_all (ds : list directive) (ap : list arg) : option (list Z) :=
  match ds with
  | [] => Some []
  | d :: ds =>
      if takes_arg d then
        a ← head ap; l ← render d a; r ← render_all ds (tail ap); Some (l ++ r)
      else l ← render d (Num 0); r ← render_all ds ap; Some (l ++ r)
  end.

Lemma app_render (out l : list Z) (o : option (list Z)) :
  ((out ++ l) ++.) <$> o = (r ← o; Some (out ++ (l ++ r))).
Proof. destruct o; simpl; [by rewrite <- app_assoc|done]. Qed.

Lemma printf_loop_renders n : ∀ fmt ap out, (length fmt ≤ n)%nat →
  printf_loop fmt ap Text out = (out ++.) <$> render_all (parse_fmt true fmt) ap.
Proof.
  induction n as [|n IH]; intros [|c fmt] ap out Hn; simpl in Hn; try lia; try (simpl; by rewrite app_nil_r).
  cbn [printf_loop parse_fmt]. destruct (decide (c = 37)) as [->|Hc].
  - destruct fmt as [|d fmt]; [simpl; by rewrite app_nil_r|]. simpl in Hn. cbn [printf_loop].
    unfold directive_of.
    destruct (decide (d = 100)); [|destruct (decide (d = 120 ∨ d = 112)); [|destruct (decide (d = 115));
      [|destruct (decide (d = 99)); [rewrite (decide_True (P := true = true ∧ d = 99)) by done|
        rewrite (decide_False (P := true = true ∧ d = 99)) by tauto; destruct (decide (d = 37)) as [->|]]]]];
      cbn [render_all takes_arg render].
    1-4: destruct ap as [|[x|s] ap]; [done|..]; cbn [head tail mbind option_bind arg_num arg_string]; try done.
    1-2: rewrite ?printint_dec, ?printint_hex; cbn [mbind option_bind].
    3: destruct s as [s|]; cbn [mbind option_bind].
    all: rewrite IH by lia; rewrite app_render; by destruct (render_all _ _).
  - rewrite IH by lia. cbn [render_all takes_arg render mbind option_bind]. rewrite app_render.
    by destruct (render_all _ _).
Qed.

(** C38 [printf] prints what its format says, for every format and arguments: each
    ordinary character as itself, [%d] the next argument as a signed decimal numeral,
    [%x] and [%p] as an unsigned hexadecimal one, [%s] the string it points to or
    "(null)", [%c] the character, [%%] a percent sign, any other [%] and character
    unchanged, a final lone [%] nothing; it reads exactly the arguments its directives
    take.  (The comment at the function lists only [%d], [%x], [%p] and [%s].)  Numerals
    are defined without the code, by division with the most significant digit first: they
    are the one sequence of digits without a leading zero that has the number as its
    value, and a minus sign stands before that of the magnitude of a negative [int]. *)
Theorem printf_renders fmt ap :
  printf fmt ap = render_all (parse_fmt true fmt) ap ∧
  ∀ base x, base = 10 ∨ base = 16 → 0 ≤ x < 2 ^ 32 →
    ∃ ds, numeral_of base x = digit_ascii <$> ds ∧ numeral base x ds ∧ ∀ ds', numeral base x ds' → ds' = ds.
Proof.
  split; [unfold printf; rewrite (printf_loop_renders (length fmt)) by done; by destruct (render_all _ _)|].
  intros base x Hb Hx. destruct (numeral_loop_spec base 31 ltac:(lia) x) as (ds & E & N).
  { assert (2 ^ Z.of_nat 32 ≤ base ^ Z.of_nat 32) by (apply Z.pow_le_mono_l; lia). change (2 ^ Z.of_nat 32) with (2 ^ 32) in *. lia. }
  exists ds. split; [done|]. split; [done|]. intros ds' N'. exact (numeral_unique base ltac:(lia) _ _ _ N' N).
Qed.

(** ** Witnesses *)
Lemma printint_numeral_witness :
  printint (-2147483648) 10 true = Some [45; 50; 49; 52; 55; 52; 56; 51; 54; 52; 56] ∧
  ∃ ds, numeral 10 2147483648 ds.
Proof.
  split; [by vm_compute|].
  destruct (printint_numeral (-2147483648) 10 true) as (ds & _ & N); [lia|lia|].
  exists ds. exact N.
Defined.

Lemma atoi_printint_witness :
  atoi (list_to_map [(100, 51); (101, 48); (102, 57)]) 100 4 = Some 309.
Proof.
  apply (atoi_printint _ 100 309 [51; 48; 57]); [lia|by vm_compute| |simpl; lia].
  split; [repeat constructor; lia|]. repeat (apply bytes_at_cons; split; [by vm_compute|]). apply bytes_at_nil.
Defined.
