(* ===== verification/Console.v ===== *)
(** * The console (console.c, procdump of proc.c)

    The state is the screen memory with the cursor registers, the bytes sent to
    the printer port, the two global flags, the input ring and the [killed] flag
    of the reading process.  [cprintf] and [procdump] print through [cons_putc];
    [console_intr] is fed the characters [getc] returns up to the first negative
    one.  [console_write] and [console_read] are modelled between their
    [iunlock(ip)] and [ilock(ip)].  Waiting for the printer is left out: it ends
    after at most 12800 polls. *)
From S2P Require Import Prelude Kernel ProcData SchedState Ring CString Printf.
Local Open Scope Z_scope.

Definition BACKSPACE : Z := 0x100.
Definition INPUT_BUF : Z := 128.
Definition Ctl (x : Z) : Z := x - 64.

Record input_buf := Input { ibuf : list Z; ir : Z; iw : Z; ie : Z }.

Record console := Console {
  crt : list Z;
  cursor : Z;
  lpt : list Z;
  panicked : bool;
  use_console_lock : bool;
  input : input_buf;
  cp_killed : bool
}.

Definition set_crt v s := Console v (cursor s) (lpt s) (panicked s) (use_console_lock s) (input s) (cp_killed s).
Definition set_cursor v s := Console (crt s) v (lpt s) (panicked s) (use_console_lock s) (input s) (cp_killed s).
Definition set_lpt v s := Console (crt s) (cursor s) v (panicked s) (use_console_lock s) (input s) (cp_killed s).
Definition set_panicked v s := Console (crt s) (cursor s) (lpt s) v (use_console_lock s) (input s) (cp_killed s).
Definition set_use_lock v s := Console (crt s) (cursor s) (lpt s) (panicked s) v (input s) (cp_killed s).
Definition set_input v s := Console (crt s) (cursor s) (lpt s) (panicked s) (use_console_lock s) v (cp_killed s).

(** ** Output *)
Definition lpt_putc (c : Z) : M console unit :=
  let c := if decide (c = BACKSPACE) then 8 else c in
  kmodify (λ s, set_lpt (lpt s ++ [u8 c]) s).

Definition blank : Z := Z.lor 32 0x0700.

(** [crt[i] = v], within the screen memory. *)
Definition put_cell (i v : Z) : M console unit :=
  s ← kget;
  if decide (0 ≤ i < Z.of_nat (length (crt s))) then kput (set_crt (<[Z.to_nat i := v]> (crt s)) s)
  else fault.

(** The [memmove] and [memset] that scroll, [pos] being already a row up. *)
Definition scrolled (pos : Z) (cells : list Z) : list Z :=
  imap (λ i v, if decide (pos ≤ Z.of_nat i < 24 * 80) then 0
               else if decide (Z.of_nat i < 23 * 80) then cells !!! (i + 80)%nat else v) cells.

Definition cga_putc (c : Z) : M console unit :=
  pos ← kgets cursor;
  pos ← (if decide (c = 10) then mret (pos + (80 - pos mod 80))
         else if decide (c = BACKSPACE) then
           if decide (pos > 0) then put_cell (pos - 1) blank;; mret (pos - 1) else mret pos
         else put_cell pos (Z.lor (Z.land c 0xff) 0x0700);; mret (pos + 1));
  pos ← (if decide (pos / 80 >= 24) then
           kmodify (λ s, set_crt (scrolled (pos - 80) (crt s)) s);; mret (pos - 80)
         else mret pos);
  kmodify (set_cursor (u16 pos));;
  put_cell pos blank.

Definition cons_putc (c : Z) : M console unit :=
  p ← kgets panicked;
  if (p : bool) then diverge else lpt_putc c;; cga_putc c.

Fixpoint cons_puts (l : list Z) : M console unit :=
  match l with [] => mret () | c :: l => cons_putc c;; cons_puts l end.

(** console.c's [printint] differs from printf.c's only in the output function. *)
Definition cons_printint (xx base : Z) (sgn : bool) : M console unit :=
  l ← deref (printint xx base sgn); cons_puts l.

Fixpoint cprintf_loop (fmt : list Z) (argp : list arg) (state : fstate) : M console unit :=
  match fmt with
  | [] => mret ()
  | c :: fmt =>
      match state with
      | Text =>
          if decide (c = 37) then cprintf_loop fmt argp Percent
          else cons_putc c;; cprintf_loop fmt argp Text
      | Percent =>
          if decide (c = 100) then
            x ← deref (head argp ≫= arg_num); cons_printint (s32 x) 10 true;; cprintf_loop fmt (tail argp) Text
          else if decide (c = 120 ∨ c = 112) then
            x ← deref (head argp ≫= arg_num); cons_printint (s32 x) 16 false;; cprintf_loop fmt (tail argp) Text
          else if decide (c = 115) then
            l ← deref (head argp ≫= arg_string); cons_puts l;; cprintf_loop fmt (tail argp) Text
          else if decide (c = 37) then cons_putc 37;; cprintf_loop fmt argp Text
          else cons_putc 37;; cons_putc c;; cprintf_loop fmt argp Text
      end
  end.

Definition cprintf (fmt : list Z) (argp : list arg) : M console unit :=
  locking ← kgets use_console_lock;
  (if (locking : bool) then acquire LkConsole else mret ());;
  cprintf_loop fmt argp Text;;
  (if (locking : bool) then release LkConsole else mret ()).

Definition console_write (buf : list Z) : M console Z :=
  acquire LkConsole;;
  cons_puts ((λ b, Z.land b 0xff) <$> buf);;
  release LkConsole;;
  mret (Z.of_nat (length buf)).

(** spinlock.c's [getcallerpcs], [word a] being the word at address [a]. *)
Fixpoint getcallerpcs_loop (word : Z → Z) (n : nat) (ebp : Z) : list Z :=
  match n with
  | O => []
  | S n' =>
      if decide (ebp = 0 ∨ ebp = 0xffffffff) then replicate n 0
      else word (ebp + 4) :: getcallerpcs_loop word n' (word ebp)
  end.
Definition getcallerpcs (word : Z → Z) (v : Z) : list Z := getcallerpcs_loop word 10 (u32 (v - 8)).

(** ** procdump (proc.c) *)
Section procdump.
(** The scheduler's tables (only read), whether the kernel is built with
    [SCHED_MLFQ], and the words of memory. *)
Context (v : schst) (mlfq : bool) (word : Z → Z).

Definition state_name (st : proc_state) : list Z :=
  lit (match st with
       | UNUSED => "unused" | EMBRYO => "embryo" | SLEEPING => "sleep "
       | RUNNABLE => "runble" | RUNNING => "run   " | ZOMBIE => "zombie" end).

(** A character array as a string. *)
Fixpoint c_string (l : list Z) : list Z :=
  match l with [] => [] | c :: l => if decide (c = 0) then [] else c :: c_string l end.

Fixpoint each {A} (f : A → M console unit) (l : list A) : M console unit :=
  match l with [] => mret () | x :: l => f x;; each f l end.

(** [cpus[i].rq] *)
Definition rq_of (i : nat) : M console (nat * rq) :=
  cpu ← deref (cpus v !! i); q ← deref (cpu_rq cpu); r ← deref (rqs v !! q); mret (q, r).

Definition with_other_rqs (f : lock_id → M console unit) : M console unit :=
  each (λ i, if decide (i ≠ cpu_id v) then qr ← rq_of i; f (LkRq qr.1) else mret ()) (seq 0 (ncpu v)).

Definition rq_next_of (r : rq) : M console rq := q ← deref (r_next r); deref (rqs v !! q).

Definition dump_cpu (i : nat) : M console unit :=
  cpu ← deref (cpus v !! i);
  p ← deref (curproc cpu);
  p ← deref (procs v !! p);
  qr ← rq_of i;
  if mlfq then
    r2 ← rq_next_of qr.2;
    r3 ← rq_next_of r2;
    cprintf (lit "On cpu %d, rq1=%d, rq2=%d, rq3=%d : curproc_pid %d" ++ [10])
      [Num (Z.of_nat i); Num (proc_num qr.2); Num (proc_num r2); Num (proc_num r3); Num (p_pid p)]
  else
    cprintf (lit "On cpu %d, nproc=%d : curproc_pid %d" ++ [10])
      [Num (Z.of_nat i); Num (proc_num qr.2); Num (p_pid p)].

Fixpoint dump_pcs (pc : list Z) : M console unit :=
  match pc with
  | [] => mret ()
  | x :: pc => if decide (x ≠ 0) then cprintf (lit " %p") [Num x];; dump_pcs pc else mret ()
  end.

Definition dump_proc (p : proc) : M console unit :=
  if decide (p_state p = UNUSED) then mret ()
  else
    cprintf (lit "%d %s %s") [Num (p_pid p); Ptr (Some (state_name (p_state p))); Ptr (Some (c_string (p_name p)))];;
    (if decide (p_state p = SLEEPING) then dump_pcs (getcallerpcs word (u32 (c_ebp (p_context p) + 8)))
     else mret ());;
    cprintf [10] [].

Definition procdump : M console unit :=
  acquire LkProcTable;;
  with_other_rqs acquire;;
  cprintf (lit "************************" ++ [10]) [];;
  each dump_cpu (seq 0 (ncpu v));;
  each dump_proc (procs v);;
  cprintf (lit "************************" ++ [10]) [];;
  with_other_rqs release;;
  release LkProcTable.
End procdump.

(** ** Input *)
Definition in_get (i : input_buf) (k : Z) : Z := ring_get INPUT_BUF (ibuf i) k.
Definition upd_input (f : input_buf → input_buf) : M console unit := kmodify (λ s, set_input (f (input s)) s).

Section intr.
Context (dump : M console unit).

(** [case C('U')]: at most [INPUT_BUF] characters can be between [w] and [e]. *)
Fixpoint kill_line (fuel : nat) : M console unit :=
  match fuel with
  | O => diverge
  | S fuel =>
      i ← kgets input;
      if decide (ie i ≠ iw i ∧ in_get i (u32 (ie i - 1)) ≠ 10) then
        upd_input (λ i, Input (ibuf i) (ir i) (iw i) (u32 (ie i - 1)));;
        cons_putc BACKSPACE;;
        kill_line fuel
      else mret ()
  end.

Definition console_key (c : Z) : M console unit :=
  if decide (c = Ctl 80) then dump
  else if decide (c = Ctl 85) then kill_line 129
  else if decide (c = Ctl 72) then
    i ← kgets input;
    if decide (ie i ≠ iw i) then
      upd_input (λ i, Input (ibuf i) (ir i) (iw i) (u32 (ie i - 1)));; cons_putc BACKSPACE
    else mret ()
  else
    i ← kgets input;
    if decide (c ≠ 0 ∧ u32 (ie i - ir i) < INPUT_BUF) then
      upd_input (λ i, Input (ring_set INPUT_BUF (ibuf i) (ie i) (u8 c)) (ir i) (iw i) (u32 (ie i + 1)));;
      cons_putc c;;
      i ← kgets input;
      if decide (c = 10 ∨ c = Ctl 68 ∨ ie i = u32 (ir i + INPUT_BUF)) then
        upd_input (λ i, Input (ibuf i) (ir i) (ie i) (ie i));; wakeup ChInput
      else mret ()
    else mret ().

(** [keys]: what [getc] returns, up to the first negative result. *)
Definition console_intr (keys : list Z) : M console unit :=
  acquire LkInput;; each console_key keys;; release LkInput.
End intr.

(** [while(input.r == input.w)]; [false] when the process was killed. *)
Fixpoint wait_input (fuel : nat) : M console bool :=
  match fuel with
  | O => diverge
  | S fuel =>
      s ← kget;
      if decide (ir (input s) = iw (input s)) then
        if cp_killed s then mret false else sleep ChInput LkInput;; wait_input fuel
      else mret true
  end.

(** The outer loop, with [n] bytes still wanted of [target]; [dst] holds the bytes
    stored so far.  [None] is the result -1, [Some l] is [length l]. *)
Fixpoint console_read_loop (fuel : nat) (target : Z) (n : nat) (dst : list Z) : M console (option (list Z)) :=
  match n with
  | O => mret (Some dst)
  | S n' =>
      ok ← wait_input fuel;
      if (ok : bool) then
        i ← kgets input;
        let c := in_get i (ir i) in
        upd_input (λ i, Input (ibuf i) (u32 (ir i + 1)) (iw i) (ie i));;
        if decide (c = Ctl 68) then
          (if decide (Z.of_nat n < target)
           then upd_input (λ i, Input (ibuf i) (u32 (ir i - 1)) (iw i) (ie i)) else mret ());;
          mret (Some dst)
        else if decide (c = 10) then mret (Some (dst ++ [c]))
        else console_read_loop fuel target n' (dst ++ [c])
      else mret None
  end.

Definition console_read (fuel : nat) (n : Z) : M console (option (list Z)) :=
  acquire LkInput;;
  r ← console_read_loop fuel n (Z.to_nat n) [];
  release LkInput;;
  mret r.

(** [console_init] and [panic]; the device table is an argument of the
    file system, and enabling the interrupt is in Main ([console_enable]). *)
Definition console_init : M console unit := kmodify (set_use_lock true).

Definition panic_print (msg : list Z) (cpu : Z) (pcs : list Z) : M console unit :=
  kmodify (set_use_lock false);;
  cprintf (lit "cpu%d: panic: ") [Num cpu];;
  cprintf msg [];;
  cprintf [10] [];;
  each (λ pc, cprintf (lit " %p") [Num pc]) pcs;;
  kmodify (set_panicked true);;
  diverge.

(** ** The screen *)

(** 25 rows of 80 cells, the cursor in the first 24. *)
Record screen_ok (s : console) : Prop := {
  sc_len : length (crt s) = 2000%nat;
  sc_cursor : 0 ≤ cursor s < 24 * 80
}.

(** Where the cursor is after [c], before any scrolling. *)
Definition advance (c pos : Z) : Z :=
  if decide (c = 10) then pos + (80 - pos mod 80)
  else if decide (c = BACKSPACE) then Z.max 0 (pos - 1) else pos + 1.

Lemma put_cell_run i v kc s : 0 ≤ i < Z.of_nat (length (crt s)) →
  put_cell i v kc s = Ok () kc (set_crt (<[Z.to_nat i := v]> (crt s)) s).
Proof. intros H. unfold put_cell. rewrite kget_bind. by rewrite decide_True. Qed.

Lemma scrolled_lookup cells i : length cells = 2000%nat → (i < 2000)%nat →
  scrolled 1840 cells !! i =
  if decide (i < 1840)%nat then cells !! (i + 80)%nat else if decide (i < 1920)%nat then Some 0 else cells !! i.
Proof.
  intros Hl Hi. unfold scrolled. rewrite list_lookup_imap.
  destruct (lookup_lt_is_Some_2 cells i) as [v Hv]; [lia|]. rewrite Hv. simpl.
  repeat case_decide; try lia; try done. symmetry. apply list_lookup_lookup_total_lt. lia.
Qed.

Lemma advance_range c pos : 0 ≤ pos < 1920 → 0 ≤ advance c pos ≤ 1920.
Proof.
  intros H. unfold advance. pose proof (Z.mod_pos_bound pos 80 ltac:(lia)).
  pose proof (Z.div_mod pos 80 ltac:(lia)). repeat case_decide; lia.
Qed.

(** The first half of [cga_putc]: the character is put and the cursor moves. *)
Definition drawn (c : Z) (s : console) : list Z :=
  if decide (c = 10) then crt s
  else if decide (c = BACKSPACE) then
    if decide (cursor s > 0) then <[Z.to_nat (cursor s - 1) := blank]> (crt s) else crt s
  else <[Z.to_nat (cursor s) := Z.lor (Z.land c 0xff) 0x0700]> (crt s).

Lemma cga_putc_run c kc s : screen_ok s →
  cga_putc c kc s =
  let pos := advance c (cursor s) in
  let up := if decide (pos = 1920) then 80 else 0 in
  let cells := if decide (pos = 1920) then scrolled 1840 (drawn c s) else drawn c s in
  Ok () kc (set_crt (<[Z.to_nat (pos - up) := blank]> cells) (set_cursor (pos - up) s)).
Proof.
  intros [Hl Hc]. unfold cga_putc. rewrite kgets_bind.
  pose proof (advance_range c (cursor s) Hc) as Ha. cbv zeta.
  match goal with |- (?m ≫= _) _ _ = _ =>
    assert (E : m kc s = Ok (advance c (cursor s)) kc (set_crt (drawn c s) s)) end.
  { unfold advance, drawn. destruct (decide (c = 10)); [by destruct s|]. destruct (decide (c = BACKSPACE)).
    - destruct (decide (cursor s > 0)).
      + rewrite (bind_Ok _ _ _ _ _ _ _ (put_cell_run (cursor s - 1) blank kc s ltac:(lia))).
        by rewrite Z.max_r by lia.
      + rewrite Z.max_l by lia. replace (cursor s) with 0 by lia. by destruct s.
    - by rewrite (bind_Ok _ _ _ _ _ _ _ (put_cell_run (cursor s) _ kc s ltac:(lia))). }
  rewrite (bind_Ok _ _ _ _ _ _ _ E). clear E.
  assert (Hd : length (drawn c s) = 2000%nat) by (unfold drawn; repeat case_decide; by rewrite ?length_insert).
  set (pos := advance c (cursor s)) in *.
  destruct (decide (pos = 1920)) as [E|E].
  - rewrite decide_True by (rewrite E; done). rewrite E.
    rewrite (bind_Ok _ _ _ _ 1840 kc (set_crt (scrolled 1840 (drawn c s)) (set_crt (drawn c s) s))) by done.
    rewrite kmodify_bind, put_cell_run; [done|].
    cbn [crt set_crt set_cursor]. unfold scrolled. rewrite length_imap. simpl in *. lia.
  - rewrite decide_False; [|pose proof (Z.div_lt_upper_bound pos 80 24 ltac:(lia) ltac:(lia)); lia].
    rewrite ret_bind, kmodify_bind, Z.sub_0_r.
    assert (Hu : u16 pos = pos) by (apply Z.mod_small; lia). rewrite Hu.
    rewrite put_cell_run; [done|]. cbn [crt set_crt set_cursor]. lia.
Qed.

Lemma drawn_length c s : screen_ok s → length (drawn c s) = 2000%nat.
Proof. intros [Hl _]. unfold drawn. repeat case_decide; by rewrite ?length_insert. Qed.

Lemma cga_putc_ok c kc s : screen_ok s →
  ∃ cells cur, cga_putc c kc s = Ok () kc (set_crt cells (set_cursor cur s)) ∧
    screen_ok (set_crt cells (set_cursor cur s)).
Proof.
  intros H. rewrite cga_putc_run by done. eexists _, _. split; [reflexivity|].
  pose proof (advance_range c (cursor s) (sc_cursor _ H)). pose proof (drawn_length c s H).
  destruct (decide (advance c (cursor s) = 1920)); split; cbn [crt cursor set_crt set_cursor];
    rewrite ?length_insert; unfold scrolled; rewrite ?length_imap; (done || lia).
Qed.

Lemma drawn_before c s i : 0 ≤ i < Z.min (cursor s) (advance c (cursor s)) →
  drawn c s !! Z.to_nat i = crt s !! Z.to_nat i.
Proof.
  intros Hi. unfold drawn, advance in *. repeat case_decide; try done;
    rewrite list_lookup_insert_ne by lia; done.
Qed.

Lemma drawn_char c s : screen_ok s → c ≠ 10 → c ≠ BACKSPACE →
  advance c (cursor s) = cursor s + 1 ∧
  drawn c s !! Z.to_nat (cursor s) = Some (Z.lor (Z.land c 0xff) 0x0700).
Proof.
  intros [Hl Hc] H1 H2. unfold drawn, advance.
  rewrite !(decide_False (P := c = 10)), !(decide_False (P := c = BACKSPACE)) by done.
  split; [done|]. apply list_lookup_insert_eq. lia.
Qed.

Lemma advance_newline pos : advance 10 pos mod 80 = 0.
Proof.
  unfold advance. rewrite decide_True by done. pose proof (Z.div_mod pos 80 ltac:(lia)).
  replace (pos + (80 - pos mod 80)) with ((pos / 80 + 1) * 80) by lia. by apply Z_mod_mult.
Qed.

(** [cga_putc] stays on the screen: from a cursor in the first 24 rows every store
    is inside the 25x80 cells, and the cursor ends in the first 24 rows again.  An
    ordinary character ends up just before the cursor, a newline moves to the
    start of a row, a backspace goes back one cell, the cell under the cursor is
    blank, and the text before the old cursor stays as it was, one row up when the
    screen scrolls. *)
Theorem cga_putc_correct c kc s : screen_ok s →
  ∃ s' up, cga_putc c kc s = Ok () kc s' ∧ screen_ok s' ∧
    up = (if decide (advance c (cursor s) = 1920) then 80 else 0) ∧
    cursor s' = advance c (cursor s) - up ∧
    crt s' !! Z.to_nat (cursor s') = Some blank ∧
    (c ≠ 10 → c ≠ BACKSPACE → crt s' !! Z.to_nat (cursor s' - 1) = Some (Z.lor (Z.land c 0xff) 0x0700)) ∧
    (c = 10 → cursor s' mod 80 = 0) ∧
    ∀ i, up ≤ i < Z.min (cursor s) (advance c (cursor s)) →
      crt s' !! Z.to_nat (i - up) = crt s !! Z.to_nat i.
Proof.
  intros H. pose proof H as [Hl Hc]. pose proof (advance_range c (cursor s) Hc) as Ha.
  rewrite (cga_putc_run c kc s H). eexists _, (if decide (advance c (cursor s) = 1920) then 80 else 0).
  split; [reflexivity|]. pose proof (drawn_length c s H) as Hd.
  assert (Dn : c = 10 → advance c (cursor s) mod 80 = 0) by (intros ->; apply advance_newline).
  cbn [cursor crt set_crt set_cursor].
  destruct (decide (advance c (cursor s) = 1920)) as [E|E].
  - assert (Hs : length (scrolled 1840 (drawn c s)) = 2000%nat) by (unfold scrolled; by rewrite length_imap).
    split; [split; cbn [cursor crt set_crt set_cursor]; [by rewrite length_insert|lia]|].
    rewrite E. split_and!; try done.
    + apply list_lookup_insert_eq. rewrite Hs. lia.
    + intros H1 H2. destruct (drawn_char c s H H1 H2) as [E1 E2]. rewrite list_lookup_insert_ne by lia.
      rewrite scrolled_lookup, decide_True by (done || lia). rewrite <- E2. f_equal. lia.
    + intros i Hi. rewrite list_lookup_insert_ne by lia.
      rewrite scrolled_lookup, decide_True by (done || lia). rewrite <- (drawn_before c) by lia. f_equal. lia.
  - split; [split; cbn [cursor crt set_crt set_cursor]; [by rewrite length_insert|lia]|].
    rewrite Z.sub_0_r. split_and!; try done.
    + apply list_lookup_insert_eq. rewrite Hd. lia.
    + intros H1 H2. destruct (drawn_char c s H H1 H2) as [E1 E2]. rewrite list_lookup_insert_ne by lia.
      rewrite E1, <- E2. f_equal. lia.
    + intros i Hi. rewrite list_lookup_insert_ne by lia. rewrite Z.sub_0_r. by apply drawn_before.
Qed.

(** ** Printing *)

(** The console after showing the bytes [l]: sent to the printer port in order, the
    screen in a good state, everything else as it was. *)
Record shown (s : console) (l : list Z) (s' : console) : Prop := {
  sh_screen : screen_ok s';
  sh_lpt : lpt s' = lpt s ++ l;
  sh_panicked : panicked s' = panicked s;
  sh_lock : use_console_lock s' = use_console_lock s;
  sh_input : input s' = input s;
  sh_killed : cp_killed s' = cp_killed s
}.

Lemma shown_refl s : screen_ok s → shown s [] s.
Proof. intros. by split; rewrite ?app_nil_r. Qed.

Lemma shown_trans s l s' l' s'' : shown s l s' → shown s' l' s'' → shown s (l ++ l') s''.
Proof. intros [] []. split; try congruence. rewrite app_assoc. congruence. Qed.

(** The byte [lpt_putc] sends for [c]. *)
Definition lpt_byte (c : Z) : Z := u8 (if decide (c = BACKSPACE) then 8 else c).

Lemma cons_putc_run c kc s : screen_ok s → panicked s = false →
  ∃ s', cons_putc c kc s = Ok () kc s' ∧ shown s [lpt_byte c] s'.
Proof.
  intros H P. unfold cons_putc, lpt_putc. rewrite kgets_bind, P, kmodify_bind.
  destruct (cga_putc_ok c kc (set_lpt (lpt s ++ [lpt_byte c]) s)) as (cells & cur & E & H'); [by destruct H|].
  unfold lpt_byte in E. rewrite E. eexists. split; [reflexivity|]. by split.
Qed.

Lemma cons_puts_run l : ∀ kc s, screen_ok s → panicked s = false → Forall (λ c, 0 ≤ c < 256) l →
  ∃ s', cons_puts l kc s = Ok () kc s' ∧ shown s l s'.
Proof.
  induction l as [|c l IH]; intros kc s H P F; cbn [cons_puts].
  { exists s. split; [done|by apply shown_refl]. }
  inversion_clear F as [|? ? Hc Hl]. destruct (cons_putc_run c kc s H P) as (s1 & E & S1).
  rewrite (bind_Ok _ _ _ _ _ _ _ E).
  destruct (IH kc s1) as (s2 & E2 & S2); [apply S1|by rewrite (sh_panicked _ _ _ S1)|done|].
  exists s2. split; [done|]. apply (shown_trans _ [c] s1); [|done].
  unfold lpt_byte in S1. rewrite decide_False, u8_small in S1 by (unfold BACKSPACE; lia). done.
Qed.

Lemma printint_bytes x base sgn l : printint x base sgn = Some l → Forall (λ c, 0 ≤ c < 256) l.
Proof.
  assert (D : Forall (λ c, 0 ≤ c < 256) digits) by (repeat constructor; lia).
  assert (P : ∀ buf c b, Forall (λ c, 0 ≤ c < 256) buf → 0 ≤ c < 256 → put_buf buf c = Some b → Forall (λ c, 0 ≤ c < 256) b).
  { unfold put_buf. intros buf c b F Hc E. case_decide; simplify_eq. apply Forall_app. auto. }
  assert (L : ∀ fuel x buf b, Forall (λ c, 0 ≤ c < 256) buf → digit_loop fuel x base buf = Some b → Forall (λ c, 0 ≤ c < 256) b).
  { induction fuel as [|fuel IH]; intros y buf b F E; [done|]. cbn [digit_loop] in E.
    apply bind_Some in E as (d & Hd & E). apply bind_Some in E as (b' & Hb & E).
    eapply P in Hb; [|done|by eapply (Forall_lookup_1 _ _ _ _ D)]. case_decide; [by eapply IH|by simplify_eq]. }
  unfold printint. intros (b & E1 & E)%bind_Some. apply bind_Some in E as (b' & E2 & E). simplify_eq.
  apply Forall_reverse. eapply L in E1; [|done].
  destruct (sgn && bool_decide (x < 0)); [by eapply P; [..|done]; [|lia]|by simplify_eq].
Qed.

(** Arguments whose strings are bytes. *)
Definition arg_ok (a : arg) : Prop :=
  match a with Ptr (Some l) => Forall (λ c, 0 ≤ c < 256) l | _ => True end.

Lemma arg_string_bytes a l : arg_ok a → arg_string a = Some l → Forall (λ c, 0 ≤ c < 256) l.
Proof. destruct a as [|[|]]; simpl; intros H E; simplify_eq; [done|]. repeat constructor; lia. Qed.

(** A directive's output, then the rest of the format. *)
Lemma puts_then l kc s l2 (m : M console unit) :
  screen_ok s → panicked s = false → Forall (λ c, 0 ≤ c < 256) l →
  (∀ s1, screen_ok s1 → panicked s1 = false → ∃ s2, m kc s1 = Ok () kc s2 ∧ shown s1 l2 s2) →
  ∃ s', (cons_puts l;; m) kc s = Ok () kc s' ∧ shown s (l ++ l2) s'.
Proof.
  intros H P F Hm. destruct (cons_puts_run l kc s H P F) as (s1 & E & S1).
  rewrite (bind_Ok _ _ _ _ _ _ _ E). destruct (Hm s1) as (s' & E' & S'); [apply S1|by rewrite (sh_panicked _ _ _ S1)|].
  exists s'. split; [done|]. by eapply shown_trans.
Qed.

Lemma putc_then c kc s l2 (m : M console unit) :
  screen_ok s → panicked s = false → 0 ≤ c < 256 →
  (∀ s1, screen_ok s1 → panicked s1 = false → ∃ s2, m kc s1 = Ok () kc s2 ∧ shown s1 l2 s2) →
  ∃ s', (cons_putc c;; m) kc s = Ok () kc s' ∧ shown s (c :: l2) s'.
Proof.
  intros H P Hc Hm. destruct (puts_then [c] kc s l2 m) as (s' & E & S'); [done|done|by constructor|done|].
  exists s'. split; [|done]. rewrite <- E. destruct (cons_putc_run c kc s H P) as (s1 & E1 & _).
  cbn [cons_puts]. unfold mbind, M_bind. by rewrite E1.
Qed.

Lemma cprintf_loop_renders n : ∀ fmt argp kc s l, (length fmt ≤ n)%nat →
  screen_ok s → panicked s = false → Forall (λ c, 0 ≤ c < 256) fmt → Forall arg_ok argp →
  render_all (parse_fmt false fmt) argp = Some l →
  ∃ s', cprintf_loop fmt argp Text kc s = Ok () kc s' ∧ shown s l s'.
Proof.
  induction n as [|n IH]; intros [|c fmt] argp kc s l Hn H P F A R; simpl in Hn; try lia.
  1-2: simpl in R; simplify_eq; exists s; split; [done|by apply shown_refl].
  inversion_clear F as [|? ? Hc Hf]. cbn [parse_fmt cprintf_loop] in *. destruct (decide (c = 37)) as [->|Hne].
  - destruct fmt as [|d fmt]; [simpl in R; simplify_eq; exists s; split; [done|by apply shown_refl]|].
    inversion_clear Hf as [|? ? Hd Hf']. cbn [cprintf_loop]. simpl in Hn. unfold directive_of in R.
    rewrite (decide_False (P := false = true ∧ d = 99)) in R by (intros [? _]; done).
    destruct (decide (d = 100)); [|destruct (decide (d = 120 ∨ d = 112)); [|destruct (decide (d = 115));
      [|destruct (decide (d = 37)) as [->|]]]]; cbn [render_all takes_arg render] in R.
    1-2: apply bind_Some in R as (a & Ha & R); apply bind_Some in R as (l1 & R1 & R);
      apply bind_Some in R as (l2 & R2 & R); injection R as <-; apply bind_Some in R1 as (x & Hx & R1);
      injection R1 as <-; rewrite Ha; cbn [mbind option_bind]; rewrite Hx, deref_bind; unfold cons_printint;
      rewrite ?printint_dec, ?printint_hex; apply puts_then;
      [done|done|by eapply printint_bytes; first [apply printint_dec|apply printint_hex]|]; intros s1 H1 P1;
      apply IH; try done; [lia|by apply Forall_tail].
    + apply bind_Some in R as (a & Ha & R). apply bind_Some in R as (l1 & R1 & R).
      apply bind_Some in R as (l2 & R2 & R). injection R as <-.
      rewrite Ha. cbn [mbind option_bind]. rewrite R1, deref_bind.
      apply puts_then; [done|done| |intros s1 H1 P1; apply IH; try done; [lia|by apply Forall_tail]].
      eapply arg_string_bytes; [|done]. destruct argp; simplify_eq/=. by inversion A.
    + cbn [mbind option_bind] in R. apply bind_Some in R as (l2 & R2 & R). injection R as <-.
      apply putc_then; [done|done|lia|]. intros s1 H1 P1. apply IH; (done || lia).
    + cbn [mbind option_bind] in R. apply bind_Some in R as (l2 & R2 & R). injection R as <-. rewrite u8_small by done.
      apply putc_then; [done|done|lia|]. intros s1 H1 P1.
      apply putc_then; [done|done|lia|]. intros s2 H2 P2. apply IH; (done || lia).
  - cbn [render_all takes_arg render mbind option_bind] in R. apply bind_Some in R as (l2 & R2 & R). injection R as <-.
    rewrite u8_small by done. apply putc_then; [done|done|lia|].
    intros s1 H1 P1. apply IH; (done || lia).
Qed.

Lemma cprintf_run fmt argp kc s l :
  screen_ok s → panicked s = false → LkConsole ∉ held kc →
  Forall (λ c, 0 ≤ c < 256) fmt → Forall arg_ok argp →
  render_all (parse_fmt false fmt) argp = Some l →
  ∃ s', cprintf fmt argp kc s = Ok () kc s' ∧ shown s l s'.
Proof.
  intros H P Hk F A R. unfold cprintf. rewrite kgets_bind. destruct kc as [h w]. simpl in Hk.
  destruct (use_console_lock s).
  - rewrite (bind_Ok _ _ _ _ _ _ _ (acquire_ok LkConsole (KCtx h w) s Hk)).
    destruct (cprintf_loop_renders _ fmt argp (KCtx (LkConsole :: h) w) s l (le_n _)) as (s' & E & S'); try done.
    cbn [held woken]. rewrite (bind_Ok _ _ _ _ _ _ _ E), release_ok by done. by exists s'.
  - rewrite ret_bind. destruct (cprintf_loop_renders _ fmt argp (KCtx h w) s l (le_n _)) as (s' & E & S'); try done.
    rewrite (bind_Ok _ _ _ _ _ _ _ E). by exists s'.
Qed.

(** [cprintf] prints what its format says: for every format and arguments the bytes
    it sends to the console are the rendering of the format (as for [printf],
    without [%c]), the screen stays in bounds, and the console lock is free again
    afterwards. *)
Theorem cprintf_renders fmt argp kc s l :
  screen_ok s → panicked s = false → LkConsole ∉ held kc →
  Forall (λ c, 0 ≤ c < 256) fmt → Forall arg_ok argp →
  render_all (parse_fmt false fmt) argp = Some l →
  ∃ s', cprintf fmt argp kc s = Ok () kc s' ∧ shown s l s'.
Proof. apply cprintf_run. Qed.

(** ** The line discipline *)

(** The input buffer holds the bytes [Q] that readers may take, then the line [E]
    that is still being edited. *)
Record irep (i : input_buf) (Q E : list Z) : Prop := {
  ir_ring : ring INPUT_BUF (ibuf i) (ir i) (Q ++ E);
  ir_w : iw i = u32 (ir i + Z.of_nat (length Q));
  ir_e : ie i = u32 (ir i + Z.of_nat (length (Q ++ E)));
  ir_r : u32 (ir i) = ir i;
  ir_line : 10 ∉ E
}.

(** What one key does to them, and whether readers are woken. *)
Definition line_key (st : list Z * list Z * list chan_id) (c : Z) : list Z * list Z * list chan_id :=
  let '(Q, E, ws) := st in
  if decide (c = Ctl 80) then (Q, E, ws)
  else if decide (c = Ctl 85) then (Q, [], ws)
  else if decide (c = Ctl 72) then (Q, take (length E - 1) E, ws)
  else if decide (c ≠ 0 ∧ (length (Q ++ E) < 128)%nat) then
    if decide (c = 10 ∨ c = Ctl 68 ∨ length (Q ++ E) = 127%nat) then (Q ++ E ++ [c], [], ws ++ [ChInput])
    else (Q, E ++ [c], ws)
  else (Q, E, ws).

Lemma INPUT_BUF_ok : 0 < INPUT_BUF < 2 ^ 32 ∧ (INPUT_BUF | 2 ^ 32).
Proof. split; [done|by exists (2 ^ 25)]. Qed.

Lemma u32_pred a : u32 (u32 (a + 1) - 1) = u32 a.
Proof. unfold u32. rewrite Zminus_mod_idemp_l. f_equal. lia. Qed.

Section irep.
Context (i : input_buf) (Q E : list Z) (R : irep i Q E).

Lemma irep_fits : (length (Q ++ E) ≤ 128)%nat.
Proof. pose proof (ring_fits _ _ _ _ (ir_ring _ _ _ R)). unfold INPUT_BUF in *. lia. Qed.

Lemma irep_edited : ie i = iw i ↔ E = [].
Proof.
  pose proof irep_fits as F. rewrite (ir_w _ _ _ R), (ir_e _ _ _ R), length_app in *. split; intros H.
  - apply u32_inj_add in H; [|lia..]. destruct E; simpl in *; [done|lia].
  - rewrite H. simpl. do 2 f_equal. lia.
Qed.

Lemma irep_readable : ir i = iw i ↔ Q = [].
Proof.
  pose proof irep_fits as F. rewrite length_app in F. rewrite (ir_w _ _ _ R), <- (ir_r _ _ _ R) at 1. split; intros H.
  - rewrite <- (Z.add_0_r (ir i)) in H at 1. apply u32_inj_add in H; [|lia..]. destruct Q; simpl in *; [done|lia].
  - rewrite H. simpl. by rewrite Z.add_0_r.
Qed.

Lemma irep_count : u32 (ie i - ir i) = Z.of_nat (length (Q ++ E)).
Proof.
  pose proof irep_fits as F. rewrite (ir_e _ _ _ R). rewrite <- (ir_r _ _ _ R) at 2. apply u32_diff. lia.
Qed.

Lemma irep_push c : (length (Q ++ E) < 128)%nat → c ≠ 10 →
  irep (Input (ring_set INPUT_BUF (ibuf i) (ie i) c) (ir i) (iw i) (u32 (ie i + 1))) Q (E ++ [c]).
Proof.
  intros H Hc. destruct R as [R1 R2 R3 R4 R5]. destruct INPUT_BUF_ok as [B D]. split; simpl; try done.
  - rewrite R3, app_assoc. apply ring_push; try done. unfold INPUT_BUF. lia.
  - rewrite R3, u32_u32_add. f_equal. rewrite !length_app in *. simpl. lia.
  - inl.
Qed.

Lemma irep_commit c : (length (Q ++ E) < 128)%nat →
  irep (Input (ring_set INPUT_BUF (ibuf i) (ie i) c) (ir i) (u32 (ie i + 1)) (u32 (ie i + 1))) (Q ++ E ++ [c]) [].
Proof.
  intros H. destruct R as [R1 R2 R3 R4 R5]. destruct INPUT_BUF_ok as [B D].
  split; cbn [ibuf ir iw ie]; rewrite ?app_nil_r; [|..|done|apply not_elem_of_nil].
  1: rewrite R3, app_assoc; apply ring_push; try done; unfold INPUT_BUF; lia.
  all: rewrite R3, u32_u32_add; f_equal; rewrite !length_app in *; simpl; lia.
Qed.
End irep.

Lemma irep_unpush i Q E c : irep i Q (E ++ [c]) →
  irep (Input (ibuf i) (ir i) (iw i) (u32 (ie i - 1))) Q E ∧
  in_get i (u32 (ie i - 1)) = c ∧ c ≠ 10.
Proof.
  intros R. pose proof R as [R1 R2 R3 R4 R5]. destruct INPUT_BUF_ok as [B D].
  assert (He : u32 (ie i - 1) = u32 (ir i + Z.of_nat (length (Q ++ E)))).
  { rewrite R3, app_assoc, length_app, Nat2Z.inj_add, Z.add_assoc. simpl. apply u32_pred. }
  rewrite app_assoc in R1. split; [split; simpl; try done|split].
  - by eapply ring_prefix.
  - inl.
  - rewrite He. by apply ring_last.
  - inl.
Qed.

Lemma irep_take i Q E c : irep i (c :: Q) E →
  in_get i (ir i) = c ∧ irep (Input (ibuf i) (u32 (ir i + 1)) (iw i) (ie i)) Q E.
Proof.
  intros [R1 R2 R3 R4 R5]. destruct INPUT_BUF_ok as [B D]. destruct (ring_pop _ B D _ _ _ _ R1) as [G R].
  split; [done|]. split; cbn [ibuf ir iw ie]; try done.
  - rewrite R2, u32_u32_add. f_equal. simpl. lia.
  - rewrite R3, u32_u32_add. f_equal. simpl. lia.
  - by unfold u32; rewrite Zmod_mod.
Qed.

(** A console that can print. *)
Definition alive (s : console) : Prop := screen_ok s ∧ panicked s = false.

Lemma alive_input v s : alive s → alive (set_input v s).
Proof. by intros [[? ?] ?]. Qed.

(** Printing leaves the input alone. *)
Lemma echo_run c kc s : alive s → ∃ s', cons_putc c kc s = Ok () kc s' ∧ alive s' ∧ input s' = input s.
Proof.
  intros [H P]. destruct (cons_putc_run c kc s H P) as (s' & E & [S1 S2 S3 S4 S5 S6]).
  exists s'. split_and!; [done| |done]. split; [done|congruence].
Qed.

Lemma kill_line_run Q kc E : ∀ fuel s, irep (input s) Q E → alive s → (length E < fuel)%nat →
  ∃ s', kill_line fuel kc s = Ok () kc s' ∧ irep (input s') Q [] ∧ alive s'.
Proof.
  induction E as [|c E IH] using rev_ind; intros [|fuel] s R A Hf; try (simpl in Hf; lia); cbn [kill_line];
    rewrite kgets_bind.
  - rewrite decide_False; [by exists s|]. intros [H _]. apply H. by apply (irep_edited _ _ _ R).
  - destruct (irep_unpush _ _ _ _ R) as (R' & G & Hc). rewrite G, decide_True.
    2: { split; [|done]. rewrite (irep_edited _ _ _ R). by destruct E. }
    unfold upd_input. rewrite kmodify_bind. rewrite length_app in Hf. simpl in Hf.
    match goal with |- context [_ kc ?s1] => destruct (echo_run BACKSPACE kc s1 (alive_input _ _ A)) as (s2 & E2 & A2 & I2) end.
    rewrite (bind_Ok _ _ _ _ _ _ _ E2). apply IH; [by rewrite I2|done|lia].
Qed.

(** [dump] prints, and leaves the locks and the input as they are. *)
Definition dumps (dump : M console unit) (kc : kctx) : Prop :=
  ∀ s, alive s → ∃ s', dump kc s = Ok () kc s' ∧ alive s' ∧ input s' = input s.

Section intr_spec.
Context (dump : M console unit) (h : list lock_id) (Hdump : ∀ w, dumps dump (KCtx h w)).

Lemma console_key_run c s Q E w : irep (input s) Q E → alive s → 0 ≤ c < 256 →
  let '(Q', E', w') := line_key (Q, E, w) c in
  ∃ s', console_key dump c (KCtx h w) s = Ok () (KCtx h w') s' ∧ irep (input s') Q' E' ∧ alive s'.
Proof.
  intros R A Hc. unfold line_key, console_key. pose proof (irep_fits _ _ _ R) as F.
  destruct (decide (c = Ctl 80)).
  { destruct (Hdump w s A) as (s' & E1 & A1 & I1). exists s'. by rewrite I1. }
  destruct (decide (c = Ctl 85)).
  { destruct (kill_line_run Q (KCtx h w) E 129 s R A) as (s' & E1 & R1 & A1); [rewrite length_app in F; lia|].
    by exists s'. }
  destruct (decide (c = Ctl 72)).
  { rewrite kgets_bind. destruct (decide (ie (input s) ≠ iw (input s))) as [D|D]; rewrite (irep_edited _ _ _ R) in D.
    - destruct E as [|x E] using rev_ind; [done|]. clear IHE. destruct (irep_unpush _ _ _ _ R) as (R' & _).
      unfold upd_input. rewrite kmodify_bind.
      match goal with |- context [cons_putc _ _ ?s1] => destruct (echo_run BACKSPACE (KCtx h w) s1 (alive_input _ _ A)) as (s2 & E2 & A2 & I2) end.
      exists s2. rewrite I2. split_and!; try done. rewrite length_app. simpl.
      by rewrite Nat.add_sub, take_app_length.
    - apply dec_stable in D. subst. by exists s. }
  rewrite kgets_bind, (irep_count _ _ _ R).
  destruct (decide (c ≠ 0 ∧ (length (Q ++ E) < 128)%nat)) as [[D1 D2]|D].
  2: { rewrite decide_False; [by exists s|]. unfold INPUT_BUF. intros [? ?]. apply D. split; [done|lia]. }
  rewrite (decide_True (P := c ≠ 0 ∧ Z.of_nat (length (Q ++ E)) < INPUT_BUF)) by (unfold INPUT_BUF; split; [done|lia]).
  unfold upd_input. rewrite kmodify_bind. rewrite (u8_small c) by done.
  match goal with |- context [(cons_putc _ ≫= _) _ ?s1] => destruct (echo_run c (KCtx h w) s1 (alive_input _ _ A)) as (s2 & E2 & A2 & I2) end.
  rewrite (bind_Ok _ _ _ _ _ _ _ E2), kgets_bind. rewrite !I2. cbn [input set_input ie ir].
  assert (Full : u32 (ie (input s) + 1) = u32 (ir (input s) + INPUT_BUF) ↔ length (Q ++ E) = 127%nat).
  { rewrite (ir_e _ _ _ R), u32_u32_add, <- Z.add_assoc. unfold INPUT_BUF. split; intros X.
    - apply u32_inj_add in X; lia.
    - rewrite X. done. }
  destruct (decide (c = 10 ∨ c = Ctl 68 ∨ u32 (ie (input s) + 1) = u32 (ir (input s) + INPUT_BUF))) as [D|D];
    rewrite Full in D; [rewrite (decide_True (P := c = 10 ∨ _)) by done|rewrite (decide_False (P := c = 10 ∨ _)) by done].
  - rewrite kmodify_bind. eexists. split; [reflexivity|]. cbn [input set_input]. rewrite I2.
    cbn [input set_input ibuf ir iw ie]. split; [by apply irep_commit|by apply alive_input].
  - exists s2. split; [done|]. rewrite I2. split; [|done]. apply irep_push; tauto.
Qed.

Lemma console_keys_run keys : ∀ s Q E w, irep (input s) Q E → alive s → Forall (λ c, 0 ≤ c < 256) keys →
  let '(Q', E', w') := foldl line_key (Q, E, w) keys in
  ∃ s', each (console_key dump) keys (KCtx h w) s = Ok () (KCtx h w') s' ∧ irep (input s') Q' E' ∧ alive s'.
Proof.
  induction keys as [|c keys IH]; intros s Q E w R A F; cbn [foldl each]; [by exists s|].
  inversion_clear F as [|? ? Hc Hk]. pose proof (console_key_run c s Q E w R A Hc) as K.
  destruct (line_key (Q, E, w) c) as [[Q1 E1] w1]. destruct K as (s1 & E2 & R1 & A1).
  rewrite (bind_Ok _ _ _ _ _ _ _ E2). by apply IH.
Qed.
End intr_spec.

(** ** procdump *)
Section procdump_spec.
Context (v : schst) (mlfq : bool) (word : Z → Z) (Hword : ∀ a, 0 ≤ word a < 2 ^ 32).

(** The tables are in order: every processor runs a process and has a run queue of
    its own, and names are bytes. *)
Record tables_ok : Prop := {
  to_cpu : ∀ i, (i < ncpu v)%nat → ∃ c p pr q r, cpus v !! i = Some c ∧ curproc c = Some p ∧
    procs v !! p = Some pr ∧ cpu_rq c = Some q ∧ rqs v !! q = Some r ∧
    (mlfq = true → ∃ q2 r2 q3 r3, r_next r = Some q2 ∧ rqs v !! q2 = Some r2 ∧
                                 r_next r2 = Some q3 ∧ rqs v !! q3 = Some r3);
  to_inj : ∀ i j c d q, cpus v !! i = Some c → cpus v !! j = Some d →
    cpu_rq c = Some q → cpu_rq d = Some q → i = j;
  to_names : Forall (λ p, Forall (λ b, 0 ≤ b < 256) (p_name p)) (procs v)
}.
Context (T : tables_ok).

Lemma dumps_ret kc : dumps (mret ()) kc.
Proof. intros s A. by exists s. Qed.

Lemma dumps_bind m m' kc : dumps m kc → dumps m' kc → dumps (m;; m') kc.
Proof.
  intros H1 H2 s A. destruct (H1 s A) as (s1 & E1 & A1 & I1). destruct (H2 s1 A1) as (s2 & E2 & A2 & I2).
  exists s2. rewrite (bind_Ok _ _ _ _ _ _ _ E1). split_and!; [done|done|congruence].
Qed.

Lemma dumps_each {A} (f : A → M console unit) l kc : (∀ x, x ∈ l → dumps (f x) kc) → dumps (each f l) kc.
Proof.
  induction l as [|x l IH]; intros H; cbn [each]; [apply dumps_ret|].
  apply dumps_bind; [apply H; inl|apply IH; intros y Hy; apply H; inl].
Qed.

Lemma dumps_eq m m' kc : (∀ s, m kc s = m' kc s) → dumps m' kc → dumps m kc.
Proof. intros E H s A. rewrite E. by apply H. Qed.

(** [render_all] succeeds when each directive gets an argument of its kind. *)
Lemma dumps_cprintf fmt argp kc : LkConsole ∉ held kc →
  Forall (λ c, 0 ≤ c < 256) fmt → Forall arg_ok argp → is_Some (render_all (parse_fmt false fmt) argp) →
  dumps (cprintf fmt argp) kc.
Proof.
  intros Hk F A [l R] s [H P]. destruct (cprintf_run fmt argp kc s l H P Hk F A R) as (s' & E & [S1 S2 S3 S4 S5 S6]).
  exists s'. split_and!; [done|split; [done|congruence]|done].
Qed.

(** Formats with the arguments they take: [parsed] is the format's directives. *)
Lemma render_some ds : ∀ argp, Forall2 (λ d a, if takes_arg d then is_Some (render d a) else False)
    (filter (λ d, takes_arg d = true) ds) argp → is_Some (render_all ds argp).
Proof.
  induction ds as [|d ds IH]; intros argp F; cbn [render_all]; [by eexists|].
  rewrite filter_cons in F. destruct (takes_arg d) eqn:E; simpl in F.
  - inversion F as [|? a ? argp' Ha F']; subst. cbn [head tail mbind option_bind]. rewrite E in Ha.
    destruct Ha as [l ->]. cbn [mbind option_bind]. destruct (IH _ F') as [r ->]. by eexists.
  - destruct (IH _ F) as [r Hr]. rewrite Hr. destruct d; simpl in E |- *; try done; by eexists.
Qed.

Ltac solve_fmt :=
  apply dumps_cprintf;
  [done | by apply (bool_decide_unpack _); vm_compute | repeat constructor; simpl; auto |
   apply render_some; match goal with |- Forall2 _ ?l _ => let l' := eval vm_compute in l in change l with l' end;
   repeat constructor; cbn [takes_arg render arg_num arg_string mbind option_bind];
   by eexists ].

Context (h : list lock_id) (Hcons : LkConsole ∉ h).

Lemma state_name_bytes st : Forall (λ b, 0 ≤ b < 256) (state_name st).
Proof. destruct st; apply (bool_decide_unpack _); by vm_compute. Qed.

Lemma c_string_bytes l : Forall (λ b, 0 ≤ b < 256) l → Forall (λ b, 0 ≤ b < 256) (c_string l).
Proof. induction 1; simpl; [done|]. case_decide; by constructor. Qed.

Lemma dump_pcs_ok w pc : dumps (dump_pcs pc) (KCtx h w).
Proof.
  induction pc as [|x pc IH]; cbn [dump_pcs]; [apply dumps_ret|]. case_decide; [|apply dumps_ret].
  apply dumps_bind; [solve_fmt|done].
Qed.

Lemma dump_proc_ok w p : p ∈ procs v → dumps (dump_proc word p) (KCtx h w).
Proof.
  intros Hp. unfold dump_proc. case_decide; [apply dumps_ret|].
  pose proof (to_names T) as N. rewrite Forall_forall in N. specialize (N p Hp).
  apply dumps_bind; [|apply dumps_bind; [case_decide; [apply dump_pcs_ok|apply dumps_ret]|solve_fmt]].
  pose proof (state_name_bytes (p_state p)). pose proof (c_string_bytes _ N). solve_fmt.
Qed.

Lemma dump_cpu_ok w i : (i < ncpu v)%nat → dumps (dump_cpu v mlfq i) (KCtx h w).
Proof.
  intros Hi. destruct (to_cpu T i Hi) as (c & p & pr & q & r & E1 & E2 & E3 & E4 & E5 & E6).
  unfold dump_cpu, rq_of, rq_next_of. rewrite E1. eapply dumps_eq; [intros s; by rewrite deref_bind|].
  rewrite E2. eapply dumps_eq; [intros s; by rewrite deref_bind|].
  rewrite E3. eapply dumps_eq; [intros s; by rewrite deref_bind|].
  eapply dumps_eq; [intros s; rewrite (bind_Ok _ _ _ _ (q, r) (KCtx h w) s);
    [reflexivity|by rewrite deref_bind, E4, deref_bind, E5]|]. cbn [fst snd].
  destruct mlfq; [|solve_fmt]. destruct (E6 eq_refl) as (q2 & r2 & q3 & r3 & F1 & F2 & F3 & F4).
  eapply dumps_eq; [intros s; rewrite (bind_Ok _ _ _ _ r2 (KCtx h w) s);
    [reflexivity|by rewrite F1, deref_bind, F2]|].
  eapply dumps_eq; [intros s; rewrite (bind_Ok _ _ _ _ r3 (KCtx h w) s);
    [reflexivity|by rewrite F3, deref_bind, F4]|]. solve_fmt.
Qed.

(** The locks of the other processors among [l], in the order they are taken. *)
Definition rq_lock_of (i : nat) : lock_id := LkRq (default 0%nat (cpus v !! i ≫= cpu_rq)).
Definition other_locks (l : list nat) : list lock_id := rq_lock_of <$> filter (λ i, i ≠ cpu_id v) l.

Lemma rq_lock_inj i j : (i < ncpu v)%nat → (j < ncpu v)%nat → rq_lock_of i = rq_lock_of j → i = j.
Proof.
  intros Hi Hj E. destruct (to_cpu T i Hi) as (c & p & pr & q & r & E1 & _ & _ & E4 & _).
  destruct (to_cpu T j Hj) as (c' & p' & pr' & q' & r' & F1 & _ & _ & F4 & _).
  unfold rq_lock_of in E. rewrite E1, F1 in E. cbn [mbind option_bind] in E. rewrite E4, F4 in E.
  simpl in E. simplify_eq. by eapply (to_inj T).
Qed.

Lemma other_rq_run f i kc s : (i < ncpu v)%nat →
  (if decide (i ≠ cpu_id v) then qr ← rq_of v i; f (LkRq qr.1) else mret ()) kc s =
  if decide (i ≠ cpu_id v) then f (rq_lock_of i) kc s else Ok () kc s.
Proof.
  intros Hi. destruct (to_cpu T i Hi) as (c & p & pr & q & r & E1 & _ & _ & E4 & E5 & _).
  case_decide; [|done]. unfold rq_of, rq_lock_of. rewrite E1. cbn [mbind option_bind]. rewrite E4.
  by rewrite (bind_Ok _ _ _ _ (q, r) kc s) by (by rewrite deref_bind, E4, deref_bind, E5).
Qed.

Lemma other_locks_fresh i l : NoDup (i :: l) → (∀ j, j ∈ i :: l → (j < ncpu v)%nat) → rq_lock_of i ∉ other_locks l.
Proof.
  intros [Hi _]%NoDup_cons Hl (j & E & Hj)%list_elem_of_fmap.
  apply list_elem_of_filter in Hj as [_ Hj]. destruct Hi. rewrite (rq_lock_inj i j) by (done || (apply Hl; inl)). done.
Qed.

Lemma release_mid l h1 h2 w (s : console) : l ∉ h1 → l ∉ h2 →
  release l (KCtx (h1 ++ l :: h2) w) s = Ok () (KCtx (h1 ++ h2) w) s.
Proof.
  intros H1 H2. unfold release. cbn [held woken]. rewrite decide_True by inl.
  by rewrite filter_app, filter_cons_False, !filter_notin by auto.
Qed.

Lemma acquire_others w s l : ∀ hh, NoDup l → (∀ i, i ∈ l → (i < ncpu v)%nat ∧ rq_lock_of i ∉ hh) →
  each (λ i, if decide (i ≠ cpu_id v) then qr ← rq_of v i; acquire (LkRq qr.1) else mret ()) l (KCtx hh w) s =
  Ok () (KCtx (reverse (other_locks l) ++ hh) w) s.
Proof.
  induction l as [|i l IH]; intros hh ND Hl; [done|]. cbn [each].
  pose proof (other_rq_run acquire i (KCtx hh w) s (proj1 (Hl i ltac:(inl)))) as E.
  pose proof (other_locks_fresh i l ND (λ j Hj, proj1 (Hl j Hj))) as Hf.
  apply NoDup_cons in ND as [Hi ND]. unfold other_locks. rewrite filter_cons.
  destruct (decide (i ≠ cpu_id v)).
  - rewrite acquire_ok in E by (apply Hl; inl). rewrite (bind_Ok _ _ _ _ _ _ _ E). cbn [held woken].
    rewrite IH; [by rewrite fmap_cons, reverse_cons, <- app_assoc|done|].
    intros j Hj. split; [apply Hl; inl|]. rewrite elem_of_cons. intros [Eq|X]; [|by apply (Hl j); [inl|]].
    apply rq_lock_inj in Eq as ->; [done|apply Hl; inl..].
  - rewrite (bind_Ok _ _ _ _ _ _ _ E). apply IH; [done|]. intros j Hj. apply Hl. inl.
Qed.

Lemma release_others w s l : ∀ hh, NoDup l → (∀ i, i ∈ l → (i < ncpu v)%nat ∧ rq_lock_of i ∉ hh) →
  each (λ i, if decide (i ≠ cpu_id v) then qr ← rq_of v i; release (LkRq qr.1) else mret ()) l
    (KCtx (reverse (other_locks l) ++ hh) w) s = Ok () (KCtx hh w) s.
Proof.
  induction l as [|i l IH]; intros hh ND Hl; [done|]. cbn [each].
  pose proof (other_rq_run release i (KCtx (reverse (other_locks (i :: l)) ++ hh) w) s (proj1 (Hl i ltac:(inl)))) as E.
  pose proof (other_locks_fresh i l ND (λ j Hj, proj1 (Hl j Hj))) as Hf.
  apply NoDup_cons in ND as [Hi ND]. unfold other_locks in E |- *. rewrite filter_cons in E |- *.
  assert (Hl' : ∀ j, j ∈ l → (j < ncpu v)%nat ∧ rq_lock_of j ∉ hh) by (intros j Hj; apply Hl; inl).
  destruct (decide (i ≠ cpu_id v)); [|rewrite (bind_Ok _ _ _ _ _ _ _ E); by apply IH].
  rewrite fmap_cons, reverse_cons, <- app_assoc in E |- *.
  cbn [app] in E |- *. rewrite release_mid in E; [|by rewrite elem_of_reverse|apply Hl; inl].
  rewrite (bind_Ok _ _ _ _ _ _ _ E). by apply IH.
Qed.
End procdump_spec.

Lemma procdump_ok v mlfq word h w :
  tables_ok v mlfq → LkConsole ∉ h → LkProcTable ∉ h → (∀ q, LkRq q ∉ h) →
  dumps (procdump v mlfq word) (KCtx h w).
Proof.
  intros T Hc Hp Hr s A. unfold procdump.
  rewrite (bind_Ok _ _ _ _ _ _ _ (acquire_ok LkProcTable (KCtx h w) s Hp)). cbn [held woken].
  assert (Hl : ∀ i, i ∈ seq 0 (ncpu v) → (i < ncpu v)%nat ∧ rq_lock_of v i ∉ LkProcTable :: h).
  { intros i [_ Hi]%elem_of_seq. split; [done|]. rewrite elem_of_cons. intros [?|X]; [done|by apply Hr in X]. }
  pose proof (NoDup_seq 0 (ncpu v)) as ND. unfold with_other_rqs.
  rewrite (bind_Ok _ _ _ _ _ _ _ (acquire_others v mlfq T w s _ _ ND Hl)).
  set (h' := reverse (other_locks v (seq 0 (ncpu v))) ++ LkProcTable :: h).
  assert (Hc' : LkConsole ∉ h').
  { unfold h', other_locks. rewrite elem_of_app, elem_of_reverse, elem_of_cons, list_elem_of_fmap.
    intros [(? & ? & _)|[?|?]]; done. }
  assert (Stars : dumps (cprintf (lit "************************" ++ [10]) []) (KCtx h' w)).
  { apply dumps_cprintf; [done|by apply (bool_decide_unpack _); vm_compute|done|by vm_compute; eexists]. }
  destruct (Stars s A) as (s1 & E1 & A1 & I1). rewrite (bind_Ok _ _ _ _ _ _ _ E1).
  assert (D2 : dumps (each (dump_cpu v mlfq) (seq 0 (ncpu v))) (KCtx h' w)).
  { apply dumps_each. intros i [_ Hi]%elem_of_seq. by apply dump_cpu_ok. }
  destruct (D2 s1 A1) as (s2 & E2 & A2 & I2). rewrite (bind_Ok _ _ _ _ _ _ _ E2).
  assert (D3 : dumps (each (dump_proc word) (procs v)) (KCtx h' w)).
  { apply dumps_each. intros p Hpr. by eapply dump_proc_ok. }
  destruct (D3 s2 A2) as (s3 & E3 & A3 & I3). rewrite (bind_Ok _ _ _ _ _ _ _ E3).
  destruct (Stars s3 A3) as (s4 & E4 & A4 & I4). rewrite (bind_Ok _ _ _ _ _ _ _ E4).
  rewrite (bind_Ok _ _ _ _ _ _ _ (release_others v mlfq T w s4 _ _ ND Hl)), release_ok by done.
  exists s4. split_and!; [done|done|congruence].
Qed.

(** C37 Keyboard interrupts edit the input line as intended, for any sequence of keys:
    ordinary characters are appended while the 128-byte buffer has room, ^H takes
    the last one of the current line back, ^U the whole line, newline, ^D and a
    full buffer hand the line to readers and wake them, and ^P only prints; what
    readers may take is never edited, the counters survive the wrap-around of 32
    bits, and all locks, those of procdump included, are released. *)
Theorem console_intr_edits v mlfq word keys s Q E h w :
  tables_ok v mlfq → alive s → irep (input s) Q E → Forall (λ c, 0 ≤ c < 256) keys →
  LkConsole ∉ h → LkProcTable ∉ h → LkInput ∉ h → (∀ q, LkRq q ∉ h) →
  let '(Q', E', w') := foldl line_key (Q, E, w) keys in
  ∃ s', console_intr (procdump v mlfq word) keys (KCtx h w) s = Ok () (KCtx h w') s' ∧
    irep (input s') Q' E' ∧ alive s'.
Proof.
  intros T A R F Hc Hp Hi Hr. unfold console_intr.
  rewrite (bind_Ok _ _ _ _ _ _ _ (acquire_ok LkInput (KCtx h w) s Hi)). cbn [held woken].
  assert (D : ∀ w, dumps (procdump v mlfq word) (KCtx (LkInput :: h) w)).
  { intros w0. apply procdump_ok; [done| | |intros q]; rewrite elem_of_cons; intros [?|X]; try done.
    by apply Hr in X. }
  pose proof (console_keys_run _ _ D keys s Q E w R A F) as K.
  destruct (foldl line_key (Q, E, w) keys) as [[Q' E'] w']. destruct K as (s' & E1 & R1 & A1).
  rewrite (bind_Ok _ _ _ _ _ _ _ E1), release_ok by done. by exists s'.
Qed.

(** ** Reading lines *)

(** What a read of [n] more bytes takes from the readable bytes [Q]: it finishes
    with [l], leaving [Q'], or takes them all and wants [n] more. *)
Inductive line_result := Finished (l Q' : list Z) | Wants (n : nat) (l : list Z).

Fixpoint read_line (target : Z) (n : nat) (Q l : list Z) : line_result :=
  match n, Q with
  | O, _ => Finished l Q
  | S _, [] => Wants n l
  | S n', c :: Q' =>
      if decide (c = Ctl 68) then Finished l (if decide (Z.of_nat n < target) then Q else Q')
      else if decide (c = 10) then Finished (l ++ [c]) Q'
      else read_line target n' Q' (l ++ [c])
  end.

(** [console_read] from inside its inner loop, with [n] bytes wanted. *)
Definition read_from (f1 fuel : nat) (target : Z) (n : nat) (dst : list Z) : M console (option (list Z)) :=
  r ← (ok ← wait_input f1;
       if (ok : bool) then
         i ← kgets input;
         let c := in_get i (ir i) in
         upd_input (λ i, Input (ibuf i) (u32 (ir i + 1)) (iw i) (ie i));;
         if decide (c = Ctl 68) then
           (if decide (Z.of_nat n < target)
            then upd_input (λ i, Input (ibuf i) (u32 (ir i - 1)) (iw i) (ie i)) else mret ());;
           mret (Some dst)
         else if decide (c = 10) then mret (Some (dst ++ [c]))
         else console_read_loop fuel target (n - 1) (dst ++ [c])
       else mret None);
  release LkInput;;
  mret r.

(** The console with only the input changed. *)
Definition only_input (s s' : console) : Prop := ∃ i, s' = set_input i s.

Definition read_post (h : list lock_id) (w : list chan_id) (fuel : nat) (target : Z) (s : console)
    (E : list Z) (res : line_result) (o : outcome console (option (list Z))) : Prop :=
  match res with
  | Finished l Q' => ∃ s', o = Ok (Some l) (KCtx h w) s' ∧ irep (input s') Q' E ∧ only_input s s'
  | Wants n l =>
      ∃ s', irep (input s') [] E ∧ only_input s s' ∧
      if cp_killed s then o = Ok None (KCtx h w) s'
      else ∃ f1 k, o = Sleep ChInput LkInput (KCtx (LkInput :: h) w) s' k ∧
             ∀ s'', k s'' = read_from f1 fuel target n l (KCtx (LkInput :: h) []) s''
  end.

Section read_spec.
Context (h : list lock_id) (w : list chan_id) (Hh : LkInput ∉ h) (fuel : nat) (target : Z).

Lemma wait_input_run f s Q E : irep (input s) Q E →
  wait_input (S f) (KCtx (LkInput :: h) w) s =
  if decide (Q = []) then
    if cp_killed s then Ok false (KCtx (LkInput :: h) w) s
    else Sleep ChInput LkInput (KCtx (LkInput :: h) w) s (λ s', wait_input f (KCtx (LkInput :: h) []) s')
  else Ok true (KCtx (LkInput :: h) w) s.
Proof.
  intros R. cbn [wait_input]. rewrite kget_bind.
  destruct (decide (ir (input s) = iw (input s))) as [D|D]; rewrite (irep_readable _ _ _ R) in D;
    [rewrite decide_True by done|by rewrite decide_False by done].
  destruct (cp_killed s); [done|]. unfold sleep, mbind, M_bind. cbn [held woken].
  by rewrite decide_True by inl.
Qed.

Lemma irep_untake i Q E c : irep i (c :: Q) E →
  Input (ibuf i) (u32 (u32 (ir i + 1) - 1)) (iw i) (ie i) = i.
Proof. intros R. rewrite u32_pred, (ir_r _ _ _ R). by destruct i. Qed.

Lemma console_read_loop_post n : ∀ s Q E dst, irep (input s) Q E → (0 < fuel)%nat →
  read_post h w fuel target s E (read_line target n Q dst)
    ((r ← console_read_loop fuel target n dst; release LkInput;; mret r) (KCtx (LkInput :: h) w) s).
Proof.
  induction n as [|n IH]; intros s Q E dst R Hf; cbn [read_line].
  { cbn [console_read_loop]. rewrite ret_bind, (bind_Ok _ _ _ _ _ _ _ (release_ok _ _ _ _ Hh)).
    exists s. split_and!; [done|done|]. exists (input s). by destruct s. }
  destruct (Nat.lt_exists_pred 0 fuel Hf) as (f & Ef & _). pose proof (wait_input_run f s Q E R) as W.
  rewrite <- Ef in W.
  cbn [console_read_loop].
  destruct Q as [|c Q].
  - rewrite decide_True in W by done. exists s. split; [done|]. split; [exists (input s); by destruct s|].
    destruct (cp_killed s).
    + unfold mbind at 1, M_bind at 1. rewrite (bind_Ok _ _ _ _ _ _ _ W). cbn [obind mret M_ret].
      by rewrite (bind_Ok _ _ _ _ _ _ _ (release_ok _ _ _ _ Hh)).
    + eexists f, _. split; [unfold mbind, M_bind in W |- *; rewrite W; cbn [obind]; reflexivity|].
      intros s''. unfold read_from, mbind, M_bind. by rewrite Nat.sub_succ, Nat.sub_0_r.
  - rewrite decide_False in W by done.
    destruct (irep_take _ _ _ _ R) as [G R'].
    set (s1 := set_input (Input (ibuf (input s)) (u32 (ir (input s) + 1)) (iw (input s)) (ie (input s))) s).
    unfold mbind at 1, M_bind at 1. rewrite (bind_Ok _ _ _ _ _ _ _ W), kgets_bind, G.
    unfold upd_input. rewrite kmodify_bind. fold s1.
    destruct (decide (c = Ctl 68)); [|destruct (decide (c = 10))].
    + destruct (decide (Z.of_nat (S n) < target)).
      * rewrite kmodify_bind. cbn [obind mret M_ret].
        rewrite (bind_Ok _ _ _ _ _ _ _ (release_ok _ _ _ _ Hh)).
        eexists. split; [reflexivity|]. unfold s1. cbn [input set_input ibuf ir iw ie].
        rewrite (irep_untake _ _ _ _ R). split; [done|]. exists (input s). by destruct s.
      * rewrite ret_bind. cbn [obind mret M_ret]. rewrite (bind_Ok _ _ _ _ _ _ _ (release_ok _ _ _ _ Hh)).
        eexists. split; [reflexivity|]. split; [done|by eexists].
    + cbn [obind mret M_ret]. rewrite (bind_Ok _ _ _ _ _ _ _ (release_ok _ _ _ _ Hh)).
      eexists. split; [reflexivity|]. split; [done|by eexists].
    + specialize (IH s1 Q E (dst ++ [c]) R' ltac:(lia)). unfold mbind in IH at 1. unfold M_bind in IH at 1.
      unfold read_post in *. destruct (read_line target n Q (dst ++ [c])).
      * destruct IH as (s' & E1 & R1 & i & ->). exists (set_input i s1). split_and!; [done|done|by exists i].
      * destruct IH as (s' & R1 & (i & ->) & O). exists (set_input i s1). split; [done|]. split; [by exists i|done].
Qed.
End read_spec.

(** [console_read] takes from the readable bytes exactly what the line discipline
    says: up to [n] bytes, ending after a newline or before a ^D, where a ^D is
    itself consumed only when nothing was read (an end of file) and otherwise
    left for the next call.  When the bytes run out before that it sleeps, with
    everything taken so far kept, and resumes from there; or returns -1 if the
    process was killed.  The line being edited is never touched. *)
Theorem console_read_line n s Q E h w fuel :
  irep (input s) Q E → LkInput ∉ h → (0 < fuel)%nat →
  read_post h w fuel n s E (read_line n (Z.to_nat n) Q []) (console_read fuel n (KCtx h w) s).
Proof.
  intros R Hh Hf. unfold console_read.
  rewrite (bind_Ok _ _ _ _ _ _ _ (acquire_ok LkInput (KCtx h w) s Hh)). by apply console_read_loop_post.
Qed.

(** ** Witnesses *)
Definition blank_console : console :=
  Console (replicate 2000 0) 0 [] false true (Input (replicate 128 0) 0 0 0) false.

Lemma blank_alive : alive blank_console.
Proof. split; [|done]. split; [by apply length_replicate|simpl; lia]. Qed.

Lemma blank_irep : irep (input blank_console) [] [].
Proof. split; try done. apply not_elem_of_nil. Qed.

Lemma cga_putc_correct_witness : ∃ s' up, cga_putc 65 (KCtx [] []) blank_console = Ok () (KCtx [] []) s' ∧
  cursor s' = advance 65 0 - up ∧ screen_ok s'.
Proof.
  destruct (cga_putc_correct 65 (KCtx [] []) blank_console) as (s' & up & E1 & S & _ & E2 & _); [apply blank_alive|].
  exists s', up. split; [exact E1|]. split; [exact E2|exact S].
Defined.

Lemma cprintf_renders_witness : ∃ s',
  cprintf (lit "cpu%d: %s") [Num 1; Ptr (Some (lit "up"))] (KCtx [] []) blank_console = Ok () (KCtx [] []) s' ∧
  lpt s' = lit "cpu1: up".
Proof.
  destruct (cprintf_renders (lit "cpu%d: %s") [Num 1; Ptr (Some (lit "up"))] (KCtx [] []) blank_console (lit "cpu1: up"))
    as (s' & E & S).
  - apply blank_alive.
  - done.
  - apply not_elem_of_nil.
  - by apply (bool_decide_unpack _); vm_compute.
  - repeat constructor; simpl; try done; by apply (bool_decide_unpack _); vm_compute.
  - by vm_compute.
  - exists s'. split; [exact E|]. apply (sh_lpt _ _ _ S).
Defined.

(** One processor running process 0 with run queue 0. *)
Definition one_cpu : schst :=
  SchSt [rq_zero] [proc_zero] [Cpu (Some 0%nat) context_zero (Some 0%nat)] [] None 1 [] 1 0.

Lemma one_cpu_ok : tables_ok one_cpu false.
Proof.
  split.
  - intros [|i] Hi; [|simpl in Hi; lia]. by exists (Cpu (Some 0%nat) context_zero (Some 0%nat)), 0%nat, proc_zero, 0%nat, rq_zero.
  - intros [|i] [|j] c d q; done.
  - repeat constructor; lia.
Qed.

(** The keys a, b, ^H, newline. *)
Lemma console_intr_edits_witness : ∃ s',
  console_intr (procdump one_cpu false (λ _, 0)) [97; 98; 8; 10] (KCtx [] []) blank_console =
    Ok () (KCtx [] [ChInput]) s' ∧ irep (input s') [97; 10] [].
Proof.
  destruct (console_intr_edits one_cpu false (λ _, 0) [97; 98; 8; 10] blank_console [] [] [] []) as (s' & E & R & _).
  - apply one_cpu_ok.
  - apply blank_alive.
  - apply blank_irep.
  - repeat constructor; lia.
  - apply not_elem_of_nil.
  - apply not_elem_of_nil.
  - apply not_elem_of_nil.
  - intros q. apply not_elem_of_nil.
  - exists s'. split; [exact E|exact R].
Defined.

Definition line_console : console :=
  Console (replicate 2000 0) 0 [] false true (Input ([97; 10; 98] ++ replicate 125 0) 0 3 3) false.

Lemma console_read_line_witness : ∃ s',
  console_read 1 10 (KCtx [] []) line_console = Ok (Some [97; 10]) (KCtx [] []) s' ∧ irep (input s') [98] [].
Proof.
  destruct (console_read_line 10 line_console [97; 10; 98] [] [] [] 1) as (s' & E & R & _).
  - split; try done; [|apply not_elem_of_nil]. split; [done|done|].
    intros [|[|[|i]]] b Hb; simplify_eq/=; done.
  - apply not_elem_of_nil.
  - lia.
  - exists s'. split; [exact E|exact R].
Defined.
