(* ===== verification/FsDisk.v ===== *)
(** * The on-disk format (fs.h)

    A disk block is a list of [BSIZE] bytes.  The structures of fs.h are read and
    written at their byte offsets, little-endian as on the i386: the super block,
    the 64-byte [dinode], the bitmap and the 16-byte [dirent]. *)
From S2P Require Import Prelude.
Local Open Scope Z_scope.

Definition BSIZE : Z := 512.
Definition NDIRECT : Z := 12.
Definition INDIRECT : nat := 12.
Definition NADDRS : nat := 13.
Definition NINDIRECT : Z := BSIZE / 4.
Definition MAXFILE : Z := NDIRECT + NINDIRECT.
Definition T_DIR : Z := 1.
Definition T_FILE : Z := 2.
Definition T_DEV : Z := 3.
Definition IPB : Z := BSIZE / 64.
Definition IBLOCK (i : Z) : Z := i / IPB + 2.
Definition BPB : Z := BSIZE * 8.
Definition BBLOCK (b ninodes : Z) : Z := b / BPB + ninodes / IPB + 3.
Definition DIRSIZ : Z := 14.

Notation block := (list Z).

(** ** Bytes and words *)
Definition get8 (d : block) (o : Z) : Z := d !!! Z.to_nat o.
Definition put8 (d : block) (o v : Z) : block := <[Z.to_nat o := u8 v]> d.
Definition get16 (d : block) (o : Z) : Z := get8 d o + 2 ^ 8 * get8 d (o + 1).
Definition put16 (d : block) (o v : Z) : block := put8 (put8 d o v) (o + 1) (v / 2 ^ 8).
Definition get32 (d : block) (o : Z) : Z := get16 d o + 2 ^ 16 * get16 d (o + 2).
Definition put32 (d : block) (o v : Z) : block := put16 (put16 d o v) (o + 2) (v / 2 ^ 16).

(** [n] bytes from offset [o] on, and bytes stored there. *)
Definition slice (d : list Z) (o n : Z) : list Z := take (Z.to_nat n) (drop (Z.to_nat o) d).
Definition splice (d : list Z) (o : Z) (l : list Z) : list Z :=
  take (Z.to_nat o) d ++ l ++ drop (Z.to_nat o + length l) d.

Definition byte (v : Z) : Prop := 0 ≤ v < 256.
Record block_ok (d : block) : Prop := {
  bo_len : length d = Z.to_nat BSIZE;
  bo_bytes : Forall byte d
}.

(** ** Structures *)
Record superblock := Superblock { sb_size : Z; sb_nblocks : Z; sb_ninodes : Z }.
Definition superblock_at (d : block) : superblock := Superblock (get32 d 0) (get32 d 4) (get32 d 8).

Record dinode := Dinode {
  d_type : Z; d_major : Z; d_minor : Z; d_nlink : Z; d_size : Z; d_addrs : list Z
}.
(** The [i]-th [struct dinode] of the block. *)
Definition dinode_at (d : block) (i : Z) : dinode :=
  let o := 64 * i in
  Dinode (s16 (get16 d o)) (s16 (get16 d (o + 2))) (s16 (get16 d (o + 4))) (s16 (get16 d (o + 6)))
    (get32 d (o + 8)) ((λ k, get32 d (o + 12 + 4 * Z.of_nat k)) <$> seq 0 NADDRS).
Fixpoint put_words (d : block) (o : Z) (l : list Z) : block :=
  match l with [] => d | x :: l => put_words (put32 d o x) (o + 4) l end.
Definition put_dinode (d : block) (i : Z) (di : dinode) : block :=
  let o := 64 * i in
  let d := put16 d o (d_type di) in
  let d := put16 d (o + 2) (d_major di) in
  let d := put16 d (o + 4) (d_minor di) in
  let d := put16 d (o + 6) (d_nlink di) in
  let d := put32 d (o + 8) (d_size di) in
  put_words d (o + 12) (d_addrs di).

(** ** The bitmap *)
Definition bit (d : block) (bi : Z) : bool := Z.testbit (get8 d (bi / 8)) (bi mod 8).
Definition set_bit (d : block) (bi : Z) : block :=
  put8 d (bi / 8) (Z.lor (get8 d (bi / 8)) (Z.shiftl 1 (bi mod 8))).
Definition clear_bit (d : block) (bi : Z) : block :=
  put8 d (bi / 8) (Z.land (get8 d (bi / 8)) (Z.lnot (Z.shiftl 1 (bi mod 8)))).

(** ** Reading what was written *)
Lemma put8_length d o v : length (put8 d o v) = length d.
Proof. apply length_insert. Qed.
Lemma put16_length d o v : length (put16 d o v) = length d.
Proof. unfold put16. by rewrite !put8_length. Qed.
Lemma put32_length d o v : length (put32 d o v) = length d.
Proof. unfold put32. by rewrite !put16_length. Qed.

Lemma get8_put8 d o v x : 0 ≤ o < Z.of_nat (length d) → 0 ≤ x →
  get8 (put8 d o v) x = if decide (x = o) then u8 v else get8 d x.
Proof.
  intros Ho Hx. unfold get8, put8. case_decide as E.
  - subst. rewrite list_lookup_total_insert_eq; [done|lia].
  - apply list_lookup_total_insert_ne. lia.
Qed.

Lemma get8_byte d x : Forall byte d → byte (get8 d x).
Proof.
  intros F. unfold get8. rewrite list_lookup_total_alt. destruct (d !! Z.to_nat x) eqn:E; simpl; [|done].
  by eapply (Forall_lookup_1 _ _ _ _ F).
Qed.

Lemma put8_bytes d o v : Forall byte d → Forall byte (put8 d o v).
Proof. intros F. apply Forall_insert; [done|apply u8_range]. Qed.

Lemma put8_ok d o v : block_ok d → block_ok (put8 d o v).
Proof. intros [H1 H2]. split; [by rewrite put8_length|by apply put8_bytes]. Qed.
Lemma put32_ok d o v : block_ok d → block_ok (put32 d o v).
Proof. intros H. unfold put32, put16. by repeat apply put8_ok. Qed.
Lemma put_words_ok l : ∀ d o, block_ok d → block_ok (put_words d o l).
Proof. induction l as [|x l IH]; intros d o H; simpl; [done|]. by apply IH, put32_ok. Qed.
Lemma put_dinode_ok d i di : block_ok d → block_ok (put_dinode d i di).
Proof. intros H. apply put_words_ok, put32_ok. unfold put16. by repeat apply put8_ok. Qed.

(** Two words at offsets that do not overlap. *)
Lemma get16_put8_ne d o v x : 0 ≤ o < Z.of_nat (length d) → 0 ≤ x → (o < x ∨ x + 2 ≤ o) →
  get16 (put8 d o v) x = get16 d x.
Proof. intros. unfold get16. rewrite !get8_put8 by lia. by rewrite !decide_False by lia. Qed.

Lemma get16_put16_ne d o v x : 0 ≤ o → o + 2 ≤ Z.of_nat (length d) → 0 ≤ x → (o + 2 ≤ x ∨ x + 2 ≤ o) →
  get16 (put16 d o v) x = get16 d x.
Proof. intros. unfold put16. rewrite !get16_put8_ne; rewrite ?put8_length; done || lia. Qed.

Lemma get16_put32_ne d o v x : 0 ≤ o → o + 4 ≤ Z.of_nat (length d) → 0 ≤ x → (o + 4 ≤ x ∨ x + 2 ≤ o) →
  get16 (put32 d o v) x = get16 d x.
Proof. intros. unfold put32. rewrite !get16_put16_ne; rewrite ?put16_length; done || lia. Qed.

Lemma get32_put16_ne d o v x : 0 ≤ o → o + 2 ≤ Z.of_nat (length d) → 0 ≤ x → (o + 2 ≤ x ∨ x + 4 ≤ o) →
  get32 (put16 d o v) x = get32 d x.
Proof. intros. unfold get32. by rewrite !get16_put16_ne by lia. Qed.

Lemma get32_put32_ne d o v x : 0 ≤ o → o + 4 ≤ Z.of_nat (length d) → 0 ≤ x → (o + 4 ≤ x ∨ x + 4 ≤ o) →
  get32 (put32 d o v) x = get32 d x.
Proof. intros. unfold get32. by rewrite !get16_put32_ne by lia. Qed.

Lemma get16_put16 d o v : 0 ≤ o → o + 2 ≤ Z.of_nat (length d) → get16 (put16 d o v) o = u16 v.
Proof.
  intros. unfold get16, put16. rewrite !get8_put8 by (rewrite ?put8_length; lia).
  rewrite (decide_False (P := o = o + 1)) by lia. rewrite !decide_True by done.
  unfold u8, u16. pose proof (Z.div_mod v (2 ^ 8) ltac:(lia)). change (2 ^ 16) with (2 ^ 8 * 2 ^ 8).
  by rewrite Z.rem_mul_r by lia.
Qed.

Lemma get32_put32 d o v : 0 ≤ o → o + 4 ≤ Z.of_nat (length d) → get32 (put32 d o v) o = u32 v.
Proof.
  intros. unfold get32, put32. rewrite get16_put16_ne by (rewrite ?put16_length; lia).
  rewrite !get16_put16 by (rewrite ?put16_length; lia). unfold u16, u32.
  change (2 ^ 32) with (2 ^ 16 * 2 ^ 16). by rewrite Z.rem_mul_r by lia.
Qed.

Lemma put_words_length l : ∀ d o, length (put_words d o l) = length d.
Proof. induction l as [|x l IH]; intros d o; simpl; [done|]. by rewrite IH, put32_length. Qed.

Lemma get16_put_words_ne l : ∀ d o x, 0 ≤ o → o + 4 * Z.of_nat (length l) ≤ Z.of_nat (length d) → 0 ≤ x →
  (o + 4 * Z.of_nat (length l) ≤ x ∨ x + 2 ≤ o) → get16 (put_words d o l) x = get16 d x.
Proof.
  induction l as [|y l IH]; intros d o x H1 H2 H3 H4; simpl in *; [done|].
  rewrite IH by (rewrite ?put32_length; lia). apply get16_put32_ne; lia.
Qed.

Lemma get32_put_words_ne l d o x : 0 ≤ o → o + 4 * Z.of_nat (length l) ≤ Z.of_nat (length d) → 0 ≤ x →
  (o + 4 * Z.of_nat (length l) ≤ x ∨ x + 4 ≤ o) → get32 (put_words d o l) x = get32 d x.
Proof. intros. unfold get32. by rewrite !get16_put_words_ne by lia. Qed.

Lemma get32_put_words l : ∀ d o k v, 0 ≤ o → o + 4 * Z.of_nat (length l) ≤ Z.of_nat (length d) →
  l !! k = Some v → get32 (put_words d o l) (o + 4 * Z.of_nat k) = u32 v.
Proof.
  induction l as [|y l IH]; intros d o [|k] v H1 H2 H3; simplify_eq/=.
  - rewrite Z.add_0_r, get32_put_words_ne by (rewrite ?put32_length; lia). apply get32_put32; lia.
  - replace (o + 4 * Z.of_nat (S k)) with (o + 4 + 4 * Z.of_nat k) by lia.
    apply IH; rewrite ?put32_length; (done || lia).
Qed.

(** A [dinode] that fits its fields. *)
Record dinode_ok (di : dinode) : Prop := {
  do_type : s16 (d_type di) = d_type di;
  do_major : s16 (d_major di) = d_major di;
  do_minor : s16 (d_minor di) = d_minor di;
  do_nlink : s16 (d_nlink di) = d_nlink di;
  do_size : u32 (d_size di) = d_size di;
  do_len : length (d_addrs di) = NADDRS;
  do_addrs : Forall (λ a, u32 a = a) (d_addrs di)
}.

Lemma s16_u16 v : s16 (u16 v) = s16 v.
Proof. unfold s16, u16. by rewrite Zplus_mod_idemp_l. Qed.

(** Reading an inode back after writing it. *)
Lemma dinode_at_put d i di : block_ok d → 0 ≤ i < IPB → dinode_ok di → dinode_at (put_dinode d i di) i = di.
Proof.
  intros [Hl _] Hi [T1 T2 T3 T4 T5 T6 T7]. unfold IPB, BSIZE in *. change (512 / 64) with 8 in Hi.
  assert (Hl' : Z.of_nat (length d) = 512) by lia. unfold dinode_at, put_dinode.
  assert (Hw : 64 * i + 12 + 4 * Z.of_nat (length (d_addrs di)) ≤ 512) by (rewrite T6; unfold NADDRS; lia).
  rewrite !get16_put_words_ne by (rewrite ?put32_length, ?put16_length; lia).
  rewrite get32_put_words_ne by (rewrite ?put32_length, ?put16_length; lia).
  rewrite !get16_put32_ne by (rewrite ?put16_length; lia).
  rewrite get32_put32 by (rewrite ?put16_length; lia).
  repeat first [rewrite get16_put16 by (rewrite ?put16_length; lia)
               |rewrite get16_put16_ne by (rewrite ?put16_length; lia)].
  rewrite !s16_u16, T1, T2, T3, T4, T5. destruct di as [a b c e f l]. cbn [d_addrs d_size d_type d_major d_minor d_nlink] in *. f_equal.
  apply list_eq. intros k. rewrite list_lookup_fmap.
  destruct (decide (k < NADDRS)%nat) as [Hk|Hk].
  - rewrite lookup_seq_lt by done. simpl. destruct (lookup_lt_is_Some_2 l k) as [v Hv]; [lia|].
    rewrite (get32_put_words _ _ _ k v), Hv by (rewrite ?put32_length, ?put16_length; (done || lia)).
    f_equal. by eapply (Forall_lookup_1 _ _ _ _ T7).
  - rewrite lookup_seq_ge by lia. symmetry. apply lookup_ge_None_2. lia.
Qed.

(** ** Bits *)
Lemma land_bit x n : 0 ≤ n → Z.land x (Z.shiftl 1 n) = 0 ↔ Z.testbit x n = false.
Proof.
  intros Hn. split.
  - intros E. assert (B : Z.testbit (Z.land x (Z.shiftl 1 n)) n = false) by (by rewrite E, Z.bits_0).
    rewrite Z.land_spec, Z.shiftl_spec, Z.sub_diag in B by done. by rewrite andb_true_r in B.
  - intros E. apply Z.bits_inj'. intros k Hk. rewrite Z.bits_0, Z.land_spec, Z.shiftl_spec by done.
    destruct (decide (k = n)) as [->|Hne]; [by rewrite E|].
    destruct (decide (k < n)); [rewrite (Z.testbit_neg_r 1) by lia; by rewrite andb_false_r|].
    rewrite (Z.bits_above_log2 1) by (simpl; lia). by rewrite andb_false_r.
Qed.

Lemma testbit_one n k : 0 ≤ n → 0 ≤ k → Z.testbit (Z.shiftl 1 n) k = bool_decide (k = n).
Proof.
  intros Hn Hk. rewrite Z.shiftl_spec by done. case_bool_decide as D; [subst; by rewrite Z.sub_diag|].
  destruct (decide (k < n)); [by rewrite Z.testbit_neg_r by lia|]. apply Z.bits_above_log2; simpl; lia.
Qed.

Lemma testbit_u8 v k : 0 ≤ k < 8 → Z.testbit (u8 v) k = Z.testbit v k.
Proof. intros. unfold u8. apply Z.mod_pow2_bits_low. lia. Qed.

Section bits.
Context (d : block) (Hd : block_ok d) (bi : Z) (Hbi : 0 ≤ bi < BPB).

Lemma bit_index : 0 ≤ bi / 8 < Z.of_nat (length d) ∧ 0 ≤ bi mod 8 < 8.
Proof.
  rewrite (bo_len _ Hd). unfold BPB, BSIZE in *. split; [|by apply Z.mod_pos_bound].
  split; [apply Z.div_pos; lia|]. apply Z.div_lt_upper_bound; lia.
Qed.

Lemma bit_of x : bi = 8 * (bi / 8) + bi mod 8 ∧ x = 8 * (x / 8) + x mod 8.
Proof. split; by apply Z.div_mod. Qed.

Lemma bit_set x : 0 ≤ x → bit (set_bit d bi) x = bool_decide (x = bi) || bit d x.
Proof.
  intros Hx. destruct bit_index as [I1 I2]. unfold bit, set_bit.
  assert (0 ≤ x / 8) by (apply Z.div_pos; lia). assert (Hm : 0 ≤ x mod 8 < 8) by (by apply Z.mod_pos_bound).
  rewrite get8_put8 by done. destruct (bit_of x) as [E1 E2]. case_decide as D.
  - rewrite testbit_u8 by done. rewrite Z.lor_spec, testbit_one by lia. rewrite D, orb_comm. f_equal.
    apply bool_decide_ext. lia.
  - rewrite bool_decide_eq_false_2; [done|]. intros ->. done.
Qed.

Lemma bit_clear x : 0 ≤ x → bit (clear_bit d bi) x = negb (bool_decide (x = bi)) && bit d x.
Proof.
  intros Hx. destruct bit_index as [I1 I2]. unfold bit, clear_bit.
  assert (0 ≤ x / 8) by (apply Z.div_pos; lia). assert (Hm : 0 ≤ x mod 8 < 8) by (by apply Z.mod_pos_bound).
  rewrite get8_put8 by done. destruct (bit_of x) as [E1 E2]. case_decide as D.
  - rewrite testbit_u8 by done. rewrite Z.land_spec, Z.lnot_spec, testbit_one by lia. rewrite D, andb_comm.
    f_equal. f_equal. apply bool_decide_ext. lia.
  - rewrite bool_decide_eq_false_2; [done|]. intros ->. done.
Qed.
End bits.

Lemma set_bit_ok d bi : block_ok d → block_ok (set_bit d bi).
Proof. apply put8_ok. Qed.
Lemma clear_bit_ok d bi : block_ok d → block_ok (clear_bit d bi).
Proof. apply put8_ok. Qed.

(** ** Slices *)
Lemma slice_length d o n : 0 ≤ o → 0 ≤ n → o + n ≤ Z.of_nat (length d) → length (slice d o n) = Z.to_nat n.
Proof. intros. unfold slice. rewrite length_take, length_drop. lia. Qed.

Lemma splice_length d o l : 0 ≤ o → o + Z.of_nat (length l) ≤ Z.of_nat (length d) → length (splice d o l) = length d.
Proof. intros. unfold splice. rewrite !length_app, length_take, length_drop. lia. Qed.

Lemma get8_slice d o n x : 0 ≤ o → 0 ≤ x < n → o + n ≤ Z.of_nat (length d) → get8 (slice d o n) x = get8 d (o + x).
Proof.
  intros. unfold get8, slice. rewrite !list_lookup_total_alt, lookup_take_lt, lookup_drop by lia.
  do 2 f_equal. lia.
Qed.

Lemma get8_splice d o l x : 0 ≤ o ≤ Z.of_nat (length d) → 0 ≤ x →
  get8 (splice d o l) x = if decide (o ≤ x < o + Z.of_nat (length l)) then get8 l (x - o) else get8 d x.
Proof.
  intros. unfold get8, splice. rewrite !list_lookup_total_alt. case_decide as D.
  - rewrite lookup_app_r, lookup_app_l by (rewrite length_take; lia). rewrite length_take. do 2 f_equal. lia.
  - destruct (decide (x < o)).
    + by rewrite lookup_app_l, lookup_take_lt by (rewrite ?length_take; lia).
    + rewrite !lookup_app_r by (rewrite ?length_take; lia). rewrite lookup_drop, length_take. do 2 f_equal. lia.
Qed.

Lemma splice_ok d o l : block_ok d → Forall byte l → 0 ≤ o → o + Z.of_nat (length l) ≤ BSIZE → block_ok (splice d o l).
Proof.
  intros [H1 H2] Hl Ho Hn. split; [rewrite splice_length; lia|].
  unfold splice. rewrite !Forall_app. auto using Forall_take, Forall_drop.
Qed.

Lemma get8_ext (a b : list Z) : length a = length b →
  (∀ x, 0 ≤ x < Z.of_nat (length a) → get8 a x = get8 b x) → a = b.
Proof.
  intros Hl H. apply list_eq_same_length with (length a); [done|done|]. intros i x y Hi Ha Hb.
  specialize (H (Z.of_nat i) ltac:(lia)). unfold get8 in H. rewrite Nat2Z.id in H.
  apply list_lookup_total_correct in Ha, Hb. congruence.
Qed.

Definition zero_block : block := replicate (Z.to_nat BSIZE) 0.
Lemma zero_block_ok : block_ok zero_block.
Proof. split; [apply length_replicate|]. apply Forall_replicate. unfold byte. lia. Qed.

Lemma get8_zero x : 0 ≤ x < BSIZE → get8 zero_block x = 0.
Proof.
  intros Hx. unfold get8, zero_block. apply list_lookup_total_correct, lookup_replicate. split; [done|lia].
Qed.

Lemma get32_zero o : 0 ≤ o → o + 4 ≤ BSIZE → get32 zero_block o = 0.
Proof. intros. unfold get32, get16. by rewrite !get8_zero by lia. Qed.
