(* ===== verification/Fs.v ===== *)
(** * The file system (fs.c)

    The state is the disk, by device and sector, the buffers that are locked (held
    between [bread] and [brelse]), the inode cache and the working directory of
    the running process.  [bread], [bwrite] and [brelse] are the promise of the
    buffer cache: a locked buffer is the only copy of its block that is in use,
    so the contents handed out are the block's and a [bwrite] changes the disk.
    A caller's changes to [bp->data] are a local value until [bwrite].

    [fuel] bounds the number of times a waiting loop finds its condition still
    false.  Counting loops take as fuel the number of their iterations.  A
    [uint] result -1 is 2^32 - 1.  Offsets and sizes are [uint]s and wrap. *)
From S2P Require Import Prelude Kernel ProcData FsDisk.
Local Open Scope Z_scope.

Record inode := Inode {
  i_dev : Z; i_inum : Z; i_ref : Z; i_busy : bool; i_valid : bool;
  i_type : Z; i_major : Z; i_minor : Z; i_nlink : Z; i_size : Z; i_addrs : list Z
}.

Record fsst := FsSt {
  disk : gmap (Z * Z) block;
  bbusy : list (Z * Z);
  icache : list inode;
  cwd : option nat
}.

Definition set_disk v s := FsSt v (bbusy s) (icache s) (cwd s).
Definition set_bbusy v s := FsSt (disk s) v (icache s) (cwd s).
Definition set_icache v s := FsSt (disk s) (bbusy s) v (cwd s).

Definition set_ref v i := Inode (i_dev i) (i_inum i) v (i_busy i) (i_valid i) (i_type i) (i_major i) (i_minor i) (i_nlink i) (i_size i) (i_addrs i).
Definition set_busy v i := Inode (i_dev i) (i_inum i) (i_ref i) v (i_valid i) (i_type i) (i_major i) (i_minor i) (i_nlink i) (i_size i) (i_addrs i).
Definition set_valid v i := Inode (i_dev i) (i_inum i) (i_ref i) (i_busy i) v (i_type i) (i_major i) (i_minor i) (i_nlink i) (i_size i) (i_addrs i).
Definition set_type v i := Inode (i_dev i) (i_inum i) (i_ref i) (i_busy i) (i_valid i) v (i_major i) (i_minor i) (i_nlink i) (i_size i) (i_addrs i).
Definition set_nlink v i := Inode (i_dev i) (i_inum i) (i_ref i) (i_busy i) (i_valid i) (i_type i) (i_major i) (i_minor i) v (i_size i) (i_addrs i).
Definition set_size v i := Inode (i_dev i) (i_inum i) (i_ref i) (i_busy i) (i_valid i) (i_type i) (i_major i) (i_minor i) (i_nlink i) v (i_addrs i).
Definition set_addrs v i := Inode (i_dev i) (i_inum i) (i_ref i) (i_busy i) (i_valid i) (i_type i) (i_major i) (i_minor i) (i_nlink i) (i_size i) v.

Definition get_inode (ip : nat) : M fsst inode := s ← kget; deref (icache s !! ip).
Definition at_inode (ip : nat) (f : inode → inode) : M fsst unit :=
  i ← get_inode ip; kmodify (λ s, set_icache (<[ip := f i]> (icache s)) s).

Section fs.
Context (fuel : nat).

(** ** Buffers *)
Fixpoint bget (n : nat) (key : Z * Z) : M fsst unit :=
  match n with
  | O => diverge
  | S n =>
      s ← kget;
      if decide (key ∈ bbusy s) then sleep (ChBuf 0) LkBufTable;; bget n key
      else if decide (NBUF ≤ length (bbusy s))%nat then panic "bget: no buffers"
      else kput (set_bbusy (key :: bbusy s) s)
  end.
Definition bread (dev b : Z) : M fsst block :=
  acquire LkBufTable;; bget fuel (dev, b);; release LkBufTable;;
  s ← kget; deref (disk s !! (dev, b)).
Definition bwrite (dev b : Z) (d : block) : M fsst unit :=
  s ← kget;
  if decide ((dev, b) ∉ bbusy s) then panic "bwrite"
  else kput (set_disk (<[(dev, b) := d]> (disk s)) s).
Definition brelse (dev b : Z) : M fsst unit :=
  s ← kget;
  if decide ((dev, b) ∉ bbusy s) then panic "brelse"
  else
    acquire LkBufTable;;
    kput (set_bbusy (filter (λ k, k ≠ (dev, b)) (bbusy s)) s);;
    wakeup (ChBuf 0);;
    release LkBufTable.

(** ** Blocks *)
Definition readsb (dev : Z) : M fsst superblock :=
  d ← bread dev 1; brelse dev 1;; mret (superblock_at d).

Definition bzero (dev bno : Z) : M fsst unit :=
  d ← bread dev bno; bwrite dev bno zero_block;; brelse dev bno.

(** The inner loop of [balloc]: the first clear bit from [bi] on. *)
Fixpoint find_free (d : block) (n : nat) (bi : Z) : option Z :=
  match n with
  | O => None
  | S n =>
      if decide (Z.land (get8 d (bi / 8)) (Z.shiftl 1 (bi mod 8)) = 0) then Some bi
      else find_free d n (bi + 1)
  end.

Fixpoint balloc_loop (n : nat) (dev b : Z) (sb : superblock) : M fsst Z :=
  match n with
  | O => diverge
  | S n =>
      if decide (b < sb_size sb) then
        let bb := BBLOCK b (sb_ninodes sb) in
        d ← bread dev bb;
        match find_free d (Z.to_nat BPB) 0 with
        | Some bi => bwrite dev bb (set_bit d bi);; brelse dev bb;; mret (b + bi)
        | None => brelse dev bb;; balloc_loop n dev (b + BPB) sb
        end
      else panic "balloc: out of blocks"
  end.
Definition balloc (dev : Z) : M fsst Z :=
  sb ← readsb dev; balloc_loop (Z.to_nat (sb_size sb / BPB + 2)) dev 0 sb.

Definition bfree (dev b : Z) : M fsst unit :=
  bzero dev b;;
  sb ← readsb dev;
  let bb := BBLOCK b (sb_ninodes sb) in
  d ← bread dev bb;
  let bi := b mod BPB in
  if decide (Z.land (get8 d (bi / 8)) (Z.shiftl 1 (bi mod 8)) = 0) then panic "freeing free block"
  else bwrite dev bb (clear_bit d bi);; brelse dev bb.

(** ** The inode cache *)

(** The scan of [iget]: the inode if it is cached, else the first free slot. *)
Fixpoint iget_scan (dev inum : Z) (l : list inode) (i : nat) (empty : option nat) : nat + option nat :=
  match l with
  | [] => inr empty
  | ip :: l =>
      if decide (i_ref ip > 0 ∧ i_dev ip = dev ∧ i_inum ip = inum) then inl i
      else iget_scan dev inum l (S i)
             (match empty with None => if decide (i_ref ip = 0) then Some i else None | _ => empty end)
  end.
Definition iget (dev inum : Z) : M fsst nat :=
  acquire LkIcache;;
  s ← kget;
  match iget_scan dev inum (icache s) 0 None with
  | inl ip => at_inode ip (λ i, set_ref (i_ref i + 1) i);; release LkIcache;; mret ip
  | inr None => panic "iget: no inodes"
  | inr (Some ip) =>
      at_inode ip (λ i, Inode dev inum 1 false false (i_type i) (i_major i) (i_minor i) (i_nlink i) (i_size i) (i_addrs i));;
      release LkIcache;; mret ip
  end.

Definition idup (ip : nat) : M fsst nat :=
  acquire LkIcache;; at_inode ip (λ i, set_ref (i_ref i + 1) i);; release LkIcache;; mret ip.

Fixpoint ilock_wait (n : nat) (ip : nat) : M fsst unit :=
  match n with
  | O => diverge
  | S n =>
      i ← get_inode ip;
      if i_busy i then sleep (ChInode ip) LkIcache;; ilock_wait n ip else mret ()
  end.
Definition ilock (ip : nat) : M fsst unit :=
  i ← get_inode ip;
  if decide (i_ref i < 1) then panic "ilock"
  else
    acquire LkIcache;;
    ilock_wait fuel ip;;
    at_inode ip (set_busy true);;
    release LkIcache;;
    i ← get_inode ip;
    if i_valid i then mret ()
    else
      d ← bread (i_dev i) (IBLOCK (i_inum i));
      let dip := dinode_at d (i_inum i mod IPB) in
      at_inode ip (λ i, Inode (i_dev i) (i_inum i) (i_ref i) (i_busy i) (i_valid i)
        (d_type dip) (d_major dip) (d_minor dip) (d_nlink dip) (d_size dip) (d_addrs dip));;
      brelse (i_dev i) (IBLOCK (i_inum i));;
      at_inode ip (set_valid true);;
      if decide (d_type dip = 0) then panic "ilock: no type" else mret ().
Definition iunlock (ip : nat) : M fsst unit :=
  i ← get_inode ip;
  if decide (i_busy i = false ∨ i_ref i < 1) then panic "iunlock"
  else acquire LkIcache;; at_inode ip (set_busy false);; wakeup (ChInode ip);; release LkIcache.

(** ** Inodes *)
Definition dinode_of (i : inode) : dinode :=
  Dinode (i_type i) (i_major i) (i_minor i) (i_nlink i) (i_size i) (i_addrs i).

Definition iupdate (ip : nat) : M fsst unit :=
  i ← get_inode ip;
  d ← bread (i_dev i) (IBLOCK (i_inum i));
  bwrite (i_dev i) (IBLOCK (i_inum i)) (put_dinode d (i_inum i mod IPB) (dinode_of i));;
  brelse (i_dev i) (IBLOCK (i_inum i)).

Definition NOBLOCK : Z := 2 ^ 32 - 1.

Definition bmap (ip : nat) (bn : Z) (alloc : bool) : M fsst Z :=
  i ← get_inode ip;
  if decide (bn < NDIRECT) then
    let addr := i_addrs i !!! Z.to_nat bn in
    if decide (addr = 0) then
      if alloc then
        addr ← balloc (i_dev i);
        at_inode ip (λ i, set_addrs (<[Z.to_nat bn := addr]> (i_addrs i)) i);;
        mret addr
      else mret NOBLOCK
    else mret addr
  else
    let bn := bn - NDIRECT in
    if decide (bn < NINDIRECT) then
      let addr := i_addrs i !!! INDIRECT in
      if decide (addr = 0 ∧ alloc = false) then mret NOBLOCK
      else
        addr ← (if decide (addr = 0) then
                  addr ← balloc (i_dev i);
                  at_inode ip (λ i, set_addrs (<[INDIRECT := addr]> (i_addrs i)) i);;
                  mret addr
                else mret addr);
        d ← bread (i_dev i) addr;
        let a := get32 d (4 * bn) in
        if decide (a = 0) then
          if alloc then
            a ← balloc (i_dev i);
            bwrite (i_dev i) addr (put32 d (4 * bn) a);;
            brelse (i_dev i) addr;;
            mret a
          else brelse (i_dev i) addr;; mret NOBLOCK
        else brelse (i_dev i) addr;; mret a
    else panic "bmap: out of range".

(** The two loops of [itrunc]. *)
Fixpoint trunc_direct (ip : nat) (l : list nat) : M fsst unit :=
  match l with
  | [] => mret ()
  | k :: l =>
      i ← get_inode ip;
      (if decide (i_addrs i !!! k ≠ 0) then
         bfree (i_dev i) (i_addrs i !!! k);;
         at_inode ip (λ i, set_addrs (<[k := 0]> (i_addrs i)) i)
       else mret ());;
      trunc_direct ip l
  end.
Fixpoint free_each (dev : Z) (l : list Z) : M fsst unit :=
  match l with
  | [] => mret ()
  | a :: l => (if decide (a ≠ 0) then bfree dev a else mret ());; free_each dev l
  end.
(** The words of a block of addresses. *)
Definition words (d : block) : list Z := (λ j, get32 d (4 * Z.of_nat j)) <$> seq 0 (Z.to_nat NINDIRECT).

Definition itrunc (ip : nat) : M fsst unit :=
  trunc_direct ip (seq 0 (Z.to_nat NDIRECT));;
  i ← get_inode ip;
  (if decide (i_addrs i !!! INDIRECT ≠ 0) then
     d ← bread (i_dev i) (i_addrs i !!! INDIRECT);
     free_each (i_dev i) (words d);;
     brelse (i_dev i) (i_addrs i !!! INDIRECT);;
     at_inode ip (λ i, set_addrs (<[INDIRECT := 0]> (i_addrs i)) i)
   else mret ());;
  at_inode ip (set_size 0);;
  iupdate ip.

Definition iput (ip : nat) : M fsst unit :=
  acquire LkIcache;;
  i ← get_inode ip;
  (if decide (i_ref i = 1 ∧ i_valid i = true ∧ i_nlink i = 0) then
     if i_busy i then panic "iput busy"
     else
       at_inode ip (set_busy true);;
       release LkIcache;;
       itrunc ip;;
       at_inode ip (set_type 0);;
       iupdate ip;;
       acquire LkIcache;;
       at_inode ip (set_busy false);;
       wakeup (ChInode ip)
   else mret ());;
  at_inode ip (λ i, set_ref (i_ref i - 1) i);;
  release LkIcache.

Definition iunlockput (ip : nat) : M fsst unit := iunlock ip;; iput ip.

Definition fresh_dinode (type : Z) : dinode := Dinode type 0 0 0 0 (replicate NADDRS 0).

Fixpoint ialloc_loop (n : nat) (dev type inum : Z) (sb : superblock) : M fsst nat :=
  match n with
  | O => diverge
  | S n =>
      if decide (inum < sb_ninodes sb) then
        d ← bread dev (IBLOCK inum);
        if decide (d_type (dinode_at d (inum mod IPB)) = 0) then
          bwrite dev (IBLOCK inum) (put_dinode d (inum mod IPB) (fresh_dinode type));;
          brelse dev (IBLOCK inum);;
          iget dev inum
        else brelse dev (IBLOCK inum);; ialloc_loop n dev type (inum + 1) sb
      else panic "ialloc: no inodes"
  end.
Definition ialloc (dev type : Z) : M fsst nat :=
  sb ← readsb dev; ialloc_loop (S (Z.to_nat (sb_ninodes sb))) dev type 1 sb.

Record stat := Stat { st_dev : Z; st_ino : Z; st_type : Z; st_nlink : Z; st_size : Z }.
Definition stati (ip : nat) : M fsst stat :=
  i ← get_inode ip; mret (Stat (i_dev i) (i_inum i) (i_type i) (i_nlink i) (i_size i)).

(** ** Reading and writing files *)
Section contents.
(** [devsw]: the functions registered for a device number, if any.  A read gives
    the bytes or -1 ([None]), a write its result. *)
Context (dev_read : Z → option (nat → Z → M fsst (option (list Z)))).
Context (dev_write : Z → option (nat → list Z → M fsst Z)).

Fixpoint readi_loop (k : nat) (ip : nat) (off n : Z) (dst : list Z) : M fsst (list Z) :=
  match k with
  | O => diverge
  | S k =>
      if decide (0 < n) then
        i ← get_inode ip;
        b ← bmap ip (off / BSIZE) false;
        d ← bread (i_dev i) b;
        let m := Z.min n (BSIZE - off mod BSIZE) in
        brelse (i_dev i) b;;
        readi_loop k ip (u32 (off + m)) (n - m) (dst ++ slice d (off mod BSIZE) m)
      else mret dst
  end.

(** [None] is -1; [Some l] is the result [length l] with [l] in the buffer. *)
Definition readi (ip : nat) (off n : Z) : M fsst (option (list Z)) :=
  i ← get_inode ip;
  if decide (i_type i = T_DEV) then
    if decide (i_major i < 0 ∨ i_major i >= NDEV) then mret None
    else match dev_read (i_major i) with None => mret None | Some f => f ip n end
  else if decide (off > i_size i ∨ u32 (off + n) < off) then mret None
  else
    let n := if decide (u32 (off + n) > i_size i) then i_size i - off else n in
    l ← readi_loop (S (Z.to_nat n)) ip off n []; mret (Some l).

(** [src] is what is still to be written; the result is the final offset. *)
Fixpoint writei_loop (k : nat) (ip : nat) (src : list Z) (off n : Z) : M fsst Z :=
  match k with
  | O => diverge
  | S k =>
      if decide (0 < n) then
        i ← get_inode ip;
        b ← bmap ip (off / BSIZE) true;
        d ← bread (i_dev i) b;
        let m := Z.min n (BSIZE - off mod BSIZE) in
        bwrite (i_dev i) b (splice d (off mod BSIZE) (take (Z.to_nat m) src));;
        brelse (i_dev i) b;;
        writei_loop k ip (drop (Z.to_nat m) src) (u32 (off + m)) (n - m)
      else mret off
  end.

Definition writei (ip : nat) (src : list Z) (off n : Z) : M fsst Z :=
  i ← get_inode ip;
  if decide (i_type i = T_DEV) then
    if decide (i_major i < 0 ∨ i_major i >= NDEV) then mret (-1)
    else match dev_write (i_major i) with None => mret (-1) | Some f => f ip (take (Z.to_nat n) src) end
  else if decide (u32 (off + n) < off) then mret (-1)
  else
    let n := if decide (u32 (off + n) > MAXFILE * BSIZE) then u32 (MAXFILE * BSIZE - off) else n in
    off ← writei_loop (S (Z.to_nat n)) ip src off n;
    i ← get_inode ip;
    (if decide (n > 0 ∧ off > i_size i) then at_inode ip (set_size off);; iupdate ip else mret ());;
    mret n.

(** ** Directories *)

(** [strncmp] on arrays; a NUL ends the comparison. *)
Fixpoint ncmp (n : nat) (s t : list Z) : Z :=
  match n with
  | O => 0
  | S n =>
      let x := default 0 (head s) in
      let y := default 0 (head t) in
      if decide (x ≠ 0 ∧ x = y) then ncmp n (tail s) (tail t) else x - y
  end.
Definition namecmp (s t : list Z) : Z := ncmp (Z.to_nat DIRSIZ) s t.

(** The entry at offset [o] of a block. *)
Definition de_inum (d : block) (o : Z) : Z := get16 d o.
Definition de_name (d : block) (o : Z) : list Z := slice d (o + 2) DIRSIZ.

(** The inner loop of [dirlookup]: offset and number of the first entry of [name]. *)
Fixpoint dir_scan (d : block) (name : list Z) (n : nat) (o : Z) : option (Z * Z) :=
  match n with
  | O => None
  | S n =>
      if decide (de_inum d o ≠ 0 ∧ namecmp name (de_name d o) = 0) then Some (o, de_inum d o)
      else dir_scan d name n (o + 16)
  end.

(** The inode and the offset of its entry. *)
Fixpoint dirlookup_loop (k : nat) (dp : nat) (name : list Z) (off : Z) : M fsst (option (nat * Z)) :=
  match k with
  | O => diverge
  | S k =>
      i ← get_inode dp;
      if decide (off < i_size i) then
        b ← bmap dp (off / BSIZE) false;
        d ← bread (i_dev i) b;
        match dir_scan d name 32 0 with
        | Some (o, inum) =>
            brelse (i_dev i) b;;
            ip ← iget (i_dev i) inum;
            mret (Some (ip, off + o))
        | None => brelse (i_dev i) b;; dirlookup_loop k dp name (u32 (off + BSIZE))
        end
      else mret None
  end.
Definition dirlookup (dp : nat) (name : list Z) : M fsst (option (nat * Z)) :=
  i ← get_inode dp;
  if decide (i_type i ≠ T_DIR) then panic "dirlookup not DIR"
  else dirlookup_loop (S (Z.to_nat (i_size i / BSIZE + 1))) dp name 0.

(** The search for an empty entry; the offset where it stops and the bytes read last. *)
Fixpoint find_empty (k : nat) (dp : nat) (off : Z) (de : list Z) : M fsst (Z * list Z) :=
  match k with
  | O => diverge
  | S k =>
      i ← get_inode dp;
      if decide (off < i_size i) then
        r ← readi dp off 16;
        match r with
        | Some de =>
            if decide (length de ≠ 16%nat) then panic "dirlink read"
            else if decide (get16 de 0 = 0) then mret (off, de)
            else find_empty k dp (off + 16) de
        | None => panic "dirlink read"
        end
      else mret (off, de)
  end.

(** [strncpy(de.name, name, DIRSIZ)] *)
Fixpoint name_field (n : nat) (name : list Z) : list Z :=
  match n with
  | O => []
  | S n =>
      match name with
      | [] => replicate (S n) 0
      | c :: name => if decide (c = 0) then replicate (S n) 0 else c :: name_field n name
      end
  end.

Definition dirlink (dp : nat) (name : list Z) (ino : Z) : M fsst Z :=
  r ← dirlookup dp name;
  match r with
  | Some (ip, _) => iput ip;; mret (-1)
  | None =>
      i ← get_inode dp;
      od ← find_empty (S (Z.to_nat (i_size i / 16 + 1))) dp 0 (replicate 16 0);
      let de := put16 (splice od.2 2 (name_field (Z.to_nat DIRSIZ) name)) 0 ino in
      w ← writei dp de od.1 16;
      if decide (w ≠ 16) then panic "dirlink" else mret 0
  end.

(** ** Paths *)
Fixpoint skip_slashes (path : list Z) : list Z :=
  match path with c :: p => if decide (c = 47) then skip_slashes p else path | [] => [] end.
Fixpoint split_elem (path : list Z) : list Z * list Z :=
  match path with
  | [] => ([], [])
  | c :: p => if decide (c = 47) then ([], path) else let '(e, r) := split_elem p in (c :: e, r)
  end.

(** [None] is the null result; otherwise the rest of the path and [name]. *)
Definition skipelem (path : list Z) (name : list Z) : option (list Z * list Z) :=
  let path := skip_slashes path in
  match path with
  | [] => None
  | _ =>
      let '(s, rest) := split_elem path in
      let len := Z.of_nat (length s) in
      let name := if decide (len >= DIRSIZ) then splice name 0 (take (Z.to_nat DIRSIZ) s)
                  else splice name 0 (s ++ [0]) in
      Some (skip_slashes rest, name)
  end.

Fixpoint namei_loop (k : nat) (ip : nat) (parent : bool) (path name : list Z) : M fsst (option (nat * list Z)) :=
  match k with
  | O => diverge
  | S k =>
      match skipelem path name with
      | Some (path, name) =>
          ilock ip;;
          i ← get_inode ip;
          if decide (i_type i ≠ T_DIR) then iunlockput ip;; mret None
          else if decide (parent = true ∧ path = []) then iunlock ip;; mret (Some (ip, name))
          else
            next ← dirlookup ip name;
            match next with
            | None => iunlockput ip;; mret None
            | Some (next, _) => iunlockput ip;; namei_loop k next parent path name
            end
      | None => if parent then iput ip;; mret None else mret (Some (ip, name))
      end
  end.

Definition namei_ (path : list Z) (parent : bool) (name : list Z) : M fsst (option (nat * list Z)) :=
  ip ← (if decide (head path = Some 47) then iget ROOTDEV 1
        else s ← kget; d ← deref (cwd s); idup d);
  namei_loop (S (length path)) ip parent path name.
Definition namei (path : list Z) : M fsst (option nat) :=
  r ← namei_ path false (replicate 14 0); mret (fst <$> r).
Definition nameiparent (path : list Z) (name : list Z) : M fsst (option (nat * list Z)) :=
  namei_ path true name.
End contents.
End fs.
