(* ===== verification/FsAlloc.v ===== *)
(** * Block allocation (fs.c: readsb, bzero, balloc, bfree)

    What the buffer primitives and the block allocator do when the buffers they
    need are not locked by another process.  [fs_ok dev s sb] is the on-disk
    invariant of the allocator: the bitmap is there, and every block whose bit is
    clear lies behind the bitmap and holds zeros. *)
From S2P Require Import Prelude Kernel ProcData FsDisk Fs.
Local Open Scope Z_scope.

(** [runs m h s a s']: with the locks [h] held, [m] returns [a] in state [s'],
    holding the same locks; what it wakes is not recorded. *)
Definition runs {A} (m : M fsst A) (h : list lock_id) (s : fsst) (a : A) (s' : fsst) : Prop :=
  ∀ w, ∃ w', m (KCtx h w) s = Ok a (KCtx h w') s'.
Definition panics {A} (m : M fsst A) (h : list lock_id) (s : fsst) (msg : string) : Prop :=
  ∀ w, ∃ s', m (KCtx h w) s = Panic msg s'.

Lemma runs_ret {A} h s (a : A) : runs (mret a) h s a s.
Proof. intros w. by exists w. Qed.

Lemma runs_bind {A B} (m : M fsst A) (f : A → M fsst B) h s a s1 b s2 :
  runs m h s a s1 → runs (f a) h s1 b s2 → runs (m ≫= f) h s b s2.
Proof.
  intros H1 H2 w. destruct (H1 w) as [w1 E1]. destruct (H2 w1) as [w2 E2].
  exists w2. by rewrite (bind_Ok _ _ _ _ _ _ _ E1).
Qed.

Lemma panics_bind {A B} (m : M fsst A) (f : A → M fsst B) h s msg :
  panics m h s msg → panics (m ≫= f) h s msg.
Proof. intros H w. destruct (H w) as [s' E]. exists s'. by apply bind_Panic. Qed.

Lemma runs_panics {A B} (m : M fsst A) (f : A → M fsst B) h s a s1 msg :
  runs m h s a s1 → panics (f a) h s1 msg → panics (m ≫= f) h s msg.
Proof.
  intros H1 H2 w. destruct (H1 w) as [w1 E1]. destruct (H2 w1) as [s' E2].
  exists s'. by rewrite (bind_Ok _ _ _ _ _ _ _ E1).
Qed.

Lemma runs_kget {B} (f : fsst → M fsst B) h s b s' : runs (f s) h s b s' → runs (kget ≫= f) h s b s'.
Proof. intros H w. rewrite kget_bind. apply H. Qed.

Lemma runs_deref {A B} (a : A) (f : A → M fsst B) h s b s' : runs (f a) h s b s' → runs (deref (Some a) ≫= f) h s b s'.
Proof. intros H w. rewrite deref_bind. apply H. Qed.

Lemma runs_eq {A} (m : M fsst A) h s a s1 s2 : runs m h s a s1 → s1 = s2 → runs m h s a s2.
Proof. by intros H <-. Qed.

Lemma runs_get_inode ip i h s : icache s !! ip = Some i → runs (get_inode ip) h s i s.
Proof. intros E w. exists w. unfold get_inode. rewrite kget_bind, E. done. Qed.

Lemma runs_at_inode ip f i h s : icache s !! ip = Some i →
  runs (at_inode ip f) h s () (set_icache (<[ip := f i]> (icache s)) s).
Proof. intros E w. exists w. unfold at_inode, get_inode. by rewrite (bind_Ok _ _ _ _ i (KCtx h w) s) by (rewrite kget_bind, E; done). Qed.

(** ** Buffers that are free *)
Section buffers.
Context (fuel : nat) (Hf : (0 < fuel)%nat) (h : list lock_id) (Hh : LkBufTable ∉ h).

Lemma bread_runs dev b d s bs :
  bbusy s = bs → (dev, b) ∉ bs → (length bs < NBUF)%nat → disk s !! (dev, b) = Some d →
  runs (bread fuel dev b) h s d (set_bbusy ((dev, b) :: bs) s).
Proof.
  intros <- Hn Hl Hd w. exists w. unfold bread. destruct fuel as [|f]; [lia|].
  rewrite (bind_Ok _ _ _ _ _ _ _ (acquire_ok LkBufTable (KCtx h w) s Hh)). cbn [bget held woken].
  rewrite (bind_Ok _ _ _ _ () (KCtx (LkBufTable :: h) w) (set_bbusy ((dev, b) :: bbusy s) s)).
  - rewrite (bind_Ok _ _ _ _ _ _ _ (release_ok LkBufTable h w _ Hh)), kget_bind. cbn [disk set_bbusy]. by rewrite Hd.
  - rewrite kget_bind, decide_False, decide_False by (done || lia). done.
Qed.

Lemma bwrite_runs dev b d s : (dev, b) ∈ bbusy s →
  runs (bwrite dev b d) h s () (set_disk (<[(dev, b) := d]> (disk s)) s).
Proof. intros Hb w. exists w. unfold bwrite. by rewrite kget_bind, decide_False by auto. Qed.

Lemma brelse_runs dev b s bs : bbusy s = (dev, b) :: bs → (dev, b) ∉ bs →
  runs (brelse dev b) h s () (set_bbusy bs s).
Proof.
  intros Hb Hn w. exists (w ++ [ChBuf 0]). unfold brelse. rewrite kget_bind, decide_False by (rewrite Hb; inl).
  rewrite (bind_Ok _ _ _ _ _ _ _ (acquire_ok LkBufTable (KCtx h w) s Hh)). cbn [held woken].
  rewrite Hb, filter_cons_False by auto.
  assert (E : filter (λ k, k ≠ (dev, b)) bs = bs).
  { clear Hb. induction bs as [|k bs IH]; [done|]. rewrite filter_cons_True by inl. f_equal. apply IH. inl. }
  rewrite E. unfold kput, wakeup, mbind, M_bind. cbn [obind held woken]. by rewrite release_ok.
Qed.

Lemma set_bbusy_same s bs x : bbusy s = bs → set_bbusy bs (set_bbusy x s) = s.
Proof. intros <-. by destruct s. Qed.

(** Read a block and let it go. *)
Lemma read_runs {A} dev b d s bs (f : block → A) :
  bbusy s = bs → (dev, b) ∉ bs → (length bs < NBUF)%nat → disk s !! (dev, b) = Some d →
  runs (d ← bread fuel dev b; brelse dev b;; mret (f d)) h s (f d) s.
Proof.
  intros Hb Hn Hl Hd. eapply runs_bind; [by apply bread_runs|].
  eapply runs_bind; [by apply (brelse_runs _ _ _ bs)|].
  rewrite set_bbusy_same by done. apply runs_ret.
Qed.

(** Read a block, write it back changed, and let it go. *)
Lemma modify_runs dev b d d' s bs :
  bbusy s = bs → (dev, b) ∉ bs → (length bs < NBUF)%nat → disk s !! (dev, b) = Some d →
  ∀ {B} (k : M fsst B) r s',
  runs k h (set_disk (<[(dev, b) := d']> (disk s)) s) r s' →
  runs (bwrite dev b d';; brelse dev b;; k) h (set_bbusy ((dev, b) :: bs) s) r s'.
Proof.
  intros Hb Hn Hl Hd B k r s' Hk. eapply runs_bind; [apply bwrite_runs; simpl; inl|].
  eapply runs_bind; [by apply (brelse_runs _ _ _ bs)|].
  destruct s; simpl in *; subst; done.
Qed.
End buffers.

(** ** The allocator's invariant *)
Definition bitmap_of (dev b : Z) (sb : superblock) (s : fsst) : option block :=
  disk s !! (dev, BBLOCK b (sb_ninodes sb)).
Definition used (dev : Z) (sb : superblock) (s : fsst) (b : Z) : bool :=
  match bitmap_of dev b sb s with Some d => bit d (b mod BPB) | None => true end.
(** [balloc] looks at the bits of [b]. *)
Definition scanned (sb : superblock) (b : Z) : Prop := 0 ≤ b ∧ b / BPB * BPB < sb_size sb.
(** Behind the super block, the inodes and the bitmap. *)
Definition data_block (sb : superblock) (b : Z) : Prop := sb_ninodes sb / IPB + 3 + sb_size sb / BPB < b.

Record fs_ok (dev : Z) (s : fsst) (sb : superblock) : Prop := {
  fo_sb : ∃ d, disk s !! (dev, 1) = Some d ∧ superblock_at d = sb;
  fo_blocks : ∀ b d, disk s !! (dev, b) = Some d → block_ok d;
  fo_bitmap : ∀ b, scanned sb b → is_Some (bitmap_of dev b sb s);
  fo_free : ∀ b, scanned sb b → used dev sb s b = false → data_block sb b ∧ disk s !! (dev, b) = Some zero_block;
  fo_range : 0 ≤ sb_size sb < 2 ^ 31 ∧ 0 ≤ sb_ninodes sb
}.

Lemma find_free_spec d n : ∀ bi, 0 ≤ bi →
  match find_free d n bi with
  | Some x => bi ≤ x < bi + Z.of_nat n ∧ bit d x = false
  | None => ∀ x, bi ≤ x < bi + Z.of_nat n → bit d x = true
  end.
Proof.
  induction n as [|n IH]; intros bi Hbi; cbn [find_free]; [intros x Hx; lia|].
  assert (Hm : 0 ≤ bi mod 8) by (apply Z.mod_pos_bound; lia).
  destruct (decide (Z.land (get8 d (bi / 8)) (Z.shiftl 1 (bi mod 8)) = 0)) as [D|D]; rewrite land_bit in D by done.
  - split; [lia|done].
  - specialize (IH (bi + 1) ltac:(lia)). destruct (find_free d n (bi + 1)) as [x|].
    + destruct IH. split; [lia|done].
    + intros x Hx. destruct (decide (x = bi)) as [->|]; [by apply not_false_is_true|apply IH; lia].
Qed.

(** The blocks of the allocator are not locked. *)
Definition meta_free (dev : Z) (sb : superblock) (bs : list (Z * Z)) : Prop :=
  (dev, 1) ∉ bs ∧ ∀ b, scanned sb b → (dev, BBLOCK b (sb_ninodes sb)) ∉ bs.

Lemma BPB_pos : 0 < BPB. Proof. done. Qed.

Lemma data_block_ne sb b : 0 ≤ sb_size sb → 0 ≤ sb_ninodes sb → data_block sb b →
  b ≠ 1 ∧ (∀ b', scanned sb b' → b ≠ BBLOCK b' (sb_ninodes sb)).
Proof.
  intros Hs Hn H. unfold data_block in H.
  assert (0 ≤ sb_ninodes sb / IPB) by (by apply Z.div_pos). assert (0 ≤ sb_size sb / BPB) by (by apply Z.div_pos).
  split; [lia|]. intros b' [Hb1 Hb2] ->. unfold BBLOCK in H.
  assert (b' / BPB ≤ sb_size sb / BPB); [|lia]. apply Z.div_le_lower_bound; [done|lia].
Qed.

(** The state after the bit of [b] changed. *)
Definition with_bit (dev : Z) (sb : superblock) (b : Z) (f : block → Z → block) (s : fsst) : fsst :=
  match bitmap_of dev b sb s with
  | Some d => set_disk (<[(dev, BBLOCK b (sb_ninodes sb)) := f d (b mod BPB)]> (disk s)) s
  | None => s
  end.

Section alloc.
Context (fuel : nat) (Hf : (0 < fuel)%nat) (h : list lock_id) (Hh : LkBufTable ∉ h).
Context (dev : Z) (sb : superblock) (bs : list (Z * Z)) (Hm : meta_free dev sb bs) (Hl : (length bs < NBUF)%nat).

Lemma readsb_runs s : fs_ok dev s sb → bbusy s = bs → runs (readsb fuel dev) h s sb s.
Proof.
  intros F Hb. destruct (fo_sb _ _ _ F) as (d & Hd & <-).
  apply (read_runs fuel Hf h Hh dev 1 d s bs superblock_at); [done|apply Hm|done|done].
Qed.

Lemma scanned_lt x : scanned sb x ↔ 0 ≤ x ∧ x / BPB * BPB < sb_size sb.
Proof. done. Qed.

Lemma block_bit k bi : 0 ≤ bi < BPB → (k * BPB + bi) / BPB = k ∧ (k * BPB + bi) mod BPB = bi.
Proof.
  intros H. split; [rewrite Z.div_add_l by done; rewrite Z.div_small by done; lia|].
  rewrite Z.add_comm, Z.mod_add by done. by apply Z.mod_small.
Qed.

(** From block [k * BPB] on, everything below being in use. *)
Lemma balloc_loop_spec s n : ∀ k, fs_ok dev s sb → bbusy s = bs → 0 ≤ k ≤ sb_size sb / BPB + 1 →
  sb_size sb / BPB + 2 ≤ Z.of_nat n + k →
  (∀ x, scanned sb x → x < k * BPB → used dev sb s x = true) →
  (∃ x, scanned sb x ∧ used dev sb s x = false ∧
     runs (balloc_loop fuel n dev (k * BPB) sb) h s x (with_bit dev sb x set_bit s)) ∨
  panics (balloc_loop fuel n dev (k * BPB) sb) h s "balloc: out of blocks" ∧
    ∀ x, scanned sb x → used dev sb s x = true.
Proof.
  induction n as [|n IH]; intros k F Hb Hk Hn Hu; cbn [balloc_loop]; [lia|]. pose proof BPB_pos as HB.
  destruct (decide (k * BPB < sb_size sb)) as [D|D].
  2: { right. split; [intros w; by eexists|]. intros x [Hx1 Hx2]. apply Hu; [done|].
       pose proof (Z.div_mod x BPB ltac:(lia)). pose proof (Z.mod_pos_bound x BPB ltac:(lia)).
       assert (x / BPB < k) by (apply (Z.mul_lt_mono_pos_r BPB); lia). unfold BPB, BSIZE in *. lia. }
  assert (Hsc : scanned sb (k * BPB)) by (split; [lia|]; rewrite Z.div_mul by lia; done).
  destruct (fo_bitmap _ _ _ F _ Hsc) as [d Hd]. pose proof Hd as Hd'. unfold bitmap_of in Hd'.
  assert (Hbb : ∀ bi, 0 ≤ bi < BPB → BBLOCK (k * BPB + bi) (sb_ninodes sb) = BBLOCK (k * BPB) (sb_ninodes sb)).
  { intros bi Hbi. unfold BBLOCK. by rewrite (proj1 (block_bit k bi Hbi)), Z.div_mul by lia. }
  pose proof (proj2 Hm _ Hsc) as Hnb. pose proof (find_free_spec d (Z.to_nat BPB) 0 ltac:(lia)) as Fs.
  pose proof (bread_runs fuel Hf h Hh dev _ d s bs Hb Hnb Hl Hd') as Rd.
  destruct (find_free d (Z.to_nat BPB) 0) as [bi|] eqn:Ef.
  - destruct Fs as [Hbi Hbit]. rewrite Z2Nat.id, Z.add_0_l in Hbi by lia. destruct (block_bit k bi Hbi) as [E1 E2].
    left. exists (k * BPB + bi). split; [split; [lia|]; by rewrite E1|].
    split; [unfold used, bitmap_of; by rewrite Hbb, Hd', E2 by done|].
    eapply runs_bind; [exact Rd|]. rewrite Ef. eapply modify_runs; try done.
    unfold with_bit, bitmap_of. rewrite Hbb, Hd', E2 by done. apply runs_ret.
  - assert (Hu' : ∀ x, scanned sb x → x < (k + 1) * BPB → used dev sb s x = true).
    { intros x Hx Hlt. destruct (decide (x < k * BPB)); [by apply Hu|].
      assert (Hr : 0 ≤ x - k * BPB < BPB) by lia. destruct (block_bit k _ Hr) as [E1 E2].
      replace (k * BPB + (x - k * BPB)) with x in E1, E2 by lia.
      unfold used, bitmap_of. replace x with (k * BPB + (x - k * BPB)) at 1 by lia. rewrite Hbb, Hd' by done.
      rewrite E2. apply Fs. rewrite Z2Nat.id; lia. }
    assert (k ≤ sb_size sb / BPB) by (apply Z.div_le_lower_bound; lia).
    assert (Rr : runs (brelse dev (BBLOCK (k * BPB) (sb_ninodes sb))) h
      (set_bbusy ((dev, BBLOCK (k * BPB) (sb_ninodes sb)) :: bs) s) () s).
    { eapply runs_eq; [by apply (brelse_runs _ Hh _ _ _ bs)|]. by apply set_bbusy_same. }
    replace (k * BPB + BPB) with ((k + 1) * BPB) by lia.
    destruct (IH (k + 1)) as [(x & X1 & X2 & X3)|[X1 X2]]; try done; try lia; [left; exists x|right].
    + split_and!; [done..|]. eapply runs_bind; [exact Rd|]. rewrite Ef. by eapply runs_bind.
    + split; [|done]. eapply runs_panics; [exact Rd|]. rewrite Ef. by eapply runs_panics.
Qed.

Lemma balloc_spec s : fs_ok dev s sb → bbusy s = bs →
  (∃ x, scanned sb x ∧ used dev sb s x = false ∧ runs (balloc fuel dev) h s x (with_bit dev sb x set_bit s)) ∨
  panics (balloc fuel dev) h s "balloc: out of blocks" ∧ ∀ x, scanned sb x → used dev sb s x = true.
Proof.
  intros F Hb. pose proof (readsb_runs s F Hb) as R. pose proof (fo_range _ _ _ F) as [Hs _].
  assert (0 ≤ sb_size sb / BPB) by (apply Z.div_pos; [lia|done]).
  destruct (balloc_loop_spec s (Z.to_nat (sb_size sb / BPB + 2)) 0 F Hb) as [(x & X1 & X2 & X3)|[X1 X2]]; try lia.
  - intros x [Hx _] Hlt. unfold BPB, BSIZE in Hlt. lia.
  - left. exists x. split_and!; [done..|]. by eapply runs_bind.
  - right. split; [|done]. by eapply runs_panics.
Qed.
End alloc.

(** ** The bitmap after a change *)
Section with_bit.
Context (dev : Z) (sb : superblock) (x : Z) (s : fsst) (F : fs_ok dev s sb) (Hx : scanned sb x).

Lemma with_bit_disk f : ∃ d, bitmap_of dev x sb s = Some d ∧ block_ok d ∧
  with_bit dev sb x f s = set_disk (<[(dev, BBLOCK x (sb_ninodes sb)) := f d (x mod BPB)]> (disk s)) s.
Proof.
  unfold with_bit. destruct (fo_bitmap _ _ _ F x Hx) as [d Hd]. exists d. rewrite Hd. split_and!; [done| |done].
  by eapply (fo_blocks _ _ _ F).
Qed.

Lemma with_bit_other f k : k ≠ (dev, BBLOCK x (sb_ninodes sb)) → disk (with_bit dev sb x f s) !! k = disk s !! k.
Proof. intros Hk. destruct (with_bit_disk f) as (d & _ & _ & ->). simpl. by apply lookup_insert_ne. Qed.

Lemma with_bit_icache f : icache (with_bit dev sb x f s) = icache s.
Proof. destruct (with_bit_disk f) as (d & _ & _ & ->). done. Qed.
Lemma with_bit_bbusy f : bbusy (with_bit dev sb x f s) = bbusy s.
Proof. destruct (with_bit_disk f) as (d & _ & _ & ->). done. Qed.

Lemma with_bit_bitmap f y : bitmap_of dev y sb (with_bit dev sb x f s) =
  if decide (y / BPB = x / BPB) then (λ d, f d (x mod BPB)) <$> bitmap_of dev y sb s else bitmap_of dev y sb s.
Proof.
  destruct (with_bit_disk f) as (d & Hd & _ & ->). unfold bitmap_of in *. simpl. case_decide as D.
  - assert (E : BBLOCK y (sb_ninodes sb) = BBLOCK x (sb_ninodes sb)) by (unfold BBLOCK; by rewrite D).
    rewrite E, lookup_insert_eq, Hd. done.
  - apply lookup_insert_ne. intros [= E]. unfold BBLOCK in E. lia.
Qed.

Lemma used_with_bit f (g : bool → bool) y : scanned sb y →
  (∀ d, block_ok d → bit (f d (x mod BPB)) (x mod BPB) = g (bit d (x mod BPB))) →
  (∀ d z, block_ok d → 0 ≤ z → z ≠ x mod BPB → bit (f d (x mod BPB)) z = bit d z) →
  used dev sb (with_bit dev sb x f s) y = if decide (y = x) then g (used dev sb s y) else used dev sb s y.
Proof.
  intros Hy H1 H2. unfold used. rewrite with_bit_bitmap. destruct (fo_bitmap _ _ _ F y Hy) as [d Hd]. rewrite Hd.
  pose proof BPB_pos. pose proof (Z.div_mod x BPB ltac:(lia)). pose proof (Z.div_mod y BPB ltac:(lia)).
  assert (block_ok d) by (by eapply (fo_blocks _ _ _ F)).
  destruct (decide (y = x)) as [->|Hne]; [rewrite decide_True by done; by apply H1|].
  destruct (decide (y / BPB = x / BPB)) as [D|D]; [|done].
  apply H2; [done|apply Z.mod_pos_bound; lia|]. intros E. apply Hne. rewrite D in *. lia.
Qed.

Lemma x_bit : 0 ≤ x mod BPB < BPB.
Proof. by apply Z.mod_pos_bound. Qed.

Lemma used_set y : scanned sb y → used dev sb (with_bit dev sb x set_bit s) y = bool_decide (y = x) || used dev sb s y.
Proof.
  intros Hy. rewrite (used_with_bit set_bit (λ _, true)); [|done|..].
  - case_decide; [by rewrite bool_decide_eq_true_2|by rewrite bool_decide_eq_false_2].
  - intros d Hd. rewrite bit_set by (done || apply x_bit). by rewrite bool_decide_eq_true_2.
  - intros d z Hd Hz Hne. rewrite bit_set by (done || apply x_bit). by rewrite bool_decide_eq_false_2.
Qed.

Lemma used_clear y : scanned sb y →
  used dev sb (with_bit dev sb x clear_bit s) y = negb (bool_decide (y = x)) && used dev sb s y.
Proof.
  intros Hy. rewrite (used_with_bit clear_bit (λ _, false)); [|done|..].
  - case_decide; [by rewrite bool_decide_eq_true_2|by rewrite bool_decide_eq_false_2].
  - intros d Hd. rewrite bit_clear by (done || apply x_bit). by rewrite bool_decide_eq_true_2.
  - intros d z Hd Hz Hne. rewrite bit_clear by (done || apply x_bit). by rewrite bool_decide_eq_false_2.
Qed.

(** The bitmap blocks are before the data. *)
Lemma bitmap_ne_1 : BBLOCK x (sb_ninodes sb) ≠ 1.
Proof.
  unfold BBLOCK. pose proof (fo_range _ _ _ F) as [_ H]. destruct Hx as [H0 _].
  assert (0 ≤ x / BPB) by (by apply Z.div_pos). assert (0 ≤ sb_ninodes sb / IPB) by (by apply Z.div_pos). lia.
Qed.

Lemma fs_ok_with_bit f : (∀ d, block_ok d → block_ok (f d (x mod BPB))) →
  (∀ y, scanned sb y → used dev sb (with_bit dev sb x f s) y = false →
     data_block sb y ∧ disk s !! (dev, y) = Some zero_block) →
  fs_ok dev (with_bit dev sb x f s) sb.
Proof.
  intros H1 H2. destruct F as [G1 G2 G3 G4 G5]. destruct (with_bit_disk f) as (d & Hd & Hok & E). split.
  - destruct G1 as (d1 & ? & ?). exists d1. split; [|done]. rewrite with_bit_other; [done|].
    intros [= X]. symmetry in X. by apply bitmap_ne_1 in X.
  - intros b d' Hb. destruct (decide (b = BBLOCK x (sb_ninodes sb))) as [->|Hne].
    + rewrite E in Hb. simpl in Hb. rewrite lookup_insert_eq in Hb. simplify_eq. by apply H1.
    + rewrite with_bit_other in Hb by congruence. by eapply G2.
  - intros y Hy. rewrite with_bit_bitmap. destruct (G3 y Hy) as [? ->]. case_decide; by eexists.
  - intros y Hy Hu. destruct (H2 y Hy Hu) as [D1 D2]. split; [done|]. rewrite with_bit_other; [done|].
    intros [= X]. destruct (data_block_ne sb y) as [_ Hne]; [lia..|done|]. by apply (Hne x).
  - done.
Qed.

Lemma fs_ok_set : fs_ok dev (with_bit dev sb x set_bit s) sb.
Proof.
  apply fs_ok_with_bit; [intros; by apply set_bit_ok|]. intros y Hy Hu. rewrite used_set in Hu by done.
  apply orb_false_iff in Hu as [_ Hu]. by apply (fo_free _ _ _ F).
Qed.

Lemma fs_ok_clear : data_block sb x → disk s !! (dev, x) = Some zero_block → fs_ok dev (with_bit dev sb x clear_bit s) sb.
Proof.
  intros Hd Hz. apply fs_ok_with_bit; [intros; by apply clear_bit_ok|]. intros y Hy Hu. rewrite used_clear in Hu by done.
  destruct (bool_decide (y = x)) eqn:E; [apply bool_decide_eq_true in E as ->; done|]. by apply (fo_free _ _ _ F).
Qed.
End with_bit.

(** ** Writing a block that is in use *)
Section write_block.
Context (dev : Z) (sb : superblock) (s : fsst) (F : fs_ok dev s sb).
Context (b : Z) (d : block) (Hd : block_ok d) (Hdata : data_block sb b).

Lemma bitmap_write y : scanned sb y →
  bitmap_of dev y sb (set_disk (<[(dev, b) := d]> (disk s)) s) = bitmap_of dev y sb s.
Proof.
  intros Hy. unfold bitmap_of. simpl. apply lookup_insert_ne. intros [= E].
  destruct (fo_range _ _ _ F) as [? ?]. destruct (data_block_ne sb b) as [_ Hne]; [lia|lia|done|]. by apply (Hne y Hy).
Qed.

Lemma used_write y : scanned sb y → used dev sb (set_disk (<[(dev, b) := d]> (disk s)) s) y = used dev sb s y.
Proof. intros Hy. unfold used. by rewrite bitmap_write. Qed.

Lemma fs_ok_write : (scanned sb b → used dev sb s b = true) ∨ d = zero_block →
  fs_ok dev (set_disk (<[(dev, b) := d]> (disk s)) s) sb.
Proof.
  intros Hu. pose proof F as [G1 G2 G3 G4 G5].
  destruct (data_block_ne sb b) as [Hb1 Hbb]; [lia..|done|]. split.
  - destruct G1 as (d1 & ? & ?). exists d1. split; [|done]. simpl. rewrite lookup_insert_ne by congruence. done.
  - intros b' d'. simpl. destruct (decide (b' = b)) as [->|Hne].
    + rewrite lookup_insert_eq. congruence.
    + rewrite lookup_insert_ne by congruence. apply G2.
  - intros y Hy. rewrite bitmap_write by done. by apply G3.
  - intros y Hy Hf. rewrite used_write in Hf by done. destruct (G4 y Hy Hf) as [D1 D2]. split; [done|]. simpl.
    destruct (decide (y = b)) as [->|Hne]; [|by rewrite lookup_insert_ne by congruence].
    rewrite lookup_insert_eq. destruct Hu as [Hu| ->]; [|done]. by rewrite Hu in Hf.
  - done.
Qed.
End write_block.

Section bfree.
Context (fuel : nat) (Hf : (0 < fuel)%nat) (h : list lock_id) (Hh : LkBufTable ∉ h).
Context (dev : Z) (sb : superblock) (bs : list (Z * Z)) (Hm : meta_free dev sb bs) (Hl : (length bs < NBUF)%nat).

(** The state [bfree] leaves. *)
Definition freed (b : Z) (s : fsst) : fsst :=
  with_bit dev sb b clear_bit (set_disk (<[(dev, b) := zero_block]> (disk s)) s).

Lemma bzero_runs b d s : bbusy s = bs → (dev, b) ∉ bs → disk s !! (dev, b) = Some d →
  runs (bzero fuel dev b) h s () (set_disk (<[(dev, b) := zero_block]> (disk s)) s).
Proof.
  intros Hb Hn Hd. unfold bzero. eapply runs_bind; [by apply bread_runs|].
  eapply runs_bind; [apply bwrite_runs; simpl; inl|]. eapply runs_eq; [by apply (brelse_runs _ Hh _ _ _ bs)|].
  destruct s. simpl in *. by subst.
Qed.

Lemma bfree_spec b d s :
  fs_ok dev s sb → bbusy s = bs → (dev, b) ∉ bs → scanned sb b → data_block sb b → disk s !! (dev, b) = Some d →
  if used dev sb s b then runs (bfree fuel dev b) h s () (freed b s)
  else panics (bfree fuel dev b) h s "freeing free block".
Proof.
  intros F Hb Hn Hs Hdb Hd. pose proof (bzero_runs b d s Hb Hn Hd) as Rz.
  set (s1 := set_disk (<[(dev, b) := zero_block]> (disk s)) s) in *.
  assert (F1 : fs_ok dev s1 sb) by (apply fs_ok_write; [done|apply zero_block_ok|done|by right]).
  assert (U1 : used dev sb s1 b = used dev sb s b) by (by apply used_write).
  pose proof (readsb_runs fuel Hf h Hh dev sb bs Hm Hl s1 F1 Hb) as Rs.
  destruct (fo_bitmap _ _ _ F1 b Hs) as [m Hmap].
  assert (Hbit : used dev sb s b = bit m (b mod BPB)) by (rewrite <- U1; unfold used; by rewrite Hmap).
  pose proof (bread_runs fuel Hf h Hh dev _ m s1 bs Hb (proj2 Hm _ Hs) Hl Hmap) as Rm.
  assert (0 ≤ b mod BPB mod 8) by (apply Z.mod_pos_bound; lia).
  rewrite Hbit. unfold bfree. destruct (bit m (b mod BPB)) eqn:E.
  - eapply runs_bind; [exact Rz|]. eapply runs_bind; [exact Rs|]. eapply runs_bind; [exact Rm|].
    rewrite decide_False; [|rewrite land_bit by done; unfold bit in E; congruence].
    eapply runs_bind; [apply bwrite_runs; simpl; inl|].
    eapply runs_eq; [apply (brelse_runs _ Hh _ _ _ bs); [done|by apply Hm]|].
    unfold freed, with_bit. fold s1. rewrite Hmap. unfold s1. clear - Hb. destruct s. simpl in *. by subst.
  - eapply runs_panics; [exact Rz|]. eapply runs_panics; [exact Rs|]. eapply runs_panics; [exact Rm|].
    rewrite decide_True by (by rewrite land_bit). intros w. by eexists.
Qed.
End bfree.

(** C29 [balloc] always returns or reports a full disk: it returns a block whose bit was
    clear, marks exactly that block in use and changes nothing but the bitmap; it
    panics only when the bits of all blocks are set. *)
Theorem balloc_correct fuel h dev sb s :
  (0 < fuel)%nat → LkBufTable ∉ h → fs_ok dev s sb → bbusy s = [] →
  (∃ x s', runs (balloc fuel dev) h s x s' ∧ scanned sb x ∧ used dev sb s x = false ∧
     (∀ y, scanned sb y → used dev sb s' y = bool_decide (y = x) || used dev sb s y) ∧
     (∀ k, k ≠ (dev, BBLOCK x (sb_ninodes sb)) → disk s' !! k = disk s !! k) ∧
     icache s' = icache s ∧ bbusy s' = [] ∧ fs_ok dev s' sb) ∨
  panics (balloc fuel dev) h s "balloc: out of blocks" ∧ ∀ x, scanned sb x → used dev sb s x = true.
Proof.
  intros Hf Hh F Hb.
  destruct (balloc_spec fuel Hf h Hh dev sb []) with (s := s) as [(x & X1 & X2 & X3)|X]; try done.
  - split; [apply not_elem_of_nil|intros; apply not_elem_of_nil].
  - unfold NBUF. simpl. lia.
  - left. exists x, (with_bit dev sb x set_bit s). split_and!; try done.
    + intros y Hy. by apply used_set.
    + intros k Hk. by apply with_bit_other.
    + by apply with_bit_icache.
    + by rewrite with_bit_bbusy.
    + by apply fs_ok_set.
  - by right.
Qed.

(** C30 [bfree] of a block in use returns, leaves the block full of zeros and marks
    exactly it free, so that the allocator's invariant holds again; [bfree] of a
    block that is free already panics. *)
Theorem bfree_correct fuel h dev sb s b :
  (0 < fuel)%nat → LkBufTable ∉ h → fs_ok dev s sb → bbusy s = [] →
  scanned sb b → data_block sb b → is_Some (disk s !! (dev, b)) →
  if used dev sb s b then
    ∃ s', runs (bfree fuel dev b) h s () s' ∧ fs_ok dev s' sb ∧ disk s' !! (dev, b) = Some zero_block ∧
      (∀ y, scanned sb y → used dev sb s' y = negb (bool_decide (y = b)) && used dev sb s y) ∧
      (∀ k, k ≠ (dev, BBLOCK b (sb_ninodes sb)) → k ≠ (dev, b) → disk s' !! k = disk s !! k)
  else panics (bfree fuel dev b) h s "freeing free block".
Proof.
  intros Hf Hh F Hb Hs Hd [d Hbd].
  pose proof (bfree_spec fuel Hf h Hh dev sb []) as B. specialize (B ltac:(split; [apply not_elem_of_nil|intros; apply not_elem_of_nil])).
  specialize (B ltac:(unfold NBUF; simpl; lia) b d s F Hb (not_elem_of_nil _) Hs Hd Hbd).
  destruct (used dev sb s b) eqn:U; [|done]. exists (freed dev sb b s). split; [done|]. unfold freed.
  set (s1 := set_disk (<[(dev, b) := zero_block]> (disk s)) s).
  assert (F1 : fs_ok dev s1 sb) by (apply fs_ok_write; [done|apply zero_block_ok|done|by right]).
  assert (Z1 : disk s1 !! (dev, b) = Some zero_block) by (simpl; apply lookup_insert_eq).
  destruct (fo_range _ _ _ F) as [? ?]. destruct (data_block_ne sb b) as [_ Hne]; [lia|lia|done|].
  split_and!.
  - by apply fs_ok_clear.
  - rewrite with_bit_other; [done..|]. intros [= E]. by apply (Hne b).
  - intros y Hy. rewrite used_clear by done. unfold s1. by rewrite used_write.
  - intros k H1 H2. rewrite with_bit_other by done. simpl. by apply lookup_insert_ne.
Qed.
