(* ===== verification/FsFile.v ===== *)
(** * Files (fs.c: bmap, readi, writei)

    The contents of an inode are seen as a sequence of blocks: [fblk s i k] is the
    [k]-th block of inode [i] in state [s], zeros where there is none.  [file_ok]
    is the invariant of the block map: the blocks of the file are distinct data
    blocks in use.  Allocating a block does not change the contents, writing one
    changes exactly it, and [writei] and [readi] are then proved to be the update
    and the reading of a byte sequence. *)
From S2P Require Import Prelude Kernel ProcData FsDisk Fs FsAlloc.
Local Open Scope Z_scope.

Definition ind (i : inode) : Z := i_addrs i !!! INDIRECT.

(** The address of block [k] of the file, 0 when there is none. *)
Definition addr_of (s : fsst) (i : inode) (k : Z) : Z :=
  if decide (k < NDIRECT) then i_addrs i !!! Z.to_nat k
  else if decide (ind i = 0) then 0
  else match disk s !! (i_dev i, ind i) with Some d => get32 d (4 * (k - NDIRECT)) | None => 0 end.

Definition fblk (s : fsst) (i : inode) (k : Z) : block :=
  if decide (addr_of s i k = 0) then zero_block
  else default zero_block (disk s !! (i_dev i, addr_of s i k)).

(** [a] is a block of the file, the indirect block included. *)
Definition in_file (s : fsst) (i : inode) (a : Z) : Prop :=
  a ≠ 0 ∧ (a = ind i ∨ ∃ j, 0 ≤ j < MAXFILE ∧ addr_of s i j = a).

Record file_ok (dev : Z) (sb : superblock) (s : fsst) (i : inode) : Prop := {
  fi_dev : i_dev i = dev;
  fi_len : length (i_addrs i) = NADDRS;
  fi_blocks : ∀ a, in_file s i a →
    scanned sb a ∧ data_block sb a ∧ used dev sb s a = true ∧ is_Some (disk s !! (dev, a));
  fi_inj : ∀ j k, 0 ≤ j < MAXFILE → 0 ≤ k < MAXFILE → addr_of s i j ≠ 0 → addr_of s i j = addr_of s i k → j = k;
  fi_ind : ∀ j, 0 ≤ j < MAXFILE → addr_of s i j ≠ 0 → addr_of s i j ≠ ind i
}.

Lemma addr_of_ext s s' i k : disk s' !! (i_dev i, ind i) = disk s !! (i_dev i, ind i) → addr_of s' i k = addr_of s i k.
Proof. intros E. unfold addr_of. by rewrite E. Qed.

Section add.
Context (dev : Z) (sb : superblock) (s : fsst) (i : inode) (a : Z).
Context (F : fs_ok dev s sb) (Fi : file_ok dev sb s i).
Context (Ha : scanned sb a) (Hu : used dev sb s a = false).

Lemma fresh_data : data_block sb a ∧ disk s !! (dev, a) = Some zero_block.
Proof. by apply (fo_free _ _ _ F). Qed.

Lemma fresh_pos : 0 < a.
Proof.
  destruct fresh_data as [H _]. unfold data_block in H. destruct (fo_range _ _ _ F).
  assert (0 ≤ sb_ninodes sb / IPB) by (by apply Z.div_pos). assert (0 ≤ sb_size sb / BPB) by (apply Z.div_pos; [lia|done]). lia.
Qed.

Lemma fresh_not_in : ¬ in_file s i a.
Proof. intros H. destruct (fi_blocks _ _ _ _ Fi a H) as (_ & _ & H' & _). congruence. Qed.

(** The fresh block [a] becomes block [k] of the file. *)
Context (s2 : fsst) (i2 : inode) (k : Z) (Hk : 0 ≤ k < MAXFILE) (Hk0 : addr_of s i k = 0).
Context (H_addr : ∀ j, 0 ≤ j < MAXFILE → addr_of s2 i2 j = if decide (j = k) then a else addr_of s i j).
Context (H_ind : ind i2 = ind i) (H_dev : i_dev i2 = dev) (H_len : length (i_addrs i2) = NADDRS).
Context (H_used : ∀ y, scanned sb y → used dev sb s2 y = bool_decide (y = a) || used dev sb s y).
Context (H_some : ∀ b, is_Some (disk s !! (dev, b)) → is_Some (disk s2 !! (dev, b))).

Lemma file_ok_add : file_ok dev sb s2 i2.
Proof.
  pose proof fresh_pos. destruct fresh_data as [Hd Hz]. split; [done|done|..].
  - intros b [Hb0 Hb]. assert (D : b = a ∨ in_file s i b).
    { rewrite H_ind in Hb. destruct Hb as [->|(j & Hj & E)]; [right; by split; [|left]|].
      rewrite H_addr in E by done. case_decide; [by left|]. right. split; [done|]. right. by exists j. }
    destruct D as [->|D].
    + split_and!; [done|done| |apply H_some; by eexists]. rewrite H_used by done. by rewrite bool_decide_eq_true_2.
    + destruct (fi_blocks _ _ _ _ Fi b D) as (B1 & B2 & B3 & B4). split_and!; [done|done| |by apply H_some].
      rewrite H_used, B3 by done. by rewrite orb_true_r.
  - intros j j' Hj Hj' Hne E. rewrite !H_addr in E by done. rewrite H_addr in Hne by done.
    destruct (decide (j = k)), (decide (j' = k)); [congruence|..].
    + exfalso. apply fresh_not_in. split; [lia|]. right. by exists j'.
    + exfalso. apply fresh_not_in. split; [lia|]. right. by exists j.
    + by apply (fi_inj _ _ _ _ Fi).
  - intros j Hj Hne. rewrite H_ind. rewrite H_addr in * by done. case_decide.
    + intros E. apply fresh_not_in. split; [lia|]. by left.
    + by apply (fi_ind _ _ _ _ Fi).
Qed.

Lemma fblk_add : disk s2 !! (dev, a) = Some zero_block →
  (∀ b, in_file s i b → b ≠ ind i → disk s2 !! (dev, b) = disk s !! (dev, b)) →
  ∀ j, 0 ≤ j < MAXFILE → fblk s2 i2 j = fblk s i j.
Proof.
  intros Hz Hsame j Hj. unfold fblk. rewrite H_addr, H_dev, (fi_dev _ _ _ _ Fi) by done. destruct (decide (j = k)) as [->|].
  - rewrite Hk0, (decide_True (P := 0 = 0)) by done. rewrite Hz. by case_decide.
  - destruct (decide (addr_of s i j = 0)); [done|]. rewrite Hsame; [done| |by apply (fi_ind _ _ _ _ Fi)].
    split; [done|]. right. by exists j.
Qed.
End add.

(** [s'], [i'] extend [s], [i]: the same contents, perhaps more blocks. *)
Record grown (dev : Z) (sb : superblock) (ip : nat) (s : fsst) (i : inode) (s' : fsst) (i' : inode) : Prop := {
  gr_fs : fs_ok dev s' sb;
  gr_file : file_ok dev sb s' i';
  gr_blk : ∀ j, 0 ≤ j < MAXFILE → fblk s' i' j = fblk s i j;
  gr_addr : ∀ j, 0 ≤ j < MAXFILE → addr_of s i j ≠ 0 → addr_of s' i' j = addr_of s i j;
  gr_meta : ∀ b, b < sb_ninodes sb / IPB + 3 → disk s' !! (dev, b) = disk s !! (dev, b);
  gr_frame : ∀ b, scanned sb b → used dev sb s b = true → data_block sb b → ¬ in_file s i b →
    disk s' !! (dev, b) = disk s !! (dev, b) ∧ used dev sb s' b = true ∧ ¬ in_file s' i' b;
  gr_inode : i' = set_addrs (i_addrs i') i;
  gr_icache : icache s' = <[ip := i']> (icache s);
  gr_busy : bbusy s' = bbusy s
}.

Lemma grown_refl dev sb ip s i : fs_ok dev s sb → file_ok dev sb s i → icache s !! ip = Some i → grown dev sb ip s i s i.
Proof. intros F Fi Hi. split; try done; [by destruct i|by rewrite list_insert_id]. Qed.

Lemma grown_trans dev sb ip s i s1 i1 s2 i2 :
  grown dev sb ip s i s1 i1 → grown dev sb ip s1 i1 s2 i2 → grown dev sb ip s i s2 i2.
Proof.
  intros [A1 A2 A3 A4 A5 A6 A7 A8 A9] [B1 B2 B3 B4 B5 B6 B7 B8 B9]. split; try done.
  - intros j Hj. by rewrite B3, A3.
  - intros j Hj Hne. rewrite B4, A4; [done|done|done|done|]. by rewrite A4.
  - intros b Hb. by rewrite B5, A5.
  - intros b H1 H2 H3 H4. destruct (A6 b H1 H2 H3 H4) as (E1 & U1 & N1).
    destruct (B6 b H1 U1 H3 N1) as (E2 & U2 & N2). by rewrite E2.
  - rewrite B7, A7. by destruct i.
  - by rewrite B8, A8, list_insert_insert_eq.
  - by rewrite B9.
Qed.

(** The bitmap update of [balloc], and the inode update that follows it. *)
Section alloc_steps.
Context (dev : Z) (sb : superblock) (ip : nat) (s : fsst) (i : inode) (a : Z).
Context (F : fs_ok dev s sb) (Fi : file_ok dev sb s i) (Hi : icache s !! ip = Some i).
Context (Ha : scanned sb a) (Hu : used dev sb s a = false).

Let s1 := with_bit dev sb a set_bit s.

Lemma bit_data b : data_block sb b → disk s1 !! (dev, b) = disk s !! (dev, b).
Proof.
  intros Hb. apply with_bit_other; [done..|]. intros [= E]. destruct (fo_range _ _ _ F) as [? ?].
  destruct (data_block_ne sb b) as [_ Hne]; [lia|lia|done|]. by apply (Hne a Ha).
Qed.

Lemma bit_meta b : b < sb_ninodes sb / IPB + 3 → disk s1 !! (dev, b) = disk s !! (dev, b).
Proof.
  intros Hb. apply with_bit_other; [done..|]. intros [= E]. unfold BBLOCK in E.
  assert (0 ≤ a / BPB); [apply Z.div_pos; [apply Ha|done]|lia].
Qed.

Lemma bit_some b : is_Some (disk s !! (dev, b)) → is_Some (disk s1 !! (dev, b)).
Proof.
  intros [d Hb]. destruct (with_bit_disk dev sb a s F Ha set_bit) as (m & Hm & _ & E). unfold s1. rewrite E. simpl.
  destruct (decide (b = BBLOCK a (sb_ninodes sb))) as [->|Hne];
    [rewrite lookup_insert_eq; by eexists|rewrite lookup_insert_ne by congruence; by eexists].
Qed.

Lemma bit_addr k : ind i ≠ 0 → addr_of s1 i k = addr_of s i k.
Proof.
  intros Hne. apply addr_of_ext. rewrite (fi_dev _ _ _ _ Fi). apply bit_data.
  by destruct (fi_blocks _ _ _ _ Fi (ind i)) as (_ & ? & _); [split; [done|by left]|].
Qed.

Lemma addr_of_noind s' k : ind i = 0 → addr_of s' i k = addr_of s i k.
Proof. intros E. unfold addr_of. by rewrite E. Qed.

Lemma bit_addr' k : addr_of s1 i k = addr_of s i k.
Proof. destruct (decide (ind i = 0)); [by apply addr_of_noind|by apply bit_addr]. Qed.

(** A fresh direct block. *)
Lemma grown_direct k i' : 0 ≤ k < NDIRECT → addr_of s i k = 0 →
  i' = set_addrs (<[Z.to_nat k := a]> (i_addrs i)) i →
  grown dev sb ip s i (set_icache (<[ip := i']> (icache s1)) s1) i' ∧
  addr_of (set_icache (<[ip := i']> (icache s1)) s1) i' k = a.
Proof.
  intros Hk Hk0 ->. set (i' := set_addrs _ i). set (s2 := set_icache _ s1).
  assert (Hl := fi_len _ _ _ _ Fi). unfold NDIRECT, NADDRS in *.
  assert (Hind : ind i' = ind i) by (unfold ind; simpl; apply list_lookup_total_insert_ne; unfold INDIRECT; lia).
  assert (Haddr : ∀ j, 0 ≤ j < MAXFILE → addr_of s2 i' j = if decide (j = k) then a else addr_of s i j).
  { intros j Hj. rewrite <- bit_addr'. unfold addr_of. rewrite Hind. unfold NDIRECT.
    destruct (decide (j < 12)).
    - case_decide; [subst; apply list_lookup_total_insert_eq; lia|apply list_lookup_total_insert_ne; lia].
    - rewrite (decide_False (P := j = k)) by lia. done. }
  assert (Hused : ∀ y, scanned sb y → used dev sb s2 y = bool_decide (y = a) || used dev sb s y).
  { intros y Hy. rewrite <- (used_set dev sb a s F Ha y Hy). done. }
  destruct (fresh_data dev sb s a F Ha Hu) as [Hd Hz].
  assert (Hk' : 0 ≤ k < MAXFILE) by (change MAXFILE with 140; lia).
  split; [|rewrite Haddr by done; by rewrite decide_True].
  assert (Hblk : ∀ j, 0 ≤ j < MAXFILE → fblk s2 i' j = fblk s i j).
  { eapply fblk_add with (a := a) (k := k); try done; [apply Fi|by change (disk s1 !! (dev, a) = Some zero_block); rewrite bit_data|].
    intros b Hb _. apply bit_data. by apply (fi_blocks _ _ _ _ Fi). }
  split; try done.
  - pose proof (fs_ok_set dev sb a s F Ha) as G. destruct G. by split.
  - eapply file_ok_add with (a := a) (k := k) (i := i) (s := s); try done; [apply Fi|by simpl; rewrite length_insert|].
    apply bit_some.
  - intros j Hj Hne. rewrite Haddr by done. case_decide; [congruence|done].
  - apply bit_meta.
  - intros b B1 B2 B3 B4. split_and!; [by apply bit_data|by rewrite Hused, B2, orb_true_r by done|].
    intros [B5 [B6|(j & Hj & B6)]]; [apply B4; split; [done|left; congruence]|].
    rewrite Haddr in B6 by done. case_decide; [congruence|]. apply B4. split; [done|]. right. by exists j.
  - simpl. unfold s1. by rewrite with_bit_icache.
  - simpl. unfold s1. by rewrite with_bit_bbusy.
Qed.

Lemma bit_used y : scanned sb y → used dev sb s1 y = bool_decide (y = a) || used dev sb s y.
Proof. intros Hy. by apply used_set. Qed.

Lemma fresh_u32 : u32 a = a.
Proof.
  pose proof (fresh_pos dev sb s a F Ha Hu). destruct Ha as [_ Hlt]. destruct (fo_range _ _ _ F) as [[? ?] _].
  pose proof (Z.div_mod a BPB ltac:(done)). pose proof (Z.mod_pos_bound a BPB ltac:(done)).
  apply u32_small. unfold BPB, BSIZE in *. lia.
Qed.

(** A fresh indirect block. *)
Lemma grown_ind i' : ind i = 0 → i' = set_addrs (<[INDIRECT := a]> (i_addrs i)) i →
  grown dev sb ip s i (set_icache (<[ip := i']> (icache s1)) s1) i' ∧ ind i' = a.
Proof.
  intros Hi0 ->. set (i' := set_addrs _ i). set (s2 := set_icache _ s1).
  assert (Hl := fi_len _ _ _ _ Fi). destruct (fresh_data dev sb s a F Ha Hu) as [Hd Hz].
  pose proof (fresh_pos dev sb s a F Ha Hu) as Hpos. pose proof (fresh_not_in dev sb s i a Fi Hu) as Hnew.
  assert (Hind : ind i' = a) by (unfold ind; simpl; apply list_lookup_total_insert_eq; rewrite Hl; unfold INDIRECT, NADDRS; lia).
  assert (Haddr : ∀ j, 0 ≤ j < MAXFILE → addr_of s2 i' j = addr_of s i j).
  { intros j Hj. unfold addr_of. rewrite Hind, Hi0. unfold NDIRECT. change MAXFILE with 140 in Hj. destruct (decide (j < 12)).
    - apply list_lookup_total_insert_ne. unfold INDIRECT. lia.
    - rewrite decide_False by lia. rewrite (decide_True (P := 0 = 0)) by done.
      change (i_dev i') with (i_dev i). rewrite (fi_dev _ _ _ _ Fi). change (disk s2) with (disk s1).
      rewrite bit_data, Hz by done. apply get32_zero; unfold BSIZE; lia. }
  assert (Hin : ∀ b, in_file s2 i' b → b = a ∨ in_file s i b).
  { intros b [B0 [B|(j & Hj & B)]]; [left; congruence|right]. rewrite Haddr in B by done. split; [done|]. right. by exists j. }
  split; [|done]. split.
  - pose proof (fs_ok_set dev sb a s F Ha) as G. destruct G. by split.
  - split; [apply Fi|by simpl; rewrite length_insert|..].
    + intros b [->|B]%Hin.
      * split_and!; [done|done| |apply bit_some; by eexists]. change (used dev sb s1 a = true).
        rewrite bit_used by done. by rewrite bool_decide_eq_true_2.
      * destruct (fi_blocks _ _ _ _ Fi b B) as (B1 & B2 & B3 & B4). split_and!; [done|done| |by apply bit_some].
        change (used dev sb s1 b = true). by rewrite bit_used, B3, orb_true_r by done.
    + intros j k Hj Hk. rewrite !Haddr by done. by apply Fi.
    + intros j Hj. rewrite Haddr, Hind by done. intros Hne E. apply Hnew. split; [lia|]. right. by exists j.
  - intros j Hj. unfold fblk. rewrite Haddr by done. destruct (decide (addr_of s i j = 0)); [done|].
    change (i_dev i') with (i_dev i). rewrite (fi_dev _ _ _ _ Fi). f_equal. apply bit_data.
    apply (fi_blocks _ _ _ _ Fi). split; [done|]. right. by exists j.
  - intros j Hj _. by apply Haddr.
  - apply bit_meta.
  - intros b B1 B2 B3 B4. split_and!; [by apply bit_data| |intros [->|B]%Hin; congruence].
    change (used dev sb s1 b = true). by rewrite bit_used, B2, orb_true_r by done.
  - done.
  - simpl. unfold s1. by rewrite with_bit_icache.
  - simpl. unfold s1. by rewrite with_bit_bbusy.
Qed.

(** A fresh block entered in the indirect block [d]. *)
Lemma grown_entry k d : ind i ≠ 0 → NDIRECT ≤ k < MAXFILE → addr_of s i k = 0 → disk s !! (dev, ind i) = Some d →
  let s2 := set_disk (<[(dev, ind i) := put32 d (4 * (k - NDIRECT)) a]> (disk s1)) s1 in
  grown dev sb ip s i s2 i ∧ addr_of s2 i k = a.
Proof.
  intros Hne Hk Hk0 Hd s2. change MAXFILE with 140 in Hk. unfold NDIRECT in *.
  destruct (fi_blocks _ _ _ _ Fi (ind i)) as (I1 & I2 & I3 & I4); [split; [done|by left]|].
  assert (Hdok : block_ok d) by (by eapply (fo_blocks _ _ _ F)). assert (Hdl := bo_len _ Hdok). unfold BSIZE in Hdl.
  assert (Haddr : ∀ j, 0 ≤ j < MAXFILE → addr_of s2 i j = if decide (j = k) then a else addr_of s i j).
  { intros j Hj. unfold addr_of. unfold NDIRECT. change MAXFILE with 140 in Hj. destruct (decide (j < 12)).
    - by rewrite (decide_False (P := j = k)) by lia.
    - rewrite !(decide_False (P := ind i = 0)) by done. rewrite (fi_dev _ _ _ _ Fi), Hd. simpl.
      rewrite lookup_insert_eq. case_decide as D; [subst; rewrite get32_put32 by lia; apply fresh_u32|].
      apply get32_put32_ne; lia. }
  assert (F1 : fs_ok dev s1 sb) by (by apply fs_ok_set).
  assert (Hused : ∀ y, scanned sb y → used dev sb s2 y = bool_decide (y = a) || used dev sb s y).
  { intros y Hy. rewrite <- bit_used by done. by apply used_write. }
  assert (Hsame : ∀ b, data_block sb b → b ≠ ind i → disk s2 !! (dev, b) = disk s !! (dev, b)).
  { intros b B1 B2. simpl. rewrite lookup_insert_ne by congruence. by apply bit_data. }
  destruct (fresh_data dev sb s a F Ha Hu) as [Hda Hz]. pose proof (fresh_not_in dev sb s i a Fi Hu) as Hnew.
  pose proof (fresh_pos dev sb s a F Ha Hu) as Hpos.
  assert (Hai : a ≠ ind i) by (intros E; apply Hnew; split; [lia|by left]).
  split; [|rewrite Haddr by (change MAXFILE with 140; lia); by rewrite decide_True]. split.
  - apply fs_ok_write; [done|by apply put32_ok|done|]. left. intros _. by rewrite bit_used, I3, orb_true_r by done.
  - eapply file_ok_add with (a := a) (k := k) (i := i) (s := s); try done; try apply Fi. intros b Hb. simpl.
    destruct (decide (b = ind i)) as [->|]; [rewrite lookup_insert_eq; by eexists|].
    rewrite lookup_insert_ne by congruence. by apply bit_some.
  - eapply fblk_add with (a := a) (k := k); try done; [apply Fi|by rewrite Hsame|].
    intros b Hb Hbi. apply Hsame; [|done]. by apply (fi_blocks _ _ _ _ Fi).
  - intros j Hj Hne'. rewrite Haddr by done. case_decide; [congruence|done].
  - intros b Hb. simpl. rewrite lookup_insert_ne; [by apply bit_meta|]. intros [= <-]. unfold data_block in I2.
    destruct (fo_range _ _ _ F). assert (0 ≤ sb_size sb / BPB) by (apply Z.div_pos; [lia|done]). lia.
  - intros b B1 B2 B3 B4. split_and!; [|by rewrite Hused, B2, orb_true_r by done|].
    + apply Hsame; [done|]. intros ->. apply B4. split; [done|by left].
    + intros [B5 [B6|(j & Hj & B6)]]; [apply B4; split; [done|by left]|].
      rewrite Haddr in B6 by done. case_decide; [congruence|]. apply B4. split; [done|]. right. by exists j.
  - by destruct i.
  - simpl. unfold s1. rewrite with_bit_icache by done. by rewrite list_insert_id.
  - simpl. unfold s1. by rewrite with_bit_bbusy.
Qed.
End alloc_steps.

Lemma with_bit_set_bbusy dev sb x f bs s :
  with_bit dev sb x f (set_bbusy bs s) = set_bbusy bs (with_bit dev sb x f s).
Proof. unfold with_bit, bitmap_of. cbn [disk set_bbusy]. by destruct (disk s !! _). Qed.

Lemma fs_ok_set_bbusy dev sb s bs : fs_ok dev s sb → fs_ok dev (set_bbusy bs s) sb.
Proof. intros []. by split. Qed.

Lemma one_busy : (length (@nil (Z * Z)) < NBUF)%nat ∧ ∀ k : Z * Z, (length [k] < NBUF)%nat.
Proof. unfold NBUF. simpl. split; lia. Qed.

Section bmap.
Context (fuel : nat) (Hf : (0 < fuel)%nat) (h : list lock_id) (Hh : LkBufTable ∉ h).
Context (dev : Z) (sb : superblock) (ip : nat).

(** What [bmap] and its callers assume of the state. *)
Record file_at (s : fsst) (i : inode) : Prop := {
  fa_fs : fs_ok dev s sb;
  fa_file : file_ok dev sb s i;
  fa_inode : icache s !! ip = Some i;
  fa_busy : bbusy s = []
}.

Lemma file_at_grown s i s' i' : file_at s i → grown dev sb ip s i s' i' → file_at s' i'.
Proof.
  intros [A1 A2 A3 A4] [B1 B2 B3 B4 B5 B6 B7 B8 B9]. split; [done|done| |congruence].
  rewrite B8. apply list_lookup_insert_eq. by eapply lookup_lt_Some.
Qed.

Lemma meta_free_nil : meta_free dev sb [].
Proof. split; [apply not_elem_of_nil|intros; apply not_elem_of_nil]. Qed.

Lemma meta_free_data s b : fs_ok dev s sb → data_block sb b → meta_free dev sb [(dev, b)].
Proof.
  intros F Hb. destruct (fo_range _ _ _ F). destruct (data_block_ne sb b) as [H1 H2]; [lia|lia|done|].
  split; [|intros b' Hb']; rewrite list_elem_of_singleton; intros [= E]; [congruence|by apply (H2 b')].
Qed.

Lemma ind_block s i : file_at s i → ind i ≠ 0 →
  data_block sb (ind i) ∧ ∃ d, disk s !! (dev, ind i) = Some d ∧ block_ok d ∧
    ∀ k, NDIRECT ≤ k < MAXFILE → addr_of s i k = get32 d (4 * (k - NDIRECT)).
Proof.
  intros [F Fi Hi Hb] Hne. destruct (fi_blocks _ _ _ _ Fi (ind i)) as (_ & I2 & _ & [d Hd]); [split; [done|by left]|].
  split; [done|]. exists d. split_and!; [done|by eapply (fo_blocks _ _ _ F)|].
  intros k Hk. unfold addr_of. rewrite decide_False by lia. rewrite decide_False by done.
  by rewrite (fi_dev _ _ _ _ Fi), Hd.
Qed.

(** The part of [bmap] after the indirect block [addr] is known. *)
Definition bmap_entry (addr bn : Z) (alloc : bool) : M fsst Z :=
  d ← bread fuel dev addr;
  let a := get32 d (4 * bn) in
  if decide (a = 0) then
    if alloc then
      a ← balloc fuel dev;
      bwrite dev addr (put32 d (4 * bn) a);;
      brelse dev addr;;
      mret a
    else brelse dev addr;; mret NOBLOCK
  else brelse dev addr;; mret a.

Lemma bmap_entry_get s i k alloc : file_at s i → ind i ≠ 0 → NDIRECT ≤ k < MAXFILE → addr_of s i k ≠ 0 →
  runs (bmap_entry (ind i) (k - NDIRECT) alloc) h s (addr_of s i k) s.
Proof.
  intros S Hne Hk Ha. destruct (ind_block s i S Hne) as (I1 & d & Hd & Hok & E). rewrite E in * by done.
  destruct S as [F Fi Hi Hb]. unfold bmap_entry.
  eapply runs_bind; [apply (bread_runs fuel Hf h Hh dev (ind i) d s []); [done|apply not_elem_of_nil|apply one_busy|done]|].
  cbv zeta. rewrite decide_False by done.
  eapply runs_bind; [apply (brelse_runs h Hh _ _ _ []); [done|apply not_elem_of_nil]|].
  rewrite set_bbusy_same by done. apply runs_ret.
Qed.

Lemma bmap_entry_alloc s i k : file_at s i → ind i ≠ 0 → NDIRECT ≤ k < MAXFILE → addr_of s i k = 0 →
  (∃ s' i' a, grown dev sb ip s i s' i' ∧ a ≠ 0 ∧ addr_of s' i' k = a ∧
     runs (bmap_entry (ind i) (k - NDIRECT) true) h s a s') ∨
  panics (bmap_entry (ind i) (k - NDIRECT) true) h s "balloc: out of blocks".
Proof.
  intros S Hne Hk Ha. destruct (ind_block s i S Hne) as (I1 & d & Hd & Hok & E). pose proof (E k Hk) as Ek.
  destruct S as [F Fi Hi Hb]. unfold bmap_entry.
  pose proof (bread_runs fuel Hf h Hh dev (ind i) d s [] Hb (not_elem_of_nil _) (proj1 one_busy) Hd) as Rd.
  set (s3 := set_bbusy [(dev, ind i)] s) in *.
  assert (F3 : fs_ok dev s3 sb) by (by apply fs_ok_set_bbusy).
  destruct (balloc_spec fuel Hf h Hh dev sb [(dev, ind i)] (meta_free_data s _ F I1) (proj2 one_busy _) s3 F3 eq_refl)
    as [(a & A1 & A2 & A3)|[P _]].
  - left. assert (A2' : used dev sb s a = false) by done.
    destruct (grown_entry dev sb ip s i a F Fi Hi A1 A2' k d Hne Hk Ha Hd) as [G Ga].
    eexists _, i, a. split; [exact G|]. split; [pose proof (fresh_pos dev sb s a F A1 A2'); lia|]. split; [exact Ga|].
    eapply runs_bind; [exact Rd|]. cbv zeta. rewrite decide_True by congruence.
    eapply runs_bind; [exact A3|]. unfold s3. rewrite with_bit_set_bbusy.
    eapply runs_bind; [apply bwrite_runs; simpl; inl|].
    eapply runs_bind; [apply (brelse_runs h Hh _ _ _ []); [done|apply not_elem_of_nil]|].
    eapply runs_eq; [apply runs_ret|]. cbn [disk set_bbusy]. pose proof (with_bit_bbusy dev sb a s F A1 set_bit) as Eb.
    rewrite Hb in Eb. destruct (with_bit dev sb a set_bit s). simpl in *. by subst.
  - right. eapply runs_panics; [exact Rd|]. cbv zeta. rewrite decide_True by congruence. by apply panics_bind.
Qed.

(** Reading the block map. *)
Lemma bmap_get s i k alloc : file_at s i → 0 ≤ k < MAXFILE → addr_of s i k ≠ 0 →
  runs (bmap fuel ip k alloc) h s (addr_of s i k) s.
Proof.
  intros S Hk Ha. pose proof S as [F Fi Hi Hb]. unfold bmap. eapply runs_bind; [by apply runs_get_inode|].
  rewrite (fi_dev _ _ _ _ Fi). destruct (decide (k < NDIRECT)) as [D|D].
  - assert (E : addr_of s i k = i_addrs i !!! Z.to_nat k) by (unfold addr_of; by rewrite decide_True).
    cbv zeta. rewrite <- E, decide_False by done. apply runs_ret.
  - cbv zeta. rewrite (decide_True (P := k - NDIRECT < NINDIRECT)) by (unfold MAXFILE in Hk; lia).
    assert (Hne : ind i ≠ 0) by (intros E; apply Ha; unfold addr_of; rewrite decide_False by done; by rewrite E).
    fold (ind i). rewrite decide_False by tauto. rewrite (decide_False (P := ind i = 0)) by done.
    eapply runs_bind; [apply runs_ret|]. eapply bmap_entry_get; try done. lia.
Qed.

(** The indirect block, made if there is none. *)
Definition bmap_ind_block (i : inode) : M fsst Z :=
  if decide (ind i = 0) then
    addr ← balloc fuel dev;
    at_inode ip (λ i, set_addrs (<[INDIRECT := addr]> (i_addrs i)) i);;
    mret addr
  else mret (ind i).

Lemma bmap_indirect s i k w : file_at s i → NDIRECT ≤ k < MAXFILE →
  bmap fuel ip k true (KCtx h w) s =
  (addr ← bmap_ind_block i; bmap_entry addr (k - NDIRECT) true) (KCtx h w) s.
Proof.
  intros [F Fi Hi Hb] Hk. unfold bmap, get_inode.
  rewrite (bind_Ok _ _ _ _ i (KCtx h w) s) by (rewrite kget_bind, Hi; done).
  rewrite decide_False by lia. cbv zeta. rewrite decide_True by (unfold MAXFILE in Hk; lia).
  rewrite decide_False by (intros [_ ?]; done). by rewrite (fi_dev _ _ _ _ Fi).
Qed.

Lemma bmap_ind_block_spec s i : file_at s i →
  (∃ s1 i1, grown dev sb ip s i s1 i1 ∧ ind i1 ≠ 0 ∧ runs (bmap_ind_block i) h s (ind i1) s1) ∨
  panics (bmap_ind_block i) h s "balloc: out of blocks".
Proof.
  intros [F Fi Hi Hb]. unfold bmap_ind_block. destruct (decide (ind i = 0)) as [E|E].
  2: { left. exists s, i. split_and!; [by apply grown_refl|done|apply runs_ret]. }
  destruct (balloc_spec fuel Hf h Hh dev sb [] meta_free_nil (proj1 one_busy) s F Hb) as [(a & A1 & A2 & A3)|[P _]].
  - left. destruct (grown_ind dev sb ip s i a F Fi A1 A2 _ E eq_refl) as [G Ga].
    eexists _, _. split; [exact G|]. rewrite Ga. split; [pose proof (fresh_pos dev sb s a F A1 A2); lia|].
    eapply runs_bind; [exact A3|]. eapply runs_bind; [|apply runs_ret].
    apply (runs_at_inode ip (λ i0, set_addrs (<[INDIRECT := a]> (i_addrs i0)) i0) i). by rewrite with_bit_icache.
  - right. by apply panics_bind.
Qed.

Lemma bmap_alloc_direct s i k : file_at s i → 0 ≤ k < NDIRECT → addr_of s i k = 0 →
  (∃ s' i' a, grown dev sb ip s i s' i' ∧ a ≠ 0 ∧ addr_of s' i' k = a ∧ runs (bmap fuel ip k true) h s a s') ∨
  panics (bmap fuel ip k true) h s "balloc: out of blocks".
Proof.
  intros [F Fi Hi Hb] Hk E0. unfold bmap. pose proof (runs_get_inode ip i h s Hi) as Rg.
  assert (E : i_addrs i !!! Z.to_nat k = 0) by (rewrite <- E0; unfold addr_of; by rewrite decide_True by lia).
  destruct (balloc_spec fuel Hf h Hh dev sb [] meta_free_nil (proj1 one_busy) s F Hb) as [(a & A1 & A2 & A3)|[P _]].
  - left. destruct (grown_direct dev sb ip s i a F Fi A1 A2 k _ Hk E0 eq_refl) as [G Ga].
    eexists _, _, a. split; [exact G|]. split; [pose proof (fresh_pos dev sb s a F A1 A2); lia|]. split; [exact Ga|].
    eapply runs_bind; [exact Rg|]. rewrite (decide_True (P := k < NDIRECT)) by lia. cbv zeta.
    rewrite (decide_True (P := i_addrs i !!! Z.to_nat k = 0)) by done. rewrite (fi_dev _ _ _ _ Fi).
    eapply runs_bind; [exact A3|]. eapply runs_bind; [|apply runs_ret].
    apply (runs_at_inode ip (λ i0, set_addrs (<[Z.to_nat k := a]> (i_addrs i0)) i0) i). by rewrite with_bit_icache.
  - right. eapply runs_panics; [exact Rg|]. rewrite (decide_True (P := k < NDIRECT)) by lia. cbv zeta.
    rewrite (decide_True (P := i_addrs i !!! Z.to_nat k = 0)) by done. rewrite (fi_dev _ _ _ _ Fi). by apply panics_bind.
Qed.

(** Finding or making block [k]. *)
Lemma bmap_alloc s i k : file_at s i → 0 ≤ k < MAXFILE →
  (∃ s' i' a, grown dev sb ip s i s' i' ∧ a ≠ 0 ∧ addr_of s' i' k = a ∧ runs (bmap fuel ip k true) h s a s') ∨
  panics (bmap fuel ip k true) h s "balloc: out of blocks".
Proof.
  intros S Hk. destruct (decide (addr_of s i k = 0)) as [E0|E0].
  2: { left. exists s, i, (addr_of s i k). destruct S. split_and!; [by apply grown_refl|done|done|by apply bmap_get]. }
  destruct (decide (k < NDIRECT)) as [D|D]; [apply bmap_alloc_direct; [done|lia|done]|].
  assert (Hk' : NDIRECT ≤ k < MAXFILE) by lia. pose proof (λ w, bmap_indirect s i k w S Hk') as Eq.
  destruct (bmap_ind_block_spec s i S) as [(s1 & i1 & G1 & Hne1 & R1)|P1].
  2: { right. intros w. rewrite Eq. by apply panics_bind. }
  pose proof (file_at_grown s i s1 i1 S G1) as S1.
  assert (Rest : (∃ s' i' a, grown dev sb ip s1 i1 s' i' ∧ a ≠ 0 ∧ addr_of s' i' k = a ∧
                    runs (bmap_entry (ind i1) (k - NDIRECT) true) h s1 a s') ∨
                 panics (bmap_entry (ind i1) (k - NDIRECT) true) h s1 "balloc: out of blocks").
  { destruct (decide (addr_of s1 i1 k = 0)) as [Ea|Ea]; [by apply bmap_entry_alloc|].
    left. exists s1, i1, (addr_of s1 i1 k). split_and!; [|done|done|by apply bmap_entry_get].
    destruct S1. by apply grown_refl. }
  destruct Rest as [(s' & i' & a & G2 & A1 & A2 & R2)|P2]; [left|right].
  - exists s', i', a. split_and!; [by eapply grown_trans|done|done|]. intros w. rewrite Eq. by eapply runs_bind.
  - intros w. rewrite Eq. by eapply runs_panics.
Qed.
End bmap.

(** ** The contents as bytes *)
Definition MAXBYTES : Z := MAXFILE * BSIZE.
Definition fbyte (s : fsst) (i : inode) (x : Z) : Z := get8 (fblk s i (x / BSIZE)) (x mod BSIZE).
Definition fbytes (s : fsst) (i : inode) (off n : Z) : list Z :=
  (λ k, fbyte s i (off + Z.of_nat k)) <$> seq 0 (Z.to_nat n).

Lemma fbytes_length s i off n : length (fbytes s i off n) = Z.to_nat n.
Proof. unfold fbytes. by rewrite length_fmap, length_seq. Qed.

Lemma get8_fbytes s i off n x : 0 ≤ x < n → get8 (fbytes s i off n) x = fbyte s i (off + x).
Proof.
  intros Hx. unfold get8, fbytes. apply list_lookup_total_correct. rewrite list_lookup_fmap, lookup_seq_lt by lia.
  simpl. do 3 f_equal. lia.
Qed.

Lemma fbytes_app s i off m n : 0 ≤ m → 0 ≤ n → fbytes s i off (m + n) = fbytes s i off m ++ fbytes s i (off + m) n.
Proof.
  intros Hm Hn. apply get8_ext; [rewrite length_app, !fbytes_length; lia|].
  rewrite fbytes_length. intros x Hx. rewrite get8_fbytes by lia. unfold get8. rewrite list_lookup_total_alt.
  destruct (decide (x < m)).
  - rewrite lookup_app_l by (rewrite fbytes_length; lia). rewrite <- list_lookup_total_alt.
    change (fbyte s i (off + x) = get8 (fbytes s i off m) x). by rewrite get8_fbytes by lia.
  - rewrite lookup_app_r by (rewrite fbytes_length; lia). rewrite fbytes_length, <- list_lookup_total_alt.
    replace (Z.to_nat x - Z.to_nat m)%nat with (Z.to_nat (x - m)) by lia.
    change (fbyte s i (off + x) = get8 (fbytes s i (off + m) n) (x - m)). rewrite get8_fbytes by lia. f_equal. lia.
Qed.

Section file_blocks.
Context (dev : Z) (sb : superblock) (ip : nat) (s : fsst) (i : inode) (S : file_at dev sb ip s i).

Lemma fblk_disk k : 0 ≤ k < MAXFILE → addr_of s i k ≠ 0 →
  disk s !! (dev, addr_of s i k) = Some (fblk s i k) ∧ data_block sb (addr_of s i k) ∧
  scanned sb (addr_of s i k) ∧ used dev sb s (addr_of s i k) = true.
Proof.
  intros Hk Ha. destruct S as [F Fi Hi Hb].
  destruct (fi_blocks _ _ _ _ Fi (addr_of s i k)) as (B1 & B2 & B3 & [d B4]); [split; [done|right; by exists k]|].
  split_and!; [|done..]. unfold fblk. rewrite decide_False by done. by rewrite (fi_dev _ _ _ _ Fi), B4.
Qed.

Lemma fblk_ok k : 0 ≤ k < MAXFILE → block_ok (fblk s i k).
Proof.
  intros Hk. destruct (decide (addr_of s i k = 0)) as [E|E].
  - unfold fblk. rewrite decide_True by done. apply zero_block_ok.
  - destruct (fblk_disk k Hk E) as (D & _). by eapply (fo_blocks _ _ _ (fa_fs _ _ _ _ _ S)).
Qed.

Lemma byte_block x : 0 ≤ x < MAXBYTES → 0 ≤ x / BSIZE < MAXFILE ∧ 0 ≤ x mod BSIZE < BSIZE ∧ x = BSIZE * (x / BSIZE) + x mod BSIZE.
Proof.
  intros Hx. unfold MAXBYTES in Hx. change MAXFILE with 140 in *. unfold BSIZE in *.
  pose proof (Z.div_mod x 512 ltac:(lia)). pose proof (Z.mod_pos_bound x 512 ltac:(lia)). lia.
Qed.

Lemma slice_fbytes off m : 0 ≤ off < MAXBYTES → 0 ≤ m → off mod BSIZE + m ≤ BSIZE →
  slice (fblk s i (off / BSIZE)) (off mod BSIZE) m = fbytes s i off m.
Proof.
  intros Ho Hm Hb. destruct (byte_block off Ho) as (B1 & B2 & B3). pose proof (bo_len _ (fblk_ok _ B1)) as Hl.
  assert (Hlen : length (slice (fblk s i (off / BSIZE)) (off mod BSIZE) m) = Z.to_nat m) by (apply slice_length; lia).
  apply get8_ext; [by rewrite fbytes_length|]. rewrite Hlen. intros x Hx.
  rewrite get8_slice, get8_fbytes by lia. unfold fbyte.
  assert (E : (off + x) / BSIZE = off / BSIZE ∧ (off + x) mod BSIZE = off mod BSIZE + x).
  { replace (off + x) with (off mod BSIZE + x + (off / BSIZE) * BSIZE) by lia.
    rewrite Z.div_add, Z.mod_add by done. rewrite Z.div_small, Z.mod_small by lia. lia. }
  by destruct E as [-> ->].
Qed.
End file_blocks.

(** ** readi *)
Section readi.
Context (fuel : nat) (Hf : (0 < fuel)%nat) (h : list lock_id) (Hh : LkBufTable ∉ h).
Context (dev : Z) (sb : superblock) (ip : nat) (s : fsst) (i : inode) (S : file_at dev sb ip s i).

Lemma readi_loop_runs k : ∀ off n dst, 0 ≤ off → 0 ≤ n → off + n ≤ MAXBYTES → (Z.to_nat n < k)%nat →
  (∀ x, off ≤ x < off + n → addr_of s i (x / BSIZE) ≠ 0) →
  runs (readi_loop fuel k ip off n dst) h s (dst ++ fbytes s i off n) s.
Proof.
  induction k as [|k IH]; intros off n dst Ho Hn Hmax Hk Ha; [lia|]. cbn [readi_loop].
  destruct (decide (0 < n)) as [Hp|Hp].
  2: { replace n with 0 by lia. unfold fbytes. simpl. rewrite app_nil_r. apply runs_ret. }
  pose proof S as [F Fi Hi Hb]. destruct (byte_block off ltac:(lia)) as (B1 & B2 & B3).
  specialize (Ha off ltac:(lia)) as Ha0. destruct (fblk_disk dev sb ip s i S _ B1 Ha0) as (D1 & D2 & D3 & D4).
  eapply runs_bind; [by apply runs_get_inode|]. rewrite (fi_dev _ _ _ _ Fi).
  eapply runs_bind; [by eapply bmap_get|].
  eapply runs_bind; [apply (bread_runs fuel Hf h Hh dev _ _ s []); [done|apply not_elem_of_nil|apply (proj1 one_busy)|exact D1]|].
  cbv zeta. set (m := Z.min n (BSIZE - off mod BSIZE)).
  eapply runs_bind; [apply (brelse_runs h Hh _ _ _ []); [done|apply not_elem_of_nil]|].
  rewrite set_bbusy_same by done.
  assert (Hm : 0 < m ≤ n ∧ off mod BSIZE + m ≤ BSIZE) by (unfold m; lia).
  rewrite u32_small by (unfold MAXBYTES in Hmax; change MAXFILE with 140 in Hmax; unfold BSIZE in *; lia).
  rewrite (slice_fbytes dev sb ip) by (done || lia).
  eapply runs_eq; [|done]. replace n with (m + (n - m)) at 2 by lia. rewrite fbytes_app, app_assoc by lia.
  apply IH; try lia. intros x Hx. apply Ha. lia.
Qed.
End readi.

(** ** writei *)

(** [s'], [i'] are [s], [i] with the bytes [l] at offset [off] of the file. *)
Record updated (dev : Z) (sb : superblock) (ip : nat) (s : fsst) (i : inode) (s' : fsst) (i' : inode) (off : Z) (l : list Z) : Prop := {
  up_at : file_at dev sb ip s' i';
  up_byte : ∀ x, 0 ≤ x < MAXBYTES →
    fbyte s' i' x = if decide (off ≤ x < off + Z.of_nat (length l)) then get8 l (x - off) else fbyte s i x;
  up_addr : ∀ j, 0 ≤ j < MAXFILE → addr_of s i j ≠ 0 → addr_of s' i' j = addr_of s i j;
  up_new : ∀ x, off ≤ x < off + Z.of_nat (length l) → addr_of s' i' (x / BSIZE) ≠ 0;
  up_meta : ∀ b, b < sb_ninodes sb / IPB + 3 → disk s' !! (dev, b) = disk s !! (dev, b);
  up_frame : ∀ b, scanned sb b → used dev sb s b = true → data_block sb b → ¬ in_file s i b →
    disk s' !! (dev, b) = disk s !! (dev, b) ∧ used dev sb s' b = true ∧ ¬ in_file s' i' b;
  up_inode : i' = set_addrs (i_addrs i') i;
  up_icache : icache s' = <[ip := i']> (icache s)
}.

Lemma updated_nil dev sb ip s i off : file_at dev sb ip s i → updated dev sb ip s i s i off [].
Proof.
  intros S. split; try done.
  - intros x Hx. by rewrite decide_False by (simpl; lia).
  - intros x Hx. simpl in Hx. lia.
  - by destruct i.
  - rewrite list_insert_id; [done|apply S].
Qed.

Lemma get8_app (l1 l2 : list Z) x : 0 ≤ x →
  get8 (l1 ++ l2) x = if decide (x < Z.of_nat (length l1)) then get8 l1 x else get8 l2 (x - Z.of_nat (length l1)).
Proof.
  intros Hx. unfold get8. rewrite !list_lookup_total_alt. case_decide.
  - by rewrite lookup_app_l by lia.
  - rewrite lookup_app_r by lia. do 2 f_equal. lia.
Qed.

Lemma updated_app dev sb ip s i s1 i1 s2 i2 off l1 l2 :
  0 ≤ off → off + Z.of_nat (length l1 + length l2) ≤ MAXBYTES →
  updated dev sb ip s i s1 i1 off l1 → updated dev sb ip s1 i1 s2 i2 (off + Z.of_nat (length l1)) l2 →
  updated dev sb ip s i s2 i2 off (l1 ++ l2).
Proof.
  intros Ho Hmax [A1 A2 A3 A4 A5 A6 A7 A8] [B1 B2 B3 B4 B5 B6 B7 B8].
  assert (Hx : ∀ x, off ≤ x < off + Z.of_nat (length (l1 ++ l2)) → 0 ≤ x / BSIZE < MAXFILE).
  { rewrite length_app. intros x Hx. by apply (byte_block x ltac:(lia)). }
  split; try done.
  - intros x Hx'. rewrite B2, A2 by done. rewrite length_app.
    repeat case_decide; try lia; try done; rewrite get8_app by lia; case_decide; try lia; try done; f_equal; lia.
  - intros j Hj Hne. rewrite B3, A3; try done. by rewrite A3.
  - intros x Hx'. destruct (decide (off + Z.of_nat (length l1) ≤ x)) as [D|D].
    + apply B4. rewrite length_app in Hx'. lia.
    + assert (Ha : addr_of s1 i1 (x / BSIZE) ≠ 0) by (apply A4; lia). by rewrite B3 by auto.
  - intros b Hb. by rewrite B5, A5.
  - intros b H1 H2 H3 H4. destruct (A6 b H1 H2 H3 H4) as (E1 & U1 & N1).
    destruct (B6 b H1 U1 H3 N1) as (E2 & U2 & N2). by rewrite E2.
  - rewrite B7, A7. by destruct i.
  - by rewrite B8, A8, list_insert_insert_eq.
Qed.

(** Writing one block of the file. *)
Section write_block.
Context (dev : Z) (sb : superblock) (ip : nat) (s : fsst) (i : inode) (S : file_at dev sb ip s i).
Context (k : Z) (Hk : 0 ≤ k < MAXFILE) (a : Z) (Ha : addr_of s i k = a) (Ha0 : a ≠ 0) (d : block) (Hd : block_ok d).
Let s2 := set_disk (<[(dev, a) := d]> (disk s)) s.

Lemma write_facts : data_block sb a ∧ scanned sb a ∧ used dev sb s a = true ∧ a ≠ ind i.
Proof.
  destruct (fblk_disk dev sb ip s i S k Hk ltac:(congruence)) as (_ & D2 & D3 & D4).
  rewrite Ha in *. split_and!; try done. rewrite <- Ha. apply (fi_ind _ _ _ _ (fa_file _ _ _ _ _ S)); congruence.
Qed.

Lemma write_addr j : addr_of s2 i j = addr_of s i j.
Proof.
  apply addr_of_ext. rewrite (fi_dev _ _ _ _ (fa_file _ _ _ _ _ S)). simpl. apply lookup_insert_ne.
  destruct write_facts as (_ & _ & _ & H). congruence.
Qed.

Lemma write_used y : scanned sb y → used dev sb s2 y = used dev sb s y.
Proof. apply used_write; [apply S|apply write_facts]. Qed.

Lemma write_in_file b : in_file s2 i b ↔ in_file s i b.
Proof. unfold in_file. by setoid_rewrite write_addr. Qed.

Lemma write_file_at : file_at dev sb ip s2 i.
Proof.
  destruct write_facts as (D1 & D2 & D3 & D4). destruct S as [F Fi Hi Hb]. split; [|..|done|done].
  - apply fs_ok_write; [done..|]. by left.
  - destruct Fi as [F1 F2 F3 F4 F5]. split; [done|done|..].
    + intros b Hb'. apply write_in_file in Hb'. destruct (F3 b Hb') as (B1 & B2 & B3 & B4).
      split_and!; [done|done|by rewrite write_used|]. simpl.
      destruct (decide (b = a)) as [->|]; [rewrite lookup_insert_eq; by eexists|by rewrite lookup_insert_ne by congruence].
    + intros j j'. rewrite !write_addr. apply F4.
    + intros j. rewrite write_addr. apply F5.
Qed.

Lemma write_fblk j : 0 ≤ j < MAXFILE → fblk s2 i j = if decide (j = k) then d else fblk s i j.
Proof.
  intros Hj. unfold fblk. rewrite write_addr, (fi_dev _ _ _ _ (fa_file _ _ _ _ _ S)).
  destruct (decide (j = k)) as [->|Hne].
  - rewrite Ha, decide_False by done. simpl. by rewrite lookup_insert_eq.
  - destruct (decide (addr_of s i j = 0)) as [|Hj0]; [done|]. simpl. rewrite lookup_insert_ne; [done|].
    intros [= E]. apply Hne. apply (fi_inj _ _ _ _ (fa_file _ _ _ _ _ S)); [done..|congruence].
Qed.
End write_block.

(** One iteration of [writei]: the block is found or made, and written. *)
Lemma updated_block dev sb ip s i s1 i1 a off l :
  file_at dev sb ip s i → grown dev sb ip s i s1 i1 → 0 ≤ off < MAXBYTES →
  addr_of s1 i1 (off / BSIZE) = a → a ≠ 0 → Forall byte l → off mod BSIZE + Z.of_nat (length l) ≤ BSIZE →
  updated dev sb ip s i
    (set_disk (<[(dev, a) := splice (fblk s1 i1 (off / BSIZE)) (off mod BSIZE) l]> (disk s1)) s1) i1 off l.
Proof.
  intros S G Ho Ha Ha0 Hl Hlen. pose proof (file_at_grown _ _ _ _ _ _ _ S G) as S1.
  destruct (byte_block off Ho) as (B1 & B2 & B3).
  assert (Hbo : block_ok (fblk s1 i1 (off / BSIZE))) by (by eapply fblk_ok).
  assert (Hd : block_ok (splice (fblk s1 i1 (off / BSIZE)) (off mod BSIZE) l)) by (apply splice_ok; (done || lia)).
  assert (Hn : Z.of_nat (length (fblk s1 i1 (off / BSIZE))) = BSIZE) by (rewrite (bo_len _ Hbo); done).
  pose proof (write_facts dev sb ip s1 i1 S1 _ B1 a Ha Ha0) as (D1 & D2 & D3 & D4).
  assert (Same : ∀ x, off ≤ x < off + Z.of_nat (length l) → x / BSIZE = off / BSIZE).
  { intros x Hx. symmetry. apply (Z.div_unique_pos x BSIZE _ (x - BSIZE * (off / BSIZE))); lia. }
  split.
  - by eapply write_file_at.
  - intros x Hx. destruct (byte_block x Hx) as (X1 & X2 & X3). unfold fbyte.
    rewrite (write_fblk dev sb ip s1 i1 S1 _ B1 a Ha Ha0) by done. destruct (decide (x / BSIZE = off / BSIZE)) as [E|E].
    + rewrite get8_splice by lia. rewrite E in X3 |- *. rewrite (gr_blk _ _ _ _ _ _ _ G) by done.
      repeat case_decide; try lia; try done; f_equal; lia.
    + rewrite decide_False by (intros Hx'; apply E; by apply Same). by rewrite (gr_blk _ _ _ _ _ _ _ G).
  - intros j Hj Hne. rewrite (write_addr dev sb ip s1 i1 S1 _ B1 a Ha Ha0). by apply (gr_addr _ _ _ _ _ _ _ G).
  - intros x Hx. rewrite (write_addr dev sb ip s1 i1 S1 _ B1 a Ha Ha0), (Same x Hx). congruence.
  - intros b Hb. simpl. rewrite lookup_insert_ne; [by apply (gr_meta _ _ _ _ _ _ _ G)|]. intros [= <-].
    destruct (fo_range _ _ _ (fa_fs _ _ _ _ _ S)). unfold data_block in D1.
    assert (0 ≤ sb_size sb / BPB) by (apply Z.div_pos; [lia|done]). lia.
  - intros b H1 H2 H3 H4. destruct (gr_frame _ _ _ _ _ _ _ G b H1 H2 H3 H4) as (E1 & E2 & E3).
    rewrite (write_used dev sb ip s1 i1 S1 _ B1 a Ha Ha0) by done.
    rewrite (write_in_file dev sb ip s1 i1 S1 _ B1 a Ha Ha0). split_and!; [|done|done].
    simpl. rewrite lookup_insert_ne; [done|]. intros [= <-]. apply E3. split; [done|]. right. by exists (off / BSIZE).
  - apply (gr_inode _ _ _ _ _ _ _ G).
  - apply (gr_icache _ _ _ _ _ _ _ G).
Qed.

Section writei.
Context (fuel : nat) (Hf : (0 < fuel)%nat) (h : list lock_id) (Hh : LkBufTable ∉ h).
Context (dev : Z) (sb : superblock) (ip : nat).

(** Reading a block and writing it back changed, before [K]. *)
Lemma write_back {B} s i a d f (K : M fsst B) : file_at dev sb ip s i → disk s !! (dev, a) = Some d →
  (∀ r s', runs K h (set_disk (<[(dev, a) := f d]> (disk s)) s) r s' →
     runs (d ← bread fuel dev a; bwrite dev a (f d);; brelse dev a;; K) h s r s') ∧
  (∀ msg, panics K h (set_disk (<[(dev, a) := f d]> (disk s)) s) msg →
     panics (d ← bread fuel dev a; bwrite dev a (f d);; brelse dev a;; K) h s msg).
Proof.
  intros S Hd.
  pose proof (bread_runs fuel Hf h Hh dev a d s [] (fa_busy _ _ _ _ _ S) (not_elem_of_nil _) (proj1 one_busy) Hd) as R1.
  assert (R2 : runs (bwrite dev a (f d)) h (set_bbusy [(dev, a)] s) () _) by (apply bwrite_runs; simpl; inl).
  assert (R3 : runs (brelse dev a) h (set_disk (<[(dev, a) := f d]> (disk s)) (set_bbusy [(dev, a)] s)) ()
    (set_disk (<[(dev, a) := f d]> (disk s)) s)).
  { eapply runs_eq; [apply (brelse_runs h Hh _ _ _ []); [done|apply not_elem_of_nil]|].
    pose proof (fa_busy _ _ _ _ _ S) as Eb. destruct s. simpl in *. by subst. }
  split; intros.
  - eapply runs_bind; [exact R1|]. eapply runs_bind; [exact R2|]. by eapply runs_bind.
  - eapply runs_panics; [exact R1|]. eapply runs_panics; [exact R2|]. by eapply runs_panics.
Qed.

Lemma writei_loop_spec k : ∀ s i src off n, file_at dev sb ip s i →
  0 ≤ off → 0 ≤ n → off + n ≤ MAXBYTES → (Z.to_nat n < k)%nat → (Z.to_nat n ≤ length src)%nat → Forall byte src →
  (∃ s' i', updated dev sb ip s i s' i' off (take (Z.to_nat n) src) ∧
     runs (writei_loop fuel k ip src off n) h s (off + n) s') ∨
  panics (writei_loop fuel k ip src off n) h s "balloc: out of blocks".
Proof.
  induction k as [|k IH]; intros s i src off n S Ho Hn Hmax Hk Hsrc Hb; [lia|]. cbn [writei_loop].
  destruct (decide (0 < n)) as [Hp|Hp].
  2: { left. exists s, i. replace n with 0 by lia. rewrite Z.add_0_r. split; [by apply updated_nil|apply runs_ret]. }
  destruct (byte_block off ltac:(lia)) as (B1 & B2 & B3).
  pose proof (runs_get_inode ip i h s (fa_inode _ _ _ _ _ S)) as Rg.
  destruct (bmap_alloc fuel Hf h Hh dev sb ip s i (off / BSIZE) S B1) as [(s1 & i1 & a & G & Ha0 & Ha & Rb)|P].
  2: { right. eapply runs_panics; [exact Rg|]. by apply panics_bind. }
  pose proof (file_at_grown _ _ _ _ _ _ _ S G) as S1.
  destruct (fblk_disk dev sb ip s1 i1 S1 _ B1 ltac:(congruence)) as (D1 & _). rewrite Ha in D1.
  set (m := Z.min n (BSIZE - off mod BSIZE)). assert (Hm : 0 < m ≤ n ∧ off mod BSIZE + m ≤ BSIZE) by (unfold m; lia).
  assert (Hlen : length (take (Z.to_nat m) src) = Z.to_nat m) by (rewrite length_take; lia).
  pose proof (updated_block dev sb ip s i s1 i1 a off (take (Z.to_nat m) src) S G ltac:(lia) Ha Ha0
    (Forall_take _ _ _ Hb) ltac:(rewrite Hlen; lia)) as U.
  set (s2 := set_disk _ s1) in *.
  assert (Hu : u32 (off + m) = off + m).
  { apply u32_small. unfold MAXBYTES in Hmax. change MAXFILE with 140 in Hmax. unfold BSIZE in *. lia. }
  destruct (IH s2 i1 (drop (Z.to_nat m) src) (off + m) (n - m) (up_at _ _ _ _ _ _ _ _ _ U)) as [(s' & i' & U' & R')|P];
    [lia|lia|lia|lia|rewrite length_drop; lia|by apply Forall_drop|left|right].
  - exists s', i'. split.
    + replace (Z.to_nat n) with (Z.to_nat m + Z.to_nat (n - m))%nat by lia. rewrite <- take_take_drop.
      eapply updated_app; [done| |exact U|by rewrite Hlen, Z2Nat.id by lia].
      rewrite Hlen, length_take, length_drop. lia.
    + replace (off + m + (n - m)) with (off + n) in R' by lia.
      eapply runs_bind; [exact Rg|]. rewrite (fi_dev _ _ _ _ (fa_file _ _ _ _ _ S)).
      eapply runs_bind; [exact Rb|]. cbv zeta. fold m. rewrite Hu.
      by apply (proj1 (write_back s1 i1 a _ (λ d, splice d (off mod BSIZE) (take (Z.to_nat m) src)) _ S1 D1)).
  - eapply runs_panics; [exact Rg|]. rewrite (fi_dev _ _ _ _ (fa_file _ _ _ _ _ S)).
    eapply runs_panics; [exact Rb|]. cbv zeta. fold m. rewrite Hu.
    by apply (proj2 (write_back s1 i1 a _ (λ d, splice d (off mod BSIZE) (take (Z.to_nat m) src)) _ S1 D1)).
Qed.
End writei.

(** ** Inode blocks *)
Section inode_blocks.
Context (dev : Z) (sb : superblock) (ip : nat).

(** The inode's place on the disk. *)
Definition inode_ok (s : fsst) (i : inode) : Prop :=
  0 ≤ i_inum i < sb_ninodes sb ∧ is_Some (disk s !! (dev, IBLOCK (i_inum i))).

Lemma inode_block i : 0 ≤ i_inum i < sb_ninodes sb → 2 ≤ IBLOCK (i_inum i) < sb_ninodes sb / IPB + 3.
Proof.
  intros H. unfold IBLOCK. assert (0 ≤ i_inum i / IPB) by (apply Z.div_pos; [lia|done]).
  assert (i_inum i / IPB ≤ sb_ninodes sb / IPB) by (apply Z.div_le_mono; [done|lia]). lia.
Qed.

(** Writing a block of inodes concerns neither the bitmap nor the data. *)
Lemma file_at_meta_write s i b d : file_at dev sb ip s i → 2 ≤ b < sb_ninodes sb / IPB + 3 → block_ok d →
  file_at dev sb ip (set_disk (<[(dev, b) := d]> (disk s)) s) i ∧
  (∀ j, 0 ≤ j < MAXFILE → fblk (set_disk (<[(dev, b) := d]> (disk s)) s) i j = fblk s i j) ∧
  (∀ j, addr_of (set_disk (<[(dev, b) := d]> (disk s)) s) i j = addr_of s i j) ∧
  (∀ y, scanned sb y → used dev sb (set_disk (<[(dev, b) := d]> (disk s)) s) y = used dev sb s y).
Proof.
  intros S Hb Hd. set (s2 := set_disk _ s). pose proof S as [F Fi Hi Hbb]. destruct (fo_range _ _ _ F) as [R1 R2].
  assert (Hq : 0 ≤ sb_size sb / BPB) by (apply Z.div_pos; [lia|done]).
  assert (Hdata : ∀ a, data_block sb a → disk s2 !! (dev, a) = disk s !! (dev, a)).
  { intros a Ha. simpl. apply lookup_insert_ne. intros [= E]. unfold data_block in Ha. lia. }
  assert (Hmap : ∀ y, scanned sb y → bitmap_of dev y sb s2 = bitmap_of dev y sb s).
  { intros y Hy. unfold bitmap_of. simpl. apply lookup_insert_ne. intros [= E]. unfold BBLOCK in E.
    assert (0 ≤ y / BPB) by (apply Z.div_pos; [apply Hy|done]). lia. }
  assert (Hused : ∀ y, scanned sb y → used dev sb s2 y = used dev sb s y) by (intros y Hy; unfold used; by rewrite Hmap).
  assert (Haddr : ∀ j, addr_of s2 i j = addr_of s i j).
  { intros j. destruct (decide (ind i = 0)) as [E|E]; [unfold addr_of; by rewrite E|]. apply addr_of_ext.
    rewrite (fi_dev _ _ _ _ Fi). apply Hdata. by destruct (fi_blocks _ _ _ _ Fi (ind i)) as (_ & ? & _); [split; [done|by left]|]. }
  assert (Hin : ∀ a, in_file s2 i a ↔ in_file s i a) by (intros a; unfold in_file; by setoid_rewrite Haddr).
  split_and!; [|..|done|done].
  - split; [..|done|done].
    + destruct F as [G1 G2 G3 G4 G5]. split; [..|done].
      * destruct G1 as (d1 & ? & ?). exists d1. split; [|done]. simpl. rewrite lookup_insert_ne; [done|]. intros [= ?]. lia.
      * intros b' d'. simpl. destruct (decide (b' = b)) as [->|]; [rewrite lookup_insert_eq; congruence|].
        rewrite lookup_insert_ne by congruence. apply G2.
      * intros y Hy. rewrite Hmap by done. by apply G3.
      * intros y Hy Hu. rewrite Hused in Hu by done. destruct (G4 y Hy Hu). split; [done|]. by rewrite Hdata.
    + destruct Fi as [F1 F2 F3 F4 F5]. split; [done|done|..].
      * intros a Ha. apply Hin in Ha. destruct (F3 a Ha) as (B1 & B2 & B3 & B4).
        split_and!; [done|done|by rewrite Hused|by rewrite Hdata].
      * intros j k. rewrite !Haddr. apply F4.
      * intros j. rewrite Haddr. apply F5.
  - intros j Hj. unfold fblk. rewrite Haddr, (fi_dev _ _ _ _ Fi). destruct (decide (addr_of s i j = 0)) as [|Hne]; [done|].
    rewrite Hdata; [done|]. apply (fi_blocks _ _ _ _ Fi). split; [done|]. right. by exists j.
Qed.

End inode_blocks.

Lemma iupdate_runs fuel (Hf : (0 < fuel)%nat) h (Hh : LkBufTable ∉ h) dev sb ip s i d : file_at dev sb ip s i → 0 ≤ i_inum i < sb_ninodes sb →
  disk s !! (dev, IBLOCK (i_inum i)) = Some d →
  runs (iupdate fuel ip) h s ()
    (set_disk (<[(dev, IBLOCK (i_inum i)) := put_dinode d (i_inum i mod IPB) (dinode_of i)]> (disk s)) s).
Proof.
  intros S Hn Hd. unfold iupdate. eapply runs_bind; [apply runs_get_inode, S|].
  rewrite (fi_dev _ _ _ _ (fa_file _ _ _ _ _ S)).
  eapply runs_bind; [apply (bread_runs fuel Hf h Hh dev _ d s []); [apply S|apply not_elem_of_nil|apply (proj1 one_busy)|exact Hd]|].
  eapply runs_bind; [apply bwrite_runs; simpl; inl|].
  eapply runs_eq; [apply (brelse_runs h Hh _ _ _ []); [done|apply not_elem_of_nil]|].
  pose proof (fa_busy _ _ _ _ _ S) as Eb. destruct s. simpl in *. by subst.
Qed.

(** ** A file is a sequence of bytes *)

(** A regular file or directory whose blocks below its size are all there. *)
Record file_wf (dev : Z) (sb : superblock) (ip : nat) (s : fsst) (i : inode) : Prop := {
  wf_at : file_at dev sb ip s i;
  wf_inode : inode_ok dev sb s i;
  wf_type : i_type i ≠ T_DEV;
  wf_size : 0 ≤ i_size i ≤ MAXBYTES;
  wf_dense : ∀ x, 0 ≤ x < i_size i → addr_of s i (x / BSIZE) ≠ 0
}.
Definition contents (s : fsst) (i : inode) : list Z := fbytes s i 0 (i_size i).

Lemma get8_take l n x : 0 ≤ x < n → get8 (take (Z.to_nat n) l) x = get8 l x.
Proof. intros. unfold get8. by rewrite !list_lookup_total_alt, lookup_take_lt by lia. Qed.

Lemma MAXBYTES_u32 : MAXBYTES < 2 ^ 32.
Proof. done. Qed.

Lemma contents_length s i : length (contents s i) = Z.to_nat (i_size i).
Proof. apply fbytes_length. Qed.

Lemma slice_contents s i off n : 0 ≤ off → 0 ≤ n → off + n ≤ i_size i →
  slice (contents s i) off n = fbytes s i off n.
Proof.
  intros Ho Hn Hs. assert (Hl : Z.of_nat (length (contents s i)) = i_size i) by (rewrite contents_length; lia).
  apply get8_ext; [rewrite slice_length, fbytes_length; lia|]. rewrite slice_length by lia. intros x Hx.
  rewrite get8_slice by lia. unfold contents. by rewrite !get8_fbytes by lia.
Qed.

Lemma file_at_set_size dev sb ip s i v : file_at dev sb ip s i →
  file_at dev sb ip (set_icache (<[ip := set_size v i]> (icache s)) s) (set_size v i).
Proof.
  intros [[] [] Hi Hb]. split; [by split|by split| |done].
  simpl. apply list_lookup_insert_eq. by eapply lookup_lt_Some.
Qed.

(** [n] bytes written at [off] make the file at least [off + n] long. *)
Definition new_size (i : inode) (off n : Z) : Z := if decide (n > 0 ∧ off + n > i_size i) then off + n else i_size i.

Lemma contents_updated s i s' i' off l :
  0 ≤ i_size i ≤ MAXBYTES → 0 ≤ off ≤ i_size i → off + Z.of_nat (length l) ≤ MAXBYTES →
  i_size i' = new_size i off (Z.of_nat (length l)) →
  (∀ x, 0 ≤ x < MAXBYTES →
     fbyte s' i' x = if decide (off ≤ x < off + Z.of_nat (length l)) then get8 l (x - off) else fbyte s i x) →
  contents s' i' = splice (contents s i) off l.
Proof.
  intros Hs Ho Hmax Hsz Hb. unfold new_size in Hsz.
  assert (Hlen : length (contents s i) = Z.to_nat (i_size i)) by apply contents_length.
  assert (Hl : length (contents s' i') = length (splice (contents s i) off l)).
  { unfold splice. rewrite !length_app, length_take, length_drop, Hlen, contents_length, Hsz. case_decide; lia. }
  apply get8_ext; [done|]. rewrite contents_length. intros x Hx. unfold contents at 1. rewrite get8_fbytes by lia.
  assert (Hx' : x < MAXBYTES ∧ (off + Z.of_nat (length l) ≤ x → x < i_size i)) by (rewrite Hsz in Hx; case_decide; lia).
  rewrite Z.add_0_l, Hb, get8_splice by lia. destruct (decide (off ≤ x < off + Z.of_nat (length l))); [done|].
  unfold contents. rewrite get8_fbytes by lia. by rewrite Z.add_0_l.
Qed.

Section correct.
Context (fuel : nat) (Hf : (0 < fuel)%nat) (h : list lock_id) (Hh : LkBufTable ∉ h).
Context (dev : Z) (sb : superblock) (ip : nat).

Lemma readi_runs dr s i off n : file_wf dev sb ip s i → 0 ≤ off < 2 ^ 32 → 0 ≤ n < 2 ^ 32 →
  runs (readi fuel dr ip off n) h s
    (if decide (off > i_size i ∨ u32 (off + n) < off) then None
     else Some (slice (contents s i) off (Z.min n (i_size i - off)))) s.
Proof.
  intros [A I T Sz D] Ho Hn. unfold readi. eapply runs_bind; [apply runs_get_inode, A|].
  rewrite decide_False by done.
  destruct (decide (off > i_size i ∨ u32 (off + n) < off)) as [X|X]; [apply runs_ret|].
  assert (Hw : u32 (off + n) = off + n).
  { destruct (decide (off + n < 2 ^ 32)); [by apply u32_small; lia|]. exfalso. apply X. right. unfold u32.
    rewrite <- (Z.mod_unique (off + n) (2 ^ 32) 1 (off + n - 2 ^ 32)); lia. }
  rewrite Hw. cbv zeta. pose proof MAXBYTES_u32.
  set (n' := if decide (off + n > i_size i) then i_size i - off else n).
  assert (En : n' = Z.min n (i_size i - off)) by (unfold n'; case_decide; lia). rewrite <- En.
  eapply runs_bind; [|apply runs_ret].
  replace (slice (contents s i) off n') with ([] ++ fbytes s i off n') by (symmetry; apply slice_contents; lia).
  eapply readi_loop_runs; try done; try lia. intros x Hx. apply D. lia.
Qed.

(** The part of [writei] after its checks. *)
Definition writei_tail (src : list Z) (off n : Z) : M fsst Z :=
  off ← writei_loop fuel (S (Z.to_nat n)) ip src off n;
  i ← get_inode ip;
  (if decide (n > 0 ∧ off > i_size i) then at_inode ip (set_size off);; iupdate fuel ip else mret ());;
  mret n.

Lemma writei_eq dw s i src off n w : icache s !! ip = Some i → i_type i ≠ T_DEV → 0 ≤ off → 0 ≤ n → off + n ≤ MAXBYTES →
  writei fuel dw ip src off n (KCtx h w) s = writei_tail src off n (KCtx h w) s.
Proof.
  intros Hi T Ho Hn Hmax. pose proof MAXBYTES_u32. unfold writei, get_inode.
  rewrite (bind_Ok _ _ _ _ i (KCtx h w) s) by (rewrite kget_bind, Hi; done).
  rewrite decide_False by done. rewrite u32_small by lia. rewrite decide_False by lia. cbv zeta.
  rewrite decide_False by (unfold MAXBYTES in *; lia). done.
Qed.

(** Recording the new size. *)
Lemma set_size_runs s i v : file_at dev sb ip s i → inode_ok dev sb s i →
  ∃ s', runs (at_inode ip (set_size v);; iupdate fuel ip) h s () s' ∧ file_at dev sb ip s' (set_size v i) ∧
    inode_ok dev sb s' (set_size v i) ∧ (∀ x, 0 ≤ x < MAXBYTES → fbyte s' (set_size v i) x = fbyte s i x) ∧
    (∀ j, addr_of s' (set_size v i) j = addr_of s i j) ∧
    (∀ b, data_block sb b → disk s' !! (dev, b) = disk s !! (dev, b)).
Proof.
  intros A [I1 [d Hd]]. pose proof (file_at_set_size dev sb ip s i v A) as A1.
  set (s1 := set_icache (<[ip := set_size v i]> (icache s)) s) in *.
  assert (Hd1 : disk s1 !! (dev, IBLOCK (i_inum (set_size v i))) = Some d) by done.
  pose proof (iupdate_runs fuel Hf h Hh dev sb ip s1 _ d A1 I1 Hd1) as R.
  assert (Hb : block_ok d) by (by eapply (fo_blocks _ _ _ (fa_fs _ _ _ _ _ A))).
  pose proof (inode_block sb i I1) as Hib.
  destruct (file_at_meta_write dev sb ip s1 _ _ _ A1 Hib (put_dinode_ok d (i_inum i mod IPB) (dinode_of (set_size v i)) Hb))
    as (A2 & B2 & C2 & _).
  eexists. split; [eapply runs_bind; [apply (runs_at_inode ip (set_size v) i), A|exact R]|].
  split; [exact A2|]. split; [split; [done|]; simpl; rewrite lookup_insert_eq; by eexists|]. split_and!.
  - intros x Hx. unfold fbyte. rewrite B2; [done|]. by apply (byte_block x Hx).
  - exact C2.
  - intros b Hdb. simpl. apply lookup_insert_ne. intros [= E]. destruct (fo_range _ _ _ (fa_fs _ _ _ _ _ A)).
    unfold data_block in Hdb. assert (0 ≤ sb_size sb / BPB) by (apply Z.div_pos; [lia|done]). lia.
Qed.

(** What the inode cache keeps about an inode. *)
Definition same_entry (i i' : inode) : Prop :=
  i_busy i' = i_busy i ∧ i_ref i' = i_ref i ∧ i_valid i' = i_valid i ∧ i_nlink i' = i_nlink i.

Lemma writei_runs dw s i src off n : file_wf dev sb ip s i → 0 ≤ off ≤ i_size i → off + n ≤ MAXBYTES →
  Z.of_nat (length src) = n → Forall byte src →
  (∃ s' i', runs (writei fuel dw ip src off n) h s n s' ∧ file_wf dev sb ip s' i' ∧
     contents s' i' = splice (contents s i) off src ∧ i_inum i' = i_inum i ∧ i_type i' = i_type i ∧
     (∀ b, scanned sb b → used dev sb s b = true → data_block sb b → ¬ in_file s i b →
       disk s' !! (dev, b) = disk s !! (dev, b)) ∧
     i_size i' = new_size i off n ∧
     (∀ x, 0 ≤ x < MAXBYTES → fbyte s' i' x = if decide (off ≤ x < off + n) then get8 src (x - off) else fbyte s i x) ∧
     same_entry i i') ∨
  panics (writei fuel dw ip src off n) h s "balloc: out of blocks".
Proof.
  intros [A I T Sz D] Ho Hmax Hsrc Hbytes.
  pose proof (λ w, writei_eq dw s i src off n w (fa_inode _ _ _ _ _ A) T ltac:(lia) ltac:(lia) Hmax) as Eq.
  destruct (writei_loop_spec fuel Hf h Hh dev sb ip (S (Z.to_nat n)) s i src off n A) as [(s1 & i1 & U & R)|P];
    try lia; [done|..].
  2: { right. intros w. rewrite Eq. by apply panics_bind. }
  left. rewrite take_ge in U by lia. destruct U as [A1 U2 U3 U4 U5 U6 U7 U8]. rewrite Hsrc in U2, U4.
  assert (I1 : inode_ok dev sb s1 i1).
  { rewrite U7. destruct I as [I1 I2]. split; [done|]. simpl. rewrite U5; [done|]. by apply inode_block. }
  assert (Eqs : i_size i1 = i_size i ∧ i_inum i1 = i_inum i ∧ i_type i1 = i_type i ∧ same_entry i i1) by (by rewrite U7).
  destruct Eqs as (Es & En & Et & Ee). pose proof (runs_get_inode ip i1 h s1 (fa_inode _ _ _ _ _ A1)) as Rg.
  assert (Dense : ∀ x, 0 ≤ x < new_size i off n → addr_of s1 i1 (x / BSIZE) ≠ 0).
  { intros x Hx. destruct (decide (off ≤ x < off + n)) as [|X]; [by apply U4|]. unfold new_size in Hx.
    assert (Hx' : 0 ≤ x < i_size i) by (case_decide; lia). specialize (D x Hx'). rewrite U3; [done| |done].
    apply (byte_block x). lia. }
  destruct (decide (n > 0 ∧ off + n > i_size i)) as [G|G].
  - destruct (set_size_runs s1 i1 (off + n) A1 I1) as (s2 & R2 & A2 & I2 & B2 & C2 & D2).
    exists s2, (set_size (off + n) i1).
    assert (Hns : new_size i off n = off + n) by (unfold new_size; by rewrite decide_True). rewrite Hns in Dense.
    split_and!; [|split; try done; [simpl; congruence|simpl; lia|]|..|done|done| |by rewrite Hns| |done].
    + intros w. rewrite Eq. revert w. eapply runs_bind; [exact R|]. eapply runs_bind; [exact Rg|].
      rewrite Es, decide_True by done. eapply runs_bind; [exact R2|apply runs_ret].
    + intros x Hx. rewrite C2. by apply Dense.
    + apply contents_updated; try (done || lia); [by rewrite Hsrc, Hns|]. intros x Hx. rewrite B2, U2, Hsrc by done. done.
    + intros b B1 B2' B3 B4. rewrite D2 by done. by apply U6.
    + intros x Hx. by rewrite B2, U2.
  - exists s1, i1. assert (Hns : new_size i off n = i_size i) by (unfold new_size; by rewrite decide_False). rewrite Hns in Dense.
    split_and!; [|split; try done; [congruence|lia|by rewrite Es]|..|done|done| |congruence| |done].
    + intros w. rewrite Eq. revert w. eapply runs_bind; [exact R|]. eapply runs_bind; [exact Rg|].
      rewrite Es, decide_False by done. eapply runs_bind; [apply runs_ret|apply runs_ret].
    + apply contents_updated; try (done || lia); [by rewrite Hsrc, Hns|]. intros x Hx. by rewrite U2, Hsrc.
    + intros b B1 B2' B3 B4. by apply U6.
    + intros x Hx. by rewrite U2.
Qed.
End correct.

(** C8 [readi(ip, dst, off, n)] reads the file as a sequence of bytes: it returns -1 when
    [off] is past the end or [off + n] wraps, and otherwise the [n] bytes from
    [off] on, or those up to the end of the file if there are fewer; across any
    number of direct and indirect blocks, without changing anything. *)
Theorem readi_contents fuel h dev sb ip dr s i off n :
  (0 < fuel)%nat → LkBufTable ∉ h → file_wf dev sb ip s i → 0 ≤ off < 2 ^ 32 → 0 ≤ n < 2 ^ 32 →
  runs (readi fuel dr ip off n) h s
    (if decide (off > i_size i ∨ u32 (off + n) < off) then None
     else Some (slice (contents s i) off (Z.min n (i_size i - off)))) s.
Proof. intros Hf Hh. by apply readi_runs. Qed.

(** C7 [writei(ip, src, off, n)] at an offset inside the file, up to the largest file
    size, replaces the bytes from [off] on by [src], extending the file when they
    reach past its end; blocks are allocated as needed, the file stays well
    formed, and no block of another file changes.  It returns [n], or panics for
    lack of free blocks. *)
Theorem writei_contents fuel h dev sb ip dw s i src off n :
  (0 < fuel)%nat → LkBufTable ∉ h → file_wf dev sb ip s i →
  0 ≤ off ≤ i_size i → off + n ≤ MAXBYTES → Z.of_nat (length src) = n → Forall byte src →
  (∃ s' i', runs (writei fuel dw ip src off n) h s n s' ∧ file_wf dev sb ip s' i' ∧
     contents s' i' = splice (contents s i) off src ∧ i_inum i' = i_inum i ∧ i_type i' = i_type i ∧
     ∀ b, scanned sb b → used dev sb s b = true → data_block sb b → ¬ in_file s i b →
       disk s' !! (dev, b) = disk s !! (dev, b)) ∨
  panics (writei fuel dw ip src off n) h s "balloc: out of blocks".
Proof.
  intros Hf Hh W H1 H2 H3 H4. destruct (writei_runs fuel Hf h Hh dev sb ip dw s i src off n W H1 H2 H3 H4)
    as [(s' & i' & R & W' & C & In & It & O & _)|P]; [left|by right]. by exists s', i'.
Qed.
