(* ===== verification/FsExamples.v ===== *)
(** * Small file systems

    Concrete disks on which the theorems about the file system are evaluated, and
    behaviours of the code that the invariants of the other files rule out. *)
From S2P Require Import Prelude Kernel ProcData FsDisk Fs FsAlloc FsFile.
Local Open Scope Z_scope.

Definition quiet : list lock_id := [].
Definition no_dev_read (_ : Z) : option (nat → Z → M fsst (option (list Z))) := None.
Definition no_dev_write (_ : Z) : option (nat → list Z → M fsst Z) := None.

(** 100 blocks, 8 inodes: the inodes are in blocks 2 and 3, the bitmap in block 4. *)
Definition small_sb : superblock := Superblock 100 90 8.
Definition small_sb_block : block := put_words zero_block 0 [100; 90; 8].
(** Blocks 6 and 7 are free. *)
Definition small_bitmap : block := 63 :: replicate 511 255.
(** Inode 1 is a file of three bytes in block 5. *)
Definition small_inode : inode := Inode 1 1 1 true true T_FILE 0 0 1 3 (5 :: replicate 12 0).
Definition small_inodes : block := put_dinode zero_block 1 (dinode_of small_inode).
Definition small_data : block := [97; 98; 99] ++ replicate 509 0.
Definition small_fs : fsst :=
  FsSt (list_to_map [((1, 1), small_sb_block); ((1, 2), small_inodes); ((1, 4), small_bitmap);
                     ((1, 5), small_data); ((1, 6), zero_block); ((1, 7), zero_block)])
    [] [small_inode] None.

Lemma block_ok_dec d : bool_decide (length d = Z.to_nat BSIZE) && bool_decide (Forall byte d) = true → block_ok d.
Proof. intros [H1 H2]%andb_true_iff. split; by eapply bool_decide_eq_true. Qed.

Lemma small_blocks b d : disk small_fs !! (1, b) = Some d → block_ok d.
Proof.
  intros H. apply elem_of_list_to_map_2 in H. apply block_ok_dec.
  repeat (apply elem_of_cons in H as [E|H]; [injection E as _ ->; by vm_compute|]). by apply elem_of_nil in H.
Qed.

Lemma small_free b : scanned small_sb b → used 1 small_sb small_fs b = false → b = 6 ∨ b = 7.
Proof.
  intros [H1 H2] H3. unfold BPB, BSIZE in *. change (512 * 8) with 4096 in H2. simpl in H2.
  assert (Hb : b < 4096) by (pose proof (Z.div_mod b 4096 ltac:(lia)); pose proof (Z.mod_pos_bound b 4096 ltac:(lia)); lia).
  assert (G : forallb (λ n, bit small_bitmap (Z.of_nat n) || (n =? 6)%nat || (n =? 7)%nat) (seq 0 4096) = true) by (by vm_compute).
  rewrite forallb_forall in G. specialize (G (Z.to_nat b) ltac:(apply in_seq; lia)). rewrite Z2Nat.id in G by done.
  unfold used, bitmap_of, BBLOCK, IPB, BPB, BSIZE in H3. simpl sb_ninodes in H3.
  change (512 * 8) with 4096 in H3. rewrite Z.div_small, Z.mod_small in H3 by lia.
  change (disk small_fs !! (1, 0 + 8 / (512 / 64) + 3)) with (Some small_bitmap) in H3. cbv iota in H3.
  rewrite H3 in G. simpl in G. apply orb_true_iff in G as [G|G]; apply Nat.eqb_eq in G; lia.
Qed.

Lemma small_fs_ok : fs_ok 1 small_fs small_sb.
Proof.
  split.
  - exists small_sb_block. split; by vm_compute.
  - apply small_blocks.
  - intros b [H1 H2]. unfold bitmap_of, BBLOCK, BPB, BSIZE in *. change (512 * 8) with 4096 in *. simpl in H2.
    rewrite Z.div_small by (pose proof (Z.div_mod b 4096 ltac:(lia)); pose proof (Z.mod_pos_bound b 4096 ltac:(lia)); lia). by eexists.
  - intros b Hs Hu. destruct (small_free b Hs Hu) as [->| ->]; by vm_compute.
  - by vm_compute.
Qed.

Lemma small_addr j : 0 ≤ j < MAXFILE → addr_of small_fs small_inode j = if decide (j = 0) then 5 else 0.
Proof.
  intros Hj. unfold addr_of, NDIRECT. destruct (decide (j < 12)) as [D|D].
  - assert (E : ∃ n, j = Z.of_nat n ∧ (n < 12)%nat) by (exists (Z.to_nat j); lia). destruct E as (n & -> & Hn).
    rewrite Nat2Z.id. do 12 (destruct n as [|n]; [done|]). lia.
  - rewrite decide_True by done. by rewrite decide_False by lia.
Qed.

Lemma small_file_wf : file_wf 1 small_sb 0 small_fs small_inode.
Proof.
  assert (Hin : ∀ a, in_file small_fs small_inode a → a = 5).
  { intros a [Ha [Hi|(j & Hj & E)]]; [done|]. rewrite small_addr in E by done. case_decide; congruence. }
  split.
  - split; [apply small_fs_ok| |done|done]. split; [done|done|..].
    + intros a ->%Hin. split_and!; try (by vm_compute). by eexists.
    + intros j k Hj Hk. rewrite !small_addr by done. repeat case_decide; congruence.
    + intros j Hj. rewrite small_addr by done. case_decide; done.
  - split; [by vm_compute|by eexists].
  - done.
  - by vm_compute.
  - intros x Hx. simpl in Hx. rewrite Z.div_small by (unfold BSIZE; lia). by vm_compute.
Qed.

(** ** Behaviours outside the invariants *)

(** A disk of 100 blocks, all in use; the bits behind block 99 are clear, as mkfs
    leaves them. *)
Definition full_fs : fsst :=
  FsSt (list_to_map [((1, 1), small_sb_block); ((1, 4), replicate 12 255 ++ [15] ++ replicate 499 0)]) [] [] None.

(** [balloc] does not stop at the end of the disk: its inner loop looks at all 4096
    bits of a bitmap block.  On a full disk of 100 blocks it does not report that
    it is out of blocks but hands out block 100. *)
Theorem balloc_beyond_size : ∃ kc s', balloc 1 1 (KCtx [] []) full_fs = Ok 100 kc s' ∧ sb_size small_sb = 100.
Proof. eexists _, _. split; [|done]. vm_compute. reflexivity. Qed.

(** Inode 1 has one block, number 7, entered in the indirect block 6. *)
Definition ind_inode : inode := Inode 1 1 1 true true T_FILE 0 0 0 7168 (replicate 12 0 ++ [6]).
Definition ind_fs : fsst :=
  FsSt (list_to_map [((1, 1), small_sb_block); ((1, 2), small_inodes); ((1, 4), replicate 512 255);
                     ((1, 6), put32 zero_block 0 7); ((1, 7), small_data)])
    [] [ind_inode] None.

(** [itrunc] frees the blocks entered in the indirect block but not the indirect
    block itself, and then forgets it: the block stays marked in use and belongs to
    no file any more.  Every file with an indirect block leaks one block when it
    is removed. *)
Theorem itrunc_leaks_indirect :
  ∃ kc s' i', itrunc 1 0 (KCtx [] []) ind_fs = Ok () kc s' ∧ icache s' = [i'] ∧ i_addrs i' = replicate 13 0 ∧
    used 1 small_sb s' 7 = false ∧ used 1 small_sb s' 6 = true.
Proof.
  assert (C : match itrunc 1 0 (KCtx [] []) ind_fs with
              | Ok _ kc s' => match icache s' with
                  | [i'] => i_addrs i' = replicate 13 0 ∧ used 1 small_sb s' 7 = false ∧ used 1 small_sb s' 6 = true
                  | _ => False end
              | _ => False end) by (by vm_compute).
  destruct (itrunc 1 0 (KCtx [] []) ind_fs) as [[] kc s'| | | |]; try done.
  destruct (icache s') as [|i' [|]] eqn:E; try done. by exists kc, s', i'.
Qed.

(** ** Witnesses *)
Lemma balloc_correct_witness : ∃ x s', runs (balloc 1 1) quiet small_fs x s' ∧ used 1 small_sb small_fs x = false.
Proof.
  destruct (balloc_correct 1 quiet 1 small_sb small_fs) as [(x & s' & R & _ & U & _)|[_ Full]].
  - lia.
  - apply not_elem_of_nil.
  - apply small_fs_ok.
  - done.
  - exists x, s'. split; [exact R|exact U].
  - assert (X : used 1 small_sb small_fs 6 = true) by (apply Full; by vm_compute). vm_compute in X. discriminate X.
Defined.

Lemma bfree_correct_witness : ∃ s', runs (bfree 1 1 5) quiet small_fs () s' ∧ disk s' !! (1, 5) = Some zero_block.
Proof.
  assert (U : used 1 small_sb small_fs 5 = true) by (by vm_compute).
  pose proof (bfree_correct 1 quiet 1 small_sb small_fs 5) as B. rewrite U in B.
  destruct B as (s' & R & _ & Z0 & _).
  - lia.
  - apply not_elem_of_nil.
  - apply small_fs_ok.
  - done.
  - by vm_compute.
  - by vm_compute.
  - by eexists.
  - exists s'. split; [exact R|exact Z0].
Defined.

Lemma readi_contents_witness : runs (readi 1 no_dev_read 0 1 10) quiet small_fs (Some [98; 99]) small_fs.
Proof.
  pose proof (readi_contents 1 quiet 1 small_sb 0 no_dev_read small_fs small_inode 1 10) as R.
  assert (E : (if decide (1 > i_size small_inode ∨ u32 (1 + 10) < 1) then None
     else Some (slice (contents small_fs small_inode) 1 (Z.min 10 (i_size small_inode - 1)))) = Some [98; 99])
    by (by vm_compute).
  rewrite E in R. apply R; [lia|apply not_elem_of_nil|apply small_file_wf|lia|lia].
Defined.

Lemma writei_contents_witness : ∃ s' i', runs (writei 1 no_dev_write 0 [120; 121; 122] 1 3) quiet small_fs 3 s' ∧
  contents s' i' = [97; 120; 121; 122].
Proof.
  destruct (writei_contents 1 quiet 1 small_sb 0 no_dev_write small_fs small_inode [120; 121; 122] 1 3)
    as [(s' & i' & R & _ & E & _)|P].
  - lia.
  - apply not_elem_of_nil.
  - apply small_file_wf.
  - simpl. lia.
  - by vm_compute.
  - done.
  - repeat constructor; lia.
  - exists s', i'. split; [exact R|]. rewrite E. by vm_compute.
  - destruct (P []) as [s' E]. vm_compute in E. discriminate E.
Defined.
