(* ===== verification/FsDir.v ===== *)
(** * Directories: theorems on Fs

    A directory is a file of 16-byte entries, each the number of an inode and a name
    of up to 14 bytes; an entry with number 0 is free.  [entries] is the list of the
    entries, and [find_entry] the first one in use that has a given name.
    [dirlookup] and [dirlink] are shown to search and to extend that list. *)
From S2P Require Import Prelude Kernel ProcData FsDisk Fs FsAlloc FsFile FsExamples.
Local Open Scope Z_scope.

(** ** Names *)

(** The bytes of a name that count: up to a zero, and at most [n]. *)
Fixpoint cut (n : nat) (l : list Z) : list Z :=
  match n, l with
  | S n, c :: l => if decide (c = 0) then [] else c :: cut n l
  | _, _ => []
  end.

Lemma ncmp_cut : ∀ n a b, ncmp n a b = 0 ↔ cut n a = cut n b.
Proof.
  induction n as [|n IH]; intros a b; [done|]. cbn [ncmp]. destruct a as [|x a], b as [|y b]; cbn [head tail default from_option id cut].
  - done.
  - rewrite decide_False by lia. case_decide; [split; [done|lia]|split; [lia|done]].
  - case_decide as E; [lia|]. case_decide; [split; [done|lia]|split; [lia|done]].
  - destruct (decide (x = 0)) as [->|Hx].
    + rewrite decide_False by lia. case_decide; [split; [done|lia]|split; [lia|done]].
    + destruct (decide (x ≠ 0 ∧ x = y)) as [[_ ->]|E].
      * rewrite (decide_False (P := y = 0)) by done. rewrite IH. split; [by intros ->|by intros [= ->]].
      * case_decide; [split; [lia|done]|]. split; [lia|]. intros [= -> _]. tauto.
Qed.

Lemma cut_name_field : ∀ n name, cut n (name_field n name) = cut n name.
Proof.
  induction n as [|n IH]; intros [|c name]; cbn [name_field cut replicate]; try done.
  case_decide as E; cbn [cut replicate]; [by rewrite decide_True|]. by rewrite decide_False, IH.
Qed.
Lemma name_field_length : ∀ n name, length (name_field n name) = n.
Proof.
  induction n as [|n IH]; intros [|c name]; cbn [name_field]; try done; [by rewrite length_replicate|].
  case_decide; [by rewrite length_replicate|]. simpl. by rewrite IH.
Qed.
Lemma name_field_bytes : ∀ n name, Forall byte name → Forall byte (name_field n name).
Proof.
  assert (Z : byte 0) by (unfold byte; lia).
  induction n as [|n IH]; intros [|c name] H; cbn [name_field]; [constructor..|by apply Forall_replicate|].
  apply Forall_cons in H as [Hc H]. case_decide; [by apply Forall_replicate|]. constructor; [done|by apply IH].
Qed.

(** ** The entries of a directory *)
Definition dinum (s : fsst) (i : inode) (k : Z) : Z := fbyte s i (16 * k) + 2 ^ 8 * fbyte s i (16 * k + 1).
Definition dname (s : fsst) (i : inode) (k : Z) : list Z := fbytes s i (16 * k + 2) DIRSIZ.
Definition entry (s : fsst) (i : inode) (k : nat) : Z * list Z := (dinum s i (Z.of_nat k), dname s i (Z.of_nat k)).
Definition entries (s : fsst) (i : inode) : list (Z * list Z) := entry s i <$> seq 0 (Z.to_nat (i_size i / 16)).

Definition matches (name : list Z) (e : Z * list Z) : Prop := e.1 ≠ 0 ∧ namecmp name e.2 = 0.
#[export] Instance matches_dec name e : Decision (matches name e).
Proof. unfold matches. apply _. Defined.
Fixpoint find_entry (name : list Z) (es : list (Z * list Z)) (k : nat) : option (nat * Z) :=
  match es with
  | [] => None
  | e :: es => if decide (matches name e) then Some (k, e.1) else find_entry name es (S k)
  end.

Lemma find_entry_first name : ∀ es k n inum, find_entry name es k = Some (n, inum) ↔
  (k ≤ n)%nat ∧ (∃ e, es !! (n - k)%nat = Some e ∧ matches name e ∧ e.1 = inum) ∧
  ∀ m e, (k ≤ m < n)%nat → es !! (m - k)%nat = Some e → ¬ matches name e.
Proof.
  induction es as [|e es IH]; intros k n inum; cbn [find_entry].
  { split; [done|]. by intros (_ & (e & H & _) & _). }
  case_decide as M.
  - split.
    + intros [= <- <-]. rewrite Nat.sub_diag. split; [lia|]. split; [by exists e|]. lia.
    + intros (Hk & (e' & He & M' & <-) & Hno). destruct (decide (n = k)) as [->|Hne].
      * rewrite Nat.sub_diag in He. simpl in He. by simplify_eq.
      * destruct (Hno k e); [lia|by rewrite Nat.sub_diag|done].
  - rewrite IH. split; intros (Hk & (e' & He & M' & <-) & Hno).
    + split; [lia|]. split.
      * exists e'. replace (n - k)%nat with (S (n - S k)) by lia. done.
      * intros m e2 Hm He2. destruct (decide (m = k)) as [->|]; [rewrite Nat.sub_diag in He2; simpl in He2; by simplify_eq|].
        apply (Hno m); [lia|]. replace (m - k)%nat with (S (m - S k)) in He2 by lia. done.
    + destruct (decide (n = k)) as [->|Hne]; [rewrite Nat.sub_diag in He; simpl in He; by simplify_eq|].
      split; [lia|]. split.
      * exists e'. replace (n - k)%nat with (S (n - S k)) in He by lia. done.
      * intros m e2 Hm He2. apply (Hno m); [lia|]. replace (m - k)%nat with (S (m - S k)) by lia. done.
Qed.
Lemma find_entry_None name : ∀ es k, find_entry name es k = None ↔ Forall (λ e, ¬ matches name e) es.
Proof.
  induction es as [|e es IH]; intros k; cbn [find_entry]; [done|]. rewrite Forall_cons. case_decide; [split; [done|tauto]|]. rewrite IH. tauto.
Qed.

(** A directory whose bytes past the end, which [dirlookup] looks at too, are zero. *)
Record dir_ok (dev : Z) (sb : superblock) (dp : nat) (s : fsst) (i : inode) : Prop := {
  do_wf : file_wf dev sb dp s i;
  do_type : i_type i = T_DIR;
  do_size : i_size i mod 16 = 0;
  do_tail : ∀ x, i_size i ≤ x < MAXBYTES → fbyte s i x = 0
}.

Section dir.
Context (dev : Z) (sb : superblock) (dp : nat) (s : fsst) (i : inode) (O : dir_ok dev sb dp s i).

Lemma dir_size : 0 ≤ i_size i ≤ MAXBYTES ∧ i_size i = 16 * (i_size i / 16).
Proof.
  destruct (wf_size _ _ _ _ _ (do_wf _ _ _ _ _ O)). pose proof (do_size _ _ _ _ _ O). pose proof (Z.div_mod (i_size i) 16 ltac:(lia)). lia.
Qed.
Lemma entries_lookup (k : nat) : 16 * Z.of_nat k < i_size i → entries s i !! k = Some (entry s i k).
Proof. intros Hk. unfold entries. rewrite list_lookup_fmap, lookup_seq_lt; [done|]. pose proof dir_size. lia. Qed.
Lemma entries_length : length (entries s i) = Z.to_nat (i_size i / 16).
Proof. unfold entries. by rewrite length_fmap, length_seq. Qed.

(** An entry past the end is free. *)
Lemma tail_free name (k : nat) : i_size i ≤ 16 * Z.of_nat k → 16 * Z.of_nat k + 16 ≤ MAXBYTES → ¬ matches name (entry s i k).
Proof.
  intros H1 H2 [M _]. apply M. simpl. unfold dinum. rewrite !(do_tail _ _ _ _ _ O) by lia. done.
Qed.

(** An entry in its block. *)
Lemma entry_block (j m : Z) : 0 ≤ j < MAXFILE → 0 ≤ m < 32 →
  de_inum (fblk s i j) (16 * m) = dinum s i (32 * j + m) ∧ de_name (fblk s i j) (16 * m) = dname s i (32 * j + m).
Proof.
  intros Hj Hm. pose proof (wf_at _ _ _ _ _ (do_wf _ _ _ _ _ O)) as A. unfold MAXBYTES.
  assert (E : ∀ o, 0 ≤ o < 512 → (512 * j + o) / BSIZE = j ∧ (512 * j + o) mod BSIZE = o).
  { intros o Ho. unfold BSIZE. rewrite Z.mul_comm, Z.add_comm, Z.div_add, Z.mod_add by done. rewrite Z.div_small, Z.mod_small by lia. lia. }
  split.
  - unfold de_inum, get16, dinum, fbyte. replace (16 * (32 * j + m)) with (512 * j + 16 * m) by lia.
    replace (512 * j + 16 * m + 1) with (512 * j + (16 * m + 1)) by lia.
    destruct (E (16 * m)) as [-> ->]; [lia|]. destruct (E (16 * m + 1)) as [-> ->]; [lia|]. done.
  - unfold de_name, dname. replace (16 * (32 * j + m) + 2) with (512 * j + (16 * m + 2)) by lia.
    destruct (E (16 * m + 2)) as [E1 E2]; [lia|]. rewrite <- E2 at 1. rewrite <- E1 at 1.
    apply (slice_fbytes dev sb dp s i A); [unfold MAXBYTES; change MAXFILE with 140 in *; unfold BSIZE; lia|done|rewrite E2; unfold DIRSIZ, BSIZE; lia].
Qed.

Lemma dir_scan_spec name j : 0 ≤ j < MAXFILE → ∀ n m, 0 ≤ m → m + Z.of_nat n = 32 →
  match dir_scan (fblk s i j) name n (16 * m) with
  | Some (o, inum) => ∃ m', m ≤ m' < 32 ∧ o = 16 * m' ∧ matches name (entry s i (Z.to_nat (32 * j + m'))) ∧ inum = dinum s i (32 * j + m') ∧
      ∀ m2, m ≤ m2 < m' → ¬ matches name (entry s i (Z.to_nat (32 * j + m2)))
  | None => ∀ m2, m ≤ m2 < 32 → ¬ matches name (entry s i (Z.to_nat (32 * j + m2)))
  end.
Proof.
  intros Hj. induction n as [|n IH]; intros m Hm Hmn; cbn [dir_scan]; [intros m2 Hm2; lia|].
  destruct (entry_block j m Hj ltac:(lia)) as [E1 E2]. rewrite E1, E2.
  assert (Eq : (dinum s i (32 * j + m) ≠ 0 ∧ namecmp name (dname s i (32 * j + m)) = 0) ↔ matches name (entry s i (Z.to_nat (32 * j + m)))).
  { unfold matches, entry. simpl. by rewrite Z2Nat.id by lia. }
  case_decide as D.
  - exists m. split_and!; [lia|lia|done|by apply Eq|done|lia].
  - replace (16 * m + 16) with (16 * (m + 1)) by lia. specialize (IH (m + 1) ltac:(lia) ltac:(lia)).
    assert (Hno : ∀ m2, m2 = m → ¬ matches name (entry s i (Z.to_nat (32 * j + m2)))) by (intros ? ->; tauto).
    destruct (dir_scan _ name n _) as [[o inum]|].
    + destruct IH as (m' & H1 & H2 & H3 & H4 & H5). exists m'. split_and!; [lia|lia|done|done|done|]. intros m2 Hm2.
      destruct (decide (m2 = m)); [by apply Hno|apply H5; lia].
    + intros m2 Hm2. destruct (decide (m2 = m)); [by apply Hno|apply IH; lia].
Qed.
End dir.

(** ** iget *)

(** [s'] is [s] with one more reference to inode [inum] of [dev], in entry [ip] of the
    cache. *)
Definition got_inode (dev inum : Z) (s s' : fsst) (ip : nat) : Prop :=
  ∃ old new, icache s !! ip = Some old ∧ s' = set_icache (<[ip := new]> (icache s)) s ∧
    i_dev new = dev ∧ i_inum new = inum ∧
    ((i_ref old > 0 ∧ i_dev old = dev ∧ i_inum old = inum ∧ new = set_ref (i_ref old + 1) old) ∨
     (i_ref old = 0 ∧ i_ref new = 1 ∧ i_valid new = false ∧ i_busy new = false)).

(** All entries of the cache are in use, none for this inode. *)
Definition cache_full (dev inum : Z) (s : fsst) : Prop :=
  Forall (λ j, i_ref j ≠ 0 ∧ ¬ (i_ref j > 0 ∧ i_dev j = dev ∧ i_inum j = inum)) (icache s).

Lemma iget_scan_spec dev inum : ∀ l n e,
  match iget_scan dev inum l n e with
  | inl ip => ∃ j, l !! (ip - n)%nat = Some j ∧ (n ≤ ip)%nat ∧ i_ref j > 0 ∧ i_dev j = dev ∧ i_inum j = inum
  | inr (Some ip) => e = Some ip ∨ (e = None ∧ (n ≤ ip)%nat ∧ ∃ j, l !! (ip - n)%nat = Some j ∧ i_ref j = 0)
  | inr None => e = None ∧ Forall (λ j, i_ref j ≠ 0 ∧ ¬ (i_ref j > 0 ∧ i_dev j = dev ∧ i_inum j = inum)) l
  end.
Proof.
  induction l as [|j l IH]; intros n e; cbn [iget_scan]; [destruct e; [by left|by split]|].
  case_decide as D; [exists j; rewrite Nat.sub_diag; split_and!; [done|lia|tauto..]|].
  assert (Sh : ∀ ip, (S n ≤ ip)%nat → (j :: l) !! (ip - n)%nat = l !! (ip - S n)%nat) by (intros ip ?; by replace (ip - n)%nat with (S (ip - S n)) by lia).
  specialize (IH (S n) (match e with None => if decide (i_ref j = 0) then Some n else None | _ => e end)).
  destruct (iget_scan dev inum l (S n) _) as [ip|[ip|]].
  - destruct IH as (x & Hx & Hle & H).
    exists x. rewrite Sh by done. split_and!; [done|lia|tauto..].
  - destruct IH as [E|(E & Hle & x & Hx & Hr)].
    + destruct e as [m|]; [by left|]. case_decide; [|done]. injection E as <-. right. split_and!; [done|lia|]. exists j. by rewrite Nat.sub_diag.
    + destruct e as [m|]; [done|]. right. split_and!; [done|lia|]. exists x. by rewrite Sh.
  - destruct IH as [E F].
    destruct e; [done|]. case_decide; [done|]. by split; [|constructor].
Qed.

Lemma at_inode_bind {A} ip f i (g : unit → M fsst A) c s : icache s !! ip = Some i →
  (at_inode ip f ≫= g) c s = g () c (set_icache (<[ip := f i]> (icache s)) s).
Proof. intros H. unfold at_inode, get_inode, mbind, M_bind, kget, deref. simpl. by rewrite H. Qed.

Lemma iget_spec h s dev inum : LkIcache ∉ h →
  (∃ ip s', runs (iget dev inum) h s ip s' ∧ got_inode dev inum s s' ip) ∨
  (cache_full dev inum s ∧ panics (iget dev inum) h s "iget: no inodes").
Proof.
  intros Hh. pose proof (iget_scan_spec dev inum (icache s) 0 None) as Sc. unfold iget.
  assert (Rel : ∀ (m : M fsst nat) w, (acquire LkIcache;; m) (KCtx h w) s = m (KCtx (LkIcache :: h) w) s).
  { intros m w. by rewrite (bind_Ok _ _ _ _ _ _ _ (acquire_ok LkIcache (KCtx h w) s Hh)). }
  destruct (iget_scan dev inum (icache s) 0 None) as [ip|[ip|]] eqn:E.
  - destruct Sc as (j & Hj & _ & Hr & Hd & Hn). rewrite Nat.sub_0_r in Hj. left. exists ip, (set_icache (<[ip := set_ref (i_ref j + 1) j]> (icache s)) s). split.
    + intros w. exists w. rewrite Rel, kget_bind, E, (at_inode_bind _ _ j) by done. by rewrite (bind_Ok _ _ _ _ _ _ _ (release_ok LkIcache h w _ Hh)).
    + exists j, (set_ref (i_ref j + 1) j). split_and!; try done. by left.
  - destruct Sc as [?|(_ & _ & j & Hj & Hr)]; [done|]. rewrite Nat.sub_0_r in Hj. left. eexists ip, _. split.
    + intros w. exists w. rewrite Rel, kget_bind, E, (at_inode_bind _ _ j) by done. by rewrite (bind_Ok _ _ _ _ _ _ _ (release_ok LkIcache h w _ Hh)).
    + eexists j, _. split_and!; try done. by right.
  - destruct Sc as [_ F]. right. split; [done|]. intros w. rewrite Rel, kget_bind, E. by eexists.
Qed.

(** ** dirlookup *)
Section lookup.
Context (fuel : nat) (Hf : (0 < fuel)%nat) (h : list lock_id) (Hh : LkBufTable ∉ h) (Hi : LkIcache ∉ h).
Context (dev : Z) (sb : superblock) (dp : nat) (s : fsst) (i : inode) (O : dir_ok dev sb dp s i).

Lemma dirlookup_loop_spec name : ∀ n j, 0 ≤ j → i_size i ≤ 512 * (j + Z.of_nat n - 1) → (0 < n)%nat →
  (∀ k : nat, Z.of_nat k < 32 * j → ¬ matches name (entry s i k)) →
  ((∀ k : nat, 16 * Z.of_nat k < i_size i → ¬ matches name (entry s i k)) ∧ runs (dirlookup_loop fuel n dp name (512 * j)) h s None s) ∨
  ∃ k : nat, 16 * Z.of_nat k < i_size i ∧ matches name (entry s i k) ∧ (∀ m, (m < k)%nat → ¬ matches name (entry s i m)) ∧
    ∀ w, ∃ w', dirlookup_loop fuel n dp name (512 * j) (KCtx h w) s =
      (ip ← iget dev (dinum s i (Z.of_nat k)); mret (Some (ip, 16 * Z.of_nat k))) (KCtx h w') s.
Proof.
  pose proof (do_wf _ _ _ _ _ O) as W. pose proof (wf_at _ _ _ _ _ W) as A. pose proof A as [F Fi Hic Hb]. pose proof (fi_dev _ _ _ _ Fi) as Ed.
  pose proof (dir_size _ _ _ _ _ O) as [Hs Hs16].
  induction n as [|n IH]; intros j Hj Hn Hpos Hno; [lia|]. cbn [dirlookup_loop].
  destruct (decide (512 * j < i_size i)) as [Hlt|Hge].
  2: { left. split; [intros k Hk; apply Hno; lia|]. eapply runs_bind; [by apply runs_get_inode|]. rewrite decide_False by done. apply runs_ret. }
  assert (Hjm : 0 ≤ j < MAXFILE) by (unfold MAXBYTES, BSIZE in Hs; lia).
  assert (Ej : 512 * j / BSIZE = j) by (unfold BSIZE; rewrite Z.mul_comm; by apply Z.div_mul).
  assert (Ha : addr_of s i j ≠ 0) by (rewrite <- Ej; apply (wf_dense _ _ _ _ _ W); lia).
  destruct (fblk_disk dev sb dp s i A j Hjm Ha) as (Dk & _).
  assert (Step : ∀ {B} (K : Z → block → M fsst B) w, ∃ w',
    (b ← bmap fuel dp (512 * j / BSIZE) false; d ← bread fuel dev b; K b d) (KCtx h w) s = K (addr_of s i j) (fblk s i j) (KCtx h w') (set_bbusy [(dev, addr_of s i j)] s)).
  { intros B K w. rewrite Ej. destruct (bmap_get fuel Hf h Hh dev sb dp s i j false A Hjm Ha w) as [w1 E1]. rewrite (bind_Ok _ _ _ _ _ _ _ E1).
    destruct (bread_runs fuel Hf h Hh dev (addr_of s i j) (fblk s i j) s [] Hb (not_elem_of_nil _) (proj1 one_busy) Dk w1) as [w2 E2].
    exists w2. by rewrite (bind_Ok _ _ _ _ _ _ _ E2). }
  assert (Rel : ∀ {B} (K : M fsst B) w, ∃ w', (brelse dev (addr_of s i j);; K) (KCtx h w) (set_bbusy [(dev, addr_of s i j)] s) = K (KCtx h w') s).
  { intros B K w. destruct (brelse_runs h Hh dev (addr_of s i j) (set_bbusy [(dev, addr_of s i j)] s) [] eq_refl (not_elem_of_nil _) w) as [w3 E3].
    exists w3. rewrite (bind_Ok _ _ _ _ _ _ _ E3). by rewrite set_bbusy_same. }
  assert (Next : ∀ m2, 0 ≤ m2 → (∀ m3, 0 ≤ m3 < m2 → ¬ matches name (entry s i (Z.to_nat (32 * j + m3)))) →
    ∀ k : nat, Z.of_nat k < 32 * j + m2 → ¬ matches name (entry s i k)).
  { intros m2 Hm2 H k Hk. destruct (decide (Z.of_nat k < 32 * j)); [by apply Hno|]. specialize (H (Z.of_nat k - 32 * j) ltac:(lia)).
    replace (Z.to_nat (32 * j + (Z.of_nat k - 32 * j))) with k in H by lia. done. }
  pose proof (dir_scan_spec dev sb dp s i O name j Hjm 32 0 ltac:(lia) ltac:(lia)) as Sc. change (16 * 0) with 0 in Sc.
  assert (Get : ∀ {B} (K : inode → M fsst B) w, (get_inode dp ≫= K) (KCtx h w) s = K i (KCtx h w) s).
  { intros B K w. unfold get_inode, mbind, M_bind, kget, deref. simpl. by rewrite Hic. }
  destruct (dir_scan (fblk s i j) name 32 0) as [[o inum]|] eqn:Es.
  - destruct Sc as (m' & Hm' & -> & Hm & -> & Hlow). right. exists (Z.to_nat (32 * j + m')). split_and!.
    + destruct (decide (16 * Z.of_nat (Z.to_nat (32 * j + m')) < i_size i)) as [|Hge]; [done|].
      destruct (tail_free dev sb dp s i O name (Z.to_nat (32 * j + m'))); [lia| |done]. unfold MAXBYTES, BSIZE in *. lia.
    + done.
    + intros m Hlt'. apply (Next m' ltac:(lia) Hlow). lia.
    + intros w. destruct (Step _ (λ b d, match dir_scan d name 32 0 with
        | Some (o, inum) => brelse dev b;; ip ← iget dev inum; mret (Some (ip, 512 * j + o))
        | None => brelse dev b;; dirlookup_loop fuel n dp name (u32 (512 * j + BSIZE)) end) w) as [w1 E1].
      rewrite Es in E1. destruct (Rel _ (ip ← iget dev (dinum s i (32 * j + m')); mret (Some (ip, 512 * j + 16 * m'))) w1) as [w2 E2].
      exists w2. rewrite Get, decide_True, Ed by done. rewrite E1, E2. rewrite Z2Nat.id by lia. by replace (512 * j + 16 * m') with (16 * (32 * j + m')) by lia.
  - assert (Hu : u32 (512 * j + BSIZE) = 512 * (j + 1)) by (unfold BSIZE; change MAXFILE with 140 in Hjm; rewrite u32_small; lia).
    assert (Run : ∀ w, ∃ w', (i ← get_inode dp; if decide (512 * j < i_size i) then
        b ← bmap fuel dp (512 * j / BSIZE) false; d ← bread fuel (i_dev i) b;
        match dir_scan d name 32 0 with
        | Some (o, inum) => brelse (i_dev i) b;; ip ← iget (i_dev i) inum; mret (Some (ip, 512 * j + o))
        | None => brelse (i_dev i) b;; dirlookup_loop fuel n dp name (u32 (512 * j + BSIZE))
        end else mret None) (KCtx h w) s = dirlookup_loop fuel n dp name (512 * (j + 1)) (KCtx h w') s).
    { intros w. destruct (Step _ (λ b d, match dir_scan d name 32 0 with
        | Some (o, inum) => brelse dev b;; ip ← iget dev inum; mret (Some (ip, 512 * j + o))
        | None => brelse dev b;; dirlookup_loop fuel n dp name (u32 (512 * j + BSIZE)) end) w) as [w1 E1].
      rewrite Es, Hu in E1. destruct (Rel _ (dirlookup_loop fuel n dp name (512 * (j + 1))) w1) as [w2 E2].
      exists w2. rewrite Get, decide_True, Ed, Hu by done. by rewrite E1, E2. }
    destruct (IH (j + 1)) as [[N R]|(k & K1 & K2 & K3 & K4)]; [lia|lia| |intros k Hk; apply (Next 32 ltac:(lia) Sc); lia| |].
    + destruct n; [lia|lia].
    + left. split; [done|]. intros w. destruct (Run w) as [w' E]. destruct (R w') as [w2 E2]. exists w2. by rewrite E, E2.
    + right. exists k. split_and!; [done..|]. intros w. destruct (Run w) as [w' E]. destruct (K4 w') as [w2 E2]. exists w2. by rewrite E, E2.
Qed.

Lemma dirlookup_spec name :
  match find_entry name (entries s i) 0 with
  | None => runs (dirlookup fuel dp name) h s None s
  | Some (k, inum) =>
      (∃ ip s', runs (dirlookup fuel dp name) h s (Some (ip, 16 * Z.of_nat k)) s' ∧ got_inode dev inum s s' ip) ∨
      (cache_full dev inum s ∧ panics (dirlookup fuel dp name) h s "iget: no inodes")
  end.
Proof.
  pose proof (do_wf _ _ _ _ _ O) as W. pose proof (wf_at _ _ _ _ _ W) as [F Fi Hic Hb]. pose proof (dir_size _ _ _ _ _ O) as [Hs Hs16].
  assert (Start : ∀ w, dirlookup fuel dp name (KCtx h w) s = dirlookup_loop fuel (S (Z.to_nat (i_size i / BSIZE + 1))) dp name (512 * 0) (KCtx h w) s).
  { intros w. unfold dirlookup, get_inode. unfold mbind, M_bind, kget, deref. simpl. rewrite Hic. simpl. by rewrite decide_False by (rewrite (do_type _ _ _ _ _ O); auto). }
  destruct (dirlookup_loop_spec name (S (Z.to_nat (i_size i / BSIZE + 1))) 0) as [[N R]|(k & K1 & K2 & K3 & K4)]; [lia| |lia|lia| |].
  { unfold BSIZE. pose proof (Z.div_mod (i_size i) 512 ltac:(lia)). pose proof (Z.mod_pos_bound (i_size i) 512 ltac:(lia)). pose proof (Z.div_pos (i_size i) 512). lia. }
  - assert (find_entry name (entries s i) 0 = None) as ->.
    { apply find_entry_None, Forall_forall. intros e (k & -> & Hk%elem_of_seq)%list_elem_of_fmap. apply N. lia. }
    intros w. rewrite Start. apply R.
  - assert (find_entry name (entries s i) 0 = Some (k, dinum s i (Z.of_nat k))) as ->.
    { apply find_entry_first. split; [lia|]. rewrite Nat.sub_0_r. split; [exists (entry s i k); split; [by eapply entries_lookup|done]|].
      intros m e Hm. rewrite Nat.sub_0_r. rewrite (entries_lookup dev sb dp s i O) by lia. intros [= <-]. by apply K3; lia. }
    destruct (iget_spec h s dev (dinum s i (Z.of_nat k)) Hi) as [(ip & s' & R & G)|[C P]].
    + left. exists ip, s'. split; [|done]. intros w. rewrite Start. destruct (K4 w) as [w1 ->]. destruct (R w1) as [w2 E2]. exists w2. by rewrite (bind_Ok _ _ _ _ _ _ _ E2).
    + right. split; [done|]. intros w. rewrite Start. destruct (K4 w) as [w1 ->]. destruct (P w1) as [s' E2]. exists s'. by rewrite (bind_Panic _ _ _ _ _ _ E2).
Qed.
End lookup.

(** ** dirlink *)
Lemma find_entry_insert name e : ¬ matches name e → ∀ es n k old, es !! n = Some old → ¬ matches name old →
  find_entry name (<[n := e]> es) k = find_entry name es k.
Proof.
  intros He. induction es as [|e0 es IH]; intros [|n] k old H Ho; simpl in *; try done.
  - simplify_eq. by rewrite !decide_False.
  - case_decide; [done|]. by eapply IH.
Qed.
Lemma find_entry_snoc name e : ¬ matches name e → ∀ es k, find_entry name (es ++ [e]) k = find_entry name es k.
Proof. intros He. induction es as [|e0 es IH]; intros k; simpl; [by rewrite decide_False|]. case_decide; [done|]. apply IH. Qed.

(** The list with entry [k] set, or added when it is the one after the last. *)
Definition put_entry (k : nat) (e : Z * list Z) (es : list (Z * list Z)) : list (Z * list Z) :=
  if decide (k < length es)%nat then <[k := e]> es else es ++ [e].

Section link.
Context (fuel : nat) (Hf : (0 < fuel)%nat) (h : list lock_id) (Hh : LkBufTable ∉ h) (Hi : LkIcache ∉ h).
Context (dr : Z → option (nat → Z → M fsst (option (list Z)))) (dw : Z → option (nat → list Z → M fsst Z)).
Context (dev : Z) (sb : superblock) (dp : nat) (s : fsst) (i : inode) (O : dir_ok dev sb dp s i).

(** The first free entry, or the end. *)
Definition free_slot (k : nat) : Prop :=
  16 * Z.of_nat k ≤ i_size i ∧ (16 * Z.of_nat k < i_size i → dinum s i (Z.of_nat k) = 0) ∧
  ∀ m, (m < k)%nat → dinum s i (Z.of_nat m) ≠ 0.

Lemma read_entry j : 0 ≤ j → 16 * j < i_size i → runs (readi fuel dr dp (16 * j) 16) h s (Some (fbytes s i (16 * j) 16)) s.
Proof.
  intros Hj Hlt. pose proof (do_wf _ _ _ _ _ O) as W. pose proof (dir_size _ _ _ _ _ O) as [Hs Hs16]. pose proof MAXBYTES_u32.
  pose proof (readi_runs fuel Hf h Hh dev sb dp dr s i (16 * j) 16 W ltac:(lia) ltac:(lia)) as R.
  rewrite decide_False in R.
  - rewrite Z.min_l in R by lia. rewrite slice_contents in R by lia. done.
  - assert (u32 (16 * j + 16) = 16 * j + 16) by (apply u32_small; unfold MAXBYTES, BSIZE in *; change MAXFILE with 140 in *; lia). lia.
Qed.

Lemma find_empty_spec : ∀ n j de, length de = 16%nat → i_size i < 16 * (Z.of_nat j + Z.of_nat n) → 16 * Z.of_nat j ≤ i_size i →
  (∀ m, (m < j)%nat → dinum s i (Z.of_nat m) ≠ 0) →
  ∃ k de', free_slot k ∧ length de' = 16%nat ∧ runs (find_empty fuel dr n dp (16 * Z.of_nat j) de) h s (16 * Z.of_nat k, de') s.
Proof.
  pose proof (wf_at _ _ _ _ _ (do_wf _ _ _ _ _ O)) as [F Fi Hic Hb].
  induction n as [|n IH]; intros j de Hde Hn Hj Hno; [lia|]. cbn [find_empty].
  destruct (decide (16 * Z.of_nat j < i_size i)) as [Hlt|Hge].
  - destruct (decide (dinum s i (Z.of_nat j) = 0)) as [E|E].
    + exists j, (fbytes s i (16 * Z.of_nat j) 16). split; [by split|]. split; [by rewrite fbytes_length|].
      eapply runs_bind; [by apply runs_get_inode|]. rewrite decide_True by done. eapply runs_bind; [apply read_entry; lia|].
      cbv beta iota. rewrite fbytes_length, decide_False by (intros X; apply X; done). rewrite decide_True; [apply runs_ret|]. unfold get16. rewrite !get8_fbytes by lia.
      rewrite Z.add_0_r. exact E.
    + destruct (IH (S j) (fbytes s i (16 * Z.of_nat j) 16)) as (k & de' & K & Hde' & R); [by rewrite fbytes_length|lia| | |].
      * pose proof (dir_size _ _ _ _ _ O). lia.
      * intros m Hm. destruct (decide (m = j)) as [->|]; [done|]. apply Hno. lia.
      * exists k, de'. split; [done|]. split; [done|]. eapply runs_bind; [by apply runs_get_inode|]. rewrite decide_True by done.
        eapply runs_bind; [apply read_entry; lia|]. cbv beta iota. rewrite fbytes_length, decide_False by (intros X; apply X; done). rewrite decide_False.
        -- replace (16 * Z.of_nat j + 16) with (16 * Z.of_nat (S j)) by lia. done.
        -- unfold get16. rewrite !get8_fbytes by lia. rewrite Z.add_0_r. exact E.
  - exists j, de. split; [split; [done|]; split; [lia|done]|]. split; [done|]. eapply runs_bind; [by apply runs_get_inode|]. rewrite decide_False by done. apply runs_ret.
Qed.
End link.

(** The entry [dirlink] writes. *)
Definition new_entry (de name : list Z) (ino : Z) : list Z := put16 (splice de 2 (name_field (Z.to_nat DIRSIZ) name)) 0 ino.

Lemma new_entry_eq de name ino : length de = 16%nat →
  new_entry de name ino = u8 ino :: u8 (ino / 2 ^ 8) :: name_field (Z.to_nat DIRSIZ) name.
Proof.
  intros Hde. unfold new_entry. pose proof (name_field_length (Z.to_nat DIRSIZ) name) as L. revert L. generalize (name_field (Z.to_nat DIRSIZ) name) as nf.
  intros nf L. change (Z.to_nat DIRSIZ) with 14%nat in L. do 16 (destruct de as [|? de]; [done|]). destruct de; [|done].
  do 14 (destruct nf as [|? nf]; [done|]). by destruct nf.
Qed.

(** What the bytes written make of the directory. *)
Section written.
Context (dev : Z) (sb : superblock) (dp : nat) (s : fsst) (i : inode) (O : dir_ok dev sb dp s i).
Context (name : list Z) (ino : Z) (Hn : Forall byte name) (Hino : 0 < ino < 2 ^ 16) (k : nat) (K : free_slot s i k).
Context (s' : fsst) (i' : inode) (W' : file_wf dev sb dp s' i') (T' : i_type i' = i_type i).
Context (Hmax : i_size i + 16 ≤ MAXBYTES) (Sz : i_size i' = new_size i (16 * Z.of_nat k) 16).
Context (de : list Z) (Hde : length de = 16%nat).
Context (B : ∀ x, 0 ≤ x < MAXBYTES → fbyte s' i' x =
  if decide (16 * Z.of_nat k ≤ x < 16 * Z.of_nat k + 16) then get8 (new_entry de name ino) (x - 16 * Z.of_nat k) else fbyte s i x).

Lemma size_cases : (16 * Z.of_nat k < i_size i ∧ i_size i' = i_size i) ∨ (16 * Z.of_nat k = i_size i ∧ i_size i' = i_size i + 16).
Proof. pose proof (dir_size _ _ _ _ _ O). destruct K as (K1 & _). rewrite Sz. unfold new_size. case_decide; lia. Qed.

Lemma written_entry (m : nat) : 16 * Z.of_nat m + 16 ≤ MAXBYTES →
  entry s' i' m = if decide (m = k) then (ino, name_field (Z.to_nat DIRSIZ) name) else entry s i m.
Proof.
  intros Hm. pose proof (new_entry_eq de name ino Hde) as En. pose proof (name_field_length (Z.to_nat DIRSIZ) name) as L.
  unfold entry, dinum, dname. case_decide as E.
  - subst m. f_equal.
    + rewrite !B, !decide_True by lia. replace (16 * Z.of_nat k - 16 * Z.of_nat k) with 0 by lia. replace (16 * Z.of_nat k + 1 - 16 * Z.of_nat k) with 1 by lia.
      rewrite En. unfold get8. simpl. change (u8 ino + 256 * u8 (ino / 256) = ino). unfold u8. change (2 ^ 8) with 256.
      pose proof (Z.div_mod ino 256 ltac:(lia)). rewrite (Z.mod_small (ino / 256)); [lia|]. split; [apply Z.div_pos; lia|apply Z.div_lt_upper_bound; lia].
    + apply get8_ext; [by rewrite fbytes_length, L|]. rewrite fbytes_length. intros x Hx. unfold DIRSIZ in Hx. rewrite get8_fbytes by (unfold DIRSIZ; lia).
      rewrite B, decide_True by lia. replace (16 * Z.of_nat k + 2 + x - 16 * Z.of_nat k) with (x + 2) by lia. rewrite En. unfold get8.
      by replace (Z.to_nat (x + 2)) with (S (S (Z.to_nat x))) by lia.
  - f_equal; [by rewrite !B, !decide_False by lia|]. apply get8_ext; [by rewrite !fbytes_length|]. rewrite fbytes_length. intros x Hx.
    unfold DIRSIZ in Hx. rewrite !get8_fbytes by (unfold DIRSIZ; lia). by rewrite B, decide_False by lia.
Qed.

Lemma written_dir_ok : dir_ok dev sb dp s' i'.
Proof.
  pose proof (dir_size _ _ _ _ _ O) as [Hs Hs16]. pose proof size_cases as C. split; [done|by rewrite T', (do_type _ _ _ _ _ O)| |].
  - pose proof (do_size _ _ _ _ _ O) as Hmod. destruct C as [[_ ->]|[_ ->]]; [done|]. rewrite <- (Z_mod_plus_full (i_size i) 1 16) in Hmod. done.
  - intros x Hx. rewrite B by lia. rewrite decide_False by lia. apply (do_tail _ _ _ _ _ O). lia.
Qed.

Lemma written_entries : entries s' i' = put_entry k (ino, name_field (Z.to_nat DIRSIZ) name) (entries s i).
Proof.
  pose proof (dir_size _ _ _ _ _ O) as [Hs Hs16]. pose proof size_cases as C. destruct K as (K1 & _). pose proof (entries_length s i) as L.
  unfold put_entry. destruct C as [[Hlt Hsz]|[Heq Hsz]].
  - rewrite decide_True by lia. apply list_eq_same_length with (Z.to_nat (i_size i / 16)); [by rewrite length_insert|by rewrite entries_length, Hsz|].
    intros m x y Hm. rewrite (entries_lookup dev sb dp s' i' written_dir_ok) by lia. intros [= <-]. rewrite written_entry by lia. case_decide as E.
    + subst m. rewrite list_lookup_insert_eq by lia. by intros [= <-].
    + rewrite list_lookup_insert_ne by done. rewrite (entries_lookup dev sb dp s i O) by lia. by intros [= <-].
  - assert (Ed : (i_size i + 16) / 16 = i_size i / 16 + 1) by (change (i_size i + 16) with (i_size i + 1 * 16); by apply Z.div_add).
    rewrite decide_False by lia. apply list_eq_same_length with (Z.to_nat ((i_size i + 16) / 16)); [rewrite length_app, L; cbn [length]; lia|by rewrite entries_length, Hsz|].
    intros m x y Hm. rewrite (entries_lookup dev sb dp s' i' written_dir_ok) by lia. intros [= <-]. rewrite written_entry by lia. case_decide as E.
    + subst m. rewrite lookup_app_r by lia. replace (k - length (entries s i))%nat with 0%nat by lia. by intros [= <-].
    + rewrite lookup_app_l by lia. rewrite (entries_lookup dev sb dp s i O) by lia. by intros [= <-].
Qed.

(** The new entry is found under its name, and no other name is affected. *)
Lemma written_find : find_entry name (entries s i) 0 = None → find_entry name (entries s' i') 0 = Some (k, ino) ∧
  ∀ name', namecmp name' name ≠ 0 → find_entry name' (entries s' i') 0 = find_entry name' (entries s i) 0.
Proof.
  intros Hnone. pose proof (dir_size _ _ _ _ _ O) as [Hs Hs16]. pose proof size_cases as C. pose proof (entries_length s i) as L. split.
  - apply find_entry_first. split; [lia|]. rewrite Nat.sub_0_r. split.
    + exists (ino, name_field (Z.to_nat DIRSIZ) name). split; [|split; [|done]].
      * rewrite (entries_lookup dev sb dp s' i' written_dir_ok) by lia. rewrite written_entry by lia. by rewrite decide_True.
      * split; [simpl; lia|]. apply ncmp_cut. symmetry. apply cut_name_field.
    + intros m e Hm. rewrite Nat.sub_0_r, (entries_lookup dev sb dp s' i' written_dir_ok) by lia. intros [= <-].
      rewrite written_entry, decide_False by lia. apply find_entry_None in Hnone. rewrite Forall_forall in Hnone. apply Hnone.
      eapply list_elem_of_lookup_2. apply (entries_lookup dev sb dp s i O). lia.
  - intros name' Hne. assert (Hn' : ¬ matches name' (ino, name_field (Z.to_nat DIRSIZ) name)).
    { intros [_ M]. apply Hne. apply ncmp_cut. apply ncmp_cut in M. cbn [snd] in M. by rewrite cut_name_field in M. }
    rewrite written_entries. unfold put_entry. case_decide as D; [|by apply find_entry_snoc].
    eapply find_entry_insert; [done|apply (entries_lookup dev sb dp s i O); lia|]. destruct K as (_ & K2 & _). intros [M _]. apply M. apply K2. lia.
Qed.
End written.

(** C28 [dirlookup] searches the list of entries of a directory: it returns no inode when
    no entry in use has the name, and otherwise a reference to the inode of the first
    one that has it, and the offset of that entry.  Names are compared up to a zero
    byte and up to 14 bytes.  It panics only when the inode cache is full. *)
Theorem dirlookup_correct fuel h dev sb dp s i name :
  (0 < fuel)%nat → LkBufTable ∉ h → LkIcache ∉ h → dir_ok dev sb dp s i →
  match find_entry name (entries s i) 0 with
  | None => runs (dirlookup fuel dp name) h s None s
  | Some (k, inum) =>
      (∃ ip s', runs (dirlookup fuel dp name) h s (Some (ip, 16 * Z.of_nat k)) s' ∧ got_inode dev inum s s' ip) ∨
      (cache_full dev inum s ∧ panics (dirlookup fuel dp name) h s "iget: no inodes")
  end.
Proof. intros Hf H1 H2 O. by apply (dirlookup_spec fuel Hf h H1 H2 dev sb dp s i O). Qed.

(** C27 [dirlink] of a name the directory does not have writes the entry into the first
    free slot, or after the last entry: the directory is well formed again, has the old
    entries but for that slot, the name is found there, and every other name is found
    where it was.  It panics only for lack of free blocks. *)
Theorem dirlink_correct fuel h dev_read dev_write dev sb dp s i name ino :
  (0 < fuel)%nat → LkBufTable ∉ h → LkIcache ∉ h → dir_ok dev sb dp s i →
  find_entry name (entries s i) 0 = None → Forall byte name → 0 < ino < 2 ^ 16 → i_size i + 16 ≤ MAXBYTES →
  (∃ s' i' k, runs (dirlink fuel dev_read dev_write dp name ino) h s 0 s' ∧ dir_ok dev sb dp s' i' ∧ free_slot s i k ∧
     entries s' i' = put_entry k (ino, name_field (Z.to_nat DIRSIZ) name) (entries s i) ∧
     find_entry name (entries s' i') 0 = Some (k, ino) ∧
     ∀ name', namecmp name' name ≠ 0 → find_entry name' (entries s' i') 0 = find_entry name' (entries s i) 0) ∨
  panics (dirlink fuel dev_read dev_write dp name ino) h s "balloc: out of blocks".
Proof.
  intros Hf H1 H2 O Hnone Hn Hino Hmax. pose proof (do_wf _ _ _ _ _ O) as W. pose proof (dir_size _ _ _ _ _ O) as [Hs Hs16].
  pose proof (dirlookup_spec fuel Hf h H1 H2 dev sb dp s i O name) as L. rewrite Hnone in L.
  destruct (find_empty_spec fuel Hf h H1 dev_read dev sb dp s i O (S (Z.to_nat (i_size i / 16 + 1))) 0 (replicate 16 0)) as (k & de & K & Hde & R); [done|lia|lia|lia|].
  pose proof K as (K1 & _). pose proof (new_entry_eq de name ino Hde) as En. pose proof (name_field_length (Z.to_nat DIRSIZ) name) as Lnf.
  assert (Ln : length (new_entry de name ino) = 16%nat) by (rewrite En; cbn [length]; by rewrite Lnf).
  assert (Bn : Forall byte (new_entry de name ino)) by (rewrite En; repeat constructor; try apply u8_range; by apply name_field_bytes).
  destruct (writei_runs fuel Hf h H1 dev sb dp dev_write s i (new_entry de name ino) (16 * Z.of_nat k) 16 W ltac:(lia) ltac:(lia) ltac:(lia) Bn)
    as [(s' & i' & Rw & W' & _ & _ & T' & _ & Sz & B & _)|P].
  - left. exists s', i', k.
    pose proof (written_find dev sb dp s i O name ino Hino k K s' i' W' T' Hmax Sz de Hde B Hnone) as [F1 F2].
    pose proof (written_dir_ok dev sb dp s i O name ino k K s' i' W' T' Sz de Hde B) as Ok'.
    pose proof (written_entries dev sb dp s i O name ino Hino k K s' i' W' T' Hmax Sz de Hde B) as Es.
    split_and!; [|done..].
    eapply runs_bind; [exact L|]. eapply runs_bind; [apply runs_get_inode, (wf_at _ _ _ _ _ W)|]. eapply runs_bind; [exact R|].
    cbv zeta. eapply runs_bind; [exact Rw|]. rewrite decide_False by auto. apply runs_ret.
  - right. eapply runs_panics; [exact L|]. eapply runs_panics; [apply runs_get_inode, (wf_at _ _ _ _ _ W)|]. eapply runs_panics; [exact R|].
    cbv zeta. by apply panics_bind.
Qed.

(** ** An example: a directory with the entries . and .. *)
Definition dir_block : block := [1; 0; 46] ++ replicate 13 0 ++ [1; 0; 46; 46] ++ replicate 492 0.
Definition dir_inode : inode := Inode 1 1 1 true true T_DIR 0 0 1 32 (5 :: replicate 12 0).
Definition dir_fs : fsst :=
  set_icache [dir_inode; Inode 0 0 0 false false 0 0 0 0 0 (replicate 13 0)]
    (set_disk (<[(1, 5) := dir_block]> (disk small_fs)) small_fs).

Lemma dir_fs_ok : fs_ok 1 dir_fs small_sb.
Proof.
  destruct (fs_ok_write 1 small_sb small_fs small_fs_ok 5 dir_block) as [H1 H2 H3 H4 H5]; [by apply block_ok_dec; vm_compute|by vm_compute|left; by vm_compute|].
  by split.
Qed.

Lemma dir_addr j : 0 ≤ j < MAXFILE → addr_of dir_fs dir_inode j = if decide (j = 0) then 5 else 0.
Proof. intros Hj. rewrite <- (small_addr j Hj). done. Qed.

Lemma dir_byte x : 0 ≤ x < MAXBYTES → fbyte dir_fs dir_inode x = if decide (x < 512) then get8 dir_block x else 0.
Proof.
  intros Hx. destruct (byte_block x Hx) as (B1 & B2 & B3). unfold BSIZE in *. unfold fbyte, fblk. rewrite dir_addr by done. unfold BSIZE. destruct (decide (x / 512 = 0)) as [E|E].
  - rewrite decide_False by done. rewrite decide_True by lia. change (disk dir_fs !! (i_dev dir_inode, 5)) with (Some dir_block). simpl. f_equal. lia.
  - rewrite decide_True by done. rewrite decide_False by lia. by apply get8_zero.
Qed.

Lemma dir_dir_ok : dir_ok 1 small_sb 0 dir_fs dir_inode.
Proof.
  assert (Hin : ∀ a, in_file dir_fs dir_inode a → a = 5).
  { intros a [Ha [Hi|(j & Hj & E)]]; [done|]. rewrite dir_addr in E by done. case_decide; congruence. }
  split; [split|done|done|].
  - split; [apply dir_fs_ok| |done|done]. split; [done|done|..].
    + intros a ->%Hin. split_and!; try (by vm_compute). by eexists.
    + intros j k Hj Hk. rewrite !dir_addr by done. repeat case_decide; congruence.
    + intros j Hj. rewrite dir_addr by done. case_decide; done.
  - split; [by vm_compute|by eexists].
  - done.
  - by vm_compute.
  - intros x Hx. simpl in Hx. rewrite Z.div_small by (unfold BSIZE; lia). by vm_compute.
  - intros x Hx. simpl in Hx. rewrite dir_byte by lia. case_decide; [|done].
    assert (F : Forall (λ y, get8 dir_block y = 0) (seqZ 32 480)) by (apply (bool_decide_unpack _); by vm_compute).
    rewrite Forall_forall in F. apply F, elem_of_seqZ. lia.
Qed.

Lemma dirlookup_correct_witness : ∃ ip s', runs (dirlookup 1 0 [46; 46]) quiet dir_fs (Some (ip, 16)) s' ∧ got_inode 1 1 dir_fs s' ip.
Proof.
  pose proof (dirlookup_correct 1 quiet 1 small_sb 0 dir_fs dir_inode [46; 46] ltac:(lia) (not_elem_of_nil _) (not_elem_of_nil _) dir_dir_ok) as H.
  assert (E : find_entry [46; 46] (entries dir_fs dir_inode) 0 = Some (1%nat, 1)) by (by vm_compute). rewrite E in H.
  destruct H as [H|[C _]]; [exact H|]. apply Forall_cons in C as [[_ C] _]. destruct C. by vm_compute.
Defined.

Lemma dirlink_correct_witness : ∃ s' i', runs (dirlink 1 no_dev_read no_dev_write 0 [97] 7) quiet dir_fs 0 s' ∧
  find_entry [97] (entries s' i') 0 = Some (2%nat, 7).
Proof.
  destruct (dirlink_correct 1 quiet no_dev_read no_dev_write 1 small_sb 0 dir_fs dir_inode [97] 7) as [(s' & i' & k & R & _ & K & _ & E & _)|P];
    [lia|apply not_elem_of_nil|apply not_elem_of_nil|apply dir_dir_ok|by vm_compute|by repeat constructor|done|by vm_compute| |].
  - exists s', i'. split; [done|]. rewrite E. destruct K as (K1 & K2 & K3). simpl in K1. assert (k = 0 ∨ k = 1 ∨ k = 2)%nat as [->|[->| ->]] by lia; [| |done].
    + specialize (K2 ltac:(simpl; lia)). by vm_compute in K2.
    + specialize (K2 ltac:(simpl; lia)). by vm_compute in K2.
  - destruct (P []) as [s' E]. by vm_compute in E.
Defined.

(** ** Paths *)

(** The elements of a path: what is between slashes, without the empty ones. *)
Fixpoint elements (cur path : list Z) : list (list Z) :=
  match path with
  | [] => if decide (cur = []) then [] else [cur]
  | c :: path =>
      if decide (c = 47) then (if decide (cur = []) then [] else [cur]) ++ elements [] path
      else elements (cur ++ [c]) path
  end.

Lemma elements_skip path : elements [] (skip_slashes path) = elements [] path.
Proof. induction path as [|c path IH]; cbn [skip_slashes elements]; [done|]. case_decide; simpl; [done|]. rewrite decide_False by done. done. Qed.

Lemma elements_split : ∀ path cur e r, split_elem path = (e, r) →
  elements cur path = (if decide (cur ++ e = []) then [] else [cur ++ e]) ++ elements [] (skip_slashes r).
Proof.
  induction path as [|c path IH]; intros cur e r; cbn [split_elem elements].
  - intros [= <- <-]. simpl. by rewrite !app_nil_r.
  - destruct (decide (c = 47)) as [->|Hc].
    + intros [= <- <-]. rewrite app_nil_r. cbn [skip_slashes]. rewrite (decide_True (P := 47 = 47)) by done. by rewrite elements_skip.
    + destruct (split_elem path) as [e0 r0] eqn:E. intros [= <- <-]. rewrite (IH (cur ++ [c]) e0 r0 eq_refl). by rewrite <- app_assoc.
Qed.

(** [skipelem] takes a path apart: it returns no path exactly when the path has no
    elements left, and otherwise a path with the remaining elements, without leading
    slashes, and leaves the first element in [name], cut to 14 bytes, and followed by a
    zero when it is shorter. *)
Theorem skipelem_elements path name :
  match elements [] path with
  | [] => skipelem path name = None
  | e :: es => ∃ rest name', skipelem path name = Some (rest, name') ∧ elements [] rest = es ∧ head rest ≠ Some 47 ∧
      name' = splice name 0 (if decide (Z.of_nat (length e) >= DIRSIZ) then take (Z.to_nat DIRSIZ) e else e ++ [0])
  end.
Proof.
  assert (Hh : ∀ p, head (skip_slashes p) ≠ Some 47).
  { induction p as [|c p IH]; cbn [skip_slashes]; [done|]. case_decide; [done|]. by intros [= ->]. }
  unfold skipelem. rewrite <- (elements_skip path). specialize (Hh path) as Hp. destruct (skip_slashes path) as [|c p] eqn:Ep; [done|].
  destruct (split_elem (c :: p)) as [e r] eqn:E. rewrite (elements_split _ [] e r E). simpl in E. simpl in Hp.
  destruct (decide (c = 47)) as [->|Hc]; [done|]. destruct (split_elem p) as [e0 r0]. injection E as <- <-.
  rewrite decide_False by done. simpl. exists (skip_slashes r0). eexists. split; [|split; [done|split; [apply Hh|reflexivity]]].
  by case_decide.
Qed.
