(* ===== verification/Mmu.v ===== *)
(** * Segments and gates (mmu.h, setupsegs of proc.c, tvinit of trap.c)

    Descriptors field by field, the macros that build them, and the processor's
    reading of them: a descriptor whose granularity bit is set counts its limit in
    4096-byte units.  [setupsegs] is the table it loads; the task state segment is
    kept as the two fields the kernel sets. *)
From S2P Require Import Prelude Kernel ProcData.
Local Open Scope Z_scope.

Record segdesc := Segdesc {
  lim_15_0 : Z; base_15_0 : Z; base_23_16 : Z; sd_type : Z; sd_s : Z; sd_dpl : Z; sd_p : Z;
  lim_19_16 : Z; sd_avl : Z; sd_rsv1 : Z; sd_db : Z; sd_g : Z; base_31_24 : Z
}.

Definition DPL_USER : Z := 3.
Definition STA_X : Z := 8.
Definition STA_W : Z := 2.
Definition STA_R : Z := 2.
Definition STS_T32A : Z := 9.
Definition STS_IG32 : Z := 14.
Definition STS_TG32 : Z := 15.

Definition SEG_NULL : segdesc := Segdesc 0 0 0 0 0 0 0 0 0 0 0 0 0.
Definition SEG (type base lim dpl : Z) : segdesc :=
  Segdesc (Z.land (Z.shiftr lim 12) 0xffff) (Z.land base 0xffff) (Z.land (Z.shiftr base 16) 0xff)
    type 1 dpl 1 (Z.shiftr (u32 lim) 28) 0 0 1 1 (Z.shiftr (u32 base) 24).
Definition SEG16 (type base lim dpl : Z) : segdesc :=
  Segdesc (Z.land lim 0xffff) (Z.land base 0xffff) (Z.land (Z.shiftr base 16) 0xff)
    type 1 dpl 1 (Z.shiftr (u32 lim) 16) 0 0 1 0 (Z.shiftr (u32 base) 24).

Record gatedesc := Gatedesc {
  off_15_0 : Z; gd_cs : Z; gd_args : Z; gd_rsv1 : Z; gd_type : Z; gd_s : Z; gd_dpl : Z; gd_p : Z; off_31_16 : Z
}.
Definition SETGATE (istrap : bool) (sel off d : Z) : gatedesc :=
  Gatedesc (Z.land (u32 off) 0xffff) sel 0 0 (if istrap then STS_TG32 else STS_IG32) 0 d 1 (Z.shiftr (u32 off) 16).

(** ** setupsegs *)
Record segs := Segs { ts_ss0 : Z; ts_esp0 : Z; gdt : list segdesc }.

Definition set_s (v : Z) (d : segdesc) : segdesc :=
  Segdesc (lim_15_0 d) (base_15_0 d) (base_23_16 d) (sd_type d) v (sd_dpl d) (sd_p d)
    (lim_19_16 d) (sd_avl d) (sd_rsv1 d) (sd_db d) (sd_g d) (base_31_24 d).

(** [ts] is the address of the processor's task state segment, 104 bytes long. *)
Definition setupsegs (p : option proc) (ts : Z) : segs :=
  Segs (SEG_KDATA * 8)
    (match p with Some p => u32 (p_kstack p + KSTACKSIZE) | None => 0xffffffff end)
    [SEG_NULL;
     SEG (STA_X + STA_R) 0 (0x100000 + 64 * 1024 - 1) 0;
     SEG STA_W 0 0xffffffff 0;
     match p with Some p => SEG (STA_X + STA_R) (p_mem p) (u32 (p_sz p - 1)) DPL_USER | None => SEG_NULL end;
     match p with Some p => SEG STA_W (p_mem p) (u32 (p_sz p - 1)) DPL_USER | None => SEG_NULL end;
     set_s 0 (SEG16 STS_T32A ts 103 0)].

(** tvinit: every vector is an interrupt gate into the kernel code segment; the
    system call is a trap gate that user code may enter. *)
Definition T_SYSCALL : nat := 48.
Definition tvinit (vectors : list Z) : list gatedesc :=
  let idt := (λ v, SETGATE false (SEG_KCODE * 8) v 0) <$> vectors in
  <[T_SYSCALL := SETGATE true (SEG_KCODE * 8) (vectors !!! T_SYSCALL) DPL_USER]> idt.

(** ** How the processor reads descriptors *)
Definition seg_base (d : segdesc) : Z := base_15_0 d + 2 ^ 16 * base_23_16 d + 2 ^ 24 * base_31_24 d.
Definition seg_limit (d : segdesc) : Z :=
  let l := lim_15_0 d + 2 ^ 16 * lim_19_16 d in
  if decide (sd_g d = 1) then l * 2 ^ 12 + (2 ^ 12 - 1) else l.
(** The linear addresses code at privilege [cpl] reaches through [d]. *)
Definition reaches (d : segdesc) (cpl a : Z) : Prop :=
  sd_p d = 1 ∧ cpl ≤ sd_dpl d ∧ seg_base d ≤ a ≤ seg_base d + seg_limit d.
Definition gate_offset (g : gatedesc) : Z := off_15_0 g + 2 ^ 16 * off_31_16 g.

Lemma land_low x n : 0 ≤ n → Z.land x (2 ^ n - 1) = x mod 2 ^ n.
Proof. intros. rewrite <- Z.land_ones by done. f_equal. by rewrite Z.ones_equiv, <- Z.sub_1_r. Qed.

Lemma split16 x : x mod 2 ^ 16 + 2 ^ 16 * (x / 2 ^ 16) = x.
Proof. pose proof (Z.div_mod x (2 ^ 16) ltac:(lia)). lia. Qed.

Lemma SEG_base t b l d : 0 ≤ b < 2 ^ 32 → seg_base (SEG t b l d) = b.
Proof.
  intros Hb. unfold seg_base, SEG. cbn [base_15_0 base_23_16 base_31_24]. rewrite u32_small by done.
  change 0xffff with (2 ^ 16 - 1). change 0xff with (2 ^ 8 - 1). rewrite !land_low by lia.
  rewrite !Z.shiftr_div_pow2 by lia.
  pose proof (split16 b). pose proof (Z.div_mod (b / 2 ^ 16) (2 ^ 8) ltac:(lia)) as E.
  rewrite Z.div_div in E by lia. change (2 ^ 16 * 2 ^ 8) with (2 ^ 24) in E. lia.
Qed.

(** The limit is rounded up to the end of a 4096-byte unit. *)
Lemma SEG_limit t b l d : 0 ≤ l < 2 ^ 32 → seg_limit (SEG t b l d) = l / 2 ^ 12 * 2 ^ 12 + (2 ^ 12 - 1).
Proof.
  intros Hl. unfold seg_limit, SEG. cbn [lim_15_0 lim_19_16 sd_g]. rewrite decide_True by done.
  rewrite u32_small by done. change 0xffff with (2 ^ 16 - 1). rewrite land_low by lia. rewrite !Z.shiftr_div_pow2 by lia.
  pose proof (split16 (l / 2 ^ 12)) as E. rewrite Z.div_div in E by lia. change (2 ^ 12 * 2 ^ 16) with (2 ^ 28) in E. lia.
Qed.

Lemma page_limit sz : 0 < sz → (PAGE | sz) → (sz - 1) / 2 ^ 12 * 2 ^ 12 + (2 ^ 12 - 1) = sz - 1.
Proof.
  intros Hs [k ->]. unfold PAGE. replace (k * 4096 - 1) with (4095 + (k - 1) * 2 ^ 12) by lia.
  rewrite Z.div_add by lia. change (4095 / 2 ^ 12) with 0. lia.
Qed.

(** C34 The segments [setupsegs] loads confine a process whose size is a multiple of the
    page size: through every descriptor of the table, code at user privilege
    reaches exactly the bytes of the process's memory, through the user code and
    data segments, and nothing through the others. *)
Theorem setupsegs_confines p ts j d a :
  0 ≤ p_mem p → p_mem p + p_sz p ≤ 2 ^ 32 → 0 < p_sz p → (PAGE | p_sz p) →
  gdt (setupsegs (Some p) ts) !! j = Some d →
  (reaches d DPL_USER a ↔ (j = 3%nat ∨ j = 4%nat) ∧ p_mem p ≤ a < p_mem p + p_sz p).
Proof.
  intros Hm Hlim Hs Hp Hj. unfold reaches.
  assert (U : ∀ t, seg_base (SEG t (p_mem p) (u32 (p_sz p - 1)) DPL_USER) = p_mem p ∧
                   seg_limit (SEG t (p_mem p) (u32 (p_sz p - 1)) DPL_USER) = p_sz p - 1).
  { intros t. rewrite u32_small by lia. rewrite SEG_base, SEG_limit, page_limit by (done || lia). done. }
  destruct j as [|[|[|[|[|[|j]]]]]]; cbn [setupsegs gdt lookup list_lookup] in Hj; try done; injection Hj as <-.
  - simpl. split; [lia|]. intros [[?|?] _]; done.
  - simpl. unfold DPL_USER. split; [lia|]. intros [[?|?] _]; done.
  - simpl. unfold DPL_USER. split; [lia|]. intros [[?|?] _]; done.
  - destruct (U (STA_X + STA_R)) as [-> ->]. simpl. unfold DPL_USER. split; [intros (_ & _ & ?)|intros [_ ?]]; split_and!; (done || lia || by left).
  - destruct (U STA_W) as [-> ->]. simpl. unfold DPL_USER. split; [intros (_ & _ & ?)|intros [_ ?]]; split_and!; (done || lia || by right).
  - simpl. unfold DPL_USER. split; [lia|]. intros [[?|?] _]; done.
Qed.

Lemma SETGATE_offset b sel off d : 0 ≤ off < 2 ^ 32 → gate_offset (SETGATE b sel off d) = off.
Proof.
  intros Ho. unfold gate_offset, SETGATE. cbn [off_15_0 off_31_16]. rewrite u32_small by done.
  change 0xffff with (2 ^ 16 - 1). rewrite land_low, Z.shiftr_div_pow2 by lia. apply split16.
Qed.

(** Only the system call vector may be entered by an [int] from user code, and
    every gate leads to its own vector. *)
Lemma tvinit_gates vectors j g :
  Forall (λ v, 0 ≤ v < 2 ^ 32) vectors → tvinit vectors !! j = Some g →
  (DPL_USER ≤ gd_dpl g ↔ j = T_SYSCALL) ∧ vectors !! j = Some (gate_offset g).
Proof.
  intros Hv Hg. unfold tvinit in Hg. apply list_lookup_insert_Some in Hg as [(<- & <- & Hl)|[Hne Hg]].
  - rewrite length_fmap in Hl. apply lookup_lt_is_Some in Hl as [v Ev].
    rewrite (list_lookup_total_correct _ _ _ Ev), SETGATE_offset by (exact (Forall_lookup_1 _ _ _ _ Hv Ev)).
    done.
  - rewrite list_lookup_fmap in Hg. apply fmap_Some in Hg as (v & Ev & ->).
    rewrite SETGATE_offset by (exact (Forall_lookup_1 _ _ _ _ Hv Ev)). split; [|done].
    simpl. unfold DPL_USER. split; [lia|congruence].
Qed.

Lemma setupsegs_confines_witness :
  reaches (SEG STA_W 0x200000 4095 DPL_USER) DPL_USER 0x200fff ∧
  ¬ reaches (SEG STA_W 0x200000 4095 DPL_USER) DPL_USER 0x201000.
Proof.
  set (p := set_sz (set_mem proc_zero 0x200000) 4096).
  assert (H : ∀ a, reaches (SEG STA_W 0x200000 4095 DPL_USER) DPL_USER a ↔
    (4%nat = 3%nat ∨ 4%nat = 4%nat) ∧ p_mem p ≤ a < p_mem p + p_sz p).
  { intros a. apply (setupsegs_confines p 0 4 _ a); [done|done|done|by exists 1|done]. }
  split; [apply H; split; [by right|done]|]. intros X. apply H in X as [_ [_ X]]. by vm_compute in X.
Defined.
