(* ===== verification/KState.v ===== *)
(** * The kernel's state

    The parts modelled one by one in the other files, put together for the code
    that uses several of them (file.c, sysfile.c, sysproc.c and the process
    functions of proc.c): the process table and run queues, the page allocator,
    the bytes of physical memory, the file table, the file system, the pipes,
    the clock and the descriptor table loaded on the processor.  [on_sch], [on_kmem], [on_fs] and [on_pipe] run the code of one part
    on this state; the file system sees the working directory of the current
    process, a pipe operation its [killed] flag.

    [k_bytes] are the bytes of memory in use: what the free list keeps in free
    pages is in [k_kmem], and the fields of a pipe's page are in [k_pipes]. *)
From S2P Require Import Prelude Kernel ProcData SchedState Kalloc CString Pipe Fs Mmu.
Local Open Scope Z_scope.

(** file.h *)
Inductive file_type := FD_CLOSED | FD_NONE | FD_PIPE | FD_INODE.

#[export] Instance file_type_eq_dec : EqDecision file_type.
Proof. solve_decision. Defined.

Record file := File {
  f_type : file_type;
  f_ref : Z;
  f_readable : bool;
  f_writable : bool;
  f_pipe : Z;
  f_ip : option nat;
  f_off : Z
}.
Definition file_zero : file := File FD_CLOSED 0 false false 0 None 0.

Definition set_f_type v f := File v (f_ref f) (f_readable f) (f_writable f) (f_pipe f) (f_ip f) (f_off f).
Definition set_f_ref v f := File (f_type f) v (f_readable f) (f_writable f) (f_pipe f) (f_ip f) (f_off f).
Definition set_f_off v f := File (f_type f) (f_ref f) (f_readable f) (f_writable f) (f_pipe f) (f_ip f) v.

Record kst := KSt {
  k_sch : schst;
  k_kmem : kmem;
  k_bytes : mem;
  k_files : list file;
  k_fs : fsst;
  k_pipes : gmap Z pipe;
  k_ticks : Z;
  k_segs : segs
}.

Section kst_fields.
Context (s : kst).
Definition set_k_sch v := KSt v (k_kmem s) (k_bytes s) (k_files s) (k_fs s) (k_pipes s) (k_ticks s) (k_segs s).
Definition set_k_kmem v := KSt (k_sch s) v (k_bytes s) (k_files s) (k_fs s) (k_pipes s) (k_ticks s) (k_segs s).
Definition set_k_bytes v := KSt (k_sch s) (k_kmem s) v (k_files s) (k_fs s) (k_pipes s) (k_ticks s) (k_segs s).
Definition set_k_files v := KSt (k_sch s) (k_kmem s) (k_bytes s) v (k_fs s) (k_pipes s) (k_ticks s) (k_segs s).
Definition set_k_fs v := KSt (k_sch s) (k_kmem s) (k_bytes s) (k_files s) v (k_pipes s) (k_ticks s) (k_segs s).
Definition set_k_pipes v := KSt (k_sch s) (k_kmem s) (k_bytes s) (k_files s) (k_fs s) v (k_ticks s) (k_segs s).
Definition set_k_ticks v := KSt (k_sch s) (k_kmem s) (k_bytes s) (k_files s) (k_fs s) (k_pipes s) v (k_segs s).
Definition set_k_segs v := KSt (k_sch s) (k_kmem s) (k_bytes s) (k_files s) (k_fs s) (k_pipes s) (k_ticks s) v.
End kst_fields.

(** The current process of a state, if there is one. *)
Definition running (s : schst) : option nat := c ← cpus s !! cpu_id s; curproc c.
Definition cur_proc (s : kst) : option proc := i ← running (k_sch s); procs (k_sch s) !! i.

Definition on_sch {A} : M schst A → M kst A := focus (λ s, Some (k_sch s)) (λ t s, set_k_sch s t).
Definition on_kmem {A} : M kmem A → M kst A := focus (λ s, Some (k_kmem s)) (λ t s, set_k_kmem s t).
Definition on_fs {A} : M fsst A → M kst A :=
  focus (λ s, Some (FsSt (disk (k_fs s)) (bbusy (k_fs s)) (icache (k_fs s)) (p ← cur_proc s; p_cwd p)))
        (λ t s, set_k_fs s t).
Definition on_pipe {A} (a : Z) : M pst A → M kst A :=
  focus (λ s, p ← k_pipes s !! a; c ← cur_proc s; Some (Pst p (p_killed c)))
        (λ t s, set_k_pipes s (<[a := pp t]> (k_pipes s))).
Definition on_pmem {A} (a : Z) : M pmem A → M kst A :=
  focus (λ s, p ← k_pipes s !! a; c ← cur_proc s; Some (Pmem (Pst p (p_killed c)) (k_kmem s)))
        (λ t s, set_k_kmem (set_k_pipes s (<[a := pp (pm_pipe t)]> (k_pipes s))) (pm_kmem t)).

(** [cp] as a number and as a structure; a null [cp] cannot be dereferenced. *)
Definition cp_index : M kst nat := s ← kget; deref (running (k_sch s)).
Definition cp_get : M kst proc := s ← kget; deref (cur_proc s).
Definition cp_set (f : proc → proc) : M kst unit := on_sch (at_cp f).

(** [setupsegs(cp)]; [ts] is the address of the processor's task state. *)
Definition load_segs (ts : Z) : M kst unit :=
  p ← cp_get; kmodify (λ s, set_k_segs s (setupsegs (Some p) ts)).

Definition get_file (f : nat) : M kst file := s ← kget; deref (k_files s !! f).
Definition at_file (f : nat) (g : file → file) : M kst unit :=
  x ← get_file f; kmodify (λ s, set_k_files s (<[f := g x]> (k_files s))).

Definition on_bytes (g : mem → mem) : M kst unit := kmodify (λ s, set_k_bytes s (g (k_bytes s))).

(** [kfree] of memory that may hold bytes: it fills the block with ones. *)
Definition kfree_bytes (v len : Z) : M kst unit :=
  on_kmem (kfree v len);; on_bytes (memset v 1 (u32 len)).

(** ** Bytes and words in memory *)
Fixpoint put_bytes (a : Z) (l : list Z) (m : mem) : mem :=
  match l with [] => m | b :: l => put_bytes (a + 1) l (wr m a b) end.
Definition get_bytes (m : mem) (a n : Z) : list Z := (λ i, rd m (a + Z.of_nat i)) <$> seq 0 (Z.to_nat n).
Definition rd32 (m : mem) (a : Z) : Z :=
  rd m a + 2 ^ 8 * rd m (a + 1) + 2 ^ 16 * rd m (a + 2) + 2 ^ 24 * rd m (a + 3).
Definition wr32 (m : mem) (a v : Z) : mem :=
  wr (wr (wr (wr m a v) (a + 1) (v / 2 ^ 8)) (a + 2) (v / 2 ^ 16)) (a + 3) (v / 2 ^ 24).

Lemma put_bytes_outside l : ∀ a m x, ¬ a ≤ x < a + Z.of_nat (length l) → rd (put_bytes a l m) x = rd m x.
Proof.
  induction l as [|b l IH]; intros a m x Hx; simpl in *; [done|].
  rewrite IH by lia. apply rd_wr_ne. lia.
Qed.

Lemma put_bytes_at l : ∀ a m, Forall (λ b, 0 ≤ b < 256) l → bytes_at (put_bytes a l m) a l.
Proof.
  induction l as [|b l IH]; intros a m Hl; simpl; [apply bytes_at_nil|].
  apply Forall_cons in Hl as [Hb Hl].
  apply bytes_at_cons. split; [|by apply IH].
  rewrite put_bytes_outside by lia. rewrite rd_wr_eq. by apply u8_small.
Qed.

Lemma rd32_range m a : bytes_mem m → 0 ≤ rd32 m a < 2 ^ 32.
Proof.
  intros B. unfold rd32. pose proof (B a). pose proof (B (a + 1)). pose proof (B (a + 2)). pose proof (B (a + 3)). lia.
Qed.

Lemma rd32_wr32 m a v : rd32 (wr32 m a v) a = u32 v.
Proof.
  unfold rd32, wr32. repeat first [rewrite rd_wr_eq | rewrite rd_wr_ne by lia]. unfold u8, u32.
  change (2 ^ 32) with (2 ^ 8 * (2 ^ 8 * (2 ^ 8 * 2 ^ 8))). rewrite !Z.rem_mul_r by lia. rewrite !Z.div_div by lia.
  change (2 ^ 8 * 2 ^ 8 * 2 ^ 8) with (2 ^ 24). change (2 ^ 8 * 2 ^ 8) with (2 ^ 16). lia.
Qed.
Lemma rd32_wr32_ne m a b v : a + 4 ≤ b ∨ b + 4 ≤ a → rd32 (wr32 m a v) b = rd32 m b.
Proof. intros. unfold rd32, wr32. by rewrite !rd_wr_ne by lia. Qed.
Lemma rd32_wr_ne m a b v : a < b ∨ b + 4 ≤ a → rd32 (wr m a v) b = rd32 m b.
Proof. intros. unfold rd32. by rewrite !rd_wr_ne by lia. Qed.

(** ** Running the parts *)
Section runs.
Context {A : Type} (c : kctx) (s : kst).

Lemma on_sch_Ok (m : M schst A) a c' t : m c (k_sch s) = Ok a c' t → on_sch m c s = Ok a c' (set_k_sch s t).
Proof. intros E. exact (focus_Ok (λ s, Some (k_sch s)) (λ t s, set_k_sch s t) m c s _ _ _ _ eq_refl E). Qed.
Lemma on_kmem_Ok (m : M kmem A) a c' t : m c (k_kmem s) = Ok a c' t → on_kmem m c s = Ok a c' (set_k_kmem s t).
Proof. intros E. exact (focus_Ok (λ s, Some (k_kmem s)) (λ t s, set_k_kmem s t) m c s _ _ _ _ eq_refl E). Qed.
Lemma on_kmem_Panic (m : M kmem A) msg t :
  m c (k_kmem s) = Panic msg t → on_kmem m c s = Panic msg (set_k_kmem s t).
Proof. intros E. exact (focus_Panic (λ s, Some (k_kmem s)) (λ t s, set_k_kmem s t) m c s _ _ _ eq_refl E). Qed.

Lemma cp_get_run p : cur_proc s = Some p → cp_get c s = Ok p c s.
Proof. intros E. unfold cp_get. by rewrite kget_bind, E. Qed.
End runs.

(** [s] after an assignment to the current process. *)
Definition upd_cp (i : nat) (p : proc) (s : kst) : kst :=
  set_k_sch s (set_procs (k_sch s) (<[i := p]> (procs (k_sch s)))).

Lemma at_current_run (t : schst) c i p f : running t = Some i → procs t !! i = Some p →
  at_cp f c t = Ok () c (set_procs t (<[i := f p]> (procs t))).
Proof.
  unfold running, at_cp, cp, get_cpu. intros R P.
  destruct (cpus t !! cpu_id t) as [u|] eqn:E; [|done]. simpl in R.
  unfold at_proc, get_proc_at, mbind, M_bind, kget, obind, deref, mret, M_ret. simpl.
  by rewrite E, R, P.
Qed.

Lemma cp_set_run c s i p f : running (k_sch s) = Some i → procs (k_sch s) !! i = Some p →
  cp_set f c s = Ok () c (upd_cp i (f p) s).
Proof. intros R P. apply on_sch_Ok. by apply at_current_run. Qed.

Lemma cur_proc_upd i p q s : running (k_sch s) = Some i → procs (k_sch s) !! i = Some q →
  cur_proc (upd_cp i p s) = Some p.
Proof.
  intros R Q. unfold cur_proc, upd_cp. cbn [k_sch set_k_sch].
  change (running (set_procs (k_sch s) (<[i:=p]> (procs (k_sch s))))) with (running (k_sch s)).
  rewrite R. simpl. apply list_lookup_insert_eq. by eapply lookup_lt_Some.
Qed.

Lemma kfree_bytes_run c s v len k : kfree v len c (k_kmem s) = Ok () c k →
  kfree_bytes v len c s = Ok () c (set_k_bytes (set_k_kmem s k) (memset v 1 (u32 len) (k_bytes s))).
Proof. intros E. unfold kfree_bytes. by rewrite (bind_Ok _ _ _ _ _ _ _ (on_kmem_Ok c s _ _ _ _ E)). Qed.

Lemma load_segs_run ts c s p : cur_proc s = Some p →
  load_segs ts c s = Ok () c (set_k_segs s (setupsegs (Some p) ts)).
Proof. intros E. unfold load_segs. by rewrite (bind_Ok _ _ _ _ _ _ _ (cp_get_run c s _ E)). Qed.
