(* ===== verification/Syscall.v ===== *)
(** * System call arguments (syscall.c)

    A process's memory is the [p_sz] bytes from the physical address [p_mem]; the
    kernel reads the arguments of a system call through it.  [fetchint] and
    [argint] give the word or fail, [fetchstr] and [argstr] the address of the
    string and its length, [argptr] the address of the buffer; [None] is -1.
    Addresses in the process are [uint]s and wrap.

    The table of handlers is [sysno]; the handlers are in Process and Sysfile. *)
From S2P Require Import Prelude Kernel ProcData CString KState.
Local Open Scope Z_scope.

Definition fetchint (m : mem) (p : proc) (addr : Z) : option Z :=
  if decide (addr >= p_sz p ∨ u32 (addr + 4) > p_sz p) then None
  else Some (s32 (rd32 m (p_mem p + addr))).

(** The scan of [fetchstr]: [n] bytes are left before the end of the process. *)
Fixpoint fetchstr_loop (m : mem) (pp s : Z) (n : nat) : option Z :=
  match n with
  | O => None
  | S n => if decide (rd m s = 0) then Some (s - pp) else fetchstr_loop m pp (s + 1) n
  end.
Definition fetchstr (m : mem) (p : proc) (addr : Z) : option (Z * Z) :=
  if decide (addr >= p_sz p) then None
  else
    let pp := p_mem p + addr in
    len ← fetchstr_loop m pp pp (Z.to_nat (p_sz p - addr)); Some (pp, len).

Definition argint (m : mem) (p : proc) (n : Z) : option Z :=
  fetchint m p (u32 (tf_esp (p_tf p) + 4 + 4 * n)).

Definition argptr (m : mem) (p : proc) (n size : Z) : option Z :=
  i ← argint m p n;
  if decide (u32 i >= p_sz p ∨ u32 (u32 i + size) >= p_sz p) then None
  else Some (p_mem p + i).

Definition argstr (m : mem) (p : proc) (n : Z) : option (Z * Z) :=
  addr ← argint m p n; fetchstr m p (u32 addr).

(** The arguments of a handler; a bad argument is the result -1. *)
Definition with_args {A} (args : mem → proc → option A) (body : A → M kst Z) : M kst Z :=
  p ← cp_get;
  m ← kgets k_bytes;
  match args m p with Some a => body a | None => mret (-1) end.

(** syscall.h *)
Inductive sysno :=
| SYS_fork | SYS_exit | SYS_wait | SYS_pipe | SYS_write | SYS_read | SYS_close | SYS_kill
| SYS_exec | SYS_open | SYS_mknod | SYS_unlink | SYS_fstat | SYS_link | SYS_mkdir | SYS_chdir
| SYS_dup | SYS_getpid | SYS_sbrk | SYS_sleep.

Definition sysno_of (num : Z) : option sysno :=
  nth (Z.to_nat num)
    [None; Some SYS_fork; Some SYS_exit; Some SYS_wait; Some SYS_pipe; Some SYS_write; Some SYS_read;
     Some SYS_close; Some SYS_kill; Some SYS_exec; Some SYS_open; Some SYS_mknod; Some SYS_unlink;
     Some SYS_fstat; Some SYS_link; Some SYS_mkdir; Some SYS_chdir; Some SYS_dup; Some SYS_getpid;
     Some SYS_sbrk; Some SYS_sleep] None.

(** [syscall], given the handlers; the one of [exit] does not return, which is the
    result [None].  The result says whether [syscall] returns; the message about an
    unknown call is left out. *)
Definition syscall (handler : sysno → M kst (option Z)) : M kst bool :=
  p ← cp_get;
  let num := s32 (tf_eax (p_tf p)) in
  match (if decide (0 ≤ num) then sysno_of num else None) with
  | Some k =>
      r ← handler k;
      match r with
      | Some r => cp_set (λ p, set_tf p (set_tf_eax (u32 r) (p_tf p)));; mret true
      | None => mret false
      end
  | None => cp_set (λ p, set_tf p (set_tf_eax (u32 (-1)) (p_tf p)));; mret true
  end.

(** ** The checks *)

(** A process the kernel can have made: its memory is not empty and lies in the
    lower half of the address space. *)
Record proc_mem_ok (p : proc) : Prop := {
  pm_mem : 0 ≤ p_mem p;
  pm_sz : 0 < p_sz p;
  pm_top : p_mem p + p_sz p ≤ 2 ^ 31
}.

Lemma fetchint_inside m p addr v : proc_mem_ok p → 0 ≤ addr < 2 ^ 32 →
  fetchint m p addr = Some v ↔ addr + 4 ≤ p_sz p ∧ v = s32 (rd32 m (p_mem p + addr)).
Proof.
  intros [? ? ?] Ha. unfold fetchint. destruct (decide (addr >= p_sz p ∨ u32 (addr + 4) > p_sz p)) as [D|D].
  - split; [done|]. intros [Hle _]. destruct D as [D|D]; [lia|]. rewrite u32_small in D by lia. lia.
  - rewrite u32_small in D by lia. split; [intros [= <-]; split; [lia|done]|by intros [_ ->]].
Qed.

Lemma fetchstr_loop_Some m pp n : ∀ s len, fetchstr_loop m pp s n = Some len ↔
  ∃ k, (k < n)%nat ∧ len = s + Z.of_nat k - pp ∧ rd m (s + Z.of_nat k) = 0 ∧
       ∀ j, (j < k)%nat → rd m (s + Z.of_nat j) ≠ 0.
Proof.
  induction n as [|n IH]; intros s len; simpl.
  { split; [done|]. intros (k & Hk & _). lia. }
  destruct (decide (rd m s = 0)) as [E|E].
  - split.
    + intros [= <-]. exists 0%nat. split_and!; [lia|lia|by rewrite Z.add_0_r|]. intros j Hj. lia.
    + intros ([|k] & Hk & -> & Hz & Hn); [f_equal; lia|]. specialize (Hn 0%nat ltac:(lia)).
      by rewrite Z.add_0_r in Hn.
  - rewrite IH. split.
    + intros (k & Hk & -> & Hz & Hn). exists (S k). rewrite Nat2Z.inj_succ.
      replace (s + Z.succ (Z.of_nat k)) with (s + 1 + Z.of_nat k) by lia. split_and!; [lia|lia|done|].
      intros [|j] Hj; [by rewrite Z.add_0_r|]. rewrite Nat2Z.inj_succ.
      replace (s + Z.succ (Z.of_nat j)) with (s + 1 + Z.of_nat j) by lia. apply Hn. lia.
    + intros ([|k] & Hk & -> & Hz & Hn); [by rewrite Z.add_0_r in Hz|].
      exists k. rewrite Nat2Z.inj_succ in Hz. replace (s + 1 + Z.of_nat k) with (s + Z.succ (Z.of_nat k)) by lia.
      split_and!; [lia|lia|done|]. intros j Hj. specialize (Hn (S j) ltac:(lia)). rewrite Nat2Z.inj_succ in Hn.
      by replace (s + 1 + Z.of_nat j) with (s + Z.succ (Z.of_nat j)) by lia.
Qed.

Lemma bytes_at_get m a n : 0 ≤ n → bytes_at m a (get_bytes m a n).
Proof.
  intros Hn i b Hi. unfold get_bytes in Hi. rewrite list_lookup_fmap in Hi.
  apply fmap_Some in Hi as (j & Hj & ->). apply lookup_seq in Hj as [-> _]. done.
Qed.

Lemma get_bytes_length m a n : 0 ≤ n → Z.of_nat (length (get_bytes m a n)) = n.
Proof. intros. unfold get_bytes. rewrite length_fmap, length_seq. lia. Qed.

Lemma cstr_iff m a n : bytes_mem m → 0 ≤ n →
  (∃ str, cstr m a str ∧ Z.of_nat (length str) = n) ↔
  rd m (a + n) = 0 ∧ ∀ j, 0 ≤ j < n → rd m (a + j) ≠ 0.
Proof.
  intros B Hn. split.
  - intros (str & [Hs Hb] & <-). split.
    + apply Hb. by rewrite lookup_app_r, Nat.sub_diag by lia.
    + intros j Hj. destruct (lookup_lt_is_Some_2 str (Z.to_nat j)) as [b Eb]; [lia|].
      specialize (Hb (Z.to_nat j) b). rewrite Z2Nat.id in Hb by lia. rewrite Hb by by apply lookup_app_l_Some.
      pose proof (Forall_lookup_1 _ _ _ _ Hs Eb) as Hb0. simpl in Hb0. lia.
  - intros [Hz Hnz]. exists (get_bytes m a n). pose proof (get_bytes_length m a n Hn) as L. split; [|done]. split.
    + apply Forall_lookup. intros i b Hi. pose proof (lookup_lt_Some _ _ _ Hi). apply (bytes_at_get m a n Hn) in Hi as <-.
      pose proof (Hnz (Z.of_nat i) ltac:(lia)). pose proof (B (a + Z.of_nat i)). lia.
    + intros i b [Hi|[Hge Hi]]%lookup_app_Some; [by apply (bytes_at_get m a n Hn)|].
      apply list_lookup_singleton_Some in Hi as [Hi <-]. replace (Z.of_nat i) with n by lia. done.
Qed.

Lemma fetchstr_iff m p addr pp len : proc_mem_ok p → bytes_mem m → 0 ≤ addr →
  fetchstr m p addr = Some (pp, len) ↔
  pp = p_mem p + addr ∧ ∃ str, cstr m pp str ∧ Z.of_nat (length str) = len ∧ addr + len < p_sz p.
Proof.
  intros [? ? ?] B Ha. unfold fetchstr. destruct (decide (addr >= p_sz p)) as [D|D].
  { split; [done|]. intros (_ & str & _ & <- & Hlt). lia. }
  set (q := p_mem p + addr). split.
  - destruct (fetchstr_loop m q q _) as [l|] eqn:E; simpl; intros [= <- <-]. split; [done|].
    apply fetchstr_loop_Some in E as (k & Hk & -> & Hz & Hn).
    replace (q + Z.of_nat k - q) with (Z.of_nat k) by lia.
    destruct (proj2 (cstr_iff m q (Z.of_nat k) B ltac:(lia))) as (str & Hs & L).
    + split; [done|]. intros j Hj. specialize (Hn (Z.to_nat j) ltac:(lia)). by rewrite Z2Nat.id in Hn by lia.
    + exists str. split_and!; [done|done|lia].
  - intros (-> & str & Hs & L & Hlt). fold q in Hs |- *.
    destruct (proj1 (cstr_iff m q len B ltac:(lia))) as [Hz Hn]; [by exists str|].
    rewrite (proj2 (fetchstr_loop_Some m q _ q len)); [done|]. exists (length str).
    rewrite L. split_and!; [lia|lia|done|]. intros j Hj. apply Hn. lia.
Qed.

(** C33 The argument checks are exact.  [argptr] accepts a buffer of [size >= 0] bytes
    exactly when argument [n] is readable and is the address of a buffer whose last
    byte lies before the last byte of the process, and gives its kernel address;
    [argstr] accepts exactly the addresses of strings whose terminating zero lies in
    the process, and gives their kernel address and length. *)
Theorem syscall_args_inside m p n size a len :
  proc_mem_ok p → bytes_mem m → 0 ≤ size < 2 ^ 31 →
  (argptr m p n size = Some a ↔
     ∃ i, argint m p n = Some i ∧ 0 ≤ i ∧ i + size < p_sz p ∧ a = p_mem p + i) ∧
  (argstr m p n = Some (a, len) ↔
     ∃ i str, argint m p n = Some i ∧ a = p_mem p + u32 i ∧ cstr m a str ∧
              Z.of_nat (length str) = len ∧ u32 i + len < p_sz p).
Proof.
  intros P B Hs. pose proof P as [? ? ?]. unfold argptr, argstr.
  assert (R : ∀ i, argint m p n = Some i → - 2 ^ 31 ≤ i < 2 ^ 31).
  { intros i. unfold argint, fetchint. case_decide; [done|]. intros [= <-]. apply s32_range. }
  destruct (argint m p n) as [i|]; simpl; [|split; (split; [done|intros (? & X)])].
  2: by destruct X.
  2: by destruct X as (? & ? & _).
  specialize (R i eq_refl). split.
  - assert (U : u32 i < p_sz p → u32 i = i).
    { intros Hlt. destruct (decide (0 ≤ i)); [apply u32_small; lia|].
      unfold u32 in *. rewrite <- (Z_mod_plus_full i 1 (2 ^ 32)) in Hlt. rewrite Z.mod_small in Hlt; lia. }
    case_decide as D.
    + split; [done|]. intros (? & [= <-] & Hi & Hlt & _). rewrite (u32_small i), u32_small in D by lia. lia.
    + pose proof (U ltac:(lia)) as E. pose proof (u32_range i) as Hr. rewrite E in D, Hr.
      rewrite u32_small in D by lia. split; [intros [= <-]; exists i; split_and!; (done || lia)|].
      by intros (? & [= <-] & _ & _ & ->).
  - rewrite fetchstr_iff by (done || apply u32_range). split.
    + intros (-> & str & ? & ? & ?). by exists i, str.
    + intros (? & str & [= <-] & -> & ? & ? & ?). split; [done|]. by exists str.
Qed.

(** ** Witness *)

(** A process of one page at 8192: argument 0 is the address 64, where the string
    [hi] is. *)
Definition arg_proc : proc := set_tf (set_sz (set_mem proc_zero 8192) 4096)
  (Trapframe 0 0 0 0 0 0 0 0 0 0 0 0 0 0 0 16 0).
Definition arg_mem : mem := <[8192 + 20 := 64]> (put_bytes (8192 + 64) (lit "hi") ∅).

Lemma arg_mem_bytes : bytes_mem arg_mem.
Proof.
  assert (H : map_Forall (λ _ b, 0 ≤ b < 256) arg_mem) by (apply map_Forall_to_list; vm_compute; repeat constructor; congruence).
  intros x. unfold rd. destruct (arg_mem !! x) as [b|] eqn:E; [apply (H _ _ E)|simpl; lia].
Qed.

Lemma syscall_args_inside_witness :
  argptr arg_mem arg_proc 0 100 = Some 8256 ∧ (∃ str, cstr arg_mem 8256 str ∧ length str = 2%nat).
Proof.
  assert (P : proc_mem_ok arg_proc) by (split; vm_compute; congruence).
  destruct (syscall_args_inside arg_mem arg_proc 0 100 8256 2 P arg_mem_bytes ltac:(lia)) as [H1 H2]. split.
  - apply H1. exists 64. split_and!; [by vm_compute|lia|by vm_compute|done].
  - destruct (proj1 H2) as (i & str & _ & _ & Hs & Hl & _); [by vm_compute|]. exists str. split; [done|lia].
Defined.
