(* ===== verification/FileTable.v ===== *)
(** * Open files (file.c, pipealloc of pipe.c)

    The table of open files.  A buffer argument is the kernel address of the bytes;
    [fileread] stores there what the pipe or the inode gave, [filewrite] takes the
    bytes from there.  Results below zero are the code's -1; [filestat] and
    [pipealloc] give [None] for -1. *)
From S2P Require Import Prelude Kernel ProcData SchedState Kalloc CString Pipe Fs KState.
Local Open Scope Z_scope.

Section files.
Context (fuel : nat).
Context (dev_read : Z → option (nat → Z → M fsst (option (list Z)))).
Context (dev_write : Z → option (nat → list Z → M fsst Z)).

Fixpoint filealloc_loop (l : list nat) : M kst (option nat) :=
  match l with
  | [] => release LkFileTable;; mret None
  | i :: l =>
      x ← get_file i;
      if decide (f_type x = FD_CLOSED) then
        at_file i (set_f_type FD_NONE);;
        at_file i (set_f_ref 1);;
        release LkFileTable;;
        mret (Some i)
      else filealloc_loop l
  end.
Definition filealloc : M kst (option nat) :=
  acquire LkFileTable;; filealloc_loop (seq 0 NFILE).

Definition filedup (f : nat) : M kst nat :=
  acquire LkFileTable;;
  x ← get_file f;
  if decide (f_ref x < 1 ∨ f_type x = FD_CLOSED) then panic "filedup"
  else at_file f (λ x, set_f_ref (f_ref x + 1) x);; release LkFileTable;; mret f.

(** [pipeclose] on the kernel's state: a page that was freed is no pipe any more. *)
Definition close_pipe (a : Z) (writable : bool) : M kst unit :=
  on_pmem a (pipeclose a writable);;
  s ← kget;
  p ← deref (k_pipes s !! a);
  if negb (readopen p) && negb (writeopen p) then
    kmodify (λ s, set_k_pipes s (delete a (k_pipes s)));; on_bytes (memset a 1 PAGE)
  else mret ().

Definition fileclose (f : nat) : M kst unit :=
  acquire LkFileTable;;
  x ← get_file f;
  if decide (f_ref x < 1 ∨ f_type x = FD_CLOSED) then panic "fileclose"
  else
    at_file f (set_f_ref (f_ref x - 1));;
    if decide (f_ref x - 1 > 0) then release LkFileTable
    else
      at_file f (set_f_ref 0);;
      at_file f (set_f_type FD_CLOSED);;
      release LkFileTable;;
      match f_type x with
      | FD_PIPE => close_pipe (f_pipe x) (f_writable x)
      | FD_INODE => ip ← deref (f_ip x); on_fs (iput fuel ip)
      | _ => panic "fileclose"
      end.

Definition filestat (f : nat) : M kst (option stat) :=
  x ← get_file f;
  if decide (f_type x = FD_INODE) then
    ip ← deref (f_ip x);
    on_fs (ilock fuel ip);;
    st ← on_fs (stati ip);
    on_fs (iunlock ip);;
    mret (Some st)
  else mret None.

Definition fileread (f : nat) (addr n : Z) : M kst Z :=
  x ← get_file f;
  if negb (f_readable x) then mret (-1)
  else
    match f_type x with
    | FD_PIPE =>
        r ← on_pipe (f_pipe x) (piperead (f_pipe x) fuel n);
        match r with
        | Some l => on_bytes (put_bytes addr l);; mret (Z.of_nat (length l))
        | None => mret (-1)
        end
    | FD_INODE =>
        ip ← deref (f_ip x);
        on_fs (ilock fuel ip);;
        y ← get_file f;
        r ← on_fs (readi fuel dev_read ip (f_off y) (u32 n));
        match r with
        | Some l =>
            on_bytes (put_bytes addr l);;
            (if decide (0 < length l)%nat
             then at_file f (λ x, set_f_off (u32 (f_off x + Z.of_nat (length l))) x) else mret ());;
            on_fs (iunlock ip);;
            mret (Z.of_nat (length l))
        | None => on_fs (iunlock ip);; mret (-1)
        end
    | _ => panic "fileread"
    end.

Definition filewrite (f : nat) (addr n : Z) : M kst Z :=
  x ← get_file f;
  if negb (f_writable x) then mret (-1)
  else
    m ← kgets k_bytes;
    match f_type x with
    | FD_PIPE => on_pipe (f_pipe x) (pipewrite (f_pipe x) fuel (get_bytes m addr n))
    | FD_INODE =>
        ip ← deref (f_ip x);
        on_fs (ilock fuel ip);;
        y ← get_file f;
        r ← on_fs (writei fuel dev_write ip (get_bytes m addr (u32 n)) (f_off y) (u32 n));
        let r := s32 r in
        (if decide (r > 0) then at_file f (λ x, set_f_off (u32 (f_off x + r)) x) else mret ());;
        on_fs (iunlock ip);;
        mret r
    | _ => panic "filewrite"
    end.

(** ** pipealloc *)
Definition close_unused (f : option nat) : M kst unit :=
  match f with
  | Some f => at_file f (set_f_type FD_NONE);; fileclose f
  | None => mret ()
  end.
Definition pipealloc_bad (p : Z) (f0 f1 : option nat) : M kst (option (nat * nat)) :=
  (if decide (p ≠ 0) then kfree_bytes p PAGE else mret ());;
  close_unused f0;; close_unused f1;; mret None.

(** The ring of a new pipe holds whatever the page held. *)
Definition pipe_file (readable : bool) (p : Z) (x : file) : file :=
  File FD_PIPE (f_ref x) readable (negb readable) p (f_ip x) (f_off x).
Definition pipealloc : M kst (option (nat * nat)) :=
  r0 ← filealloc;
  match r0 with
  | None => pipealloc_bad 0 None None
  | Some f0 =>
      r1 ← filealloc;
      match r1 with
      | None => pipealloc_bad 0 (Some f0) None
      | Some f1 =>
          p ← on_kmem (kalloc PAGE);
          if decide (p = 0) then pipealloc_bad p (Some f0) (Some f1)
          else
            kmodify (λ s, set_k_pipes s (<[p := Pipe true true 0 0 (get_bytes (k_bytes s) p PIPESIZE)]> (k_pipes s)));;
            at_file f0 (pipe_file true p);;
            at_file f1 (pipe_file false p);;
            mret (Some (f0, f1))
      end
  end.
End files.
