(* ===== verification/Exec.v ===== *)
(** * Loading a program (exec.c, elf.h)

    [exec] replaces the memory image of the current process by the program in a
    file.  [argv] are the kernel addresses of the argument strings.  The two
    structures it reads, [elf] and [ph], are given by their bytes; what [readi]
    does not fill in is what the stack held before.  A [goto bad] is a result
    [None] or [false]. *)
From S2P Require Import Prelude Kernel ProcData SchedState Kalloc CString FsDisk Fs Mmu KState.
Local Open Scope Z_scope.

Definition ELF_MAGIC : Z := 0x464C457F.
Definition ELF_PROG_LOAD : Z := 1.
Definition ELFHDR_SIZE : Z := 52.
Definition PROGHDR_SIZE : Z := 32.

Record elfhdr := Elfhdr { e_magic : Z; e_entry : Z; e_phoff : Z; e_phnum : Z }.
Definition elfhdr_at (d : list Z) : elfhdr := Elfhdr (get32 d 0) (get32 d 24) (get32 d 28) (get16 d 44).
Record proghdr := Proghdr { ph_type : Z; ph_offset : Z; ph_va : Z; ph_filesz : Z; ph_memsz : Z }.
Definition proghdr_at (d : list Z) : proghdr :=
  Proghdr (get32 d 0) (get32 d 4) (get32 d 8) (get32 d 16) (get32 d 20).

(** The [int] a read returned. *)
Definition read_count (r : option (list Z)) : Z := match r with Some l => Z.of_nat (length l) | None => -1 end.

Section exec.
Context (fuel : nat).
Context (dev_read : Z → option (nat → Z → M fsst (option (list Z)))).
Context (ts : Z).

Definition read_at (ip : nat) (off n : Z) : M kst (option (list Z)) := on_fs (readi fuel dev_read ip (u32 off) n).

(** "Compute memory size of new process": the program segments. *)
Fixpoint exec_size (n : nat) (ip : nat) (off sz : Z) : M kst (option Z) :=
  match n with
  | O => mret (Some sz)
  | S n =>
      r ← read_at ip off PROGHDR_SIZE;
      match r with
      | Some d =>
          let ph := proghdr_at d in
          if decide (length d ≠ Z.to_nat PROGHDR_SIZE) then mret None
          else if decide (ph_type ph ≠ ELF_PROG_LOAD) then exec_size n ip (off + PROGHDR_SIZE) sz
          else if decide (ph_memsz ph < ph_filesz ph) then mret None
          else exec_size n ip (off + PROGHDR_SIZE) (u32 (sz + ph_memsz ph))
      | None => mret None
      end
  end.

(** "Load program into memory." *)
Fixpoint exec_load (n : nat) (ip : nat) (off mem sz : Z) : M kst bool :=
  match n with
  | O => mret true
  | S n =>
      r ← read_at ip off PROGHDR_SIZE;
      match r with
      | Some d =>
          let ph := proghdr_at d in
          if decide (length d ≠ Z.to_nat PROGHDR_SIZE) then mret false
          else if decide (ph_type ph ≠ ELF_PROG_LOAD) then exec_load n ip (off + PROGHDR_SIZE) mem sz
          else if decide (u32 (ph_va ph + ph_memsz ph) > sz) then mret false
          else
            r ← read_at ip (ph_offset ph) (ph_filesz ph);
            on_bytes (put_bytes (u32 (mem + ph_va ph)) (default [] r));;
            if decide (u32 (read_count r) ≠ ph_filesz ph) then mret false
            else
              on_bytes (memset (u32 (mem + ph_va ph + ph_filesz ph)) 0 (u32 (ph_memsz ph - ph_filesz ph)));;
              exec_load n ip (off + PROGHDR_SIZE) mem sz
      | None => mret false
      end
  end.

(** [strlen(s)], in memory that ends with the address space. *)
Definition string_length (a : Z) : M kst Z :=
  m ← kgets k_bytes; deref (strlen m a (Z.to_nat (2 ^ 32 - a))).

Fixpoint args_length (argv : list Z) (arglen : Z) : M kst Z :=
  match argv with
  | [] => mret arglen
  | a :: argv => n ← string_length a; args_length argv (arglen + (n + 1))
  end.

(** "Copy argv strings and pointers to stack": the arguments from the last to the
    first, each with its number. *)
Fixpoint push_args (args : list (nat * Z)) (mem argp sp : Z) : M kst unit :=
  match args with
  | [] => mret ()
  | (i, a) :: args =>
      n ← string_length a;
      let sp := u32 (sp - (n + 1)) in
      on_bytes (memmove (mem + sp) a (n + 1));;
      on_bytes (λ m, wr32 m (mem + argp + 4 * Z.of_nat i) sp);;
      push_args args mem argp sp
  end.

(** The part of the path after its last slash. *)
Fixpoint last_elem (last path : list Z) : list Z :=
  match path with
  | [] => last
  | c :: path => last_elem (if decide (c = 47) then path else last) path
  end.

Definition exec_bad (mem sz : Z) (ip : nat) : M kst Z :=
  (if decide (mem ≠ 0) then kfree_bytes mem sz else mret ());;
  on_fs (iunlockput fuel ip);;
  mret (-1).

Definition exec_stack_size (sz arglen argc : Z) : Z :=
  let sz := u32 (sz + (arglen + 4 * (argc + 1))) in
  let sz := u32 (sz + PAGE) in
  Z.land (u32 (sz + PAGE - 1)) (u32 (Z.lnot (PAGE - 1))).

Definition exec_commit (path : list Z) (elf : elfhdr) (mem sz sp : Z) : M kst Z :=
  cp_set (λ p, set_name p (splice (p_name p) 0 (take 15 (last_elem path path) ++ [0])));;
  p ← cp_get;
  kfree_bytes (p_mem p) (p_sz p);;
  cp_set (λ p, set_mem p mem);;
  cp_set (λ p, set_sz p sz);;
  cp_set (λ p, set_tf p (set_tf_eip_esp (e_entry elf) sp (p_tf p)));;
  load_segs ts;;
  mret 0.

Definition exec_stack (argv : list Z) (arglen mem sz : Z) : M kst Z :=
  let argc := Z.of_nat (length argv) in
  let argp := u32 (sz - arglen - 4 * (argc + 1)) in
  on_bytes (λ m, wr32 m (mem + argp + 4 * argc) 0);;
  push_args (reverse (imap pair argv)) mem argp sz;;
  let sp := u32 (argp - 4) in
  on_bytes (λ m, wr32 m (mem + sp) argp);;
  let sp := u32 (sp - 4) in
  on_bytes (λ m, wr32 m (mem + sp) argc);;
  let sp := u32 (sp - 4) in
  on_bytes (λ m, wr32 m (mem + sp) 0xffffffff);;
  mret sp.

(** [stack] are the bytes of the local variable [elf] before it is read. *)
Definition exec (stack : list Z) (path : list Z) (argv : list Z) : M kst Z :=
  r ← on_fs (namei fuel path);
  match r with
  | None => mret (-1)
  | Some ip =>
      on_fs (ilock fuel ip);;
      r ← read_at ip 0 ELFHDR_SIZE;
      let elf := elfhdr_at (splice stack 0 (default [] r)) in
      if decide (u32 (read_count r) < ELFHDR_SIZE) then exec_bad 0 0 ip
      else if decide (e_magic elf ≠ ELF_MAGIC) then exec_bad 0 0 ip
      else
        r ← exec_size (Z.to_nat (e_phnum elf)) ip (e_phoff elf) 0;
        match r with
        | None => exec_bad 0 0 ip
        | Some sz =>
            arglen ← args_length argv 0;
            let arglen := Z.land (arglen + 3) (Z.lnot 3) in
            let sz := exec_stack_size sz arglen (Z.of_nat (length argv)) in
            mem ← on_kmem (kalloc (s32 sz));
            if decide (mem = 0) then exec_bad 0 sz ip
            else
              on_bytes (memset mem 0 sz);;
              ok ← exec_load (Z.to_nat (e_phnum elf)) ip (e_phoff elf) mem sz;
              if negb ok then exec_bad mem sz ip
              else
                on_fs (iunlockput fuel ip);;
                sp ← exec_stack argv arglen mem sz;
                exec_commit path elf mem sz sp
        end
  end.
End exec.
