(* ===== verification/Sysfile.v ===== *)
(** * File system calls (sysfile.c)

    Each handler reads its arguments from the memory of the current process and
    works on the kernel's state; its result is the [int] the call returns.  A path
    argument is the list of the bytes of the string.  The directory entry name of a
    path is a buffer of DIRSIZ bytes, zero here before it is filled in. *)
From S2P Require Import Prelude Kernel ProcData SchedState CString FsDisk Fs KState Syscall FileTable Exec.
Local Open Scope Z_scope.

Definition O_WRONLY : Z := 1.
Definition O_RDWR : Z := 2.
Definition O_CREATE : Z := 0x200.

Definition argfd (m : mem) (p : proc) (n : Z) : option (nat * nat) :=
  fd ← argint m p n;
  if decide (fd < 0 ∨ fd >= Z.of_nat NOFILE) then None
  else f ← mjoin (p_ofile p !! Z.to_nat fd); Some (Z.to_nat fd, f).

(** A path argument: its bytes. *)
Definition argpath (m : mem) (p : proc) (n : Z) : option (list Z) :=
  a ← argstr m p n; Some (get_bytes m a.1 a.2).

Fixpoint fdalloc_scan (l : list (option nat)) (fd : nat) : option nat :=
  match l with
  | [] => None
  | None :: _ => Some fd
  | Some _ :: l => fdalloc_scan l (S fd)
  end.
Definition set_fd (fd : nat) (v : option nat) : M kst unit :=
  cp_set (λ p, set_ofile p (<[fd := v]> (p_ofile p))).
Definition fdalloc (f : nat) : M kst (option nat) :=
  p ← cp_get;
  match fdalloc_scan (p_ofile p) 0 with
  | Some fd => set_fd fd (Some f);; mret (Some fd)
  | None => mret None
  end.

Section calls.
Context (fuel : nat).
Context (dev_read : Z → option (nat → Z → M fsst (option (list Z)))).
Context (dev_write : Z → option (nat → list Z → M fsst Z)).

Definition rw_args (m : mem) (p : proc) : option (nat * Z * Z) :=
  f ← argfd m p 0; n ← argint m p 2; a ← argptr m p 1 n; Some (f.2, a, n).

Definition sys_read : M kst Z :=
  with_args rw_args (λ '(f, p, n), fileread fuel dev_read f p n).
Definition sys_write : M kst Z :=
  with_args rw_args (λ '(f, p, n), filewrite fuel dev_write f p n).

Definition sys_dup : M kst Z :=
  with_args (λ m p, argfd m p 0) (λ '(_, f),
    r ← fdalloc f;
    match r with
    | Some fd => filedup f;; mret (Z.of_nat fd)
    | None => mret (-1)
    end).

Definition sys_close : M kst Z :=
  with_args (λ m p, argfd m p 0) (λ '(fd, f), set_fd fd None;; fileclose fuel f;; mret 0).

(** [struct stat] in memory. *)
Definition put_stat (a : Z) (st : stat) (m : mem) : mem :=
  wr32 (wr32 (wr32 (wr32 m a (st_dev st)) (a + 4) (st_ino st))
    (a + 8) (u16 (st_type st) + 2 ^ 16 * u16 (st_nlink st))) (a + 12) (st_size st).
Definition sys_fstat : M kst Z :=
  with_args (λ m p, f ← argfd m p 0; a ← argptr m p 1 16; Some (f.2, a)) (λ '(f, st),
    r ← filestat fuel f;
    match r with
    | Some v => on_bytes (put_stat st v);; mret 0
    | None => mret (-1)
    end).

(** ** Directories *)
Definition no_name : list Z := replicate 14 0.
Definition lk (ip : nat) : M fsst unit := ilock fuel ip.
Definition ulp (ip : nat) : M fsst unit := iunlockput fuel ip.
Definition add_nlink (d : Z) (i : inode) : inode := set_nlink (s16 (i_nlink i + d)) i.

Definition link_bad (dp : option nat) (ip : nat) : M fsst Z :=
  (match dp with Some dp => ulp dp | None => mret () end);;
  lk ip;; at_inode ip (add_nlink (-1));; iupdate fuel ip;; ulp ip;; mret (-1).

Definition link (old new : list Z) : M fsst Z :=
  r ← namei fuel old;
  match r with
  | None => mret (-1)
  | Some ip =>
      lk ip;;
      i ← get_inode ip;
      if decide (i_type i = T_DIR) then ulp ip;; mret (-1)
      else
        at_inode ip (add_nlink 1);; iupdate fuel ip;; iunlock ip;;
        r ← nameiparent fuel new no_name;
        match r with
        | None => link_bad None ip
        | Some (dp, name) =>
            lk dp;;
            d ← get_inode dp;
            i ← get_inode ip;
            if decide (i_dev d ≠ i_dev i) then link_bad (Some dp) ip
            else
              r ← dirlink fuel dev_read dev_write dp name (i_inum i);
              if decide (r < 0) then link_bad (Some dp) ip
              else ulp dp;; iput fuel ip;; mret 0
        end
  end.
Definition sys_link : M kst Z :=
  with_args (λ m p, old ← argpath m p 0; new ← argpath m p 1; Some (old, new))
    (λ '(old, new), on_fs (link old new)).

Fixpoint isdirempty_loop (k : nat) (dp : nat) (off : Z) : M fsst bool :=
  match k with
  | O => diverge
  | S k =>
      i ← get_inode dp;
      if decide (off < i_size i) then
        r ← readi fuel dev_read dp off 16;
        match r with
        | Some de =>
            if decide (length de ≠ 16%nat) then panic "isdirempty: readi"
            else if decide (get16 de 0 ≠ 0) then mret false
            else isdirempty_loop k dp (off + 16)
        | None => panic "isdirempty: readi"
        end
      else mret true
  end.
Definition isdirempty (dp : nat) : M fsst bool :=
  i ← get_inode dp; isdirempty_loop (S (Z.to_nat (i_size i / 16))) dp 32.

Definition unlink (path : list Z) : M fsst Z :=
  r ← nameiparent fuel path no_name;
  match r with
  | None => mret (-1)
  | Some (dp, name) =>
      lk dp;;
      if decide (namecmp name (lit ".") = 0 ∨ namecmp name (lit "..") = 0) then ulp dp;; mret (-1)
      else
        r ← dirlookup fuel dp name;
        match r with
        | None => ulp dp;; mret (-1)
        | Some (ip, off) =>
            lk ip;;
            i ← get_inode ip;
            if decide (i_nlink i < 1) then panic "unlink: nlink < 1"
            else
              empty ← (if decide (i_type i = T_DIR) then isdirempty ip else mret true);
              if negb empty then ulp ip;; ulp dp;; mret (-1)
              else
                w ← writei fuel dev_write dp (replicate 16 0) off 16;
                if decide (w ≠ 16) then panic "unlink: writei"
                else
                  ulp dp;;
                  at_inode ip (add_nlink (-1));; iupdate fuel ip;; ulp ip;; mret 0
        end
  end.
Definition sys_unlink : M kst Z := with_args (λ m p, argpath m p 0) (λ path, on_fs (unlink path)).

Definition create_new (dp : nat) (name : list Z) (type major minor : Z) : M fsst (option nat) :=
  d ← get_inode dp;
  ip ← ialloc fuel (i_dev d) type;
  lk ip;;
  at_inode ip (λ i, Inode (i_dev i) (i_inum i) (i_ref i) (i_busy i) (i_valid i) (i_type i)
    major minor 1 (i_size i) (i_addrs i));;
  iupdate fuel ip;;
  i ← get_inode ip;
  r ← dirlink fuel dev_read dev_write dp name (i_inum i);
  if decide (r < 0) then at_inode ip (set_nlink 0);; ulp ip;; ulp dp;; mret None
  else
    (if decide (type = T_DIR) then
       at_inode dp (add_nlink 1);; iupdate fuel dp;;
       d ← get_inode dp;
       r1 ← dirlink fuel dev_read dev_write ip (lit ".") (i_inum i);
       if decide (r1 < 0) then panic "create dots"
       else
         r2 ← dirlink fuel dev_read dev_write ip (lit "..") (i_inum d);
         if decide (r2 < 0) then panic "create dots" else mret ()
     else mret ());;
    ulp dp;; mret (Some ip).

(** The inode is returned locked. *)
Definition create (path : list Z) (canexist : bool) (type major minor : Z) : M fsst (option nat) :=
  r ← nameiparent fuel path no_name;
  match r with
  | None => mret None
  | Some (dp, name) =>
      lk dp;;
      e ← (if canexist then dirlookup fuel dp name else mret None);
      match e with
      | Some (ip, _) =>
          ulp dp;;
          lk ip;;
          i ← get_inode ip;
          if decide (i_type i ≠ type ∨ i_major i ≠ major ∨ i_minor i ≠ minor) then ulp ip;; mret None
          else mret (Some ip)
      | None => create_new dp name type major minor
      end
  end.

(** [sys_open] up to the locked inode. *)
Definition open_inode (path : list Z) (omode : Z) : M fsst (option nat) :=
  if decide (Z.land omode O_CREATE ≠ 0) then create path true T_FILE 0 0
  else
    r ← namei fuel path;
    match r with
    | None => mret None
    | Some ip =>
        lk ip;;
        i ← get_inode ip;
        if decide (i_type i = T_DIR ∧ Z.land omode (Z.lor O_RDWR O_WRONLY) ≠ 0) then ulp ip;; mret None
        else mret (Some ip)
    end.

Definition open_file (ip : nat) (omode : Z) (x : file) : file :=
  File FD_INODE (f_ref x) (bool_decide (Z.land omode O_WRONLY = 0))
    (bool_decide (Z.land omode O_WRONLY ≠ 0 ∨ Z.land omode O_RDWR ≠ 0)) (f_pipe x) (Some ip) 0.

(** The rest of [sys_open]. *)
Definition open_fd (ip : nat) (omode : Z) : M kst Z :=
  r ← filealloc;
  match r with
  | None => on_fs (ulp ip);; mret (-1)
  | Some f =>
      r ← fdalloc f;
      match r with
      | None => fileclose fuel f;; on_fs (ulp ip);; mret (-1)
      | Some fd => on_fs (iunlock ip);; at_file f (open_file ip omode);; mret (Z.of_nat fd)
      end
  end.
Definition sys_open : M kst Z :=
  with_args (λ m p, path ← argpath m p 0; omode ← argint m p 1; Some (path, omode)) (λ '(path, omode),
    r ← on_fs (open_inode path omode);
    match r with Some ip => open_fd ip omode | None => mret (-1) end).

(** [mknod] and [mkdir] once the arguments are there. *)
Definition make (path : list Z) (type major minor : Z) : M fsst Z :=
  r ← create path false type major minor;
  match r with Some ip => ulp ip;; mret 0 | None => mret (-1) end.
Definition sys_mknod : M kst Z :=
  with_args (λ m p, path ← argpath m p 0; major ← argint m p 1; minor ← argint m p 2; Some (path, major, minor))
    (λ '(path, major, minor), on_fs (make path T_DEV (s16 major) (s16 minor))).
Definition sys_mkdir : M kst Z := with_args (λ m p, argpath m p 0) (λ path, on_fs (make path T_DIR 0 0)).

Definition chdir_inode (path : list Z) : M fsst (option nat) :=
  r ← namei fuel path;
  match r with
  | None => mret None
  | Some ip =>
      lk ip;;
      i ← get_inode ip;
      if decide (i_type i ≠ T_DIR) then ulp ip;; mret None
      else iunlock ip;; mret (Some ip)
  end.
Definition sys_chdir : M kst Z :=
  with_args (λ m p, argpath m p 0) (λ path,
    r ← on_fs (chdir_inode path);
    match r with
    | None => mret (-1)
    | Some ip =>
        p ← cp_get;
        old ← deref (p_cwd p);
        on_fs (iput fuel old);;
        cp_set (λ p, set_cwd p (Some ip));;
        mret 0
    end).

(** ** exec and pipe *)

(** The strings of [argv], at most [n] entries with the null pointer. *)
Fixpoint exec_args (m : mem) (p : proc) (uargv : Z) (n : nat) : option (list Z) :=
  match n with
  | O => None
  | S n =>
      uarg ← fetchint m p uargv;
      if decide (uarg = 0) then Some []
      else
        a ← fetchstr m p (u32 uarg);
        l ← exec_args m p (u32 (uargv + 4)) n;
        Some (a.1 :: l)
  end.
Definition sys_exec (ts : Z) (stack : list Z) : M kst Z :=
  with_args (λ m p, path ← argpath m p 0; uargv ← argint m p 1;
                    argv ← exec_args m p (u32 uargv) 20; Some (path, argv))
    (λ '(path, argv), exec fuel dev_read ts stack path argv).

Definition sys_pipe : M kst Z :=
  with_args (λ m p, argptr m p 0 8) (λ fd,
    r ← pipealloc fuel;
    match r with
    | None => mret (-1)
    | Some (rf, wf) =>
        fd0 ← fdalloc rf;
        match fd0 with
        | None => fileclose fuel rf;; fileclose fuel wf;; mret (-1)
        | Some fd0 =>
            fd1 ← fdalloc wf;
            match fd1 with
            | None => set_fd fd0 None;; fileclose fuel rf;; fileclose fuel wf;; mret (-1)
            | Some fd1 =>
                on_bytes (λ m, wr32 (wr32 m fd (Z.of_nat fd0)) (fd + 4) (Z.of_nat fd1));; mret 0
            end
        end
    end).
End calls.
