(* ===== verification/FileIO.v ===== *)
(** * Reading and writing open files

    [fileread] and [filewrite] on a descriptor of a regular file, on the kernel's state:
    the file table's offset, the lock of the inode and the contents of the file
    together.  The inode is not locked and no buffer is in use when the call starts. *)
From S2P Require Import Prelude Kernel ProcData SchedState CString FsDisk Fs FsAlloc FsFile KState Syscall FileTable.
Local Open Scope Z_scope.

(** [m] returns [a] in [s'], with the locks [h] held before and after. *)
Definition goes {S A} (m : M S A) (h : list lock_id) (s : S) (a : A) (s' : S) : Prop :=
  ∀ w, ∃ w', m (KCtx h w) s = Ok a (KCtx h w') s'.
Definition stops {S A} (m : M S A) (h : list lock_id) (s : S) (msg : string) : Prop :=
  ∀ w, ∃ s', m (KCtx h w) s = Panic msg s'.

Section goes.
Context {S A B : Type} (h : list lock_id).
Implicit Types (m : M S A) (f : A → M S B).

Lemma goes_ret (a : A) (s : S) : goes (mret a) h s a s.
Proof. intros w. by exists w. Qed.
Lemma goes_bind m f s a s1 b s2 : goes m h s a s1 → goes (f a) h s1 b s2 → goes (m ≫= f) h s b s2.
Proof. intros H1 H2 w. destruct (H1 w) as [w1 E1]. rewrite (bind_Ok _ _ _ _ _ _ _ E1). apply H2. Qed.
Lemma stops_bind m f s msg : stops m h s msg → stops (m ≫= f) h s msg.
Proof. intros H w. destruct (H w) as [s' E]. exists s'. by rewrite (bind_Panic _ _ _ _ _ _ E). Qed.
Lemma goes_stops m f s a s1 msg : goes m h s a s1 → stops (f a) h s1 msg → stops (m ≫= f) h s msg.
Proof. intros H1 H2 w. destruct (H1 w) as [w1 E1]. rewrite (bind_Ok _ _ _ _ _ _ _ E1). apply H2. Qed.
End goes.

(** What the file system sees of the kernel's state. *)
Definition fsv (k : kst) : fsst :=
  FsSt (disk (k_fs k)) (bbusy (k_fs k)) (icache (k_fs k)) (p ← cur_proc k; p_cwd p).

Lemma on_fs_goes {A} (m : M fsst A) h k a t : runs m h (fsv k) a t → goes (on_fs m) h k a (set_k_fs k t).
Proof.
  intros R w. destruct (R w) as [w' E]. exists w'.
  exact (focus_Ok (λ s, Some (fsv s)) (λ t s, set_k_fs s t) m _ _ _ _ _ _ eq_refl E).
Qed.
Lemma on_fs_stops {A} (m : M fsst A) h k msg : panics m h (fsv k) msg → stops (on_fs m) h k msg.
Proof.
  intros R w. destruct (R w) as [t E]. exists (set_k_fs k t).
  exact (focus_Panic (λ s, Some (fsv s)) (λ t s, set_k_fs s t) m _ _ _ _ _ eq_refl E).
Qed.

(** ** The lock of an inode *)
Definition with_entry (ip : nat) (i : inode) (s : fsst) : fsst := set_icache (<[ip := i]> (icache s)) s.

Lemma get_inode_eq ip i s c : icache s !! ip = Some i → get_inode ip c s = Ok i c s.
Proof. intros Hi. unfold get_inode. by rewrite kget_bind, Hi. Qed.
Lemma at_inode_eq ip i s f c : icache s !! ip = Some i → at_inode ip f c s = Ok () c (with_entry ip (f i) s).
Proof. intros Hi. unfold at_inode. by rewrite (bind_Ok _ _ _ _ _ _ _ (get_inode_eq _ _ _ c Hi)). Qed.

Section lock.
Context (h : list lock_id) (Hh : LkIcache ∉ h) (ip : nat) (i : inode) (s : fsst).
Context (Hi : icache s !! ip = Some i).

Lemma ilock_runs fuel : (0 < fuel)%nat → i_busy i = false → i_valid i = true → 1 ≤ i_ref i →
  runs (ilock fuel ip) h s () (with_entry ip (set_busy true i) s).
Proof.
  intros Hf Hb Hv Hr w. exists w. unfold ilock. rewrite (bind_Ok _ _ _ _ _ _ _ (get_inode_eq _ _ _ _ Hi)), decide_False by lia.
  rewrite (bind_Ok _ _ _ _ _ _ _ (acquire_ok LkIcache (KCtx h w) s Hh)). cbn [held woken].
  assert (W : ilock_wait fuel ip (KCtx (LkIcache :: h) w) s = Ok () (KCtx (LkIcache :: h) w) s).
  { destruct fuel; [lia|]. cbn [ilock_wait]. by rewrite (bind_Ok _ _ _ _ _ _ _ (get_inode_eq _ _ _ _ Hi)), Hb. }
  rewrite (bind_Ok _ _ _ _ _ _ _ W), (bind_Ok _ _ _ _ _ _ _ (at_inode_eq _ _ _ _ _ Hi)).
  rewrite (bind_Ok _ _ _ _ _ _ _ (release_ok LkIcache h w _ Hh)).
  erewrite bind_Ok by (apply get_inode_eq; apply list_lookup_insert_eq; by eapply lookup_lt_Some). cbn [i_valid set_busy]. by rewrite Hv.
Qed.

Lemma iunlock_runs : i_busy i = true → 1 ≤ i_ref i → runs (iunlock ip) h s () (with_entry ip (set_busy false i) s).
Proof.
  intros Hb Hr w. exists (w ++ [ChInode ip]). unfold iunlock. rewrite (bind_Ok _ _ _ _ _ _ _ (get_inode_eq _ _ _ _ Hi)).
  rewrite decide_False by (intros [?|?]; [congruence|lia]).
  rewrite (bind_Ok _ _ _ _ _ _ _ (acquire_ok LkIcache (KCtx h w) s Hh)). cbn [held woken].
  rewrite (bind_Ok _ _ _ _ _ _ _ (at_inode_eq _ _ _ _ _ Hi)). exact (release_ok LkIcache h (w ++ [ChInode ip]) _ Hh).
Qed.
End lock.

(** ** An inode in another state of the cache *)
Record moved (i i' : inode) : Prop := {
  mv_dev : i_dev i' = i_dev i; mv_inum : i_inum i' = i_inum i; mv_type : i_type i' = i_type i;
  mv_size : i_size i' = i_size i; mv_addrs : i_addrs i' = i_addrs i
}.
Lemma moved_busy b i : moved i (set_busy b i).
Proof. by split. Qed.
Lemma moved_refl i : moved i i.
Proof. by split. Qed.

Section moved.
Context (dev : Z) (sb : superblock) (ip : nat) (s s' : fsst) (i i' : inode) (Hm : moved i i').
Context (Hd : disk s' = disk s).

Lemma moved_addr k : addr_of s' i' k = addr_of s i k.
Proof. destruct Hm as [E1 E2 E3 E4 E5]. unfold addr_of, ind. by rewrite E5, E1, Hd. Qed.
Lemma moved_contents : contents s' i' = contents s i.
Proof.
  unfold contents, fbytes. rewrite (mv_size _ _ Hm). apply list_fmap_ext. intros j x _.
  unfold fbyte, fblk. by rewrite moved_addr, (mv_dev _ _ Hm), Hd.
Qed.

Lemma moved_wf : file_wf dev sb ip s i → bbusy s' = bbusy s → icache s' !! ip = Some i' → file_wf dev sb ip s' i'.
Proof.
  intros [[[F1 F2 F3 F4 F5] [G1 G2 G3 G4 G5] Hi Hb] I T Sz D] Hbb Hi'. pose proof Hm as [E1 E2 E3 E4 E5].
  assert (U : ∀ b, used dev sb s' b = used dev sb s b) by (intros b; unfold used, bitmap_of; by rewrite Hd).
  assert (N : ∀ a, in_file s' i' a ↔ in_file s i a).
  { intros a. unfold in_file, ind. rewrite E5. split; intros [H1 [H2|(j & H2 & H3)]]; split; auto; right; exists j; [rewrite <- moved_addr|rewrite moved_addr]; done. }
  split; [split; [split|split|done|congruence]|..]; unfold bitmap_of, inode_ok in *; rewrite ?Hd, ?E1, ?E2, ?E3, ?E4, ?E5; try done.
  - intros b B1 B2. rewrite U in B2. by apply F4.
  - intros a Ha. rewrite U, ?Hd. by apply G3, N.
  - intros j k. rewrite !moved_addr. apply G4.
  - intros j Hj. rewrite moved_addr. unfold ind. rewrite E5. by apply G5.
  - intros x Hx. rewrite moved_addr. by apply D.
Qed.
End moved.

(** ** Open files *)

(** The kernel has the inode of a file in its cache, unlocked. *)
Record has_file (dev : Z) (sb : superblock) (ip : nat) (k : kst) (i : inode) : Prop := {
  hf_wf : file_wf dev sb ip (fsv k) i;
  hf_busy : i_busy i = false;
  hf_valid : i_valid i = true;
  hf_ref : 1 ≤ i_ref i
}.

(** Entry [f] of the file table is a regular file at inode [ip]. *)
Record file_open (k : kst) (f ip : nat) (x : file) : Prop := {
  of_file : k_files k !! f = Some x;
  of_type : f_type x = FD_INODE;
  of_ip : f_ip x = Some ip
}.

Lemma get_file_goes h k f x : k_files k !! f = Some x → goes (get_file f) h k x k.
Proof. intros H w. exists w. unfold get_file. by rewrite kget_bind, H. Qed.

Lemma at_file_goes h k f x g : k_files k !! f = Some x →
  goes (at_file f g) h k () (set_k_files k (<[f := g x]> (k_files k))).
Proof.
  intros H. eapply goes_bind; [by apply get_file_goes|]. intros w. by exists w.
Qed.

(** [k'] differs from [k] in the contents of the file at most, and the offset of [f]. *)
Record io_done (k k' : kst) (f : nat) (x : file) (off : Z) : Prop := {
  io_sch : k_sch k' = k_sch k;
  io_files : k_files k' = <[f := set_f_off off x]> (k_files k);
  io_kmem : k_kmem k' = k_kmem k;
  io_pipes : k_pipes k' = k_pipes k
}.

Lemma set_off_same k f x : k_files k !! f = Some x → <[f := set_f_off (f_off x) x]> (k_files k) = k_files k.
Proof. intros H. apply list_insert_id. rewrite H. by destruct x. Qed.

Section io.
Context (fuel : nat) (Hf : (0 < fuel)%nat) (h : list lock_id) (H1 : LkIcache ∉ h) (H2 : LkBufTable ∉ h).
Context (dev : Z) (sb : superblock) (ip : nat).

Definition locked (k : kst) (i : inode) : kst := set_k_fs k (with_entry ip (set_busy true i) (fsv k)).

Lemma has_file_inode k i : has_file dev sb ip k i → icache (fsv k) !! ip = Some i.
Proof. intros H. apply H. Qed.

Lemma ilock_goes k i : has_file dev sb ip k i → goes (on_fs (ilock fuel ip)) h k () (locked k i).
Proof. intros H. apply on_fs_goes. apply ilock_runs; try done; by destruct H as [[[]]]. Qed.

Lemma locked_wf k i : has_file dev sb ip k i → file_wf dev sb ip (fsv (locked k i)) (set_busy true i).
Proof.
  intros H. eapply (moved_wf _ _ _ (fsv k)); [apply moved_busy|done|apply H|done|]. cbn. apply list_lookup_insert_eq.
  eapply lookup_lt_Some. apply (has_file_inode _ _ H).
Qed.

(** Unlocking the inode [i] of the state [k]. *)
Lemma iunlock_goes k i : file_wf dev sb ip (fsv k) i → i_busy i = true → i_valid i = true → 1 ≤ i_ref i →
  goes (on_fs (iunlock ip)) h k () (set_k_fs k (with_entry ip (set_busy false i) (fsv k))) ∧
  has_file dev sb ip (set_k_fs k (with_entry ip (set_busy false i) (fsv k))) (set_busy false i).
Proof.
  intros W Hb Hv Hr. assert (Hi : icache (fsv k) !! ip = Some i) by apply W. split; [by apply on_fs_goes, iunlock_runs|].
  split; [|done..]. eapply (moved_wf _ _ _ (fsv k)); [apply moved_busy|done|done|done|]. cbn. apply list_lookup_insert_eq.
  by eapply lookup_lt_Some.
Qed.

(** The result [t] of file system code put back into the kernel's state. *)
Lemma put_back k t i : file_wf dev sb ip t i →
  file_wf dev sb ip (fsv (set_k_fs k t)) i ∧ contents (fsv (set_k_fs k t)) i = contents t i.
Proof.
  intros W. split.
  - eapply (moved_wf _ _ _ t); [apply moved_refl|done|exact W|done|]. apply W.
  - by apply moved_contents; [apply moved_refl|].
Qed.

(** The end of both calls: the offset moves by [n] and the inode is unlocked. *)
Lemma advance_goes {A} (r : A) k i f x n : file_wf dev sb ip (fsv k) i → i_busy i = true → i_valid i = true → 1 ≤ i_ref i →
  k_files k !! f = Some x → 0 ≤ f_off x → 0 ≤ n → f_off x + n < 2 ^ 32 → ∀ P `{Decision P}, (P ↔ 0 < n) →
  ∃ k' i', goes ((if decide P then at_file f (λ x, set_f_off (u32 (f_off x + n)) x) else mret ());; on_fs (iunlock ip);; mret r) h k r k' ∧
    has_file dev sb ip k' i' ∧ contents (fsv k') i' = contents (fsv k) i ∧ io_done k k' f x (f_off x + n) ∧ k_bytes k' = k_bytes k ∧ i_size i' = i_size i.
Proof.
  intros W Hb Hv Hr Hx Ho Hn Hmax P ? HP.
  set (k1 := set_k_files k (<[f := set_f_off (f_off x + n) x]> (k_files k))).
  assert (W1 : file_wf dev sb ip (fsv k1) i) by exact W.
  destruct (iunlock_goes k1 i W1 Hb Hv Hr) as [G F]. exists (set_k_fs k1 (with_entry ip (set_busy false i) (fsv k1))), (set_busy false i).
  split_and!; [|done|by apply moved_contents; [apply moved_busy|]|by split|done|done].
  eapply goes_bind; [|eapply goes_bind; [exact G|apply goes_ret]]. destruct (decide P) as [D|D].
  - unfold k1. rewrite <- (u32_small (f_off x + n)) by lia. exact (at_file_goes h k f x (λ x, set_f_off (u32 (f_off x + n)) x) Hx).
  - assert (n = 0) as -> by (destruct (decide (0 < n)) as [X|]; [by apply HP in X|lia]).
    unfold k1. rewrite Z.add_0_r, set_off_same by done. destruct k. apply goes_ret.
Qed.

Lemma locked_contents k i : contents (fsv (locked k i)) (set_busy true i) = contents (fsv k) i.
Proof. by apply moved_contents; [apply moved_busy|]. Qed.

Lemma filewrite_goes dw k i f x addr n : has_file dev sb ip k i → file_open k f ip x → f_writable x = true →
  0 ≤ f_off x ≤ i_size i → 0 ≤ n → f_off x + n ≤ MAXBYTES → Forall byte (get_bytes (k_bytes k) addr n) →
  (∃ k' i', goes (filewrite fuel dw f addr n) h k n k' ∧ has_file dev sb ip k' i' ∧
     contents (fsv k') i' = splice (contents (fsv k) i) (f_off x) (get_bytes (k_bytes k) addr n) ∧
     io_done k k' f x (f_off x + n) ∧ k_bytes k' = k_bytes k) ∨
  stops (filewrite fuel dw f addr n) h k "balloc: out of blocks".
Proof.
  intros HF [F1 F2 F3] Hw Ho Hn Hmax Hbytes. pose proof MAXBYTES_u32 as M. unfold filewrite.
  pose proof (get_bytes_length (k_bytes k) addr n Hn) as L. pose proof (locked_wf k i HF) as W.
  pose proof (ilock_goes k i HF) as Gl. assert (Eu : u32 n = n) by (apply u32_small; lia).
  assert (Es : s32 n = n). { assert (MAXBYTES < 2 ^ 31) by done. unfold s32. rewrite Z.mod_small; lia. }
  destruct (writei_runs fuel Hf h H2 dev sb ip dw (fsv (locked k i)) (set_busy true i) (get_bytes (k_bytes k) addr n) (f_off x) n
    W Ho Hmax L Hbytes) as [(t & i1 & R & W1 & C & _ & _ & _ & Sz & _ & (E1 & E2 & E3 & _))|P].
  - left. destruct (put_back (locked k i) t i1 W1) as [W2 C2]. set (k2 := set_k_fs (locked k i) t) in *.
    destruct (advance_goes n k2 i1 f x n W2 ltac:(by rewrite E1) ltac:(rewrite E3; apply HF) ltac:(rewrite E2; apply HF) F1
      ltac:(lia) Hn ltac:(lia) (n > 0) (Z.gt_lt_iff n 0)) as (k' & i' & G & HF' & C' & Io & Eb & _).
    exists k', i'. split_and!; [|done| |by destruct Io|by rewrite Eb].
    + eapply goes_bind; [by apply get_file_goes|]. rewrite Hw. eapply goes_bind; [intros w; by exists w|]. rewrite F2, F3.
      eapply goes_bind; [apply goes_ret|]. eapply goes_bind; [exact Gl|]. eapply goes_bind; [by apply get_file_goes|].
      rewrite Eu. eapply goes_bind; [by apply on_fs_goes|]. cbv zeta. rewrite Es. exact G.
    + rewrite C', C2, C. by rewrite locked_contents.
  - right. eapply goes_stops; [by apply get_file_goes|]. rewrite Hw. eapply goes_stops; [intros w; by exists w|]. rewrite F2, F3.
    eapply goes_stops; [apply goes_ret|]. eapply goes_stops; [exact Gl|]. eapply goes_stops; [by apply get_file_goes|].
    rewrite Eu. by apply stops_bind, on_fs_stops.
Qed.

Lemma fileread_goes dr k i f x addr n : has_file dev sb ip k i → file_open k f ip x → f_readable x = true →
  0 ≤ f_off x ≤ i_size i → 0 ≤ n → f_off x + n < 2 ^ 32 →
  let l := slice (contents (fsv k) i) (f_off x) (Z.min n (i_size i - f_off x)) in
  ∃ k' i', goes (fileread fuel dr f addr n) h k (Z.of_nat (length l)) k' ∧ has_file dev sb ip k' i' ∧
    contents (fsv k') i' = contents (fsv k) i ∧ io_done k k' f x (f_off x + Z.of_nat (length l)) ∧
    k_bytes k' = put_bytes addr l (k_bytes k).
Proof.
  intros HF [F1 F2 F3] Hr Ho Hn Hmax l. pose proof (locked_wf k i HF) as W. assert (Eu : u32 n = n) by (apply u32_small; lia).
  pose proof (ilock_goes k i HF) as Gl. pose proof MAXBYTES_u32 as M. pose proof (wf_size _ _ _ _ _ (hf_wf _ _ _ _ _ HF)) as Hs.
  pose proof (readi_runs fuel Hf h H2 dev sb ip dr (fsv (locked k i)) (set_busy true i) (f_off x) n W ltac:(lia) ltac:(lia)) as R.
  rewrite decide_False in R by (cbn [i_size set_busy]; rewrite u32_small; lia). rewrite locked_contents in R. cbn [i_size set_busy] in R. fold l in R.
  assert (Ll : Z.of_nat (length l) = Z.min n (i_size i - f_off x)).
  { unfold l. rewrite slice_length; [lia|lia|lia|]. rewrite contents_length. lia. }
  set (k2 := set_k_fs (locked k i) (fsv (locked k i))). set (k3 := set_k_bytes k2 (put_bytes addr l (k_bytes k2))).
  assert (Hp : (0 < length l)%nat ↔ 0 < Z.of_nat (length l)) by (split; lia).
  destruct (advance_goes (Z.of_nat (length l)) k3 (set_busy true i) f x (Z.of_nat (length l)) W eq_refl (hf_valid _ _ _ _ _ HF) (hf_ref _ _ _ _ _ HF) F1
    ltac:(lia) ltac:(lia) ltac:(lia) (0 < length l)%nat Hp) as (k' & i' & G & HF' & C' & [I1 I2 I3 I4] & Eb & _).
  exists k', i'. split_and!; [|done| |by split|by rewrite Eb].
  - unfold fileread. eapply goes_bind; [by apply get_file_goes|]. rewrite Hr. cbn [negb]. rewrite F2, F3.
    eapply goes_bind; [apply goes_ret|]. eapply goes_bind; [exact Gl|]. eapply goes_bind; [by apply get_file_goes|].
    rewrite Eu. eapply goes_bind; [by apply on_fs_goes|]. cbv iota. eapply goes_bind; [intros w; by exists w|]. exact G.
  - rewrite C'. by rewrite <- (locked_contents k i).
Qed.
End io.
