(* ===== verification/Process.v ===== *)
(** * Processes and their memory (proc.c, sysproc.c)

    Creating, growing, ending and reaping processes, on the whole kernel's state,
    and the system calls of sysproc.c.  What happens on the run queues is in Sched:
    [fork_tail] is the end of [sys_fork] and [exit_tail] the end of [exit].

    The trap frame is kept as a field of the process instead of as bytes at the top
    of its kernel stack.  Messages to the console are left out.  The two programs
    linked into the kernel and the address of [forkret] are arguments. *)
From S2P Require Import Prelude Kernel ProcData SchedState Sched Kalloc CString FsDisk Fs Mmu KState Syscall FileTable.
Local Open Scope Z_scope.

Definition TRAPFRAME_SIZE : Z := 68.
Definition FL_IF : Z := 0x200.

Definition proc_at (i : nat) : M kst proc := on_sch (get_proc_at i).
Definition proc_set (i : nat) (f : proc → proc) : M kst unit := on_sch (at_proc i f).

Section process.
Context (fuel : nat).
Context (ts : Z).
Context (forkret : Z).
Context (idlecode initcode : list Z).

Definition growproc (n : Z) : M kst Z :=
  p ← cp_get;
  newmem ← on_kmem (kalloc (s32 (p_sz p + n)));
  if decide (newmem = 0) then mret (-1)
  else
    on_bytes (memmove newmem (p_mem p) (p_sz p));;
    on_bytes (memset (newmem + p_sz p) 0 (u32 n));;
    kfree_bytes (p_mem p) (p_sz p);;
    cp_set (λ p, set_mem p newmem);;
    cp_set (λ p, set_sz p (u32 (p_sz p + n)));;
    load_segs ts;;
    p ← cp_get;
    mret (s32 (p_sz p - n)).

(** ** Creating *)
Definition copy_file (p np i : nat) : M kst unit :=
  pr ← proc_at p;
  match mjoin (p_ofile pr !! i) with
  | Some f => g ← filedup f; proc_set np (λ pr, set_ofile pr (<[i := Some g]> (p_ofile pr)))
  | None => mret ()
  end.

(** "Copy process state from p"; [false] when there is no memory. *)
Definition copy_from (p np : nat) (kstack : Z) : M kst bool :=
  proc_set np (λ pr, set_parent pr (Some p));;
  pr ← proc_at p;
  proc_set np (λ n, set_tf n (p_tf pr));;
  proc_set np (λ n, set_sz n (p_sz pr));;
  mem ← on_kmem (kalloc (s32 (p_sz pr)));
  proc_set np (λ n, set_mem n mem);;
  if decide (mem = 0) then
    kfree_bytes kstack KSTACKSIZE;;
    proc_set np (λ n, set_kstack n 0);;
    proc_set np (λ n, set_state n UNUSED);;
    proc_set np (λ n, set_parent n None);;
    mret false
  else
    on_bytes (memmove mem (p_mem pr) (p_sz pr));;
    for_each (seq 0 NOFILE) (copy_file p np);;
    d ← deref (p_cwd pr);
    c ← on_fs (idup d);
    proc_set np (λ n, set_cwd n (Some c));;
    mret true.

Definition copyproc (p : option nat) : M kst (option nat) :=
  r ← on_sch allocproc;
  match r with
  | None => mret None
  | Some np =>
      kstack ← on_kmem (kalloc KSTACKSIZE);
      proc_set np (λ n, set_kstack n kstack);;
      if decide (kstack = 0) then proc_set np (λ n, set_state n UNUSED);; mret None
      else
        ok ← (match p with Some p => copy_from p np kstack | None => mret true end);
        if negb ok then mret None
        else
          proc_set np (λ n, set_context n
            (Context_ forkret (kstack + KSTACKSIZE - TRAPFRAME_SIZE) 0 0 0 0 0 0));;
          on_sch (set_kont np KForkret);;
          proc_set np (λ n, set_tf n (set_tf_eax 0 (p_tf n)));;
          mret (Some np)
  end.

(** What [allocIdle] and [userinit] share: a process of one page that starts at the
    beginning of [code]. *)
Definition user_tf (sz : Z) : trapframe :=
  let ds := Z.lor (Z.shiftl SEG_UDATA 3) DPL_USER in
  Trapframe 0 0 0 0 0 0 0 0 ds ds 0 0 0 (Z.lor (Z.shiftl SEG_UCODE 3) DPL_USER) FL_IF (sz - 4) ds.
Definition user_proc (code name : list Z) : M kst nat :=
  r ← copyproc None;
  p ← deref r;
  proc_set p (λ n, set_sz n PAGE);;
  mem ← on_kmem (kalloc PAGE);
  proc_set p (λ n, set_mem n mem);;
  d ← on_fs (namei fuel (lit "/"));
  proc_set p (λ n, set_cwd n d);;
  proc_set p (λ n, set_tf n (user_tf PAGE));;
  on_bytes (λ m, wr32 m (mem + (PAGE - 4)) 0xefefefef);;
  on_bytes (put_bytes mem code);;
  proc_set p (λ n, set_name n (splice (p_name n) 0 (name ++ [0])));;
  proc_set p (λ n, set_state n RUNNABLE);;
  mret p.

Definition allocIdle : M kst nat := user_proc idlecode (lit "idle").

Definition init_idle (i : nat) : M kst unit :=
  p ← allocIdle;
  kmodify (λ s, set_k_sch s (set_idleproc (k_sch s) (<[i := Some p]> (idleproc (k_sch s)))));;
  proc_set p (λ n, set_name n (splice (p_name n) 0 (lit "idle" ++ [0])));;
  proc_set p (λ n, set_name n (<[4%nat := u8 (Z.of_nat i + 48)]> (p_name n)));;
  proc_set p (λ n, set_name n (<[5%nat := 0]> (p_name n))).

Definition userinit : M kst unit :=
  p ← user_proc initcode (lit "initcode");
  on_sch (q ← my_rq; acquire (LkRq q);; enqueue_proc q p;; release (LkRq q));;
  kmodify (λ s, set_k_sch s (set_initproc (k_sch s) (Some p)));;
  for_each (seq 0 NCPU) init_idle.

(** ** Ending *)
Definition close_fd (fd : nat) : M kst unit :=
  p ← cp_get;
  match mjoin (p_ofile p !! fd) with
  | Some f => fileclose fuel f;; cp_set (λ p, set_ofile p (<[fd := None]> (p_ofile p)))
  | None => mret ()
  end.

Definition exit : M kst unit :=
  me ← cp_index;
  s ← kget;
  if decide (initproc (k_sch s) = Some me) then panic "init exiting"
  else
    for_each (seq 0 NOFILE) close_fd;;
    p ← cp_get;
    d ← deref (p_cwd p);
    on_fs (iput fuel d);;
    cp_set (λ p, set_cwd p None);;
    on_sch exit_tail.

(** One scan of [wait]: the pid of a child it has reaped, or whether there are
    children. *)
Fixpoint wait_scan (me : nat) (l : list nat) (havekids : bool) : M kst (Z + bool) :=
  match l with
  | [] => mret (inr havekids)
  | i :: l =>
      p ← proc_at i;
      if decide (p_state p = UNUSED) then wait_scan me l havekids
      else if decide (p_parent p = Some me) then
        if decide (p_state p = ZOMBIE) then
          kfree_bytes (p_mem p) (p_sz p);;
          kfree_bytes (p_kstack p) KSTACKSIZE;;
          proc_set i (λ p, set_state p UNUSED);;
          proc_set i (λ p, set_pid p 0);;
          proc_set i (λ p, set_parent p None);;
          proc_set i (λ p, set_name p (<[0%nat := 0]> (p_name p)));;
          release LkProcTable;;
          mret (inl (p_pid p))
        else wait_scan me l true
      else wait_scan me l havekids
  end.
Fixpoint wait_loop (n : nat) (me : nat) : M kst Z :=
  match n with
  | O => diverge
  | S n =>
      r ← wait_scan me (seq 0 NPROC) false;
      match r with
      | inl pid => mret pid
      | inr havekids =>
          p ← cp_get;
          if negb havekids || p_killed p then release LkProcTable;; mret (-1)
          else sleep (ChProc me) LkProcTable;; wait_loop n me
      end
  end.
Definition wait : M kst Z := me ← cp_index; acquire LkProcTable;; wait_loop fuel me.

(** ** System calls *)
Definition int_arg (n : Z) : (Z → M kst Z) → M kst Z := with_args (λ m p, argint m p n).

Definition sys_fork : M kst Z :=
  me ← cp_index;
  r ← copyproc (Some me);
  match r with Some np => on_sch (fork_tail np) | None => mret (-1) end.
(** [exit] does not return: the processor goes on with another process. *)
Definition sys_exit : M kst (option Z) := exit;; mret None.
Definition sys_wait : M kst Z := wait.
Definition sys_kill : M kst Z := int_arg 0 (λ pid, on_sch (kill pid)).
Definition sys_getpid : M kst Z := p ← cp_get; mret (p_pid p).
Definition sys_sbrk : M kst Z := int_arg 0 (λ n, addr ← growproc n; if decide (addr < 0) then mret (-1) else mret addr).

Fixpoint sleep_ticks (k : nat) (ticks0 n : Z) : M kst Z :=
  match k with
  | O => diverge
  | S k =>
      s ← kget;
      if decide (s32 (k_ticks s - ticks0) < n) then
        p ← cp_get;
        if p_killed p then release LkTicks;; mret (-1)
        else sleep ChTicks LkTicks;; sleep_ticks k ticks0 n
      else release LkTicks;; mret 0
  end.
Definition sys_sleep : M kst Z :=
  int_arg 0 (λ n, acquire LkTicks;; s ← kget; sleep_ticks fuel (k_ticks s) n).
End process.
