(* ===== verification/ProcMem.v ===== *)
(** * The memory of processes: theorems on Process

    [growproc] moves a process to a larger block of memory; a request that is not a
    number of pages stops the kernel. *)
From S2P Require Import Prelude Kernel ProcData SchedState Kalloc CString Fs Mmu KState Syscall Process.
Local Open Scope Z_scope.

(** The current process is [p], the [i]-th, and its memory is whole pages that are
    not on the free list [rs] and, like all memory, below 2 GB. *)
Record owns_memory (s : kst) (i : nat) (p : proc) (rs : list (Z * Z)) : Prop := {
  om_running : running (k_sch s) = Some i;
  om_proc : procs (k_sch s) !! i = Some p;
  om_alloc : allocator (k_kmem s) rs;
  om_bytes : bytes_mem (k_bytes s);
  om_mem : 0 < p_mem p;
  om_sz : 0 < p_sz p;
  om_low : p_mem p + p_sz p ≤ MEMTOP;
  om_pages : (PAGE | p_mem p) ∧ (PAGE | p_sz p);
  om_used : ∀ x, p_mem p ≤ x < p_mem p + p_sz p → ¬ free rs x
}.

Lemma om_cur s i p rs : owns_memory s i p rs → cur_proc s = Some p.
Proof. intros [R P _ _ _ _ _ _ _]. unfold cur_proc. by rewrite R. Qed.

Lemma memset_bytes d c n m : bytes_mem m → bytes_mem (memset d c n m).
Proof.
  intros B x. unfold memset. rewrite memset_loop_spec. case_decide; [apply u8_range|apply B].
Qed.

Lemma memset_spec d c n m x : 0 ≤ n → rd (memset d c n m) x = if decide (d ≤ x < d + n) then u8 c else rd m x.
Proof. intros Hn. unfold memset. rewrite memset_loop_spec. by rewrite Z2Nat.id. Qed.

Lemma memmove_bytes dst src n m : bytes_mem m → 0 ≤ n → bytes_mem (memmove dst src n m).
Proof. intros B Hn x. rewrite memmove_spec by done. case_decide; apply B. Qed.

(** ** growproc *)
Section grow.
Context (ts : Z) (c : kctx) (s : kst) (i : nat) (p : proc) (n newmem : Z) (k1 k2 : kmem).
Context (R : running (k_sch s) = Some i) (P : procs (k_sch s) !! i = Some p).
Context (Ealloc : kalloc (s32 (p_sz p + n)) c (k_kmem s) = Ok newmem c k1).

(** The process, the bytes and the state [growproc] leaves. *)
Definition grown : proc := set_sz (set_mem p newmem) (u32 (p_sz p + n)).
Definition grown_bytes : mem :=
  memset (p_mem p) 1 (u32 (p_sz p))
    (memset (newmem + p_sz p) 0 (u32 n) (memmove newmem (p_mem p) (p_sz p) (k_bytes s))).
Definition grown_state : kst :=
  set_k_segs (upd_cp i grown (set_k_bytes (set_k_kmem s k2) grown_bytes)) (setupsegs (Some grown) ts).

Lemma growproc_run : newmem ≠ 0 → kfree (p_mem p) (p_sz p) c k1 = Ok () c k2 →
  growproc ts n c s = Ok (s32 (u32 (p_sz p + n) - n)) c grown_state.
Proof.
  intros Hne Efree. unfold growproc.
  assert (C : cur_proc s = Some p) by (unfold cur_proc; by rewrite R).
  rewrite (bind_Ok _ _ _ _ _ _ _ (cp_get_run c s p C)).
  rewrite (bind_Ok _ _ _ _ _ _ _ (on_kmem_Ok c s _ _ _ _ Ealloc)). rewrite decide_False by done.
  unfold on_bytes. rewrite !kmodify_bind.
  set (s1 := set_k_bytes _ _).
  rewrite (bind_Ok _ _ _ _ _ _ _ (kfree_bytes_run c s1 _ _ _ Efree)).
  set (s2 := set_k_bytes (set_k_kmem s1 k2) _).
  rewrite (bind_Ok _ _ _ _ _ _ _ (cp_set_run c s2 i p _ R P)).
  set (s3 := upd_cp i _ s2).
  assert (P3 : procs (k_sch s3) !! i = Some (set_mem p newmem)) by (apply list_lookup_insert_eq; by eapply lookup_lt_Some).
  rewrite (bind_Ok _ _ _ _ _ _ _ (cp_set_run c s3 i _ _ R P3)).
  set (t := upd_cp i _ _).
  assert (Ct : cur_proc t = Some grown).
  { by eapply (cur_proc_upd i _ _ s3). }
  rewrite (bind_Ok _ _ _ _ _ _ _ (load_segs_run ts c t _ Ct)).
  set (t' := set_k_segs t _). rewrite (bind_Ok _ _ _ _ _ _ _ (cp_get_run c t' grown Ct)).
  rewrite ret_run. unfold grown_state, t', t, s3, s2, s1, upd_cp, grown_bytes. cbn. by rewrite list_insert_insert_eq.
Qed.

Lemma grown_bytes_rd o :
  bytes_mem (k_bytes s) → 0 ≤ n → 0 < p_sz p → p_sz p + n < 2 ^ 31 → 0 ≤ o < p_sz p + n →
  ¬ p_mem p ≤ newmem + o < p_mem p + p_sz p →
  rd grown_bytes (newmem + o) = if decide (o < p_sz p) then rd (k_bytes s) (p_mem p + o) else 0.
Proof.
  clear R P Ealloc. intros B Hn Hs Hlim Ho Hd. unfold grown_bytes. rewrite !u32_small by lia.
  rewrite memset_spec, decide_False by (done || lia). rewrite memset_spec by lia.
  case_decide; [by rewrite decide_False by lia|]. rewrite memmove_spec, !decide_True by (done || lia). f_equal. lia.
Qed.
End grow.

(** C32 [growproc(n)] for a number [n] of whole pages that is not negative, with [sz + n]
    below 2 GB: with no block of [sz + n] bytes free it returns -1 and changes nothing of
    the process; otherwise it returns the old size, and
    the process has a block of [sz + n] bytes that was free, holding its old bytes
    followed by zeroes, the segments that cover exactly it, and its old block is
    free.  For a negative [n], which the theorem leaves out, the code copies all of the
    old block into the smaller new one and clears [(uint)n] bytes after it. *)
Theorem growproc_moves ts c s i p rs n :
  owns_memory s i p rs → LkKalloc ∉ held c → 0 ≤ n → (PAGE | n) → p_sz p + n < 2 ^ 31 →
  ∃ r s', growproc ts n c s = Ok r c s' ∧
    (r = -1 ∧ Forall (λ rl, rl.2 < p_sz p + n) rs ∧ cur_proc s' = Some p ∧ k_bytes s' = k_bytes s ∨
     r = p_sz p ∧ ∃ p' rs', cur_proc s' = Some p' ∧ p_sz p' = p_sz p + n ∧
       (∀ x, p_mem p' ≤ x < p_mem p' + p_sz p' → free rs x) ∧
       (∀ o, 0 ≤ o < p_sz p → rd (k_bytes s') (p_mem p' + o) = rd (k_bytes s) (p_mem p + o)) ∧
       (∀ o, p_sz p ≤ o < p_sz p' → rd (k_bytes s') (p_mem p' + o) = 0) ∧
       allocator (k_kmem s') rs' ∧
       (∀ x, free rs' x ↔ (free rs x ∨ p_mem p ≤ x < p_mem p + p_sz p) ∧ ¬ p_mem p' ≤ x < p_mem p' + p_sz p') ∧
       k_segs s' = setupsegs (Some p') ts).
Proof.
  intros O Hc Hn Dn Hlim. pose proof O as [R P A B Hm Hs Ht [Dm Ds] Hu]. set (N := p_sz p + n) in *.
  assert (DN : (PAGE | N)) by by apply Z.divide_add_r.
  destruct (kalloc_run c _ rs N A Hc ltac:(lia) DN) as (k1 & E1 & A1).
  pose proof (falloc_ok N rs 0 ltac:(lia) DN ltac:(lia) (proj1 (proj2 A))) as F.
  assert (EN : s32 (p_sz p + n) = N) by (apply s32_small; lia).
  destruct (falloc N rs) as [[q rs1]|]; simpl in E1, A1.
  - destruct F as (Hq & Dq & _ & Hfree & F1).
    destruct (kfree_run c k1 rs1 (p_mem p) (p_sz p) A1 Hc Hm Hs Ht Dm Ds) as (k2 & rs2 & E2 & _ & A2 & F2).
    { intros x Hx [Hf _]%F1. by apply (Hu x). }
    rewrite <- EN in E1. eexists _, _. split; [by apply (growproc_run ts c s i p n q k1 k2 R P E1); [lia|]|].
    right. split; [rewrite u32_small, s32_small; unfold N in *; lia|]. exists (grown p n q), rs2.
    assert (Hsz : p_sz (grown p n q) = N) by (simpl; apply u32_small; lia).
    assert (Hd : ∀ o, 0 ≤ o < N → ¬ p_mem p ≤ q + o < p_mem p + p_sz p).
    { intros o Ho Hin. apply (Hu _ Hin), Hfree. lia. }
    rewrite Hsz. change (p_mem (grown p n q)) with q.
    change (k_bytes (grown_state ts s i p n q k2)) with (grown_bytes s p n q).
    split_and!.
    + by apply (cur_proc_upd i (grown p n q) p (set_k_bytes (set_k_kmem s k2) (grown_bytes s p n q))).
    + done.
    + done.
    + intros o Ho. rewrite (grown_bytes_rd s p n q o); [by rewrite decide_True by lia|done|lia..|]. apply Hd. lia.
    + intros o Ho. rewrite (grown_bytes_rd s p n q o); [by rewrite decide_False by lia|done|lia..|]. apply Hd. lia.
    + done.
    + intros x. rewrite F2, F1. split; [intros [[? ?]|Hx]; [tauto|]|intros [[?|?] ?]; tauto].
      split; [by right|]. intros Hin. apply (Hd (x - q)); [lia|]. by replace (q + (x - q)) with x by lia.
    + done.
  - eexists _, _. split.
    { unfold growproc. rewrite (bind_Ok _ _ _ _ _ _ _ (cp_get_run c s p (om_cur _ _ _ _ O))), EN.
      rewrite (bind_Ok _ _ _ _ _ _ _ (on_kmem_Ok c s _ _ _ _ E1)). by rewrite decide_True. }
    left. split_and!; [done|done|exact (om_cur _ _ _ _ O)|done].
Qed.

(** [sbrk] of a size that is not a whole number of pages, or that leaves the process
    with no memory, does not fail: it stops the kernel. *)
Theorem sbrk_unaligned_panics ts c s p n :
  cur_proc s = Some p → argint (k_bytes s) p 0 = Some n → - 2 ^ 31 ≤ p_sz p + n < 2 ^ 31 →
  ¬ (PAGE | p_sz p + n) ∨ p_sz p + n ≤ 0 →
  sys_sbrk ts c s = Panic "kalloc" s.
Proof.
  intros C Ea Hr H. unfold sys_sbrk, int_arg, with_args.
  rewrite (bind_Ok _ _ _ _ _ _ _ (cp_get_run c s p C)), kgets_bind, Ea.
  unfold growproc, mbind at 1, M_bind at 1. rewrite (bind_Ok _ _ _ _ _ _ _ (cp_get_run c s p C)).
  rewrite (bind_Panic _ _ _ _ "kalloc" (set_k_kmem s (k_kmem s))); [by destruct s|]. apply on_kmem_Panic.
  unfold kalloc. rewrite decide_True; [done|]. rewrite s32_small by done.
  destruct H as [H|H]; [left|by right]. by rewrite Z.rem_divide.
Qed.

(** ** Witnesses *)

(** A process of one page at 8192 with the free runs of [two_runs]. *)
Definition grow_sch : schst :=
  SchSt [] [arg_proc] [Cpu (Some 0%nat) context_zero (Some 0%nat)] [] None 2 [KForkret] 1 0.
Definition grow_kst : kst :=
  KSt grow_sch two_runs arg_mem [] (FsSt ∅ [] [] None) ∅ 0 (Segs 0 0 []).

Lemma grow_owns : owns_memory grow_kst 0 arg_proc [(4096, 4096); (16384, 8192)].
Proof.
  split; [done|done|apply two_runs_ok|apply arg_mem_bytes|done|done|done| |].
  - split; [by exists 2|by exists 1].
  - intros x. simpl. lia.
Qed.

Lemma growproc_moves_witness : ∃ s', growproc 0 4096 no_lock grow_kst = Ok 4096 no_lock s'.
Proof.
  destruct (growproc_moves 0 no_lock grow_kst 0 arg_proc [(4096, 4096); (16384, 8192)] 4096 grow_owns)
    as (r & s' & E & H); [apply not_elem_of_nil|done|by exists 1|done|].
  exists s'. destruct H as [(_ & H & _)|[-> _]]; [|done].
  apply Forall_lookup_1 with (i := 1%nat) (x := (16384, 8192)) in H; [|done]. by vm_compute in H.
Defined.

Lemma sbrk_unaligned_panics_witness : sys_sbrk 0 no_lock grow_kst = Panic "kalloc" grow_kst.
Proof.
  apply (sbrk_unaligned_panics 0 no_lock grow_kst arg_proc 64); [done|by vm_compute|by vm_compute|].
  left. intros [k Hk]. vm_compute (PAGE) in Hk. simpl in Hk. lia.
Defined.
