(* ===== verification/Grep.v ===== *)
(** * grep (grep.c)

    The regular expressions of grep: characters, [.], a character followed by [*],
    [^] at the beginning and [$] at the end.  A string is the list of its bytes
    without the terminating NUL.  [matchhere] recurses on the expression and
    [matchstar] on the text, so no fuel is needed.

    [grep] works on the 1024 bytes of [buf], which keep what earlier reads left
    there.  The input is what the reads deliver, one list for each; a read longer than
    the space asked for is delivered in parts and an empty list is the end of the file.
    [None] is an access outside of [buf]. *)
From S2P Require Import Prelude CString FsDisk.
Local Open Scope Z_scope.

Definition STAR : Z := 42.
Definition DOT : Z := 46.
Definition DOLLAR : Z := 36.
Definition CARET : Z := 94.
Definition NEWLINE : Z := 10.

(** [*text==c || c=='.'] *)
Definition char_matches (c x : Z) : bool := bool_decide (x = c) || bool_decide (c = DOT).

Fixpoint matchstar (here : list Z → bool) (c : Z) (text : list Z) : bool :=
  here text ||
  match text with
  | [] => false
  | x :: text => char_matches c x && matchstar here c text
  end.

Fixpoint matchhere (re text : list Z) : bool :=
  match re with
  | [] => true
  | c :: re1 =>
      match re1 with
      | s :: re2 =>
          if decide (s = STAR) then matchstar (matchhere re2) c text
          else match text with x :: text => char_matches c x && matchhere re1 text | [] => false end
      | [] =>
          if decide (c = DOLLAR) then bool_decide (text = [])
          else match text with x :: text => char_matches c x && matchhere re1 text | [] => false end
      end
  end.

Fixpoint match_anywhere (re text : list Z) : bool :=
  matchhere re text || match text with [] => false | _ :: text => match_anywhere re text end.
Definition match_ (re text : list Z) : bool :=
  match re with
  | c :: re1 => if decide (c = CARET) then matchhere re1 text else match_anywhere re text
  | [] => match_anywhere re text
  end.

(** ** The loop over the input *)
Definition BUFSIZE : Z := 1024.

(** [strchr(p, '\n')] in the bytes from [p] to the end of [buf]. *)
Fixpoint find_newline (l : list Z) : option (option nat) :=
  match l with
  | [] => None
  | c :: l =>
      if decide (c = 0) then Some None
      else if decide (c = NEWLINE) then Some (Some 0%nat)
      else match find_newline l with Some r => Some (option_map S r) | None => None end
  end.

(** The inner loop: the buffer, the final [p] and what was written. *)
Fixpoint grep_lines (k : nat) (re buf : list Z) (p : nat) : option (list Z * nat * list Z) :=
  match k with
  | O => None
  | S k =>
      r ← find_newline (drop p buf);
      match r with
      | None => Some (buf, p, [])
      | Some i =>
          let line := take i (drop p buf) in
          if match_ re line then
            r ← grep_lines k re buf (p + i + 1)%nat;
            Some (r.1, line ++ [NEWLINE] ++ r.2)
          else grep_lines k re (<[(p + i)%nat := 0]> buf) (p + i + 1)%nat
      end
  end.

(** [k] bounds the number of reads. *)
Fixpoint grep_loop (k : nat) (re buf : list Z) (m : Z) (input : list (list Z)) : option (list Z) :=
  match k, input with
  | O, _ | _, [] | _, [] :: _ => Some []
  | S k, c :: input =>
      if decide (m < 0) then None
      else
        let n := BUFSIZE - m in
        let got := take (Z.to_nat n) c in
        let input := match drop (Z.to_nat n) c with [] => input | rest => rest :: input end in
        match got with
        | [] => Some []
        | _ =>
            let m := m + Z.of_nat (length got) in
            r ← grep_lines (S (length buf)) re (splice buf (m - Z.of_nat (length got)) got) 0;
            let '(buf, p, out) := r in
            let m := if decide (p = 0%nat) then 0 else m in
            let '(buf, m) := if decide (m > 0)
                             then let m := m - Z.of_nat p in (splice buf 0 (slice buf (Z.of_nat p) m), m)
                             else (buf, m) in
            out' ← grep_loop k re buf m input; Some (out ++ out')
        end
  end.
Definition grep (k : nat) (re : list Z) (input : list (list Z)) : option (list Z) :=
  grep_loop k re (replicate (Z.to_nat BUFSIZE) 0) 0 input.

(** ** What expressions mean *)

(** An expression is a sequence of characters, each once or any number of times, and
    an anchor at the end or not. *)
Inductive item := Once (c : Z) | Star (c : Z).

Fixpoint items_of (re : list Z) : list item * bool :=
  match re with
  | [] => ([], false)
  | c :: re1 =>
      match re1 with
      | s :: re2 =>
          if decide (s = STAR) then let '(its, a) := items_of re2 in (Star c :: its, a)
          else let '(its, a) := items_of re1 in (Once c :: its, a)
      | [] => if decide (c = DOLLAR) then ([], true) else ([Once c], false)
      end
  end.

Inductive denotes : list item → list Z → Prop :=
| denotes_nil : denotes [] []
| denotes_once c its x t : char_matches c x → denotes its t → denotes (Once c :: its) (x :: t)
| denotes_star c its u t : Forall (λ x, char_matches c x) u → denotes its t → denotes (Star c :: its) (u ++ t).

(** The expression matches a prefix of the text, all of it if it is anchored. *)
Definition here (re text : list Z) : Prop :=
  ∃ t rest, text = t ++ rest ∧ denotes (items_of re).1 t ∧ ((items_of re).2 = true → rest = []).

Lemma denotes_once_iff c its t : denotes (Once c :: its) t ↔ ∃ x t', t = x :: t' ∧ char_matches c x ∧ denotes its t'.
Proof.
  split; [inversion 1; subst; eauto|]. intros (x & t' & -> & ? & ?). by constructor.
Qed.
Lemma denotes_star_iff c its t : denotes (Star c :: its) t ↔
  ∃ u t', t = u ++ t' ∧ Forall (λ x, char_matches c x) u ∧ denotes its t'.
Proof.
  split; [inversion 1; subst; eauto|]. intros (u & t' & -> & ? & ?). by constructor.
Qed.

Lemma matchstar_iff f c text : matchstar f c text ↔
  ∃ u t, text = u ++ t ∧ Forall (λ x, char_matches c x) u ∧ f t.
Proof.
  induction text as [|x text IH]; simpl; rewrite orb_True.
  - split; [intros [H|[]]; by exists [], []|]. intros (u & t & E & _ & H). left.
    symmetry in E. apply app_nil in E as [-> ->]. done.
  - rewrite andb_True, IH. split.
    + intros [H|(Hx & u & t & -> & Hu & H)]; [by exists [], (x :: text)|].
      exists (x :: u), t. split_and!; [done|by constructor|done].
    + intros ([|y u] & t & E & Hu & H); simpl in E; simplify_eq; [by left|right].
      apply Forall_cons in Hu as [Hx Hu]. split; [done|by exists u, t].
Qed.

Lemma here_once c its a text :
  (∃ t rest, text = t ++ rest ∧ denotes (Once c :: its) t ∧ (a = true → rest = [])) ↔
  ∃ x text', text = x :: text' ∧ char_matches c x ∧
    ∃ t rest, text' = t ++ rest ∧ denotes its t ∧ (a = true → rest = []).
Proof.
  split.
  - intros (t & rest & -> & (x & t' & -> & Hx & H)%denotes_once_iff & Ha).
    exists x, (t' ++ rest). split_and!; [done|done|by exists t', rest].
  - intros (x & ? & -> & Hx & t & rest & -> & H & Ha). exists (x :: t), rest.
    split_and!; [done|by constructor|done].
Qed.

Lemma once_step re c text :
  (∀ text, matchhere re text ↔ here re text) →
  Is_true (match text with x :: text => char_matches c x && matchhere re text | [] => false end) ↔
  ∃ t rest, text = t ++ rest ∧ denotes (Once c :: (items_of re).1) t ∧ ((items_of re).2 = true → rest = []).
Proof.
  intros IH. rewrite here_once. destruct text as [|x text].
  - split; [done|]. by intros (? & ? & ? & _).
  - rewrite andb_True, IH. split; [intros [? ?]; by exists x, text|]. by intros (? & ? & [= <- <-] & ? & ?).
Qed.

Lemma items_of_once c s re : s ≠ STAR →
  items_of (c :: s :: re) = (Once c :: (items_of (s :: re)).1, (items_of (s :: re)).2).
Proof.
  intros Hs. change (items_of (c :: s :: re)) with
    (if decide (s = STAR) then let '(its, a) := items_of re in (Star c :: its, a)
     else let '(its, a) := items_of (s :: re) in (Once c :: its, a)).
  rewrite decide_False by done. by destruct (items_of (s :: re)).
Qed.

Lemma matchhere_iff_upto n : ∀ re, (length re ≤ n)%nat → ∀ text, matchhere re text ↔ here re text.
Proof.
  induction n as [|n IH]; intros [|c re1] Hn text; try (simpl in Hn; lia).
  1,2: split; [intros _; exists [], text; split_and!; [done|constructor|done]|done].
  simpl in Hn. pose proof (IH re1 ltac:(lia)) as IH1. destruct re1 as [|s re2].
  - unfold here. cbn [matchhere items_of]. destruct (decide (c = DOLLAR)) as [->|Hc].
    + rewrite bool_decide_spec. split; [intros ->; exists [], []; split_and!; [done|constructor|done]|].
      intros (t & rest & -> & H & Ha). inversion H. by rewrite Ha.
    + exact (once_step [] c text IH1).
  - unfold here. cbn [matchhere]. destruct (decide (s = STAR)) as [->|Hs].
    + rewrite matchstar_iff. cbn [items_of]. rewrite decide_True by done. destruct (items_of re2) as [its a] eqn:E. cbn [fst snd].
      pose proof (IH re2 ltac:(simpl in Hn; lia)) as IH2. unfold here in IH2. rewrite E in IH2. cbn [fst snd] in IH2.
      setoid_rewrite denotes_star_iff. setoid_rewrite IH2. split.
      * intros (u & ? & -> & Hu & t & rest & -> & H & Ha). exists (u ++ t), rest. rewrite app_assoc.
        split_and!; [done| |done]. by exists u, t.
      * intros (? & rest & -> & (u & t & -> & Hu & H) & Ha). exists u, (t ++ rest). rewrite app_assoc.
        split_and!; [done|done|]. by exists t, rest.
    + rewrite items_of_once by done. exact (once_step (s :: re2) c text IH1).
Qed.

Lemma matchhere_iff re text : matchhere re text ↔ here re text.
Proof. by apply (matchhere_iff_upto (length re)). Qed.

Lemma match_anywhere_iff re text : match_anywhere re text ↔ ∃ skipped text', text = skipped ++ text' ∧ here re text'.
Proof.
  setoid_rewrite <- matchhere_iff. induction text as [|x text IH]; simpl; rewrite orb_True.
  - split; [intros [H|[]]; by exists [], []|]. intros (u & t & E & H). left.
    symmetry in E. apply app_nil in E as [-> ->]. done.
  - rewrite IH. split.
    + intros [H|(u & t & -> & H)]; [by exists [], (x :: text)|by exists (x :: u), t].
    + intros ([|y u] & t & E & H); simpl in E; simplify_eq; [by left|right; by exists u, t].
Qed.

(** C31 [match] decides the language of the regular expression, for every expression and
    text: after a leading [^] the expression must match at the beginning of the text,
    otherwise anywhere; [.] matches any character, [c*] any number of [c], and a final
    [$] only the end. *)
Theorem match_decides_language re text :
  match_ re text = true ↔
  match re with
  | c :: re1 => if decide (c = CARET) then here re1 text
                else ∃ skipped text', text = skipped ++ text' ∧ here re text'
  | [] => ∃ skipped text', text = skipped ++ text' ∧ here re text'
  end.
Proof.
  rewrite <- Is_true_true. unfold match_. destruct re as [|c re]; [apply match_anywhere_iff|].
  case_decide; [apply matchhere_iff|apply match_anywhere_iff].
Qed.

(** ** The loop *)

(** The complete lines of a text. *)
Fixpoint lines_of (cur text : list Z) : list (list Z) :=
  match text with
  | [] => []
  | c :: text => if decide (c = NEWLINE) then cur :: lines_of [] text else lines_of (cur ++ [c]) text
  end.
Definition matching_lines (re text : list Z) : list Z :=
  mjoin ((λ l, l ++ [NEWLINE]) <$> filter (λ l, match_ re l = true) (lines_of [] text)).

Lemma lines_of_none cur l : NEWLINE ∉ l → lines_of cur l = [].
Proof.
  revert cur. induction l as [|c l IH]; intros cur; simpl; [done|].
  intros [? ?]%not_elem_of_cons. rewrite decide_False by congruence. by apply IH.
Qed.
Lemma lines_of_cons cur l r : NEWLINE ∉ l → lines_of cur (l ++ NEWLINE :: r) = (cur ++ l) :: lines_of [] r.
Proof.
  revert cur. induction l as [|c l IH]; intros cur; simpl.
  - intros _. by rewrite app_nil_r.
  - intros [? ?]%not_elem_of_cons. rewrite decide_False by congruence. rewrite IH by done. by rewrite <- app_assoc.
Qed.

Lemma find_newline_some l r : NEWLINE ∉ l → 0 ∉ l → find_newline (l ++ NEWLINE :: r) = Some (Some (length l)).
Proof.
  induction l as [|c l IH]; simpl; [done|]. intros [? ?]%not_elem_of_cons [? ?]%not_elem_of_cons.
  rewrite !decide_False by congruence. by rewrite IH.
Qed.
Lemma find_newline_none l r : NEWLINE ∉ l → 0 ∉ l → find_newline (l ++ 0 :: r) = Some None.
Proof.
  induction l as [|c l IH]; simpl; [done|]. intros [? ?]%not_elem_of_cons [? ?]%not_elem_of_cons.
  rewrite !decide_False by congruence. by rewrite IH.
Qed.

Lemma grep_lines_spec re : ∀ k rest tail buf p,
  (length rest < k)%nat → 0 ∉ rest → drop p buf = rest ++ 0 :: tail →
  ∃ buf' p', grep_lines k re buf p = Some (buf', p', matching_lines re rest) ∧ length buf' = length buf.
Proof.
  induction k as [|k IH]; intros rest tail buf p Hk H0 Hd; [lia|]. cbn [grep_lines]. rewrite Hd.
  destruct (decide (NEWLINE ∈ rest)) as [Hin|Hn].
  2: { rewrite find_newline_none by done. eexists _, _. unfold matching_lines. by rewrite lines_of_none. }
  apply list_elem_of_split_l in Hin as (l & r & -> & Hl). rewrite length_app in Hk. simpl in Hk.
  apply not_elem_of_app in H0 as [H0l H0r]. apply not_elem_of_cons in H0r as [_ H0r].
  rewrite <- app_assoc. simpl. rewrite find_newline_some by done. cbn [mbind option_bind].
  rewrite take_app_length.
  assert (Hd' : ∀ b, drop (p + length l + 1) (<[(p + length l)%nat:=b]> buf) = r ++ 0 :: tail).
  { intros b. rewrite drop_insert_lt by lia. rewrite <- Nat.add_assoc, <- drop_drop, Hd, <- app_assoc. simpl.
    by rewrite <- drop_drop, drop_app_length. }
  unfold matching_lines. rewrite lines_of_cons by done. cbn [app]. rewrite filter_cons.
  destruct (match_ re l) eqn:E.
  - assert (Hb : <[(p + length l)%nat := NEWLINE]> buf = buf).
    { apply list_insert_id. rewrite <- lookup_drop, Hd, <- app_assoc. simpl. by apply list_lookup_middle. }
    specialize (Hd' NEWLINE). rewrite Hb in Hd'.
    destruct (IH r tail buf _ ltac:(lia) H0r Hd') as (buf' & p' & Hr & Hlen). rewrite Hr. simpl.
    exists buf', p'. split; [|done]. by rewrite <- app_assoc.
  - destruct (IH r tail _ _ ltac:(lia) H0r (Hd' 0)) as (buf' & p' & Hr & Hlen).
    exists buf', p'. rewrite length_insert in Hlen. by split.
Qed.

(** An input that arrives in one read, shorter than the buffer and without NUL
    bytes, is handled as a text: [grep] writes the complete lines that match, each with
    its newline, in order. *)
Theorem grep_one_read k re text :
  (0 < length text)%nat → Z.of_nat (length text) < BUFSIZE → 0 ∉ text →
  grep (S k) re [text] = Some (matching_lines re text).
Proof.
  intros Hpos Hlen H0. unfold grep. destruct text as [|c0 text0]; [simpl in Hpos; lia|].
  set (text := c0 :: text0) in *. cbn [grep_loop]. fold text. rewrite decide_False by lia.
  rewrite drop_ge, take_ge by (unfold BUFSIZE in *; lia).
  change text with (c0 :: text0) at 1. cbv match.
  set (buf := splice _ _ _).
  assert (Hbuf : buf = text ++ replicate (1024 - length text) 0).
  { unfold buf, splice. rewrite Z.sub_diag || replace (0 + Z.of_nat (length text) - Z.of_nat (length text)) with 0 by lia.
    simpl take. rewrite drop_replicate. done. }
  destruct (grep_lines_spec re (S (length (replicate (Z.to_nat BUFSIZE) 0))) text
    (replicate (1023 - length text) 0) buf 0) as (buf' & p' & E & _).
  - rewrite length_replicate. unfold BUFSIZE in *. lia.
  - done.
  - rewrite drop_0, Hbuf. replace (1024 - length text)%nat with (S (1023 - length text)) by (unfold BUFSIZE in *; lia). done.
  - rewrite E. simpl. repeat case_decide; destruct k; simpl; by rewrite app_nil_r.
Qed.

(** An input that arrives in several reads is not handled as a text.  [buf] is not
    terminated: after the line [abc] the line [x] leaves the bytes of the first one
    behind it, and [grep c] writes the line [c], which is not in the input.  A line
    without its newline is thrown away: [grep b] misses the line [abc] when it arrives
    as [ab] and [c]. *)
Theorem grep_several_reads :
  (let input := [lit "abc" ++ [NEWLINE]; lit "x" ++ [NEWLINE]] in
   grep 3 (lit "c") input = Some (lit "abc" ++ [NEWLINE] ++ lit "c" ++ [NEWLINE]) ∧
   matching_lines (lit "c") (mjoin input) = lit "abc" ++ [NEWLINE]) ∧
  (let input := [lit "ab"; lit "c" ++ [NEWLINE]] in
   grep 3 (lit "b") input = Some [] ∧
   matching_lines (lit "b") (mjoin input) = lit "abc" ++ [NEWLINE]).
Proof. by vm_compute. Qed.

Lemma grep_one_read_witness :
  grep 2 (lit "^a.*c$") [lit "abc" ++ [NEWLINE] ++ lit "xabc" ++ [NEWLINE]] = Some (lit "abc" ++ [NEWLINE]).
Proof.
  rewrite (grep_one_read 1); [by vm_compute|by vm_compute; lia|by vm_compute|].
  apply (bool_decide_unpack _). by vm_compute.
Defined.
