(* ===== verification/Sh.v ===== *)
(** * The shell's parser (sh.c)

    [buf] is the command line without its terminating NUL; a pointer into it is a
    position, [es] the position of the NUL.  A word of a command is the pair of its two
    pointers, as in [argv] and [eargv].  The nodes of the tree are values; [parseexec]
    fills in the arguments of a node that redirections already point to, so here it
    collects both and builds the tree when it returns.  [malloc] is taken to succeed.

    A parser returns a result and the new position, or stops the shell with a message.
    [parseline] takes fuel for the nesting of blocks and lists, the other loops for
    their iterations; each step moves the position forward, so one more than the
    length of the line is enough ([parsecmd_total]). *)
From S2P Require Import Prelude CString FsDisk Sysfile.
Local Open Scope Z_scope.

Definition MAXARGS : nat := 10.

(** What a redirection opens: the file, the mode and the descriptor it replaces. *)
Inductive cmd (W : Type) :=
| EXEC (argv : list W)
| REDIR (c : cmd W) (file : W) (mode fd : Z)
| PIPE (left right : cmd W)
| LIST (left right : cmd W)
| BACK (c : cmd W).
Arguments EXEC {W} argv.
Arguments REDIR {W} c file mode fd.
Arguments PIPE {W} left right.
Arguments LIST {W} left right.
Arguments BACK {W} c.

(** The words as pointers. *)
Notation word := (nat * nat)%type (only parsing).

Inductive presult (A : Type) :=
| POk (a : A) (n : nat)
| PPanic (msg : string)
| PFuel.
Arguments POk {A} a n.
Arguments PPanic {A} msg.
Arguments PFuel {A}.

Definition pbind {A B} (r : presult A) (f : A → nat → presult B) : presult B :=
  match r with POk a n => f a n | PPanic m => PPanic m | PFuel => PFuel end.

Definition whitespace : list Z := [32; 9; 13; 10; 11].
Definition symbols : list Z := lit "<|>&;()".
(** [strchr(set, c) != 0] *)
Definition is_in (set : list Z) (c : Z) : bool := bool_decide (c ∈ set).

Section parser.
Context (buf : list Z).

Definition es : nat := length buf.
(** [*s]; the NUL is at [es]. *)
Definition char_at (n : nat) : Z := default 0 (buf !! n).

Fixpoint skip_while (f : Z → bool) (l : list Z) (n : nat) : nat :=
  match l with
  | [] => n
  | c :: l => if f c then skip_while f l (S n) else n
  end.
Definition skip_space (n : nat) : nat := skip_while (is_in whitespace) (drop n buf) n.
Definition word_char (c : Z) : bool := negb (is_in whitespace c) && negb (is_in symbols c).
Definition skip_word (n : nat) : nat := skip_while word_char (drop n buf) n.

(** The token, its two ends and the new position. *)
Definition gettoken (n : nat) : Z * word * nat :=
  let q := skip_space n in
  let c := char_at q in
  let '(ret, eq) :=
    if decide (c = 0) then (c, q)
    else if decide (c = 62) then
      if decide (char_at (S q) = 62) then (43, S (S q)) else (c, S q)
    else if is_in symbols c then (c, S q)
    else (97, skip_word q) in
  (ret, (q, eq), skip_space eq).

Definition peek (n : nat) (toks : list Z) : bool * nat :=
  let s := skip_space n in (bool_decide (char_at s ≠ 0) && is_in toks (char_at s), s).

(** A redirection: file, mode, descriptor. *)
Notation redir := (word * Z * Z)%type (only parsing).
Definition add_redirs {W} (c : cmd W) (rs : list (W * Z * Z)) : cmd W :=
  foldl (λ c '(f, mode, fd), REDIR c f mode fd) c rs.

Fixpoint parseredirs (k : nat) (rs : list redir) (n : nat) : presult (list redir) :=
  match k with
  | O => PFuel
  | S k =>
      let '(b, n) := peek n (lit "<>") in
      if b then
        let '(tok, _, n) := gettoken n in
        let '(t, w, n) := gettoken n in
        if decide (t ≠ 97) then PPanic "missing file for redirection"
        else if decide (tok = 60) then parseredirs k (rs ++ [(w, 0, 0)]) n
        else parseredirs k (rs ++ [(w, Z.lor O_WRONLY O_CREATE, 1)]) n
      else POk rs n
  end.

(** The loop of [parseexec] over the arguments. *)
Fixpoint parseargs (k : nat) (args : list word) (rs : list redir) (n : nat) : presult (cmd word) :=
  match k with
  | O => PFuel
  | S k =>
      let '(b, n) := peek n (lit "|)&;") in
      if b then POk (add_redirs (EXEC args) rs) n
      else
        let '(tok, w, n) := gettoken n in
        if decide (tok = 0) then POk (add_redirs (EXEC args) rs) n
        else if decide (tok ≠ 97) then PPanic "syntax"
        else if decide (MAXARGS ≤ S (length args))%nat then PPanic "too many args"
        else pbind (parseredirs (S es) rs n) (λ rs n, parseargs k (args ++ [w]) rs n)
  end.

Section line.
(** [parseline], for the parsers below it. *)
Context (parseline : nat → presult (cmd word)).

Definition parseblock (n : nat) : presult (cmd word) :=
  let '(b, n) := peek n (lit "(") in
  if negb b then PPanic "parseblock"
  else
    let '(_, _, n) := gettoken n in
    pbind (parseline n) (λ c n,
      let '(b, n) := peek n (lit ")") in
      if negb b then PPanic "syntax - missing )"
      else
        let '(_, _, n) := gettoken n in
        pbind (parseredirs (S es) [] n) (λ rs n, POk (add_redirs c rs) n)).

Definition parseexec (n : nat) : presult (cmd word) :=
  let '(b, n) := peek n (lit "(") in
  if b then parseblock n
  else pbind (parseredirs (S es) [] n) (λ rs n, parseargs (S es) [] rs n).

Fixpoint parsepipe (k : nat) (n : nat) : presult (cmd word) :=
  match k with
  | O => PFuel
  | S k =>
      pbind (parseexec n) (λ c n,
        let '(b, n) := peek n (lit "|") in
        if b then
          let '(_, _, n) := gettoken n in
          pbind (parsepipe k n) (λ r n, POk (PIPE c r) n)
        else POk c n)
  end.

(** The loop of [parseline] over [&]. *)
Fixpoint parsebacks (k : nat) (c : cmd word) (n : nat) : presult (cmd word) :=
  match k with
  | O => PFuel
  | S k =>
      let '(b, n) := peek n (lit "&") in
      if b then let '(_, _, n) := gettoken n in parsebacks k (BACK c) n
      else POk c n
  end.
End line.

Fixpoint parseline (k : nat) (n : nat) : presult (cmd word) :=
  match k with
  | O => PFuel
  | S k =>
      pbind (parsepipe (parseline k) (S es) n) (λ c n,
        pbind (parsebacks (S es) c n) (λ c n,
          let '(b, n) := peek n (lit ";") in
          if b then
            let '(_, _, n) := gettoken n in
            pbind (parseline k n) (λ r n, POk (LIST c r) n)
          else POk c n))
  end.

(** [parsecmd] without [nulterminate]; the leftovers are printed before the panic. *)
Definition parse : presult (cmd word) :=
  pbind (parseline (S es) 0) (λ c n,
    let '(_, n) := peek n [] in
    if decide (n ≠ es) then PPanic "syntax" else POk c n).
End parser.

(** The words of a command, in the order in which [nulterminate] visits them. *)
Fixpoint words {W} (c : cmd W) : list W :=
  match c with
  | EXEC argv => argv
  | REDIR c f _ _ => words c ++ [f]
  | PIPE l r | LIST l r => words l ++ words r
  | BACK c => words c
  end.

(** The bytes of the line, with the NUL, after the words have been terminated. *)
Fixpoint nulterminate (c : cmd word) (mem : list Z) : list Z :=
  match c with
  | EXEC argv => foldl (λ m w, <[w.2 := 0]> m) mem argv
  | REDIR c f _ _ => <[f.2 := 0]> (nulterminate c mem)
  | PIPE l r | LIST l r => nulterminate r (nulterminate l mem)
  | BACK c => nulterminate c mem
  end.

Definition parsecmd (buf : list Z) : presult (cmd word * list Z) :=
  pbind (parse buf) (λ c n, POk (c, nulterminate c (buf ++ [0])) n).
