(* ===== verification/ShTotal.v ===== *)
(** * The shell's parser always answers: theorems on Sh

    Every function of the parser moves the position forward, so the fuel given in
    Sh is enough: [parsecmd] returns a command or a syntax error for every line. *)
From S2P Require Import Prelude CString FsDisk Sysfile Sh.
Local Open Scope nat_scope.

Section total.
Context (buf : list Z).

Lemma skip_while_bounds f l : ∀ n, n ≤ skip_while f l n ≤ n + length l.
Proof.
  induction l as [|c l IH]; intros n; simpl; [lia|]. destruct (f c); [|lia]. specialize (IH (S n)). lia.
Qed.
Lemma skip_space_bounds n : n ≤ es buf → n ≤ skip_space buf n ≤ es buf.
Proof.
  unfold skip_space, es. intros Hn. pose proof (skip_while_bounds (is_in whitespace) (drop n buf) n) as H.
  rewrite length_drop in H. lia.
Qed.
Lemma skip_word_bounds n : n ≤ es buf → n ≤ skip_word buf n ≤ es buf.
Proof.
  unfold skip_word, es. intros Hn. pose proof (skip_while_bounds word_char (drop n buf) n) as H.
  rewrite length_drop in H. lia.
Qed.

Lemma char_at_end n : char_at buf n ≠ 0%Z → n < es buf.
Proof.
  unfold char_at, es. intros H. destruct (buf !! n) eqn:E; [by eapply lookup_lt_Some|done].
Qed.
Lemma char_at_lookup n : n < es buf → buf !! n = Some (char_at buf n).
Proof. unfold char_at, es. intros [c ->]%lookup_lt_is_Some. done. Qed.

(** A word has at least one character. *)
Lemma skip_word_moves n : n < es buf → word_char (char_at buf n) = true → n < skip_word buf n.
Proof.
  intros Hn Hw. unfold skip_word. rewrite (drop_S buf (char_at buf n) n) by by apply char_at_lookup.
  simpl. rewrite Hw. pose proof (skip_while_bounds word_char (drop (S n) buf) (S n)). lia.
Qed.

Lemma skip_space_stops n : n ≤ es buf → is_in whitespace (char_at buf (skip_space buf n)) = false.
Proof.
  intros Hn. unfold skip_space. remember (drop n buf) as l eqn:E. revert n Hn E.
  induction l as [|c l IH]; intros n Hn E; simpl.
  - unfold char_at. rewrite lookup_ge_None_2; [done|]. apply (f_equal length) in E. rewrite length_drop in E. simpl in E. lia.
  - assert (Hc : buf !! n = Some c) by (rewrite <- (Nat.add_0_r n), <- lookup_drop, <- E; done).
    destruct (is_in whitespace c) eqn:Ew; [|by unfold char_at; rewrite Hc].
    apply IH; [by apply lookup_lt_Some in Hc|]. rewrite (drop_S buf c n Hc) in E. congruence.
Qed.

Lemma gettoken_bounds n tok w n' : n ≤ es buf → gettoken buf n = (tok, w, n') →
  n ≤ n' ≤ es buf ∧ (tok ≠ 0%Z → n < n').
Proof.
  intros Hn. unfold gettoken. pose proof (skip_space_bounds n Hn) as Hq. set (q := skip_space buf n) in *.
  pose proof (skip_space_stops n Hn) as Hns. fold q in Hns.
  destruct (decide (char_at buf q = 0%Z)) as [E0|E0].
  { intros [= <- <- <-]. pose proof (skip_space_bounds q ltac:(lia)). split; [lia|congruence]. }
  pose proof (char_at_end q E0) as Hlt.
  assert (S1 : ∀ m, q < m ≤ es buf → n ≤ skip_space buf m ≤ es buf ∧ n < skip_space buf m).
  { intros m Hm. pose proof (skip_space_bounds m ltac:(lia)). lia. }
  destruct (decide (char_at buf q = 62%Z)) as [E62|E62].
  { destruct (decide (char_at buf (S q) = 62%Z)) as [E2|E2]; intros [= <- <- <-].
    - assert (Hlt2 : S q < es buf) by (apply char_at_end; congruence).
      destruct (S1 (S (S q)) ltac:(lia)). done.
    - destruct (S1 (S q) ltac:(lia)). done. }
  destruct (is_in symbols (char_at buf q)) eqn:Es; intros [= <- <- <-].
  - destruct (S1 (S q) ltac:(lia)). done.
  - assert (Hw : word_char (char_at buf q) = true) by (unfold word_char; by rewrite Hns, Es).
    pose proof (skip_word_moves q Hlt Hw). pose proof (skip_word_bounds q ltac:(lia)).
    destruct (S1 (skip_word buf q) ltac:(lia)). done.
Qed.

Lemma peek_bounds n toks b n' : n ≤ es buf → peek buf n toks = (b, n') →
  n ≤ n' ≤ es buf ∧ (b = true → n' < es buf ∧ char_at buf n' ≠ 0%Z ∧ skip_space buf n' = n').
Proof.
  intros Hn. unfold peek. intros [= <- <-]. pose proof (skip_space_bounds n Hn). split; [lia|].
  intros [Hc _]%andb_true_iff. apply bool_decide_eq_true in Hc. split_and!; [by apply char_at_end|done|].
  pose proof (skip_space_stops n Hn) as Hs. set (q := skip_space buf n) in *.
  unfold skip_space. rewrite (drop_S buf (char_at buf q) q) by (by apply char_at_lookup, char_at_end). simpl. by rewrite Hs.
Qed.

(** A word: its characters are between its ends, and there are no more. *)
Definition word_ok (w : nat * nat) : Prop :=
  w.1 < w.2 ≤ es buf ∧ (∀ i, w.1 ≤ i < w.2 → word_char (char_at buf i) = true) ∧
  (w.2 < es buf → word_char (char_at buf w.2) = false).

(** [r] is an answer at or after position [n] that satisfies [Q]. *)
Definition answers {A} (Q : A → Prop) (n : nat) (r : presult A) : Prop :=
  match r with POk a n' => n ≤ n' ≤ es buf ∧ Q a | PPanic _ => True | PFuel => False end.

Lemma answers_bind {A B} (P : A → Prop) (Q : B → Prop) n (r : presult A) (f : A → nat → presult B) :
  answers P n r → (∀ a n', n ≤ n' ≤ es buf → P a → answers Q n (f a n')) → answers Q n (pbind r f).
Proof. destruct r; simpl; [intros []; auto|done|done]. Qed.
Lemma answers_weaken {A} (Q : A → Prop) n n' (r : presult A) : n ≤ n' → answers Q n' r → answers Q n r.
Proof. destruct r; simpl; [intros ? [? ?]; split; [lia|done]|done|done]. Qed.

(** Reading the token that [peek] has seen moves on. *)
Lemma peek_gettoken n toks n1 tok w n2 : n ≤ es buf → peek buf n toks = (true, n1) →
  gettoken buf n1 = (tok, w, n2) → n < n2 ≤ es buf.
Proof.
  intros Hn Hp Hg. destruct (peek_bounds _ _ _ _ Hn Hp) as [H1 H2]. destruct (H2 eq_refl) as (Hlt & Hc & Hs).
  destruct (gettoken_bounds n1 tok w n2 ltac:(lia) Hg) as [H3 H4]. assert (tok ≠ 0%Z); [|specialize (H4 H); lia].
  revert Hg. unfold gettoken. rewrite Hs. rewrite decide_False by done.
  repeat case_decide; try (destruct (is_in symbols _)); intros [= <- _ _]; congruence.
Qed.

Lemma skip_while_spec f : ∀ l n, l = drop n buf →
  (∀ i, n ≤ i < skip_while f l n → f (char_at buf i) = true) ∧
  (skip_while f l n < es buf → f (char_at buf (skip_while f l n)) = false).
Proof.
  induction l as [|c l IH]; intros n E; simpl.
  - split; [lia|]. intros Hn. unfold es in Hn. apply (f_equal length) in E. rewrite length_drop in E. simpl in E. lia.
  - assert (Hc : buf !! n = Some c) by (rewrite <- (Nat.add_0_r n), <- lookup_drop, <- E; done).
    assert (Hn : char_at buf n = c) by (unfold char_at; by rewrite Hc).
    destruct (f c) eqn:Ef; [|split; [lia|by rewrite Hn]].
    destruct (IH (S n)) as [I1 I2]; [rewrite (drop_S buf c n Hc) in E; congruence|]. split; [|done].
    intros i Hi. destruct (decide (i = n)) as [->|]; [by rewrite Hn|]. apply I1. lia.
Qed.

Lemma gettoken_word_ok n w n' : n ≤ es buf → gettoken buf n = (97%Z, w, n') → word_ok w.
Proof.
  intros Hn. unfold gettoken. pose proof (skip_space_bounds n Hn) as Hq. pose proof (skip_space_stops n Hn) as Hns.
  set (q := skip_space buf n) in *. destruct (decide (char_at buf q = 0%Z)) as [E0|E0]; [by intros [= E _ _]; rewrite E0 in E|].
  destruct (decide (char_at buf q = 62%Z)) as [E62|E62]; [destruct (decide _); [done|by intros [= E _ _]; rewrite E62 in E]|].
  destruct (is_in symbols (char_at buf q)) eqn:Es; [intros [= E _ _]; by rewrite E in Es|].
  intros [= <- <-]. assert (Hw : word_char (char_at buf q) = true) by (unfold word_char; by rewrite Hns, Es).
  destruct (skip_while_spec word_char _ q eq_refl) as [W1 W2]. split; [|by split].
  pose proof (skip_word_moves q (char_at_end q E0) Hw). pose proof (skip_word_bounds q ltac:(lia)). simpl. lia.
Qed.

(** ** The parsers answer *)
Definition redirs_ok (rs : list (nat * nat * Z * Z)) : Prop := Forall (λ r, word_ok r.1.1) rs.
Definition cmd_ok (c : cmd (nat * nat)) : Prop := Forall word_ok (words c).

Lemma cmd_ok_redirs rs : ∀ c, cmd_ok c → redirs_ok rs → cmd_ok (add_redirs c rs).
Proof.
  induction rs as [|[[f m] fd] rs IH]; intros c Hc Hrs; [done|]. apply Forall_cons in Hrs as [Hf Hrs].
  apply IH; [|done]. apply Forall_app. split; [done|by apply Forall_singleton].
Qed.

Lemma parseredirs_answers : ∀ k rs n, n ≤ es buf → es buf < k + n → redirs_ok rs →
  answers redirs_ok n (parseredirs buf k rs n).
Proof.
  induction k as [|k IH]; intros rs n Hn Hk Hrs; [lia|]. cbn [parseredirs].
  destruct (peek buf n _) as [b n1] eqn:Ep. destruct (peek_bounds _ _ _ _ Hn Ep) as [H1 _]. destruct b; [|done].
  destruct (gettoken buf n1) as [[tok w] n2] eqn:Eg. pose proof (peek_gettoken _ _ _ _ _ _ Hn Ep Eg).
  destruct (gettoken buf n2) as [[t w2] n3] eqn:Eg2. destruct (gettoken_bounds n2 _ _ _ ltac:(lia) Eg2) as [H3 _].
  destruct (decide (t ≠ 97%Z)) as [D|D]; [done|]. apply dec_stable in D as ->.
  pose proof (gettoken_word_ok n2 w2 n3 ltac:(lia) Eg2).
  apply (answers_weaken _ n n3); [lia|].
  case_decide; (apply IH; [lia|lia|]); (apply Forall_app; split; [done|by apply Forall_singleton]).
Qed.

Lemma parseargs_answers : ∀ k args rs n, n ≤ es buf → es buf < k + n → Forall word_ok args → redirs_ok rs →
  answers cmd_ok n (parseargs buf k args rs n).
Proof.
  induction k as [|k IH]; intros args rs n Hn Hk Ha Hrs; [lia|]. cbn [parseargs].
  pose proof (cmd_ok_redirs rs (EXEC args) Ha Hrs) as Hc.
  destruct (peek buf n _) as [b n1] eqn:Ep. destruct (peek_bounds _ _ _ _ Hn Ep) as [H1 _]. destruct b; [done|].
  destruct (gettoken buf n1) as [[tok w] n2] eqn:Eg. destruct (gettoken_bounds n1 _ _ _ ltac:(lia) Eg) as [H2 H3].
  case_decide; [split; [lia|done]|]. destruct (decide (tok ≠ 97%Z)) as [D|D]; [done|]. apply dec_stable in D as ->.
  case_decide; [done|]. specialize (H3 ltac:(done)). pose proof (gettoken_word_ok n1 w n2 ltac:(lia) Eg).
  apply (answers_weaken _ n n2); [lia|]. eapply answers_bind; [apply parseredirs_answers; (lia || done)|].
  intros rs' n' Hn' Hrs'. apply (answers_weaken _ n2 n'); [lia|]. apply IH; [lia|lia| |done].
  apply Forall_app. split; [done|by apply Forall_singleton].
Qed.

Section line.
(** [parseline] answers at the positions after [n0]. *)
Context (line : nat → presult (cmd (nat * nat))) (n0 : nat).
Context (Hline : ∀ n, n0 < n ≤ es buf → answers cmd_ok n (line n)).

Lemma parseblock_answers n : n0 ≤ n ≤ es buf → answers cmd_ok n (parseblock buf line n).
Proof.
  intros Hn. unfold parseblock. destruct (peek buf n _) as [b n1] eqn:Ep.
  destruct b; [|done]. cbn [negb]. destruct (gettoken buf n1) as [[tok w] n2] eqn:Eg.
  pose proof (peek_gettoken n _ _ _ _ _ ltac:(lia) Ep Eg).
  apply (answers_weaken _ n n2); [lia|]. eapply answers_bind; [apply Hline; lia|]. intros c n3 H3 Hc.
  destruct (peek buf n3 _) as [b n4] eqn:Ep2. destruct b; [|done]. cbn [negb].
  destruct (gettoken buf n4) as [[tok2 w2] n5] eqn:Eg2. pose proof (peek_gettoken n3 _ _ _ _ _ ltac:(lia) Ep2 Eg2).
  apply (answers_weaken _ n2 n5); [lia|]. eapply answers_bind; [apply parseredirs_answers; [lia|lia|constructor]|].
  intros rs n6 H6 Hrs. split; [done|by apply cmd_ok_redirs].
Qed.

Lemma parseexec_answers n : n0 ≤ n ≤ es buf → answers cmd_ok n (parseexec buf line n).
Proof.
  intros Hn. unfold parseexec. destruct (peek buf n _) as [b n1] eqn:Ep.
  destruct (peek_bounds n _ _ _ ltac:(lia) Ep) as [H1 _]. apply (answers_weaken _ n n1); [lia|].
  destruct b; [apply parseblock_answers; lia|].
  eapply answers_bind; [apply parseredirs_answers; [lia|lia|constructor]|].
  intros rs n2 H2 Hrs. apply (answers_weaken _ n1 n2); [lia|]. apply parseargs_answers; [lia|lia|constructor|done].
Qed.

Lemma parsepipe_answers : ∀ k n, n0 ≤ n ≤ es buf → es buf < k + n → answers cmd_ok n (parsepipe buf line k n).
Proof.
  induction k as [|k IH]; intros n Hn Hk; [lia|]. cbn [parsepipe].
  eapply answers_bind; [by apply parseexec_answers|]. intros c n1 H1 Hc.
  destruct (peek buf n1 _) as [b n2] eqn:Ep. destruct (peek_bounds n1 _ _ _ ltac:(lia) Ep) as [H2 _].
  destruct b; [|split; [lia|done]]. destruct (gettoken buf n2) as [[tok w] n3] eqn:Eg.
  pose proof (peek_gettoken n1 _ _ _ _ _ ltac:(lia) Ep Eg).
  apply (answers_weaken _ n n3); [lia|]. eapply answers_bind; [apply IH; lia|].
  intros r n4 H4 Hr. split; [done|by apply Forall_app].
Qed.
End line.

Lemma parsebacks_answers : ∀ k c n, n ≤ es buf → es buf < k + n → cmd_ok c → answers cmd_ok n (parsebacks buf k c n).
Proof.
  induction k as [|k IH]; intros c n Hn Hk Hc; [lia|]. cbn [parsebacks].
  destruct (peek buf n _) as [b n1] eqn:Ep. destruct (peek_bounds _ _ _ _ Hn Ep) as [H1 _]. destruct b; [|done].
  destruct (gettoken buf n1) as [[tok w] n2] eqn:Eg. pose proof (peek_gettoken _ _ _ _ _ _ Hn Ep Eg).
  apply (answers_weaken _ n n2); [lia|]. apply IH; [lia|lia|done].
Qed.

Lemma parseline_answers : ∀ k n, n ≤ es buf → es buf < k + n → answers cmd_ok n (parseline buf k n).
Proof.
  induction k as [|k IH]; intros n Hn Hk; [lia|]. cbn [parseline].
  eapply answers_bind; [apply (parsepipe_answers _ n); [intros m Hm; apply IH|..]; lia|]. intros c n1 H1 Hc.
  apply (answers_weaken _ n n1); [lia|]. eapply answers_bind; [apply parsebacks_answers; (lia || done)|]. intros c' n2 H2 Hc'.
  destruct (peek buf n2 _) as [b n3] eqn:Ep. destruct (peek_bounds n2 _ _ _ ltac:(lia) Ep) as [H3 _].
  destruct b; [|split; [lia|done]]. destruct (gettoken buf n3) as [[tok w] n4] eqn:Eg.
  pose proof (peek_gettoken n2 _ _ _ _ _ ltac:(lia) Ep Eg).
  apply (answers_weaken _ n1 n4); [lia|]. eapply answers_bind; [apply IH; lia|].
  intros r n5 H5 Hr. split; [done|by apply Forall_app].
Qed.

Lemma parse_answers : answers cmd_ok 0 (parse buf).
Proof.
  unfold parse. eapply answers_bind; [apply parseline_answers; lia|]. intros c n Hn Hc.
  pose proof (skip_space_bounds n ltac:(lia)). cbn [peek]. by destruct (decide _); [|split; [lia|]].
Qed.
End total.

(** ** The strings of the words *)

(** The C string at position [q]. *)
Fixpoint cstring (l : list Z) : list Z :=
  match l with [] => [] | c :: l => if decide (c = 0%Z) then [] else c :: cstring l end.
Definition cstring_at (mem : list Z) (q : nat) : list Z := cstring (drop q mem).
(** The text of a word in the line. *)
Definition text (buf : list Z) (w : nat * nat) : list Z := take (w.2 - w.1) (drop w.1 buf).

Definition terminate (ws : list (nat * nat)) (mem : list Z) : list Z := foldl (λ m w, <[w.2 := 0%Z]> m) mem ws.

Lemma nulterminate_words c : ∀ mem, nulterminate c mem = terminate (words c) mem.
Proof.
  unfold terminate. induction c as [argv|c IH f mode fd|l IHl r IHr|l IHl r IHr|c IH]; intros mem; simpl;
    rewrite ?foldl_app, ?IH, ?IHl, ?IHr; done.
Qed.

Lemma terminate_length ws : ∀ mem, length (terminate ws mem) = length mem.
Proof. unfold terminate. induction ws as [|w ws IH]; intros mem; simpl; [done|]. by rewrite IH, length_insert. Qed.

Lemma terminate_lookup ws : ∀ mem i, i < length mem →
  terminate ws mem !! i = if decide (i ∈ ws.*2) then Some 0%Z else mem !! i.
Proof.
  unfold terminate. induction ws as [|w ws IH] using rev_ind; intros mem i Hi; [done|].
  rewrite foldl_app. simpl. rewrite fmap_app. simpl.
  pose proof (terminate_length ws mem) as L. unfold terminate in L.
  destruct (decide (i = w.2)) as [->|Hne].
  - rewrite list_lookup_insert_eq by lia. by rewrite decide_True by set_solver.
  - rewrite list_lookup_insert_ne by done. rewrite IH by done. apply decide_ext. set_solver.
Qed.

Lemma cstring_spec n : ∀ l, n ≤ length l → (∀ i, i < n → ∃ c, l !! i = Some c ∧ c ≠ 0%Z) → l !! n = Some 0%Z →
  cstring l = take n l.
Proof.
  induction n as [|n IH]; intros [|c l] Hn Hc H0; simpl in *; [done|by simplify_eq|done|].
  destruct (Hc 0 ltac:(lia)) as (c' & [= <-] & Hne). rewrite decide_False by done. f_equal.
  apply IH; [lia| |done]. intros i Hi. apply (Hc (S i)). lia.
Qed.

(** Terminating the words of a command leaves each of them as it was in the line: no
    word ends where another one has a character. *)
Lemma terminated_words buf ws w : 0%Z ∉ buf → Forall (word_ok buf) ws → w ∈ ws →
  cstring_at (terminate ws (buf ++ [0%Z])) w.1 = text buf w.
Proof.
  intros H0 Hws Hw. destruct w as [q eq]. rewrite Forall_forall in Hws. destruct (Hws _ Hw) as (B & Hc & _). simpl in B, Hc.
  unfold cstring_at, text. cbn [fst snd]. unfold es in *.
  assert (L : length (terminate ws (buf ++ [0%Z])) = S (length buf)) by (rewrite terminate_length, length_app; simpl; lia).
  assert (Hin : ∀ i, q ≤ i < eq → terminate ws (buf ++ [0%Z]) !! i = buf !! i).
  { intros i Hi. rewrite terminate_lookup by (rewrite length_app; simpl; lia). rewrite decide_False.
    - apply lookup_app_l. lia.
    - intros ([q' eq'] & -> & Hw')%list_elem_of_fmap. simpl in *. destruct (Hws _ Hw') as (_ & _ & He). simpl in He.
      rewrite (Hc eq') in He by done. unfold es in He. by specialize (He ltac:(lia)). }
  rewrite (cstring_spec (eq - q)).
  - apply list_eq. intros i. destruct (decide (i < eq - q)).
    + rewrite !lookup_take_lt, !lookup_drop by done. apply Hin. lia.
    + by rewrite !lookup_take_ge by lia.
  - rewrite length_drop. lia.
  - intros i Hi. rewrite lookup_drop, Hin by lia. destruct (lookup_lt_is_Some_2 buf (q + i)) as [c E]; [lia|].
    exists c. split; [done|]. intros ->. by apply H0, (list_elem_of_lookup_2 _ (q + i)).
  - rewrite lookup_drop, terminate_lookup by (rewrite length_app; simpl; lia). rewrite decide_True; [done|].
    apply list_elem_of_fmap. exists (q, eq). split; [simpl; lia|done].
Qed.

(** C13 The shell's parser always answers: for every command line [parsecmd] reports a
    syntax error or returns a command, having read the whole line.  Each word of the
    command is then a C string in the line: the characters it had there, at least
    one, none of them white space or a symbol. *)
Theorem parsecmd_total buf : 0%Z ∉ buf →
  (∃ msg, parsecmd buf = PPanic msg) ∨
  ∃ c mem, parsecmd buf = POk (c, mem) (length buf) ∧
    Forall (λ w, cstring_at mem w.1 = text buf w ∧ text buf w ≠ [] ∧ Forall (λ c, word_char c = true) (text buf w)) (words c).
Proof.
  intros H0. pose proof (parse_answers buf) as H. unfold parsecmd.
  destruct (parse buf) as [c n|msg|] eqn:E; simpl in *; [|by left; exists msg|done].
  right. exists c, (nulterminate c (buf ++ [0%Z])). destruct H as [_ Hc]. split.
  - f_equal. revert E. unfold parse. destruct (parseline buf _ 0) as [c' n'|msg|]; simpl; [|done|done].
    destruct (decide (skip_space buf n' ≠ es buf)) as [D|D]; intros [= _ <-]. by apply dec_stable in D.
  - apply Forall_forall. intros w Hw. rewrite nulterminate_words. split; [by apply terminated_words|].
    unfold cmd_ok in Hc. rewrite Forall_forall in Hc. destruct (Hc w Hw) as (B & Hch & _). unfold text, es in *. split.
    + intros X%(f_equal length). rewrite length_take, length_drop in X. simpl in X. lia.
    + apply Forall_lookup. intros i ch Hi. apply lookup_take_Some in Hi as [Hi Hlt]. rewrite lookup_drop in Hi.
      rewrite <- (Hch (w.1 + i) ltac:(lia)). unfold char_at. by rewrite Hi.
Qed.

Lemma parsecmd_total_witness :
  (∃ msg, parsecmd (lit "cat <") = PPanic msg) ∧ ∃ c mem, parsecmd (lit "cat <f") = POk (c, mem) 6.
Proof.
  split.
  - destruct (parsecmd_total (lit "cat <") ltac:(by apply (bool_decide_unpack _))) as [?|(c & mem & E & _)]; [done|]. by vm_compute in E.
  - destruct (parsecmd_total (lit "cat <f") ltac:(by apply (bool_decide_unpack _))) as [[msg E]|(c & mem & E & _)]; [by vm_compute in E|].
    by exists c, mem.
Defined.
