(* ===== verification/ShPrint.v ===== *)
(** * Printing and parsing commands: theorems on Sh

    [show] writes a command as a line, with parentheses where the grammar of the shell
    needs them; parsing the line gives the command back. *)
From S2P Require Import Prelude CString FsDisk Sysfile Sh ShTotal.
Local Open Scope nat_scope.

(** Membership in and inclusion of concrete lists. *)
Ltac mem := by apply (bool_decide_unpack _).

Fixpoint cmd_map {A B} (f : A → B) (c : cmd A) : cmd B :=
  match c with
  | EXEC argv => EXEC (f <$> argv)
  | REDIR c w mode fd => REDIR (cmd_map f c) (f w) mode fd
  | PIPE l r => PIPE (cmd_map f l) (cmd_map f r)
  | LIST l r => LIST (cmd_map f l) (cmd_map f r)
  | BACK c => BACK (cmd_map f c)
  end.

(** ** Printing *)
Definition level {W} (c : cmd W) : nat :=
  match c with EXEC _ | REDIR _ _ _ _ => 0 | PIPE _ _ => 1 | BACK _ => 2 | LIST _ _ => 3 end.

Definition show_word (w : list Z) : list Z := w ++ [32%Z].
Definition show_redir (r : list Z * Z * Z) : list Z :=
  (if decide (r.2 = 0%Z) then 60%Z else 62%Z) :: show_word r.1.1.

(** The command where one of level [p] may stand. *)
Fixpoint show (c : cmd (list Z)) (p : nat) : list Z :=
  let s :=
    match c with
    | EXEC argv => mjoin (show_word <$> argv)
    | REDIR c f mode fd => show c 0 ++ show_redir (f, mode, fd)
    | PIPE l r => show l 0 ++ 124%Z :: show r 1
    | BACK c => show c 2 ++ [38%Z]
    | LIST l r => show l 2 ++ 59%Z :: show r 3
    end in
  if decide (level c ≤ p) then s else 40%Z :: s ++ [41%Z].

(** Words the shell can read, at most [MAXARGS - 1] arguments, and the redirections it
    knows. *)
Definition plain (w : list Z) : Prop := w ≠ [] ∧ Forall (λ c, word_char c = true ∧ c ≠ 0%Z) w.
Definition plain_redir (mode fd : Z) : Prop :=
  (mode = 0 ∧ fd = 0)%Z ∨ (mode = Z.lor O_WRONLY O_CREATE ∧ fd = 1)%Z.
Fixpoint printable (c : cmd (list Z)) : Prop :=
  match c with
  | EXEC argv => Forall plain argv ∧ length argv < MAXARGS
  | REDIR c f mode fd => printable c ∧ plain f ∧ plain_redir mode fd
  | PIPE l r | LIST l r => printable l ∧ printable r
  | BACK c => printable c
  end.

(** What may follow: the end or one of [set]. *)
Definition follows (set rest : list Z) : Prop := match rest with [] => True | c :: _ => c ∈ set end.
(** Not white space, and no NUL. *)
Definition clean (rest : list Z) : Prop := match rest with [] => True | c :: _ => is_in whitespace c = false ∧ c ≠ 0%Z end.

Lemma follows_clean set rest : Forall (λ c, is_in whitespace c = false ∧ c ≠ 0%Z) set → follows set rest → clean rest.
Proof. intros H. destruct rest as [|c rest]; simpl; [done|]. intros Hc. by eapply Forall_forall in H. Qed.

Lemma plain_char c : word_char c = true → is_in whitespace c = false ∧ is_in symbols c = false.
Proof. unfold word_char. intros [H1 H2]%andb_true_iff. split; by apply negb_true_iff. Qed.

Lemma plain_clean w rest : plain w → clean (w ++ rest).
Proof.
  intros [Hne Hw]. destruct w as [|c w]; [done|]. apply Forall_cons in Hw as [[Hc H0] _]. simpl.
  split; [by apply plain_char|done].
Qed.

Section at_position.
Context (buf : list Z).

(** [s] is what is left of the line at position [n]. *)
Definition left_at (n : nat) (s : list Z) : Prop := drop n buf = s ∧ n + length s = es buf.

Lemma left_at_app n a b : left_at n (a ++ b) → left_at (n + length a) b.
Proof.
  intros [H1 H2]. split; [|rewrite length_app in H2; lia].
  by rewrite <- drop_drop, H1, drop_app_length.
Qed.
Lemma left_at_cons n c s : left_at n (c :: s) → left_at (S n) s.
Proof. intros H. rewrite <- Nat.add_1_r. exact (left_at_app n [c] s H). Qed.

Lemma left_at_lookup n s i : left_at n s → s !! i = buf !! (n + i).
Proof. intros [<- _]. apply lookup_drop. Qed.
Lemma left_char n s : left_at n s → char_at buf n = default 0%Z (head s).
Proof.
  intros H. unfold char_at. rewrite <- (Nat.add_0_r n), <- (left_at_lookup n s 0 H). by destruct s.
Qed.

Lemma skip_clean n s : left_at n s → clean s → skip_space buf n = n.
Proof.
  intros [H _] Hc. unfold skip_space. rewrite H. destruct s as [|c s]; [done|]. simpl. by rewrite (proj1 Hc).
Qed.
Lemma skip_blank n s : left_at n (32%Z :: s) → clean s → skip_space buf n = S n.
Proof.
  intros H Hc. pose proof (skip_clean (S n) s (left_at_cons _ _ _ H) Hc) as E. revert E. unfold skip_space.
  destruct (left_at_cons _ _ _ H) as [-> _]. destruct H as [-> _]. done.
Qed.

Lemma peek_at n s toks : left_at n s → clean s →
  peek buf n toks = (match s with [] => false | c :: _ => is_in toks c end, n).
Proof.
  intros H Hc. unfold peek. rewrite (skip_clean n s H Hc), (left_char n s H). destruct s as [|c s]; [done|].
  simpl. rewrite bool_decide_true by apply Hc. done.
Qed.

Lemma gettoken_sym n c s : left_at n (c :: s) → c ∈ lit "|();&<" → clean s → gettoken buf n = (c, (n, S n), S n).
Proof.
  intros H Hc Hs. unfold gettoken.
  assert (Hcl : clean (c :: s)) by (simpl; revert Hc; clear; vm_compute lit; intros Hc; set_unfold; naive_solver).
  rewrite (skip_clean n _ H Hcl), (left_char n _ H). simpl.
  rewrite decide_False by apply Hcl. rewrite decide_False by (intros ->; revert Hc; clear; vm_compute lit; set_solver).
  assert (is_in symbols c = true) as ->.
  { apply bool_decide_eq_true. revert Hc. clear. unfold symbols. vm_compute lit. set_solver. }
  by rewrite (skip_clean (S n) s (left_at_cons _ _ _ H) Hs).
Qed.
Lemma gettoken_gt n c s : left_at n (62%Z :: c :: s) → c ≠ 62%Z → clean (c :: s) → gettoken buf n = (62%Z, (n, S n), S n).
Proof.
  intros H Hc Hs. unfold gettoken. rewrite (skip_clean n _ H) by done. rewrite (left_char n _ H). simpl.
  rewrite (left_char (S n) _ (left_at_cons _ _ _ H)). simpl. rewrite decide_False by done.
  by rewrite (skip_clean (S n) _ (left_at_cons _ _ _ H) Hs).
Qed.

Lemma skip_word_at w : ∀ n s, left_at n (w ++ 32%Z :: s) → Forall (λ c, word_char c = true ∧ c ≠ 0%Z) w →
  skip_word buf n = n + length w.
Proof.
  induction w as [|c w IH]; intros n s H Hw; unfold skip_word.
  - destruct H as [-> _]. simpl. lia.
  - change (left_at n (c :: (w ++ 32%Z :: s))) in H.
    apply Forall_cons in Hw as [[Hc _] Hw]. specialize (IH (S n) s (left_at_cons _ _ _ H) Hw). unfold skip_word in IH.
    destruct (left_at_cons _ _ _ H) as [E _]. rewrite E in IH. destruct H as [-> _]. cbn [skip_while length]. rewrite Hc, IH. lia.
Qed.

Lemma gettoken_word n w s : left_at n (show_word w ++ s) → plain w → clean s →
  gettoken buf n = (97%Z, (n, n + length w), n + length (show_word w)) ∧ text buf (n, n + length w) = w.
Proof.
  unfold show_word. rewrite <- app_assoc, length_app. intros H Hp Hs. pose proof (plain_clean w ([32%Z] ++ s) Hp) as Hcl.
  pose proof Hp as [Hne Hw]. split.
  - unfold gettoken. rewrite (skip_clean n _ H Hcl), (left_char n _ H).
    pose proof (skip_word_at w n s H Hw) as Ew. destruct w as [|c w]; [done|]. apply Forall_cons in Hw as [[Hc H0] _].
    change (default 0%Z (head ((c :: w) ++ [32%Z] ++ s))) with c.
    apply plain_char in Hc as [_ Hc]. rewrite decide_False by done.
    rewrite decide_False by (intros ->; done). rewrite Hc, Ew.
    rewrite (skip_blank (n + length (c :: w)) s); [do 2 f_equal; simpl; lia| |done]. by apply left_at_app in H.
  - unfold text. cbn [fst snd]. destruct H as [-> _]. replace (n + length w - n) with (length w) by lia. apply take_app_length.
Qed.

(** ** Parsing what was printed *)
Definition show_redirs (rs : list (list Z * Z * Z)) : list Z := mjoin (show_redir <$> rs).
Definition redir_text (r : nat * nat * Z * Z) : list Z * Z * Z := (text buf r.1.1, r.1.2, r.2).
Definition plain_redirs (rs : list (list Z * Z * Z)) : Prop := Forall (λ r, plain r.1.1 ∧ plain_redir r.1.2 r.2) rs.

Lemma clean_redirs rs rest : plain_redirs rs → clean rest → clean (show_redirs rs ++ rest).
Proof. destruct rs as [|r rs]; intros _ H; [done|]. unfold show_redirs, show_redir. simpl. by case_decide. Qed.

(** No redirection follows. *)
Definition no_redir (rest : list Z) : Prop := match rest with [] => True | c :: _ => is_in (lit "<>") c = false end.

Lemma gettoken_redir n f mode fd s : left_at n (show_redir (f, mode, fd) ++ s) → plain f → clean s →
  let n' := n + length (show_redir (f, mode, fd)) in
  peek buf n (lit "<>") = (true, n) ∧
  gettoken buf n = (if decide (fd = 0%Z) then 60%Z else 62%Z, (n, S n), S n) ∧
  ∃ w, gettoken buf (S n) = (97%Z, w, n') ∧ text buf w = f.
Proof.
  unfold show_redir. cbn [fst snd]. set (c := if decide (fd = 0%Z) then 60%Z else 62%Z).
  change ((c :: show_word f) ++ s) with (c :: (show_word f ++ s)). intros H Hw Hs.
  assert (Hc : c = 60%Z ∨ c = 62%Z) by (unfold c; case_decide; auto).
  assert (Hcl : clean (c :: (show_word f ++ s))) by by destruct Hc as [-> | ->].
  assert (Hcl2 : clean (show_word f ++ s)) by (unfold show_word; rewrite <- app_assoc; by apply plain_clean).
  split_and!.
  - rewrite (peek_at n _ _ H Hcl). by destruct Hc as [-> | ->].
  - destruct Hc as [-> | ->]; [apply (gettoken_sym n 60%Z _ H); [mem|done]|].
    destruct f as [|x f]; [by destruct Hw|]. apply (gettoken_gt n x (f ++ [32%Z] ++ s)).
    + unfold show_word in H. by rewrite <- app_assoc in H.
    + intros ->. destruct Hw as [_ Hw]. by apply Forall_cons in Hw as [[Hx _] _].
    + unfold show_word in Hcl2. by rewrite <- app_assoc in Hcl2.
  - destruct (gettoken_word (S n) f s (left_at_cons _ _ _ H) Hw Hs) as [E1 E2].
    eexists. split; [rewrite E1; f_equal; simpl; lia|done].
Qed.

Lemma parseredirs_at : ∀ rs k acc n rest, left_at n (show_redirs rs ++ rest) → length rs < k →
  plain_redirs rs → clean rest → no_redir rest →
  ∃ rs', redir_text <$> rs' = rs ∧
    parseredirs buf k acc n = POk (acc ++ rs') (n + length (show_redirs rs)).
Proof.
  induction rs as [|[[f mode] fd] rs IH]; intros [|k] acc n rest H Hk Hp Hc Hf; simpl in Hk; try lia; cbn [parseredirs].
  - exists []. split; [done|]. rewrite (peek_at n rest) by done. rewrite app_nil_r, Nat.add_0_r.
    destruct rest as [|c rest]; [done|]. simpl in Hf. by rewrite Hf.
  - apply Forall_cons in Hp as [[Hw Hm] Hp]. simpl in Hw, Hm.
    change (show_redirs ((f, mode, fd) :: rs)) with (show_redir (f, mode, fd) ++ show_redirs rs) in *.
    rewrite <- app_assoc in H. pose proof (clean_redirs rs rest Hp Hc) as Hc2.
    destruct (gettoken_redir n f mode fd _ H Hw Hc2) as (Ep & Eg1 & w & Eg2 & Et). rewrite Ep, Eg1, Eg2.
    rewrite decide_False by (intros X; by apply X). apply left_at_app in H.
    assert (∀ m d, (m, d) = (mode, fd) → ∃ rs', redir_text <$> rs' = (f, mode, fd) :: rs ∧
      parseredirs buf k (acc ++ [(w, m, d)]) (n + length (show_redir (f, mode, fd))) =
      POk (acc ++ rs') (n + length (show_redir (f, mode, fd) ++ show_redirs rs))) as X.
    { intros m d [= -> ->]. destruct (IH k (acc ++ [(w, mode, fd)]) _ rest H ltac:(lia) Hp Hc Hf) as (rs' & E1 & E2).
      exists ((w, mode, fd) :: rs'). split; [rewrite fmap_cons, E1; unfold redir_text; cbn [fst snd]; by rewrite Et|].
      rewrite E2, <- app_assoc, length_app, Nat.add_assoc. done. }
    destruct Hm as [[-> ->]|[-> ->]]; by apply X.
Qed.

(** What may follow a command of each level. *)
Definition follow0 : list Z := lit "|)&;".
Definition follow1 : list Z := lit ")&;".
Definition follow2 : list Z := lit ");".
Definition follow3 : list Z := lit ")".

Lemma follow0_facts rest : follows follow0 rest → clean rest ∧ no_redir rest.
Proof.
  intros H. split.
  - eapply follows_clean; [|done]. apply (bool_decide_unpack _). by vm_compute.
  - destruct rest as [|c rest]; [done|]. simpl in *. apply list_elem_of_In in H. vm_compute in H.
    destruct H as [<-|[<-|[<-|[<-|[]]]]]; done.
Qed.
Lemma follows_mono s1 s2 rest : s1 ⊆ s2 → follows s1 rest → follows s2 rest.
Proof. destruct rest as [|c rest]; simpl; auto. Qed.

Lemma parseargs_stop k args rs n rest : left_at n rest → follows follow0 rest →
  parseargs buf (S k) args rs n = POk (add_redirs (EXEC args) rs) n.
Proof.
  intros H Hf. destruct (follow0_facts rest Hf) as [Hc _]. cbn [parseargs]. rewrite (peek_at n rest) by done.
  destruct rest as [|c rest].
  - unfold gettoken. rewrite (skip_clean n [] H) by done. rewrite (left_char n [] H). simpl. by rewrite (skip_clean n [] H).
  - unfold is_in. by rewrite bool_decide_true.
Qed.

Lemma redir_symbols : lit "<>" ⊆ symbols.
Proof. mem. Qed.

Lemma peek_word n w s toks : left_at n (show_word w ++ s) → plain w → toks ⊆ symbols → peek buf n toks = (false, n).
Proof.
  unfold show_word. rewrite <- app_assoc. intros H Hp Ht. rewrite (peek_at n _ _ H (plain_clean _ _ Hp)).
  destruct Hp as [Hne Hw]. destruct w as [|c w]; [done|]. apply Forall_cons in Hw as [[Hx _] _]. simpl. f_equal.
  apply plain_char in Hx as [_ Hx]. apply bool_decide_eq_false in Hx. apply bool_decide_eq_false. auto.
Qed.

Lemma show_redirs_length rs : length rs ≤ length (show_redirs rs).
Proof.
  induction rs as [|r rs IH]; [done|]. change (show_redirs (r :: rs)) with (show_redir r ++ show_redirs rs).
  rewrite length_app. simpl. lia.
Qed.

Lemma show_words_length (ws : list (list Z)) : length ws ≤ length (mjoin (show_word <$> ws)).
Proof.
  induction ws as [|w ws IH]; [done|]. rewrite fmap_cons. cbn [mjoin list_join]. unfold show_word at 1.
  rewrite !length_app. cbn [length]. transitivity (length w + 1 + length ws); [lia|apply Nat.add_le_mono_l, IH].
Qed.

(** A word is not a redirection. *)
Lemma word_no_redir w s : plain w → clean (show_word w ++ s) ∧ no_redir (show_word w ++ s).
Proof.
  intros Hw. split; [unfold show_word; rewrite <- app_assoc; by apply plain_clean|].
  destruct Hw as [Hne Hw]. destruct w as [|x w]; [done|]. apply Forall_cons in Hw as [[Hx _] _].
  apply plain_char in Hx as [_ Hx]. apply bool_decide_eq_false in Hx. simpl. apply bool_decide_eq_false.
  intros X. by apply Hx, redir_symbols.
Qed.

Lemma parseargs_at : ∀ args k acc rs n rest, args ≠ [] →
  left_at n (mjoin (show_word <$> args) ++ show_redirs rs ++ rest) →
  length args < k → length acc + length args < MAXARGS → Forall plain args → plain_redirs rs → follows follow0 rest →
  ∃ args' rs', text buf <$> args' = args ∧ redir_text <$> rs' = rs ∧
    parseargs buf k acc [] n =
    POk (add_redirs (EXEC (acc ++ args')) rs') (n + length (mjoin (show_word <$> args)) + length (show_redirs rs)).
Proof.
  induction args as [|w args IH]; intros [|k] acc rs n rest Hne H Hk Hl Hp Hrs Hf; simpl in Hk; try lia; try done.
  apply Forall_cons in Hp as [Hw Hp]. destruct (follow0_facts rest Hf) as [Hc Hnr].
  rewrite fmap_cons in *. cbn [mjoin list_join] in *. rewrite <- app_assoc in H.
  assert (Hcl : clean (mjoin (show_word <$> args) ++ show_redirs rs ++ rest)).
  { destruct args as [|w2 args]; [by apply clean_redirs|]. apply Forall_cons in Hp as [Hw2 _]. simpl.
    unfold show_word at 1. rewrite <- !app_assoc. by apply plain_clean. }
  destruct (gettoken_word n w _ H Hw Hcl) as [Eg Et]. pose proof (left_at_app _ _ _ H) as H'.
  cbn [parseargs]. rewrite (peek_word n w _ _ H Hw) by (mem). rewrite Eg.
  rewrite decide_False by done. rewrite decide_False by (intros X; by apply X). simpl in Hl.
  rewrite decide_False by (unfold MAXARGS in *; lia). rewrite length_app.
  assert (Hr : length rs < S (es buf)).
  { destruct H' as [_ H']. rewrite !length_app in H'. pose proof (show_redirs_length rs). lia. }
  destruct args as [|w2 args].
  - destruct (parseredirs_at rs (S (es buf)) [] _ rest H' Hr Hrs Hc Hnr) as (rs' & E1 & E2). rewrite E2. simpl.
    destruct k as [|k]; [simpl in Hk; lia|].
    change (left_at (n + length (show_word w)) (show_redirs rs ++ rest)) in H'. apply left_at_app in H'. exists [(n, n + length w)], rs'.
    rewrite (parseargs_stop k _ _ _ rest H' Hf). split_and!; [simpl; by rewrite Et|done|]. f_equal. simpl. lia.
  - destruct (parseredirs_at [] (S (es buf)) [] (n + length (show_word w)) (mjoin (show_word <$> w2 :: args) ++ show_redirs rs ++ rest))
      as (rs0 & E1 & E2); [done|simpl; lia|constructor|done| |].
    { apply Forall_cons in Hp as [Hw2 _]. rewrite fmap_cons. cbn [mjoin list_join]. rewrite <- app_assoc. by apply word_no_redir. }
    apply fmap_nil_inv in E1 as ->. rewrite E2. cbn [pbind app]. rewrite Nat.add_0_r.
    destruct (IH k (acc ++ [(n, n + length w)]) rs _ rest ltac:(done) H' ltac:(simpl in *; lia)) as (args' & rs' & E3 & E4 & E5);
      [rewrite length_app; simpl in *; lia|done|done|done|].
    exists ((n, n + length w) :: args'), rs'. rewrite fmap_cons, Et, E3. split_and!; [done|done|].
    rewrite E5, <- app_assoc. f_equal. simpl. lia.
Qed.

Lemma cmd_map_redirs rs' : ∀ c', cmd_map (text buf) (add_redirs c' rs') = add_redirs (cmd_map (text buf) c') (redir_text <$> rs').
Proof. induction rs' as [|[[f mode] fd] rs' IH]; intros c'; [done|]. apply IH. Qed.

Lemma clean_show c : ∀ p rest, printable c → clean rest → clean (show c p ++ rest).
Proof.
  induction c as [argv|c IH f mode fd|l IHl r IHr|l IHl r IHr|c IH]; intros p rest Hp Hr; simpl in Hp; cbn [show].
  - destruct (decide _); [|done]. destruct argv as [|w argv]; [done|]. destruct Hp as [Hp _]. apply Forall_cons in Hp as [Hw _].
    rewrite fmap_cons. cbn [mjoin list_join]. unfold show_word at 1. rewrite <- !app_assoc. by apply plain_clean.
  - destruct (decide _); [|done]. destruct Hp as (Hc & _ & _). rewrite <- app_assoc. apply IH; [done|].
    unfold show_redir. cbn [fst snd]. by case_decide.
  - destruct (decide _); [|done]. rewrite <- app_assoc. by apply IHl; [apply Hp|].
  - destruct (decide _); [|done]. rewrite <- app_assoc. by apply IHl; [apply Hp|].
  - destruct (decide _); [|done]. rewrite <- app_assoc. by apply IH.
Qed.

Lemma show_eq c p p' : (level c ≤ p ↔ level c ≤ p') → show c p = show c p'.
Proof. intros H. destruct c; cbn [show level] in *; by apply decide_ext. Qed.
Lemma show_paren c : level c ≠ 0 → show c 0 = 40%Z :: show c 3 ++ [41%Z].
Proof. intros H. destruct c; cbn [show level] in *; try lia; rewrite decide_False by lia; by rewrite decide_True by lia. Qed.

(** [r] is the command [c], read from the [len] bytes at [n]. *)
Definition reads (c : cmd (list Z)) (len n : nat) (r : presult (cmd (nat * nat))) : Prop :=
  ∃ c', cmd_map (text buf) c' = c ∧ r = POk c' (n + len).

Definition P0 c : Prop := ∀ k n rs rest, es buf < k + S n → left_at n (show c 0 ++ show_redirs rs ++ rest) →
  plain_redirs rs → follows follow0 rest →
  reads (add_redirs c rs) (length (show c 0 ++ show_redirs rs)) n (parseexec buf (parseline buf k) n).
Definition P1 c : Prop := ∀ k j n rest, es buf < k + S n → es buf < j + n → left_at n (show c 1 ++ rest) →
  follows follow1 rest → reads c (length (show c 1)) n (parsepipe buf (parseline buf k) j n).
Definition P2 c : Prop := ∀ k n m rest, es buf < k + S n → left_at n (show c 2 ++ replicate m 38%Z ++ rest) →
  follows follow2 rest →
  reads (Nat.iter m BACK c) (length (show c 2) + m) n
    (pbind (parsepipe buf (parseline buf k) (S (es buf)) n) (parsebacks buf (S (es buf)))).
Definition P3 c : Prop := ∀ k n rest, es buf < k + n → left_at n (show c 3 ++ rest) →
  follows follow3 rest → reads c (length (show c 3)) n (parseline buf k n).

Lemma follow_mono : follow1 ⊆ follow0 ∧ follow2 ⊆ follow1 ∧ follow3 ⊆ follow2.
Proof. split_and!; mem. Qed.

Lemma follows_clean0 set rest : set ⊆ follow0 → follows set rest → clean rest.
Proof. intros Hs H. apply follow0_facts. by eapply follows_mono. Qed.

(** Peeking for a symbol that may not follow. *)
Lemma peek_follow n rest set sym : left_at n rest → set ⊆ follow0 → follows set rest → sym ∉ set →
  peek buf n [sym] = (false, n).
Proof.
  intros H Hs Hf Hn. rewrite (peek_at n rest _ H) by (by eapply follows_clean0). f_equal.
  destruct rest as [|c rest]; [done|]. simpl in Hf. apply bool_decide_eq_false. intros ->%list_elem_of_singleton. done.
Qed.
Lemma peek_sym n c s : left_at n (c :: s) → clean (c :: s) → peek buf n [c] = (true, n).
Proof. intros H Hc. rewrite (peek_at n _ _ H Hc). f_equal. apply bool_decide_eq_true. set_solver. Qed.

Lemma parsebacks_at : ∀ m k c n rest, m < k → left_at n (replicate m 38%Z ++ rest) → follows follow2 rest →
  parsebacks buf k c n = POk (Nat.iter m BACK c) (n + m).
Proof.
  induction m as [|m IH]; intros [|k] c n rest Hk H Hf; try lia; cbn [parsebacks].
  - change (lit "&") with [38%Z].
    rewrite (peek_follow n rest follow2) by first [done|mem]. by rewrite Nat.add_0_r.
  - change (left_at n (38%Z :: (replicate m 38%Z ++ rest))) in H.
    assert (Hc : clean (replicate m 38%Z ++ rest)).
    { destruct m; [|done]. eapply (follows_clean0 follow2); [mem|done]. }
    change (lit "&") with [38%Z]. rewrite (peek_sym n _ _ H) by done.
    rewrite (gettoken_sym n _ _ H) by first [done|mem].
    rewrite (IH k (BACK c) (S n) rest ltac:(lia) (left_at_cons _ _ _ H) Hf). f_equal; [|lia].
    clear. induction m as [|m IH]; [done|]. simpl. by rewrite IH.
Qed.

Lemma P1_of_P0 c : level c ≠ 1 → P0 c → P1 c.
Proof.
  intros Hl H0 k [|j] n rest Hk Hj H Hf; [destruct H as [_ H]; rewrite length_app in H; lia|]. cbn [parsepipe].
  rewrite (show_eq c 1 0) in * by lia.
  destruct (H0 k n [] rest Hk H ltac:(constructor)) as (c' & E1 & E2).
  { eapply follows_mono; [apply follow_mono|done]. }
  rewrite app_nil_r in E2. rewrite E2. cbn [pbind]. apply left_at_app in H.
  change (lit "|") with [124%Z]. rewrite (peek_follow _ rest follow1) by first [done|mem].
  by exists c'.
Qed.

Lemma P1_pipe l r : printable r → P0 l → P1 r → P1 (PIPE l r).
Proof.
  intros Hr H0 H1 k [|j] n rest Hk Hj H Hf; [destruct H as [_ H]; rewrite length_app in H; lia|]. cbn [parsepipe].
  change (show (PIPE l r) 1) with (show l 0 ++ 124%Z :: show r 1) in *. rewrite <- app_assoc in H.
  change ((124%Z :: show r 1) ++ rest) with (124%Z :: (show r 1 ++ rest)) in H.
  assert (Hc : clean (show r 1 ++ rest)).
  { apply clean_show; [done|]. eapply (follows_clean0 follow1); [apply follow_mono|done]. }
  destruct (H0 k n [] _ Hk H ltac:(constructor)) as (l' & E1 & E2); [simpl; mem|].
  rewrite app_nil_r in E2. rewrite E2. cbn [pbind]. apply left_at_app in H.
  change (lit "|") with [124%Z]. rewrite (peek_sym _ _ _ H) by done.
  rewrite (gettoken_sym _ _ _ H) by first [done|mem]. apply left_at_cons in H.
  destruct (H1 k j (S (n + length (show l 0))) rest ltac:(lia) ltac:(lia) H Hf) as (r' & E3 & E4).
  rewrite E4. exists (PIPE l' r'). split; [simpl; by rewrite E3, E1|]. cbn [pbind]. f_equal.
  rewrite length_app. simpl. lia.
Qed.

Lemma P2_of_P1 c : level c ≠ 2 → P1 c → P2 c.
Proof.
  intros Hl H1 k n m rest Hk H Hf. rewrite (show_eq c 2 1) in * by lia.
  assert (Hf1 : follows follow1 (replicate m 38%Z ++ rest)).
  { destruct m; [eapply follows_mono; [apply follow_mono|done]|]. simpl. mem. }
  destruct (H1 k (S (es buf)) n _ Hk ltac:(lia) H Hf1) as (c' & E1 & E2). rewrite E2. cbn [pbind]. apply left_at_app in H.
  assert (Hm : m < S (es buf)) by (destruct H as [_ H]; rewrite length_app, length_replicate in H; lia).
  rewrite (parsebacks_at m _ c' _ rest Hm H Hf). exists (Nat.iter m BACK c'). split; [|f_equal; lia].
  rewrite <- E1. clear. induction m as [|m IH]; [done|]. simpl. by rewrite IH.
Qed.

Lemma P2_back c : P2 c → P2 (BACK c).
Proof.
  intros H2 k n m rest Hk H Hf. change (show (BACK c) 2) with (show c 2 ++ [38%Z]) in *. rewrite <- app_assoc in H.
  destruct (H2 k n (S m) rest Hk H Hf) as (c' & E1 & E2). exists c'. rewrite length_app.
  split; [|rewrite E2; f_equal; simpl; lia]. rewrite E1. clear. induction m as [|m IH]; [done|]. simpl in *. by rewrite IH.
Qed.

Lemma P3_of_P2 c : level c ≠ 3 → P2 c → P3 c.
Proof.
  intros Hl H2 [|k] n rest Hk H Hf; [destruct H as [_ H]; rewrite length_app in H; lia|]. cbn [parseline].
  rewrite (show_eq c 3 2) in * by (destruct c; simpl in *; lia).
  assert (Hf2 : follows follow2 rest) by (eapply follows_mono; [apply follow_mono|done]).
  destruct (H2 k n 0 rest ltac:(lia) H Hf2) as (c' & E1 & E2).
  destruct (parsepipe _ _ _ _) as [c1 n1| |]; [|done|done]. cbn [pbind] in *. rewrite E2. cbn [pbind]. apply left_at_app in H.
  rewrite Nat.add_0_r. change (lit ";") with [59%Z].
  rewrite (peek_follow _ rest follow3) by first [done|mem]. by exists c'.
Qed.

Lemma P3_list l r : printable r → P2 l → P3 r → P3 (LIST l r).
Proof.
  intros Hr H2 H3 [|k] n rest Hk H Hf; [destruct H as [_ H]; rewrite length_app in H; lia|]. cbn [parseline].
  change (show (LIST l r) 3) with (show l 2 ++ 59%Z :: show r 3) in *. rewrite <- app_assoc in H.
  change ((59%Z :: show r 3) ++ rest) with (59%Z :: (show r 3 ++ rest)) in H.
  assert (Hc : clean (show r 3 ++ rest)).
  { apply clean_show; [done|]. eapply (follows_clean0 follow3); [mem|done]. }
  destruct (H2 k n 0 _ ltac:(lia) H) as (l' & E1 & E2); [simpl; mem|].
  destruct (parsepipe _ _ _ _) as [c1 n1| |]; [|done|done]. cbn [pbind] in *. rewrite E2. cbn [pbind]. apply left_at_app in H.
  rewrite Nat.add_0_r. change (lit ";") with [59%Z]. rewrite (peek_sym _ _ _ H) by done.
  rewrite (gettoken_sym _ _ _ H) by first [done|mem]. apply left_at_cons in H.
  destruct (H3 k (S (n + length (show l 2))) rest ltac:(lia) H Hf) as (r' & E3 & E4).
  rewrite E4. exists (LIST l' r'). split; [simpl; by rewrite E3, E1|]. cbn [pbind]. f_equal.
  rewrite length_app. simpl. lia.
Qed.

Lemma left_redirs n rs rest : left_at n (show_redirs rs ++ rest) → length rs < S (es buf).
Proof. intros [_ H]. rewrite length_app in H. pose proof (show_redirs_length rs). lia. Qed.

Lemma P0_of_P3 c : printable c → level c ≠ 0 → P3 c → P0 c.
Proof.
  intros Hp Hl H3 k n rs rest Hk H Hrs Hf. rewrite show_paren in * by done. destruct (follow0_facts rest Hf) as [Hc Hnr].
  change ((40%Z :: show c 3 ++ [41%Z]) ++ show_redirs rs ++ rest) with
    (40%Z :: ((show c 3 ++ [41%Z]) ++ show_redirs rs ++ rest)) in H. rewrite <- app_assoc in H.
  pose proof (clean_show c 3 (41%Z :: show_redirs rs ++ rest) Hp ltac:(done)) as Hcl.
  pose proof (clean_redirs rs rest Hrs Hc) as Hcl2.
  unfold parseexec. change (lit "(") with [40%Z]. rewrite (peek_sym _ _ _ H) by done. unfold parseblock.
  change (lit "(") with [40%Z]. rewrite (peek_sym _ _ _ H) by done. cbn [negb].
  rewrite (gettoken_sym _ _ _ H) by first [done|mem]. apply left_at_cons in H.
  destruct (H3 k (S n) _ ltac:(lia) H) as (c' & E1 & E2); [simpl; mem|]. rewrite E2. cbn [pbind]. apply left_at_app in H.
  change (left_at (S n + length (show c 3)) (41%Z :: (show_redirs rs ++ rest))) in H.
  change (lit ")") with [41%Z]. rewrite (peek_sym _ _ _ H) by done. cbn [negb].
  rewrite (gettoken_sym _ _ _ H) by first [done|mem]. apply left_at_cons in H.
  destruct (parseredirs_at rs (S (es buf)) [] _ rest H (left_redirs _ _ _ H) Hrs Hc Hnr) as (rs' & E3 & E4).
  rewrite E4. cbn [pbind app]. exists (add_redirs c' rs'). rewrite cmd_map_redirs, E1, E3. split; [done|].
  f_equal. simpl. rewrite !length_app. simpl. lia.
Qed.

Lemma P0_exec argv : printable (EXEC argv) → P0 (EXEC argv).
Proof.
  intros [Hp Hlen] k n rs rest Hk H Hrs Hf. destruct (follow0_facts rest Hf) as [Hc Hnr].
  change (show (EXEC argv) 0) with (mjoin (show_word <$> argv)) in *. unfold parseexec.
  assert (Hpk : peek buf n (lit "(") = (false, n)).
  { destruct argv as [|w argv].
    - rewrite (peek_at n _ _ H) by by apply clean_redirs. f_equal. simpl. destruct rs as [|[[f mode] fd] rs].
      + destruct rest as [|c rest]; [done|]. simpl in *. apply bool_decide_eq_false. intros ->%list_elem_of_singleton.
        by apply list_elem_of_In in Hf; vm_compute in Hf; destruct_or!.
      + unfold show_redirs, show_redir. simpl. by case_decide.
    - apply Forall_cons in Hp as [Hw _]. rewrite fmap_cons in H. cbn [mjoin list_join] in H. rewrite <- app_assoc in H.
      apply (peek_word n w _ _ H Hw). mem. }
  rewrite Hpk. destruct argv as [|w argv].
  - destruct (parseredirs_at rs (S (es buf)) [] n rest H (left_redirs _ _ _ H) Hrs Hc Hnr) as (rs' & E1 & E2).
    rewrite E2. cbn [pbind app]. change (left_at n (show_redirs rs ++ rest)) in H. apply left_at_app in H.
    rewrite (parseargs_stop (es buf) [] rs' _ rest H Hf). exists (add_redirs (EXEC []) rs').
    by rewrite cmd_map_redirs, E1.
  - destruct (parseredirs_at [] (S (es buf)) [] n (mjoin (show_word <$> w :: argv) ++ show_redirs rs ++ rest))
      as (rs0 & E1 & E2); [done|simpl; lia|constructor|..].
    1,2: apply Forall_cons in Hp as [Hw _]; rewrite fmap_cons; cbn [mjoin list_join]; rewrite <- app_assoc; by apply word_no_redir.
    apply fmap_nil_inv in E1 as ->. rewrite E2. cbn [pbind app]. rewrite Nat.add_0_r.
    destruct (parseargs_at (w :: argv) (S (es buf)) [] rs n rest) as (args' & rs' & E3 & E4 & E5); try done.
    { destruct H as [_ H]. rewrite length_app in H. pose proof (show_words_length (w :: argv)). lia. }
    rewrite E5. exists (add_redirs (EXEC args') rs'). rewrite cmd_map_redirs, E4. cbn [cmd_map]. rewrite E3.
    split; [done|]. f_equal. rewrite length_app. lia.
Qed.

Lemma P0_redir c f mode fd : plain f → plain_redir mode fd → P0 c → P0 (REDIR c f mode fd).
Proof.
  intros Hf Hm H0 k n rs rest Hk H Hrs Hr.
  change (show (REDIR c f mode fd) 0) with (show c 0 ++ show_redir (f, mode, fd)) in *.
  rewrite <- app_assoc in *. apply (H0 k n ((f, mode, fd) :: rs) rest Hk); [|by constructor|done].
  change (show_redirs ((f, mode, fd) :: rs)) with (show_redir (f, mode, fd) ++ show_redirs rs).
  by rewrite <- app_assoc in *.
Qed.

Lemma parses c : printable c → P0 c ∧ P1 c ∧ P2 c ∧ P3 c.
Proof.
  induction c as [argv|c IH f mode fd|l IHl r IHr|l IHl r IHr|c IH]; intros Hp; pose proof Hp as Hp'; simpl in Hp.
  - assert (H0 : P0 (EXEC argv)) by by apply P0_exec. assert (H1 := P1_of_P0 (EXEC argv) ltac:(done) H0).
    assert (H2 := P2_of_P1 (EXEC argv) ltac:(done) H1). split_and!; try done. by apply P3_of_P2.
  - destruct Hp as (Hc & Hf & Hm). destruct (IH Hc) as (H & _). assert (H0 := P0_redir c f mode fd Hf Hm H).
    assert (H1 := P1_of_P0 (REDIR c f mode fd) ltac:(done) H0). assert (H2 := P2_of_P1 (REDIR c f mode fd) ltac:(done) H1). split_and!; try done. by apply P3_of_P2.
  - destruct Hp as [Hl Hr]. destruct (IHl Hl) as (L0 & _). destruct (IHr Hr) as (_ & R1 & _).
    assert (H1 := P1_pipe l r Hr L0 R1). assert (H2 := P2_of_P1 (PIPE l r) ltac:(done) H1).
    assert (H3 := P3_of_P2 (PIPE l r) ltac:(done) H2). split_and!; try done. by apply P0_of_P3.
  - destruct Hp as [Hl Hr]. destruct (IHl Hl) as (_ & _ & L2 & _). destruct (IHr Hr) as (_ & _ & _ & R3).
    assert (H3 := P3_list l r Hr L2 R3). assert (H0 := P0_of_P3 (LIST l r) Hp' ltac:(done) H3).
    assert (H1 := P1_of_P0 (LIST l r) ltac:(done) H0). split_and!; try done. by apply P2_of_P1.
  - destruct (IH Hp) as (_ & _ & C2 & _). assert (H2 := P2_back c C2). assert (H3 := P3_of_P2 (BACK c) ltac:(done) H2).
    assert (H0 := P0_of_P3 (BACK c) Hp' ltac:(done) H3). split_and!; try done. by apply P1_of_P0.
Qed.
End at_position.

Lemma parse_show c : printable c → reads (show c 3) c (length (show c 3)) 0 (parse (show c 3)).
Proof.
  intros Hp. destruct (parses (show c 3) c Hp) as (_ & _ & _ & H3).
  destruct (H3 (S (es (show c 3))) 0 [] ltac:(lia)) as (c' & E1 & E2); [|done|].
  { rewrite app_nil_r. by split. }
  exists c'. split; [done|]. unfold parse. rewrite E2. cbn [pbind peek]. simpl.
  unfold skip_space. rewrite drop_all. simpl. by rewrite decide_False by (intros X; by apply X).
Qed.

Lemma cmd_map_ext_in {A B} (f g : A → B) c : (∀ w, w ∈ words c → f w = g w) → cmd_map f c = cmd_map g c.
Proof.
  induction c as [argv|c IH w mode fd|l IHl r IHr|l IHl r IHr|c IH]; intros H; simpl in *.
  - f_equal. apply list_fmap_ext. intros i x Hx. apply H. by eapply list_elem_of_lookup_2.
  - rewrite IH by (intros; apply H; set_solver). rewrite (H w) by set_solver. done.
  - rewrite IHl, IHr by (intros; apply H; set_solver). done.
  - rewrite IHl, IHr by (intros; apply H; set_solver). done.
  - by rewrite IH.
Qed.

Lemma show_no_nul c : ∀ p, printable c → 0%Z ∉ show c p.
Proof.
  assert (Hw : ∀ w, plain w → 0%Z ∉ show_word w).
  { intros w [_ H] X. unfold show_word in X. apply elem_of_app in X as [X|X]; [|set_solver].
    by eapply Forall_forall in H as [_ H]. }
  induction c as [argv|c IH f mode fd|l IHl r IHr|l IHl r IHr|c IH]; intros p Hp; simpl in Hp; cbn [show].
  - assert (0%Z ∉ mjoin (show_word <$> argv)); [|case_decide; set_solver]. destruct Hp as [Hp _].
    intros (ws & Hin & Hws)%list_elem_of_join. apply list_elem_of_fmap in Hws as (w & -> & Hw').
    eapply Hw; [|done]. by eapply Forall_forall in Hp.
  - destruct Hp as (Hc & Hf & _). specialize (IH 0 Hc). specialize (Hw f Hf). unfold show_redir. cbn [fst snd].
    repeat case_decide; set_solver.
  - destruct Hp as [Hl Hr]. specialize (IHl 0 Hl). specialize (IHr 1 Hr). case_decide; set_solver.
  - destruct Hp as [Hl Hr]. specialize (IHl 2 Hl). specialize (IHr 3 Hr). case_decide; set_solver.
  - specialize (IH 2 Hp). case_decide; set_solver.
Qed.

Lemma parsecmd_shows c : printable c →
  ∃ c' mem n, parsecmd (show c 3) = POk (c', mem) n ∧ cmd_map (λ w, cstring_at mem w.1) c' = c.
Proof.
  intros Hp. destruct (parse_show c Hp) as (c' & E1 & E2). unfold parsecmd. rewrite E2. simpl.
  exists c', (nulterminate c' (show c 3 ++ [0%Z])), (length (show c 3)). split; [done|].
  transitivity (cmd_map (text (show c 3)) c'); [|done]. apply cmd_map_ext_in. intros w Hw. rewrite nulterminate_words. apply terminated_words; [by apply show_no_nul| |done].
  pose proof (parse_answers (show c 3)) as H. rewrite E2 in H. apply H.
Qed.

(** C12 Printing and parsing are inverse: for every command whose words the shell can read
    (with at most nine arguments in each), [parsecmd] reads the printed line as that
    command, each argument and file name being the C string it points to. *)
Theorem parsecmd_show c : printable c →
  ∃ c' mem n, parsecmd (show c 3) = POk (c', mem) n ∧ cmd_map (λ w, cstring_at mem w.1) c' = c.
Proof. apply parsecmd_shows. Qed.

(** [a b >f | (c & ; d) <g] *)
Definition some_cmd : cmd (list Z) :=
  PIPE (REDIR (EXEC [lit "a"; lit "b"]) (lit "f") (Z.lor O_WRONLY O_CREATE) 1)
       (REDIR (LIST (BACK (EXEC [lit "c"])) (EXEC [lit "d"])) (lit "g") 0 0).

Lemma some_cmd_printable : printable some_cmd.
Proof.
  assert (W : ∀ w, bool_decide (w ≠ [] ∧ Forall (λ c, word_char c = true ∧ c ≠ 0%Z) w) = true → plain w)
    by (intros w Hw; by apply bool_decide_eq_true in Hw).
  simpl. split_and!; try (by apply W; vm_compute); try (by left); try (by right); try (by vm_compute);
    try (repeat (apply Forall_cons; split; [by apply W; vm_compute|]); by constructor); vm_compute; lia.
Qed.

Lemma parsecmd_show_witness :
  show some_cmd 3 = lit "a b >f |(c &;d )<g " ∧
  ∃ c' mem n, parsecmd (show some_cmd 3) = POk (c', mem) n ∧ cmd_map (λ w, cstring_at mem w.1) c' = some_cmd.
Proof. split; [by vm_compute|]. apply (parsecmd_show some_cmd), some_cmd_printable. Defined.
