(* ===== verification/FdInv.v ===== *)
(** * Reference counts of open files: a logic for the file table's clients

    Each entry of the file table counts the descriptors that point to it.  While a
    call runs, the count and the descriptors differ by the references the calls have
    in their hands; [fd_inv e] says that they differ by [e].

    A call may sleep in the file system or on a pipe, and then other processes run.
    [st e i l w] describes the state process [i] sees when it runs: it has the
    descriptors [l] and [e] references in its hands, and the others have [w].
    [keeps] asks that a call that goes to sleep leaves such a state, and lets it
    assume no more than that when it resumes, with any [w]. *)
From S2P Require Import Prelude Kernel ProcData SchedState Sched Kalloc CString Fs Mmu KState Syscall FileTable Exec Sysfile.
Local Open Scope Z_scope.

(** How often [f] is in a list of descriptors. *)
Fixpoint occ (f : nat) (l : list (option nat)) : Z :=
  match l with
  | [] => 0
  | o :: l => (if decide (o = Some f) then 1 else 0) + occ f l
  end.
(** The descriptors of all processes that point to [f]. *)
Definition refs (ps : list proc) (f : nat) : Z := foldr (λ p n, occ f (p_ofile p) + n) 0 ps.

Definition counted (o : option file) : Z :=
  match o with Some x => if decide (f_type x = FD_CLOSED) then 0 else f_ref x | None => 0 end.

Record fd_inv (e : nat → Z) (s : kst) : Prop := {
  fi_refs : ∀ f, counted (k_files s !! f) = refs (procs (k_sch s)) f + e f;
  fi_len : Forall (λ p, length (p_ofile p) = NOFILE) (procs (k_sch s));
  fi_unused : Forall (λ p, p_state p = UNUSED → p_ofile p = replicate NOFILE None) (procs (k_sch s));
  fi_procs : length (procs (k_sch s)) = NPROC
}.

(** What the processes other than [me] have: the references in their hands, and the
    descriptors of those that are in use. *)
Record others := Others { me : nat; inflight : nat → Z; fds : nat → option (list (option nat)) }.

Definition has_fds (ps : list proc) (i : nat) (l : list (option nat)) : Prop :=
  ∃ p, ps !! i = Some p ∧ p_ofile p = l ∧ p_state p ≠ UNUSED.

Record st (e : nat → Z) (i : nat) (l : list (option nat)) (w : others) (s : kst) : Prop := {
  st_inv : fd_inv (λ f, inflight w f + e f) s;
  st_run : running (k_sch s) = Some i ∧ me w = i;
  st_own : has_fds (procs (k_sch s)) i l;
  st_mine : ∀ f, 0 ≤ occ f l + e f;
  st_rest : ∀ f, 0 ≤ refs (procs (k_sch s)) f - occ f l + inflight w f;
  st_fds : ∀ j lj, j ≠ i → fds w j = Some lj → has_fds (procs (k_sch s)) j lj
}.

Fixpoint keeps {A} (Q : A → others → kst → Prop) (w : others) (o : outcome kst A) : Prop :=
  match o with
  | Ok a _ s => Q a w s
  | Panic _ _ | Fault | Diverge => True
  | Sleep _ _ _ s k => ∃ e i l, st e i l w s ∧ ∀ w' s', st e i l w' s' → keeps Q w' (k s')
  end.

Lemma keeps_mono {A} (P Q : A → others → kst → Prop) o : ∀ w,
  (∀ a w s, P a w s → Q a w s) → keeps P w o → keeps Q w o.
Proof.
  induction o as [a c s| | | |ch lk c s k IH]; simpl; intros w H; auto.
  intros (e & i & l & He & Hk). exists e, i, l. split; [done|]. intros w' s' H1. by apply IH, Hk.
Qed.

Lemma keeps_bind {A B} (P : A → others → kst → Prop) (Q : B → others → kst → Prop) (m : M kst A) (f : A → M kst B) w c s :
  keeps P w (m c s) → (∀ a w c s, P a w s → keeps Q w (f a c s)) → keeps Q w ((m ≫= f) c s).
Proof.
  intros Hm Hf. unfold mbind, M_bind. revert w Hm. induction (m c s) as [a c' s'| | | |ch lk c' s' k IH]; simpl in *; intros w Hm; auto.
  destruct Hm as (e & i & l & He & Hk). exists e, i, l. split; [done|]. intros w2 s2 H1. apply IH. by apply Hk.
Qed.

(** ** Triples *)
Definition triple {A} (P : others → kst → Prop) (m : M kst A) (Q : A → others → kst → Prop) : Prop :=
  ∀ w c s, P w s → keeps Q w (m c s).

Section triples.
Context {A B : Type}.
Implicit Types (P : others → kst → Prop).

Lemma triple_bind P (R : A → others → kst → Prop) (Q : B → others → kst → Prop) (m : M kst A) (f : A → M kst B) :
  triple P m R → (∀ a, triple (R a) (f a) Q) → triple P (m ≫= f) Q.
Proof. intros Hm Hf w c s HP. eapply keeps_bind; [by apply Hm|]. intros a w' c' s' HR. by apply Hf. Qed.
Lemma triple_conseq P P' (Q Q' : A → others → kst → Prop) (m : M kst A) :
  triple P' m Q' → (∀ w s, P w s → P' w s) → (∀ a w s, Q' a w s → Q a w s) → triple P m Q.
Proof. intros H HP HQ w c s Hs. eapply keeps_mono; [|by apply H, HP]. simpl. auto. Qed.
Lemma triple_pre P (φ : Prop) (Q : A → others → kst → Prop) (m : M kst A) :
  (φ → triple P m Q) → triple (λ w s, P w s ∧ φ) m Q.
Proof. intros H w c s [HP Hφ]. by apply H. Qed.
Lemma triple_pre_l P (φ : Prop) (Q : A → others → kst → Prop) (m : M kst A) :
  (φ → triple P m Q) → triple (λ w s, φ ∧ P w s) m Q.
Proof. intros H w c s [Hφ HP]. by apply H. Qed.
Lemma triple_ret (a : A) P (Q : A → others → kst → Prop) : (∀ w s, P w s → Q a w s) → triple P (mret a) Q.
Proof. intros H w c s HP. by apply H. Qed.
Lemma triple_ret_bind (a : A) (f : A → M kst B) P Q : triple P (f a) Q → triple P (mret a ≫= f) Q.
Proof. done. Qed.
Lemma triple_panic P msg (Q : A → others → kst → Prop) : triple P (panic msg) Q.
Proof. by intros w c s. Qed.
Lemma triple_deref P (o : option A) : triple P (deref o) (λ a w s, P w s ∧ o = Some a).
Proof. intros w c s HP. by destruct o. Qed.
End triples.

Lemma triple_acquire P lk : triple P (acquire lk) (λ _, P).
Proof. intros w c s HP. unfold acquire. by case_decide. Qed.
Lemma triple_release P lk : triple P (release lk) (λ _, P).
Proof. intros w c s HP. unfold release. by case_decide. Qed.
Lemma triple_modify (P Q : others → kst → Prop) f : (∀ w s, P w s → Q w (f s)) → triple P (kmodify f) (λ _, Q).
Proof. intros H w c s HP. by apply H. Qed.

(** ** Code without descriptors *)
Lemma st_frame e i l w s s' :
  st e i l w s → procs (k_sch s') = procs (k_sch s) → running (k_sch s') = running (k_sch s) →
  k_files s' = k_files s → st e i l w s'.
Proof. intros [[H1 H2 H3 H4] R O N1 N2 F] E1 E2 E3. split; [split|..]; by rewrite ?E1, ?E2, ?E3. Qed.

(** [m] changes neither the descriptors nor the counts. *)
Definition frame {A} (m : M kst A) : Prop := ∀ e i l, triple (st e i l) m (λ _, st e i l).

Lemma frame_bind {A B} (m : M kst A) (f : A → M kst B) : frame m → (∀ a, frame (f a)) → frame (m ≫= f).
Proof. intros Hm Hf e i l. eapply triple_bind; [apply Hm|]. intros a. apply Hf. Qed.
Lemma frame_ret {A} (a : A) : frame (mret a).
Proof. intros e i l. by apply triple_ret. Qed.
Lemma frame_panic {A} msg : frame (panic (A := A) msg).
Proof. intros e i l. apply triple_panic. Qed.
Lemma frame_diverge {A} : frame (diverge (A := A)).
Proof. by intros e i l w c s Hs. Qed.
Lemma frame_kgets {A} (f : kst → A) : frame (kgets f).
Proof. intros e i l w c s Hs. done. Qed.
Lemma frame_kget : frame kget.
Proof. intros e i l w c s Hs. done. Qed.
Lemma frame_deref {A} (o : option A) : frame (deref o).
Proof. intros e i l w c s Hs. by destruct o. Qed.
Lemma frame_acquire lk : frame (acquire lk).
Proof. intros e i l. apply triple_acquire. Qed.
Lemma frame_release lk : frame (release lk).
Proof. intros e i l. apply triple_release. Qed.
Lemma frame_modify g :
  (∀ s, k_sch (g s) = k_sch s ∧ k_files (g s) = k_files s) → frame (kmodify g).
Proof.
  intros Hg e i l. apply triple_modify. intros w s Hs. destruct (Hg s) as [E1 E2]. by apply (st_frame e i l w s); rewrite ?E1, ?E2.
Qed.

Lemma frame_focus {T A} (g : kst → option T) (p : T → kst → kst) (m : M T A) :
  (∀ t s, k_sch (p t s) = k_sch s ∧ k_files (p t s) = k_files s) → frame (focus g p m).
Proof.
  intros Hp e i l.
  assert (I : ∀ t w s, st e i l w s → st e i l w (p t s)).
  { intros t w s Hs. destruct (Hp t s) as [E1 E2]. by apply (st_frame e i l w s); rewrite ?E1, ?E2. }
  intros w c s Hs. unfold focus. destruct (g s) as [t|]; [|done]. revert w s Hs.
  induction (m c t) as [a c' t'|msg t'| | |ch lk c' t' k IH]; intros w s Hs; simpl; auto.
  exists e, i, l. split; [by apply I|]. intros w' s' I'. destruct (g s') as [t2|]; [|done]. by apply IH.
Qed.
Lemma frame_fs {A} (m : M fsst A) : frame (on_fs m).
Proof. by apply frame_focus. Qed.
Lemma frame_kmem {A} (m : M kmem A) : frame (on_kmem m).
Proof. by apply frame_focus. Qed.
Lemma frame_pmem {A} a (m : M Pipe.pmem A) : frame (on_pmem a m).
Proof. by apply frame_focus. Qed.
Lemma frame_pipe {A} a (m : M Pipe.pst A) : frame (on_pipe a m).
Proof. by apply frame_focus. Qed.
Lemma frame_bytes g : frame (on_bytes g).
Proof. by apply frame_modify. Qed.
Lemma frame_get_file f : frame (get_file f).
Proof. apply frame_bind; [apply frame_kget|]. intros s. apply frame_deref. Qed.
Lemma frame_cp_get : frame cp_get.
Proof. apply frame_bind; [apply frame_kget|]. intros s. apply frame_deref. Qed.

Create HintDb frame.
#[export] Hint Resolve frame_ret frame_panic frame_diverge frame_kgets frame_kget frame_deref frame_acquire frame_release
  frame_fs frame_kmem frame_pmem frame_pipe frame_bytes frame_get_file frame_cp_get : frame.

(** Follows the structure of the code. *)
Ltac frame :=
  repeat first
    [ solve [eauto with frame]
    | apply frame_bind
    | progress intros
    | case_decide
    | match goal with
      | |- frame (match ?x with _ => _ end) => destruct x
      | |- frame (let '(_, _) := ?x in _) => destruct x
      end ].

Lemma frame_kfree_bytes v len : frame (kfree_bytes v len).
Proof. unfold kfree_bytes. frame. Qed.
Lemma frame_load_segs ts : frame (load_segs ts).
Proof. unfold load_segs. apply frame_bind; [frame|]. intros p. by apply frame_modify. Qed.
#[export] Hint Resolve frame_kfree_bytes frame_load_segs : frame.

Lemma triple_cp_get e i l : triple (st e i l) cp_get (λ p w s, st e i l w s ∧ p_ofile p = l).
Proof.
  intros w c s Hs. unfold cp_get. rewrite kget_bind. pose proof (st_run _ _ _ _ _ Hs) as [R _].
  pose proof (st_own _ _ _ _ _ Hs) as (p & P & O & _). unfold cur_proc. rewrite R. simpl. rewrite P. done.
Qed.

Lemma triple_with_args {A} e i l (args : mem → proc → option A) body Q :
  (∀ w s, st e i l w s → Q (-1) w s) →
  (∀ m p a, p_ofile p = l → args m p = Some a → triple (st e i l) (body a) Q) →
  triple (st e i l) (with_args args body) Q.
Proof.
  intros H1 H2. eapply triple_bind; [apply triple_cp_get|]. intros p. apply triple_pre. intros Hp w c s Hs.
  rewrite kgets_bind. destruct (args (k_bytes s) p) as [a|] eqn:E; [by eapply H2|]. by apply H1.
Qed.
Lemma frame_with_args {A} (args : mem → proc → option A) body :
  (∀ a, frame (body a)) → frame (with_args args body).
Proof. intros H e i l. apply triple_with_args; [done|]. intros m p a _ _. apply H. Qed.

(** ** Counting *)
Definition pt (o : option nat) (f : nat) : Z := if decide (o = Some f) then 1 else 0.

Lemma pt_None f : pt None f = 0.
Proof. done. Qed.

Lemma occ_insert f v : ∀ l fd old, l !! fd = Some old → occ f (<[fd := v]> l) = occ f l - pt old f + pt v f.
Proof.
  unfold pt. induction l as [|o l IH]; intros [|fd] old H; simpl in *; try done.
  - simplify_eq. lia.
  - rewrite (IH fd old H). lia.
Qed.
Lemma occ_pos f l : 0 ≤ occ f l.
Proof. induction l as [|o l IH]; simpl; [lia|]. case_decide; lia. Qed.
Lemma occ_in f : ∀ l fd, l !! fd = Some (Some f) → 1 ≤ occ f l.
Proof.
  induction l as [|o l IH]; intros [|fd] H; simpl in *; simplify_eq; pose proof (occ_pos f l).
  - rewrite decide_True by done. lia.
  - specialize (IH fd H). case_decide; lia.
Qed.

Lemma refs_insert f p' : ∀ ps i p, ps !! i = Some p →
  refs (<[i := p']> ps) f = refs ps f - occ f (p_ofile p) + occ f (p_ofile p').
Proof.
  induction ps as [|q ps IH]; intros [|i] p H; simpl in *; try done; [simplify_eq; lia|]. rewrite (IH i p H). lia.
Qed.
Lemma refs_ge f : ∀ ps i p, ps !! i = Some p → occ f (p_ofile p) ≤ refs ps f.
Proof.
  assert (H0 : ∀ ps, 0 ≤ refs ps f).
  { induction ps as [|q ps IH]; simpl; [lia|]. pose proof (occ_pos f (p_ofile q)). lia. }
  induction ps as [|q ps IH]; intros [|i] p H; simpl in *; try done; pose proof (occ_pos f (p_ofile q)).
  - simplify_eq. specialize (H0 ps). lia.
  - specialize (IH i p H). lia.
Qed.

(** [d] more references in flight to [f]. *)
Definition more (e : nat → Z) (o : option nat) (d : Z) (f : nat) : Z := e f + d * pt o f.

Lemma more_ge e o d f : 0 ≤ d → e f ≤ more e o d f.
Proof. intros Hd. unfold more, pt. case_decide; lia. Qed.
Lemma more_eq e f d : more e (Some f) d f = e f + d.
Proof. unfold more, pt. rewrite decide_True by done. lia. Qed.

Lemma fd_inv_ext e e' s : (∀ f, e f = e' f) → fd_inv e s → fd_inv e' s.
Proof. intros H [H1 H2 H3 H4]. split; [|done..]. intros f. by rewrite H1, H. Qed.
Lemma st_ext e e' i l w s : (∀ f, e f = e' f) → st e i l w s → st e' i l w s.
Proof.
  intros H [I R O N1 N2 F]. split; [|done|done| |done|done].
  - eapply fd_inv_ext; [|done]. intros f. simpl. by rewrite H.
  - intros f. by rewrite <- H.
Qed.
Ltac st_ext := eapply st_ext; [|eassumption]; intros ?; unfold more; rewrite ?pt_None; lia.

(** Replacing a process. *)
Lemma fd_inv_proc e e' s i p p' :
  fd_inv e s → procs (k_sch s) !! i = Some p → length (p_ofile p') = NOFILE →
  (p_state p' = UNUSED → p_ofile p' = replicate NOFILE None) →
  (∀ f, e' f = e f + occ f (p_ofile p) - occ f (p_ofile p')) →
  fd_inv e' (upd_cp i p' s).
Proof.
  intros [H1 H2 H3 H4] Hp Hl Hu He. split; cbn [upd_cp k_sch set_k_sch set_procs procs k_files].
  - intros f. rewrite H1, (refs_insert f p' _ i p Hp), He. lia.
  - by apply Forall_insert.
  - by apply Forall_insert.
  - by rewrite length_insert.
Qed.

Lemma has_fds_eq ps i p l : (i < length ps)%nat → p_ofile p = l → p_state p ≠ UNUSED → has_fds (<[i := p]> ps) i l.
Proof. intros Hi Hl Hs. exists p. by rewrite list_lookup_insert_eq. Qed.
Lemma has_fds_ne ps i p j l : j ≠ i → has_fds ps j l → has_fds (<[i := p]> ps) j l.
Proof. intros Hne (q & Q & H). exists q. by rewrite list_lookup_insert_ne. Qed.

(** ** Descriptors *)
Lemma st_cp e i l w s p p' l' :
  st e i l w s → procs (k_sch s) !! i = Some p → p_state p' = p_state p → p_ofile p' = l' → length l' = length l →
  st (λ f, e f + occ f l - occ f l') i l' w (upd_cp i p' s).
Proof.
  intros [I R (q & Q & O & U) N1 N2 F] P Es El Hl. rewrite P in Q. injection Q as [= <-].
  assert (L : length l = NOFILE) by (rewrite <- O; by eapply (Forall_lookup_1 _ _ _ _ (fi_len _ _ I))).
  split; cbn [upd_cp k_sch set_k_sch set_procs procs k_files].
  - eapply fd_inv_proc; [done|done| | |].
    + by rewrite El, Hl.
    + by rewrite Es.
    + intros f. simpl. rewrite O, El. lia.
  - done.
  - apply has_fds_eq; [by eapply lookup_lt_Some|done|by rewrite Es].
  - intros f. specialize (N1 f). lia.
  - intros f. rewrite (refs_insert f p' _ i p P), El, O. specialize (N2 f). lia.
  - intros j lj Hj Hf. apply has_fds_ne; auto.
Qed.

Lemma triple_cp_set e i l g l' :
  (∀ p, p_ofile p = l → p_state (g p) = p_state p ∧ p_ofile (g p) = l') → length l' = length l →
  triple (st e i l) (cp_set g) (λ _, st (λ f, e f + occ f l - occ f l') i l').
Proof.
  intros Hg Hl w c s Hs. pose proof (st_run _ _ _ _ _ Hs) as [R _]. pose proof (st_own _ _ _ _ _ Hs) as (p & P & O & _).
  rewrite (cp_set_run c s i p _ R P). cbn. destruct (Hg p O) as [G1 G2]. by eapply st_cp.
Qed.
Lemma frame_cp_set g : (∀ p, p_state (g p) = p_state p ∧ p_ofile (g p) = p_ofile p) → frame (cp_set g).
Proof.
  intros Hg e i l. eapply triple_conseq; [apply (triple_cp_set e i l g l)|intros w s H; exact H|].
  - intros p <-. apply Hg.
  - done.
  - intros [] w s Hs. st_ext.
Qed.

Lemma triple_set_fd e i l fd old v : l !! fd = Some old →
  triple (st e i l) (set_fd fd v) (λ _, st (λ f, e f + pt old f - pt v f) i (<[fd := v]> l)).
Proof.
  intros Hl. eapply triple_conseq; [apply (triple_cp_set e i l _ (<[fd := v]> l))|intros w s H; exact H|].
  - by intros p <-.
  - apply length_insert.
  - intros [] w s Hs. eapply st_ext; [|done]. intros f. simpl. rewrite (occ_insert f v l fd old Hl). lia.
Qed.

Lemma fdalloc_scan_Some : ∀ l n fd, fdalloc_scan l n = Some fd → (n ≤ fd)%nat ∧ l !! (fd - n)%nat = Some None.
Proof.
  induction l as [|[f|] l IH]; intros n fd; simpl; [done| |].
  - intros [Hle H]%IH. split; [lia|]. by replace (fd - n)%nat with (S (fd - S n)) by lia.
  - intros [= <-]. split; [done|]. by rewrite Nat.sub_diag.
Qed.

Lemma triple_fdalloc e i l f :
  triple (st e i l) (fdalloc f) (λ r w s,
    match r with
    | Some fd => l !! fd = Some None ∧ st (more e (Some f) (-1)) i (<[fd := Some f]> l) w s
    | None => st e i l w s
    end).
Proof.
  eapply triple_bind; [apply triple_cp_get|]. intros p. apply triple_pre. intros Hp. rewrite Hp.
  destruct (fdalloc_scan l 0) as [fd|] eqn:E; [|by apply triple_ret].
  apply fdalloc_scan_Some in E as [_ E]. rewrite Nat.sub_0_r in E.
  eapply triple_bind; [by apply triple_set_fd|]. intros []. apply triple_ret. intros w s Hs. split; [done|]. st_ext.
Qed.

(** ** The file table *)
Lemma triple_get_file P f : triple P (get_file f) (λ x w s, P w s ∧ k_files s !! f = Some x).
Proof. intros w c s HP. unfold get_file. rewrite kget_bind. by destruct (k_files s !! f) as [x|] eqn:E. Qed.

(** A change of a file's entry changes the references to be accounted for. *)
Lemma st_file e i l w s f x x' d :
  st e i l w s → k_files s !! f = Some x → counted (Some x') = counted (Some x) + d → 0 ≤ occ f l + e f + d →
  st (more e (Some f) d) i l w (set_k_files s (<[f := x']> (k_files s))).
Proof.
  intros [[H1 H2 H3 H4] R O N1 N2 F] Hx He Hd. split; [split|..]; try done.
  - intros g. cbn [k_files k_sch set_k_files]. specialize (H1 g). unfold more, pt. destruct (decide (f = g)) as [->|Hne].
    + rewrite list_lookup_insert_eq by (by eapply lookup_lt_Some). rewrite Hx in H1. rewrite decide_True by done. lia.
    + rewrite list_lookup_insert_ne by done. rewrite decide_False by congruence. lia.
  - intros g. specialize (N1 g). unfold more, pt. case_decide; simplify_eq; lia.
Qed.

Lemma at_file_run c s f x g : k_files s !! f = Some x → at_file f g c s = Ok () c (set_k_files s (<[f := g x]> (k_files s))).
Proof. intros Hx. unfold at_file, get_file. unfold mbind at 1, M_bind at 1. by rewrite kget_bind, Hx. Qed.

Lemma triple_at_file e i l f x g d : counted (Some (g x)) = counted (Some x) + d → 0 ≤ occ f l + e f + d →
  triple (λ w s, st e i l w s ∧ k_files s !! f = Some x) (at_file f g)
    (λ _ w s, st (more e (Some f) d) i l w s ∧ k_files s !! f = Some (g x)).
Proof.
  intros He Hd w c s [Hs Hx]. rewrite (at_file_run c s f x g Hx). cbn. split; [by eapply st_file|].
  cbn. apply list_lookup_insert_eq. by eapply lookup_lt_Some.
Qed.
Lemma frame_at_file f g : (∀ x, counted (Some (g x)) = counted (Some x)) → frame (at_file f g).
Proof.
  intros Hg e i l w c s Hs. destruct (k_files s !! f) as [x|] eqn:E.
  2: { unfold at_file, get_file. unfold mbind at 1, M_bind at 1. by rewrite kget_bind, E. }
  rewrite (at_file_run c s f x g E). cbn. assert (N : st (more e (Some f) 0) i l w (set_k_files s (<[f := g x]> (k_files s)))).
  { pose proof (st_mine _ _ _ _ _ Hs f). eapply st_file; [done|done| |lia]. rewrite Hg. lia. }
  st_ext.
Qed.

Lemma counted_open x : f_type x ≠ FD_CLOSED → counted (Some x) = f_ref x.
Proof. intros H. unfold counted. by rewrite decide_False. Qed.

Lemma triple_mine {A} e i l P (m : M kst A) Q : (∀ w s, P w s → st e i l w s) →
  ((∀ f, 0 ≤ occ f l + e f) → triple P m Q) → triple P m Q.
Proof. intros HP H w c s Hs. apply H; [|done]. by eapply st_mine, HP. Qed.

Definition got (e : nat → Z) (i : nat) (l : list (option nat)) (r : option nat) : others → kst → Prop :=
  match r with Some f => st (more e (Some f) 1) i l | None => st e i l end.

Lemma triple_filealloc_loop e i l : ∀ ids, triple (st e i l) (filealloc_loop ids) (got e i l).
Proof.
  intros ids. apply (triple_mine e i l); [done|]. intros N.
  induction ids as [|f ids IH]; cbn [filealloc_loop].
  { eapply triple_bind; [apply triple_release|]. intros []. by apply triple_ret. }
  eapply triple_bind; [apply triple_get_file|]. intros x. case_decide as Hx.
  2: { eapply triple_conseq; [apply IH| |done]. by intros w s [H _]. }
  assert (C : counted (Some (set_f_ref 1 (set_f_type FD_NONE x))) = counted (Some x) + 1).
  { unfold counted at 2. by rewrite decide_True. }
  intros w c s [Hs Hf]. rewrite (bind_Ok _ _ _ _ _ _ _ (at_file_run c s f x _ Hf)).
  assert (L : (f < length (k_files s))%nat) by by eapply lookup_lt_Some.
  erewrite bind_Ok by (apply at_file_run; cbn; by apply list_lookup_insert_eq).
  cbn [k_files set_k_files]. rewrite list_insert_insert_eq. specialize (N f).
  pose proof (st_file e i l w s f x _ 1 Hs Hf C ltac:(lia)) as Hs'.
  refine (triple_bind (st (more e (Some f) 1) i l) _ _ _ _ _ _ w c _ Hs'); [apply triple_release|].
  intros []. by apply triple_ret.
Qed.
Lemma triple_filealloc e i l : triple (st e i l) filealloc (got e i l).
Proof. eapply triple_bind; [apply triple_acquire|]. intros []. apply triple_filealloc_loop. Qed.

Lemma triple_filedup e i l f : triple (st e i l) (filedup f) (λ g w s, g = f ∧ st (more e (Some f) 1) i l w s).
Proof.
  apply (triple_mine e i l); [done|]. intros N. specialize (N f).
  eapply triple_bind; [apply triple_acquire|]. intros []. eapply triple_bind; [apply triple_get_file|]. intros x.
  case_decide as D; [apply triple_panic|]. apply Decidable.not_or in D as [_ D].
  eapply triple_bind; [apply (triple_at_file e i l f x _ 1); [|lia]|].
  { by rewrite !counted_open by done; simpl; lia. }
  intros []. eapply triple_bind; [apply triple_release|]. intros []. apply triple_ret. by intros w s [H _].
Qed.

Lemma frame_close_pipe a b : frame (close_pipe a b).
Proof.
  unfold close_pipe. apply frame_bind; [frame|]. intros []. apply frame_bind; [frame|]. intros s.
  apply frame_bind; [frame|]. intros p. destruct (_ && _); [|frame]. apply frame_bind; [|frame]. by apply frame_modify.
Qed.

(** One may close what one holds. *)
Lemma triple_fileclose fuel e i l f : 1 ≤ occ f l + e f →
  triple (st e i l) (fileclose fuel f) (λ _, st (more e (Some f) (-1)) i l).
Proof.
  intros N. eapply triple_bind; [apply triple_acquire|]. intros []. eapply triple_bind; [apply triple_get_file|]. intros x.
  case_decide as D; [apply triple_panic|]. apply Decidable.not_or in D as [Hr Hx].
  eapply triple_bind; [apply (triple_at_file e i l f x _ (-1)); [|lia]|].
  { by rewrite !counted_open by done; simpl; lia. }
  intros []. case_decide as Hpos.
  { eapply triple_conseq; [apply triple_release|intros w s H; exact H|]. by intros [] w s [H _]. }
  eapply triple_bind; [apply (triple_at_file _ i l f _ _ 0); [|rewrite more_eq; lia]|].
  { by rewrite !counted_open by done; simpl; lia. }
  intros []. eapply triple_bind; [apply (triple_at_file _ i l f _ _ 0); [|rewrite !more_eq; lia]|].
  { by rewrite (counted_open (set_f_ref 0 _)). }
  intros []. eapply triple_bind; [apply triple_release|]. intros [].
  apply (triple_conseq _ (st (more e (Some f) (-1)) i l) _ (λ _, st (more e (Some f) (-1)) i l)); [| |done].
  - assert (F : frame (match f_type x with FD_PIPE => close_pipe (f_pipe x) (f_writable x)
      | FD_INODE => ip ← deref (f_ip x); on_fs (iput fuel ip) | _ => panic "fileclose" end)).
    { destruct (f_type x); [frame|frame|apply frame_close_pipe|frame]. }
    apply F.
  - intros w s [H _]. st_ext.
Qed.

(** A file that is referred to is open. *)
Lemma held_open e i l w s f : st e i l w s → 1 ≤ occ f l + e f → 1 ≤ counted (k_files s !! f).
Proof. intros [[H1 _ _ _] _ _ _ N2 _] H. rewrite H1. specialize (N2 f). lia. Qed.

Lemma triple_open_file e i l f g : 1 ≤ occ f l + e f →
  (∀ x, f_type (g x) ≠ FD_CLOSED ∧ f_ref (g x) = f_ref x) → triple (st e i l) (at_file f g) (λ _, st e i l).
Proof.
  intros Hf Hg w c s Hs. pose proof (held_open e i l w s f Hs Hf) as H1.
  destruct (k_files s !! f) as [x|] eqn:E; [|by simpl in H1; lia].
  rewrite (at_file_run c s f x g E). cbn. destruct (Hg x) as [G1 G2].
  assert (C : counted (Some (g x)) = counted (Some x) + 0).
  { rewrite counted_open by done. unfold counted in *. case_decide; lia. }
  pose proof (st_file e i l w s f x (g x) 0 Hs E C ltac:(lia)). st_ext.
Qed.
