(* ===== verification/FdCalls.v ===== *)
(** * Reference counts of open files: the system calls

    Every system call of sysfile.c, [copyproc] on behalf of [sys_fork], [sys_sbrk]
    and the closing of the files in [exit], in the logic of FdInv: a call that starts
    with no references in its hands ends with none, and is well behaved wherever it
    sleeps.  Then the calls of all processes together, interleaved at the points where
    they sleep. *)
From S2P Require Import Prelude Kernel ProcData SchedState Sched Kalloc CString Fs Mmu KState Syscall FileTable Exec Sysfile Process FdInv.
Local Open Scope Z_scope.

Definition zero (f : nat) : Z := 0.

(** Process [i] has nothing in its hands, whatever descriptors it has. *)
Definition ok (i : nat) (w : others) (s : kst) : Prop := ∃ l, st zero i l w s.

Lemma ok_ret {A} i l (a : A) : triple (st zero i l) (mret a) (λ _, ok i).
Proof. apply triple_ret. intros w s Hs. by exists l. Qed.
Lemma frame_ok {A} i l (m : M kst A) : frame m → triple (st zero i l) m (λ _, ok i).
Proof. intros H. eapply triple_conseq; [apply H|intros w s Hs; exact Hs|]. intros a w s Hs. by exists l. Qed.
Lemma triple_zero {A} e i l (m : M kst A) Q : (∀ f, e f = 0) → triple (st zero i l) m Q → triple (st e i l) m Q.
Proof. intros He H w c s Hs. apply H. eapply st_ext; [|done]. done. Qed.

(** ** Calls that leave the descriptors alone *)
Lemma frame_fileread fuel dr f a n : frame (fileread fuel dr f a n).
Proof.
  unfold fileread. apply frame_bind; [frame|]. intros x. destruct (negb _); [frame|]. destruct (f_type x); [frame..|].
  apply frame_bind; [frame|]. intros ip. apply frame_bind; [frame|]. intros []. apply frame_bind; [frame|]. intros y.
  apply frame_bind; [frame|]. intros [d|]; [|frame]. apply frame_bind; [frame|]. intros [].
  apply frame_bind; [|frame]. case_decide; [by apply frame_at_file|frame].
Qed.
Lemma frame_filewrite fuel dw f a n : frame (filewrite fuel dw f a n).
Proof.
  unfold filewrite. apply frame_bind; [frame|]. intros x. destruct (negb _); [frame|].
  apply frame_bind; [frame|]. intros m. destruct (f_type x); [frame..|].
  apply frame_bind; [frame|]. intros ip. apply frame_bind; [frame|]. intros []. apply frame_bind; [frame|]. intros y.
  apply frame_bind; [frame|]. intros r. apply frame_bind; [|frame]. case_decide; [by apply frame_at_file|frame].
Qed.
Lemma frame_filestat fuel f : frame (filestat fuel f).
Proof. unfold filestat. frame. Qed.
#[export] Hint Resolve frame_fileread frame_filewrite frame_filestat : frame.

Section exec.
Context (fuel : nat) (dr : Z → option (nat → Z → M fsst (option (list Z)))).
Lemma frame_read_at ip off n : frame (read_at fuel dr ip off n).
Proof. apply frame_fs. Qed.
#[local] Hint Resolve frame_read_at : frame.
Lemma frame_exec_size ip : ∀ n off sz, frame (exec_size fuel dr n ip off sz).
Proof. induction n as [|n IH]; intros off sz; cbn [exec_size]; frame. Qed.
Lemma frame_exec_load ip : ∀ n off mem sz, frame (exec_load fuel dr n ip off mem sz).
Proof. induction n as [|n IH]; intros off mem sz; cbn [exec_load]; frame. Qed.
Lemma frame_string_length a : frame (string_length a).
Proof. unfold string_length. frame. Qed.
#[local] Hint Resolve frame_exec_size frame_exec_load frame_string_length : frame.
Lemma frame_args_length : ∀ argv n, frame (args_length argv n).
Proof. induction argv as [|a argv IH]; intros n; cbn [args_length]; frame. Qed.
Lemma frame_push_args mem argp : ∀ args sp, frame (push_args args mem argp sp).
Proof. induction args as [|[j a] args IH]; intros sp; cbn [push_args]; frame. Qed.
#[local] Hint Resolve frame_args_length frame_push_args : frame.
Lemma frame_exec_commit ts path elf mem sz sp : frame (exec_commit ts path elf mem sz sp).
Proof.
  unfold exec_commit. repeat first [solve [frame] | apply frame_bind; [by apply frame_cp_set|intros ?] | apply frame_bind; [frame|intros ?]].
Qed.
Lemma frame_exec ts stack path argv : frame (exec fuel dr ts stack path argv).
Proof.
  assert (frame_exec_bad : ∀ mem sz ip, frame (exec_bad fuel mem sz ip)) by (intros; unfold exec_bad; frame).
  assert (frame_exec_stack : ∀ argv len mem sz, frame (exec_stack argv len mem sz)) by (intros; unfold exec_stack; frame).
  pose proof frame_exec_commit. unfold exec. frame.
Qed.
End exec.

Lemma frame_growproc ts n : frame (growproc ts n).
Proof.
  unfold growproc. repeat first [solve [frame] | apply frame_bind; [by apply frame_cp_set|intros ?] | apply frame_bind; [frame|intros ?] | case_decide].
Qed.
#[export] Hint Resolve frame_exec frame_growproc : frame.

(** ** Descriptors *)
Section calls.
Context (fuel : nat) (i : nat).

Lemma argfd_Some m p fd f n : argfd m p n = Some (fd, f) → p_ofile p !! fd = Some (Some f).
Proof.
  unfold argfd. destruct (argint m p n) as [v|]; simpl; [|done]. case_decide; [done|].
  destruct (p_ofile p !! Z.to_nat v) as [[g|]|] eqn:E; simpl; [|done|done]. by intros [= <- <-].
Qed.

Lemma triple_sys_dup l : triple (st zero i l) sys_dup (λ _, ok i).
Proof.
  apply triple_with_args; [intros w s Hs; by exists l|]. intros m p [fd f] Hp Ha.
  eapply triple_bind; [apply triple_fdalloc|]. intros [fd'|]; [|by apply ok_ret].
  apply triple_pre_l. intros _. eapply triple_bind; [apply triple_filedup|]. intros g. apply triple_ret.
  intros w s [_ Hs]. exists (<[fd' := Some f]> l). st_ext.
Qed.

Lemma triple_sys_close l : triple (st zero i l) (sys_close fuel) (λ _, ok i).
Proof.
  apply triple_with_args; [intros w s Hs; by exists l|]. intros m p [fd f] Hp Ha. apply argfd_Some in Ha. rewrite Hp in Ha.
  eapply triple_bind; [by apply triple_set_fd|]. intros []. eapply triple_bind.
  { apply triple_fileclose. rewrite (occ_insert f None l fd _ Ha), pt_None. pose proof (occ_in f l fd Ha). unfold zero. lia. }
  intros []. apply triple_ret. intros w s Hs. exists (<[fd := None]> l). st_ext.
Qed.

Lemma triple_open_fd l ip omode : triple (st zero i l) (open_fd fuel ip omode) (λ _, ok i).
Proof.
  eapply triple_bind; [apply triple_filealloc|]. intros [f|]; cbn [got].
  2: { apply frame_ok. frame. }
  eapply triple_bind; [apply triple_fdalloc|]. intros [fd|].
  - apply triple_pre_l. intros Hfd. apply triple_zero; [intros g; unfold more, zero; lia|].
    eapply triple_bind; [apply frame_fs|]. intros [].
    eapply triple_bind; [apply triple_open_file; [|done]|intros []; apply ok_ret].
    assert (Hin : <[fd := Some f]> l !! fd = Some (Some f)) by (apply list_lookup_insert_eq; by eapply lookup_lt_Some).
    pose proof (occ_in f _ fd Hin). unfold zero. lia.
  - eapply triple_bind; [apply triple_fileclose; rewrite more_eq; pose proof (occ_pos f l); unfold zero; lia|]. intros [].
    apply triple_zero; [intros g; unfold more, zero; lia|]. apply frame_ok. frame.
Qed.

Lemma triple_sys_open dr dw l : triple (st zero i l) (sys_open fuel dr dw) (λ _, ok i).
Proof.
  apply triple_with_args; [intros w s Hs; by exists l|]. intros m p [path omode] Hp Ha.
  eapply triple_bind; [apply frame_fs|]. intros [ip|]; [apply triple_open_fd|apply ok_ret].
Qed.

Lemma triple_close_fd l fd : triple (st zero i l) (close_fd fuel fd) (λ _, ok i).
Proof.
  eapply triple_bind; [apply triple_cp_get|]. intros p. apply triple_pre. intros ->.
  destruct (l !! fd) as [[f|]|] eqn:E; simpl; [|apply ok_ret|apply ok_ret].
  eapply triple_bind; [apply triple_fileclose; pose proof (occ_in f l fd E); unfold zero; lia|]. intros [].
  eapply triple_conseq; [apply (triple_set_fd (more zero (Some f) (-1)) i l fd (Some f) None E)|intros w s H; exact H|].
  intros [] w s Hs. exists (<[fd := None]> l). st_ext.
Qed.

Lemma triple_close_all : ∀ ids l, triple (st zero i l) (for_each ids (close_fd fuel)) (λ _, ok i).
Proof.
  induction ids as [|fd ids IH]; intros l; cbn [for_each]; [apply ok_ret|].
  eapply triple_bind; [apply triple_close_fd|]. intros [] w c s [l' Hs]. by eapply IH.
Qed.

Lemma triple_close_unused e l f : 1 ≤ occ f l + e f →
  triple (st e i l) (close_unused fuel (Some f)) (λ _, st (more e (Some f) (-1)) i l).
Proof. intros Hf. eapply triple_bind; [by apply triple_open_file|]. intros []. by apply triple_fileclose. Qed.

(** Two references in hand. *)
Definition both (f g : nat) : nat → Z := more (more zero (Some f) 1) (Some g) 1.
Lemma both_l f g : 1 ≤ both f g f.
Proof. unfold both, more, pt, zero. repeat case_decide; simplify_eq; lia. Qed.
Lemma both_r f g : 1 ≤ more (both f g) (Some f) (-1) g.
Proof. unfold both, more, pt, zero. repeat case_decide; simplify_eq; lia. Qed.

Lemma triple_pipealloc l :
  triple (st zero i l) (pipealloc fuel) (λ r, match r with Some (f, g) => st (both f g) i l | None => st zero i l end).
Proof.
  eapply triple_bind; [apply triple_filealloc|]. intros [f|]; cbn [got]; [|by repeat apply triple_ret_bind; apply triple_ret].
  pose proof (occ_pos f l) as Pf. eapply triple_bind; [apply triple_filealloc|]. intros [g|]; cbn [got].
  2: { apply triple_ret_bind. eapply triple_bind; [apply triple_close_unused; rewrite more_eq; unfold zero; lia|].
       intros []. apply triple_ret_bind, triple_ret. intros w s Hs. st_ext. }
  fold (both f g). pose proof (occ_pos g l) as Pg. pose proof (both_l f g) as L. pose proof (both_r f g) as R.
  eapply triple_bind; [apply frame_kmem|]. intros p. case_decide as Hp.
  - subst p. apply triple_ret_bind. eapply triple_bind; [apply triple_close_unused; lia|]. intros [].
    eapply triple_bind; [apply triple_close_unused; lia|]. intros []. apply triple_ret. intros w s Hs. unfold both in Hs. st_ext.
  - eapply triple_bind; [by apply frame_modify|]. intros []. eapply triple_bind; [apply triple_open_file; [lia|done]|]. intros [].
    eapply triple_bind; [apply triple_open_file; [|done]|intros []; by apply triple_ret].
    unfold both. rewrite more_eq. pose proof (more_ge zero (Some f) 1 g). unfold zero in *. lia.
Qed.

Lemma triple_close_both e f g l :
  (∀ h, e h = both f g h) →
  triple (st e i l) (fileclose fuel f;; fileclose fuel g;; mret (-1)) (λ _, ok i).
Proof.
  intros He. pose proof (occ_pos f l). pose proof (occ_pos g l). pose proof (both_l f g). pose proof (both_r f g).
  pose proof (He f) as Hf. pose proof (He g) as Hg.
  eapply triple_bind; [apply triple_fileclose; lia|]. intros [].
  eapply triple_bind; [apply triple_fileclose; unfold more in *; lia|]. intros [].
  apply triple_ret. intros w s Hs. exists l. eapply st_ext; [|exact Hs]. intros h. specialize (He h). unfold both, more in *. lia.
Qed.

Lemma triple_sys_pipe l : triple (st zero i l) (sys_pipe fuel) (λ _, ok i).
Proof.
  apply triple_with_args; [intros w s Hs; by exists l|]. intros m p a Hp Ha.
  eapply triple_bind; [by apply triple_pipealloc|]. intros [[rf wf]|]; [|apply ok_ret].
  eapply triple_bind; [apply triple_fdalloc|]. intros [fd0|]; [|by apply triple_close_both].
  apply triple_pre_l. intros Hfd0. eapply triple_bind; [apply triple_fdalloc|]. intros [fd1|].
  - apply triple_pre_l. intros Hfd1. eapply triple_bind; [apply frame_bytes|]. intros []. apply triple_ret.
    intros w s Hs. exists (<[fd1 := Some wf]> (<[fd0 := Some rf]> l)). unfold both in Hs. st_ext.
  - eapply triple_bind; [apply (triple_set_fd _ i _ fd0 (Some rf) None); apply list_lookup_insert_eq; by eapply lookup_lt_Some|].
    intros []. apply triple_close_both. intros h. rewrite (pt_None h). unfold both, more. lia.
Qed.

Lemma triple_sys_chdir l : triple (st zero i l) (sys_chdir fuel) (λ _, ok i).
Proof.
  apply frame_ok. apply frame_with_args. intros path. apply frame_bind; [frame|]. intros [ip|]; [|frame].
  apply frame_bind; [frame|]. intros p. apply frame_bind; [frame|]. intros old. apply frame_bind; [frame|]. intros [].
  apply frame_bind; [by apply frame_cp_set|frame].
Qed.
End calls.

(** ** Code that does not sleep *)
Definition quiet {S A} (m : M S A) : Prop :=
  ∀ c s, match m c s with Sleep _ _ _ _ _ => False | _ => True end.

Section quiet.
Context {S : Type}.
Lemma quiet_bind {A B} (m : M S A) (f : A → M S B) : quiet m → (∀ a, quiet (f a)) → quiet (m ≫= f).
Proof.
  intros Hm Hf c s. unfold mbind, M_bind. specialize (Hm c s). destruct (m c s) as [a c' s'| | | |]; simpl; [apply Hf|done..].
Qed.
Lemma quiet_ret {A} (a : A) : quiet (mret (M := M S) a).
Proof. done. Qed.
Lemma quiet_kget : quiet (kget (S := S)).
Proof. done. Qed.
Lemma quiet_kgets {A} (f : S → A) : quiet (kgets f).
Proof. done. Qed.
Lemma quiet_kput s : quiet (kput (S := S) s).
Proof. done. Qed.
Lemma quiet_kmodify f : quiet (kmodify (S := S) f).
Proof. done. Qed.
Lemma quiet_panic {A} msg : quiet (panic (S := S) (A := A) msg).
Proof. done. Qed.
Lemma quiet_fault {A} : quiet (fault (S := S) (A := A)).
Proof. done. Qed.
Lemma quiet_diverge {A} : quiet (diverge (S := S) (A := A)).
Proof. done. Qed.
Lemma quiet_deref {A} (o : option A) : quiet (deref (S := S) o).
Proof. by destruct o. Qed.
Lemma quiet_acquire lk : quiet (acquire (S := S) lk).
Proof. intros c s. unfold acquire. by case_decide. Qed.
Lemma quiet_release lk : quiet (release (S := S) lk).
Proof. intros c s. unfold release. by case_decide. Qed.
End quiet.

Create HintDb quiet.
#[export] Hint Resolve quiet_ret quiet_kget quiet_kgets quiet_kput quiet_kmodify quiet_panic quiet_fault
  quiet_diverge quiet_deref quiet_acquire quiet_release : quiet.

(** Follows the structure of the code. *)
Ltac quiet :=
  repeat first
    [ solve [eauto with quiet]
    | apply quiet_bind; [|intros ?]
    | case_decide
    | match goal with
      | |- quiet (match ?x with _ => _ end) => destruct x
      | |- quiet (let '(_, _) := ?x in _) => destruct x
      end ].

Lemma quiet_header r : quiet (header r).
Proof. unfold header. quiet. Qed.
Lemma quiet_set_header r h : quiet (set_header r h).
Proof. unfold set_header. quiet. Qed.
Lemma quiet_set_len r h : quiet (set_len r h).
Proof. unfold set_len, header, set_header. quiet. Qed.
Lemma quiet_set_next r h : quiet (set_next r h).
Proof. unfold set_next, header, set_header. quiet. Qed.
Lemma quiet_read_rp rp : quiet (read_rp rp).
Proof. unfold read_rp, header. quiet. Qed.
Lemma quiet_write_rp rp v : quiet (write_rp rp v).
Proof. unfold write_rp, set_next, header, set_header. quiet. Qed.
#[export] Hint Resolve quiet_header quiet_set_header quiet_set_len quiet_set_next quiet_read_rp quiet_write_rp : quiet.

Lemma quiet_kalloc n : quiet (kalloc n).
Proof.
  assert (L : ∀ fuel rp, quiet (kalloc_loop fuel n rp)).
  { induction fuel as [|fuel IH]; intros rp; cbn [kalloc_loop]; quiet. }
  unfold kalloc. quiet.
Qed.
Lemma quiet_kfree v len : quiet (kfree v len).
Proof.
  assert (L : ∀ fuel p rp, quiet (kfree_loop fuel p len rp)).
  { induction fuel as [|fuel IH]; intros p rp; cbn [kfree_loop]; quiet. }
  unfold kfree, fill_junk. quiet.
Qed.
Lemma quiet_idup ip : quiet (idup ip).
Proof. unfold idup, at_inode, get_inode. quiet. Qed.
Lemma quiet_focus {S T A} (g : S → option T) (p : T → S → S) (m : M T A) : quiet m → quiet (focus g p m).
Proof. intros Hm c s. unfold focus. destruct (g s) as [t|]; [|done]. specialize (Hm c t). by destruct (m c t). Qed.
Lemma quiet_filedup f : quiet (filedup f).
Proof. unfold filedup, at_file, get_file. quiet. Qed.
Lemma quiet_kfree_bytes v len : quiet (kfree_bytes v len).
Proof. unfold kfree_bytes, on_bytes. quiet. apply quiet_focus, quiet_kfree. Qed.

(** What code that does not sleep does, it does for the same others. *)
Lemma triple_quiet {A} P (m : M kst A) Q (φ : others → others) : quiet m → triple P m Q →
  triple (λ w, P (φ w)) m (λ a w, Q a (φ w)).
Proof. intros Hm Ht w c s Hs. specialize (Hm c s). specialize (Ht (φ w) c s Hs). by destruct (m c s). Qed.

(** ** fork *)

(** Process [np], in use by none of the others, has the descriptors [ln]. *)
Definition with_fds (np : nat) (ln : list (option nat)) (w : others) : others :=
  Others (me w) (inflight w) (λ j, if decide (j = np) then Some ln else fds w j).
Definition making e i l np ln w s : Prop := (fds w np = None ∧ np ≠ i) ∧ st e i l (with_fds np ln w) s.

Lemma making_quiet {A} e i l np ln (m : M kst A) Q : quiet m → triple (st e i l) m Q →
  triple (making e i l np ln) m (λ a w s, (fds w np = None ∧ np ≠ i) ∧ Q a (with_fds np ln w) s).
Proof. intros Hm Ht w c s [Hw Hs]. pose proof (triple_quiet _ m Q (with_fds np ln) Hm Ht w c s Hs). specialize (Hm c s). by destruct (m c s). Qed.
Lemma making_frame {A} e i l np ln (m : M kst A) : quiet m → frame m →
  triple (making e i l np ln) m (λ _, making e i l np ln).
Proof. intros Hm Hf. apply (making_quiet e i l np ln m _ Hm (Hf e i l)). Qed.

Lemma proc_set_run c s i p f : procs (k_sch s) !! i = Some p → proc_set i f c s = Ok () c (upd_cp i (f p) s).
Proof. intros P. apply on_sch_Ok. by eapply at_proc_run. Qed.

(** Giving the new process descriptors, out of those in hand. *)
Lemma making_ofile e i l np ln w s q q' :
  making e i l np ln w s → procs (k_sch s) !! np = Some q → p_state q' = p_state q →
  length (p_ofile q') = length ln → (∀ f, occ f ln ≤ occ f (p_ofile q') ≤ occ f ln + (occ f l + e f)) →
  making (λ f, e f + occ f ln - occ f (p_ofile q')) i l np (p_ofile q') w (upd_cp np q' s).
Proof.
  intros [[Hw Hne] [I R O N1 N2 F]] Q Es Hl Hocc. split; [done|].
  destruct (F np ln Hne) as (q0 & Q0 & Oq & Uq); [simpl; by rewrite decide_True|]. rewrite Q in Q0. injection Q0 as <-.
  assert (L : length ln = NOFILE) by (rewrite <- Oq; by eapply (Forall_lookup_1 _ _ _ _ (fi_len _ _ I))).
  split; cbn [upd_cp k_sch set_k_sch set_procs procs k_files].
  - eapply fd_inv_proc; [done|done|by rewrite Hl|by rewrite Es|]. intros f. simpl. rewrite Oq. lia.
  - done.
  - by apply has_fds_ne.
  - intros f. specialize (Hocc f). lia.
  - intros f. rewrite (refs_insert f q' _ np q Q), Oq. specialize (N2 f). specialize (Hocc f). simpl in *. lia.
  - intros j lj Hj. simpl. case_decide as Ej.
    + intros [= <-]. subst j. apply has_fds_eq; [by eapply lookup_lt_Some|done|by rewrite Es].
    + intros Hf. apply has_fds_ne; [done|]. apply F; [done|]. simpl. by rewrite decide_False.
Qed.

Lemma making_proc e i l np ln w s : making e i l np ln w s → ∃ q, procs (k_sch s) !! np = Some q ∧ p_ofile q = ln.
Proof.
  intros [[Hw Hne] Hs]. destruct (st_fds _ _ _ _ _ Hs np ln Hne) as (q & Q & Oq & _); [simpl; by rewrite decide_True|]. eauto.
Qed.
Lemma making_ext e e' i l np ln w s : (∀ f, e f = e' f) → making e i l np ln w s → making e' i l np ln w s.
Proof. intros H [Hw Hs]. split; [done|]. by eapply st_ext. Qed.

Lemma making_set e i l np ln f ln' :
  (∀ q, p_ofile q = ln → p_ofile (f q) = ln' ∧ p_state (f q) = p_state q) → length ln' = length ln →
  (∀ f, occ f ln ≤ occ f ln' ≤ occ f ln + (occ f l + e f)) →
  triple (making e i l np ln) (proc_set np f) (λ _, making (λ f, e f + occ f ln - occ f ln') i l np ln').
Proof.
  intros Hf Hl Hocc w c s Hs. destruct (making_proc _ _ _ _ _ _ _ Hs) as (q & Q & Oq).
  rewrite (proc_set_run c s np q f Q). cbn. destruct (Hf q Oq) as [F1 F2]. subst ln'. by eapply making_ofile.
Qed.

(** Other fields of a process. *)
Lemma has_fds_set ps j p p' k l : ps !! j = Some p → p_ofile p' = p_ofile p → p_state p' = p_state p →
  has_fds ps k l → has_fds (<[j := p']> ps) k l.
Proof.
  intros P E1 E2 (q & Q & H1 & H2). destruct (decide (k = j)) as [->|Hne]; [|apply has_fds_ne; [done|]; by exists q].
  simplify_eq. apply has_fds_eq; [by eapply lookup_lt_Some|done|by rewrite E2].
Qed.
Lemma frame_proc_set j g : (∀ p, p_ofile (g p) = p_ofile p ∧ p_state (g p) = p_state p) → frame (proc_set j g).
Proof.
  intros Hg e i l w c s Hs. destruct (procs (k_sch s) !! j) as [p|] eqn:P.
  2: { unfold proc_set, on_sch, focus, at_proc, get_proc_at, mbind, M_bind, deref. simpl. by rewrite P. }
  rewrite (proc_set_run c s j p g P). destruct (Hg p) as [G1 G2]. destruct Hs as [I R O N1 N2 F]. cbn [keeps]. split; cbn [upd_cp k_sch set_k_sch set_procs procs k_files].
  - eapply fd_inv_proc; [done|done| | |].
    + rewrite G1. by eapply (Forall_lookup_1 _ _ _ _ (fi_len _ _ I)).
    + rewrite G1, G2. by eapply (Forall_lookup_1 _ _ _ _ (fi_unused _ _ I)).
    + intros f. rewrite G1. simpl. lia.
  - done.
  - by eapply has_fds_set.
  - done.
  - intros f. rewrite (refs_insert f _ _ j p P), G1. specialize (N2 f). lia.
  - intros k lk Hk Hf. eapply has_fds_set; [done..|]. by apply F.
Qed.
Lemma quiet_proc_set j g : quiet (proc_set j g).
Proof. apply quiet_focus. unfold at_proc, get_proc_at. quiet. Qed.
Lemma making_keep e i l np ln f :
  (∀ q, p_ofile (f q) = p_ofile q ∧ p_state (f q) = p_state q) →
  triple (making e i l np ln) (proc_set np f) (λ _, making e i l np ln).
Proof. intros Hf. apply making_frame; [apply quiet_proc_set|by apply frame_proc_set]. Qed.

(** The entry of the new process goes back to the table, or is left to run. *)
Lemma with_fds_None e i l np ln w s : st e i l (with_fds np ln w) s → fds w np = None → st e i l w s.
Proof.
  intros [I R O N1 N2 F] Hw. split; try done. intros j lj Hj Hf. apply F; [done|]. simpl. rewrite decide_False; [done|].
  intros ->. congruence.
Qed.
Lemma making_st e i l np ln w s : making e i l np ln w s → st e i l w s.
Proof. intros [[Hw _] Hs]. by eapply with_fds_None. Qed.
Lemma unmake e i l np : triple (making e i l np (replicate NOFILE None)) (proc_set np (λ n, set_state n UNUSED)) (λ _, st e i l).
Proof.
  intros w c s Hm. destruct (making_proc _ _ _ _ _ _ _ Hm) as (q & Q & Oq). pose proof (making_st _ _ _ _ _ _ _ Hm) as [I R O N1 N2 F].
  destruct Hm as [[Hw Hne] _]. rewrite (proc_set_run c s np q _ Q). cbn [keeps]. split; cbn [upd_cp k_sch set_k_sch set_procs procs k_files].
  - eapply fd_inv_proc; [done|done|cbn; by rewrite Oq|by intros _|]. intros f. simpl. lia.
  - done.
  - by apply has_fds_ne.
  - done.
  - intros f. rewrite (refs_insert f _ _ np q Q). specialize (N2 f). simpl. lia.
  - intros j lj Hj Hf. apply has_fds_ne; [|by apply F]. intros ->. congruence.
Qed.

(** The entry as [allocproc] leaves it. *)
Lemma alloc_loop_run : ∀ ids c t, LkProcTable ∈ held c →
  (alloc_loop ids c t = Fault) ∨
  (∃ c', alloc_loop ids c t = Ok None c' t) ∨
  ∃ np q q' c', procs t !! np = Some q ∧ p_state q = UNUSED ∧ p_state q' = EMBRYO ∧ p_ofile q' = p_ofile q ∧
    alloc_loop ids c t = Ok (Some np) c' (set_nextpid (set_procs t (<[np := q']> (procs t))) (nextpid t + 1)).
Proof.
  induction ids as [|np ids IH]; intros c t Hc; cbn [alloc_loop].
  { right. left. unfold release. eexists. unfold mbind, M_bind. by rewrite decide_True. }
  destruct (procs t !! np) as [q|] eqn:Q.
  2: { left. unfold get_proc_at, mbind, M_bind, deref. simpl. by rewrite Q. }
  rewrite !(get_proc_at_bind _ _ _ _ _ Q). case_decide as Hu; [|by apply IH]. right. right.
  pose proof (lookup_lt_Some _ _ _ Q) as Hlt.
  exists np, q, (set_rq (set_pid (set_state q EMBRYO) (nextpid t)) None). eexists. split_and!; [done..|].
  rewrite (bind_Ok _ _ _ _ _ _ _ (at_proc_run _ _ _ _ _ Q)), kget_bind.
  erewrite bind_Ok by (eapply at_proc_run; simpl; by apply list_lookup_insert_eq).
  rewrite kmodify_bind. simpl. rewrite list_insert_insert_eq.
  erewrite bind_Ok by (eapply at_proc_run; simpl; by apply list_lookup_insert_eq).
  unfold release, mbind, M_bind. rewrite decide_True by done. simpl. by rewrite list_insert_insert_eq.
Qed.

Definition made e i l ln (r : option nat) : others → kst → Prop :=
  match r with Some np => making e i l np ln | None => st e i l end.

Lemma made_entry e i l w s np q q' n : st e i l w s → procs (k_sch s) !! np = Some q → p_state q = UNUSED →
  p_state q' ≠ UNUSED → p_ofile q' = p_ofile q →
  making e i l np (replicate NOFILE None) w
    (set_k_sch s (set_nextpid (set_procs (k_sch s) (<[np := q']> (procs (k_sch s)))) n)).
Proof.
  intros [I R O N1 N2 F] Q U U' E.
  assert (Oq : p_ofile q = replicate NOFILE None) by by apply (Forall_lookup_1 _ _ _ _ (fi_unused _ _ I) Q).
  assert (Hne : np ≠ i) by (intros ->; destruct O as (p & P & _ & Hp); simplify_eq).
  assert (Hw : fds w np = None).
  { destruct (fds w np) as [ln|] eqn:Ew; [|done]. destruct (F np ln Hne Ew) as (p & P & _ & Hp). simplify_eq. }
  split; [done|]. apply (st_frame _ _ _ _ (upd_cp np q' s)); [|done..].
  split; cbn [upd_cp k_sch set_k_sch set_procs procs k_files].
  - eapply fd_inv_proc; [done|done|by rewrite E, Oq|done|]. intros f. rewrite E. simpl. lia.
  - done.
  - by apply has_fds_ne.
  - done.
  - intros f. rewrite (refs_insert f _ _ np q Q), E. specialize (N2 f). simpl in *. lia.
  - intros j lj Hj. simpl. case_decide as Ej.
    + intros [= <-]. subst j. apply has_fds_eq; [by eapply lookup_lt_Some|by rewrite E|done].
    + intros Hf. apply has_fds_ne; [done|]. by apply F.
Qed.

Lemma triple_allocproc e i l : triple (st e i l) (on_sch allocproc) (made e i l (replicate NOFILE None)).
Proof.
  intros w c s Hs. unfold on_sch, focus, allocproc, acquire. unfold mbind at 1, M_bind at 1. case_decide; [done|]. cbn [obind].
  destruct (alloc_loop_run (seq 0 NPROC) (KCtx (LkProcTable :: held c) (woken c)) (k_sch s))
    as [E|[[c' E]|(np & q & q' & c' & Q & U & U' & Eo & E)]]; [by left|by rewrite E| |].
  - rewrite E. simpl. by apply (st_frame _ _ _ _ s).
  - rewrite E. cbn. eapply made_entry; [done|done|done|by rewrite U'|done].
Qed.

(** ** copyproc *)
Lemma triple_proc_own e i l np ln : 
  triple (making e i l np ln) (proc_at i) (λ p w s, making e i l np ln w s ∧ p_ofile p = l).
Proof.
  intros w c s [Hw Hs]. pose proof (st_own _ _ _ _ _ Hs) as (p & P & O & _).
  unfold proc_at, on_sch, focus, get_proc_at, mbind, M_bind, deref. simpl. rewrite P. simpl. by destruct s.
Qed.

Lemma triple_copy_file i l np j ln o : l !! j = Some o → ln !! j = Some None →
  triple (making zero i l np ln) (copy_file i np j) (λ _, making zero i l np (<[j := o]> ln)).
Proof.
  intros Hl Hn. eapply triple_bind; [apply triple_proc_own|]. intros p. apply triple_pre. intros ->. rewrite Hl.
  destruct o as [f|]; cbn [mjoin option_join]; [|by apply triple_ret; rewrite list_insert_id].
  eapply triple_bind; [apply making_quiet; [apply quiet_filedup|apply triple_filedup]|]. intros g.
  assert (Ho : ∀ h, occ h (<[j := Some f]> ln) = occ h ln + pt (Some f) h).
  { intros h. rewrite (occ_insert h (Some f) ln j None Hn), pt_None. lia. }
  intros w c s (Hw & -> & Hs). assert (Hm : making (more zero (Some f) 1) i l np ln w s) by done. clear Hw Hs. revert w c s Hm.
  eapply triple_conseq; [apply (making_set (more zero (Some f) 1) i l np ln _ (<[j := Some f]> ln))|intros w s H; exact H|].
  - by intros q <-.
  - apply length_insert.
  - intros h. rewrite Ho. pose proof (occ_pos h l). unfold more, pt, zero. case_decide; lia.
  - intros [] w s. apply making_ext. intros h. simpl. rewrite Ho. unfold more. lia.
Qed.

Lemma triple_copy_files i l np : ∀ n j, (j + n = length l)%nat →
  triple (making zero i l np (take j l ++ replicate n None)) (for_each (seq j n) (copy_file i np)) (λ _, making zero i l np l).
Proof.
  induction n as [|n IH]; intros j Hj; cbn [for_each seq replicate].
  { apply triple_ret. by rewrite app_nil_r, take_ge by lia. }
  destruct (lookup_lt_is_Some_2 l j) as [o Ho]; [lia|].
  assert (Hlen : length (take j l) = j) by (rewrite length_take; lia).
  eapply triple_bind.
  { apply (triple_copy_file i l np j _ o Ho). rewrite lookup_app_r by lia. by rewrite Hlen, Nat.sub_diag. }
  intros []. rewrite insert_app_r_alt by lia. rewrite Hlen, Nat.sub_diag. cbn.
  replace (take j l ++ o :: replicate n None) with (take (S j) l ++ replicate n None); [apply IH; lia|].
  by rewrite (take_S_r _ _ _ Ho), <- app_assoc.
Qed.

Ltac making_step := first [apply making_keep; done | apply making_frame; [first [apply quiet_focus, quiet_kalloc | apply quiet_kfree_bytes | apply quiet_focus, quiet_idup | solve [quiet] | done]|frame]].

Lemma triple_copy_from i l np kstack :
  triple (making zero i l np (replicate NOFILE None)) (copy_from i np kstack)
    (λ b, if b then making zero i l np l else st zero i l).
Proof.
  apply (triple_conseq _ (λ w s, making zero i l np (replicate NOFILE None) w s ∧ length l = NOFILE) _ (λ b : bool, if b then making zero i l np l else st zero i l)); [| |done].
  2: { intros w s [Hw [I R (p & P & <- & U) N1 N2 F]]. split; [|by eapply (Forall_lookup_1 _ _ _ _ (fi_len _ _ I))].
       split; [done|]. split; try done. by exists p. }
  apply triple_pre. intros Hl. unfold copy_from.
  eapply triple_bind; [making_step|]. intros []. eapply triple_bind; [apply triple_proc_own|]. intros pr. apply triple_pre. intros Hpr.
  eapply triple_bind; [making_step|]. intros []. eapply triple_bind; [making_step|]. intros [].
  eapply triple_bind; [making_step|]. intros mem. eapply triple_bind; [making_step|]. intros []. case_decide.
  - eapply triple_bind; [making_step|]. intros []. eapply triple_bind; [making_step|]. intros [].
    eapply triple_bind; [apply unmake|]. intros []. eapply triple_bind; [by apply frame_proc_set|]. intros []. by apply triple_ret.
  - eapply triple_bind; [making_step|]. intros [].
    eapply triple_bind; [apply (triple_copy_files i l np NOFILE 0); lia|]. intros [].
    eapply triple_bind; [making_step|]. intros d. eapply triple_bind; [making_step|]. intros c.
    eapply triple_bind; [making_step|]. intros []. by apply triple_ret.
Qed.

Lemma triple_copyproc forkret i l : triple (st zero i l) (copyproc forkret (Some i)) (λ _, ok i).
Proof.
  unfold copyproc. eapply triple_bind; [apply triple_allocproc|]. intros [np|]; cbn [made]; [|apply ok_ret].
  eapply triple_bind; [making_step|]. intros kstack. eapply triple_bind; [making_step|]. intros [].
  case_decide; [eapply triple_bind; [apply unmake|]; intros []; apply ok_ret|].
  eapply triple_bind; [apply triple_copy_from|]. intros [|]; cbn [negb]; [|apply ok_ret].
  eapply triple_bind; [making_step|]. intros []. apply (triple_bind _ (λ _, making zero i l np l)).
  { intros w c s [Hw Hs]. split; [done|]. by apply (st_frame _ _ _ _ s). }
  intros []. eapply triple_bind; [making_step|]. intros []. apply triple_ret. intros w s Hs. exists l. by eapply making_st.
Qed.
