(* ===== verification/FdPool.v ===== *)
(** * Reference counts of open files: all processes together

    The processes make system calls, and a call runs until it returns or sleeps; then
    another process may go on.  [pstep] is one such run, or a change of the state
    that has nothing to do with files.  Whatever the interleaving, a descriptor of a
    process that is not in the middle of a call is that of an open file, and when no
    process is, each file's count is the number of its descriptors. *)
From S2P Require Import Prelude Kernel ProcData SchedState Sched Kalloc CString Fs Mmu KState Syscall FileTable Exec Sysfile Process FdInv FdCalls.
Local Open Scope Z_scope.

(** The calls, after [fork] the work of [copyproc] and of [exit] the closing of the
    files. *)
Inductive call :=
| CRead | CWrite | CDup | CClose | CFstat | CLink | CUnlink | COpen | CMknod | CMkdir | CChdir
| CExec (stack : list Z) | CPipe | CFork | CExit | CSbrk.

(** Of each process the rest of the call it sleeps in, if it does. *)
Record pool := Pool { pk : kst; pend : list (option (kst → outcome kst Z)) }.
Definition idle : list (option (kst → outcome kst Z)) := replicate NPROC None.

Definition after (ks : list (option (kst → outcome kst Z))) (i : nat) (o : outcome kst Z) : option pool :=
  match o with
  | Ok _ _ s => Some (Pool s (<[i := None]> ks))
  | Sleep _ _ _ s k => Some (Pool s (<[i := Some k]> ks))
  | _ => None
  end.

(** Nothing happens to the files; a process without files may be reaped. *)
Definition elsewhere (p : pool) (s : kst) : Prop :=
  k_files s = k_files (pk p) ∧ length (procs (k_sch s)) = length (procs (k_sch (pk p))) ∧
  ∀ j q, procs (k_sch (pk p)) !! j = Some q → ∃ q', procs (k_sch s) !! j = Some q' ∧ p_ofile q' = p_ofile q ∧
    (p_state q' = UNUSED → p_state q = UNUSED ∨ (pend p !! j = Some None ∧ p_ofile q = replicate NOFILE None)).

Section pool.
Context (fuel : nat).
Context (dev_read : Z → option (nat → Z → M fsst (option (list Z)))).
Context (dev_write : Z → option (nat → list Z → M fsst Z)).
Context (ts forkret : Z).

Definition run_call (i : nat) (cl : call) : M kst Z :=
  match cl with
  | CRead => sys_read fuel dev_read
  | CWrite => sys_write fuel dev_write
  | CDup => sys_dup
  | CClose => sys_close fuel
  | CFstat => sys_fstat fuel
  | CLink => sys_link fuel dev_read dev_write
  | CUnlink => sys_unlink fuel dev_read dev_write
  | COpen => sys_open fuel dev_read dev_write
  | CMknod => sys_mknod fuel dev_read dev_write
  | CMkdir => sys_mkdir fuel dev_read dev_write
  | CChdir => sys_chdir fuel
  | CExec stack => sys_exec fuel dev_read ts stack
  | CPipe => sys_pipe fuel
  | CFork => copyproc forkret (Some i);; mret 0
  | CExit => for_each (seq 0 NOFILE) (close_fd fuel);; mret 0
  | CSbrk => sys_sbrk ts
  end.

Inductive pstep : pool → pool → Prop :=
| ps_call p i l c cl p' : running (k_sch (pk p)) = Some i → has_fds (procs (k_sch (pk p))) i l →
    pend p !! i = Some None → after (pend p) i (run_call i cl c (pk p)) = Some p' → pstep p p'
| ps_resume p i k p' : running (k_sch (pk p)) = Some i →
    pend p !! i = Some (Some k) → after (pend p) i (k (pk p)) = Some p' → pstep p p'
| ps_other p s : elsewhere p s → pstep p (Pool s (pend p)).

Lemma run_call_ok i cl l : triple (st zero i l) (run_call i cl) (λ _, ok i).
Proof.
  destruct cl as [| | | | | | | | | | |stack| | | |]; cbn [run_call];
    [ | |apply triple_sys_dup|apply triple_sys_close| | | |apply triple_sys_open| | |apply triple_sys_chdir| |apply triple_sys_pipe| | |].
  - apply frame_ok, frame_with_args. intros [[f a] n]. apply frame_fileread.
  - apply frame_ok, frame_with_args. intros [[f a] n]. apply frame_filewrite.
  - apply frame_ok, frame_with_args. intros [f a]. apply frame_bind; [apply frame_filestat|]. intros [v|]; frame.
  - apply frame_ok, frame_with_args. intros [old new]. apply frame_fs.
  - apply frame_ok, frame_with_args. intros path. apply frame_fs.
  - apply frame_ok, frame_with_args. intros [[path major] minor]. apply frame_fs.
  - apply frame_ok, frame_with_args. intros path. apply frame_fs.
  - apply frame_ok, frame_with_args. intros [path argv]. apply frame_exec.
  - eapply triple_bind; [apply triple_copyproc|]. intros r. by apply triple_ret.
  - eapply triple_bind; [apply triple_close_all|]. intros []. by apply triple_ret.
  - apply frame_ok, frame_with_args. intros n. apply frame_bind; [apply frame_growproc|]. intros a. frame.
Qed.

(** ** The invariant *)
Definition total (ms : list (nat → Z)) (f : nat) : Z := foldr (λ e n, e f + n) 0 ms.

Lemma total_insert f e' : ∀ ms i e, ms !! i = Some e → total (<[i := e']> ms) f = total ms f - e f + e' f.
Proof. induction ms as [|m ms IH]; intros [|i] e H; simpl in *; try done; [simplify_eq; lia|]. rewrite (IH i e H). lia. Qed.

Lemma rest_pos f : ∀ ps ms i p e, length ps = length ms → ps !! i = Some p → ms !! i = Some e →
  (∀ j q m, ps !! j = Some q → ms !! j = Some m → 0 ≤ occ f (p_ofile q) + m f) →
  0 ≤ refs ps f - occ f (p_ofile p) + (total ms f - e f).
Proof.
  assert (all : ∀ ps ms, length ps = length ms →
    (∀ j q m, ps !! j = Some q → ms !! j = Some m → 0 ≤ occ f (p_ofile q) + m f) → 0 ≤ refs ps f + total ms f).
  { induction ps as [|p ps IH]; intros [|m ms] Hl H; simpl in *; try done. specialize (IH ms ltac:(lia) (λ j, H (S j))).
    specialize (H 0%nat p m eq_refl eq_refl). lia. }
  induction ps as [|p0 ps IH]; intros [|m ms] [|i] p e Hl Hp He H; simpl in *; simplify_eq.
  - specialize (all ps ms Hl (λ j, H (S j))). lia.
  - specialize (IH ms i p e Hl Hp He (λ j, H (S j))). specialize (H 0%nat p0 m eq_refl eq_refl). lia.
Qed.

Record pinv (ms : list (nat → Z)) (p : pool) : Prop := {
  pi_inv : fd_inv (total ms) (pk p);
  pi_len : length ms = NPROC ∧ length (pend p) = NPROC;
  pi_net : ∀ j q m, procs (k_sch (pk p)) !! j = Some q → ms !! j = Some m → ∀ f, 0 ≤ occ f (p_ofile q) + m f;
  pi_idle : ∀ j m, pend p !! j = Some None → ms !! j = Some m → ∀ f, m f = 0;
  pi_unused : ∀ j q, procs (k_sch (pk p)) !! j = Some q → p_state q = UNUSED → pend p !! j = Some None;
  pi_pend : ∀ j k q m, pend p !! j = Some (Some k) → procs (k_sch (pk p)) !! j = Some q → ms !! j = Some m →
    ∀ w s, st m j (p_ofile q) w s → keeps (λ _, ok j) w (k s)
}.

(** The others, as process [i] sees them. *)
Definition others_of (i : nat) (ms : list (nat → Z)) (e : nat → Z) (s : kst) : others :=
  Others i (λ f, total ms f - e f)
    (λ j, q ← procs (k_sch s) !! j; if decide (p_state q = UNUSED) then None else Some (p_ofile q)).

Lemma pinv_st ms p i q e : pinv ms p → running (k_sch (pk p)) = Some i → procs (k_sch (pk p)) !! i = Some q →
  p_state q ≠ UNUSED → ms !! i = Some e → st e i (p_ofile q) (others_of i ms e (pk p)) (pk p).
Proof.
  intros [I [Hl1 Hl2] N _ _ _] R Q U Hm. split; simpl.
  - eapply fd_inv_ext; [|done]. intros f. lia.
  - done.
  - by exists q.
  - by eapply N.
  - intros f. apply (rest_pos f _ ms i q e); [by rewrite (fi_procs _ _ I)|done|done|]. intros j q' m H1 H2. by eapply N.
  - intros j lj Hj. destruct (procs (k_sch (pk p)) !! j) as [q'|] eqn:Q'; simpl; [|done]. case_decide; [done|].
    intros [= <-]. by exists q'.
Qed.

(** Process [i] has run; [x] is what is left of its call. *)
Lemma pinv_run ms p i q e s e' l x : pinv ms p → procs (k_sch (pk p)) !! i = Some q → p_state q ≠ UNUSED → ms !! i = Some e →
  st e' i l (others_of i ms e (pk p)) s →
  match x with
  | Some k => ∀ w s, st e' i l w s → keeps (λ _, ok i) w (k s)
  | None => ∀ f, e' f = 0
  end → pinv (<[i := e']> ms) (Pool s (<[i := x]> (pend p))).
Proof.
  intros [I [Hl1 Hl2] N Z0 Uu Pe] Q U Hm Hs Hx.
  pose proof (lookup_lt_Some _ _ _ Q) as Hi. rewrite (fi_procs _ _ I) in Hi.
  destruct (st_own _ _ _ _ _ Hs) as (q1 & Q1 & O1 & U1).
  (* a process that was in use has its descriptors; one that was not has no call *)
  assert (Old : ∀ j q' r, j ≠ i → procs (k_sch s) !! j = Some q' → procs (k_sch (pk p)) !! j = Some r →
    (p_state r = UNUSED ∧ pend p !! j = Some None) ∨ (p_state q' ≠ UNUSED ∧ p_ofile q' = p_ofile r)).
  { intros j q' r Hj Q' Qr. destruct (decide (p_state r = UNUSED)) as [Ur|Ur]; [left; split; [done|by eapply Uu]|right].
    destruct (st_fds _ _ _ _ _ Hs j (p_ofile r) Hj) as (q2 & Q2 & O2 & U2); [|by simplify_eq].
    simpl. rewrite Qr. simpl. by rewrite decide_False. }
  assert (Ex : ∀ j q', procs (k_sch s) !! j = Some q' → ∃ r, procs (k_sch (pk p)) !! j = Some r).
  { intros j q' Hj. apply lookup_lt_is_Some_2. rewrite (fi_procs _ _ I), <- (fi_procs _ _ (st_inv _ _ _ _ _ Hs)). by eapply lookup_lt_Some. }
  split; simpl.
  - eapply fd_inv_ext; [|apply (st_inv _ _ _ _ _ Hs)]. intros f. rewrite (total_insert f e' ms i e Hm). simpl. lia.
  - by rewrite !length_insert.
  - intros j q' m Q' Hj f. destruct (decide (j = i)) as [->|Hne].
    + rewrite list_lookup_insert_eq in Hj by lia. simplify_eq. apply (st_mine _ _ _ _ _ Hs).
    + rewrite list_lookup_insert_ne in Hj by done. destruct (Ex j q' Q') as [r Qr].
      destruct (Old j q' r Hne Q' Qr) as [[Ur Pj]|[_ ->]]; [|by eapply N].
      rewrite (Z0 j m Pj Hj f). pose proof (occ_pos f (p_ofile q')). lia.
  - intros j m Pj Hj. destruct (decide (j = i)) as [->|Hne].
    + rewrite list_lookup_insert_eq in Pj by lia. rewrite list_lookup_insert_eq in Hj by lia. by simplify_eq.
    + rewrite list_lookup_insert_ne in Pj by done. rewrite list_lookup_insert_ne in Hj by done. by eapply Z0.
  - intros j q' Q' Uq. destruct (decide (j = i)) as [->|Hne]; [by simplify_eq|]. rewrite list_lookup_insert_ne by done.
    destruct (Ex j q' Q') as [r Qr]. destruct (Old j q' r Hne Q' Qr) as [[_ H]|[H _]]; done.
  - intros j k q' m Pj Q' Hj. destruct (decide (j = i)) as [->|Hne].
    + rewrite list_lookup_insert_eq in Pj by lia. rewrite list_lookup_insert_eq in Hj by lia. by simplify_eq.
    + rewrite list_lookup_insert_ne in Pj by done. rewrite list_lookup_insert_ne in Hj by done. destruct (Ex j q' Q') as [r Qr].
      destruct (Old j q' r Hne Q' Qr) as [[_ H]|[_ ->]]; [by simplify_eq|by eapply Pe].
Qed.

Lemma pinv_after ms p i q e o p' : pinv ms p → procs (k_sch (pk p)) !! i = Some q → p_state q ≠ UNUSED → ms !! i = Some e →
  keeps (λ _, ok i) (others_of i ms e (pk p)) o → after (pend p) i o = Some p' → ∃ ms', pinv ms' p'.
Proof.
  intros J Q U Hm Hk. destruct o as [a c s| | | |ch lk c s k]; simpl in *; try done; intros [= <-].
  - destruct Hk as [l Hs]. exists (<[i := zero]> ms). by eapply pinv_run.
  - destruct Hk as (e' & i' & l & Hs & Hk). pose proof (st_run _ _ _ _ _ Hs) as [_ Hi]. simpl in Hi. subst i'.
    exists (<[i := e']> ms). by eapply pinv_run.
Qed.

Lemma pinv_other ms p s : pinv ms p → elsewhere p s → pinv ms (Pool s (pend p)).
Proof.
  intros [[R L Un Np] [Hl1 Hl2] N Z0 Uu Pe] (Ef & El & H).
  assert (Ex : ∀ j q', procs (k_sch s) !! j = Some q' → ∃ q, procs (k_sch (pk p)) !! j = Some q ∧ p_ofile q' = p_ofile q ∧
    (p_state q' = UNUSED → p_state q = UNUSED ∨ (pend p !! j = Some None ∧ p_ofile q = replicate NOFILE None))).
  { intros j q' Q'. destruct (lookup_lt_is_Some_2 (procs (k_sch (pk p))) j) as [q Q].
    - rewrite <- El. by eapply lookup_lt_Some.
    - exists q. destruct (H j q Q) as (q2 & Q2 & ? & ?). by simplify_eq. }
  assert (Same : ∀ f, refs (procs (k_sch s)) f = refs (procs (k_sch (pk p))) f).
  { intros f. revert El Ex. clear. generalize (procs (k_sch s)) (procs (k_sch (pk p))) (pend p). induction l as [|q' ps' IH]; intros [|q ps] ks El Ex; simpl in *; try done.
    destruct (Ex 0%nat q' eq_refl) as (q0 & [= <-] & -> & _). f_equal. apply (IH ps (tail ks)); [lia|]. intros j r Hr.
    destruct (Ex (S j) r Hr) as (r' & H1 & H2 & H3). exists r'. split_and!; [done|done|]. intros Hu.
    destruct (H3 Hu) as [?|[? ?]]; [by left|right]. split; [|done]. by destruct ks. }
  split; simpl; [split| | | | |].
  - intros f. by rewrite Ef, R, Same.
  - apply Forall_lookup_2. intros j q' Q'. destruct (Ex j q' Q') as (q & Q & -> & _). by apply (Forall_lookup_1 _ _ _ _ L Q).
  - apply Forall_lookup_2. intros j q' Q' U'. destruct (Ex j q' Q') as (q & Q & -> & Hu).
    destruct (Hu U') as [Uq|[_ Hq]]; [|done]. by apply (Forall_lookup_1 _ _ _ _ Un Q).
  - congruence.
  - done.
  - intros j q' m Q' Hm f. destruct (Ex j q' Q') as (q & Q & -> & _). by eapply N.
  - done.
  - intros j q' Q' U'. destruct (Ex j q' Q') as (q & Q & _ & Hu). destruct (Hu U') as [Uq|[Hq _]]; [by eapply Uu|done].
  - intros j k q' m Pj Q' Hm. destruct (Ex j q' Q') as (q & Q & -> & _). by eapply Pe.
Qed.

Lemma pinv_step ms p p' : pinv ms p → pstep p p' → ∃ ms', pinv ms' p'.
Proof.
  intros J Hp. pose proof J as [I [Hl1 Hl2] N Z0 Uu Pe].
  assert (Hm : ∀ i q, procs (k_sch (pk p)) !! i = Some q → ∃ e, ms !! i = Some e).
  { intros i q Q. apply lookup_lt_is_Some_2. rewrite Hl1, <- (fi_procs _ _ I). by eapply lookup_lt_Some. }
  destruct Hp as [p i l c cl p' R (q & Q & <- & U) Pi Ha|p i k p' R Pi Ha|p s He].
  - destruct (Hm i q Q) as [e Ei]. pose proof (pinv_st ms p i q e J R Q U Ei) as Hs. eapply pinv_after; [done..| |done].
    apply (run_call_ok i cl (p_ofile q)). eapply st_ext; [|done]. intros f. by apply (Z0 i e Pi Ei).
  - assert (Hq : ∃ q, procs (k_sch (pk p)) !! i = Some q).
    { apply lookup_lt_is_Some_2. rewrite (fi_procs _ _ I), <- Hl2. by eapply lookup_lt_Some. }
    destruct Hq as [q Q]. destruct (Hm i q Q) as [e Ei].
    assert (U : p_state q ≠ UNUSED) by (intros U; pose proof (Uu i q Q U); simplify_eq).
    eapply pinv_after; [done..| |done]. eapply (Pe i k q e); [done..|]. by apply pinv_st.
  - exists ms. by apply pinv_other.
Qed.

Lemma pinv_reach p p' : rtc pstep p p' → ∀ ms, pinv ms p → ∃ ms', pinv ms' p'.
Proof. induction 1 as [|p p1 p2 H _ IH]; [by eauto|]. intros ms J. destruct (pinv_step ms p p1 J H) as [ms1 J1]. by eapply IH. Qed.

Lemma total_zero f n : total (replicate n zero) f = 0.
Proof. induction n as [|n IH]; simpl; [done|]. unfold zero at 1. lia. Qed.

Lemma pinv_start s : fd_inv zero s → pinv (replicate NPROC zero) (Pool s idle).
Proof.
  intros I. split; cbn [pk pend].
  - eapply fd_inv_ext; [|done]. intros f. by rewrite total_zero.
  - by rewrite !length_replicate.
  - intros j q m _ [-> _]%lookup_replicate f. pose proof (occ_pos f (p_ofile q)). unfold zero. lia.
  - by intros j m _ [-> _]%lookup_replicate.
  - intros j q Q _. apply lookup_replicate. split; [done|]. rewrite <- (fi_procs _ _ I). by eapply lookup_lt_Some.
  - intros j k q m [? _]%lookup_replicate. done.
Qed.

(** C2 In any interleaving of the system calls of all processes, started when no
    call was under way and each file's reference count was the number of its
    descriptors: a descriptor of a process that is not in the middle of a call is
    that of an open file with a positive count (never a dangling one), and whenever
    no call is under way the count of every file is the number of descriptors that
    point to it (none is leaked). *)
Theorem fd_refcounts s p : fd_inv zero s → rtc pstep (Pool s idle) p →
  (pend p = idle → ∀ f, counted (k_files (pk p) !! f) = refs (procs (k_sch (pk p))) f) ∧
  (∀ j q fd f, procs (k_sch (pk p)) !! j = Some q → pend p !! j = Some None → p_ofile q !! fd = Some (Some f) →
    ∃ x, k_files (pk p) !! f = Some x ∧ f_type x ≠ FD_CLOSED ∧ 1 ≤ f_ref x).
Proof.
  intros I H. destruct (pinv_reach _ _ H _ (pinv_start s I)) as [ms [J [Hl1 Hl2] N Z0 Uu Pe]]. split.
  - intros Hi f. rewrite (fi_refs _ _ J). enough (total ms f = 0) by lia. rewrite Hi in Z0. revert Z0 Hl1. unfold idle. clear.
    generalize NPROC as n. induction ms as [|m ms IH]; intros [|n] Z0 Hl; simpl in *; try done.
    rewrite (Z0 0%nat m eq_refl eq_refl f), (IH n (λ j, Z0 (S j))); lia.
  - intros j q fd f Q Pj Hf. destruct (lookup_lt_is_Some_2 ms j) as [m Hm].
    { rewrite Hl1, <- Hl2. by eapply lookup_lt_Some. }
    assert (C : 1 ≤ counted (k_files (pk p) !! f)).
    { rewrite (fi_refs _ _ J). pose proof (occ_in f _ fd Hf). pose proof (Z0 j m Pj Hm f).
      assert (0 ≤ refs (procs (k_sch (pk p))) f - occ f (p_ofile q) + (total ms f - m f)); [|lia].
      apply (rest_pos f _ ms j q m); [by rewrite (fi_procs _ _ J)|done|done|]. intros j' q' m' Q2 M2. by eapply N. }
    unfold counted in C. destruct (k_files (pk p) !! f) as [x|]; [|lia]. exists x. case_decide; [lia|done].
Qed.
End pool.

(** ** An example: a process with one open file, which it duplicates *)
Definition fd_proc : proc :=
  set_ofile (set_state (set_sz proc_zero 4096) RUNNING) (Some 0%nat :: replicate 15 None).
Definition fd_kst : kst :=
  KSt (SchSt [] (fd_proc :: replicate 63 proc_zero)
         [Cpu (Some 0%nat) context_zero (Some 0%nat)] [] None 2 [KForkret] 1 0)
    (KMem 0 ∅) ∅ [File FD_INODE 1 true false 0 (Some 0%nat) 0; file_zero] (FsSt ∅ [] [] None) ∅ 0 (Segs 0 0 []).

Lemma fd_kst_inv : fd_inv zero fd_kst.
Proof.
  split; [|by repeat constructor|by repeat constructor|done]. intros [|[|f]]; reflexivity.
Qed.

Definition fd_dup : option pool := after idle 0 (run_call 1 (λ _, None) (λ _, None) 0 0 0 CDup (KCtx [] []) fd_kst).
Definition fd_after : pool := default (Pool fd_kst idle) fd_dup.

Lemma fd_refcounts_witness :
  (f_ref <$> k_files (pk fd_after) !! 0%nat) = Some 2 ∧ refs (procs (k_sch (pk fd_after))) 0 = 2.
Proof.
  assert (E : fd_dup = Some fd_after) by (unfold fd_after; by destruct fd_dup eqn:E; [|by vm_compute in E]).
  assert (R : rtc (pstep 1 (λ _, None) (λ _, None) 0 0) (Pool fd_kst idle) fd_after).
  { apply rtc_once. eapply (ps_call _ _ _ _ _ (Pool fd_kst idle) 0); [done|by eexists|done|exact E]. }
  destruct (fd_refcounts 1 (λ _, None) (λ _, None) 0 0 fd_kst fd_after fd_kst_inv R) as [H _].
  split; [by vm_compute|]. rewrite <- H by (by vm_compute). by vm_compute.
Defined.
