(* ===== verification/Bio.v ===== *)
(** * The buffer cache and the disk driver (bio.c, buf.h, ide.c)

    The buffers are [buf[0]] to [buf[NBUF-1]]; [bufhead] is number [NBUF].  They are
    linked through [prev] and [next], most recently used first, and those waiting for
    the disk through [qnext].

    Of the disk the model has what the driver relies on: the registers the driver
    writes, the status register as it reads once the disk is no longer busy, and the
    sectors.  [complete] is the disk carrying out the command in its registers, before
    it raises the interrupt that [ide_intr] handles. *)
From S2P Require Import Prelude Kernel ProcData FsDisk.
Local Open Scope Z_scope.

Record buf := Buf {
  B_BUSY : bool; B_VALID : bool; B_DIRTY : bool;
  b_dev : Z; b_sector : Z; b_prev : nat; b_next : nat; b_qnext : option nat; b_data : block
}.
Definition set_flags (y v d : bool) b := Buf y v d (b_dev b) (b_sector b) (b_prev b) (b_next b) (b_qnext b) (b_data b).
Definition set_key (dev sector : Z) b := Buf (B_BUSY b) (B_VALID b) (B_DIRTY b) dev sector (b_prev b) (b_next b) (b_qnext b) (b_data b).
Definition set_prev (p : nat) b := Buf (B_BUSY b) (B_VALID b) (B_DIRTY b) (b_dev b) (b_sector b) p (b_next b) (b_qnext b) (b_data b).
Definition set_next (p : nat) b := Buf (B_BUSY b) (B_VALID b) (B_DIRTY b) (b_dev b) (b_sector b) (b_prev b) p (b_qnext b) (b_data b).
Definition set_qnext (p : option nat) b := Buf (B_BUSY b) (B_VALID b) (B_DIRTY b) (b_dev b) (b_sector b) (b_prev b) (b_next b) p (b_data b).
Definition set_data (d : block) b := Buf (B_BUSY b) (B_VALID b) (B_DIRTY b) (b_dev b) (b_sector b) (b_prev b) (b_next b) (b_qnext b) d.

Definition HEAD : nat := NBUF.

Definition IDE_BSY : Z := 0x80.
Definition IDE_DRDY : Z := 0x40.
Definition IDE_DF : Z := 0x20.
Definition IDE_ERR : Z := 0x01.
Definition IDE_CMD_READ : Z := 0x20.
Definition IDE_CMD_WRITE : Z := 0x30.

(** The registers 0x1f2 to 0x1f7 as they were last written, and the words sent to
    0x1f0. *)
Record regs := Regs { r_count : Z; r_lba0 : Z; r_lba1 : Z; r_lba2 : Z; r_head : Z; r_cmd : Z; r_out : block }.

Record bio := Bio {
  bufs : list buf;
  ide_queue : option nat;
  disk_1_present : bool;
  ide_regs : regs;
  ide_status : Z;
  platter : gmap (Z * Z) block
}.
Definition set_bufs v s := Bio v (ide_queue s) (disk_1_present s) (ide_regs s) (ide_status s) (platter s).
Definition set_queue v s := Bio (bufs s) v (disk_1_present s) (ide_regs s) (ide_status s) (platter s).
Definition set_regs v s := Bio (bufs s) (ide_queue s) (disk_1_present s) v (ide_status s) (platter s).
Definition set_platter v s := Bio (bufs s) (ide_queue s) (disk_1_present s) (ide_regs s) (ide_status s) v.
Definition set_disk_1_present v s := Bio (bufs s) (ide_queue s) v (ide_regs s) (ide_status s) (platter s).

Definition get_buf (b : nat) : M bio buf := s ← kget; deref (bufs s !! b).
Definition at_buf (b : nat) (f : buf → buf) : M bio unit :=
  x ← get_buf b; kmodify (λ s, set_bufs (<[b := f x]> (bufs s)) s).

(** ** The disk *)

(** Drive and sector the registers select. *)
Definition lba (r : regs) : Z * Z :=
  (Z.land (Z.shiftr (r_head r) 4) 1,
   r_lba0 r + 2 ^ 8 * r_lba1 r + 2 ^ 16 * r_lba2 r + 2 ^ 24 * Z.land (r_head r) 0x0f).
Definition complete (s : bio) : bio :=
  let r := ide_regs s in
  if decide (r_cmd r = IDE_CMD_WRITE) then set_platter (<[lba r := r_out r]> (platter s)) s else s.
(** The words read from 0x1f0 after a read command. *)
Definition insl : M bio block := s ← kget; deref (platter s !! lba (ide_regs s)).

(** ** The driver *)
Definition ide_wait_ready (check_error : bool) : M bio Z :=
  s ← kget;
  let r := ide_status s in
  if decide (Z.land r IDE_BSY ≠ 0 ∨ Z.land r IDE_DRDY = 0) then diverge
  else if decide (check_error ∧ Z.land r (Z.lor IDE_DF IDE_ERR) ≠ 0) then mret (-1)
  else mret 0.

(** [status] are the values the status register of disk 1 shows to the loop. *)
Definition ide_init (status : nat → Z) : M bio unit :=
  ide_wait_ready false;;
  kmodify (λ s, if existsb (λ i, negb (bool_decide (status i = 0))) (seq 0 1000) then set_disk_1_present true s else s).

Definition ide_start_request (b : option nat) : M bio unit :=
  match b with
  | None => panic "ide_start_request"
  | Some b =>
      ide_wait_ready false;;
      x ← get_buf b;
      kmodify (λ s, set_regs
        (Regs 1 (Z.land (b_sector x) 0xff) (Z.land (Z.shiftr (b_sector x) 8) 0xff) (Z.land (Z.shiftr (b_sector x) 16) 0xff)
           (Z.lor (Z.lor 0xe0 (Z.shiftl (Z.land (b_dev x) 1) 4)) (Z.land (Z.shiftr (b_sector x) 24) 0x0f))
           (if B_DIRTY x then IDE_CMD_WRITE else IDE_CMD_READ)
           (if B_DIRTY x then b_data x else r_out (ide_regs s))) s)
  end.

Definition ide_intr : M bio unit :=
  acquire LkIde;;
  s ← kget;
  match ide_queue s with
  | None => release LkIde
  | Some b =>
      x ← get_buf b;
      (if B_DIRTY x then mret ()
       else
         r ← ide_wait_ready true;
         if decide (r >= 0) then d ← insl; at_buf b (set_data d) else mret ());;
      at_buf b (λ x, set_flags (B_BUSY x) true false x);;
      wakeup (ChBuf b);;
      x ← get_buf b;
      kmodify (set_queue (b_qnext x));;
      (match b_qnext x with Some n => ide_start_request (Some n) | None => mret () end);;
      release LkIde
  end.

(** "Append b to ide_queue": [p] is what the loop's pointer points to, and [last] the
    buffer whose [qnext] it points into, if it does not point to [ide_queue]. *)
Fixpoint ide_append (k : nat) (last p : option nat) (b : nat) : M bio unit :=
  match k with
  | O => diverge
  | S k =>
      match p with
      | Some n => x ← get_buf n; ide_append k (Some n) (b_qnext x) b
      | None =>
          match last with
          | Some l => at_buf l (set_qnext (Some b))
          | None => kmodify (set_queue (Some b))
          end
      end
  end.

Fixpoint ide_wait (k : nat) (b : nat) : M bio unit :=
  match k with
  | O => diverge
  | S k =>
      x ← get_buf b;
      if B_VALID x && negb (B_DIRTY x) then mret () else sleep (ChBuf b) LkIde;; ide_wait k b
  end.

Section bio.
(** Bounds how often a waiting loop finds its condition still false. *)
Context (fuel : nat).

Definition ide_rw (b : nat) : M bio unit :=
  x ← get_buf b;
  s ← kget;
  if negb (B_BUSY x) then panic "ide_rw: buf not busy"
  else if B_VALID x && negb (B_DIRTY x) then panic "ide_rw: nothing to do"
  else if decide (b_dev x ≠ 0 ∧ disk_1_present s = false) then panic "ide disk 1 not present"
  else
    acquire LkIde;;
    at_buf b (set_qnext None);;
    s ← kget;
    ide_append (S NBUF) None (ide_queue s) b;;
    s ← kget;
    (if decide (ide_queue s = Some b) then ide_start_request (Some b) else mret ());;
    ide_wait fuel b;;
    release LkIde.

(** ** The cache *)
(** The four assignments that put [b] right after the head. *)
Definition push_front (b : nat) : M bio unit :=
  h ← get_buf HEAD;
  at_buf b (set_next (b_next h));;
  at_buf b (set_prev HEAD);;
  h ← get_buf HEAD;
  at_buf (b_next h) (set_prev b);;
  at_buf HEAD (set_next b).
Fixpoint binit_loop (l : list nat) : M bio unit :=
  match l with [] => mret () | b :: l => push_front b;; binit_loop l end.
Definition binit : M bio unit :=
  at_buf HEAD (set_prev HEAD);; at_buf HEAD (set_next HEAD);; binit_loop (seq 0 NBUF).

(** The two scans: a buffer that holds the block, from the most recently used on, and
    one that is not busy, from the least recently used on. *)
Fixpoint find_cached (k : nat) (dev sector : Z) (b : nat) : M bio (option nat) :=
  match k with
  | O => diverge
  | S k =>
      if decide (b = HEAD) then mret None
      else
        x ← get_buf b;
        if (B_BUSY x || B_VALID x) && bool_decide (b_dev x = dev ∧ b_sector x = sector) then mret (Some b)
        else find_cached k dev sector (b_next x)
  end.
Fixpoint find_free_buf (k : nat) (b : nat) : M bio (option nat) :=
  match k with
  | O => diverge
  | S k =>
      if decide (b = HEAD) then mret None
      else x ← get_buf b; if B_BUSY x then find_free_buf k (b_prev x) else mret (Some b)
  end.

Fixpoint bget_loop (n : nat) (dev sector : Z) : M bio nat :=
  match n with
  | O => diverge
  | S n =>
      h ← get_buf HEAD;
      r ← find_cached (S NBUF) dev sector (b_next h);
      match r with
      | Some b =>
          x ← get_buf b;
          if B_BUSY x then sleep (ChBuf 0) LkBufTable;; bget_loop n dev sector
          else
            at_buf b (λ x, set_flags true (B_VALID x) (B_DIRTY x) x);;
            release LkBufTable;;
            mret b
      | None =>
          h ← get_buf HEAD;
          r ← find_free_buf (S NBUF) (b_prev h);
          match r with
          | Some b =>
              at_buf b (set_flags true false false);;
              at_buf b (set_key dev sector);;
              release LkBufTable;;
              mret b
          | None => panic "bget: no buffers"
          end
      end
  end.
Definition bget (dev sector : Z) : M bio nat := acquire LkBufTable;; bget_loop fuel dev sector.

Definition bread (dev sector : Z) : M bio nat :=
  b ← bget dev sector;
  x ← get_buf b;
  (if B_VALID x then mret () else ide_rw b);;
  mret b.

Definition bwrite (b : nat) : M bio unit :=
  x ← get_buf b;
  if negb (B_BUSY x) then panic "bwrite"
  else at_buf b (λ x, set_flags (B_BUSY x) (B_VALID x) true x);; ide_rw b.

Definition brelse_link (b : nat) : M bio unit :=
  x ← get_buf b;
  at_buf (b_next x) (set_prev (b_prev x));;
  x ← get_buf b;
  at_buf (b_prev x) (set_next (b_next x));;
  push_front b.
Definition brelse (b : nat) : M bio unit :=
  x ← get_buf b;
  if negb (B_BUSY x) then panic "brelse"
  else
    acquire LkBufTable;;
    brelse_link b;;
    at_buf b (λ x, set_flags false (B_VALID x) (B_DIRTY x) x);;
    wakeup (ChBuf 0);;
    release LkBufTable.
End bio.

(** ** Code that waits for the disk *)

(** An interrupt, taken while no driver code runs. *)
Definition interrupt (s : bio) : outcome bio unit := ide_intr (KCtx [] []) (complete s).

(** [o] continued by up to [n] interrupts while it waits for the disk. *)
Fixpoint disk_run {A} (n : nat) (o : outcome bio A) : outcome bio A :=
  match o with
  | Sleep ch lk c s k =>
      if decide (lk = LkIde) then
        match n with
        | O => Diverge
        | S n =>
            match interrupt s with
            | Ok _ _ s' => disk_run n (k s')
            | Panic m s' => Panic m s'
            | Fault => Fault
            | _ => Diverge
            end
        end
      else Sleep ch lk c s (λ s', disk_run n (k s'))
  | o => o
  end.
