(* ===== verification/BioInv.v ===== *)
(** * The buffer cache refines the file system's view of it: theorems on Bio

    The file system (Fs) sees a disk, and blocks that are locked between [bread] and
    [brelse].  [repr] relates the buffers, the driver's queue and the disk to that
    view: a write counts as done as soon as it is in the queue, since nobody else can
    hold the block before it is.  Each operation is shown to do what the file system's
    version of it does, whatever requests other processes have in the queue. *)
From S2P Require Import Prelude Kernel ProcData FsDisk Fs Bio.
Local Open Scope Z_scope.

(** ** Running the accesses *)
Definition upd (b : nat) (x : buf) (s : bio) : bio := set_bufs (<[b := x]> (bufs s)) s.

Section run.
Context {A : Type} (c : kctx) (s : bio) (b : nat) (x : buf).
Lemma get_buf_bind (f : buf → M bio A) : bufs s !! b = Some x → (get_buf b ≫= f) c s = f x c s.
Proof. intros H. unfold get_buf, mbind, M_bind, kget, deref. simpl. by rewrite H. Qed.
Lemma at_buf_bind g (f : unit → M bio A) : bufs s !! b = Some x → (at_buf b g ≫= f) c s = f () c (upd b (g x) s).
Proof. intros H. unfold at_buf, get_buf, mbind, M_bind, kget, deref. simpl. by rewrite H. Qed.
Lemma at_buf_run g : bufs s !! b = Some x → at_buf b g c s = Ok () c (upd b (g x) s).
Proof. intros H. unfold at_buf, get_buf, mbind, M_bind, kget, deref. simpl. by rewrite H. Qed.
End run.

Lemma lookup_upd b x s : (b < length (bufs s))%nat → bufs (upd b x s) !! b = Some x.
Proof. intros H. by apply list_lookup_insert_eq. Qed.
Lemma lookup_upd_ne b i x s : i ≠ b → bufs (upd b x s) !! i = bufs s !! i.
Proof. intros H. by apply list_lookup_insert_ne. Qed.
Lemma length_upd b x s : length (bufs (upd b x s)) = length (bufs s).
Proof. apply length_insert. Qed.

(** ** The two lists *)

(** Neighbours in [l] are linked both ways. *)
Definition link (bs : list buf) (x y : nat) : Prop := b_next <$> bs !! x = Some y ∧ b_prev <$> bs !! y = Some x.
Fixpoint linked (bs : list buf) (l : list nat) : Prop :=
  match l with
  | x :: (y :: _) as l' => link bs x y ∧ linked bs l'
  | _ => True
  end.
Definition lru (bs : list buf) (order : list nat) : Prop :=
  linked bs (HEAD :: order ++ [HEAD]) ∧ order ≡ₚ seq 0 NBUF.

Lemma linked_app bs l1 x y l2 : linked bs (l1 ++ x :: y :: l2) ↔ linked bs (l1 ++ [x]) ∧ link bs x y ∧ linked bs (y :: l2).
Proof.
  induction l1 as [|z l1 IH]; [simpl; tauto|]. destruct l1 as [|w l1]; [simpl; tauto|].
  change (linked bs (z :: w :: (l1 ++ x :: y :: l2)) ↔ linked bs (z :: w :: (l1 ++ [x])) ∧ link bs x y ∧ linked bs (y :: l2)).
  change (link bs z w ∧ linked bs ((w :: l1) ++ x :: y :: l2) ↔ (link bs z w ∧ linked bs ((w :: l1) ++ [x])) ∧ link bs x y ∧ linked bs (y :: l2)).
  tauto.
Qed.

(** Only the [next] of all but the last and the [prev] of all but the first matter. *)
Lemma linked_frame bs bs' l0 z :
  (∀ x, x ∈ l0 → b_next <$> bs' !! x = b_next <$> bs !! x) →
  (∀ y, y ∈ tail (l0 ++ [z]) → b_prev <$> bs' !! y = b_prev <$> bs !! y) →
  linked bs (l0 ++ [z]) → linked bs' (l0 ++ [z]).
Proof.
  induction l0 as [|x l0 IH]; [done|]. intros Hn Hp. destruct l0 as [|w l0].
  - simpl. intros [[H1 H2] _]. split; [|done]. split; [rewrite Hn|rewrite Hp]; set_solver.
  - change (link bs x w ∧ linked bs ((w :: l0) ++ [z]) → link bs' x w ∧ linked bs' ((w :: l0) ++ [z])).
    intros [[H1 H2] H]. split.
    + split; [rewrite Hn|rewrite Hp]; simpl; [done|set_solver|done|set_solver].
    + apply IH; [set_solver| |done]. intros y Hy. apply Hp. simpl in *. set_solver.
Qed.

(** Assignments to the links. *)
Definition nx (bs : list buf) (i : nat) : option nat := b_next <$> bs !! i.
Definition pv (bs : list buf) (i : nat) : option nat := b_prev <$> bs !! i.
Lemma upd_field {A} (f : buf → A) bs i x u : (i < length bs)%nat →
  f <$> <[i := x]> bs !! u = if decide (u = i) then Some (f x) else f <$> bs !! u.
Proof. intros Hi. case_decide as E; [subst; by rewrite list_lookup_insert_eq|by rewrite list_lookup_insert_ne]. Qed.

(** Taking [b] out, when [p] and [n] are its neighbours. *)
Lemma linked_delete bs bs' l1 b l2 p n :
  NoDup (HEAD :: l1 ++ b :: l2) → linked bs (HEAD :: (l1 ++ b :: l2) ++ [HEAD]) → link bs p b → link bs b n →
  (∀ u, nx bs' u = if decide (u = p) then Some n else nx bs u) →
  (∀ u, pv bs' u = if decide (u = n) then Some p else pv bs u) →
  linked bs' (HEAD :: (l1 ++ l2) ++ [HEAD]).
Proof.
  intros Nd L [_ Lp] [Ln _] Hn Hp.
  destruct (exists_last (l := HEAD :: l1)) as (l0 & p' & E0); [done|].
  assert (∃ n' l3, l2 ++ [HEAD] = n' :: l3) as (n' & l3 & E3) by (destruct l2; simpl; eauto).
  assert (EL : HEAD :: (l1 ++ b :: l2) ++ [HEAD] = l0 ++ p' :: b :: n' :: l3).
  { rewrite <- app_assoc. simpl. rewrite app_comm_cons, E0, E3. by rewrite <- app_assoc. }
  assert (EL' : HEAD :: (l1 ++ l2) ++ [HEAD] = l0 ++ p' :: n' :: l3).
  { rewrite <- app_assoc, app_comm_cons, E0, E3. by rewrite <- app_assoc. }
  rewrite EL in L. apply linked_app in L as (L1 & [_ Hp'] & L2). change (b :: n' :: l3) with ([] ++ b :: n' :: l3) in L2.
  apply linked_app in L2 as (_ & [Hn' _] & L3).
  assert (p' = p) as -> by congruence. assert (n' = n) as -> by congruence. rewrite EL'. apply linked_app.
  assert (Nl : NoDup (l0 ++ [p])) by (rewrite <- E0; apply NoDup_cons in Nd as [? [? _]%NoDup_app]; apply NoDup_cons; set_solver).
  assert (Nr : NoDup (n :: l3)).
  { rewrite <- E3. apply NoDup_cons in Nd as [? [_ [_ [_ Nd]%NoDup_cons]]%NoDup_app]. apply NoDup_app. split; [done|]. split; [set_solver|apply NoDup_singleton]. }
  assert (Dis : ∀ z, z ∈ HEAD :: l1 → z ∈ l2 → False).
  { apply NoDup_cons in Nd as [Nh [Nd1 [Dj _]]%NoDup_app]. intros z [->|Hz]%elem_of_cons Hz2; [set_solver|]. apply (Dj z Hz). set_solver. }
  split_and!.
  - eapply linked_frame; [| |exact L1].
    + intros x Hx. change (nx bs' x = nx bs x). rewrite Hn, decide_False; [done|]. intros ->. apply NoDup_app in Nl as (_ & Dj & _). set_solver.
    + intros y Hy. change (pv bs' y = pv bs y). rewrite <- E0 in Hy. simpl in Hy. rewrite Hp, decide_False; [done|]. intros ->.
      assert (Hin : n ∈ l2 ++ [HEAD]) by (rewrite E3; set_solver). apply elem_of_app in Hin as [Hin|Hin]; [by eapply (Dis n); set_solver|].
      apply NoDup_cons in Nd as [Nd _]. set_solver.
  - split; [change (nx bs' p = Some n); by rewrite Hn, decide_True|change (pv bs' n = Some p); by rewrite Hp, decide_True].
  - rewrite <- E3 in *. eapply linked_frame; [| |exact L3].
    + intros x Hx. change (nx bs' x = nx bs x). rewrite Hn, decide_False; [done|]. intros ->. apply (Dis p); [|done]. rewrite E0. set_solver.
    + intros y Hy. change (pv bs' y = pv bs y). rewrite Hp, decide_False; [done|]. intros ->. rewrite E3 in Hy. simpl in Hy.
      rewrite E3 in Nr. apply NoDup_cons in Nr as [Nr _]. done.
Qed.

(** Putting [b] in front. *)
Lemma linked_insert bs bs' b m n :
  NoDup (HEAD :: b :: m) → linked bs (HEAD :: m ++ [HEAD]) → nx bs HEAD = Some n →
  (∀ u, nx bs' u = if decide (u = HEAD) then Some b else if decide (u = b) then Some n else nx bs u) →
  (∀ u, pv bs' u = if decide (u = n) then Some b else if decide (u = b) then Some HEAD else pv bs u) →
  linked bs' (HEAD :: b :: m ++ [HEAD]).
Proof.
  intros Nd L En Hn Hp. assert (∃ l3, m ++ [HEAD] = n :: l3) as [l3 E3].
  { destruct m as [|z m]; simpl in L; destruct L as [[L _] _]; unfold nx in En; rewrite L in En; injection En as <-; simpl; eauto. }
  apply NoDup_cons in Nd as [Nh [Nb Nd]%NoDup_cons].
  assert (Hnb : n ≠ b).
  { intros ->. assert (Hin : b ∈ m ++ [HEAD]) by (rewrite E3; set_solver). apply elem_of_app in Hin as [?|?]; set_solver. }
  assert (Hbh : b ≠ HEAD) by set_solver.
  assert (L' : linked bs (m ++ [HEAD])) by (rewrite E3 in *; simpl in L; tauto).
  rewrite E3. change (link bs' HEAD b ∧ link bs' b n ∧ linked bs' (n :: l3)). split_and!.
  - split; [change (nx bs' HEAD = Some b); by rewrite Hn, decide_True|].
    change (pv bs' b = Some HEAD). rewrite Hp, decide_False, decide_True; done.
  - split; [change (nx bs' b = Some n); rewrite Hn, decide_False, decide_True; done|].
    change (pv bs' n = Some b). by rewrite Hp, decide_True.
  - rewrite <- E3. eapply linked_frame; [| |exact L'].
    + intros x Hx. change (nx bs' x = nx bs x). rewrite Hn, !decide_False; [done|intros ->; set_solver..].
    + intros y Hy. change (pv bs' y = pv bs y). rewrite E3 in Hy. simpl in Hy.
      assert (Nr : NoDup (n :: l3)) by (rewrite <- E3; apply NoDup_app; split; [done|]; split; [set_solver|apply NoDup_singleton]).
      apply NoDup_cons in Nr as [Nr _]. rewrite Hp, !decide_False; [done| |by intros ->].
      intros ->. assert (Hin : b ∈ m ++ [HEAD]) by (rewrite E3; set_solver). apply elem_of_app in Hin as [?|?]; set_solver.
Qed.

(** The buffers but for [prev] and [next]. *)
Definition erase (x : buf) : buf := set_next 0 (set_prev 0 x).
Definition relinked (s s' : bio) : Prop := s' = set_bufs (bufs s') s ∧ erase <$> bufs s' = erase <$> bufs s.

Lemma relinked_refl s : relinked s s.
Proof. by destruct s. Qed.
Lemma relinked_upd s s' b x x' : relinked s s' → bufs s' !! b = Some x → erase x' = erase x → relinked s (upd b x' s').
Proof.
  intros [E1 E2] Hx Ee. split; [rewrite E1; by destruct s|]. rewrite <- E2. simpl. rewrite list_fmap_insert, Ee.
  apply list_insert_id. by rewrite list_lookup_fmap, Hx.
Qed.
Lemma relinked_len s s' : relinked s s' → length (bufs s') = length (bufs s).
Proof. intros [_ E]. by rewrite <- (length_fmap erase (bufs s')), E, length_fmap. Qed.
Lemma relinked_lookup s s' i x' : relinked s s' → bufs s' !! i = Some x' → ∃ x, bufs s !! i = Some x ∧ erase x = erase x'.
Proof.
  intros [_ E] H. assert (E' : (erase <$> bufs s') !! i = Some (erase x')) by (by rewrite list_lookup_fmap, H).
  rewrite E, list_lookup_fmap in E'. by apply fmap_Some in E' as (x & Hx & Ex); exists x.
Qed.

(** One assignment to a link, and what it leaves. *)
Lemma set_prev_step {A} c s s0 b v (f : unit → M bio A) : relinked s0 s → (b < length (bufs s))%nat →
  ∃ s', (at_buf b (set_prev v) ≫= f) c s = f () c s' ∧ relinked s0 s' ∧
    (∀ u, nx (bufs s') u = nx (bufs s) u) ∧ (∀ u, pv (bufs s') u = if decide (u = b) then Some v else pv (bufs s) u).
Proof.
  intros R Hb. destruct (lookup_lt_is_Some_2 _ _ Hb) as [x Hx]. exists (upd b (set_prev v x) s).
  rewrite (at_buf_bind _ _ _ x) by done. split; [done|]. split; [by eapply relinked_upd|]. unfold nx, pv.
  split; intros u; simpl; rewrite upd_field by done; [|done]. case_decide; [subst; by rewrite Hx|done].
Qed.
Lemma set_next_step {A} c s s0 b v (f : unit → M bio A) : relinked s0 s → (b < length (bufs s))%nat →
  ∃ s', (at_buf b (set_next v) ≫= f) c s = f () c s' ∧ relinked s0 s' ∧
    (∀ u, pv (bufs s') u = pv (bufs s) u) ∧ (∀ u, nx (bufs s') u = if decide (u = b) then Some v else nx (bufs s) u).
Proof.
  intros R Hb. destruct (lookup_lt_is_Some_2 _ _ Hb) as [x Hx]. exists (upd b (set_next v x) s).
  rewrite (at_buf_bind _ _ _ x) by done. split; [done|]. split; [by eapply relinked_upd|]. unfold nx, pv.
  split; intros u; simpl; rewrite upd_field by done; [|done]. case_decide; [subst; by rewrite Hx|done].
Qed.
Lemma get_next_step {A} c s b n (f : buf → M bio A) : nx (bufs s) b = Some n →
  ∃ x, (get_buf b ≫= f) c s = f x c s ∧ bufs s !! b = Some x ∧ b_next x = n.
Proof. intros [x [Hx ->]]%fmap_Some. exists x. by rewrite (get_buf_bind _ _ _ x). Qed.

Lemma push_front_run c s m b : length (bufs s) = S NBUF → NoDup (HEAD :: b :: m) → Forall (λ x, x < NBUF)%nat (b :: m) →
  linked (bufs s) (HEAD :: m ++ [HEAD]) →
  ∃ s', push_front b c s = Ok () c s' ∧ relinked s s' ∧ linked (bufs s') (HEAD :: b :: m ++ [HEAD]).
Proof.
  intros Hl Nd [Hb Hm]%Forall_cons L. assert (∃ n, nx (bufs s) HEAD = Some n ∧ (n < S NBUF)%nat ∧ n ≠ b) as (n & En & Hn & Hnb).
  { apply NoDup_cons in Nd as [Nh [Nb _]%NoDup_cons]. destruct m as [|z m]; simpl in L; destruct L as [[L _] _]; eexists; (split; [exact L|]).
    - split; [unfold HEAD; lia|set_solver].
    - apply Forall_cons in Hm as [Hz _]. split; [lia|set_solver]. }
  assert (Hbh : b ≠ HEAD) by (unfold HEAD; lia).
  unfold push_front. destruct (get_next_step c s HEAD n (λ h, at_buf b (set_next (b_next h));; at_buf b (set_prev HEAD);; h ← get_buf HEAD; at_buf (b_next h) (set_prev b);; at_buf HEAD (set_next b)) En) as (h & -> & Hh & ->).
  destruct (set_next_step c s s b n (λ _, at_buf b (set_prev HEAD);; h ← get_buf HEAD; at_buf (b_next h) (set_prev b);; at_buf HEAD (set_next b)) (relinked_refl s)) as (s1 & -> & R1 & P1 & N1); [lia|].
  destruct (set_prev_step c s1 s b HEAD (λ _, h ← get_buf HEAD; at_buf (b_next h) (set_prev b);; at_buf HEAD (set_next b)) R1) as (s2 & -> & R2 & N2 & P2); [rewrite (relinked_len s s1); [lia|done]|].
  assert (En2 : nx (bufs s2) HEAD = Some n) by (rewrite N2, N1, decide_False; done).
  destruct (get_next_step c s2 HEAD n (λ h, at_buf (b_next h) (set_prev b);; at_buf HEAD (set_next b)) En2) as (h2 & -> & Hh2 & ->).
  destruct (set_prev_step c s2 s n b (λ _, at_buf HEAD (set_next b)) R2) as (s3 & -> & R3 & N3 & P3); [rewrite (relinked_len s s2); [lia|done]|].
  destruct (set_next_step c s3 s HEAD b mret R3) as (s4 & E4 & R4 & P4 & N4); [rewrite (relinked_len s s3); [unfold HEAD; lia|done]|].
  exists s4. split; [|split; [done|]].
  - revert E4. destruct (lookup_lt_is_Some_2 (bufs s3) HEAD) as [x Hx]; [rewrite (relinked_len s s3); [unfold HEAD; lia|done]|].
    by rewrite (at_buf_bind _ _ _ x), (at_buf_run _ _ _ x).
  - eapply linked_insert; [done|done|done| |].
    + intros u. rewrite N4, N3, N2, N1. by repeat case_decide.
    + intros u. rewrite P4, P3, P2, P1. by repeat case_decide.
Qed.

Lemma lru_NoDup bs order : lru bs order → NoDup (HEAD :: order) ∧ Forall (λ x, x < NBUF)%nat order.
Proof.
  intros [_ P]. assert (F : Forall (λ x, x < NBUF)%nat order).
  { rewrite P. apply Forall_forall. intros x Hx%elem_of_seq. lia. }
  split; [|done]. apply NoDup_cons. split; [|rewrite P; apply NoDup_seq].
  intros H. rewrite Forall_forall in F. apply F in H. unfold HEAD in H. lia.
Qed.

Lemma neighbours bs l1 b l2 : lru bs (l1 ++ b :: l2) →
  ∃ p n, link bs p b ∧ link bs b n ∧ (p < S NBUF)%nat ∧ (n < S NBUF)%nat ∧ p ≠ b ∧ n ≠ b.
Proof.
  intros L. pose proof (lru_NoDup _ _ L) as [Nd Fo]. destruct L as [L _].
  destruct (exists_last (l := HEAD :: l1)) as (l0 & p & E0); [done|].
  assert (∃ n l3, l2 ++ [HEAD] = n :: l3) as (n & l3 & E3) by (destruct l2; simpl; eauto).
  assert (EL : HEAD :: (l1 ++ b :: l2) ++ [HEAD] = l0 ++ p :: b :: n :: l3).
  { rewrite <- app_assoc. simpl. rewrite app_comm_cons, E0, E3. by rewrite <- app_assoc. }
  rewrite EL in L. apply linked_app in L as (_ & Lp & Ln & _). exists p, n.
  assert (Hp : p ∈ HEAD :: l1 ++ b :: l2 ∧ p ≠ b).
  { assert (p ∈ HEAD :: l1) by (rewrite E0; set_solver). apply NoDup_cons in Nd as [Nh [_ [Dj _]]%NoDup_app]. set_solver. }
  assert (Hn : n ∈ HEAD :: l1 ++ b :: l2 ∧ n ≠ b).
  { assert (n ∈ l2 ++ [HEAD]) by (rewrite E3; set_solver). apply NoDup_cons in Nd as [Nh [_ [_ [Nb _]%NoDup_cons]]%NoDup_app]. set_solver. }
  assert (B : ∀ z, z ∈ HEAD :: l1 ++ b :: l2 → (z < S NBUF)%nat).
  { intros z [->|Hz]%elem_of_cons; [unfold HEAD; lia|]. rewrite Forall_forall in Fo. specialize (Fo z Hz). simpl in Fo. lia. }
  destruct Hp, Hn. split_and!; auto.
Qed.

Lemma brelse_link_run c s order b : length (bufs s) = S NBUF → lru (bufs s) order → b ∈ order →
  ∃ s' order', brelse_link b c s = Ok () c s' ∧ relinked s s' ∧ lru (bufs s') (b :: order').
Proof.
  intros Hl L (l1 & l2 & ->)%list_elem_of_split. pose proof (lru_NoDup _ _ L) as [Nd Fo].
  destruct (neighbours _ _ _ _ L) as (p & n & Lp & Ln & Hp & Hn & Hpb & Hnb). destruct L as [L P].
  unfold brelse_link. destruct (get_next_step c s b n (λ x, at_buf (b_next x) (set_prev (b_prev x));; x ← get_buf b; at_buf (b_prev x) (set_next (b_next x));; push_front b) (proj1 Ln)) as (x & -> & Hx & ->).
  assert (b_prev x = p) as -> by (destruct Lp as [_ Lp]; rewrite Hx in Lp; by injection Lp).
  destruct (set_prev_step c s s n p (λ _, x ← get_buf b; at_buf (b_prev x) (set_next (b_next x));; push_front b) (relinked_refl s)) as (s1 & -> & R1 & N1 & P1); [lia|].
  assert (Ln1 : nx (bufs s1) b = Some n) by (rewrite N1; apply Ln).
  destruct (get_next_step c s1 b n (λ x, at_buf (b_prev x) (set_next (b_next x));; push_front b) Ln1) as (x1 & -> & Hx1 & ->).
  assert (b_prev x1 = p) as ->.
  { assert (E : pv (bufs s1) b = Some p) by (rewrite P1, decide_False by done; apply Lp). unfold pv in E. rewrite Hx1 in E. by injection E. }
  destruct (set_next_step c s1 s p n (λ _, push_front b) R1) as (s2 & -> & R2 & P2 & N2); [rewrite (relinked_len s s1); [lia|done]|].
  assert (L2 : linked (bufs s2) (HEAD :: (l1 ++ l2) ++ [HEAD])).
  { eapply linked_delete; [done|done|done|done| |].
    - intros u. rewrite N2, N1. done.
    - intros u. rewrite P2, P1. done. }
  assert (Pm : l1 ++ b :: l2 ≡ₚ b :: l1 ++ l2) by (by rewrite Permutation_middle).
  destruct (push_front_run c s2 (l1 ++ l2) b) as (s3 & E3 & R3 & L3); [by rewrite (relinked_len s s2)| | |done|].
  - rewrite <- Pm. done.
  - by rewrite <- Pm.
  - exists s3, (l1 ++ l2). split; [done|]. split; [|split; [done|by rewrite <- Pm]].
    destruct R2 as [E2 R2], R3 as [E3' R3]. split; [rewrite E3', E2; by destruct s|congruence].
Qed.

(** [q] are the buffers in the queue that starts at [p]. *)
Fixpoint chain (bs : list buf) (p : option nat) (q : list nat) : Prop :=
  match q with
  | [] => p = None
  | b :: q => p = Some b ∧ ∃ x, bs !! b = Some x ∧ chain bs (b_qnext x) q
  end.

(** ** The relation *)
Definition key (x : buf) : Z * Z := (b_dev x, b_sector x).
Definition live (x : buf) : Prop := B_BUSY x = true ∨ B_VALID x = true.

Definition ready (s : bio) : Prop :=
  Z.land (ide_status s) IDE_BSY = 0 ∧ Z.land (ide_status s) IDE_DRDY ≠ 0 ∧
  Z.land (ide_status s) (Z.lor IDE_DF IDE_ERR) = 0 ∧ disk_1_present s = true.

(** The registers hold the request for [x]. *)
Definition requested (x : buf) (r : regs) : Prop :=
  lba r = key x ∧ if B_DIRTY x then r_cmd r = IDE_CMD_WRITE ∧ r_out r = b_data x else r_cmd r = IDE_CMD_READ.

Definition buf_at (s : bio) (i : nat) (x : buf) : Prop := (i < NBUF)%nat ∧ bufs s !! i = Some x.

Definition addressable (k : Z * Z) : Prop := 0 ≤ k.1 ≤ 1 ∧ 0 ≤ k.2 < 2 ^ 28.

(** The registers as [ide_start_request] writes them. *)
Definition regs_of (x : buf) (r : regs) : regs :=
  Regs 1 (Z.land (b_sector x) 0xff) (Z.land (Z.shiftr (b_sector x) 8) 0xff) (Z.land (Z.shiftr (b_sector x) 16) 0xff)
    (Z.lor (Z.lor 0xe0 (Z.shiftl (Z.land (b_dev x) 1) 4)) (Z.land (Z.shiftr (b_sector x) 24) 0x0f))
    (if B_DIRTY x then IDE_CMD_WRITE else IDE_CMD_READ) (if B_DIRTY x then b_data x else r_out r).

Lemma regs_of_requested x r : addressable (key x) → requested x (regs_of x r).
Proof.
  unfold addressable, key. simpl. intros [Hd Hs]. split; [|by simpl; destruct (B_DIRTY x)].
  unfold lba, regs_of, key. cbn [r_head r_lba0 r_lba1 r_lba2]. set (n := b_sector x) in *.
  change 0xff with (Z.ones 8). change 0x0f with (Z.ones 4). rewrite !Z.land_ones, !Z.shiftr_div_pow2 by lia.
  assert (Hq : 0 ≤ n / 2 ^ 24 < 2 ^ 4) by (split; [apply Z.div_pos; lia|apply Z.div_lt_upper_bound; lia]).
  rewrite (Z.mod_small (n / 2 ^ 24)) by lia.
  assert (F : Forall (λ h, Forall (λ dv, let r := Z.lor (Z.lor 0xe0 (Z.shiftl (Z.land dv 1) 4)) h in
    Z.land (r / 2 ^ 4) 1 = dv ∧ r mod 2 ^ 4 = h) (seqZ 0 2)) (seqZ 0 16)) by (vm_compute; repeat constructor).
  rewrite Forall_forall in F. specialize (F (n / 2 ^ 24) ltac:(apply elem_of_seqZ; lia)).
  rewrite Forall_forall in F. destruct (F (b_dev x) ltac:(apply elem_of_seqZ; lia)) as [-> ->]. f_equal.
  replace (n / 2 ^ 24) with (n / 2 ^ 8 / 2 ^ 8 / 2 ^ 8) by (rewrite !Z.div_div by lia; f_equal).
  replace (n / 2 ^ 16) with (n / 2 ^ 8 / 2 ^ 8) by (rewrite !Z.div_div by lia; f_equal).
  clear. pose proof (Z.div_mod n (2 ^ 8) ltac:(lia)). pose proof (Z.div_mod (n / 2 ^ 8) (2 ^ 8) ltac:(lia)).
  pose proof (Z.div_mod (n / 2 ^ 8 / 2 ^ 8) (2 ^ 8) ltac:(lia)).
  change (2 ^ 24) with (2 ^ 8 * (2 ^ 8 * 2 ^ 8)). change (2 ^ 16) with (2 ^ 8 * 2 ^ 8). nia.
Qed.

Section repr.
(** The blocks of the disks. *)
Context (D : Z * Z → Prop) (HD : ∀ k, D k → addressable k).

Record binv (q : list nat) (s : bio) : Prop := {
  bi_len : length (bufs s) = S NBUF;
  bi_lru : ∃ order, lru (bufs s) order;
  bi_ready : ready s;
  bi_chain : chain (bufs s) (ide_queue s) q;
  bi_nodup : NoDup q;
  bi_pend : ∀ i, i ∈ q → ∃ x, buf_at s i x ∧ B_BUSY x = true ∧ (B_VALID x = false ∨ B_DIRTY x = true);
  bi_regs : ∀ i x, head q = Some i → bufs s !! i = Some x → requested x (ide_regs s);
  bi_keys : ∀ i j x y, buf_at s i x → buf_at s j y → live x → live y → key x = key y → i = j;
  bi_addr : ∀ i x, buf_at s i x → live x → D (key x);
  bi_dirty : ∀ i x, buf_at s i x → B_DIRTY x = true → i ∈ q;
  bi_clean : ∀ i x, buf_at s i x → B_BUSY x = false → B_VALID x = true → platter s !! key x = Some (b_data x)
}.

Record repr (q : list nat) (s : bio) (t : fsst) : Prop := {
  rp_inv : binv q s;
  rp_dirty : ∀ i x, buf_at s i x → B_DIRTY x = true → disk t !! key x = Some (b_data x);
  rp_rest : ∀ k, (∀ i x, buf_at s i x → B_DIRTY x = true → key x ≠ k) → disk t !! k = platter s !! k;
  rp_dom : ∀ k, D k → is_Some (disk t !! k);
  rp_nodup : NoDup (bbusy t);
  rp_busy : ∀ k, k ∈ bbusy t ↔ ∃ i x, buf_at s i x ∧ B_BUSY x = true ∧ key x = k
}.

(** ** Changing the links *)
Lemma chain_frame bs bs' : ∀ q p, chain bs p q →
  (∀ i x, i ∈ q → bs !! i = Some x → ∃ x', bs' !! i = Some x' ∧ b_qnext x' = b_qnext x) → chain bs' p q.
Proof.
  induction q as [|b q IH]; intros p; [done|]. intros (-> & x & Hx & C) H. split; [done|].
  destruct (H b x) as (x' & Hx' & Eq); [set_solver|done|]. exists x'. split; [done|]. rewrite Eq. apply IH; [done|]. set_solver.
Qed.

Lemma repr_relink q s s' t : repr q s t → relinked s s' → (∃ order, lru (bufs s') order) → repr q s' t.
Proof.
  intros [[H1 H2 H3 H4 H5 H6 H7 H8 H9 H10 H11] T1 T2 T3 T4 T5] R L. pose proof R as [Es _]. pose proof (relinked_len _ _ R) as Hl.
  assert (B : ∀ i x', bufs s' !! i = Some x' → ∃ x, bufs s !! i = Some x ∧ B_BUSY x = B_BUSY x' ∧ B_VALID x = B_VALID x' ∧
    B_DIRTY x = B_DIRTY x' ∧ key x = key x' ∧ b_data x = b_data x' ∧ b_qnext x = b_qnext x').
  { intros i x' Hx'. destruct (relinked_lookup _ _ _ _ R Hx') as (x & Hx & E). exists x. split; [done|].
    destruct x, x'. unfold erase, set_next, set_prev, key in *. simpl in *. by injection E as -> -> -> -> -> -> ->. }
  assert (B' : ∀ i x, bufs s !! i = Some x → ∃ x', bufs s' !! i = Some x' ∧ B_BUSY x = B_BUSY x' ∧ B_VALID x = B_VALID x' ∧
    B_DIRTY x = B_DIRTY x' ∧ key x = key x' ∧ b_data x = b_data x' ∧ b_qnext x = b_qnext x').
  { intros i x Hx. destruct (lookup_lt_is_Some_2 (bufs s') i) as [x' Hx']; [rewrite Hl; by eapply lookup_lt_Some|].
    exists x'. split; [done|]. destruct (B i x' Hx') as (x2 & Hx2 & H). rewrite Hx in Hx2. injection Hx2 as <-. done. }
  assert (Eo : ide_queue s' = ide_queue s ∧ ide_regs s' = ide_regs s ∧ platter s' = platter s ∧ ready s' = ready s) by (rewrite Es; by destruct s).
  destruct Eo as (Eq & Er & Ep & Ey). split; [split|..].
  - congruence.
  - done.
  - by rewrite Ey.
  - rewrite Eq. eapply chain_frame; [done|]. intros i x _ Hx. destruct (B' i x Hx) as (x' & Hx' & ? & ? & ? & ? & ? & E). by exists x'.
  - done.
  - intros i Hi. destruct (H6 i Hi) as (x & [Hlt Hx] & Hb & Hv). destruct (B' i x Hx) as (x' & Hx' & E1 & E2 & E3 & _).
    exists x'. rewrite <- E1, <- E2, <- E3. by split.
  - intros i x' Hh Hx'. rewrite Er. destruct (B i x' Hx') as (x & Hx & _ & _ & E3 & E4 & E5 & _). specialize (H7 i x Hh Hx).
    unfold requested in *. by rewrite <- E3, <- E4, <- E5.
  - intros i j x' y' [Hi Hx'] [Hj Hy'] Lx Ly Ek. destruct (B i x' Hx') as (x & Hx & E1 & E2 & _ & E4 & _). destruct (B j y' Hy') as (y & Hy & F1 & F2 & _ & F4 & _).
    apply (H8 i j x y); [done|done|unfold live; by rewrite E1, E2|unfold live; by rewrite F1, F2|congruence].
  - intros i x' [Hi Hx'] Lx. destruct (B i x' Hx') as (x & Hx & E1 & E2 & _ & E4 & _). rewrite <- E4. apply (H9 i x); [done|unfold live; by rewrite E1, E2].
  - intros i x' [Hi Hx'] Hd. destruct (B i x' Hx') as (x & Hx & _ & _ & E3 & _). apply (H10 i x); [done|congruence].
  - intros i x' [Hi Hx'] Hb Hv. destruct (B i x' Hx') as (x & Hx & E1 & E2 & _ & E4 & E5 & _). rewrite Ep, <- E4, <- E5. apply (H11 i x); [done|congruence..].
  - intros i x' [Hi Hx'] Hd. destruct (B i x' Hx') as (x & Hx & _ & _ & E3 & E4 & E5 & _). rewrite <- E4, <- E5. apply (T1 i x); [done|congruence].
  - intros k Hk. rewrite Ep. apply T2. intros i x [Hi Hx] Hd. destruct (B' i x Hx) as (x' & Hx' & _ & _ & E3 & E4 & _). rewrite E4. apply (Hk i x'); [done|congruence].
  - done.
  - done.
  - intros k. rewrite T5. split; intros (i & x & [Hi Hx] & Hb & Hk).
    + destruct (B' i x Hx) as (x' & Hx' & E1 & _ & _ & E4 & _). exists i, x'. split; [done|]. split; congruence.
    + destruct (B i x Hx) as (x' & Hx' & E1 & _ & _ & E4 & _). exists i, x'. split; [done|]. split; congruence.
Qed.

(** ** Changing one buffer *)
Lemma buf_at_upd s b x' i y : buf_at (upd b x' s) i y → (i = b ∧ y = x') ∨ (i ≠ b ∧ buf_at s i y).
Proof.
  intros [Hi Hy]. simpl in Hy. destruct (decide (i = b)) as [->|Hne].
  - left. pose proof (lookup_lt_Some _ _ _ Hy) as Hl. rewrite length_insert in Hl. rewrite list_lookup_insert_eq in Hy by done. by simplify_eq.
  - right. rewrite list_lookup_insert_ne in Hy by done. done.
Qed.
Lemma buf_at_upd_ne s b x' i y : i ≠ b → buf_at s i y → buf_at (upd b x' s) i y.
Proof. intros Hne [Hi Hy]. split; [done|]. by rewrite lookup_upd_ne. Qed.
Lemma buf_at_upd_eq s b x x' : buf_at s b x → buf_at (upd b x' s) b x'.
Proof. intros [Hi Hy]. split; [done|]. apply lookup_upd. by eapply lookup_lt_Some. Qed.

Lemma lru_upd bs b x x' order : bs !! b = Some x → b_next x' = b_next x → b_prev x' = b_prev x → lru bs order → lru (<[b := x']> bs) order.
Proof.
  intros Hx En Ep [L P]. split; [|done]. pose proof (lookup_lt_Some _ _ _ Hx). rewrite app_comm_cons in *. eapply linked_frame; [| |exact L].
  - intros y _. rewrite upd_field by done. case_decide; [subst; by rewrite Hx, En|done].
  - intros y _. rewrite upd_field by done. case_decide; [subst; by rewrite Hx, Ep|done].
Qed.

Lemma not_dirty q s b x : binv q s → buf_at s b x → b ∉ q → B_DIRTY x = false.
Proof. intros I Hb Hq. destruct (B_DIRTY x) eqn:E; [|done]. by destruct Hq; eapply bi_dirty. Qed.

Lemma binv_upd q s b x x' : binv q s → buf_at s b x → b ∉ q → b_next x' = b_next x → b_prev x' = b_prev x → B_DIRTY x' = false →
  (live x' → D (key x')) → (live x' → ∀ i y, i ≠ b → buf_at s i y → live y → key y ≠ key x') →
  (B_BUSY x' = false → B_VALID x' = true → platter s !! key x' = Some (b_data x')) →
  binv q (upd b x' s).
Proof.
  intros [H1 H2 H3 H4 H5 H6 H7 H8 H9 H10 H11] Hb Hq En Ep Hd Hk Hu Hc. pose proof Hb as [Hlt Hx]. split; simpl.
  - by rewrite length_insert.
  - destruct H2 as [order H2]. exists order. by eapply lru_upd.
  - done.
  - eapply chain_frame; [done|]. intros i y Hi Hy. exists y. rewrite list_lookup_insert_ne; [done|]. by intros ->.
  - done.
  - intros i Hi. destruct (H6 i Hi) as (y & Hy & Hrest). exists y. split; [|done]. apply buf_at_upd_ne; [|done]. by intros ->.
  - intros i y Hh. rewrite list_lookup_insert_ne; [by apply H7|]. intros ->. destruct q; simplify_eq/=. set_solver.
  - intros i j y z Hy Hz Ly Lz Ek. destruct (buf_at_upd _ _ _ _ _ Hy) as [[-> ->]|[Hib Hy']], (buf_at_upd _ _ _ _ _ Hz) as [[-> ->]|[Hjb Hz']]; [done| | |by eapply H8].
    + by destruct (Hu Ly j z Hjb Hz' Lz).
    + by destruct (Hu Lz i y Hib Hy' Ly).
  - intros i y Hy Ly. destruct (buf_at_upd _ _ _ _ _ Hy) as [[-> ->]|[Hib Hy']]; [by apply Hk|by eapply H9].
  - intros i y Hy Hdy. destruct (buf_at_upd _ _ _ _ _ Hy) as [[-> ->]|[Hib Hy']]; [congruence|by eapply H10].
  - intros i y Hy Hby Hvy. destruct (buf_at_upd _ _ _ _ _ Hy) as [[-> ->]|[Hib Hy']]; [by apply Hc|by eapply H11].
Qed.

Lemma repr_upd q s t b x x' t' : repr q s t → buf_at s b x → b ∉ q → b_next x' = b_next x → b_prev x' = b_prev x → B_DIRTY x' = false →
  (live x' → D (key x')) → (live x' → ∀ i y, i ≠ b → buf_at s i y → live y → key y ≠ key x') →
  (B_BUSY x' = false → B_VALID x' = true → platter s !! key x' = Some (b_data x')) →
  disk t' = disk t → NoDup (bbusy t') →
  (∀ k, k ∈ bbusy t' ↔ (B_BUSY x' = true ∧ key x' = k) ∨ ∃ i y, i ≠ b ∧ buf_at s i y ∧ B_BUSY y = true ∧ key y = k) →
  repr q (upd b x' s) t'.
Proof.
  intros [I T1 T2 T3 T4 T5] Hb Hq En Ep Hd Hk Hu Hc Ed Nd Hbusy. pose proof (not_dirty _ _ _ _ I Hb Hq) as Hdx.
  split; [by eapply binv_upd|..]; rewrite ?Ed; try done.
  - intros i y Hy Hdy. destruct (buf_at_upd _ _ _ _ _ Hy) as [[-> ->]|[Hib Hy']]; [congruence|by eapply T1].
  - intros k Hn. apply T2. intros i y Hy Hdy. apply (Hn i y); [|done]. apply buf_at_upd_ne; [|done]. intros ->.
    destruct Hb as [_ Hb], Hy as [_ Hy]. congruence.
  - intros k. rewrite Hbusy. split.
    + intros [[? ?]|(i & y & Hne & Hy & ? & ?)]; [exists b, x'|exists i, y]; (split; [|done]); [by eapply buf_at_upd_eq|by apply buf_at_upd_ne].
    + intros (i & y & Hy & ? & ?). destruct (buf_at_upd _ _ _ _ _ Hy) as [[-> ->]|[Hib Hy']]; [by left|right]. by exists i, y.
Qed.

(** ** An interrupt *)
Lemma chain_head bs p q : chain bs p q → p = head q.
Proof. destruct q; [done|]. by intros [-> _]. Qed.

(** What the block of a buffer in the queue holds for the file system. *)
Lemma queued_data q s t b x : repr q s t → b ∈ q → buf_at s b x →
  ∃ d, disk t !! key x = Some d ∧ if B_DIRTY x then b_data x = d else platter s !! key x = Some d.
Proof.
  intros [I T1 T2 T3 T4 T5] Hb Hx. destruct (bi_pend _ _ I b Hb) as (x0 & [_ Hx0] & Hbusy & _).
  assert (x0 = x) as -> by (destruct Hx; congruence). assert (L : live x) by by left.
  destruct (T3 (key x)) as [d Hd]; [by eapply bi_addr|]. exists d. split; [done|]. destruct (B_DIRTY x) eqn:E.
  - rewrite (T1 b x Hx E) in Hd. by injection Hd.
  - rewrite <- T2; [done|]. intros i y Hy Hdy Ek. destruct (bi_pend _ _ I i) as (y0 & [_ Hy0] & Hby & _); [by eapply bi_dirty|].
    assert (y0 = y) as -> by (destruct Hy; congruence). assert (i = b) as -> by (eapply (bi_keys _ _ I i b y x); [done..|by left|done|done]).
    destruct Hx, Hy. congruence.
Qed.

(** The state when the request of [b] is done. *)
Definition done_buf (x : buf) (d : block) : buf := set_flags (B_BUSY x) true false (set_data d x).
Definition served (s : bio) (b : nat) (x : buf) (d : block) (p : option nat) (r : regs) : bio :=
  Bio (<[b := done_buf x d]> (bufs s)) p (disk_1_present s) r (ide_status s)
    (if B_DIRTY x then <[key x := b_data x]> (platter s) else platter s).

Lemma served_binv b q s x d r : binv (b :: q) s → buf_at s b x →
  (∀ i y, head q = Some i → bufs s !! i = Some y → requested y r) → binv q (served s b x d (head q) r).
Proof.
  intros [H1 H2 H3 H4 H5 H6 H7 H8 H9 H10 H11] Hb Hr. pose proof Hb as [Hlt Hx]. apply NoDup_cons in H5 as [Hbq Nq].
  destruct H4 as (_ & x0 & Hx0 & Ch). assert (x0 = x) as -> by congruence.
  assert (Hbusy : B_BUSY x = true) by (destruct (H6 b) as (x0 & [_ E0] & ? & _); [set_solver|]; by simplify_eq).
  assert (U : ∀ i y, buf_at (served s b x d (head q) r) i y → (i = b ∧ y = done_buf x d) ∨ (i ≠ b ∧ buf_at s i y)).
  { intros i y Hy. by apply buf_at_upd. }
  split; simpl.
  - by rewrite length_insert.
  - destruct H2 as [order H2]. exists order. by eapply lru_upd.
  - done.
  - rewrite <- (chain_head _ _ _ Ch). eapply chain_frame; [done|]. intros i y Hi Hy. exists y. rewrite list_lookup_insert_ne; [done|]. by intros ->.
  - done.
  - intros i Hi. destruct (H6 i) as (y & Hy & Hrest); [set_solver|]. exists y. split; [|done]. apply (buf_at_upd_ne s b); [|done]. by intros ->.
  - intros i y Hh. rewrite list_lookup_insert_ne; [by apply Hr|]. intros ->. destruct q; simplify_eq/=. set_solver.
  - intros i j y z Hy Hz Ly Lz Ek. destruct (U _ _ Hy) as [[-> ->]|[Hib Hy']], (U _ _ Hz) as [[-> ->]|[Hjb Hz']]; [done| | |by eapply H8].
    + apply (H8 b j x z); [done|done|by left|done|done].
    + apply (H8 i b y x); [done|done|done|by left|done].
  - intros i y Hy Ly. destruct (U _ _ Hy) as [[-> ->]|[Hib Hy']]; [apply (H9 b x); [done|by left]|by eapply H9].
  - intros i y Hy Hdy. destruct (U _ _ Hy) as [[-> ->]|[Hib Hy']]; [done|]. specialize (H10 i y Hy' Hdy). set_solver.
  - intros i y Hy Hby Hvy. destruct (U _ _ Hy) as [[-> ->]|[Hib Hy']]; [simpl in Hby; congruence|]. destruct (B_DIRTY x); [|by eapply H11].
    rewrite lookup_insert_ne; [by eapply H11|]. intros Ek. apply Hib. eapply (H8 i b y x); [done|done|by right|by left|done].
Qed.

Lemma served_repr b q s t x d r : repr (b :: q) s t → buf_at s b x → disk t !! key x = Some d →
  (∀ i y, head q = Some i → bufs s !! i = Some y → requested y r) → repr q (served s b x d (head q) r) t.
Proof.
  intros R Hb Hd Hr. destruct (queued_data _ _ _ b x R) as (d' & Hd' & Hq); [set_solver|done|]. assert (d' = d) as -> by congruence.
  destruct R as [I T1 T2 T3 T4 T5]. pose proof Hb as [Hlt Hx].
  assert (U : ∀ i y, buf_at (served s b x d (head q) r) i y → (i = b ∧ y = done_buf x d) ∨ (i ≠ b ∧ buf_at s i y)).
  { intros i y Hy. by apply buf_at_upd. }
  split; [by apply served_binv| | |done|done|].
  - intros i y Hy Hdy. destruct (U _ _ Hy) as [[-> ->]|[Hib Hy']]; [done|by eapply T1].
  - intros k Hk. simpl. assert (Old : ∀ i y, buf_at s i y → B_DIRTY y = true → key y = k → i = b).
    { intros i y Hy Hdy Ek. destruct (decide (i = b)) as [|Hne]; [done|]. destruct (Hk i y); [|done|done]. by apply (buf_at_upd_ne s b). }
    destruct (decide (k = key x)) as [->|Hne].
    + rewrite Hd. destruct (B_DIRTY x); [by rewrite lookup_insert_eq, Hq|done].
    + rewrite T2; [destruct (B_DIRTY x); [by rewrite lookup_insert_ne by congruence|done]|].
      intros i y Hy Hdy Ek. pose proof (Old i y Hy Hdy Ek) as ->. destruct Hy, Hb. congruence.
  - intros k. rewrite T5. split; intros (i & y & Hy & Hby & Hk).
    + destruct (decide (i = b)) as [->|Hne]; [|exists i, y; split; [by apply (buf_at_upd_ne s b)|done]].
      assert (y = x) as -> by (destruct Hy, Hb; congruence). exists b, (done_buf x d). split; [by apply (buf_at_upd_eq s b x)|done].
    + destruct (U _ _ Hy) as [[-> ->]|[Hib Hy']]; [by exists b, x|by exists i, y].
Qed.

Lemma wait_ready_run {A} c s ce (f : Z → M bio A) : ready s → (ide_wait_ready ce ≫= f) c s = f 0 c s.
Proof.
  intros (H1 & H2 & H3 & _). unfold ide_wait_ready. unfold mbind at 1, M_bind at 1. rewrite kget_bind.
  rewrite decide_False by (intros [?|?]; done). rewrite decide_False by (intros [_ ?]; done). done.
Qed.
Lemma start_request_run c s n y : ready s → bufs s !! n = Some y →
  ide_start_request (Some n) c s = Ok () c (set_regs (regs_of y (ide_regs s)) s).
Proof. intros Hr Hy. unfold ide_start_request. rewrite (wait_ready_run c s) by done. by rewrite (get_buf_bind _ _ _ y). Qed.

Lemma complete_run b q s x : binv (b :: q) s → bufs s !! b = Some x →
  complete s = set_platter (if B_DIRTY x then <[key x := b_data x]> (platter s) else platter s) s.
Proof.
  intros I Hx. destruct (bi_regs _ _ I b x eq_refl Hx) as [Hk Hc]. unfold complete. destruct (B_DIRTY x).
  - destruct Hc as [Hc Ho]. rewrite decide_True by done. by rewrite Hk, Ho.
  - rewrite decide_False by (by rewrite Hc). by destruct s.
Qed.

(** The next request is started. *)
Lemma start_next c s q p : ready s → p = head q → (∀ i, head q = Some i → is_Some (bufs s !! i)) →
  ∃ r, (match p with Some n => ide_start_request (Some n) | None => mret () end) c s = Ok () c (set_regs r s) ∧
    ∀ i y, head q = Some i → bufs s !! i = Some y → addressable (key y) → requested y r.
Proof.
  intros Hr -> Hb. destruct (head q) as [n|].
  - destruct (Hb n eq_refl) as [y Hy]. exists (regs_of y (ide_regs s)). rewrite (start_request_run c s n y) by done. split; [done|].
    intros i z [= <-] Hz Ha. simplify_eq. by apply regs_of_requested.
  - exists (ide_regs s). split; [by destruct s|]. by intros i y.
Qed.

(** "Read data if needed." *)
Lemma read_data_run {A} b q s x d (f : unit → M bio A) c : binv (b :: q) s → bufs s !! b = Some x →
  (if B_DIRTY x then b_data x = d else platter s !! key x = Some d) →
  let s' := set_platter (if B_DIRTY x then <[key x := b_data x]> (platter s) else platter s) s in
  ((if B_DIRTY x then mret ()
    else r ← ide_wait_ready true; if decide (r >= 0) then d ← insl; at_buf b (set_data d) else mret ()) ≫= f) c s' =
  f () c (upd b (set_data d x) s').
Proof.
  intros I Hx Hq. destruct (B_DIRTY x) eqn:Ed; cbv zeta.
  - subst d. rewrite ret_bind. f_equal. unfold upd. destruct x; simpl. rewrite list_insert_id by done. by destruct s.
  - unfold mbind at 1, M_bind at 1. rewrite (wait_ready_run c (set_platter (platter s) s)) by apply (bi_ready _ _ I). rewrite decide_True by lia.
    destruct (bi_regs _ _ I b x eq_refl Hx) as [Hk _]. unfold insl, mbind, M_bind, kget, deref. simpl. rewrite Hk, Hq. simpl.
    by rewrite (at_buf_run _ _ _ x).
Qed.

Lemma interrupt_run b q s t : repr (b :: q) s t →
  ∃ x d s', buf_at s b x ∧ disk t !! key x = Some d ∧ interrupt s = Ok () (KCtx [] [ChBuf b]) s' ∧ repr q s' t ∧
    buf_at s' b (done_buf x d) ∧ ∀ i, i ≠ b → bufs s' !! i = bufs s !! i.
Proof.
  intros R. pose proof (rp_inv _ _ _ R) as I. destruct (bi_pend _ _ I b) as (x & Hb & Hbusy & _); [set_solver|].
  pose proof Hb as [Hlt Hx]. destruct (queued_data _ _ _ b x R) as (d & Hd & Hq); [set_solver|done|].
  destruct (bi_chain _ _ I) as (Eq & x0 & Hx0 & Ch). assert (x0 = x) as -> by congruence.
  pose proof (bi_nodup _ _ I) as [Hbq _]%NoDup_cons. pose proof (bi_ready _ _ I) as Hr.
  set (p := if B_DIRTY x then <[key x := b_data x]> (platter s) else platter s).
  set (s1 := upd b (done_buf x d) (set_platter p s)).
  assert (Hn : ∀ i, head q = Some i → ∃ y, buf_at s i y ∧ B_BUSY y = true ∧ i ≠ b).
  { intros i Hi. assert (i ∈ q) by (destruct q; simplify_eq/=; set_solver). destruct (bi_pend _ _ I i) as (y & ? & ? & _); [set_solver|].
    exists y. split; [done|]. split; [done|]. by intros ->. }
  destruct (start_next (KCtx [LkIde] [ChBuf b]) (set_queue (head q) s1) q (head q)) as (r & E & Hreq); [done|done| |].
  { intros i Hi. destruct (Hn i Hi) as (y & [_ Hy] & _ & Hne). exists y. simpl. by rewrite list_lookup_insert_ne. }
  exists x, d, (served s b x d (head q) r). split; [done|]. split; [done|]. split; [|split; [|split]].
  - unfold interrupt. rewrite (complete_run b q s x I Hx). fold p. unfold ide_intr. rewrite (bind_Ok _ _ _ _ _ _ _ (acquire_ok LkIde (KCtx [] []) _ (not_elem_of_nil _))).
    rewrite kget_bind. cbn [ide_queue set_platter]. rewrite Eq. rewrite (get_buf_bind _ _ _ x) by done.
    rewrite (read_data_run b q s x d _ _ I Hx Hq). rewrite (at_buf_bind _ _ _ (set_data d x)) by (by apply lookup_upd; eapply lookup_lt_Some).
    assert (Eu : upd b (set_flags (B_BUSY (set_data d x)) true false (set_data d x)) (upd b (set_data d x) (set_platter p s)) = s1).
    { unfold s1, upd. simpl. by rewrite list_insert_insert_eq. }
    fold p. rewrite Eu. unfold wakeup. unfold mbind at 1, M_bind at 1. cbn [obind held woken app].
    rewrite (get_buf_bind _ _ _ (done_buf x d)) by (apply lookup_upd; by eapply lookup_lt_Some).
    rewrite kmodify_bind. change (b_qnext (done_buf x d)) with (b_qnext x). rewrite (chain_head _ _ _ Ch).
    rewrite (bind_Ok _ _ _ _ _ _ _ E). unfold release. rewrite decide_True by set_solver. simpl. done.
  - apply served_repr; [done|done|done|]. intros i y Hi Hy. destruct (Hn i Hi) as (z & [Hil Hz] & Hbz & Hne). apply (Hreq i y Hi).
    + simpl. by rewrite list_lookup_insert_ne.
    + apply HD. eapply (bi_addr _ _ I i); [by split|]. left. congruence.
  - apply (buf_at_upd_eq s b x). done.
  - intros i Hne. simpl. by rewrite list_lookup_insert_ne.
Qed.

(** ** A new request *)
Definition content (x : buf) := (B_BUSY x, B_VALID x, B_DIRTY x, key x, b_data x).

(** The state when [b], with contents [x], is at the end of the queue. *)
Definition enq (b : nat) (x : buf) (q : list nat) (s : bio) : bio :=
  match last q with
  | Some m => from_option (λ y, upd m (set_qnext (Some b) y) (upd b (set_qnext None x) s)) s (bufs s !! m)
  | None => set_regs (regs_of x (ide_regs s)) (set_queue (Some b) (upd b (set_qnext None x) s))
  end.

Lemma ide_append_run b c s : ∀ q k l p, chain (bufs s) p q → (length q < k)%nat →
  ide_append k l p b c s =
  match last q with
  | Some m => at_buf m (set_qnext (Some b)) c s
  | None => match l with Some m => at_buf m (set_qnext (Some b)) c s | None => Ok () c (set_queue (Some b) s) end
  end.
Proof.
  induction q as [|n q IH]; intros [|k] l p C Hk; simpl in Hk; try lia; cbn [ide_append].
  - simpl in C. subst p. by destruct l.
  - destruct C as (-> & x & Hx & C). rewrite (get_buf_bind _ _ _ x) by done. rewrite (IH k (Some n) _ C) by lia.
    rewrite last_cons. by destruct (last q).
Qed.

Section enqueue.
Context (q : list nat) (s : bio) (b : nat) (x x' : buf).
Context (I : binv q s) (Hb : buf_at s b x) (Hbq : b ∉ q).
Context (Hlinks : b_next x' = b_next x ∧ b_prev x' = b_prev x).

Lemma last_in m : last q = Some m → m ∈ q ∧ m ≠ b ∧ ∃ y, buf_at s m y ∧ b_qnext y = None.
Proof.
  intros Hm. assert (Hin : m ∈ q) by (apply last_Some in Hm as [l ->]; set_solver). split; [done|]. split; [by intros ->|].
  destruct (bi_pend _ _ I m Hin) as (y & Hy & _). exists y. split; [done|].
  pose proof (bi_chain _ _ I) as C. apply last_Some in Hm as [l ->]. clear -C Hy. revert C. generalize (ide_queue s).
  induction l as [|n l IH]; intros p (_ & z & Hz & C); simpl in *; [|by eapply IH]. destruct Hy. congruence.
Qed.

Lemma enq_buf i : bufs (enq b x' q s) !! i =
  if decide (i = b) then Some (set_qnext None x')
  else if decide (last q = Some i) then set_qnext (Some b) <$> bufs s !! i else bufs s !! i.
Proof.
  pose proof Hb as [Hlt Hx]. assert (Hl : (b < length (bufs s))%nat) by by eapply lookup_lt_Some. unfold enq.
  destruct (last q) as [m|] eqn:Em.
  - destruct (last_in m Em) as (_ & Hmb & y & [_ Hy] & _). rewrite Hy. simpl. destruct (decide (i = m)) as [->|Hne].
    + rewrite list_lookup_insert_eq by (rewrite length_insert; by eapply lookup_lt_Some). rewrite decide_False, decide_True, Hy by done. done.
    + rewrite list_lookup_insert_ne by done. case_decide as Eib; [subst; by rewrite list_lookup_insert_eq|].
      rewrite list_lookup_insert_ne by done. rewrite decide_False by congruence. done.
  - simpl. case_decide as Eib; [subst; by rewrite list_lookup_insert_eq|]. by rewrite list_lookup_insert_ne.
Qed.

Lemma enq_fields : disk_1_present (enq b x' q s) = disk_1_present s ∧ ide_status (enq b x' q s) = ide_status s ∧
  platter (enq b x' q s) = platter s ∧ length (bufs (enq b x' q s)) = length (bufs s).
Proof. unfold enq. destruct (last q) as [m|]; [destruct (bufs s !! m)|]; simpl; by rewrite ?length_insert. Qed.

Lemma enq_at i y' : buf_at (enq b x' q s) i y' →
  (i = b ∧ content y' = content x' ∧ y' = set_qnext None x') ∨ (i ≠ b ∧ ∃ y, buf_at s i y ∧ content y' = content y).
Proof.
  intros [Hi Hy]. rewrite enq_buf in Hy. case_decide as Eib; [left; by simplify_eq|right]. split; [done|].
  case_decide; [apply fmap_Some in Hy as (y & Hy & ->)|]; by eexists.
Qed.
Lemma enq_at_old i y : i ≠ b → buf_at s i y → ∃ y', buf_at (enq b x' q s) i y' ∧ content y' = content y.
Proof.
  intros Hne [Hi Hy]. unfold buf_at. rewrite enq_buf, decide_False by done. rewrite Hy. case_decide; simpl; by eexists.
Qed.
Lemma enq_at_b : buf_at (enq b x' q s) b (set_qnext None x').
Proof. split; [apply Hb|]. by rewrite enq_buf, decide_True. Qed.

Lemma enq_lru : ∃ order, lru (bufs (enq b x' q s)) order.
Proof.
  destruct (bi_lru _ _ I) as [order L]. exists order. pose proof Hb as [Hlt Hx]. destruct Hlinks as [En Ep].
  assert (L1 : lru (bufs (upd b (set_qnext None x') s)) order) by by eapply lru_upd.
  unfold enq. destruct (last q) as [m|] eqn:Em; [|done]. destruct (last_in m Em) as (_ & Hmb & y & [_ Hy] & _). rewrite Hy. simpl.
  apply (lru_upd _ m y); [|done|done|exact L1]. by rewrite list_lookup_insert_ne.
Qed.

Lemma enq_chain : chain (bufs (enq b x' q s)) (ide_queue (enq b x' q s)) (q ++ [b]).
Proof.
  assert (Eq : ide_queue (enq b x' q s) = match last q with None => Some b | Some _ => ide_queue s end).
  { unfold enq. destruct (last q) as [m|] eqn:Em; [|done]. destruct (last_in m Em) as (_ & _ & y & [_ Hy] & _). by rewrite Hy. }
  rewrite Eq. pose proof (bi_chain _ _ I) as C. pose proof (bi_nodup _ _ I) as N.
  assert (G : ∀ l p, chain (bufs s) p l → (∀ i, i ∈ l → i ∈ q) → NoDup l → last l = last q ∨ l = [] →
    chain (bufs (enq b x' q s)) (match last l with None => Some b | Some _ => p end) (l ++ [b])).
  { induction l as [|n l IH]; intros p Cl Hin Nl Hlast; simpl.
    - split; [done|]. exists (set_qnext None x'). split; [by rewrite enq_buf, decide_True|done].
    - destruct Cl as (-> & y & Hy & Cl). destruct Hlast as [Hlast|]; [|done]. apply NoDup_cons in Nl as [Nn Nl].
      assert (Hnb : n ≠ b) by (intros ->; apply Hbq, Hin; set_solver). specialize (IH (b_qnext y) Cl ltac:(set_solver) Nl).
      rewrite last_cons in *. destruct (last l) as [z|] eqn:Ez; (split; [done|]).
      + exists y. rewrite enq_buf, decide_False, decide_False, Hy; [|intros E|done].
        * split; [done|]. apply IH. by left.
        * rewrite <- Hlast in E. injection E as ->. apply Nn. apply last_Some in Ez as [l' ->]. set_solver.
      + exists (set_qnext (Some b) y). rewrite enq_buf, decide_False, decide_True, Hy by done. split; [done|]. apply IH. right. by apply last_None. }
  apply G; [done|done|done|by left].
Qed.

Lemma content_inv y y' : content y' = content y → B_BUSY y' = B_BUSY y ∧ B_VALID y' = B_VALID y ∧ B_DIRTY y' = B_DIRTY y ∧
  key y' = key y ∧ b_data y' = b_data y ∧ (live y' ↔ live y).
Proof. unfold content, live, key. intros [= E1 E2 E3 E4 E5 E6]. by rewrite E1, E2, E3, E4, E5, E6. Qed.

Lemma enq_regs i y : head (q ++ [b]) = Some i → bufs (enq b x' q s) !! i = Some y → D (key x') → requested y (ide_regs (enq b x' q s)).
Proof.
  intros Hh Hy Hk. rewrite enq_buf in Hy. unfold enq. destruct (last q) as [m|] eqn:Em.
  - destruct (last_in m Em) as (Hm & _ & y0 & [_ Hy0] & _). rewrite Hy0. simpl. assert (Hq : head q = Some i) by (destruct q; [set_solver|done]).
    assert (Hne : i ≠ b) by (intros ->; destruct q; simplify_eq/=; set_solver). rewrite decide_False in Hy by done.
    case_decide; [apply fmap_Some in Hy as (z & Hz & ->)|]; [apply (bi_regs _ _ I i z Hq Hz)|by apply (bi_regs _ _ I i y)].
  - apply last_None in Em. rewrite Em in Hh. injection Hh as <-. rewrite decide_True in Hy by done. injection Hy as <-. simpl.
    apply (regs_of_requested x'). by apply HD.
Qed.

Context (Hbusy : B_BUSY x = true ∧ B_BUSY x' = true) (Hkey : key x' = key x) (Hp : B_VALID x' = false ∨ B_DIRTY x' = true).

Lemma enq_binv : binv (q ++ [b]) (enq b x' q s).
Proof.
  destruct enq_fields as (F1 & F2 & F3 & F4). pose proof I as [H1 H2 H3 H4 H5 H6 H7 H8 H9 H10 H11]. destruct Hbusy as [Bx Bx'].
  assert (Lx : live x) by by left. split.
  - by rewrite F4.
  - apply enq_lru.
  - unfold ready. by rewrite F1, F2.
  - apply enq_chain.
  - apply NoDup_app. split; [done|]. split; [set_solver|apply NoDup_singleton].
  - intros i [Hi|Hi]%elem_of_app.
    + destruct (H6 i Hi) as (y & Hy & Hby & Hvy). destruct (enq_at_old i y) as (y' & Hy' & Ec); [by intros ->|done|].
      apply content_inv in Ec as (E1 & E2 & E3 & _). exists y'. by rewrite E1, E2, E3.
    + assert (i = b) as -> by set_solver. exists (set_qnext None x'). split; [apply enq_at_b|done].
  - intros i y Hh Hy. eapply enq_regs; [done|done|]. rewrite Hkey. by eapply H9.
  - intros i j y z Hy Hz Ly Lz Ek.
    destruct (enq_at _ _ Hy) as [(-> & E & _)|(Hib & y0 & Hy0 & E)], (enq_at _ _ Hz) as [(-> & F & _)|(Hjb & z0 & Hz0 & F)];
      apply content_inv in E as (_ & _ & _ & E4 & _ & EL), F as (_ & _ & _ & F5 & _ & FL); [done|..].
    + apply (H8 b j x z0); [done|done|done|by apply FL|congruence].
    + apply (H8 i b y0 x); [done|done|by apply EL|done|congruence].
    + apply (H8 i j y0 z0); [done|done|by apply EL|by apply FL|congruence].
  - intros i y Hy Ly. destruct (enq_at _ _ Hy) as [(-> & E & _)|(Hib & y0 & Hy0 & E)]; apply content_inv in E as (_ & _ & _ & E4 & _ & EL).
    + rewrite E4, Hkey. by eapply H9.
    + rewrite E4. eapply H9; [done|by apply EL].
  - intros i y Hy Hdy. destruct (enq_at _ _ Hy) as [(-> & E & _)|(Hib & y0 & Hy0 & E)]; [set_solver|].
    apply content_inv in E as (_ & _ & E3 & _). apply elem_of_app. left. apply (H10 i y0); [done|congruence].
  - intros i y Hy Hby Hvy. rewrite F3. destruct (enq_at _ _ Hy) as [(-> & _ & ->)|(Hib & y0 & Hy0 & E)]; [simpl in Hby; congruence|].
    apply content_inv in E as (E1 & E2 & _ & E4 & E5 & _). rewrite E4, E5. apply (H11 i y0); [done|congruence..].
Qed.

Lemma enq_repr t : repr q s t →
  repr (q ++ [b]) (enq b x' q s) (if B_DIRTY x' then Fs.set_disk (<[key x := b_data x']> (disk t)) t else t).
Proof.
  intros [_ T1 T2 T3 T4 T5]. destruct enq_fields as (F1 & F2 & F3 & F4). destruct Hbusy as [Bx Bx'].
  pose proof (not_dirty _ _ _ _ I Hb Hbq) as Dx.
  assert (Ne : ∀ i y, i ≠ b → buf_at s i y → B_DIRTY y = true → key y ≠ key x).
  { intros i y Hi Hy Hd Ek. apply Hi. apply (bi_keys _ _ I i b y x); [done|done| |by left|done].
    destruct (bi_pend _ _ I i) as (y0 & [_ Hy0] & ? & _); [by eapply bi_dirty|]. left. destruct Hy. congruence. }
  assert (B : bbusy (if B_DIRTY x' then Fs.set_disk (<[key x := b_data x']> (disk t)) t else t) = bbusy t) by by destruct (B_DIRTY x').
  split; rewrite ?B; [apply enq_binv| | | |done|].
  - intros i y Hy Hd. destruct (enq_at _ _ Hy) as [(-> & E & _)|(Hib & y0 & Hy0 & E)]; apply content_inv in E as (_ & _ & E3 & E4 & E5 & _).
    + rewrite E3 in Hd. rewrite Hd. simpl. by rewrite E4, E5, Hkey, lookup_insert_eq.
    + rewrite E4, E5. assert (Hd0 : B_DIRTY y0 = true) by congruence. specialize (T1 i y0 Hy0 Hd0). pose proof (Ne i y0 Hib Hy0 Hd0).
      destruct (B_DIRTY x'); [|done]. simpl. by rewrite lookup_insert_ne.
  - intros k Hk. rewrite F3. assert (T : disk t !! k = platter s !! k).
    { apply T2. intros i y Hy Hd. destruct (decide (i = b)) as [->|Hne]; [destruct Hy, Hb; congruence|].
      destruct (enq_at_old i y Hne Hy) as (y' & Hy' & E). apply content_inv in E as (_ & _ & E3 & E4 & _). rewrite <- E4. apply (Hk i y'); [done|congruence]. }
    destruct (B_DIRTY x') eqn:Ed; [|done]. simpl. rewrite lookup_insert_ne; [done|]. rewrite <- Hkey. apply (Hk b (set_qnext None x')); [apply enq_at_b|done].
  - intros k Hk. destruct (T3 k Hk) as [d Hd]. destruct (B_DIRTY x'); [|by exists d]. simpl.
    destruct (decide (key x = k)) as [->|?]; [by rewrite lookup_insert_eq|]. rewrite lookup_insert_ne by done. by exists d.
  - intros k. rewrite T5. split; intros (i & y & Hy & Hby & Hk).
    + destruct (decide (i = b)) as [->|Hne].
      * exists b, (set_qnext None x'). split; [apply enq_at_b|]. split; [done|]. assert (y = x) as -> by (destruct Hy, Hb; congruence). by rewrite <- Hk, <- Hkey.
      * destruct (enq_at_old i y Hne Hy) as (y' & Hy' & E). apply content_inv in E as (E1 & _ & _ & E4 & _). exists i, y'. split; [done|]. split; congruence.
    + destruct (enq_at _ _ Hy) as [(-> & E & _)|(Hib & y0 & Hy0 & E)]; apply content_inv in E as (E1 & _ & _ & E4 & _).
      * exists b, x. split; [done|]. split; [done|congruence].
      * exists i, y0. split; [done|]. split; congruence.
Qed.
End enqueue.

(** ** Waiting for the disk *)
Lemma disk_run_bind {A B} (f : A → M bio B) : ∀ o n a c s, disk_run n o = Ok a c s → ∃ m, disk_run n (obind o f) = disk_run m (f a c s).
Proof.
  induction o as [a0 c0 s0|m0 s0| | |ch lk c0 s0 k IH]; intros n a c s; simpl; try done.
  - intros [= -> -> ->]. by exists n.
  - case_decide; [|done]. destruct n as [|n]; [done|]. destruct (interrupt s0); try done. apply IH.
Qed.

Lemma ide_wait_run b q2 c x t d : LkIde ∈ held c → disk t !! key x = Some d →
  ∀ q1 n k w s, repr (q1 ++ b :: q2) s t → (length q1 < n)%nat → (S (length q1) < k)%nat → buf_at s b x →
  ∃ s' w' x', disk_run n (ide_wait k b (KCtx (held c) w) s) = Ok () (KCtx (held c) w') s' ∧ repr q2 s' t ∧
    buf_at s' b x' ∧ content x' = (true, true, false, key x, d).
Proof.
  intros Hc Hd. induction q1 as [|h q1 IH]; intros [|n] [|k] w s R Hn Hk Hx; simpl in Hn, Hk; try lia; cbn [ide_wait].
  all: destruct (bi_pend _ _ (rp_inv _ _ _ R) b) as (x0 & Hx0 & Hbusy & Hp); [set_solver|].
  all: assert (x0 = x) as -> by (destruct Hx, Hx0; congruence).
  all: rewrite (get_buf_bind _ _ _ x) by apply Hx.
  all: assert (B_VALID x && negb (B_DIRTY x) = false) as -> by (destruct Hp as [-> | ->]; [done|apply andb_false_r]).
  all: unfold sleep; unfold mbind, M_bind; rewrite decide_True by done; cbn [obind disk_run held]; rewrite decide_True by done.
  - destruct (interrupt_run b q2 s t R) as (y & d' & s1 & Hy & Hd' & -> & R1 & Hb1 & _). assert (y = x) as -> by (destruct Hx, Hy; congruence).
    assert (d' = d) as -> by congruence. destruct k as [|k]; [lia|]. cbn [ide_wait]. rewrite (get_buf_bind _ _ _ (done_buf x d)) by apply Hb1. simpl.
    exists s1, [], (done_buf x d). split; [done|]. split; [done|]. split; [done|]. unfold content. simpl. by rewrite Hbusy.
  - destruct (interrupt_run h (q1 ++ b :: q2) s t R) as (y & d' & s1 & Hy & Hd' & -> & R1 & Hb1 & Hsame). apply IH; [done|lia|lia|].
    destruct Hx as [Hlt Hx]. split; [done|]. rewrite Hsame; [done|]. intros ->. pose proof (bi_nodup _ _ (rp_inv _ _ _ R)) as [Hn0 _]%NoDup_cons. set_solver.
Qed.

Lemma queue_bound q s : binv q s → (length q ≤ NBUF)%nat.
Proof.
  intros I. transitivity (length (seq 0 NBUF)); [|by rewrite length_seq]. apply submseteq_length, NoDup_submseteq; [apply (bi_nodup _ _ I)|].
  intros i Hi. destruct (bi_pend _ _ I i Hi) as (x & [Hlt _] & _). apply elem_of_seq. lia.
Qed.

Lemma upd_upd b x y s : upd b x (upd b y s) = upd b x s.
Proof. unfold upd. simpl. by rewrite list_insert_insert_eq. Qed.

Lemma ide_rw_run fuel c q s b x x' : binv q s → buf_at s b x → b ∉ q → B_BUSY x' = true → (B_VALID x' = false ∨ B_DIRTY x' = true) → LkIde ∉ held c →
  ide_rw fuel b c (upd b x' s) = (ide_wait fuel b;; release LkIde) (KCtx (LkIde :: held c) (woken c)) (enq b x' q s).
Proof.
  intros I Hb Hbq Hbusy Hp Hc. pose proof Hb as [Hlt Hx]. assert (Hl : (b < length (bufs s))%nat) by by eapply lookup_lt_Some.
  pose proof (bi_ready _ _ I) as Hr. destruct Hr as (R1 & R2 & R3 & R4).
  unfold ide_rw. rewrite (get_buf_bind _ _ _ x') by (by apply lookup_upd). rewrite kget_bind, Hbusy. cbn [negb].
  assert (B_VALID x' && negb (B_DIRTY x') = false) as -> by (destruct Hp as [-> | ->]; [done|apply andb_false_r]).
  rewrite decide_False by (intros [_ E]; simpl in E; congruence).
  rewrite (bind_Ok _ _ _ _ _ _ _ (acquire_ok LkIde c _ Hc)). rewrite (at_buf_bind _ _ _ x') by (by apply lookup_upd).
  rewrite kget_bind, upd_upd. set (s1 := upd b (set_qnext None x') s).
  assert (C1 : chain (bufs s1) (ide_queue s1) q).
  { simpl. eapply chain_frame; [apply (bi_chain _ _ I)|]. intros i y Hi Hy. exists y. rewrite list_lookup_insert_ne; [done|]. by intros ->. }
  unfold mbind at 1, M_bind at 1. rewrite (ide_append_run b _ s1 q _ None _ C1) by (pose proof (queue_bound _ _ I); lia).
  assert (Hnext : ∀ s2, (match last q with Some m => at_buf m (set_qnext (Some b)) (KCtx (LkIde :: held c) (woken c)) s1 | None => Ok () (KCtx (LkIde :: held c) (woken c)) (set_queue (Some b) s1) end) = Ok () (KCtx (LkIde :: held c) (woken c)) s2 →
    (if decide (ide_queue s2 = Some b) then ide_start_request (Some b) else mret ()) (KCtx (LkIde :: held c) (woken c)) s2 = Ok () (KCtx (LkIde :: held c) (woken c)) (enq b x' q s)).
  { unfold enq. destruct (last q) as [m|] eqn:Em.
    - destruct (last_in q s b x x I Hb Hbq (conj eq_refl eq_refl) m Em) as (Hm & Hmb & y & [_ Hy] & _). rewrite Hy. rewrite (at_buf_run _ _ _ y) by (by unfold s1; rewrite lookup_upd_ne).
      intros s2 [= <-]. rewrite decide_False; [done|]. simpl. rewrite (chain_head _ _ _ (bi_chain _ _ I)). destruct q; simplify_eq/=. set_solver.
    - intros s2 [= <-]. rewrite decide_True by done. by rewrite (start_request_run _ _ b (set_qnext None x')) by (try done; by apply lookup_upd). }
  destruct (last q) as [m|] eqn:Em.
  - destruct (last_in q s b x x I Hb Hbq (conj eq_refl eq_refl) m Em) as (Hm & Hmb & y & [_ Hy] & _). specialize (Hnext _ (at_buf_run _ s1 m y _ ltac:(by unfold s1; rewrite lookup_upd_ne))).
    rewrite (at_buf_run _ s1 m y) by (by unfold s1; rewrite lookup_upd_ne). cbn [obind]. rewrite kget_bind. by rewrite (bind_Ok _ _ _ _ _ _ _ Hnext).
  - specialize (Hnext _ eq_refl). cbn [obind]. rewrite kget_bind. by rewrite (bind_Ok _ _ _ _ _ _ _ Hnext).
Qed.
End repr.
