(* ===== verification/BioRefine.v ===== *)
(** * The buffer cache refines the file system's view of it: the operations

    [sim] compares a run of the cache's code with one of the file system's: they
    return, panic or sleep alike, in related states.  [bread_refines],
    [bwrite_refines] and [brelse_refines] are the three operations; [disk_run] lets the
    disk finish the requests in the queue while an operation waits for its own. *)
From S2P Require Import Prelude Kernel ProcData FsDisk Fs Bio BioInv.
Local Open Scope Z_scope.

Fixpoint sim {A B} (R : bio → fsst → Prop) (Q : A → B → bio → fsst → Prop) (o : outcome bio A) (o' : outcome fsst B) : Prop :=
  match o, o' with
  | _, Fault => True
  | Ok a c s, Ok b c' t => held c = held c' ∧ R s t ∧ Q a b s t
  | Panic m _, Panic m' _ => m = m'
  | Diverge, Diverge => True
  | Sleep ch lk c s k, Sleep ch' lk' c' t k' =>
      ch = ch' ∧ lk = lk' ∧ held c = held c' ∧ R s t ∧ ∀ s' t', R s' t' → sim R Q (k s') (k' t')
  | _, _ => False
  end.

Section refine.
Context (D : Z * Z → Prop) (HD : ∀ k, D k → addressable k).
Notation repr := (repr D).
Notation binv := (binv D).

(** ** The two scans *)
Definition has_block (dev sector : Z) (x : buf) : bool :=
  (B_BUSY x || B_VALID x) && bool_decide (b_dev x = dev ∧ b_sector x = sector).
Lemma has_block_spec dev sector x : has_block dev sector x = true ↔ live x ∧ key x = (dev, sector).
Proof.
  unfold has_block, live, key. rewrite andb_true_iff, orb_true_iff, bool_decide_eq_true.
  split; intros [H E]; (split; [done|]); [destruct E; congruence|by injection E].
Qed.

Lemma find_cached_run dev sector c s : ∀ l k, linked (bufs s) (l ++ [HEAD]) → (length l < k)%nat →
  (∀ i, i ∈ l → ∃ x, buf_at s i x) →
  ∃ r, find_cached k dev sector (default HEAD (head l)) c s = Ok r c s ∧
    match r with
    | Some b => ∃ x, buf_at s b x ∧ live x ∧ key x = (dev, sector)
    | None => ∀ i x, i ∈ l → buf_at s i x → live x → key x ≠ (dev, sector)
    end.
Proof.
  induction l as [|b l IH]; intros [|k] L Hk Hin; simpl in Hk; try lia.
  - exists None. split; [|set_solver]. cbn [find_cached head default]. by rewrite decide_True.
  - cbn [find_cached head default from_option id]. destruct (Hin b) as [x Hx]; [set_solver|]. pose proof Hx as [Hlt Hbx].
    rewrite decide_False by (unfold HEAD; lia). rewrite (get_buf_bind _ _ _ x) by done. fold (has_block dev sector x).
    destruct (has_block dev sector x) eqn:E.
    + exists (Some b). split; [done|]. exists x. apply has_block_spec in E. done.
    + destruct (IH k) as (r & Er & Hr); [|lia|set_solver|].
      { destruct l; [done|]. simpl in L. by destruct L. }
      assert (En : b_next x = default HEAD (head l)).
      { destruct l; simpl in L; destruct L as [[L _] _]; rewrite Hbx in L; by injection L. }
      exists r. rewrite En. split; [done|]. destruct r as [r|]; [done|]. intros i y [->|Hi]%elem_of_cons Hy Ly Ek; [|by eapply Hr].
      assert (y = x) as -> by (destruct Hy; congruence). by rewrite (proj2 (has_block_spec dev sector x)) in E.
Qed.

Lemma find_free_run c s : ∀ l k, linked (bufs s) (HEAD :: l) → (length l < k)%nat → (∀ i, i ∈ l → ∃ x, buf_at s i x) →
  ∃ r, find_free_buf k (default HEAD (last l)) c s = Ok r c s ∧
    match r with
    | Some b => ∃ x, buf_at s b x ∧ B_BUSY x = false
    | None => ∀ i x, i ∈ l → buf_at s i x → B_BUSY x = true
    end.
Proof.
  intros l. induction l as [|b l IH] using rev_ind; intros [|k] L Hk Hin; rewrite ?length_app in Hk; simpl in Hk; try lia.
  - exists None. split; [|set_solver]. cbn [find_free_buf last default]. by rewrite decide_True.
  - rewrite last_snoc. cbn [find_free_buf default from_option id]. destruct (Hin b) as [x Hx]; [set_solver|]. pose proof Hx as [Hlt Hbx].
    rewrite decide_False by (unfold HEAD; lia). rewrite (get_buf_bind _ _ _ x) by done. destruct (B_BUSY x) eqn:E; [|by exists (Some b); eauto].
    assert (Lp : linked (bufs s) (HEAD :: l) ∧ b_prev x = default HEAD (last l)).
    { destruct l as [|z l _] using rev_ind; [simpl in L; destruct L as [[_ L] _]; rewrite Hbx in L; split; [done|by injection L]|].
      rewrite last_snoc. rewrite <- app_assoc in L. change (linked (bufs s) ((HEAD :: l) ++ [z; b])) in L. apply linked_app in L as (L & [_ Lb] & _). rewrite Hbx in Lb.
      split; [done|by injection Lb]. }
    destruct Lp as [Ll ->]. destruct (IH k) as (r & Er & Hr); [done|lia|set_solver|]. exists r. split; [done|]. destruct r as [r|]; [done|].
    intros i y [Hi|Hi]%elem_of_app Hy; [by eapply Hr|]. assert (i = b) as -> by set_solver. assert (y = x) as -> by (destruct Hy; congruence). done.
Qed.

(** Both scans on the whole list. *)
Lemma scans q s dev sector c : binv q s →
  ∃ h, bufs s !! HEAD = Some h ∧
  (∃ r, find_cached (S NBUF) dev sector (b_next h) c s = Ok r c s ∧
    match r with
    | Some b => ∃ x, buf_at s b x ∧ live x ∧ key x = (dev, sector)
    | None => ∀ i x, buf_at s i x → live x → key x ≠ (dev, sector)
    end) ∧
  (∃ r, find_free_buf (S NBUF) (b_prev h) c s = Ok r c s ∧
    match r with
    | Some b => ∃ x, buf_at s b x ∧ B_BUSY x = false
    | None => ∀ i x, buf_at s i x → B_BUSY x = true
    end).
Proof.
  intros I. destruct (bi_lru _ _ _ I) as [order L]. pose proof (lru_NoDup _ _ L) as [_ Fo]. destruct L as [L P].
  destruct (lookup_lt_is_Some_2 (bufs s) HEAD) as [h Hh]; [rewrite (bi_len _ _ _ I); unfold HEAD; lia|]. exists h. split; [done|].
  assert (Hlen : length order = NBUF) by (by rewrite P, length_seq).
  assert (In : ∀ i, (i < NBUF)%nat → i ∈ order) by (intros i Hi; rewrite P; apply elem_of_seq; lia).
  assert (Ex : ∀ i, i ∈ order → ∃ x, buf_at s i x).
  { intros i Hi. rewrite Forall_forall in Fo. specialize (Fo i Hi). destruct (lookup_lt_is_Some_2 (bufs s) i) as [x Hx]; [rewrite (bi_len _ _ _ I); lia|].
    by exists x. }
  assert (En : b_next h = default HEAD (head order)).
  { destruct order; simpl in L; destruct L as [[L _] _]; rewrite Hh in L; by injection L. }
  assert (Ep : linked (bufs s) (HEAD :: order) ∧ b_prev h = default HEAD (last order)).
  { destruct order as [|z order _] using rev_ind; [simpl in L; destruct L as [[_ L] _]; rewrite Hh in L; split; [done|by injection L]|].
    rewrite last_snoc. rewrite <- app_assoc in L. change (linked (bufs s) ((HEAD :: order) ++ [z; HEAD])) in L. apply linked_app in L as (L & [_ Lb] & _). rewrite Hh in Lb.
    split; [done|by injection Lb]. }
  destruct Ep as [Ll Ep]. split.
  - rewrite En. destruct (find_cached_run dev sector c s order (S NBUF)) as (r & Er & Hr); [destruct order; [done|]; simpl in L; by destruct L|lia|done|].
    exists r. split; [done|]. destruct r; [done|]. intros i x Hx. apply (Hr i x); [apply In, Hx|done].
  - rewrite Ep. destruct (find_free_run c s order (S NBUF)) as (r & Er & Hr); [done|lia|done|].
    exists r. split; [done|]. destruct r; [done|]. intros i x Hx. apply (Hr i x); [apply In, Hx|done].
Qed.

(** ** Counting the busy buffers *)
Definition key_of (s : bio) (i : nat) : Z * Z := default (0, 0) (key <$> bufs s !! i).
Lemma key_of_at s i x : buf_at s i x → key_of s i = key x.
Proof. intros [_ H]. unfold key_of. by rewrite H. Qed.

Lemma buf_exists q s i : binv q s → (i < NBUF)%nat → ∃ x, buf_at s i x.
Proof. intros I Hi. destruct (lookup_lt_is_Some_2 (bufs s) i) as [x Hx]; [rewrite (bi_len _ _ _ I); lia|]. by exists x. Qed.

Lemma all_busy q s t : repr q s t → (∀ i x, buf_at s i x → B_BUSY x = true) → (NBUF ≤ length (bbusy t))%nat.
Proof.
  intros R H. pose proof (rp_inv _ _ _ _ R) as I.
  assert (E : length (key_of s <$> seq 0 NBUF) = NBUF) by (by rewrite length_fmap, length_seq).
  rewrite <- E at 1. apply submseteq_length, NoDup_submseteq.
  - apply NoDup_fmap_2_strong; [|apply NoDup_seq]. intros i j Hi%elem_of_seq Hj%elem_of_seq Ek.
    destruct (buf_exists q s i I) as [x Hx]; [lia|]. destruct (buf_exists q s j I) as [y Hy]; [lia|].
    rewrite (key_of_at s i x Hx), (key_of_at s j y Hy) in Ek. eapply (bi_keys _ _ _ I i j x y); [done|done| | |done]; left; by eapply H.
  - intros k (i & -> & Hi%elem_of_seq)%list_elem_of_fmap. destruct (buf_exists q s i I) as [x Hx]; [lia|].
    apply (rp_busy _ _ _ _ R). exists i, x. split; [done|]. split; [by eapply H|by rewrite (key_of_at s i x)].
Qed.

Lemma some_free q s t b x : repr q s t → buf_at s b x → B_BUSY x = false → (length (bbusy t) < NBUF)%nat.
Proof.
  intros R Hb Hf. assert (Hin : b ∈ seq 0 NBUF) by (apply elem_of_seq; destruct Hb; lia).
  apply list_elem_of_split in Hin as (l1 & l2 & E).
  assert (Hl : (length (l1 ++ l2) < NBUF)%nat).
  { pose proof (length_seq NBUF 0) as Hs. rewrite E, !length_app in Hs. simpl in Hs. rewrite length_app. lia. }
  eapply Nat.le_lt_trans; [|exact Hl]. rewrite <- (length_fmap (key_of s)). apply submseteq_length, NoDup_submseteq; [apply (rp_nodup _ _ _ _ R)|].
  intros k (i & y & Hy & Hby & <-)%(rp_busy _ _ _ _ R). rewrite <- (key_of_at s i y Hy). apply list_elem_of_fmap_2.
  assert (Hi : i ∈ seq 0 NBUF) by (apply elem_of_seq; destruct Hy; lia). rewrite E in Hi.
  assert (i ≠ b) by (intros ->; destruct Hy, Hb; congruence). set_solver.
Qed.

(** ** bget *)
Lemma take_cached q s t b x dev sector : repr q s t → buf_at s b x → live x → key x = (dev, sector) → B_BUSY x = false →
  repr q (upd b (set_flags true (B_VALID x) (B_DIRTY x) x) s) (set_bbusy ((dev, sector) :: bbusy t) t) ∧ b ∉ q ∧ (dev, sector) ∉ bbusy t.
Proof.
  intros R Hb Lx Ek Hbusy. pose proof (rp_inv _ _ _ _ R) as I.
  assert (Hbq : b ∉ q).
  { intros Hq. destruct (bi_pend _ _ _ I b Hq) as (y & [_ Hy] & ? & _). destruct Hb. congruence. }
  assert (Hk : (dev, sector) ∉ bbusy t).
  { intros (i & y & Hy & Hby & Hky)%(rp_busy _ _ _ _ R). assert (i = b) as -> by (eapply (bi_keys _ _ _ I i b y x); [done|done|by left|done|congruence]).
    destruct Hy, Hb. congruence. }
  split; [|done]. eapply (repr_upd D HD); [done|done|done|done|done| | | | |done| |].
  - simpl. by eapply (not_dirty D).
  - intros _. exact (bi_addr _ _ _ I b x Hb Lx).
  - intros _ i y Hne Hy Ly Eky. apply Hne. exact (bi_keys _ _ _ I i b y x Hy Hb Ly Lx Eky).
  - done.
  - simpl. apply NoDup_cons. split; [done|apply (rp_nodup _ _ _ _ R)].
  - intros k. simpl. rewrite elem_of_cons, (rp_busy _ _ _ _ R). split.
    + intros [->|(i & y & Hy & Hby & Hky)]; [by left|right]. exists i, y. split; [|done]. intros ->. destruct Hy, Hb. congruence.
    + intros [[_ <-]|(i & y & _ & ?)]; [by left|right]. by exists i, y.
Qed.

Lemma take_fresh q s t b x dev sector : repr q s t → buf_at s b x → B_BUSY x = false → D (dev, sector) →
  (∀ i x, buf_at s i x → live x → key x ≠ (dev, sector)) →
  repr q (upd b (set_key dev sector (set_flags true false false x)) s) (set_bbusy ((dev, sector) :: bbusy t) t) ∧ b ∉ q ∧ (dev, sector) ∉ bbusy t.
Proof.
  intros R Hb Hbusy HDk Hno. pose proof (rp_inv _ _ _ _ R) as I.
  assert (Hbq : b ∉ q).
  { intros Hq. destruct (bi_pend _ _ _ I b Hq) as (y & [_ Hy] & ? & _). destruct Hb. congruence. }
  assert (Hk : (dev, sector) ∉ bbusy t).
  { intros (i & y & Hy & Hby & Hky)%(rp_busy _ _ _ _ R). apply (Hno i y); [done|by left|done]. }
  split; [|done]. eapply (repr_upd D HD); [done|done|done|done|done|done| | | |done| |].
  - done.
  - intros _ i y Hne Hy Ly. by apply (Hno i y).
  - done.
  - simpl. apply NoDup_cons. split; [done|apply (rp_nodup _ _ _ _ R)].
  - intros k. simpl. rewrite elem_of_cons, (rp_busy _ _ _ _ R). split.
    + intros [->|(i & y & Hy & Hby & Hky)]; [by left|right]. exists i, y. split; [|done]. intros ->. destruct Hy, Hb. congruence.
    + intros [[_ <-]|(i & y & _ & ?)]; [by left|right]. by exists i, y.
Qed.

(** ** A request, until it is done *)
Lemma ide_rw_done fuel c q s t b x x' d : (S NBUF < fuel)%nat → repr q s t → buf_at s b x → b ∉ q →
  b_next x' = b_next x ∧ b_prev x' = b_prev x → B_BUSY x = true ∧ B_BUSY x' = true → key x' = key x →
  (B_VALID x' = false ∨ B_DIRTY x' = true) → LkIde ∉ held c →
  let t' := if B_DIRTY x' then Fs.set_disk (<[key x := b_data x']> (disk t)) t else t in
  disk t' !! key x = Some d →
  ∃ s' w y, disk_run NBUF (ide_rw fuel b c (upd b x' s)) = Ok () (KCtx (held c) w) s' ∧ repr [] s' t' ∧
    buf_at s' b y ∧ content y = (true, true, false, key x, d).
Proof.
  intros Hf R Hb Hbq Hlinks Hbusy Hkey Hp Hc t' Hd. pose proof (rp_inv _ _ _ _ R) as I.
  pose proof (enq_repr D HD q s b x x' I Hb Hbq Hlinks Hbusy Hkey Hp t R) as R'. fold t' in R'.
  rewrite (ide_rw_run D HD fuel c q s b x x' I Hb Hbq) by (try apply Hbusy; done).
  pose proof (queue_bound D _ _ (rp_inv _ _ _ _ R')) as Hq. rewrite length_app in Hq. simpl in Hq.
  pose proof (enq_at_b D HD q s b x x' I Hb Hbq Hlinks) as Hb'.
  destruct (ide_wait_run D HD b [] (KCtx (LkIde :: held c) (woken c)) (set_qnext None x') t' d) with (q1 := q) (n := NBUF) (k := fuel) (w := woken c) (s := enq b x' q s)
    as (s' & w' & y & E & R'' & Hy & Cy); [simpl; left|by change (key (set_qnext None x')) with (key x'); rewrite Hkey|done|lia|lia|done|].
  cbn [held] in E. destruct (disk_run_bind (λ _, release LkIde) _ _ _ _ _ E) as [m Em]. exists s', w', y. split_and!; [|done|done|].
  - unfold mbind, M_bind. rewrite Em. cbn beta. rewrite release_ok by done. done.
  - rewrite Cy. change (key (set_qnext None x')) with (key x'). by rewrite Hkey.
Qed.

(** ** bread *)
Definition related (s : bio) (t : fsst) : Prop := ∃ q, repr q s t.
(** [b] is the locked, up-to-date buffer of block [k], with contents [d]. *)
Definition holds (k : Z * Z) (b : nat) (d : block) (s : bio) : Prop :=
  ∃ x, buf_at s b x ∧ content x = (true, true, false, k, d).

Lemma read_rest fuel dev sector h w1 w2 q s t b x : (S NBUF < fuel)%nat → LkBufTable ∉ h → LkIde ∉ h →
  repr q s t → buf_at s b x → b ∉ q → B_BUSY x = true → key x = (dev, sector) → (B_VALID x = true → platter s !! key x = Some (b_data x)) →
  sim related (λ b d s _, holds (dev, sector) b d s)
    (disk_run NBUF ((x ← get_buf b; (if B_VALID x then mret () else ide_rw fuel b);; mret b) (KCtx h w1) s))
    ((release LkBufTable;; s ← kget; deref (disk s !! (dev, sector))) (KCtx (LkBufTable :: h) w2) t).
Proof.
  intros Hf Hh1 Hh2 R Hb Hbq Hbusy Ek Hdata. pose proof (rp_inv _ _ _ _ R) as I. pose proof (not_dirty D q s b x I Hb Hbq) as Hdx.
  rewrite (bind_Ok _ _ _ _ _ _ _ (release_ok LkBufTable h w2 t Hh1)), kget_bind.
  assert (HDk : D (dev, sector)) by (rewrite <- Ek; eapply (bi_addr _ _ _ I b x); [done|by left]).
  destruct (rp_dom _ _ _ _ R _ HDk) as [d Hd]. rewrite Hd. cbn [deref].
  assert (Hdp : platter s !! (dev, sector) = Some d).
  { rewrite <- Hd. symmetry. apply (rp_rest _ _ _ _ R). intros i y Hy Hdy Eky. assert (i = b) as ->; [|destruct Hy, Hb; congruence].
    destruct (bi_pend _ _ _ I i) as (y0 & [_ Hy0] & Hby & _); [by eapply bi_dirty|].
    apply (bi_keys _ _ _ I i b y x); [done|done|left; destruct Hy; congruence|by left|congruence]. }
  rewrite (get_buf_bind _ _ _ x) by apply Hb. destruct (B_VALID x) eqn:Ev.
  - simpl. split; [done|]. split; [by exists q|]. exists x. split; [done|]. unfold content. specialize (Hdata eq_refl).
    rewrite Hbusy, Ev, Hdx, Ek. rewrite Ek, Hdp in Hdata. by injection Hdata as ->.
  - assert (Es : upd b x s = s) by (unfold upd; rewrite list_insert_id by apply Hb; by destruct s).
    destruct (ide_rw_done fuel (KCtx h w1) q s t b x x d) as (s' & w & y & E & R' & Hy & Cy); try done; [by left|rewrite Hdx, Ek; done|].
    rewrite Es in E. destruct (disk_run_bind (λ _, mret b) _ _ _ _ _ E) as [m Em]. unfold mbind, M_bind. rewrite Em. simpl.
    rewrite Hdx in R'. split; [done|]. split; [by exists []|]. exists y. rewrite Ek in Cy. done.
Qed.

Lemma bget_rest fuel dev sector h : (S NBUF < fuel)%nat → D (dev, sector) → LkBufTable ∉ h → LkIde ∉ h → ∀ n w1 w2 s t, related s t →
  sim related (λ b d s _, holds (dev, sector) b d s)
    (disk_run NBUF (obind (bget_loop n dev sector (KCtx (LkBufTable :: h) w1) s)
      (λ b, x ← get_buf b; (if B_VALID x then mret () else ide_rw fuel b);; mret b)))
    (obind (Fs.bget n (dev, sector) (KCtx (LkBufTable :: h) w2) t) (λ _, release LkBufTable;; s ← kget; deref (disk s !! (dev, sector)))).
Proof.
  intros Hf HDk Hh1 Hh2. induction n as [|n IH]; intros w1 w2 s t [q R]; cbn [bget_loop Fs.bget]; [done|].
  pose proof (rp_inv _ _ _ _ R) as I. destruct (scans q s dev sector (KCtx (LkBufTable :: h) w1) I) as (hd & Hhd & (r & Er & Hr) & r2 & Er2 & Hr2).
  rewrite (get_buf_bind _ _ _ hd) by done. rewrite (bind_Ok _ _ _ _ _ _ _ Er), kget_bind.
  destruct r as [b|]; [destruct Hr as (x & Hx & Lx & Ek)|].
  - rewrite (get_buf_bind _ _ _ x) by apply Hx. destruct (B_BUSY x) eqn:Eb.
    + rewrite (decide_True (P := (dev, sector) ∈ bbusy t)) by (apply (rp_busy _ _ _ _ R); by exists b, x).
      unfold sleep, mbind, M_bind. rewrite !decide_True by (simpl; left). cbn [obind disk_run]. rewrite decide_False by done. cbn [sim].
      split_and!; [done|done|done|by exists q|]. intros s' t' R'. apply (IH [] []). done.
    + destruct (take_cached q s t b x dev sector R Hx Lx Ek Eb) as (R' & Hbq & Hk). rewrite decide_False by done.
      pose proof (some_free q s t b x R Hx Eb). rewrite decide_False by lia.
      rewrite (at_buf_bind _ _ _ x) by apply Hx. rewrite (bind_Ok _ _ _ _ _ _ _ (release_ok LkBufTable h w1 _ Hh1)). cbn [obind kput mret M_ret].
      eapply read_rest; [done|done|done|exact R'|by eapply buf_at_upd_eq|done|done|done|]. intros _. simpl. rewrite <- (bi_clean _ _ _ I b x Hx Eb); [done|].
      destruct Lx; congruence.
  - assert (Hk : (dev, sector) ∉ bbusy t).
    { intros (i & y & Hy & Hby & Hky)%(rp_busy _ _ _ _ R). apply (Hr i y); [done|by left|done]. }
    rewrite decide_False by done. rewrite (get_buf_bind _ _ _ hd) by done. rewrite (bind_Ok _ _ _ _ _ _ _ Er2).
    destruct r2 as [b|]; [destruct Hr2 as (x & Hx & Eb)|].
    + destruct (take_fresh q s t b x dev sector R Hx Eb HDk Hr) as (R' & Hbq & _). pose proof (some_free q s t b x R Hx Eb). rewrite decide_False by lia.
      rewrite (at_buf_bind _ _ _ x) by apply Hx. rewrite (at_buf_bind _ _ _ (set_flags true false false x)) by (apply (buf_at_upd_eq s b x); done).
      rewrite upd_upd. rewrite (bind_Ok _ _ _ _ _ _ _ (release_ok LkBufTable h w1 _ Hh1)). cbn [obind kput mret M_ret].
      eapply read_rest; [done|done|done|exact R'|by eapply buf_at_upd_eq|done|done|done|done].
    + pose proof (all_busy q s t R Hr2). rewrite decide_True by lia. done.
Qed.

(** [bread] of the buffer cache does what the file system takes it to do: it
    returns a locked buffer of the block with the contents of the disk, sleeps while
    another process has the block, and panics exactly when all buffers are locked.
    The requests that other processes have in the disk queue are served first. *)
Lemma bread_refines fuel c s t dev sector : (S NBUF < fuel)%nat → LkBufTable ∉ held c → LkIde ∉ held c →
  D (dev, sector) → related s t →
  sim related (λ b d s _, holds (dev, sector) b d s)
    (disk_run NBUF (bread fuel dev sector c s)) (Fs.bread fuel dev sector c t).
Proof.
  intros Hf H1 H2 HDk R. unfold bread, bget, Fs.bread.
  assert (E : ∀ (f : nat → M bio nat), ((acquire LkBufTable;; bget_loop fuel dev sector) ≫= f) c s =
    obind (bget_loop fuel dev sector (KCtx (LkBufTable :: held c) (woken c)) s) f).
  { intros f. unfold mbind, M_bind. by rewrite (acquire_ok LkBufTable c s H1). }
  rewrite E. rewrite (bind_Ok _ _ _ _ _ _ _ (acquire_ok LkBufTable c t H1)). by apply bget_rest.
Qed.

(** A caller that changes the data of its buffer and calls [bwrite] changes the
    block on the disk, once the requests before it in the queue are served, and keeps
    the buffer. *)
Lemma bwrite_refines fuel c s t k b d d' : (S NBUF < fuel)%nat → LkIde ∉ held c → related s t → holds k b d s →
  sim related (λ _ _ s _, holds k b d' s)
    (disk_run NBUF ((at_buf b (set_data d');; bwrite fuel b) c s)) (Fs.bwrite k.1 k.2 d' c t).
Proof.
  intros Hf Hc [q R] (x & Hx & Cx). pose proof (rp_inv _ _ _ _ R) as I. unfold content in Cx. injection Cx as Eb Ev Ed Ek1 Ek2.
  assert (Ek : key x = k) by (by destruct k; simpl in *; subst).
  rewrite (at_buf_bind _ _ _ x) by apply Hx. unfold bwrite, Fs.bwrite. rewrite (get_buf_bind _ _ _ (set_data d' x)) by (apply (buf_at_upd_eq s b x); done).
  cbn [B_BUSY set_data]. rewrite Eb. cbn [negb]. rewrite (at_buf_bind _ _ _ (set_data d' x)) by (apply (buf_at_upd_eq s b x); done).
  rewrite upd_upd, kget_bind. assert (Ekk : (k.1, k.2) = key x) by (rewrite Ek; by destruct k).
  rewrite decide_False by (rewrite Ekk; intros H; apply H, (rp_busy _ _ _ _ R); by exists b, x).
  assert (Hbq : b ∉ q).
  { intros Hq. destruct (bi_pend _ _ _ I b Hq) as (y & [_ Hy] & _ & Hp). destruct Hx. assert (y = x) as -> by congruence. destruct Hp; congruence. }
  destruct (ide_rw_done fuel c q s t b x (set_flags (B_BUSY (set_data d' x)) (B_VALID (set_data d' x)) true (set_data d' x)) d')
    as (s' & w & y & E & R' & Hy & Cy); try done; [by right|simpl; by rewrite lookup_insert_eq|].
  rewrite E. simpl. rewrite Ekk. split; [done|]. split; [by exists []|]. exists y. by rewrite <- Ek.
Qed.

Lemma relinked_at s s1 b x : relinked s s1 → buf_at s b x → ∃ x1, buf_at s1 b x1 ∧ content x1 = content x.
Proof.
  intros R [Hlt Hx]. destruct (lookup_lt_is_Some_2 (bufs s1) b) as [x1 Hx1].
  { rewrite (relinked_len s s1 R). by eapply lookup_lt_Some. }
  exists x1. split; [done|]. destruct (relinked_lookup s s1 b x1 R Hx1) as (y & Hy & E). assert (y = x) as -> by congruence.
  destruct x, x1. unfold erase, set_next, set_prev, content, key in *. simpl in *. by injection E as -> -> -> -> -> -> ->.
Qed.

(** The block of a locked buffer that is not in the queue. *)
Lemma clean_block q s t b x : repr q s t → buf_at s b x → B_BUSY x = true → B_DIRTY x = false → disk t !! key x = platter s !! key x.
Proof.
  intros R Hx Hb Hd. pose proof (rp_inv _ _ _ _ R) as I. apply (rp_rest _ _ _ _ R). intros i y Hy Hdy Eky.
  assert (i = b) as ->; [|destruct Hy, Hx; congruence]. destruct (bi_pend _ _ _ I i) as (y0 & [_ Hy0] & Hby & _); [by eapply bi_dirty|].
  apply (bi_keys _ _ _ I i b y x); [done|done|left; destruct Hy; congruence|by left|congruence].
Qed.

Lemma give_back q s t b x : repr q s t → buf_at s b x → B_BUSY x = true → B_VALID x = true → B_DIRTY x = false →
  disk t !! key x = Some (b_data x) →
  repr q (upd b (set_flags false (B_VALID x) (B_DIRTY x) x) s) (set_bbusy (filter (λ k, k ≠ key x) (bbusy t)) t).
Proof.
  intros R Hb Hbusy Hv Hd Hdata. pose proof (rp_inv _ _ _ _ R) as I.
  assert (Hbq : b ∉ q).
  { intros Hq. destruct (bi_pend _ _ _ I b Hq) as (y & [_ Hy] & _ & Hp). destruct Hb. assert (y = x) as -> by congruence. destruct Hp; congruence. }
  assert (Lx : live x) by by left.
  eapply (repr_upd D HD); [done|done|done|done|done|done| | | |done| |].
  - intros _. exact (bi_addr _ _ _ I b x Hb Lx).
  - intros _ i y Hne Hy Ly Eky. apply Hne. exact (bi_keys _ _ _ I i b y x Hy Hb Ly Lx Eky).
  - intros _ _. change (platter s !! key x = Some (b_data x)). rewrite <- Hdata. symmetry. by apply (clean_block q s t b x).
  - simpl. apply NoDup_filter, (rp_nodup _ _ _ _ R).
  - intros k. simpl. rewrite list_elem_of_filter, (rp_busy _ _ _ _ R). split.
    + intros [Hk (i & y & Hy & Hby & Hky)]. right. exists i, y. split; [|done]. intros ->. destruct Hy, Hb. congruence.
    + intros [[? _]|(i & y & Hne & Hy & Hby & Hky)]; [done|]. split; [|by exists i, y]. intros ->. apply Hne.
      apply (bi_keys _ _ _ I i b y x); [done|done|by left|done|congruence].
Qed.

(** [brelse] of a buffer whose data is what the disk has gives the block back,
    wakes the processes that wait for a buffer, and makes the buffer the most recently
    used one. *)
Lemma brelse_refines c s t k b d : LkBufTable ∉ held c → related s t → holds k b d s → disk t !! k = Some d →
  sim related (λ _ _ s _, ∃ order, lru (bufs s) (b :: order)) (brelse b c s) (Fs.brelse k.1 k.2 c t).
Proof.
  intros Hc [q R] (x & Hx & Cx) Hd. pose proof (rp_inv _ _ _ _ R) as I. unfold content in Cx. injection Cx as Eb Ev Ed Ek1 Ek2.
  assert (Ek : key x = k) by (by destruct k; simpl in *; subst). assert (Ekk : (k.1, k.2) = key x) by (rewrite Ek; by destruct k).
  unfold brelse, Fs.brelse. rewrite (get_buf_bind _ _ _ x) by apply Hx. rewrite Eb. cbn [negb]. rewrite kget_bind, Ekk.
  rewrite decide_False by (intros H; apply H, (rp_busy _ _ _ _ R); by exists b, x).
  rewrite (bind_Ok _ _ _ _ _ _ _ (acquire_ok LkBufTable c s Hc)), (bind_Ok _ _ _ _ _ _ _ (acquire_ok LkBufTable c t Hc)).
  destruct (bi_lru _ _ _ I) as [order L].
  destruct (brelse_link_run (KCtx (LkBufTable :: held c) (woken c)) s order b (bi_len _ _ _ I) L) as (s1 & order' & E1 & Rl & L1).
  { destruct L as [_ P]. rewrite P. apply elem_of_seq. destruct Hx. lia. }
  rewrite (bind_Ok _ _ _ _ _ _ _ E1). pose proof (repr_relink D HD q s s1 t R Rl (ex_intro _ _ L1)) as R1.
  destruct (relinked_at s s1 b x Rl Hx) as (x1 & Hx1 & Cx1). apply content_inv in Cx1 as (C1 & C2 & C3 & C4 & C5 & _).
  rewrite (at_buf_bind _ _ _ x1) by apply Hx1. unfold wakeup, kput. unfold mbind at 1 2 3, M_bind at 1 2 3. cbn [obind held woken].
  unfold mbind, M_bind. cbn [obind held woken]. rewrite !release_ok by done. cbn [sim held]. split; [done|]. rewrite <- C4. split.
  - exists q. apply give_back; [done|done|congruence..]. 
  - exists order'. simpl. eapply lru_upd; [apply Hx1|done|done|done].
Qed.

(** C4 The buffer cache and the disk driver do what the file system takes them to do,
    from any state with any requests of other processes in the disk queue, if the disk
    serves the queue: [bread] returns a locked buffer of the block with the contents of
    the disk, sleeps while another process has the block, and panics exactly when all
    buffers are locked; changing the data of a locked buffer and calling [bwrite] changes
    the block on the disk; [brelse] gives the block back and makes its buffer the most
    recently used one. *)
Theorem bio_refines fuel c s t : (S NBUF < fuel)%nat → LkBufTable ∉ held c → LkIde ∉ held c → related s t →
  (∀ dev sector, D (dev, sector) →
    sim related (λ b d s _, holds (dev, sector) b d s)
      (disk_run NBUF (bread fuel dev sector c s)) (Fs.bread fuel dev sector c t)) ∧
  (∀ k b d d', holds k b d s →
    sim related (λ _ _ s _, holds k b d' s)
      (disk_run NBUF ((at_buf b (set_data d');; bwrite fuel b) c s)) (Fs.bwrite k.1 k.2 d' c t)) ∧
  (∀ k b d, holds k b d s → disk t !! k = Some d →
    sim related (λ _ _ s _, ∃ order, lru (bufs s) (b :: order)) (brelse b c s) (Fs.brelse k.1 k.2 c t)).
Proof.
  intros Hf H1 H2 R. split_and!.
  - intros dev sector HDk. by apply bread_refines.
  - intros k b d d' Hh. by eapply bwrite_refines.
  - intros k b d Hh Hd. by eapply brelse_refines.
Qed.

(** ** binit *)
Lemma binit_loop_run c s0 : ∀ l m s, relinked s0 s → length (bufs s0) = S NBUF → NoDup (HEAD :: l ++ m) → Forall (λ x, x < NBUF)%nat (l ++ m) →
  linked (bufs s) (HEAD :: m ++ [HEAD]) →
  ∃ s', binit_loop l c s = Ok () c s' ∧ relinked s0 s' ∧ linked (bufs s') (HEAD :: (reverse l ++ m) ++ [HEAD]).
Proof.
  induction l as [|b l IH]; intros m s R Hl Nd Fo L; cbn [binit_loop]; [by exists s|].
  assert (P : b :: l ++ m ≡ₚ l ++ b :: m) by apply Permutation_middle.
  destruct (push_front_run c s m b) as (s1 & E & R1 & L1); [by rewrite (relinked_len s0 s)| | |done|].
  - apply NoDup_cons in Nd as [Nh Nd]. apply NoDup_cons. split; [set_solver|]. rewrite P in Nd. by apply NoDup_app in Nd as (_ & _ & ?).
  - simpl in Fo. rewrite P in Fo. by apply Forall_app in Fo as [_ ?].
  - assert (R' : relinked s0 s1).
    { destruct R as [E0 R], R1 as [E1 R1]. split; [rewrite E1, E0; by destruct s0|congruence]. }
    destruct (IH (b :: m) s1 R') as (s2 & E2 & R2 & L2); [done| | |done|].
    + by rewrite <- P.
    + by rewrite <- P.
    + exists s2. split; [by rewrite (bind_Ok _ _ _ _ _ _ _ E)|]. split; [done|]. rewrite reverse_cons, <- (app_assoc _ [b]). done.
Qed.

Lemma binit_run c s : length (bufs s) = S NBUF → ∃ s', binit c s = Ok () c s' ∧ relinked s s' ∧ lru (bufs s') (reverse (seq 0 NBUF)).
Proof.
  intros Hl. destruct (lookup_lt_is_Some_2 (bufs s) HEAD) as [h Hh]; [unfold HEAD; lia|].
  assert (HH : (HEAD < length (bufs s))%nat) by by eapply lookup_lt_Some.
  set (s1 := upd HEAD (set_next HEAD (set_prev HEAD h)) s).
  assert (R1 : relinked s s1) by (by eapply (relinked_upd s s); [apply relinked_refl| |]).
  destruct (binit_loop_run c s (seq 0 NBUF) [] s1 R1 Hl) as (s' & E & R & L).
  - rewrite app_nil_r. apply NoDup_cons. split; [|apply NoDup_seq]. intros H%elem_of_seq. unfold HEAD in H. lia.
  - rewrite app_nil_r. apply Forall_forall. intros x Hx%elem_of_seq. lia.
  - simpl. split; [|done]. unfold link. simpl. by rewrite list_lookup_insert_eq.
  - exists s'. split; [|split; [done|split; [by rewrite app_nil_r in L|apply reverse_Permutation]]].
    unfold binit. rewrite (at_buf_bind _ _ _ h) by done. rewrite (at_buf_bind _ _ _ (set_prev HEAD h)) by (by apply lookup_upd). by rewrite upd_upd.
Qed.

Lemma binit_related c s t : length (bufs s) = S NBUF →
  Forall (λ x, B_BUSY x = false ∧ B_VALID x = false ∧ B_DIRTY x = false) (bufs s) →
  ide_queue s = None → ready s → disk t = platter s → bbusy t = [] → (∀ k, D k → is_Some (platter s !! k)) →
  ∃ s', binit c s = Ok () c s' ∧ related s' t ∧ lru (bufs s') (reverse (seq 0 NBUF)).
Proof.
  intros Hl Hz Hq Hr Hd Hb HDs. destruct (binit_run c s Hl) as (s' & E & R & L). exists s'. split; [done|]. split; [|done].
  assert (Z : ∀ i x, bufs s' !! i = Some x → B_BUSY x = false ∧ B_VALID x = false ∧ B_DIRTY x = false).
  { intros i x Hx. destruct (relinked_lookup s s' i x R Hx) as (y & Hy & Ey). rewrite Forall_lookup in Hz. specialize (Hz i y Hy).
    destruct x, y. unfold erase, set_next, set_prev in Ey. simpl in *. by injection Ey as -> -> -> -> -> -> ->. }
  pose proof (relinked_len s s' R) as Hl'. destruct R as [Es _]. exists []. split; [split|..].
  - congruence.
  - by eexists.
  - rewrite Es. done.
  - rewrite Es. done.
  - constructor.
  - intros i Hi. by apply elem_of_nil in Hi.
  - done.
  - intros i j x y [_ Hx] _ [Lx|Lx]; destruct (Z i x Hx) as (? & ? & _); congruence.
  - intros i x [_ Hx] [Lx|Lx]; destruct (Z i x Hx) as (? & ? & _); congruence.
  - intros i x [_ Hx] Dx. destruct (Z i x Hx) as (_ & _ & ?). congruence.
  - intros i x [_ Hx] _ Vx. destruct (Z i x Hx) as (_ & ? & _). congruence.
  - intros i x [_ Hx] Dx. destruct (Z i x Hx) as (_ & _ & ?). congruence.
  - intros k _. by rewrite Hd, Es.
  - intros k Hk. rewrite Hd. by apply HDs.
  - rewrite Hb. constructor.
  - intros k. rewrite Hb. split; [intros Hk; by apply elem_of_nil in Hk|]. intros (i & x & [_ Hx] & Bx & _). destruct (Z i x Hx) as (? & _). congruence.
Qed.

(** After [binit] at boot the cache represents the disk with no block locked, and
    the list of buffers holds each buffer once, the last one first. *)
Theorem binit_establishes c s t : length (bufs s) = S NBUF →
  Forall (λ x, B_BUSY x = false ∧ B_VALID x = false ∧ B_DIRTY x = false) (bufs s) →
  ide_queue s = None → ready s → disk t = platter s → bbusy t = [] → (∀ k, D k → is_Some (platter s !! k)) →
  ∃ s', binit c s = Ok () c s' ∧ related s' t ∧ lru (bufs s') (reverse (seq 0 NBUF)).
Proof. apply binit_related. Qed.
End refine.

(** ** An example: a disk with one block *)
Definition boot_buf : buf := Buf false false false 0 0 0 0 None zero_block.
Definition one_block : block := replicate (Z.to_nat BSIZE) 7.
Definition boot_bio (status : Z) : bio :=
  Bio (replicate (S NBUF) boot_buf) None true (Regs 0 0 0 0 0 0 []) status {[(1, 5) := one_block]}.
Definition boot_fs : fsst := FsSt {[(1, 5) := one_block]} [] [] None.
Definition only_block (k : Z * Z) : Prop := k = (1, 5).
Definition no_locks : kctx := KCtx [] [].

Lemma only_block_addressable k : only_block k → addressable k.
Proof. intros ->. unfold addressable. simpl. lia. Qed.
Lemma boot_zero : Forall (λ x, B_BUSY x = false ∧ B_VALID x = false ∧ B_DIRTY x = false) (bufs (boot_bio 0x40)).
Proof. by apply Forall_replicate. Qed.
Lemma boot_ready : ready (boot_bio 0x40).
Proof. done. Qed.
Lemma only_block_there k : only_block k → is_Some (platter (boot_bio 0x40) !! k).
Proof. intros ->. by eexists. Qed.

Lemma binit_establishes_witness : ∃ s, binit no_locks (boot_bio 0x40) = Ok () no_locks s ∧ lru (bufs s) [9; 8; 7; 6; 5; 4; 3; 2; 1; 0]%nat.
Proof.
  destruct (binit_establishes only_block only_block_addressable no_locks (boot_bio 0x40) boot_fs) as (s & E & _ & L);
    [done|apply boot_zero|done|apply boot_ready|done|done|apply only_block_there|].
  by exists s.
Defined.

(** The block is read, for which the disk is asked once. *)
Lemma bio_refines_witness : ∃ s b c' s', binit no_locks (boot_bio 0x40) = Ok () no_locks s ∧
  disk_run NBUF (bread 12 1 5 no_locks s) = Ok b c' s' ∧ holds (1, 5) b one_block s'.
Proof.
  destruct (binit_related only_block only_block_addressable no_locks (boot_bio 0x40) boot_fs) as (s & E & R & _);
    [done|apply boot_zero|done|apply boot_ready|done|done|apply only_block_there|].
  destruct (bio_refines only_block only_block_addressable 12 no_locks s boot_fs) as (B & _ & _); [unfold NBUF; lia|by apply not_elem_of_nil|by apply not_elem_of_nil|done|].
  specialize (B 1 5 eq_refl). exists s. destruct (disk_run NBUF (bread 12 1 5 no_locks s)) as [b c' s'| | | |]; [|by vm_compute in B..].
  exists b, c', s'. split; [done|]. split; [done|]. destruct B as (_ & _ & H). exact H.
Defined.

(** The same with a disk that reports an error. *)
Definition after_run {A} (o : outcome bio A) : bio := match o with Ok _ _ s => s | _ => boot_bio 0x41 end.
Definition err_bio : bio := after_run (binit no_locks (boot_bio 0x41)).
Definition err_read : bio := after_run (disk_run NBUF (bread 12 1 5 no_locks err_bio)).

(** [ide_intr] marks a buffer valid also when the disk reports an error: the read
    below returns a buffer that counts as up to date, and whose data is not the block's
    but what the buffer held before. *)
Theorem read_error_ignored :
  binit no_locks (boot_bio 0x41) = Ok () no_locks err_bio ∧
  disk_run NBUF (bread 12 1 5 no_locks err_bio) = Ok 0%nat no_locks err_read ∧
  (∃ x, bufs err_read !! 0%nat = Some x ∧ content x = (true, true, false, (1, 5), zero_block)) ∧
  platter err_read !! (1, 5) = Some one_block ∧ zero_block ≠ one_block.
Proof.
  split_and!; [by vm_compute|by vm_compute| |by vm_compute|by vm_compute].
  eexists. split; [by vm_compute|by vm_compute].
Qed.
