(* ===== verification/SysErr.v ===== *)
(** * Error paths of the system calls

    Two ways in which a program can make the kernel misbehave, found on the error
    paths of sysfile.c and syscall.c. *)
From S2P Require Import Prelude Kernel ProcData SchedState Sched Kalloc CString FsDisk Fs FsAlloc FsFile FsExamples Mmu KState Syscall FileTable Exec Sysfile FdInv.
Local Open Scope Z_scope.

(** ** open with all descriptors in use *)
Lemma filealloc_run c s f : LkFileTable ∉ held c → (f < NFILE)%nat → NFILE = length (k_files s) →
  (∃ x, k_files s !! f = Some x ∧ f_type x = FD_CLOSED) →
  ∃ g y c', filealloc c s = Ok (Some g) c' (set_k_files s (<[g := y]> (k_files s))) ∧ (g < NFILE)%nat ∧
    LkFileTable ∉ held c' ∧ f_type y = FD_NONE ∧ f_ref y = 1.
Proof.
  intros Hc Hf Hl Hx. unfold filealloc. rewrite (bind_Ok _ _ _ _ _ _ _ (acquire_ok LkFileTable c s Hc)).
  assert (G : ∀ n j, (j + n = NFILE)%nat → (j ≤ f)%nat →
    ∃ g y c', filealloc_loop (seq j n) (KCtx (LkFileTable :: held c) (woken c)) s = Ok (Some g) c' (set_k_files s (<[g := y]> (k_files s))) ∧
      (g < NFILE)%nat ∧ LkFileTable ∉ held c' ∧ f_type y = FD_NONE ∧ f_ref y = 1).
  { induction n as [|n IH]; intros j Hj Hjf; [lia|]. cbn [seq filealloc_loop].
    destruct (lookup_lt_is_Some_2 (k_files s) j) as [x Hxj]; [lia|].
    rewrite (bind_Ok _ _ _ _ x (KCtx (LkFileTable :: held c) (woken c)) s) by (unfold get_file; rewrite kget_bind, Hxj; done).
    case_decide as Ht.
    - exists j, (set_f_ref 1 (set_f_type FD_NONE x)), (KCtx (held c) (woken c)).
      rewrite (bind_Ok _ _ _ _ _ _ _ (at_file_run _ _ _ _ _ Hxj)).
      erewrite bind_Ok by (apply at_file_run; cbn; by apply list_lookup_insert_eq; lia).
      cbn [k_files set_k_files]. rewrite list_insert_insert_eq. rewrite (bind_Ok _ _ _ _ _ _ _ (release_ok LkFileTable _ _ _ Hc)).
      split_and!; [done|lia|done|done|done].
    - apply IH; [lia|]. destruct (decide (j = f)) as [->|]; [|lia]. destruct Hx as (x' & Hx' & ?). congruence. }
  apply (G NFILE 0%nat); lia.
Qed.

Lemma fileclose_none fuel c s f x : LkFileTable ∉ held c → k_files s !! f = Some x → f_type x = FD_NONE → f_ref x = 1 →
  ∃ s', fileclose fuel f c s = Panic "fileclose" s'.
Proof.
  intros Hc Hx Ht Hr. unfold fileclose. rewrite (bind_Ok _ _ _ _ _ _ _ (acquire_ok LkFileTable c s Hc)).
  rewrite (bind_Ok _ _ _ _ x _ s) by (unfold get_file; rewrite kget_bind, Hx; done).
  rewrite decide_False by (rewrite Hr, Ht; intros [?|?]; [lia|done]).
  assert (L : (f < length (k_files s))%nat) by by eapply lookup_lt_Some.
  rewrite (bind_Ok _ _ _ _ _ _ _ (at_file_run _ _ _ _ _ Hx)). rewrite decide_False by lia.
  erewrite bind_Ok by (apply at_file_run; cbn; by apply list_lookup_insert_eq).
  cbn [k_files set_k_files]. rewrite list_insert_insert_eq.
  erewrite bind_Ok by (apply at_file_run; cbn; by apply list_lookup_insert_eq).
  rewrite (bind_Ok _ _ _ _ _ _ _ (release_ok LkFileTable _ _ _ Hc)). rewrite Ht. by eexists.
Qed.

(** C40 A process that has all its descriptors in use and opens a file that can be opened
    stops the kernel: [sys_open] has taken an entry of the file table, finds no free
    descriptor, and calls [fileclose] on the entry, whose type is not set yet. *)
Theorem sys_open_full_panics fuel dev_read dev_write c s p path omode ip c1 s1 p1 f :
  cur_proc s = Some p → argpath (k_bytes s) p 0 = Some path → argint (k_bytes s) p 1 = Some omode →
  on_fs (open_inode fuel dev_read dev_write path omode) c s = Ok (Some ip) c1 s1 →
  LkFileTable ∉ held c1 → cur_proc s1 = Some p1 → Forall is_Some (p_ofile p1) →
  length (k_files s1) = NFILE → (∃ x, k_files s1 !! f = Some x ∧ f_type x = FD_CLOSED) →
  ∃ s', sys_open fuel dev_read dev_write c s = Panic "fileclose" s'.
Proof.
  intros Hp Ha1 Ha2 Ho Hc Hp1 Hfull Hl Hx. assert (Hf : (f < NFILE)%nat) by (rewrite <- Hl; destruct Hx as (x & Hx & _); by eapply lookup_lt_Some).
  unfold sys_open, with_args. rewrite (bind_Ok _ _ _ _ _ _ _ (cp_get_run c s p Hp)), kgets_bind. rewrite Ha1. simpl. rewrite Ha2. simpl.
  rewrite (bind_Ok _ _ _ _ _ _ _ Ho). unfold open_fd.
  destruct (filealloc_run c1 s1 f Hc Hf (eq_sym Hl) Hx) as (g & y & c2 & Ef & Hg & Hc2 & Ty & Ry). rewrite (bind_Ok _ _ _ _ _ _ _ Ef).
  assert (Ed : fdalloc g c2 (set_k_files s1 (<[g := y]> (k_files s1))) = Ok None c2 (set_k_files s1 (<[g := y]> (k_files s1)))).
  { unfold fdalloc. rewrite (bind_Ok _ _ _ _ _ _ _ (cp_get_run c2 (set_k_files s1 (<[g := y]> (k_files s1))) p1 Hp1)).
    assert (E : ∀ l n, Forall is_Some l → fdalloc_scan l n = None).
    { induction l as [|[o|] l IH]; intros n Hl'; [done| |]; apply Forall_cons in Hl' as [Ho' Hl']; [by apply IH|by destruct Ho']. }
    by rewrite E. }
  rewrite (bind_Ok _ _ _ _ _ _ _ Ed).
  destruct (fileclose_none fuel c2 (set_k_files s1 (<[g := y]> (k_files s1))) g y) as [s' E]; [done| |done|done|].
  - cbn. apply list_lookup_insert_eq. lia.
  - exists s'. by rewrite (bind_Panic _ _ _ _ _ _ E).
Qed.

(** The program [open("/", 0)] with sixteen open files. *)
Definition full_proc : proc := set_ofile (set_state (set_tf (set_sz (set_mem proc_zero 8192) 4096)
  (Trapframe 0 0 0 0 0 0 0 0 0 0 0 0 0 0 0 16 0)) RUNNING) (replicate NOFILE (Some 0%nat)).
Definition full_kst : kst :=
  KSt (SchSt [] [full_proc] [Cpu (Some 0%nat) context_zero (Some 0%nat)] [] None 2 [KForkret] 1 0)
    (KMem 0 ∅) (<[8192 + 20 := 64]> (put_bytes (8192 + 64) (lit "/") ∅))
    (File FD_INODE 16 true false 0 (Some 0%nat) 0 :: replicate 99 file_zero)
    (FsSt ∅ [] [Inode 1 1 16 false true T_DIR 0 0 1 0 (replicate 13 0)] None) ∅ 0 (Segs 0 0 []).

Lemma sys_open_full_panics_witness : ∃ s', sys_open 1 no_dev_read no_dev_write (KCtx [] []) full_kst = Panic "fileclose" s'.
Proof.
  eapply (sys_open_full_panics 1 no_dev_read no_dev_write (KCtx [] []) full_kst full_proc (lit "/") 0 0 _ _ full_proc 1);
    [done|by vm_compute|by vm_compute|vm_compute; reflexivity|by apply not_elem_of_nil|done|by repeat constructor|done|by eexists].
Defined.

(** ** read with a negative count *)

(** A process of one page at 8192 that calls [read(0, 4000, -1)]; descriptor 0 is the
    file of inode 0, one block of sevens. *)
Definition neg_mem : mem := wr32 (wr32 (wr32 ∅ (8192 + 20) 0) (8192 + 24) 4000) (8192 + 28) 0xffffffff.
Definition neg_proc : proc := set_ofile (set_state (set_tf (set_sz (set_mem proc_zero 8192) 4096)
  (Trapframe 0 0 0 0 0 0 0 0 0 0 0 0 0 0 0 16 0)) RUNNING) (Some 0%nat :: replicate 15 None).
Definition neg_kst : kst :=
  KSt (SchSt [] [neg_proc] [Cpu (Some 0%nat) context_zero (Some 0%nat)] [] None 2 [KForkret] 1 0)
    (KMem 0 ∅) neg_mem [File FD_INODE 1 true false 0 (Some 0%nat) 0]
    (FsSt {[(1, 5) := replicate 512 7]} [] [Inode 1 1 1 false true T_FILE 0 0 1 512 (5 :: replicate 12 0)] None) ∅ 0 (Segs 0 0 []).

(** [read] with the count -1 passes the check of the buffer although the buffer ends
    96 bytes before the end of the process: the whole block is copied, and the kernel
    writes 416 bytes of memory that belongs to others. *)
Theorem sys_read_negative_escapes : ∃ c s', sys_read 1 no_dev_read (KCtx [] []) neg_kst = Ok 512 c s' ∧
  p_mem neg_proc + p_sz neg_proc = 12288 ∧
  ∀ a, 12288 ≤ a < 12288 + 416 → rd (k_bytes neg_kst) a = 0 ∧ rd (k_bytes s') a = 7.
Proof.
  assert (E : match sys_read 1 no_dev_read (KCtx [] []) neg_kst with
    | Ok r _ s' => bool_decide (r = 512 ∧ Forall (λ a, rd (k_bytes neg_kst) a = 0 ∧ rd (k_bytes s') a = 7) (seqZ 12288 416))
    | _ => false
    end = true) by (by vm_compute).
  destruct (sys_read 1 no_dev_read (KCtx [] []) neg_kst) as [r c s'| | | |]; try done. apply bool_decide_eq_true in E as [-> F].
  exists c, s'. split; [done|]. split; [done|]. intros a Ha. rewrite Forall_forall in F. apply F, elem_of_seqZ. lia.
Qed.
