(* ===== verification/Umalloc.v ===== *)
(** * The user-level allocator (umalloc.c)

    The allocator of Kernighan and Ritchie: the free blocks form a circular list in the
    order of their addresses that starts at the static header [base], and [freep] points
    anywhere into it.  The state is the headers in the memory of the process, by address,
    [freep], and the size of the process, which [sbrk] changes.  An access beyond the size
    of the process is a fault.

    [sbrk] is the system call that Process models; here it is what a program sees of it:
    the kernel panics unless the new size is a multiple of the page size
    (ProcMem.sbrk_unaligned_panics), and otherwise returns the old size or, when the kernel
    finds no memory ([can_grow]), -1.

    The list is shown to be a sequence of free blocks that are sorted and never adjacent,
    and [malloc] and [free] to move exactly the bytes of one block between it and the
    blocks handed out. *)
From S2P Require Import Prelude Kernel ProcData.
Local Open Scope Z_scope.

Record Header := Hdr { h_ptr : Z; h_size : Z }.
Record umem := UMem { hdrs : gmap Z Header; freep : Z; brk : Z }.

Definition set_hdrs v s := UMem v (freep s) (brk s).
Definition set_freep v s := UMem (hdrs s) v (brk s).
Definition set_brk v s := UMem (hdrs s) (freep s) v.

Definition SIZEOF_HEADER : Z := 8.

(** Memory that was never written as a header reads as zero, which is what [sbrk] leaves
    in it; the code uses no header it has not written, but for the pointers of blocks that
    are not in the list, which it copies. *)
Definition hdr_at (s : umem) (p : Z) : Header := default (Hdr 0 0) (hdrs s !! p).
Definition get_hdr (p : Z) : M umem Header :=
  s ← kget;
  if decide (p + SIZEOF_HEADER ≤ brk s) then mret (hdr_at s p) else fault.
Definition put_hdr (p : Z) (h : Header) : M umem unit :=
  s ← kget;
  if decide (p + SIZEOF_HEADER ≤ brk s) then kmodify (λ s, set_hdrs (<[p := h]> (hdrs s)) s) else fault.

(** [p + n] for a [Header *]. *)
Definition plus (p n : Z) : Z := u32 (p + SIZEOF_HEADER * n).

Section umalloc.
(** The address of [base], and when the kernel finds memory for a process of a given size
    to grow to another. *)
Context (base : Z) (can_grow : Z → Z → bool).

Definition sbrk (n : Z) : M umem Z :=
  s ← kget;
  let sz := s32 (brk s + n) in
  if decide (Z.rem sz PAGE ≠ 0 ∨ sz ≤ 0) then panic "kalloc"
  else if can_grow (brk s) sz then kmodify (set_brk sz);; mret (brk s)
  else mret (2 ^ 32 - 1).

Fixpoint free_loop (k : nat) (bp p : Z) : M umem Z :=
  match k with
  | O => diverge
  | S k =>
      h ← get_hdr p;
      if decide (bp > p ∧ bp < h_ptr h) then mret p
      else if decide (p >= h_ptr h ∧ (bp > p ∨ bp < h_ptr h)) then mret p
      else free_loop k bp (h_ptr h)
  end.

(** The two halves of [free] after the search: the block at [bp] takes over the block
    that follows it, and the one before takes over the block at [bp]. *)
Definition join_next (bp p : Z) : M umem unit :=
  b ← get_hdr bp;
  h ← get_hdr p;
  if decide (plus bp (h_size b) = h_ptr h) then
    n ← get_hdr (h_ptr h);
    put_hdr bp (Hdr (h_ptr n) (u32 (h_size b + h_size n)))
  else put_hdr bp (Hdr (h_ptr h) (h_size b)).
Definition join_prev (bp p : Z) : M umem unit :=
  h ← get_hdr p;
  if decide (plus p (h_size h) = bp) then
    b ← get_hdr bp;
    put_hdr p (Hdr (h_ptr b) (u32 (h_size h + h_size b)))
  else put_hdr p (Hdr bp (h_size h)).

Definition free (ap : Z) : M umem unit :=
  let bp := u32 (ap - SIZEOF_HEADER) in
  s ← kget;
  p ← free_loop (S (size (hdrs s))) bp (freep s);
  join_next bp p;;
  join_prev bp p;;
  kmodify (set_freep p).

Definition morecore (nu : Z) : M umem Z :=
  let nu := if decide (nu < PAGE) then PAGE else nu in
  p ← sbrk (u32 (nu * SIZEOF_HEADER));
  if decide (p = 2 ^ 32 - 1) then mret 0
  else
    h ← get_hdr p;
    put_hdr p (Hdr (h_ptr h) nu);;
    free (plus p 1);;
    kgets freep.

(** What [malloc] does with a block that is large enough. *)
Definition carve (prevp p : Z) (nunits : Z) : M umem Z :=
  h ← get_hdr p;
  p ← (if decide (h_size h = nunits) then
         b ← get_hdr prevp; put_hdr prevp (Hdr (h_ptr h) (h_size b));; mret p
       else
         put_hdr p (Hdr (h_ptr h) (h_size h - nunits));;
         let p := plus p (h_size h - nunits) in
         q ← get_hdr p; put_hdr p (Hdr (h_ptr q) nunits);; mret p);
  kmodify (set_freep prevp);;
  mret (plus p 1).

Fixpoint malloc_loop (k : nat) (nunits prevp p : Z) : M umem Z :=
  match k with
  | O => diverge
  | S k =>
      h ← get_hdr p;
      if decide (h_size h >= nunits) then carve prevp p nunits
      else
        s ← kget;
        if decide (p = freep s) then
          p ← morecore nunits;
          if decide (p = 0) then mret 0
          else h ← get_hdr p; malloc_loop k nunits p (h_ptr h)
        else malloc_loop k nunits p (h_ptr h)
  end.

Definition malloc (nbytes : Z) : M umem Z :=
  let nunits := u32 (nbytes + SIZEOF_HEADER - 1) / SIZEOF_HEADER + 1 in
  s ← kget;
  (if decide (freep s = 0) then put_hdr base (Hdr base 0);; kmodify (set_freep base) else mret ());;
  s ← kget;
  let prevp := freep s in
  h ← get_hdr prevp;
  malloc_loop (4 + 2 * size (hdrs s)) nunits prevp (h_ptr h).
End umalloc.

(** ** The free list as a sequence of blocks *)

(** A block is the address of its header and its size in headers. *)
Definition bytes (b : Z * Z) : list Z := seqZ b.1 (8 * b.2).
Definition heap (l : list (Z * Z)) : list Z := l ≫= bytes.

Definition lnk (h : gmap Z Header) (x y : Z * Z) : Prop := h !! x.1 = Some (Hdr y.1 x.2).
Definition before (x y : Z * Z) : Prop := x.1 + 8 * x.2 < y.1.
Definition lower (x y : Z * Z) : Prop := x.1 < y.1.

(** Put a block in front of a list of blocks and join it with the first of them when the
    two are adjacent. *)
Definition join (x : Z * Z) (l : list (Z * Z)) : list (Z * Z) :=
  match l with
  | y :: t => if decide (x.1 + 8 * x.2 = y.1) then (x.1, x.2 + y.2) :: t else x :: l
  | [] => [x]
  end.

Lemma elem_of_bytes z b : z ∈ bytes b ↔ b.1 ≤ z < b.1 + 8 * b.2.
Proof. unfold bytes. rewrite elem_of_seqZ. lia. Qed.

Lemma heap_cons x l : heap (x :: l) = bytes x ++ heap l.
Proof. done. Qed.

Lemma heap_app l1 l2 : heap (l1 ++ l2) = heap l1 ++ heap l2.
Proof. apply bind_app. Qed.

Lemma elem_of_heap z l : z ∈ heap l ↔ ∃ b, b ∈ l ∧ b.1 ≤ z < b.1 + 8 * b.2.
Proof. unfold heap. rewrite list_elem_of_bind. setoid_rewrite elem_of_bytes. naive_solver. Qed.

Lemma join_heap x l : 0 ≤ x.2 → Forall (λ b, 0 ≤ b.2) l → heap (join x l) = heap (x :: l).
Proof.
  destruct l as [|y t]; [done|]. intros Hx [Hy _]%Forall_cons. simpl join. case_decide as E; [|done].
  rewrite !heap_cons, app_assoc. f_equal. unfold bytes. simpl. rewrite Z.mul_add_distr_l, seqZ_app by lia. by rewrite E.
Qed.

Lemma join_before x l : Forall (λ b, 0 ≤ b.2) l → adj before l → (∀ y t, l = y :: t → x.1 + 8 * x.2 ≤ y.1) → adj before (join x l).
Proof.
  destruct l as [|y t]; [done|]. intros _ Hl Hx. specialize (Hx y t eq_refl). simpl join. case_decide as E.
  - destruct t as [|z t]; [done|]. destruct Hl as [H1 H2]. split; [|done]. unfold before in *. simpl. lia.
  - split; [|done]. unfold before. lia.
Qed.

Lemma join_head x l : 0 ≤ x.2 → Forall (λ b, 0 ≤ b.2) l → ∃ n t, join x l = (x.1, n) :: t ∧ x.2 ≤ n ∧
  (t = l ∧ n = x.2 ∨ ∃ y, l = y :: t ∧ n = x.2 + y.2 ∧ x.1 + 8 * x.2 = y.1).
Proof.
  intros Hx Hl. destruct l as [|y t]; [exists x.2, []; destruct x; split_and!; [done|done|by left]|].
  apply Forall_cons in Hl as [Hy _]. simpl. case_decide.
  - exists (x.2 + y.2), t. split_and!; [done|lia|]. right. by exists y.
  - exists x.2, (y :: t). destruct x. split_and!; [done|done|by left].
Qed.

Lemma join_fst x l : ∃ n t, join x l = (x.1, n) :: t.
Proof. destruct x as [a n], l; simpl; [|case_decide]; eauto. Qed.

Lemma join_length x l : (length (join x l) ≤ S (length l))%nat.
Proof. destruct l; simpl; [|case_decide]; simpl; lia. Qed.

Lemma adj_trans {A} (R : A → A → Prop) `{!Transitive R} x l : adj R (x :: l) → Forall (R x) l.
Proof.
  revert x. induction l as [|y l IH]; intros x; [by constructor|]. intros [H1 H2]. constructor; [done|].
  eapply Forall_impl; [by apply IH|]. intros z Hz. by etrans.
Qed.

#[export] Instance lower_trans : Transitive lower.
Proof. intros x y z. unfold lower. lia. Qed.

Lemma before_lower l : Forall (λ b, 0 ≤ b.2) l → adj before l → adj lower l.
Proof.
  intros Hl. apply adj_impl. intros l1 x y l2 ->. apply Forall_app in Hl as [_ [Hx _]%Forall_cons]. unfold before, lower. lia.
Qed.

(** Where an address goes in a sorted list. *)
Lemma lower_split a u l : adj lower (u :: l) → u.1 < a → (∀ v, v ∈ l → v.1 ≠ a) →
  ∃ l1 x l2, u :: l = l1 ++ x :: l2 ∧ Forall (λ v, v.1 < a) (l1 ++ [x]) ∧ Forall (λ v, a < v.1) l2.
Proof.
  revert u. induction l as [|v l IH]; intros u Hl Hu Hn.
  - exists [], u, []. split_and!; [done| |done]. by repeat constructor.
  - destruct Hl as [H1 H2]. assert (v.1 ≠ a) by (apply Hn; inl). destruct (decide (v.1 < a)).
    + destruct (IH v H2) as (l1 & x & l2 & E & F1 & F2); [done|intros; apply Hn; inl|]. exists (u :: l1), x, l2. rewrite E. split_and!; [done| |done]. by constructor.
    + exists [], u, (v :: l). split_and!; [done|by repeat constructor|]. constructor; [lia|].
      eapply Forall_impl; [exact (adj_trans lower v l H2)|]. unfold lower. simpl. lia.
Qed.

Section proofs.
Context (base : Z) (can_grow : Z → Z → bool) (Hbase : 0 < base).
Let home : Z * Z := (base, 0).
Let first (l : list (Z * Z)) : Z := default base (fst <$> head l).

(** The header of the first block of a list. *)
Let top (l : list (Z * Z)) : Header := match l with x :: t => Hdr (first t) x.2 | [] => Hdr 0 0 end.

Definition ring (h : gmap Z Header) (l : list (Z * Z)) : Prop := adj (lnk h) (l ++ [(base, 0)]).

Lemma ring_cons h x l : ring h (x :: l) ↔ h !! x.1 = Some (Hdr (first l) x.2) ∧ ring h l.
Proof. unfold ring. by destruct l. Qed.

Lemma ring_app h l1 x l2 : ring h (l1 ++ x :: l2) ↔ adj (lnk h) (l1 ++ [x]) ∧ ring h (x :: l2).
Proof. unfold ring. rewrite <- app_assoc. simpl. by rewrite adj_app. Qed.

Lemma adj_lnk_insert h a g l x : (∀ u, u ∈ l → u.1 ≠ a) → adj (lnk h) (l ++ [x]) → adj (lnk (<[a := g]> h)) (l ++ [x]).
Proof.
  intros Hn. apply adj_impl. intros l1 u v l2 E. unfold lnk. rewrite lookup_insert_ne; [done|]. apply not_eq_sym, Hn.
  destruct l2 as [|w l2] using rev_ind; [rewrite (app_cons_eq l1) in E|rewrite 2!app_comm_cons, app_assoc in E].
  - apply app_inj_tail in E as [-> _]. inl.
  - apply app_inj_tail in E as [-> _]. inl.
Qed.

(** The links depend on the address of the next block only. *)
Lemma adj_lnk_last h l x y : x.1 = y.1 → adj (lnk h) (l ++ [x]) → adj (lnk h) (l ++ [y]).
Proof.
  intros E. induction l as [|u l IH]; [done|]. destruct l as [|v l]; [simpl; unfold lnk; by rewrite E|].
  intros [H1 H2]. split; [done|]. by apply IH.
Qed.

Lemma ring_put h x l : (∀ u, u ∈ l → u.1 ≠ x.1) → ring h l → ring (<[x.1 := Hdr (first l) x.2]> h) (x :: l).
Proof. intros Hn Hr. apply ring_cons. split; [by rewrite lookup_insert_eq|]. by apply adj_lnk_insert. Qed.

Lemma ring_lookup h l x : ring h l → x ∈ l → ∃ q, h !! x.1 = Some (Hdr q x.2).
Proof. intros Hr (l1 & l2 & ->)%list_elem_of_split. apply ring_app in Hr as [_ Hr]. apply ring_cons in Hr as [Hr _]. eauto. Qed.

Lemma get_hdr_run c s p : p + 8 ≤ brk s → get_hdr p c s = Ok (hdr_at s p) c s.
Proof. intros H. unfold get_hdr. rewrite kget_bind. unfold SIZEOF_HEADER. by rewrite decide_True. Qed.

Lemma put_hdr_run c s p h : p + 8 ≤ brk s → put_hdr p h c s = Ok () c (set_hdrs (<[p := h]> (hdrs s)) s).
Proof. intros H. unfold put_hdr. rewrite kget_bind. unfold SIZEOF_HEADER. by rewrite decide_True. Qed.

Lemma hdr_at_some s p h : hdrs s !! p = Some h → hdr_at s p = h.
Proof. unfold hdr_at. by intros ->. Qed.


(** The same by position: the next of the last block is [home]. *)
Lemma ring_index h l i u : ring h l → l !! i = Some u → h !! u.1 = Some (Hdr (first (drop (S i) l)) u.2).
Proof. intros Hr Hu. rewrite <- (take_drop_middle l i u Hu) in Hr. apply ring_app in Hr as [_ Hr]. by apply ring_cons in Hr as [Hr _]. Qed.

Lemma lower_index l i j u v : adj lower l → l !! i = Some u → l !! j = Some v → (i < j)%nat → u.1 < v.1.
Proof.
  intros Hl Hu Hv Hij. rewrite <- (take_drop_middle l i u Hu) in Hl. apply adj_app in Hl as [_ Hl]. apply adj_trans in Hl; [|apply _].
  rewrite Forall_forall in Hl. apply Hl, list_elem_of_lookup. exists (j - S i)%nat. rewrite lookup_drop. rewrite <- Hv. f_equal. lia.
Qed.

Lemma next_index l i u : l !! i = Some u → first l = base →
  (∃ v, l !! S i = Some v ∧ first (drop (S i) l) = v.1) ∨ (S i = length l ∧ first (drop (S i) l) = base).
Proof.
  intros Hu Hb. destruct (l !! S i) as [v|] eqn:E.
  - left. exists v. split; [done|]. unfold first. by rewrite (drop_S _ _ _ E).
  - right. apply lookup_ge_None in E. apply lookup_lt_Some in Hu. split; [lia|]. by rewrite drop_ge.
Qed.

(** ** The search of free *)
Section search.
Context (c : kctx) (s : umem) (l : list (Z * Z)).
Context (Hr : ring (hdrs s) l) (Hl : adj lower l) (Hb : Forall (λ u, u.1 + 8 ≤ brk s) l) (Hh : l !! 0%nat = Some (base, 0)).

Lemma first_home : first l = base.
Proof. destruct l; [done|]. by injection Hh as ->. Qed.

Lemma get_node i u : l !! i = Some u → get_hdr u.1 c s = Ok (Hdr (first (drop (S i) l)) u.2) c s.
Proof.
  intros Hu. rewrite get_hdr_run by (by eapply Forall_lookup in Hb). by rewrite (hdr_at_some _ _ _ (ring_index _ _ _ _ Hr Hu)).
Qed.

Lemma free_search a j x : base < a → l !! j = Some x → Forall (λ v, v.1 < a) (take (S j) l) → Forall (λ v, a < v.1) (drop (S j) l) →
  ∀ k i u, l !! i = Some u → ((if decide (i ≤ j)%nat then j - i else length l - i + j) < k)%nat → free_loop k a u.1 c s = Ok x.1 c s.
Proof.
  intros Ha Hx F1 F2. assert (G1 : ∀ i u, l !! i = Some u → (i ≤ j)%nat → u.1 < a).
  { intros i u Hu Hij. rewrite Forall_forall in F1. apply F1, list_elem_of_lookup. exists i. rewrite lookup_take_lt by lia. done. }
  assert (G2 : ∀ i u, l !! i = Some u → (j < i)%nat → a < u.1).
  { intros i u Hu Hij. rewrite Forall_forall in F2. apply F2, list_elem_of_lookup. exists (i - S j)%nat. rewrite lookup_drop. rewrite <- Hu. f_equal. lia. }
  induction k as [|k IH]; intros i u Hu Hk; [lia|]. simpl free_loop. rewrite (bind_Ok _ _ _ _ _ _ _ (get_node i u Hu)). cbn [h_ptr].
  assert (Li : (i < length l)%nat) by by eapply lookup_lt_Some. assert (Lj : (j < length l)%nat) by by eapply lookup_lt_Some.
  destruct (next_index l i u Hu first_home) as [(v & Hv & ->)|[Ei ->]].
  - assert (u.1 < v.1) by (eapply lower_index; eauto with lia). destruct (decide (i = j)) as [->|Hij].
    + assert (u = x) as -> by congruence. rewrite decide_True; [done|]. split; [specialize (G1 j x Hx)|specialize (G2 (S j) v Hv)]; lia.
    + destruct (decide (i < j)%nat).
      * specialize (G1 (S i) v Hv). rewrite decide_False by lia. rewrite decide_False by lia. apply (IH (S i)); [done|]. repeat case_decide; lia.
      * specialize (G2 i u Hu). rewrite decide_False by lia. rewrite decide_False by lia. apply (IH (S i)); [done|]. repeat case_decide; lia.
  - destruct (decide (i = j)) as [->|Hij].
    + assert (u = x) as -> by congruence. specialize (G1 j x Hx ltac:(lia)).
      assert (base ≤ x.1). { destruct j as [|j]; [rewrite Hh in Hu; by injection Hu as <-|]. apply Z.lt_le_incl, (lower_index l 0 (S j) (base, 0) x Hl Hh Hx). lia. }
      rewrite decide_False by lia. rewrite decide_True by lia. done.
    + specialize (G2 i u Hu). rewrite decide_False by lia. rewrite decide_False by lia. apply (IH 0%nat (base, 0)); [done|]. repeat case_decide; lia.
Qed.
End search.

(** ** Joining *)
Definition put (s : umem) (p : Z) (h : Header) : umem := set_hdrs (<[p := h]> (hdrs s)) s.

Lemma ring_tail h x l : ring h (x :: l) → ring h l.
Proof. by intros [_ Hr]%ring_cons. Qed.

(** The block [x] whose header is in memory, before the blocks [l] of the list. *)
Lemma join_next_run c s x l p : ring (hdrs s) l → Forall (λ u, 0 ≤ u.2 ∧ u.1 + 8 * u.2 ≤ brk s ∧ u.1 + 8 ≤ brk s) (x :: l) →
  base < x.1 → brk s < 2 ^ 31 → h_size (hdr_at s x.1) = x.2 → h_ptr (hdr_at s p) = first l → p + 8 ≤ brk s →
  join_next x.1 p c s = Ok () c (put s x.1 (top (join x l))).
Proof.
  intros Hr [[Hx1 [Hx2 Hx3]] Hl]%Forall_cons Hx Hb Hsx Hp Hp'. unfold join_next. rewrite (bind_Ok _ _ _ _ _ _ _ (get_hdr_run c s _ Hx3)).
  rewrite (bind_Ok _ _ _ _ _ _ _ (get_hdr_run c s _ Hp')), Hp, Hsx. unfold plus, SIZEOF_HEADER. rewrite u32_small by lia.
  destruct l as [|y t].
  - change (first []) with base. rewrite decide_False by lia. by rewrite put_hdr_run.
  - change (first (y :: t)) with y.1. simpl join. apply Forall_cons in Hl as [[Hy1 [Hy2 Hy3]] Hl]. case_decide as E.
    + rewrite (bind_Ok _ _ _ _ _ _ _ (get_hdr_run c s _ Hy3)). apply ring_cons in Hr as [Hr _]. rewrite (hdr_at_some _ _ _ Hr).
      cbn [h_ptr h_size]. rewrite u32_small by lia. by rewrite put_hdr_run.
    + by rewrite put_hdr_run.
Qed.

Lemma join_prev_run c s x b m t : hdrs s !! b = Some (top ((b, m) :: t)) → Forall (λ u, 0 ≤ u.2 ∧ u.1 + 8 * u.2 ≤ brk s ∧ u.1 + 8 ≤ brk s) [x; (b, m)] →
  0 ≤ x.1 → 0 ≤ b → brk s < 2 ^ 31 → h_size (hdr_at s x.1) = x.2 →
  join_prev b x.1 c s = Ok () c (put s x.1 (top (join x ((b, m) :: t)))).
Proof.
  intros Hr [[Hx1 [Hx2 Hx3]] [[Hy1 [Hy2 Hy3]] _]%Forall_cons]%Forall_cons Hx Hb0 Hb Hsx. simpl in Hy1, Hy2, Hy3. unfold join_prev.
  rewrite (bind_Ok _ _ _ _ _ _ _ (get_hdr_run c s _ Hx3)), Hsx. unfold plus, SIZEOF_HEADER. rewrite u32_small by lia. simpl join. cbn [fst snd].
  case_decide as E; [|by rewrite put_hdr_run].
  rewrite (bind_Ok _ _ _ _ _ _ _ (get_hdr_run c s _ Hy3)), (hdr_at_some _ _ _ Hr). simpl. rewrite u32_small by lia. by rewrite put_hdr_run.
Qed.

Lemma ring_join h x l : 0 ≤ x.2 → Forall (λ b, 0 ≤ b.2) l → (∀ u, u ∈ l → u.1 ≠ x.1) → ring h l →
  ring (<[x.1 := top (join x l)]> h) (join x l).
Proof.
  intros Hx Hl Hn Hr. destruct (join_head x l Hx Hl) as (n & t & -> & _ & Ht). apply (ring_put h (x.1, n) t).
  - intros u Hu. apply Hn. destruct Ht as [[-> _]|(y & -> & _)]; inl.
  - destruct Ht as [[-> _]|(y & -> & _)]; [done|by apply ring_tail in Hr].
Qed.

(** ** free *)
Lemma ring_size h l : ring h l → adj lower l → (length l ≤ size h)%nat.
Proof.
  intros Hr Hl. assert (N : NoDup l.*1).
  { clear Hr. induction l as [|x l IH]; [constructor|]. simpl. constructor; [|apply IH; by destruct l; [|destruct Hl]].
    intros (y & E & Hy)%list_elem_of_fmap. apply adj_trans in Hl; [|apply _]. rewrite Forall_forall in Hl. specialize (Hl y Hy). unfold lower in Hl. lia. }
  rewrite <- (length_fmap fst), <- (size_list_to_set (C := gset Z) _ N), <- (size_dom (D := gset Z)). apply subseteq_size.
  intros z. rewrite elem_of_list_to_set. intros (x & -> & Hx)%list_elem_of_fmap. destruct (ring_lookup h l x Hr Hx) as [q E]. by eapply elem_of_dom_2.
Qed.

(** [free] are the blocks of the free list. *)
Record ulist (s : umem) (free : list (Z * Z)) : Prop := {
  ul_ring : ring (hdrs s) ((base, 0) :: free);
  ul_before : adj before ((base, 0) :: free);
  ul_free : Forall (λ u, 1 ≤ u.2 ∧ u.1 + 8 * u.2 ≤ brk s) free;
  ul_freep : freep s ∈ ((base, 0) :: free).*1;
  ul_brk : base + 8 ≤ brk s < 2 ^ 31 }.

Lemma ul_nonneg s free : ulist s free → Forall (λ u, 0 ≤ u.2) ((base, 0) :: free).
Proof. intros U. constructor; [done|]. eapply Forall_impl; [apply (ul_free _ _ U)|]. simpl. lia. Qed.

Lemma ul_lower s free : ulist s free → adj lower ((base, 0) :: free).
Proof. intros U. apply before_lower; [by eapply ul_nonneg|apply (ul_before _ _ U)]. Qed.

Lemma ul_above s free u : ulist s free → u ∈ free → base < u.1.
Proof. intros U Hu. pose proof (adj_trans lower _ _ (ul_lower _ _ U)) as F. rewrite Forall_forall in F. by apply F in Hu. Qed.

Lemma ul_inside s free : ulist s free → Forall (λ u, 0 ≤ u.2 ∧ u.1 + 8 * u.2 ≤ brk s ∧ u.1 + 8 ≤ brk s) ((base, 0) :: free).
Proof.
  intros U. pose proof (ul_brk _ _ U). constructor; [simpl; lia|]. eapply Forall_impl; [apply (ul_free _ _ U)|]. simpl. lia.
Qed.

Lemma adj_head {A} (R : A → A → Prop) l x y r : adj R (l ++ [x]) → (∀ u, R u x → R u y) → adj R (y :: r) → adj R (l ++ y :: r).
Proof.
  intros H1 Hxy H2. apply adj_app. split; [|done]. induction l as [|u l IH]; [done|]. destruct l as [|v l]; [simpl in *; naive_solver|].
  destruct H1 as [Ha Hc]. split; [exact Ha|]. by apply IH.
Qed.

(** Where the block goes, and what the list is afterwards. *)
Lemma free_place s free b m : ulist s free → base < b → 1 ≤ m → (∀ u, u ∈ free → u.1 + 8 * u.2 ≤ b ∨ b + 8 * m ≤ u.1) →
  ∃ l1 x l2, (base, 0) :: free = l1 ++ x :: l2 ∧ Forall (λ v, v.1 < b) (l1 ++ [x]) ∧ Forall (λ v, b < v.1) l2 ∧
    x.1 + 8 * x.2 ≤ b ∧ (∀ y t, l2 = y :: t → b + 8 * m ≤ y.1).
Proof.
  intros U Hb Hm Hd. assert (Hp : ∀ u, u ∈ free → 1 ≤ u.2) by (intros u Hu; pose proof (ul_free _ _ U) as F; rewrite Forall_forall in F; by apply F).
  destruct (lower_split b (base, 0) free (ul_lower _ _ U) Hb) as (l1 & x & l2 & E & F1 & F2).
  { intros v Hv. specialize (Hd v Hv). specialize (Hp v Hv). lia. }
  exists l1, x, l2. split_and!; [done..| |].
  - apply Forall_app in F1 as [_ [F1 _]%Forall_cons]. assert (Hx : x ∈ (base, 0) :: free) by (rewrite E; inl).
    apply elem_of_cons in Hx as [->|Hx]; [simpl; lia|]. specialize (Hd x Hx). lia.
  - intros y t ->. assert (Hy : y ∈ (base, 0) :: free) by (rewrite E; inl). apply Forall_cons in F2 as [F2 _].
    apply elem_of_cons in Hy as [->|Hy]; [simpl in F2; lia|]. specialize (Hd y Hy). specialize (Hp y Hy). lia.
Qed.

Lemma join_Forall B x l : 0 ≤ x.2 → Forall (λ u, 1 ≤ u.2 ∧ u.1 + 8 * u.2 ≤ B) (x :: l) → Forall (λ u, 1 ≤ u.2 ∧ u.1 + 8 * u.2 ≤ B) (join x l).
Proof.
  intros _ [Hx Hl]%Forall_cons. destruct l as [|y t]; [by apply Forall_singleton|]. simpl join. case_decide as E; [|by constructor].
  apply Forall_cons in Hl as [Hy Ht]. constructor; [cbn [fst snd]; lia|done].
Qed.

Lemma heap_home l : heap ((base, 0) :: l) = heap l.
Proof. done. Qed.

Lemma join_home x l : base < x.1 → 0 ≤ x.2 → Forall (λ b, 0 ≤ b.2) l → join (base, 0) (join x l) = (base, 0) :: join x l.
Proof. intros Hx H1 H2. destruct (join_head x l H1 H2) as (n & t & -> & _). simpl. rewrite decide_False by lia. done. Qed.

Section placed.
Context (s : umem) (free : list (Z * Z)) (U : ulist s free) (b m : Z) (Hb : base < b) (Hm : 1 ≤ m) (Hbrk : b + 8 * m ≤ brk s).
Context (l1 l2 : list (Z * Z)) (x : Z * Z) (E : (base, 0) :: free = l1 ++ x :: l2).
Context (F1 : Forall (λ v, v.1 < b) (l1 ++ [x])) (F2 : Forall (λ v, b < v.1) l2).
Context (Hx : x.1 + 8 * x.2 ≤ b) (Hy : ∀ y t, l2 = y :: t → b + 8 * m ≤ y.1).

Lemma placed_nonneg : 0 ≤ x.2 ∧ Forall (λ u, 0 ≤ u.2) l2.
Proof. pose proof (ul_nonneg _ _ U) as N. rewrite E in N. by apply Forall_app in N as [_ N%Forall_cons]. Qed.

Lemma placed_before : adj before (l1 ++ join x (join (b, m) l2)).
Proof.
  pose proof (ul_before _ _ U) as B. rewrite E in B. apply adj_app in B as [B1 B2]. destruct placed_nonneg as [Nx N2].
  assert (BX : adj before (join (b, m) l2)). { apply join_before; [done| |done]. destruct l2; [done|]. by destruct B2. }
  assert (NX : Forall (λ u, 0 ≤ u.2) (join (b, m) l2)).
  { destruct l2 as [|y t]; simpl; [repeat constructor; simpl; lia|]. apply Forall_cons in N2 as [Ny Nt]. case_decide; repeat constructor; simpl; auto; lia. }
  assert (BY : adj before (join x (join (b, m) l2))).
  { apply join_before; [done..|]. intros y t Ey. destruct (join_head (b, m) l2) as (n & t' & Ej & _); [simpl; lia|done|]. rewrite Ej in Ey. by injection Ey as <- _. }
  destruct (join_head x _ Nx NX) as (n & t & Ej & _). rewrite Ej in *. eapply adj_head; [exact B1| |done]. done.
Qed.

Lemma placed_free : ∃ free', l1 ++ join x (join (b, m) l2) = (base, 0) :: free' ∧ heap free' ≡ₚ heap free ++ bytes (b, m) ∧
  Forall (λ u, 1 ≤ u.2 ∧ u.1 + 8 * u.2 ≤ brk s) free' ∧ ∃ u, u ∈ free' ∧ m ≤ u.2.
Proof.
  destruct placed_nonneg as [Nx N2]. pose proof (ul_free _ _ U) as P. assert (Nm : 0 ≤ (b, m).2) by (simpl; lia).
  assert (P2 : Forall (λ u, 1 ≤ u.2 ∧ u.1 + 8 * u.2 ≤ brk s) l2).
  { destruct l1 as [|u l1']; injection E as _ E'; subst free; [done|]. by apply Forall_app in P as [_ [_ P]%Forall_cons]. }
  assert (PX : Forall (λ u, 1 ≤ u.2 ∧ u.1 + 8 * u.2 ≤ brk s) (join (b, m) l2)) by (apply join_Forall; [done|]; by constructor).
  assert (HX : heap (join (b, m) l2) = bytes (b, m) ++ heap l2) by by rewrite join_heap.
  destruct (join_head (b, m) l2 Nm N2) as (n & t & Ej & Hn & _). cbn [fst snd] in Ej, Hn. destruct l1 as [|u l1'].
  - injection E as Ex E'. rewrite <- Ex. exists (join (b, m) l2). split; [by apply join_home|]. rewrite HX, E', Permutation_app_comm.
    split_and!; [done..|]. rewrite Ej. exists (b, n). split; [left|done].
  - injection E as Eu E'. rewrite <- Eu. exists (l1' ++ join x (join (b, m) l2)). split; [done|]. rewrite E' in P |- *.
    apply Forall_app in P as [P1 [Px _]%Forall_cons]. assert (NX : Forall (λ u, 0 ≤ u.2) (join (b, m) l2)) by (eapply Forall_impl; [exact PX|]; simpl; lia).
    split_and!.
    + rewrite !heap_app, join_heap by done. rewrite !heap_cons, HX. rewrite <- !app_assoc. do 2 f_equiv. apply Permutation_app_comm.
    + apply Forall_app. split; [done|]. apply join_Forall; [done|]. by constructor.
    + rewrite Ej in NX |- *. destruct (join_head x ((b, n) :: t) Nx NX) as (n' & t' & Ej' & Hn' & [[-> _]|(y & Ey & -> & _)]); rewrite Ej'.
      * exists (b, n). split; [inl|done].
      * exists (x.1, x.2 + y.2). split; [inl|]. injection Ey as <- <-. simpl. lia.
Qed.

Lemma placed_distinct u : u ∈ l1 ++ l2 → u.1 ≠ x.1 ∧ u.1 ≠ b.
Proof.
  pose proof (ul_lower _ _ U) as L. rewrite E in L. rewrite Forall_forall in F1, F2. intros [Hu|Hu]%elem_of_app.
  - split; [|specialize (F1 u ltac:(inl)); lia]. apply list_elem_of_split in Hu as (r1 & r2 & ->). rewrite <- app_assoc in L. simpl in L.
    apply adj_app in L as [_ L]. apply adj_trans in L; [|apply _]. rewrite Forall_forall in L. specialize (L x ltac:(inl)). unfold lower in L. lia.
  - specialize (F2 u Hu). specialize (F1 x ltac:(inl)). lia.
Qed.

Lemma placed_ring : let X := join (b, m) l2 in let Y := join x X in
  ring (<[x.1 := top Y]> (<[b := top X]> (hdrs s))) (l1 ++ Y).
Proof.
  pose proof (ul_ring _ _ U) as R. rewrite E in R. apply ring_app in R as [R1 R2]. destruct placed_nonneg as [Nx N2]. intros X Y.
  assert (Nm : 0 ≤ (b, m).2) by (simpl; lia). apply ring_tail in R2.
  assert (Hxb : x.1 ≠ b) by (rewrite Forall_forall in F1; specialize (F1 x ltac:(inl)); lia).
  assert (RX : ring (<[b := top X]> (hdrs s)) X) by (apply (ring_join _ (b, m)); [done..| |done]; intros u Hu; apply placed_distinct; inl).
  destruct (join_head (b, m) l2 Nm N2) as (n & t & Ej & Hn & Ht). cbn [fst snd] in Ej, Hn. fold X in Ej.
  assert (T : ∀ u, u ∈ t → u ∈ l2) by (destruct Ht as [[-> _]|(y & -> & _)]; intros; inl).
  assert (NX : Forall (λ u, 0 ≤ u.2) X) by (rewrite Ej; constructor; [simpl; lia|]; rewrite Forall_forall in N2 |- *; auto).
  assert (RY : ring (<[x.1 := top Y]> (<[b := top X]> (hdrs s))) Y).
  { apply ring_join; [done..| |done]. rewrite Ej. intros u [->|Hu]%elem_of_cons; [done|]. apply placed_distinct. apply T in Hu. inl. }
  destruct (join_head x X Nx NX) as (n' & t' & Ej' & _). fold Y in Ej'. unfold ring. rewrite Ej' in RY |- *. rewrite <- app_assoc. simpl.
  eapply (adj_head _ l1 x); [|done|exact RY]. apply adj_lnk_insert; [intros u Hu; apply placed_distinct; inl|].
  apply adj_lnk_insert; [intros u Hu; apply placed_distinct; inl|done].
Qed.

Lemma placed_run c : freep s ∈ ((base, 0) :: free).*1 → h_size (hdr_at s b) = m → let X := join (b, m) l2 in
  Umalloc.free (b + 8) c s = Ok () c (set_freep x.1 (put (put s b (top X)) x.1 (top (join x X)))).
Proof.
  intros Hf Hs X. pose proof (ul_brk _ _ U) as Bk. pose proof (ul_inside _ _ U) as In. rewrite E in In. apply Forall_app in In as [_ [Ix I2]%Forall_cons].
  unfold Umalloc.free, SIZEOF_HEADER. rewrite Z.add_simpl_r, u32_small by lia. rewrite kget_bind.
  apply list_elem_of_fmap in Hf as (f & -> & (i & Hf)%list_elem_of_lookup). pose proof (ring_size _ _ (ul_ring _ _ U) (ul_lower _ _ U)) as Sz.
  assert (Hx0 : ((base, 0) :: free) !! length l1 = Some x) by (rewrite E; by rewrite lookup_app_r, Nat.sub_diag by lia).
  assert (Li := lookup_lt_Some _ _ _ Hf). assert (Lx := lookup_lt_Some _ _ _ Hx0). 
  erewrite bind_Ok; [|eapply (free_search c s _ (ul_ring _ _ U) (ul_lower _ _ U)); [|done|done|exact Hx0| | |exact Hf|]].
  2: { eapply Forall_impl; [apply (ul_inside _ _ U)|]. simpl. lia. }
  2: { rewrite E, (app_cons_eq l1), take_app_length'; [done|]. rewrite length_app. simpl. lia. }
  2: { rewrite E, (app_cons_eq l1), drop_app_length'; [done|]. rewrite length_app. simpl. lia. }
  2: { case_decide; lia. }
  pose proof (ul_ring _ _ U) as R. rewrite E in R. apply ring_app in R as [_ R]. apply ring_cons in R as [R1 R2]. destruct placed_nonneg as [Nx N2].
  rewrite (bind_Ok _ _ _ _ _ _ _ (join_next_run c s (b, m) l2 x.1 R2 ltac:(constructor; [simpl; lia|done]) Hb ltac:(lia) Hs ltac:(by rewrite (hdr_at_some _ _ _ R1)) ltac:(lia))).
  cbn [fst]. fold X. destruct (join_head (b, m) l2 ltac:(simpl; lia) N2) as (n & t & Ej & Hn & Ht). cbn [fst snd] in Ej, Hn, Ht. fold X in Ej.
  assert (Hxb : x.1 ≠ b) by (rewrite Forall_forall in F1; specialize (F1 x ltac:(inl)); lia).
  assert (Hn' : b + 8 * n ≤ brk s). { destruct Ht as [[_ ->]|(y & -> & -> & Ey)]; [done|]. apply Forall_cons in I2 as [I2 _]. lia. }
  assert (Hx1 : base ≤ x.1). { assert (Hx1 : x ∈ (base, 0) :: free) by (rewrite E; inl). apply elem_of_cons in Hx1 as [->|Hx1]; [done|]. pose proof (ul_above _ _ _ U Hx1). lia. }
  erewrite bind_Ok; [|rewrite Ej; eapply (join_prev_run c (put s b (top ((b, n) :: t))) x b n t)]; cbn [put brk set_hdrs hdrs].
  - rewrite kmodify_run. by rewrite Ej.
  - by rewrite lookup_insert_eq.
  - constructor; [done|]. apply Forall_singleton. simpl. lia.
  - lia.
  - lia.
  - lia.
  - unfold hdr_at. cbn [put set_hdrs hdrs]. rewrite lookup_insert_ne by done. by rewrite R1.
Qed.
End placed.

(** The effect of [free] on the list, for a block that does not overlap it. *)
Lemma free_effect c s free b m : ulist s free → base < b → 1 ≤ m → b + 8 * m ≤ brk s → h_size (hdr_at s b) = m →
  (∀ u, u ∈ free → u.1 + 8 * u.2 ≤ b ∨ b + 8 * m ≤ u.1) →
  ∃ s' free', Umalloc.free (b + 8) c s = Ok () c s' ∧ ulist s' free' ∧ brk s' = brk s ∧ heap free' ≡ₚ heap free ++ bytes (b, m) ∧
    (∃ u, u ∈ free' ∧ m ≤ u.2) ∧ (length free' ≤ S (length free))%nat ∧
    (∀ a, a ≠ b → a ∉ ((base, 0) :: free).*1 → hdrs s' !! a = hdrs s !! a).
Proof.
  intros U Hb Hm Hbrk Hs Hd. destruct (free_place s free b m U Hb Hm Hd) as (l1 & x & l2 & E & F1 & F2 & Hx & Hy).
  destruct (placed_free s free U b m Hb Hm Hbrk l1 l2 x E F1) as (free' & E' & Pm & P' & Lg).
  eexists _, free'. split; [eapply placed_run; eauto using ul_freep|].
  split_and!; [split; cbn [set_freep put set_hdrs hdrs brk freep]|done|done|done| |].
  - rewrite <- E'. by eapply placed_ring.
  - rewrite <- E'. by eapply placed_before.
  - done.
  - rewrite <- E'. destruct (join_fst x (join (b, m) l2)) as (n & t & ->). rewrite fmap_app. simpl. inl.
  - apply (ul_brk _ _ U).
  - pose proof (join_length (b, m) l2). pose proof (join_length x (join (b, m) l2)). apply (f_equal length) in E, E'.
    rewrite length_app in E, E'. simpl in E, E'. lia.
  - intros a Ha1 Ha2. cbn [set_freep put set_hdrs hdrs]. rewrite E in Ha2. rewrite !lookup_insert_ne; [done|done|]. intros <-. apply Ha2, list_elem_of_fmap. exists x. split; [done|inl].
Qed.

(** ** The search of malloc *)
Section scan.
Context (c : kctx) (s : umem) (free : list (Z * Z)) (U : ulist s free) (nu : Z) (Hnu : 1 ≤ nu).
Let l : list (Z * Z) := (base, 0) :: free.
Context (f : nat) (w : Z * Z) (Hf : l !! f = Some w) (Hw : freep s = w.1).

(** How far it is from position [j] round the ring to [freep]. *)
Let dist (j : nat) : nat := if decide (j ≤ f)%nat then f - j else length l - j + f.

(** [malloc_loop] from the point where it has been all round. *)
Definition grow (k : nat) : M umem Z :=
  p ← morecore can_grow nu;
  if decide (p = 0) then mret 0 else h ← get_hdr p; malloc_loop can_grow k nu p (h_ptr h).

Lemma node_inj i j u v : l !! i = Some u → l !! j = Some v → u.1 = v.1 → i = j.
Proof.
  intros Hu Hv E. pose proof (ul_lower _ _ U) as L. destruct (decide (i = j)) as [|N]; [done|]. exfalso. destruct (decide (i < j)%nat).
  - pose proof (lower_index l i j u v L Hu Hv ltac:(lia)). lia.
  - pose proof (lower_index l j i v u L Hv Hu ltac:(lia)). lia.
Qed.

Lemma malloc_scan : ∀ k i j u v, l !! i = Some u → l !! j = Some v → (j = S i ∨ S i = length l ∧ j = 0)%nat → (dist j < k)%nat →
  (∃ l1 y x l2, l = l1 ++ y :: x :: l2 ∧ nu ≤ x.2 ∧ malloc_loop can_grow k nu u.1 v.1 c s = carve y.1 x.1 nu c s) ∨
  ((∀ j' x, l !! j' = Some x → (dist j' ≤ dist j)%nat → x.2 < nu) ∧
   malloc_loop can_grow k nu u.1 v.1 c s = grow (k - S (dist j)) c s).
Proof.
  assert (Hb : Forall (λ u, u.1 + 8 ≤ brk s) l) by (eapply Forall_impl; [apply (ul_inside _ _ U)|]; simpl; lia).
  assert (Lf := lookup_lt_Some _ _ _ Hf).
  induction k as [|k IH]; intros i j u v Hu Hv Hij Hk; [lia|]. assert (Lj := lookup_lt_Some _ _ _ Hv). simpl malloc_loop.
  rewrite (bind_Ok _ _ _ _ _ _ _ (get_node c s l (ul_ring _ _ U) Hb j v Hv)). cbn [h_size h_ptr]. case_decide as Hs.
  { left. destruct Hij as [->|[_ ->]]; [|injection Hv as <-; simpl in Hs; lia]. exists (take i l), u, v, (drop (S (S i)) l).
    split_and!; [|lia|done]. rewrite <- (drop_S _ _ _ Hv). by rewrite take_drop_middle. }
  rewrite kget_bind, Hw. destruct (decide (j = f)) as [->|Hjf].
  - right. assert (v = w) as -> by congruence. rewrite decide_True by done. assert (D : dist f = 0%nat) by (unfold dist; case_decide; lia). rewrite D. split.
    + intros j' x Hx Hd. assert (j' = f) as ->; [|assert (x = w) as -> by congruence; lia]. assert (Lx := lookup_lt_Some _ _ _ Hx). revert Hd. unfold dist. case_decide; lia.
    + change (S k - 1)%nat with (k - 0)%nat. by rewrite Nat.sub_0_r.
  - rewrite decide_False by (intros E; apply Hjf; by eapply node_inj).
    assert (Nx : ∃ j2 v2, l !! j2 = Some v2 ∧ first (drop (S j) l) = v2.1 ∧ (j2 = S j ∨ S j = length l ∧ j2 = 0)%nat).
    { destruct (next_index l j v Hv eq_refl) as [(v' & Hv' & ->)|[Ej ->]]; [exists (S j), v'|exists 0%nat, (base, 0)]; auto. }
    destruct Nx as (j2 & v2 & Hv2 & -> & N2). assert (L2 := lookup_lt_Some _ _ _ Hv2).
    assert (D : dist j = S (dist j2)) by (unfold dist; repeat case_decide; lia). rewrite D in Hk |- *.
    destruct (IH j j2 v v2 Hv Hv2 N2 ltac:(lia)) as [IH'|[IH1 IH2]]; [by left|right]. split; [|done].
    intros j' x Hx Hd. destruct (decide (dist j' ≤ dist j2)%nat); [by eapply IH1|]. assert (j' = j) as ->; [|assert (x = v) as -> by congruence; lia].
    assert (Lx := lookup_lt_Some _ _ _ Hx). revert Hd n D. unfold dist. repeat case_decide; lia.
Qed.
End scan.

(** ** Taking a block *)
Definition carved (s : umem) (free : list (Z * Z)) (b nu : Z) (s' : umem) (free' : list (Z * Z)) : Prop :=
  ulist s' free' ∧ brk s' = brk s ∧ heap free ≡ₚ heap free' ++ bytes (b, nu) ∧ h_size (hdr_at s' b) = nu ∧
  ∀ a, a ∉ base :: heap free → hdrs s' !! a = hdrs s !! a.

Lemma ul_address s free u : ulist s free → u ∈ free → u.1 ∈ heap free.
Proof. intros U Hu. apply elem_of_heap. exists u. split; [done|]. pose proof (ul_free _ _ U) as F. rewrite Forall_forall in F. specialize (F u Hu). simpl in F. lia. Qed.

Lemma ul_split_cons s free l1 y r : ulist s free → (base, 0) :: free = l1 ++ y :: r →
  ∃ l1', ∀ r', l1 ++ y :: r' = (base, 0) :: l1' ++ r' ∧ (r' = r → free = l1' ++ r).
Proof.
  intros U E. destruct l1 as [|u l1]; injection E as <- ->; [exists []|exists (l1 ++ [y])]; intros r'; [done|]. by rewrite <- !app_assoc.
Qed.

Section carve.
Context (c : kctx) (s : umem) (free : list (Z * Z)) (U : ulist s free) (nu : Z) (Hnu : 1 ≤ nu).
Context (l1 l2 : list (Z * Z)) (x y : Z * Z) (E : (base, 0) :: free = l1 ++ y :: x :: l2) (Hx : nu ≤ x.2).

Lemma carve_facts : (∀ u, u ∈ l1 ++ l2 → u.1 ≠ y.1) ∧ x.1 ≠ y.1 ∧ (∀ u, u ∈ l1 ++ y :: l2 → u.1 < x.1 ∨ x.1 + 8 * x.2 < u.1) ∧ x ∈ free ∧ base < x.1 ∧ base ≤ y.1 ∧
  y.1 + 8 ≤ brk s ∧ x.1 + 8 * x.2 ≤ brk s ∧ brk s < 2 ^ 31.
Proof.
  pose proof (ul_lower _ _ U) as L. pose proof (ul_before _ _ U) as B. pose proof (ul_inside _ _ U) as In. pose proof (ul_brk _ _ U) as Bk. rewrite E in L, B, In.
  destruct (ul_split_cons s free l1 y (x :: l2) U E) as (l1' & El). destruct (El (x :: l2)) as [_ Ef]. specialize (Ef eq_refl).
  assert (Hf : x ∈ free) by (rewrite Ef; inl). pose proof (ul_above _ _ _ U Hf).
  apply Forall_app in In as [_ [Iy [Ix I2]%Forall_cons]%Forall_cons].
  assert (Hy : base ≤ y.1). { assert (Hy : y ∈ (base, 0) :: free) by (rewrite E; inl). apply elem_of_cons in Hy as [->|Hy]; [done|]. pose proof (ul_above _ _ _ U Hy). lia. }
  assert (L1 : ∀ u, u ∈ l1 → u.1 < y.1).
  { intros u (r1 & r2 & ->)%list_elem_of_split. rewrite <- app_assoc in L. simpl in L. apply adj_app in L as [_ L]. apply adj_trans in L; [|apply _].
    rewrite Forall_forall in L. specialize (L y ltac:(inl)). done. }
  apply adj_app in L as [_ [L3 L4]]. apply adj_app in B as [_ [_ B4]].
  assert (L2 : ∀ u, u ∈ l2 → x.1 + 8 * x.2 < u.1).
  { intros u Hu. destruct l2 as [|z l2']; [by apply elem_of_nil in Hu|]. destruct B4 as [B4 _]. destruct L4 as [_ L4]. unfold before in B4.
    apply elem_of_cons in Hu as [->|Hu]; [done|]. apply adj_trans in L4; [|apply _]. rewrite Forall_forall in L4. specialize (L4 u Hu). unfold lower in L4. lia. }
  unfold lower in L3. split_and!; [|lia| |done|done|done|lia|lia|lia].
  - intros u [Hu|Hu]%elem_of_app; [apply L1 in Hu|apply L2 in Hu]; lia.
  - intros u [Hu|[->|Hu]%elem_of_cons]%elem_of_app; [apply L1 in Hu|lia|apply L2 in Hu]; lia.
Qed.

Lemma carve_exact : x.2 = nu → ∃ s' free', carve y.1 x.1 nu c s = Ok (x.1 + 8) c s' ∧ carved s free x.1 nu s' free'.
Proof.
  intros En. destruct carve_facts as (D1 & Dxy & D2 & Hf & Hx1 & Hy1 & Ry & Rx & Bk). pose proof (ul_ring _ _ U) as R. rewrite E in R.
  apply ring_app in R as [R1 R2]. apply ring_cons in R2 as [Ry' R2]. apply ring_cons in R2 as [Rx' R2].
  destruct (ul_split_cons s free l1 y (x :: l2) U E) as (l1' & El). destruct (El (x :: l2)) as [_ Ef]. specialize (Ef eq_refl). destruct (El l2) as [El2 _].
  exists (set_freep y.1 (put s y.1 (Hdr (first l2) y.2))), (l1' ++ l2). unfold carve. split; [|split_and!; [split|..]].
  - rewrite (bind_Ok _ _ _ _ _ _ _ (get_hdr_run c s x.1 ltac:(lia))), (hdr_at_some _ _ _ Rx'). cbn [h_size h_ptr]. rewrite decide_True by done.
    unfold mbind at 1, M_bind at 1. rewrite (bind_Ok _ _ _ _ _ _ _ (get_hdr_run c s y.1 Ry)), (hdr_at_some _ _ _ Ry'). cbn [h_size h_ptr].
    rewrite (bind_Ok _ _ _ _ _ _ _ (put_hdr_run c s y.1 _ Ry)). rewrite ret_run. cbn [obind]. rewrite kmodify_bind. unfold plus, SIZEOF_HEADER. by rewrite u32_small by lia.
  - rewrite <- El2. cbn [set_freep put set_hdrs hdrs]. unfold ring. rewrite <- app_assoc. simpl. eapply adj_head; [apply adj_lnk_insert; [|exact R1]; intros u Hu; apply D1; inl|done|].
    apply (ring_put (hdrs s) y l2); [|done]. intros u Hu. apply D1. inl.
  - rewrite <- El2. pose proof (ul_before _ _ U) as B. rewrite E in B. apply adj_app in B as [B1 [B2 B3]]. eapply adj_head; [exact B1|done|]. destruct l2 as [|z l2']; [done|].
    destruct B3 as [B3 B4]. split; [|done]. unfold before in *. lia.
  - pose proof (ul_free _ _ U) as F. rewrite Ef in F. apply Forall_app in F as [F1 [_ F2]%Forall_cons]. by apply Forall_app.
  - rewrite <- El2. simpl. rewrite fmap_app. simpl. inl.
  - apply (ul_brk _ _ U).
  - done.
  - rewrite Ef, !heap_app, heap_cons, <- app_assoc. f_equiv. rewrite Permutation_app_comm. f_equiv. unfold bytes. by rewrite En.
  - unfold hdr_at. cbn [set_freep put set_hdrs hdrs]. rewrite lookup_insert_ne by done. by rewrite Rx'.
  - intros a Ha. cbn [set_freep put set_hdrs hdrs]. rewrite lookup_insert_ne; [done|]. intros <-. apply Ha. assert (Hy : y ∈ (base, 0) :: free) by (rewrite E; inl).
    apply elem_of_cons in Hy as [->|Hy]; [left|]. right. by apply (ul_address s).
Qed.

Lemma carve_split : nu < x.2 → ∃ s' free', carve y.1 x.1 nu c s = Ok (x.1 + 8 * (x.2 - nu) + 8) c s' ∧ carved s free (x.1 + 8 * (x.2 - nu)) nu s' free'.
Proof.
  intros En. destruct carve_facts as (D1 & Dxy & D2 & Hf & Hx1 & Hy1 & Ry & Rx & Bk). pose proof (ul_ring _ _ U) as R. rewrite E in R.
  apply ring_app in R as [R1 R2]. apply ring_cons in R2 as [Ry' R2]. apply ring_cons in R2 as [Rx' R2].
  destruct (ul_split_cons s free l1 y (x :: l2) U E) as (l1' & El). destruct (El (x :: l2)) as [_ Ef]. specialize (Ef eq_refl).
  set (x' := (x.1, x.2 - nu)). set (b := x.1 + 8 * (x.2 - nu)). set (s1 := put s x.1 (Hdr (first l2) (x.2 - nu))). destruct (El (x' :: l2)) as [El2 _].
  exists (set_freep y.1 (put s1 b (Hdr (h_ptr (hdr_at s1 b)) nu))), (l1' ++ x' :: l2). unfold carve. split; [|split_and!; [split|..]].
  - rewrite (bind_Ok _ _ _ _ _ _ _ (get_hdr_run c s x.1 ltac:(lia))), (hdr_at_some _ _ _ Rx'). cbn [h_size h_ptr]. rewrite decide_False by lia.
    unfold mbind at 1, M_bind at 1. rewrite (bind_Ok _ _ _ _ _ _ _ (put_hdr_run c s x.1 _ ltac:(lia))). fold (put s x.1 (Hdr (first l2) (x.2 - nu))). fold s1.
    assert (Pb : plus x.1 (x.2 - nu) = b) by (unfold plus, SIZEOF_HEADER; by rewrite u32_small by lia). rewrite Pb. assert (Rb : b + 8 ≤ brk s1) by (unfold b, s1; simpl; lia).
    rewrite (bind_Ok _ _ _ _ _ _ _ (get_hdr_run c s1 b Rb)), (bind_Ok _ _ _ _ _ _ _ (put_hdr_run c s1 b _ Rb)), ret_run. cbn [obind].
    rewrite kmodify_bind. unfold plus, SIZEOF_HEADER. rewrite u32_small by (unfold b; lia). done.
  - rewrite <- El2. cbn [set_freep put set_hdrs hdrs]. unfold ring. rewrite <- app_assoc. simpl. rewrite app_cons_eq. rewrite <- (app_assoc l1).
    assert (Db : ∀ u, u ∈ l1 ++ y :: l2 → u.1 ≠ b) by (intros u Hu; apply D2 in Hu; unfold b; lia).
    assert (R3 : adj (lnk (<[x.1 := Hdr (first l2) (x.2 - nu)]> (hdrs s))) ((l1 ++ [y]) ++ [x])).
    { apply adj_lnk_insert; [intros u Hu; assert (u ∈ l1 ++ y :: l2) as Hu' by inl; apply D2 in Hu'; lia|]. rewrite <- app_assoc. simpl. apply adj_app. split; [done|]. by split. }
    rewrite app_assoc. eapply adj_head; [apply adj_lnk_insert; [|exact R3]; intros u Hu; apply Db; inl|done|].
    apply (adj_lnk_insert _ b _ (x' :: l2)); [intros u [->|Hu]%elem_of_cons; [simpl; unfold b; lia|apply Db; inl]|].
    apply (ring_put (hdrs s) x' l2); [|done]. intros u Hu. assert (u ∈ l1 ++ y :: l2) as Hu' by inl. apply D2 in Hu'. simpl. lia.
  - rewrite <- El2. pose proof (ul_before _ _ U) as B. rewrite E in B. apply adj_app in B as [B1 [B2 B3]]. eapply adj_head; [exact B1|done|]. split; [done|].
    destruct l2 as [|z l2']; [done|]. destruct B3 as [B3 B4]. split; [|done]. unfold before in *. cbn [fst snd x']. lia.
  - pose proof (ul_free _ _ U) as F. rewrite Ef in F. apply Forall_app in F as [F1 [_ F2]%Forall_cons]. apply Forall_app. split; [done|]. constructor; [|done]. cbn [fst snd x' brk set_freep put set_hdrs s1]. lia.
  - rewrite <- El2. simpl. rewrite fmap_app. simpl. inl.
  - apply (ul_brk _ _ U).
  - done.
  - rewrite Ef, !heap_app, !heap_cons, <- !app_assoc. f_equiv. rewrite (Permutation_app_comm (heap l2)), app_assoc. f_equiv. unfold bytes. cbn [fst snd x'].
    rewrite <- seqZ_app by lia. replace (8 * (x.2 - nu) + 8 * nu) with (8 * x.2) by lia. done.
  - unfold hdr_at at 1. cbn [set_freep put set_hdrs hdrs]. by rewrite lookup_insert_eq.
  - intros a Ha. cbn [set_freep put set_hdrs hdrs s1]. rewrite !lookup_insert_ne; [done|..]; intros <-; apply Ha; right; [by apply (ul_address s)|].
    apply elem_of_heap. exists x. split; [done|]. unfold b. lia.
Qed.

Lemma carve_run : ∃ b s' free', carve y.1 x.1 nu c s = Ok (b + 8) c s' ∧ carved s free b nu s' free'.
Proof.
  destruct (decide (x.2 = nu)) as [En|En]; [destruct (carve_exact En) as (s' & f & H)|destruct carve_split as (s' & f & H); [lia|]]; eauto.
Qed.
End carve.

(** ** Asking the kernel for memory *)

(** The kernel never has more than the pages [kinit] frees. *)
Context (Hmem : ∀ b sz, can_grow b sz = true → sz ≤ 256 * PAGE).

Definition whole_pages (s : umem) : Prop := Z.rem (brk s) PAGE = 0 ∧ brk s ≤ 256 * PAGE.

(** The least the allocator asks for: [PAGE] headers. *)
Definition CHUNK : Z := PAGE * SIZEOF_HEADER.

Lemma ul_grown s free b h : ulist s free → brk s ≤ b < 2 ^ 31 → ulist (put (set_brk b s) (brk s) h) free.
Proof.
  intros U Hb. pose proof (ul_inside _ _ U) as In. pose proof (ul_brk _ _ U). rewrite Forall_forall in In. split; cbn [put set_hdrs set_brk hdrs brk freep].
  - apply adj_lnk_insert; [|apply (ul_ring _ _ U)]. intros u Hu. specialize (In u Hu). simpl in In. lia.
  - apply (ul_before _ _ U).
  - eapply Forall_impl; [apply (ul_free _ _ U)|]. simpl. lia.
  - apply (ul_freep _ _ U).
  - lia.
Qed.

Lemma sbrk_run c s : whole_pages s → 0 < brk s → sbrk can_grow CHUNK c s =
  (if can_grow (brk s) (brk s + CHUNK) then Ok (brk s) c (set_brk (brk s + CHUNK) s) else Ok (2 ^ 32 - 1) c s).
Proof.
  intros [Hr Hb] H0. unfold sbrk. rewrite kget_bind. unfold CHUNK, PAGE, SIZEOF_HEADER in *. rewrite s32_small by lia.
  rewrite decide_False; [by case_match|]. intros [N|]; [|lia]. apply N. rewrite Z.rem_mod_nonneg in * by lia. replace (4096 * 8) with (8 * 4096) by lia. by rewrite Z_mod_plus_full.
Qed.

Lemma morecore_run c s free nu : ulist s free → whole_pages s → nu ≤ PAGE →
  (can_grow (brk s) (brk s + CHUNK) = false ∧ morecore can_grow nu c s = Ok 0 c s) ∨
  ∃ s' free', morecore can_grow nu c s = Ok (freep s') c s' ∧ ulist s' free' ∧ whole_pages s' ∧ brk s' = brk s + CHUNK ∧
    heap free' ≡ₚ heap free ++ bytes (brk s, PAGE) ∧ (∃ u, u ∈ free' ∧ PAGE ≤ u.2) ∧ (length free' ≤ S (length free))%nat ∧
    (∀ a, a ∉ base :: heap free ++ bytes (brk s, PAGE) → hdrs s' !! a = hdrs s !! a).
Proof.
  intros U W Hnu. pose proof (ul_brk _ _ U) as Bk. assert (Em := sbrk_run c s W ltac:(lia)). unfold morecore. replace (if decide (nu < PAGE) then PAGE else nu) with PAGE by (case_decide; lia).
  change (u32 (PAGE * SIZEOF_HEADER)) with CHUNK. destruct (can_grow (brk s) (brk s + CHUNK)) eqn:G; rewrite (bind_Ok _ _ _ _ _ _ _ Em).
  2: { left. by rewrite decide_True. }
  right. destruct W as [W1 W2]. pose proof (Hmem _ _ G) as G'. unfold PAGE in W2, G'. rewrite decide_False by lia. unfold CHUNK, PAGE, SIZEOF_HEADER in G'.
  rewrite (bind_Ok _ _ _ _ _ _ _ (get_hdr_run c (set_brk (brk s + CHUNK) s) (brk s) ltac:(unfold CHUNK, PAGE, SIZEOF_HEADER; simpl; lia))).
  rewrite (bind_Ok _ _ _ _ _ _ _ (put_hdr_run c (set_brk (brk s + CHUNK) s) (brk s) _ ltac:(unfold CHUNK, PAGE, SIZEOF_HEADER; simpl; lia))).
  set (h := Hdr _ PAGE). change (set_hdrs _ _) with (put (set_brk (brk s + CHUNK) s) (brk s) h).
  replace (plus (brk s) 1) with (brk s + 8) by (unfold plus, SIZEOF_HEADER; rewrite u32_small by lia; done).
  assert (U' := ul_grown s free (brk s + CHUNK) h U ltac:(unfold CHUNK, PAGE, SIZEOF_HEADER; lia)).
  destruct (free_effect c _ free (brk s) PAGE U') as (s' & free' & Ef & Uf & Ef1 & Ef2 & Ef3 & Ef4 & Ef5).
  - lia.
  - done.
  - cbn [put set_hdrs brk set_brk]. unfold CHUNK, SIZEOF_HEADER. lia.
  - unfold hdr_at. cbn [put set_hdrs hdrs set_brk]. by rewrite lookup_insert_eq.
  - intros u Hu. left. pose proof (ul_free _ _ U) as F. rewrite Forall_forall in F. by apply F.
  - exists s', free'. rewrite (bind_Ok _ _ _ _ _ _ _ Ef). cbn [put set_hdrs brk set_brk] in Ef1. split_and!; [done|done| |done|done|done|done|].
    + split; rewrite Ef1; [|done]. unfold CHUNK, PAGE, SIZEOF_HEADER in *. rewrite Z.rem_mod_nonneg in * by lia. replace (4096 * 8) with (8 * 4096) by lia. by rewrite Z_mod_plus_full.
    + intros a Ha. assert (Hb : a ≠ brk s). { intros ->. apply Ha. rewrite elem_of_cons, elem_of_app, elem_of_bytes. right. right. unfold PAGE. simpl. lia. }
      rewrite Ef5; [|done|]; [cbn [put set_hdrs hdrs set_brk]; by rewrite lookup_insert_ne|]. intros (u & -> & Hu)%list_elem_of_fmap.
      apply Ha. apply elem_of_cons in Hu as [->|Hu]; [left|]. right. apply elem_of_app. left. by apply (ul_address s).
Qed.

(** ** malloc *)

(** One round from [freep] either takes a block or finds them all too small. *)
Lemma malloc_round c s free nu k : ulist s free → 1 ≤ nu → (S (length free) < k)%nat →
  (∃ b s' free', (h ← get_hdr (freep s); malloc_loop can_grow k nu (freep s) (h_ptr h)) c s = Ok (b + 8) c s' ∧ carved s free b nu s' free') ∨
  (Forall (λ u, u.2 < nu) free ∧
   (h ← get_hdr (freep s); malloc_loop can_grow k nu (freep s) (h_ptr h)) c s = grow nu (k - S (length free)) c s).
Proof.
  intros U Hnu Hk. pose proof (ul_freep _ _ U) as Hf. apply list_elem_of_fmap in Hf as (w & Hw & (f & Hf)%list_elem_of_lookup).
  set (l := (base, 0) :: free) in *. assert (Lf := lookup_lt_Some _ _ _ Hf). change (length l) with (S (length free)) in Lf.
  assert (Hb : Forall (λ u, u.1 + 8 ≤ brk s) l) by (eapply Forall_impl; [apply (ul_inside _ _ U)|]; simpl; lia).
  rewrite Hw, (bind_Ok _ _ _ _ _ _ _ (get_node c s l (ul_ring _ _ U) Hb f w Hf)). cbn [h_ptr].
  assert (Nx : ∃ j v, l !! j = Some v ∧ first (drop (S f) l) = v.1 ∧ (j = S f ∨ S f = length l ∧ j = 0)%nat).
  { destruct (next_index l f w Hf eq_refl) as [(v' & Hv' & ->)|[Ej ->]]; [exists (S f), v'|exists 0%nat, (base, 0)]; auto. }
  destruct Nx as (j & v & Hv & -> & Hj). assert (Lj := lookup_lt_Some _ _ _ Hv). change (length l) with (S (length free)) in Hj, Lj.
  assert (D : (if decide (j ≤ f) then f - j else length l - j + f)%nat = length free) by (change (length l) with (S (length free)); case_decide; lia).
  destruct (malloc_scan c s free U nu Hnu f w Hf Hw k f j w v Hf Hv Hj) as [(l1 & y & x & l2 & El & Hx & ->)|[Hs ->]].
  - fold l. rewrite D. lia.
  - left. destruct (carve_run c s free U nu Hnu l1 l2 x y El Hx) as (b & s' & free' & H). eauto.
  - right. fold l in Hs |- *. rewrite D in Hs |- *. split; [|done]. apply Forall_forall. intros u (i & Hi)%list_elem_of_lookup.
    apply (Hs (S i) u Hi). assert (Li := lookup_lt_Some _ _ _ Hi). clear D. change (length l) with (S (length free)). case_decide; lia.
Qed.

Lemma malloc_effect c s free nu k : ulist s free → whole_pages s → 1 ≤ nu ≤ PAGE → (4 + 2 * length free < k)%nat →
  let o := (h ← get_hdr (freep s); malloc_loop can_grow k nu (freep s) (h_ptr h)) c s in
  (∃ b s' free', o = Ok (b + 8) c s' ∧ carved s free b nu s' free') ∨
  (Forall (λ u, u.2 < nu) free ∧
    ((can_grow (brk s) (brk s + CHUNK) = false ∧ o = Ok 0 c s) ∨
     ∃ s1 free1 b s' free', o = Ok (b + 8) c s' ∧ carved s1 free1 b nu s' free' ∧ brk s1 = brk s + CHUNK ∧ whole_pages s1 ∧
       heap free1 ≡ₚ heap free ++ bytes (brk s, PAGE) ∧ (∀ a, a ∉ base :: heap free ++ bytes (brk s, PAGE) → hdrs s1 !! a = hdrs s !! a))).
Proof.
  intros U W Hnu Hk o. destruct (malloc_round c s free nu k U ltac:(lia) ltac:(lia)) as [H|[Hs E]]; [by left|right]. split; [done|].
  unfold o. rewrite E. unfold grow. destruct (morecore_run c s free nu U W ltac:(lia)) as [[G Em]|(s1 & free1 & Em & U1 & W1 & B1 & P1 & L1 & N1 & Un)].
  - left. by rewrite (bind_Ok _ _ _ _ _ _ _ Em), decide_True.
  - right. rewrite (bind_Ok _ _ _ _ _ _ _ Em). assert (F0 : freep s1 ≠ 0).
    { pose proof (ul_freep _ _ U1) as Hf. apply list_elem_of_fmap in Hf as (w & -> & Hf). apply elem_of_cons in Hf as [->|Hf]; [simpl; lia|]. pose proof (ul_above _ _ _ U1 Hf). lia. }
    rewrite decide_False by done. exists s1, free1. destruct (malloc_round c s1 free1 nu (k - S (length free)) U1 ltac:(lia) ltac:(lia)) as [(b & s' & free' & E' & C)|[Hs1 _]].
    + exists b, s', free'. done.
    + exfalso. destruct L1 as (u & Hu & Hl). rewrite Forall_forall in Hs1. specialize (Hs1 u Hu). lia.
Qed.

(** ** The allocator as a whole *)

(** [free] are the blocks of the free list and [alloc] those handed out; before the first
    call there are neither. *)
Record uinv (s : umem) (free alloc : list (Z * Z)) : Prop := {
  ui_list : (freep s = 0 ∧ free = [] ∧ alloc = []) ∨ ulist s free;
  ui_alloc : ∀ b, b ∈ alloc → 1 ≤ b.2 ∧ h_size (hdr_at s b.1) = b.2;
  ui_nodup : NoDup (heap (free ++ alloc));
  ui_in : ∀ z, z ∈ heap (free ++ alloc) → base + 8 ≤ z < brk s;
  ui_pages : whole_pages s ∧ base + 8 ≤ brk s }.

Lemma elem_of_block x l : x ∈ l → 1 ≤ x.2 → x.1 ∈ heap l.
Proof. intros Hx H1. apply elem_of_heap. exists x. split; [done|lia]. Qed.

Lemma heap_disjoint l i j x y : NoDup (heap l) → l !! i = Some x → l !! j = Some y → i ≠ j → 1 ≤ x.2 → 1 ≤ y.2 →
  x.1 + 8 * x.2 ≤ y.1 ∨ y.1 + 8 * y.2 ≤ x.1.
Proof.
  assert (W : ∀ l i j x y, NoDup (heap l) → l !! i = Some x → l !! j = Some y → (i < j)%nat → 1 ≤ x.2 → 1 ≤ y.2 → x.1 + 8 * x.2 ≤ y.1 ∨ y.1 + 8 * y.2 ≤ x.1).
  { clear. intros l i j x y N Hi Hj Hij H1 H2. rewrite <- (take_drop_middle l i x Hi), heap_app, heap_cons in N. apply NoDup_app in N as (_ & _ & (_ & N & _)%NoDup_app).
    assert (Hy : y ∈ drop (S i) l). { apply list_elem_of_lookup. exists (j - S i)%nat. rewrite lookup_drop, <- Hj. f_equal. lia. }
    destruct (decide (x.1 + 8 * x.2 ≤ y.1)); [by left|]. destruct (decide (y.1 + 8 * y.2 ≤ x.1)); [by right|]. exfalso.
    apply (N (Z.max x.1 y.1)); [apply elem_of_bytes; lia|]. apply elem_of_heap. exists y. split; [done|lia]. }
  intros N Hi Hj Hij H1 H2. destruct (decide (i < j)%nat); [by eapply W|]. destruct (W l j i y x N Hj Hi) as [?|?]; auto; lia.
Qed.

(** Handing out a block of the free list, and taking one back. *)
Lemma carved_uinv s free alloc b nu s' free' : NoDup (heap (free ++ alloc)) → (∀ z, z ∈ heap (free ++ alloc) → base + 8 ≤ z < brk s) →
  (∀ b, b ∈ alloc → 1 ≤ b.2 ∧ h_size (hdr_at s b.1) = b.2) → whole_pages s → 1 ≤ nu → carved s free b nu s' free' →
  uinv s' free' ((b, nu) :: alloc) ∧ ∀ z, z ∈ heap alloc → hdrs s' !! z = hdrs s !! z.
Proof.
  intros N In Al W Hnu (U & B & P & Hs & Un). assert (Pm : heap (free' ++ (b, nu) :: alloc) ≡ₚ heap (free ++ alloc)).
  { rewrite !heap_app, heap_cons, P, app_assoc. done. }
  assert (Un' : ∀ z, z ∈ heap alloc → hdrs s' !! z = hdrs s !! z).
  { intros z Hz. apply Un. rewrite elem_of_cons. intros [->|Hz'].
    - specialize (In base). rewrite heap_app, elem_of_app in In. specialize (In (or_intror Hz)). lia.
    - rewrite heap_app in N. apply NoDup_app in N as (_ & N & _). by apply (N z). }
  split; [|done]. split.
  - by right.
  - intros x [->|Hx]%elem_of_cons; [done|]. destruct (Al x Hx) as [H1 H2]. split; [done|]. unfold hdr_at. rewrite Un'; [done|]. by apply elem_of_block.
  - by rewrite Pm.
  - intros z. rewrite Pm, B. apply In.
  - pose proof (ul_brk _ _ U). unfold whole_pages. rewrite B in *. split; [done|lia].
Qed.

Lemma free_uinv c s free r1 b m r2 : uinv s free (r1 ++ (b, m) :: r2) →
  ∃ s' free', Umalloc.free (b + 8) c s = Ok () c s' ∧ uinv s' free' (r1 ++ r2) ∧ brk s' = brk s ∧ heap free' ≡ₚ heap free ++ bytes (b, m) ∧
    ∀ z, z ∈ heap (r1 ++ r2) → hdrs s' !! z = hdrs s !! z.
Proof.
  intros [L Al N In [W Bk]]. assert (Hb : (b, m) ∈ r1 ++ (b, m) :: r2) by inl. destruct (Al _ Hb) as [Hm Hs]. simpl in Hm, Hs.
  destruct L as [(_ & _ & L)|U]; [by destruct r1|]. 
  assert (Hin : ∀ z, b ≤ z < b + 8 * m → base + 8 ≤ z < brk s).
  { intros z Hz. apply In. rewrite heap_app, elem_of_app. right. apply elem_of_heap. by exists (b, m). }
  pose proof (Hin b ltac:(lia)) as Hb1. pose proof (Hin (b + 8 * m - 1) ltac:(lia)) as Hb2.
  assert (Pm : heap (free ++ r1 ++ (b, m) :: r2) ≡ₚ (heap free ++ bytes (b, m)) ++ heap (r1 ++ r2)).
  { rewrite !heap_app, heap_cons. rewrite <- !app_assoc. f_equiv. rewrite !app_assoc. f_equiv. apply Permutation_app_comm. }
  destruct (free_effect c s free b m U) as (s' & free' & Ef & U' & B' & P' & _ & _ & Un); [lia|lia|lia|done| |].
  { intros u Hu. pose proof (ul_free _ _ U) as F. rewrite Forall_forall in F. specialize (F u Hu). simpl in F. apply list_elem_of_lookup in Hu as [i Hi].
    pose proof (lookup_lt_Some _ _ _ Hi). apply (heap_disjoint _ i (length free + length r1) u (b, m) N); [|..|lia|simpl; lia|simpl; lia].
    - by rewrite lookup_app_l by lia.
    - rewrite lookup_app_r, Nat.add_comm, Nat.add_sub, lookup_app_r, Nat.sub_diag by lia. done. }
  assert (Un' : ∀ z, z ∈ heap (r1 ++ r2) → hdrs s' !! z = hdrs s !! z).
  { intros z Hz. rewrite Pm in N. apply NoDup_app in N as (_ & N & _).
    apply Un; [intros ->; apply (N b); [|done]; rewrite elem_of_app, elem_of_bytes; simpl; right; lia|]. intros (u & -> & [->|Hu]%elem_of_cons)%list_elem_of_fmap.
    - simpl in Hz. specialize (In base). rewrite Pm, elem_of_app in In. specialize (In (or_intror Hz)). lia.
    - apply (N u.1); [|done]. rewrite elem_of_app. left. by apply (ul_address s). }
  exists s', free'. split_and!; [done| |done|done|done]. split.
  - by right.
  - intros x Hx. destruct (Al x) as [H1 H2]; [inl|]. split; [done|]. unfold hdr_at. rewrite Un'; [done|]. by apply elem_of_block.
  - rewrite heap_app, P', <- Pm. done.
  - intros z. rewrite heap_app, P', <- Pm, B'. apply In.
  - unfold whole_pages. rewrite B'. done.
Qed.

(** The headers of a block for [n] bytes: one for itself and enough for the data. *)
Definition units (n : Z) : Z := (n + 7) / 8 + 1.

Lemma units_range n : 0 ≤ n ≤ 8 * (PAGE - 1) → 1 ≤ units n ≤ PAGE ∧ n + 8 ≤ 8 * units n.
Proof. unfold units, PAGE. intros H. pose proof (Z.div_mod (n + 7) 8). pose proof (Z.mod_pos_bound (n + 7) 8). lia. Qed.

(** What [malloc] has set up when its search begins. *)
Lemma malloc_start c s free alloc n : uinv s free alloc → 0 ≤ n ≤ 8 * (PAGE - 1) →
  ∃ s1, uinv s1 free alloc ∧ ulist s1 free ∧ brk s1 = brk s ∧ (∀ z, z ∈ heap alloc → hdrs s1 !! z = hdrs s !! z) ∧
    malloc base can_grow n c s =
      (h ← get_hdr (freep s1); malloc_loop can_grow (4 + 2 * size (hdrs s1)) (units n) (freep s1) (h_ptr h)) c s1.
Proof.
  intros [L Al N In [W Bk]] Hn. unfold malloc. rewrite kget_bind. replace (u32 (n + SIZEOF_HEADER - 1) / SIZEOF_HEADER + 1) with (units n).
  2: { unfold units, SIZEOF_HEADER, PAGE in *. rewrite u32_small by lia. do 2 f_equal. lia. }
  destruct L as [(F0 & -> & ->)|U].
  - exists (set_freep base (put s base (Hdr base 0))). destruct W as [W1 W2]. assert (U' : ulist (set_freep base (put s base (Hdr base 0))) []).
    { unfold PAGE in W2. split; cbn [set_freep put set_hdrs hdrs brk freep]; [|done|done|by left|lia]. apply ring_cons. by rewrite lookup_insert_eq. }
    split_and!; [|done|done|by intros z ?%elem_of_nil|].
    + split; [by right|by intros b ?%elem_of_nil|constructor|by intros z ?%elem_of_nil|done].
    + rewrite decide_True by done. unfold mbind at 1, M_bind at 1. rewrite (bind_Ok _ _ _ _ _ _ _ (put_hdr_run c s base _ Bk)). done.
  - exists s. split_and!; [|done|done|done|].
    + split; [by right|done..].
    + assert (F0 : freep s ≠ 0).
      { pose proof (ul_freep _ _ U) as Hf. apply list_elem_of_fmap in Hf as (w & -> & Hf). apply elem_of_cons in Hf as [->|Hf]; [simpl; lia|]. pose proof (ul_above _ _ _ U Hf). lia. }
      rewrite decide_False by done. done.
Qed.

Lemma malloc_uinv c s free alloc n : uinv s free alloc → 0 ≤ n ≤ 8 * (PAGE - 1) →
  ∃ a s' free', malloc base can_grow n c s = Ok a c s' ∧ (∀ z, z ∈ heap alloc → hdrs s' !! z = hdrs s !! z) ∧
    ((a = 0 ∧ uinv s' free alloc ∧ Forall (λ u, u.2 < units n) free ∧ can_grow (brk s) (brk s + CHUNK) = false) ∨
     (a ≠ 0 ∧ uinv s' free' ((a - 8, units n) :: alloc) ∧ heap free' ++ bytes (a - 8, units n) ≡ₚ heap free ++ seqZ (brk s) (brk s' - brk s) ∧
      (brk s' = brk s ∨ Forall (λ u, u.2 < units n) free ∧ brk s' = brk s + CHUNK))).
Proof.
  intros I Hn. destruct (units_range n Hn) as [Hu _]. destruct (malloc_start c s free alloc n I Hn) as (s1 & [L Al N In [W Bk]] & U & B1 & Un & ->). rewrite <- B1.
  pose proof (ring_size _ _ (ul_ring _ _ U) (ul_lower _ _ U)) as Sz. simpl in Sz.
  assert (Nz : ∀ b s' free' s0 free0, carved s0 free0 b (units n) s' free' → (∀ z, z ∈ heap free0 → base + 8 ≤ z) → b + 8 ≠ 0).
  { intros b s' free' s0 free0 (_ & _ & P & _) Hz. specialize (Hz b). rewrite P, elem_of_app, elem_of_bytes in Hz. simpl in Hz. specialize (Hz ltac:(lia)). lia. }
  destruct (malloc_effect c s1 free (units n) (4 + 2 * size (hdrs s1)) U W Hu ltac:(lia)) as [(b & s' & free' & -> & C)|[Hs [[G ->]|(s2 & free2 & b & s' & free' & -> & C & B2 & W2 & P2 & Un2)]]].
  - exists (b + 8), s', free'. destruct (carved_uinv s1 free alloc b (units n) s' free' N In Al W ltac:(lia) C) as [I' Un']. rewrite Z.add_simpl_r.
    split_and!; [done|intros z Hz; rewrite Un' by done; auto|]. right. assert (C' := C). destruct C as (_ & B & P & _). rewrite B, Z.sub_diag, app_nil_r. split_and!; [|done|done|by left].
    eapply Nz; [exact C'|]. intros z Hz. apply In. rewrite heap_app, elem_of_app. by left.
  - exists 0, s1, free. split_and!; [done|done|]. left. split_and!; [done| |done|done]. split; [by right|done..].
  - assert (In2 : ∀ z, z ∈ heap (free2 ++ alloc) → base + 8 ≤ z < brk s2).
    { intros z. rewrite heap_app, P2. rewrite !elem_of_app, elem_of_bytes. cbn [fst snd]. rewrite B2. unfold CHUNK, SIZEOF_HEADER, PAGE. intros [[Hz|Hz]|Hz]; [specialize (In z)|lia|specialize (In z)]; rewrite heap_app, elem_of_app in In; intuition lia. }
    assert (Dj : ∀ z, z ∈ heap (free ++ alloc) → z ∉ bytes (brk s1, PAGE)) by (intros z Hz; rewrite elem_of_bytes; simpl; specialize (In z Hz); lia).
    assert (Un3 : ∀ z, z ∈ heap alloc → hdrs s2 !! z = hdrs s1 !! z).
    { intros z Hz. assert (Hz' : z ∈ heap (free ++ alloc)) by (rewrite heap_app, elem_of_app; by right). apply Un2. rewrite elem_of_cons, elem_of_app.
      intros [->|[Hz2|Hz2]]; [specialize (In base Hz'); lia| |by eapply Dj]. rewrite heap_app in N. apply NoDup_app in N as (_ & N & _). by apply (N z). }
    destruct (carved_uinv s2 free2 alloc b (units n) s' free') as [I' Un']; [|done| |done|lia|done|].
    { rewrite heap_app, P2. rewrite <- app_assoc, (Permutation_app_comm (bytes _)), app_assoc, <- heap_app. apply NoDup_app. split_and!; [done|done|apply NoDup_seqZ]. }
    { intros x Hx. destruct (Al x Hx) as [H1 H2]. split; [done|]. unfold hdr_at. rewrite Un3; [done|]. by apply elem_of_block. }
    exists (b + 8), s', free'. rewrite Z.add_simpl_r. split_and!; [done|intros z Hz; rewrite Un', Un3 by done; auto|]. right. assert (C' := C). destruct C as (_ & B & P & _).
    split_and!; [|done| |right; split; [done|lia]].
    + eapply Nz; [exact C'|]. intros z Hz. apply In2. rewrite heap_app, elem_of_app. by left.
    + rewrite <- P, P2. unfold bytes. cbn [fst snd]. replace (brk s' - brk s1) with (8 * PAGE) by (unfold CHUNK, SIZEOF_HEADER in *; lia). apply Permutation_refl.
Qed.

(** [malloc] of up to a page of headers, from any state of the heap: it returns,
    without touching a byte of the blocks in use.  It hands out a block with a header and
    room for the bytes asked for, whose bytes were free or have just been got from the
    kernel, and keeps all others free; it asks the kernel only when every free block is too
    small, and returns 0, with nothing changed, only when the kernel then has no memory. *)
Theorem malloc_correct c s free alloc n : uinv s free alloc → 0 ≤ n ≤ 8 * (PAGE - 1) →
  n + 8 ≤ 8 * units n ∧ ∃ a s' free', malloc base can_grow n c s = Ok a c s' ∧ (∀ z, z ∈ heap alloc → hdrs s' !! z = hdrs s !! z) ∧
    ((a = 0 ∧ uinv s' free alloc ∧ Forall (λ u, u.2 < units n) free ∧ can_grow (brk s) (brk s + CHUNK) = false) ∨
     (a ≠ 0 ∧ uinv s' free' ((a - 8, units n) :: alloc) ∧ heap free' ++ bytes (a - 8, units n) ≡ₚ heap free ++ seqZ (brk s) (brk s' - brk s) ∧
      (brk s' = brk s ∨ Forall (λ u, u.2 < units n) free ∧ brk s' = brk s + CHUNK))).
Proof. intros I Hn. split; [by apply units_range|by apply malloc_uinv]. Qed.

(** A program that calls [malloc] and [free]: [live] are the pointers it has, with the
    sizes it asked for. *)
Inductive ustep (c : kctx) : umem * list (Z * Z) → umem * list (Z * Z) → Prop :=
| us_malloc s live n a s' : 0 ≤ n ≤ 8 * (PAGE - 1) → malloc base can_grow n c s = Ok a c s' → a ≠ 0 → ustep c (s, live) (s', (a, n) :: live)
| us_malloc_fails s live n s' : 0 ≤ n ≤ 8 * (PAGE - 1) → malloc base can_grow n c s = Ok 0 c s' → ustep c (s, live) (s', live)
| us_free s l1 a n l2 s' : Umalloc.free a c s = Ok () c s' → ustep c (s, l1 ++ (a, n) :: l2) (s', l1 ++ l2).

Definition blocks_of (live : list (Z * Z)) : list (Z * Z) := (λ p, (p.1 - 8, units p.2)) <$> live.

Lemma ustep_uinv c p q : rtc (ustep c) p q → ∀ free, uinv p.1 free (blocks_of p.2) → Forall (λ x, 0 ≤ x.2 ≤ 8 * (PAGE - 1)) p.2 →
  ∃ free', uinv q.1 free' (blocks_of q.2) ∧ Forall (λ x, 0 ≤ x.2 ≤ 8 * (PAGE - 1)) q.2.
Proof.
  induction 1 as [|p p' q Hst Hr IH]; [eauto|]. intros free I F.
  inversion Hst as [s live n a s' Hn E Ha|s live n s' Hn E|s l1 a n l2 s' E]; subst p p'; simpl in *.
  - destruct (malloc_uinv c s free _ n I Hn) as (a' & s1 & free' & E' & _ & H). rewrite E in E'. injection E' as <- <-.
    destruct H as [[-> _]|(_ & I' & _)]; [done|]. apply (IH free'); [done|]. by constructor.
  - destruct (malloc_uinv c s free _ n I Hn) as (a' & s1 & free' & E' & _ & H). rewrite E in E'. injection E' as <- <-.
    destruct H as [(_ & I' & _)|[N _]]; [|done]. by apply (IH free).
  - unfold blocks_of in I. rewrite fmap_app in I. simpl in I. destruct (free_uinv c s free _ _ _ _ I) as (s1 & free' & E' & I' & _).
    rewrite Z.sub_add, E in E'. injection E' as <-. apply (IH free'); [unfold blocks_of; by rewrite fmap_app|].
    apply Forall_app in F as [F1 [_ F2]%Forall_cons]. by apply Forall_app.
Qed.

(** C14 A program, starting with nothing allocated in a process of whole pages, may call
    [free] and [malloc] with sizes up to 32760 bytes (a page of headers less the block's
    own, 8 * (PAGE - 1)) in any order: the blocks it holds never overlap each other, nor
    each other's headers, and lie between the allocator's own header and the end of the
    process; the next call of [malloc] with such a size returns, and so does that of
    [free] for any block it holds, with no fault and no endless search.  The limit is
    needed: a larger size can stop the kernel ([malloc_large_fails]). *)
Theorem umalloc_safe c s0 s live : freep s0 = 0 → whole_pages s0 → base + 8 ≤ brk s0 → rtc (ustep c) (s0, []) (s, live) →
  (∀ i j p q, live !! i = Some p → live !! j = Some q → i ≠ j → p.1 + p.2 ≤ q.1 - 8 ∨ q.1 + q.2 ≤ p.1 - 8) ∧
  (∀ p, p ∈ live → base + 8 ≤ p.1 - 8 ∧ p.1 + p.2 ≤ brk s) ∧
  (∀ n, 0 ≤ n ≤ 8 * (PAGE - 1) → ∃ a s', malloc base can_grow n c s = Ok a c s') ∧
  (∀ p, p ∈ live → ∃ s', Umalloc.free p.1 c s = Ok () c s').
Proof.
  intros F0 W Bk Hr. destruct (ustep_uinv c _ _ Hr []) as (free & I & F).
  { split; [by left|by intros b ?%elem_of_nil|constructor|by intros z ?%elem_of_nil|done]. } { constructor. }
  simpl in I, F. rewrite Forall_forall in F. assert (Hb : ∀ p, p ∈ live → (p.1 - 8, units p.2) ∈ blocks_of live) by (intros p Hp; apply list_elem_of_fmap; eauto).
  split_and!.
  - intros i j p q Hi Hj Hij. destruct (units_range p.2) as [P1 P2]; [apply F; by eapply list_elem_of_lookup_2|].
    destruct (units_range q.2) as [Q1 Q2]; [apply F; by eapply list_elem_of_lookup_2|]. pose proof (ui_nodup _ _ _ I) as N. rewrite heap_app in N. apply NoDup_app in N as (_ & _ & N).
    destruct (heap_disjoint _ i j (p.1 - 8, units p.2) (q.1 - 8, units q.2) N) as [D|D]; [unfold blocks_of; by rewrite list_lookup_fmap, ?Hi, ?Hj..|done|simpl; lia|simpl; lia|left|right]; simpl in D; lia.
  - intros p Hp. destruct (units_range p.2 (F p Hp)) as [P1 P2]. assert (In : ∀ z, p.1 - 8 ≤ z < p.1 - 8 + 8 * units p.2 → base + 8 ≤ z < brk s).
    { intros z Hz. apply (ui_in _ _ _ I). rewrite heap_app, elem_of_app, !elem_of_heap. right. eexists. split; [by apply Hb|done]. }
    pose proof (In (p.1 - 8)). pose proof (In (p.1 - 8 + 8 * units p.2 - 1)). lia.
  - intros n Hn. destruct (malloc_uinv c s free _ n I Hn) as (a & s' & _ & E & _). eauto.
  - intros p (l1 & l2 & ->)%list_elem_of_split. unfold blocks_of in I. rewrite fmap_app in I. simpl in I.
    destruct (free_uinv c s free _ _ _ _ I) as (s' & _ & E & _). rewrite Z.sub_add in E. eauto.
Qed.
End proofs.

(** ** Examples *)

(** A process of one page; the kernel has 256. *)
Definition one_page : umem := UMem ∅ 0 4096.
Definition has_pages (_ sz : Z) : bool := bool_decide (sz ≤ 256 * PAGE).
Definition no_ctx : kctx := KCtx [] [].
Definition mem_of {A} (o : outcome umem A) : umem := match o with Ok _ _ s => s | _ => one_page end.

Lemma has_pages_fit b sz : has_pages b sz = true → sz ≤ 256 * PAGE.
Proof. apply bool_decide_eq_true_1. Qed.

Lemma malloc_correct_witness : ∃ s' free', malloc 800 has_pages 100 no_ctx one_page = Ok 36760 no_ctx s' ∧
  uinv 800 s' free' [(36752, 14)] ∧ brk s' = 36864.
Proof.
  assert (I : uinv 800 one_page [] []) by (split; [by left|by intros b ?%elem_of_nil|constructor|by intros z ?%elem_of_nil|done]).
  destruct (malloc_correct 800 has_pages eq_refl has_pages_fit no_ctx one_page [] [] 100 I ltac:(unfold PAGE; lia)) as (_ & a & s' & free' & E & _ & H).
  assert (V : match malloc 800 has_pages 100 no_ctx one_page with Ok a _ s => bool_decide (a = 36760 ∧ brk s = 36864) | _ => false end = true) by (vm_compute; reflexivity).
  rewrite E in V. apply bool_decide_eq_true_1 in V as [-> V]. exists s', free'. split; [done|]. destruct H as [[H0 _]|(_ & I' & _)]; [discriminate H0|]. split; [exact I'|exact V].
Defined.

(** Two blocks, the first given back, and another. *)
Lemma umalloc_safe_witness : ∃ s a b, rtc (ustep 800 has_pages no_ctx) (one_page, []) (s, [(a, 8); (b, 200)]) ∧
  (a + 8 ≤ b - 8 ∨ b + 200 ≤ a - 8).
Proof.
  set (s1 := mem_of (malloc 800 has_pages 100 no_ctx one_page)). set (s2 := mem_of (malloc 800 has_pages 200 no_ctx s1)).
  set (s3 := mem_of (Umalloc.free 36760 no_ctx s2)). set (s4 := mem_of (malloc 800 has_pages 8 no_ctx s3)).
  assert (R : rtc (ustep 800 has_pages no_ctx) (one_page, []) (s4, [(36856, 8); (36552, 200)])).
  { eapply rtc_l; [apply (us_malloc _ _ _ one_page [] 100 36760 s1); [unfold PAGE; lia|by vm_compute|done]|].
    eapply rtc_l; [apply (us_malloc _ _ _ s1 _ 200 36552 s2); [unfold PAGE; lia|by vm_compute|done]|].
    eapply rtc_l; [apply (us_free _ _ _ s2 [(36552, 200)] 36760 100 [] s3); by vm_compute|].
    eapply rtc_l; [apply (us_malloc _ _ _ s3 _ 8 36856 s4); [unfold PAGE; lia|by vm_compute|done]|]. reflexivity. }
  exists s4, 36856, 36552. split; [done|].
  assert (W : whole_pages one_page) by done. assert (Bk : 800 + 8 ≤ brk one_page) by done.
  destruct (umalloc_safe 800 has_pages eq_refl has_pages_fit no_ctx one_page s4 _ eq_refl W Bk R) as (D & _).
  exact (D 0%nat 1%nat (36856, 8) (36552, 200) eq_refl eq_refl ltac:(done)).
Defined.

(** Beyond a page of headers [malloc] fails in two ways.  A size that makes [morecore] ask
    for something other than whole pages stops the kernel; a size that wraps around in
    the computation of the units is taken for a small one, and a block without a single
    byte of room is returned for four gigabytes. *)
Theorem malloc_large_fails :
  (∃ s, malloc 800 has_pages 40000 no_ctx one_page = Panic "kalloc" s) ∧
  (∃ s, malloc 800 has_pages (2 ^ 32 - 7) no_ctx one_page = Ok 36864 no_ctx s ∧ brk s = 36864).
Proof. split; eexists; [by vm_compute|]. split; [|]; by vm_compute. Qed.
