(* ===== verification/Mkfs.v ===== *)
(** * Making a file system (mkfs.c)

    The tool that writes the disk image: the super block, the root directory, one file
    per argument, and the bitmap.  The state is the image, as the list of its sectors, and
    the global counters.  [exit(1)] and a failed [assert] are panics.

    Numbers are written in the byte order of the i386 ([xshort], [xint]); the structures
    of fs.h are those of FsDisk.  A file to be copied is its name and the pieces
    [read] returns; [read] is free to cut the file anywhere.

    [wsect(1, &sb)] writes 512 bytes from the address of a structure of 12: what follows
    it in memory is the parameter [after_sb]. *)
From S2P Require Import Prelude Kernel ProcData FsDisk Fs.
Local Open Scope Z_scope.

Definition nblocks : Z := 995.
Definition ninodes : Z := 200.
Definition fssize : Z := 1024.

Record mkst := MkSt { img : list block; freeblock : Z; usedblocks : Z; freeinode : Z }.

Definition set_img v s := MkSt v (freeblock s) (usedblocks s) (freeinode s).
Definition set_counts f u s := MkSt (img s) f u (freeinode s).
Definition set_freeinode v s := MkSt (img s) (freeblock s) (usedblocks s) v.

(** The bytes are stored one by one, so that a little-endian reader sees [x]. *)
Definition xshort (x : Z) : Z := u8 x + 2 ^ 8 * u8 (Z.shiftr x 8).
Definition xint (x : Z) : Z :=
  u8 x + 2 ^ 8 * u8 (Z.shiftr x 8) + 2 ^ 16 * u8 (Z.shiftr x 16) + 2 ^ 24 * u8 (Z.shiftr x 24).

(** ** Sectors *)

(** A write past the end of the image makes it longer; a read there is short. *)
Definition wsect (sec : Z) (buf : block) : M mkst unit :=
  s ← kget;
  let k := Z.to_nat sec in
  kput (set_img (if decide (k < length (img s))%nat then <[k := buf]> (img s)
                 else img s ++ replicate (k - length (img s)) zero_block ++ [buf]) s).
Definition rsect (sec : Z) : M mkst block :=
  s ← kget;
  match img s !! Z.to_nat sec with Some d => mret d | None => panic "read" end.

(** ** Inodes *)
Definition i2b (inum : Z) : Z := inum / IPB + 2.

Definition winode (inum : Z) (ip : dinode) : M mkst unit :=
  buf ← rsect (i2b inum); wsect (i2b inum) (put_dinode buf (inum mod IPB) ip).
Definition rinode (inum : Z) : M mkst dinode :=
  buf ← rsect (i2b inum); mret (dinode_at buf (inum mod IPB)).

Definition ialloc (type : Z) : M mkst Z :=
  s ← kget;
  let inum := freeinode s in
  kput (set_freeinode (u32 (inum + 1)) s);;
  winode inum (Dinode (s16 (xshort type)) 0 0 (s16 (xshort 1)) (xint 0) (replicate NADDRS 0));;
  mret inum.

(** [xint(freeblock++); usedblocks++] *)
Definition next_block : M mkst Z :=
  s ← kget;
  kput (set_counts (u32 (freeblock s + 1)) (u32 (usedblocks s + 1)) s);;
  mret (xint (freeblock s)).

Definition set_addr (k : nat) (a : Z) (d : dinode) : dinode :=
  Dinode (d_type d) (d_major d) (d_minor d) (d_nlink d) (d_size d) (<[k := a]> (d_addrs d)).
Definition set_dsize (v : Z) (d : dinode) : dinode :=
  Dinode (d_type d) (d_major d) (d_minor d) (d_nlink d) v (d_addrs d).

(** The sector of block [fbn] of the file, allocated when there is none. *)
Definition iblock (din : dinode) (fbn : Z) : M mkst (dinode * Z) :=
  if decide (fbn < NDIRECT) then
    let k := Z.to_nat fbn in
    din ← (if decide (xint (d_addrs din !!! k) = 0) then a ← next_block; mret (set_addr k a din) else mret din);
    mret (din, xint (d_addrs din !!! k))
  else
    din ← (if decide (xint (d_addrs din !!! INDIRECT) = 0) then a ← next_block; mret (set_addr INDIRECT a din) else mret din);
    let o := 4 * (fbn - NDIRECT) in
    indirect ← rsect (xint (d_addrs din !!! INDIRECT));
    indirect ← (if decide (get32 indirect o = 0) then
                  a ← next_block;
                  wsect (xint (d_addrs din !!! INDIRECT)) (put32 indirect o a);;
                  mret (put32 indirect o a)
                else mret indirect);
    mret (din, xint (get32 indirect o)).

(** The loop of [iappend] over what is left of the data. *)
Fixpoint iappend_loop (k : nat) (din : dinode) (off : Z) (p : list Z) : M mkst (dinode * Z) :=
  match k with
  | O => diverge
  | S k =>
      if decide (0 < Z.of_nat (length p)) then
        let fbn := off / 512 in
        if decide (fbn >= MAXFILE) then panic "assert"
        else
          r ← iblock din fbn;
          let n1 := Z.min (Z.of_nat (length p)) ((fbn + 1) * 512 - off) in
          buf ← rsect r.2;
          wsect r.2 (splice buf (off - fbn * 512) (take (Z.to_nat n1) p));;
          iappend_loop k r.1 (u32 (off + n1)) (drop (Z.to_nat n1) p)
      else mret (din, off)
  end.
Definition iappend (inum : Z) (p : list Z) : M mkst unit :=
  din ← rinode inum;
  r ← iappend_loop (S (length p)) din (xint (d_size din)) p;
  winode inum (set_dsize (xint r.2) r.1).

(** ** The bitmap *)
Fixpoint set_bits (n : nat) (buf : block) : block :=
  match n with O => buf | S n => set_bit (set_bits n buf) (Z.of_nat n) end.
Definition balloc (used : Z) : M mkst unit :=
  if decide (used >= 512) then panic "assert"
  else wsect (ninodes / IPB + 3) (set_bits (Z.to_nat used) zero_block).

(** ** main *)

(** A zeroed [struct dirent] with its fields filled in. *)
Definition dirent (inum : Z) (name : list Z) : list Z :=
  put16 (splice (replicate 16 0) 2 (name_field (Z.to_nat DIRSIZ) name)) 0 (xshort inum).

Fixpoint zero_sectors (n : nat) (i : Z) : M mkst unit :=
  match n with O => mret () | S n => wsect i zero_block;; zero_sectors n (i + 1) end.

Fixpoint append_all (inum : Z) (chunks : list (list Z)) : M mkst unit :=
  match chunks with [] => mret () | c :: l => iappend inum c;; append_all inum l end.

(** "Skip leading _ in name when writing to file system." *)
Definition skip_underscore (name : list Z) : list Z :=
  match name with c :: t => if decide (c = 95) then t else name | [] => [] end.

Fixpoint copy_files (rootino : Z) (files : list (list Z * list (list Z))) : M mkst unit :=
  match files with
  | [] => mret ()
  | (name, chunks) :: files =>
      if decide (47 ∈ name) then panic "assert"
      else
        inum ← ialloc T_FILE;
        iappend rootino (dirent inum (skip_underscore name));;
        append_all inum chunks;;
        copy_files rootino files
  end.

Definition sb_sector (after_sb : list Z) : block :=
  put_words (replicate 12 0 ++ after_sb) 0 [xint fssize; xint nblocks; xint ninodes].

Definition mkfs (after_sb : list Z) (files : list (list Z * list (list Z))) : M mkst unit :=
  let bitblocks := fssize / (512 * 8) + 1 in
  let used := ninodes / IPB + 3 + bitblocks in
  kput (MkSt [] used used 1);;
  (if decide (nblocks + used ≠ fssize) then panic "assert" else mret ());;
  zero_sectors (Z.to_nat (nblocks + used)) 0;;
  wsect 1 (sb_sector after_sb);;
  rootino ← ialloc T_DIR;
  (if decide (rootino ≠ 1) then panic "assert" else mret ());;
  iappend rootino (dirent rootino [46]);;
  iappend rootino (dirent rootino [46; 46]);;
  copy_files rootino files;;
  din ← rinode rootino;
  let off := (xint (d_size din) / BSIZE + 1) * BSIZE in
  winode rootino (set_dsize (xint off) din);;
  s ← kget;
  balloc (usedblocks s).

Definition mkst0 : mkst := MkSt [] 0 0 1.
