(* ===== verification/MkfsInv.v ===== *)
(** * The invariant of the image under construction

    [own] says for each sector that is handed out which inode it belongs to and whether
    it is a block of the file or its indirect block.  [mfile] is a file as the image
    holds it: its blocks are its own, there is one for each 512 bytes begun, and their
    contents are those of the file.  Appending to one file keeps every other. *)
From S2P Require Import Prelude Kernel ProcData FsDisk Fs FsFile Mkfs.
Local Open Scope Z_scope.

(** The first data block. *)
Definition DATA0 : Z := 29.

Definition sect (im : list block) (a : Z) : block := default zero_block (im !! Z.to_nat a).
Definition mind (d : dinode) : Z := d_addrs d !!! INDIRECT.
Definition maddr (im : list block) (d : dinode) (j : Z) : Z :=
  if decide (j < NDIRECT) then d_addrs d !!! Z.to_nat j
  else if decide (mind d = 0) then 0 else get32 (sect im (mind d)) (4 * (j - NDIRECT)).
Definition mblk (im : list block) (d : dinode) (j : Z) : block :=
  if decide (maddr im d j = 0) then zero_block else sect im (maddr im d j).

Notation owners := (gmap Z (Z * option Z)).

Record mimg (im : list block) (fb : Z) (own : owners) : Prop := {
  mg_len : length im = Z.to_nat fssize;
  mg_ok : Forall block_ok im;
  mg_own : ∀ a o, own !! a = Some o → DATA0 ≤ a < fb;
  mg_fb : DATA0 ≤ fb ≤ 512;
  mg_zero : ∀ a, fb ≤ a < fssize → sect im a = zero_block }.

(** A byte of the file, zero past its end. *)
Definition cbyte (c : list Z) (x : Z) : Z := if decide (x < Z.of_nat (length c)) then get8 c x else 0.

Record mfile (im : list block) (own : owners) (inum : Z) (d : dinode) (c : list Z) : Prop := {
  mf_ok : dinode_ok d;
  mf_len : Z.of_nat (length c) ≤ MAXBYTES;
  mf_bytes : Forall byte c;
  mf_addr : ∀ j, 0 ≤ j < MAXFILE → maddr im d j ≠ 0 → own !! maddr im d j = Some (inum, Some j);
  mf_ind : mind d ≠ 0 → own !! mind d = Some (inum, None);
  mf_dense : ∀ j, 0 ≤ j < MAXFILE → maddr im d j ≠ 0 ↔ 512 * j < Z.of_nat (length c);
  mf_ind_iff : mind d ≠ 0 ↔ 512 * NDIRECT < Z.of_nat (length c);
  mf_data : ∀ j x, 0 ≤ j < MAXFILE → 0 ≤ x < 512 → get8 (mblk im d j) x = cbyte c (512 * j + x) }.

(** The sectors a file of [n] bytes takes. *)
Definition data_blocks (n : Z) : Z := (n + 511) / 512.
Definition need (n : Z) : Z := data_blocks n + (if decide (NDIRECT < data_blocks n) then 1 else 0).

(** What an operation on inode [inum] may change. *)
Record ext (inum : Z) (im : list block) (own : owners) (im' : list block) (own' : owners) : Prop := {
  ex_own : ∀ a o, own !! a = Some o → own' !! a = Some o;
  ex_low : ∀ a, 0 ≤ a < DATA0 → sect im' a = sect im a;
  ex_img : ∀ a i o, own !! a = Some (i, o) → i ≠ inum → sect im' a = sect im a }.

Lemma ext_refl inum im own : ext inum im own im own.
Proof. by split. Qed.
Lemma ext_trans inum im own im1 own1 im2 own2 : ext inum im own im1 own1 → ext inum im1 own1 im2 own2 → ext inum im own im2 own2.
Proof.
  intros [A1 A2 A3] [B1 B2 B3]. split; [by auto| |].
  - intros a Ha. by rewrite B2, A2.
  - intros a i o Ho Hi. rewrite (B3 a i o), (A3 a i o); auto.
Qed.

Lemma xint_id x : 0 ≤ x < 2 ^ 32 → xint x = x.
Proof.
  intros H. unfold xint, u8. rewrite !Z.shiftr_div_pow2 by lia.
  pose proof (Z.div_mod x (2 ^ 8)). pose proof (Z.div_mod (x / 2 ^ 8) (2 ^ 8)). pose proof (Z.div_mod (x / 2 ^ 16) (2 ^ 8)).
  assert (x / 2 ^ 16 = x / 2 ^ 8 / 2 ^ 8) by (rewrite Z.div_div by lia; done). assert (x / 2 ^ 24 = x / 2 ^ 16 / 2 ^ 8) by (rewrite Z.div_div by lia; done).
  assert (x / 2 ^ 24 < 2 ^ 8) by (apply Z.div_lt_upper_bound; lia). assert (0 ≤ x / 2 ^ 24) by (apply Z.div_pos; lia).
  rewrite (Z.mod_small (x / 2 ^ 24)) by lia. lia.
Qed.

Lemma xshort_id x : 0 ≤ x < 2 ^ 16 → xshort x = x.
Proof.
  intros H. unfold xshort, u8. rewrite !Z.shiftr_div_pow2 by lia. pose proof (Z.div_mod x (2 ^ 8)).
  assert (x / 2 ^ 8 < 2 ^ 8) by (apply Z.div_lt_upper_bound; lia). assert (0 ≤ x / 2 ^ 8) by (apply Z.div_pos; lia). rewrite (Z.mod_small (x / 2 ^ 8)) by lia. lia.
Qed.

(** ** Sectors *)
Lemma sect_put im a b d : 0 ≤ a < Z.of_nat (length im) → 0 ≤ b → sect (<[Z.to_nat a := d]> im) b = if decide (b = a) then d else sect im b.
Proof.
  intros Ha Hb. unfold sect. case_decide as E; [subst; by rewrite list_lookup_insert_eq by lia|]. rewrite list_lookup_insert_ne by lia. done.
Qed.

Lemma sect_ok im a : Forall block_ok im → block_ok (sect im a).
Proof. intros F. unfold sect. destruct (im !! Z.to_nat a) as [d|] eqn:E; [by eapply Forall_lookup in F|apply zero_block_ok]. Qed.

Lemma rsect_run c s a : 0 ≤ a < Z.of_nat (length (img s)) → rsect a c s = Ok (sect (img s) a) c s.
Proof.
  intros Ha. unfold rsect. rewrite kget_bind. unfold sect. destruct (lookup_lt_is_Some_2 (img s) (Z.to_nat a)) as [d ->]; [lia|done].
Qed.
Lemma wsect_run c s a d : 0 ≤ a < Z.of_nat (length (img s)) → wsect a d c s = Ok () c (set_img (<[Z.to_nat a := d]> (img s)) s).
Proof. intros Ha. unfold wsect. rewrite kget_bind. cbv zeta. by rewrite decide_True by lia. Qed.

Lemma dinode_addr d k : dinode_ok d → (k < NADDRS)%nat → 0 ≤ d_addrs d !!! k < 2 ^ 32.
Proof.
  intros O Hk. pose proof (do_addrs _ O) as F. rewrite Forall_lookup in F. destruct (lookup_lt_is_Some_2 (d_addrs d) k) as [a Ha]; [by rewrite (do_len _ O)|].
  rewrite list_lookup_total_alt, Ha. simpl. specialize (F k a Ha). rewrite <- F. apply u32_range.
Qed.

Lemma get32_range b o : Forall byte b → 0 ≤ get32 b o < 2 ^ 32.
Proof.
  intros F. unfold get32, get16. pose proof (get8_byte b o F). pose proof (get8_byte b (o + 1) F). pose proof (get8_byte b (o + 2) F). pose proof (get8_byte b (o + 2 + 1) F).
  unfold byte in *. lia.
Qed.

Lemma maddr_range im own inum d c j : mfile im own inum d c → Forall block_ok im → 0 ≤ j < MAXFILE → 0 ≤ maddr im d j < 2 ^ 32.
Proof.
  intros F O Hj. unfold maddr. case_decide; [apply dinode_addr; [apply (mf_ok _ _ _ _ _ F)|unfold NADDRS, NDIRECT in *; lia]|]. case_decide; [lia|]. apply get32_range, bo_bytes, sect_ok, O.
Qed.

Lemma maddr_frame im im' d : (mind d ≠ 0 → sect im' (mind d) = sect im (mind d)) → ∀ j, maddr im' d j = maddr im d j.
Proof. intros H j. unfold maddr. case_decide; [done|]. case_decide; [done|]. by rewrite H. Qed.

(** A file whose sectors keep their contents and owners is unchanged. *)
Lemma mfile_frame im own im' own' inum d c : mfile im own inum d c →
  (∀ a o, own !! a = Some (inum, o) → own' !! a = Some (inum, o) ∧ sect im' a = sect im a) → mfile im' own' inum d c.
Proof.
  intros [F1 F2 F3 F4 F5 F6 F7 F8] H. assert (E : ∀ j, maddr im' d j = maddr im d j) by (apply maddr_frame; intros; by eapply H, F5).
  split; [done|done|done|..].
  - intros j Hj. rewrite E. intros Ha. by apply H, F4.
  - intros Hi. by apply H, F5.
  - intros j Hj. rewrite E. by apply F6.
  - done.
  - intros j x Hj Hx. rewrite <- F8 by done. unfold mblk. rewrite E. case_decide; [done|]. f_equal. by eapply H, F4.
Qed.

Lemma mfile_ext im own im' own' inum i d c : mfile im own i d c → ext inum im own im' own' → i ≠ inum → mfile im' own' i d c.
Proof. intros F [E1 E2 E3] Hi. eapply mfile_frame; [done|]. intros a o Ho. split; [by apply E1|by eapply E3]. Qed.

(** ** Allocating *)
Definition counts (s : mkst) (fb : Z) : Prop := freeblock s = fb ∧ usedblocks s = fb.

Lemma next_block_run c s fb : counts s fb → 0 ≤ fb < 512 → next_block c s = Ok fb c (set_counts (fb + 1) (fb + 1) s).
Proof. intros [E1 E2] H. unfold next_block. rewrite kget_bind. unfold mbind, M_bind, kput. simpl. rewrite E1, E2, xint_id by lia. by rewrite u32_small by lia. Qed.

Lemma mimg_claim im fb own o : mimg im fb own → fb < 512 → mimg im (fb + 1) (<[fb := o]> own) ∧ own !! fb = None ∧ sect im fb = zero_block.
Proof.
  intros [M1 M2 M3 M4 M5] H. split_and!.
  - split; [done|done| |unfold DATA0 in *; lia|intros a Ha; apply M5; lia]. intros a o' [[<- _]|[_ Ha]]%lookup_insert_Some; [unfold DATA0 in *; lia|]. specialize (M3 _ _ Ha). lia.
  - destruct (own !! fb) eqn:E; [|done]. specialize (M3 _ _ E). lia.
  - apply M5. unfold fssize. lia.
Qed.

Lemma mimg_put im fb own a d : mimg im fb own → block_ok d → 0 ≤ a < fb → mimg (<[Z.to_nat a := d]> im) fb own.
Proof.
  intros [M1 M2 M3 M4 M5] Hd Ha. split; [by rewrite length_insert|by apply Forall_insert|done|done|].
  intros b Hb. unfold fssize, DATA0 in *. rewrite sect_put by (rewrite ?M1; lia). rewrite decide_False by lia. by apply M5.
Qed.

Lemma ext_claim inum im own fb o : own !! fb = None → ext inum im own im (<[fb := o]> own).
Proof. intros H. split; [|done|done]. intros a o' Ho. rewrite lookup_insert_ne; [done|]. intros ->. congruence. Qed.

Lemma own_range im fb own a o : mimg im fb own → own !! a = Some o → DATA0 ≤ a < fb ∧ 0 ≤ a < Z.of_nat (length im).
Proof. intros M Ho. pose proof (mg_own _ _ _ M _ _ Ho). pose proof (mg_fb _ _ _ M). rewrite (mg_len _ _ _ M). unfold DATA0, fssize in *. lia. Qed.

Lemma ext_put inum im fb own a d o : mimg im fb own → own !! a = Some (inum, o) → ext inum im own (<[Z.to_nat a := d]> im) own.
Proof.
  intros M Ho. destruct (own_range _ _ _ _ _ M Ho) as [H1 H2]. unfold DATA0 in *. split; [done|..].
  - intros b Hb. unfold DATA0 in Hb. rewrite sect_put by lia. by rewrite decide_False by lia.
  - intros b i o' Hb Hi. destruct (own_range _ _ _ _ _ M Hb). rewrite sect_put by lia. case_decide; [subst; congruence|done].
Qed.

(** ** A block for the next byte *)

(** The fields of an inode that appending leaves alone. *)
Definition same_kind (d d' : dinode) : Prop :=
  d_type d' = d_type d ∧ d_major d' = d_major d ∧ d_minor d' = d_minor d ∧ d_nlink d' = d_nlink d.

Lemma set_addr_ok d k a : dinode_ok d → 0 ≤ a < 2 ^ 32 → dinode_ok (set_addr k a d).
Proof. intros [O1 O2 O3 O4 O5 O6 O7] Ha. split; simpl; [done..|by rewrite length_insert|]. apply Forall_insert; [done|by apply u32_small]. Qed.

Lemma addr_insert d k a k' : dinode_ok d → (k < NADDRS)%nat → d_addrs (set_addr k a d) !!! k' = if decide (k' = k) then a else d_addrs d !!! k'.
Proof.
  intros O Hk. simpl. case_decide as E; [subst; by rewrite list_lookup_total_insert_eq by (by rewrite (do_len _ O))|]. by rewrite list_lookup_total_insert_ne.
Qed.

(** The blocks [d'] has in [im'] are those [d] had, with [x] for number [j]. *)
Record prepared (inum j x : Z) (im : list block) (d : dinode) (im' : list block) (own' : owners) (d' : dinode) : Prop := {
  pr_kind : same_kind d d';
  pr_ok : dinode_ok d';
  pr_addr : ∀ j', 0 ≤ j' < MAXFILE → maddr im' d' j' = if decide (j' = j) then x else maddr im d j';
  pr_blk : ∀ j', 0 ≤ j' < MAXFILE → mblk im' d' j' = mblk im d j';
  pr_own : x ≠ 0 ∧ own' !! x = Some (inum, Some j);
  pr_ind : mind d' ≠ 0 → own' !! mind d' = Some (inum, None);
  pr_ind_iff : mind d' ≠ 0 ↔ mind d ≠ 0 ∨ NDIRECT ≤ j }.

Lemma data_blocks_step n : 0 ≤ n → data_blocks (n + 1) = n / 512 + 1 ∧ data_blocks n = (if decide (n mod 512 = 0) then n / 512 else n / 512 + 1).
Proof.
  intros Hn. unfold data_blocks. pose proof (Z.div_mod n 512). pose proof (Z.mod_pos_bound n 512). split.
  - symmetry. apply (Z.div_unique _ _ _ (n mod 512)); lia.
  - case_decide; symmetry; [apply (Z.div_unique _ _ _ 511)|apply (Z.div_unique _ _ _ (n mod 512 - 1))]; lia.
Qed.

Section block.
Context (k : kctx) (s : mkst) (fb : Z) (own : owners) (inum : Z) (d : dinode) (c : list Z).
Context (M : mimg (img s) fb own) (Cn : counts s fb) (F : mfile (img s) own inum d c).
Let n : Z := Z.of_nat (length c).
Let j : Z := n / 512.
Context (Hj : j < MAXFILE).

Lemma j_range : 0 ≤ j < MAXFILE.
Proof. split; [|done]. apply Z.div_pos; lia. Qed.

Lemma j_old : n mod 512 ≠ 0 ↔ maddr (img s) d j ≠ 0.
Proof.
  rewrite (mf_dense _ _ _ _ _ F j j_range). fold n. unfold j. pose proof (Z.div_mod n 512). pose proof (Z.mod_pos_bound n 512). lia.
Qed.

Lemma mind_range : 0 ≤ mind d < 2 ^ 32.
Proof. apply dinode_addr; [apply (mf_ok _ _ _ _ _ F)|unfold NADDRS, INDIRECT; lia]. Qed.

Lemma prepared_refl : maddr (img s) d j ≠ 0 → prepared inum j (maddr (img s) d j) (img s) d (img s) own d.
Proof.
  intros Ha. split; [done|apply (mf_ok _ _ _ _ _ F)| |done| |apply (mf_ind _ _ _ _ _ F)|].
  - intros j' _. case_decide; by subst.
  - split; [done|]. by apply (mf_addr _ _ _ _ _ F), Ha; apply j_range.
  - rewrite (mf_ind_iff _ _ _ _ _ F). fold n. pose proof (mf_dense _ _ _ _ _ F j j_range) as D. fold n in D. unfold NDIRECT in *. split; [by left|].
    intros [|]; [done|]. apply D in Ha. lia.
Qed.

(** The block is there. *)
Lemma iblock_old : n mod 512 ≠ 0 → iblock d j k s = Ok (d, maddr (img s) d j) k s.
Proof.
  intros Hn. apply j_old in Hn. pose proof j_range as Jr. pose proof (maddr_range _ _ _ _ _ _ F (mg_ok _ _ _ M) Jr) as Ra. unfold iblock. case_decide as Hd.
  - assert (Ea : maddr (img s) d j = d_addrs d !!! Z.to_nat j) by (unfold maddr; by rewrite decide_True). cbv zeta. rewrite <- Ea, xint_id by done. rewrite decide_False by done. rewrite ret_bind, <- Ea. by rewrite xint_id.
  - pose proof mind_range as Rm. assert (Hi : mind d ≠ 0) by (intros E; apply Hn; unfold maddr; rewrite decide_False by done; by rewrite decide_True).
    change (d_addrs d !!! INDIRECT) with (mind d). rewrite xint_id by done. rewrite decide_False by done. rewrite ret_bind. cbv zeta. change (d_addrs d !!! INDIRECT) with (mind d). rewrite xint_id by done.
    destruct (own_range _ _ _ _ _ M (mf_ind _ _ _ _ _ F Hi)) as [_ Lm].
    rewrite (bind_Ok _ _ _ _ _ _ _ (rsect_run k s (mind d) Lm)).
    assert (Ea : maddr (img s) d j = get32 (sect (img s) (mind d)) (4 * (j - NDIRECT))) by (unfold maddr; rewrite decide_False by done; by rewrite decide_False).
    rewrite <- Ea, decide_False by done. rewrite ret_bind, <- Ea. by rewrite xint_id.
Qed.

(** A direct block is allocated. *)
Lemma iblock_direct : n mod 512 = 0 → j < NDIRECT → fb < 512 →
  let own' := <[fb := (inum, Some j)]> own in let d' := set_addr (Z.to_nat j) fb d in
  iblock d j k s = Ok (d', fb) k (set_counts (fb + 1) (fb + 1) s) ∧ prepared inum j fb (img s) d (img s) own' d'.
Proof.
  intros Hn Hd Hfb own' d'. pose proof j_range as Jr. pose proof (mg_fb _ _ _ M) as Rf. unfold DATA0 in Rf. pose proof (mf_ok _ _ _ _ _ F) as O.
  assert (Ha : maddr (img s) d j = 0) by (destruct (decide (maddr (img s) d j = 0)) as [|N]; [done|apply j_old in N; lia]).
  assert (Ea : d_addrs d !!! Z.to_nat j = 0) by (unfold maddr in Ha; by rewrite decide_True in Ha).
  assert (Lj : (Z.to_nat j < NADDRS)%nat) by (unfold NADDRS, NDIRECT in *; lia).
  destruct (mimg_claim _ _ _ (inum, Some j) M Hfb) as (M' & Nf & Zf).
  assert (Em : mind d' = mind d) by (unfold mind, d'; rewrite addr_insert by done; rewrite decide_False by (unfold INDIRECT, NDIRECT in *; lia); done).
  assert (Eaddr : ∀ j', 0 ≤ j' < MAXFILE → maddr (img s) d' j' = if decide (j' = j) then fb else maddr (img s) d j').
  { intros j' Hj'. unfold maddr. rewrite Em. destruct (decide (j' < NDIRECT)); [|by rewrite (decide_False (P := j' = j)) by lia].
    unfold d'. rewrite addr_insert by done. destruct (decide (j' = j)) as [->|]; [by rewrite decide_True|]. rewrite decide_False by lia. done. }
  split.
  - unfold iblock. rewrite decide_True by done. cbv zeta. rewrite Ea. rewrite decide_True by done. unfold mbind at 1, M_bind at 1. rewrite (bind_Ok _ _ _ _ _ _ _ (next_block_run k s fb Cn ltac:(lia))).
    rewrite ret_run. cbn [obind]. rewrite addr_insert, decide_True by done. by rewrite xint_id by lia.
  - split; [done|apply set_addr_ok; [done|lia]|done| | | |].
    + intros j' Hj'. unfold mblk. rewrite Eaddr by done. destruct (decide (j' = j)) as [->|]; [|done]. rewrite Ha, Zf. by repeat case_decide.
    + split; [lia|]. unfold own'. by rewrite lookup_insert_eq.
    + rewrite Em. intros Hi. unfold own'. apply (mf_ind _ _ _ _ _ F) in Hi. rewrite lookup_insert_ne; [done|]. intros E. congruence.
    + rewrite Em. lia.
Qed.

(** ** The indirect block *)
Definition ind_step : Kernel.M mkst dinode :=
  if decide (xint (d_addrs d !!! INDIRECT) = 0) then a ← next_block; mret (set_addr INDIRECT a d) else mret d.

Lemma ind_step_run : NDIRECT ≤ j → fb < 512 → ∃ d1 s1 own1 fb1, ind_step k s = Ok d1 k s1 ∧ img s1 = img s ∧ freeinode s1 = freeinode s ∧
  counts s1 fb1 ∧ mimg (img s) fb1 own1 ∧ ext inum (img s) own (img s) own1 ∧ fb1 = (if decide (mind d = 0) then fb + 1 else fb) ∧
  same_kind d d1 ∧ dinode_ok d1 ∧ mind d1 ≠ 0 ∧ own1 !! mind d1 = Some (inum, None) ∧ (∀ j', 0 ≤ j' < MAXFILE → maddr (img s) d1 j' = maddr (img s) d j').
Proof.
  intros Hd Hfb. pose proof (mg_fb _ _ _ M) as Rf. unfold DATA0 in Rf. pose proof (mf_ok _ _ _ _ _ F) as O. unfold ind_step. change (d_addrs d !!! INDIRECT) with (mind d).
  rewrite xint_id by apply mind_range. destruct (decide (mind d = 0)) as [E|E].
  - destruct (mimg_claim _ _ _ (inum, None) M Hfb) as (M' & Nf & Zf). assert (Em : mind (set_addr INDIRECT fb d) = fb) by (unfold mind; rewrite addr_insert by (done || (unfold INDIRECT, NADDRS; lia)); by rewrite decide_True).
    exists (set_addr INDIRECT fb d), (set_counts (fb + 1) (fb + 1) s), (<[fb := (inum, None)]> own), (fb + 1).
    rewrite (bind_Ok _ _ _ _ _ _ _ (next_block_run k s fb Cn ltac:(lia))). split_and!; [done..|by apply ext_claim|done|done|apply set_addr_ok; [done|lia]|lia|rewrite Em; by rewrite lookup_insert_eq|].
    intros j' Rj'. unfold maddr. rewrite Em. destruct (decide (j' < NDIRECT)) as [Hj'|Hj'].
    + rewrite addr_insert by (done || (unfold INDIRECT, NADDRS; lia)). rewrite decide_False; [done|]. unfold INDIRECT, NDIRECT in *. lia.
    + rewrite E, Zf. rewrite decide_False by lia. rewrite (decide_True (P := 0 = 0)) by done. change MAXFILE with 140 in Rj'. apply get32_zero; unfold NDIRECT, BSIZE in *; lia.
  - exists d, s, own, fb. split_and!; try done. by apply (mf_ind _ _ _ _ _ F).
Qed.

Lemma need_step : need (n + 1) - need n = if decide (n mod 512 = 0) then (if decide (j = NDIRECT) then 2 else 1) else 0.
Proof.
  destruct (data_blocks_step n) as [E1 E2]; [lia|]. unfold need. rewrite E1, E2. fold j. unfold NDIRECT. repeat case_decide; lia.
Qed.

Lemma iblock_indirect : n mod 512 = 0 → NDIRECT ≤ j → fb + (need (n + 1) - need n) ≤ 512 →
  ∃ d' s' own' x, iblock d j k s = Ok (d', x) k s' ∧ mimg (img s') (fb + (need (n + 1) - need n)) own' ∧ counts s' (fb + (need (n + 1) - need n)) ∧
    freeinode s' = freeinode s ∧ ext inum (img s) own (img s') own' ∧ prepared inum j x (img s) d (img s') own' d'.
Proof.
  intros Hn Hd Hfb. rewrite need_step in Hfb |- *. rewrite decide_True in Hfb |- * by done. pose proof j_range as Jr. pose proof (mg_fb _ _ _ M) as Rf. unfold DATA0 in Rf.
  assert (Ha : maddr (img s) d j = 0) by (destruct (decide (maddr (img s) d j = 0)) as [|N]; [done|apply j_old in N; lia]).
  assert (Im : mind d = 0 ↔ j = NDIRECT).
  { pose proof (mf_ind_iff _ _ _ _ _ F) as I. fold n in I. pose proof (Z.div_mod n 512). unfold j, NDIRECT in *. destruct (decide (mind d = 0)); lia. }
  destruct ind_step_run as (d1 & s1 & own1 & fb1 & E1 & Eimg & Efi & Cn1 & M1 & X1 & Efb & K1 & O1 & I1 & Ow1 & A1); [done|destruct (decide (j = NDIRECT)); lia|].
  assert (Hfb1 : fb1 < 512 ∧ fb1 + 1 = fb + (if decide (j = NDIRECT) then 2 else 1)) by (rewrite Efb; repeat case_decide; tauto || lia). destruct Hfb1 as [Hfb1 Efb'].
  destruct (mimg_claim _ _ _ (inum, Some j) M1 Hfb1) as (M2 & Nf & Zf). set (own2 := <[fb1 := (inum, Some j)]> own1) in *.
  assert (X2 := ext_claim inum (img s) own1 fb1 (inum, Some j) Nf). fold own2 in X2. assert (Ow2 := ex_own _ _ _ _ _ X2 _ _ Ow1).
  set (o := 4 * (j - NDIRECT)). set (im2 := <[Z.to_nat (mind d1) := put32 (sect (img s) (mind d1)) o fb1]> (img s)).
  destruct (own_range _ _ _ _ _ M1 Ow1) as [R1 R2]. pose proof (mg_fb _ _ _ M1) as Rf1. unfold DATA0 in R1, Rf1. pose proof (sect_ok _ (mind d1) (mg_ok _ _ _ M)) as Bo.
  assert (Lb : Z.of_nat (length (sect (img s) (mind d1))) = 512) by (rewrite (bo_len _ Bo); done).
  assert (G0 : get32 (sect (img s) (mind d1)) o = 0) by (rewrite <- A1 in Ha by done; unfold maddr in Ha; rewrite decide_False in Ha by lia; by rewrite decide_False in Ha).
  assert (Ho : 0 ≤ o ∧ o + 4 ≤ 512) by (change MAXFILE with 140 in Jr; unfold o, NDIRECT in *; lia).
  assert (Gx : xint (get32 (put32 (sect (img s) (mind d1)) o fb1) o) = fb1) by (rewrite get32_put32, u32_small by lia; apply xint_id; lia).
  exists d1, (set_img im2 (set_counts (fb1 + 1) (fb1 + 1) s1)), own2, fb1. rewrite <- Efb'. split_and!.
  - unfold iblock. rewrite decide_False by lia. fold ind_step. rewrite (bind_Ok _ _ _ _ _ _ _ E1). cbv zeta. change (d_addrs d1 !!! INDIRECT) with (mind d1). rewrite xint_id by lia.
    rewrite (bind_Ok _ _ _ _ _ _ _ (rsect_run k s1 (mind d1) ltac:(by rewrite Eimg))), Eimg. fold o. rewrite G0, decide_True by done.
    unfold mbind at 1, M_bind at 1. rewrite (bind_Ok _ _ _ _ _ _ _ (next_block_run k s1 fb1 Cn1 ltac:(lia))).
    rewrite (bind_Ok _ _ _ _ _ _ _ (wsect_run k (set_counts (fb1 + 1) (fb1 + 1) s1) (mind d1) _ ltac:(simpl; by rewrite Eimg))), ret_run. cbn [obind]. rewrite Gx. simpl img. by rewrite Eimg.
  - simpl. apply mimg_put; [done|by apply put32_ok|lia].
  - done.
  - done.
  - simpl. eapply ext_trans; [exact X1|]. eapply ext_trans; [exact X2|]. by eapply ext_put.
  - simpl. assert (Ea : ∀ j', 0 ≤ j' < MAXFILE → maddr im2 d1 j' = if decide (j' = j) then fb1 else maddr (img s) d j').
    { intros j' Hj'. rewrite <- A1 by done. unfold maddr at 1. destruct (decide (j' < NDIRECT)) as [Lt|Ge]; [rewrite (decide_False (P := j' = j)) by lia; unfold maddr; by rewrite decide_True|].
      rewrite decide_False by done. unfold im2. rewrite sect_put, decide_True by lia. destruct (decide (j' = j)) as [Ej|Ej]; [replace (4 * (j' - NDIRECT)) with o by (unfold o; by rewrite Ej); rewrite get32_put32, u32_small by lia; done|].
      rewrite get32_put32_ne by (unfold o, NDIRECT in *; lia). unfold maddr. rewrite decide_False by done. by rewrite decide_False. }
    split; [done|done|done| | |done|].
    + intros j' Hj'. unfold mblk. rewrite Ea by done. destruct (decide (j' = j)) as [->|Nj].
      * rewrite Ha, (decide_True (P := 0 = 0)) by done. rewrite decide_False by lia. unfold im2. rewrite sect_put by lia. rewrite decide_False by lia. done.
      * destruct (decide (maddr (img s) d j' = 0)) as [N0|N0]; [done|]. assert (Oj := mf_addr _ _ _ _ _ F j' Hj' N0). destruct (own_range _ _ _ _ _ M Oj) as [Rj _]. unfold DATA0 in Rj. unfold im2. rewrite sect_put by lia. rewrite decide_False; [done|].
        intros E. rewrite <- E in Ow1. apply (ex_own _ _ _ _ _ X1) in Oj. congruence.
    + split; [lia|]. unfold own2. by rewrite lookup_insert_eq.
    + split; [by right|done].
Qed.

Lemma iblock_run : fb + (need (n + 1) - need n) ≤ 512 →
  ∃ d' s' own' x, iblock d j k s = Ok (d', x) k s' ∧ mimg (img s') (fb + (need (n + 1) - need n)) own' ∧ counts s' (fb + (need (n + 1) - need n)) ∧
    freeinode s' = freeinode s ∧ ext inum (img s) own (img s') own' ∧ prepared inum j x (img s) d (img s') own' d'.
Proof.
  intros Hfb. destruct (decide (n mod 512 = 0)) as [Hn|Hn].
  - destruct (decide (NDIRECT ≤ j)) as [Hd|Hd]; [by apply iblock_indirect|]. rewrite need_step, decide_True, decide_False in Hfb |- * by (done || lia).
    destruct iblock_direct as [E P]; [done|lia|lia|]. destruct (mimg_claim _ _ _ (inum, Some j) M ltac:(lia)) as (M' & Nf & _). eexists _, _, _, _. split_and!; [exact E|exact M'|done|done|by apply ext_claim|exact P].
  - rewrite need_step, decide_False in Hfb |- * by done. rewrite Z.add_0_r. exists d, s, own, (maddr (img s) d j). split_and!; [by apply iblock_old|done|done|done|apply ext_refl|]. by apply prepared_refl, j_old.
Qed.
End block.

(** ** Appending *)
Lemma cbyte_app a b x : 0 ≤ x → cbyte (a ++ b) x = if decide (x < Z.of_nat (length a)) then cbyte a x else cbyte b (x - Z.of_nat (length a)).
Proof.
  intros Hx. unfold cbyte, get8. rewrite !list_lookup_total_alt, length_app. destruct (decide (x < Z.of_nat (length a))).
  - rewrite decide_True by lia. by rewrite lookup_app_l by lia.
  - rewrite lookup_app_r by lia. replace (Z.to_nat (x - Z.of_nat (length a))) with (Z.to_nat x - length a)%nat by lia. repeat case_decide; (done || lia).
Qed.

Lemma data_blocks_within n m : 0 ≤ n → 1 ≤ m → n + m ≤ 512 * (n / 512 + 1) → data_blocks (n + m) = n / 512 + 1.
Proof.
  intros Hn Hm H. unfold data_blocks. pose proof (Z.div_mod n 512). pose proof (Z.mod_pos_bound n 512). symmetry.
  apply (Z.div_unique _ _ _ (n + m + 511 - 512 * (n / 512 + 1))); lia.
Qed.

Lemma need_within n m : 0 ≤ n → 1 ≤ m → n + m ≤ 512 * (n / 512 + 1) → need (n + m) = need (n + 1).
Proof.
  intros Hn Hm H. unfold need. by rewrite (data_blocks_within n m), (data_blocks_within n 1) by lia.
Qed.

Lemma need_mono n m : n ≤ m → need n ≤ need m.
Proof. intros H. unfold need, data_blocks. assert ((n + 511) / 512 ≤ (m + 511) / 512) by (apply Z.div_le_mono; lia). repeat case_decide; lia. Qed.

Section append.
Context (im : list block) (own : owners) (inum : Z) (d : dinode) (c : list Z) (F : mfile im own inum d c).
Let n : Z := Z.of_nat (length c).
Let j : Z := n / 512.
Context (Hj : 0 ≤ j < MAXFILE).
Context (im' : list block) (fb' : Z) (own' : owners) (d' : dinode) (x : Z).
Context (M' : mimg im' fb' own') (X : ext inum im own im' own') (P : prepared inum j x im d im' own' d').
Context (q : list Z) (Hq : Forall byte q) (Hq1 : 1 ≤ Z.of_nat (length q)) (Hq2 : n + Z.of_nat (length q) ≤ 512 * (j + 1)).
Let im2 : list block := <[Z.to_nat x := splice (sect im' x) (n - 512 * j) q]> im'.

Lemma off_range : 0 ≤ n - 512 * j < 512.
Proof. unfold j. pose proof (Z.div_mod n 512). pose proof (Z.mod_pos_bound n 512). lia. Qed.

Lemma append_block_ok : block_ok (splice (sect im' x) (n - 512 * j) q).
Proof. pose proof off_range. apply splice_ok; [apply sect_ok, (mg_ok _ _ _ M')|done|lia|unfold BSIZE; lia]. Qed.

Lemma append_sect b : 0 ≤ b → sect im2 b = if decide (b = x) then splice (sect im' x) (n - 512 * j) q else sect im' b.
Proof. intros Hb. destruct (pr_own _ _ _ _ _ _ _ _ P) as [_ Ho]. destruct (own_range _ _ _ _ _ M' Ho). unfold im2. by rewrite sect_put. Qed.

Lemma append_maddr j' : 0 ≤ j' < MAXFILE → maddr im2 d' j' = if decide (j' = j) then x else maddr im d j'.
Proof.
  intros Hj'. rewrite <- (pr_addr _ _ _ _ _ _ _ _ P j' Hj'). apply maddr_frame. intros Hi. apply (pr_ind _ _ _ _ _ _ _ _ P) in Hi. destruct (own_range _ _ _ _ _ M' Hi).
  rewrite append_sect by lia. rewrite decide_False; [done|]. intros E. destruct (pr_own _ _ _ _ _ _ _ _ P) as [_ Ho]. rewrite E, Ho in Hi. done.
Qed.

Lemma append_own j' : 0 ≤ j' < MAXFILE → maddr im d j' ≠ 0 → own' !! maddr im d j' = Some (inum, Some j').
Proof. intros Hj' Ha. by apply (ex_own _ _ _ _ _ X), (mf_addr _ _ _ _ _ F). Qed.

Lemma append_mblk j' : 0 ≤ j' < MAXFILE → mblk im2 d' j' = if decide (j' = j) then splice (mblk im d j) (n - 512 * j) q else mblk im d j'.
Proof.
  intros Hj'. destruct (pr_own _ _ _ _ _ _ _ _ P) as [Hx Ho]. destruct (own_range _ _ _ _ _ M' Ho) as [_ Rx]. unfold mblk at 1. rewrite append_maddr by done. destruct (decide (j' = j)) as [->|Nj].
  - rewrite decide_False by done. rewrite append_sect, decide_True by (done || lia). rewrite <- (pr_blk _ _ _ _ _ _ _ _ P j) by done. unfold mblk. rewrite (pr_addr _ _ _ _ _ _ _ _ P j) by done. rewrite (decide_True (P := j = j)) by done. by rewrite decide_False.
  - rewrite <- (pr_blk _ _ _ _ _ _ _ _ P j') by done. unfold mblk. rewrite (pr_addr _ _ _ _ _ _ _ _ P j') by done. rewrite (decide_False (P := j' = j)) by done.
    destruct (decide (maddr im d j' = 0)) as [|Na]; [done|]. assert (Oj := append_own j' Hj' Na). destruct (own_range _ _ _ _ _ M' Oj). rewrite append_sect by lia. rewrite decide_False; [done|].
    intros E. rewrite E, Ho in Oj. congruence.
Qed.

Lemma append_mfile : mfile im2 own' inum d' (c ++ q).
Proof.
  pose proof off_range as Ro. destruct (pr_own _ _ _ _ _ _ _ _ P) as [Hx Ho]. assert (Ln : Z.of_nat (length (c ++ q)) = n + Z.of_nat (length q)) by (rewrite length_app; unfold n; lia).
  change MAXFILE with 140 in Hj. split.
  - apply (pr_ok _ _ _ _ _ _ _ _ P).
  - rewrite Ln. unfold MAXBYTES, BSIZE. change MAXFILE with 140. lia.
  - apply Forall_app. split; [apply (mf_bytes _ _ _ _ _ F)|done].
  - intros j' Hj'. rewrite append_maddr by done. destruct (decide (j' = j)) as [->|]; [done|]. by apply append_own.
  - apply (pr_ind _ _ _ _ _ _ _ _ P).
  - intros j' Hj'. rewrite append_maddr, Ln by done. destruct (decide (j' = j)) as [->|Nj]; [split; [lia|done]|]. rewrite (mf_dense _ _ _ _ _ F j' Hj'). fold n. lia.
  - rewrite (pr_ind_iff _ _ _ _ _ _ _ _ P), (mf_ind_iff _ _ _ _ _ F), Ln. fold n. unfold NDIRECT. lia.
  - intros j' y Hj' Hy. rewrite append_mblk, cbyte_app by (done || lia). fold n. assert (D := mf_data _ _ _ _ _ F). destruct (decide (j' = j)) as [->|Nj].
    + assert (Lb : length (mblk im d j) = 512%nat). { assert (B : block_ok (mblk im d j)) by (rewrite <- (pr_blk _ _ _ _ _ _ _ _ P j) by done; unfold mblk; case_decide; [apply zero_block_ok|apply sect_ok, (mg_ok _ _ _ M')]). by rewrite (bo_len _ B). }
      rewrite get8_splice by (rewrite ?Lb; lia). rewrite D by done. destruct (decide (512 * j + y < n)) as [Lt|Ge].
      * by rewrite decide_False by lia.
      * unfold cbyte. fold n. case_decide; [rewrite decide_True by lia; f_equal; lia|]. by rewrite !decide_False by lia.
    + rewrite D by done. unfold cbyte. fold n. destruct (decide (512 * j' + y < n)); [done|]. by rewrite decide_False by lia.
Qed.
End append.

Lemma same_kind_trans d1 d2 d3 : same_kind d1 d2 → same_kind d2 d3 → same_kind d1 d3.
Proof. unfold same_kind. naive_solver congruence. Qed.

Lemma iappend_loop_run k inum : ∀ fuel p s fb own d c, (length p < fuel)%nat → mimg (img s) fb own → counts s fb → mfile (img s) own inum d c →
  Forall byte p → Z.of_nat (length (c ++ p)) ≤ MAXBYTES → fb + (need (Z.of_nat (length (c ++ p))) - need (Z.of_nat (length c))) ≤ 512 →
  ∃ d' s' own' fb', iappend_loop fuel d (Z.of_nat (length c)) p k s = Ok (d', Z.of_nat (length (c ++ p))) k s' ∧
    fb' = fb + (need (Z.of_nat (length (c ++ p))) - need (Z.of_nat (length c))) ∧ mimg (img s') fb' own' ∧ counts s' fb' ∧ freeinode s' = freeinode s ∧
    ext inum (img s) own (img s') own' ∧ same_kind d d' ∧ mfile (img s') own' inum d' (c ++ p).
Proof.
  induction fuel as [|fuel IH]; intros p s fb own d c Hf M Cn F Hp Hmax Hneed; [lia|]. cbn [iappend_loop].
  destruct p as [|v p'].
  { simpl. rewrite app_nil_r in *. exists d, s, own, fb. split_and!; done || lia. }
  set (p := v :: p') in *. assert (Lp : 1 ≤ Z.of_nat (length p)) by (simpl; lia). rewrite decide_True by lia. cbv zeta. clearbody p. clear v p'.
  set (n := Z.of_nat (length c)) in *. pose proof (Z.div_mod n 512) as Dm. pose proof (Z.mod_pos_bound n 512) as Bm.
  assert (Ln : Z.of_nat (length (c ++ p)) = n + Z.of_nat (length p)) by (rewrite length_app; unfold n; lia). rewrite Ln in Hmax, Hneed.
  assert (Hj : 0 ≤ n / 512 < MAXFILE). { unfold MAXBYTES, BSIZE in Hmax. split; [apply Z.div_pos; lia|]. apply Z.div_lt_upper_bound; lia. }
  rewrite decide_False by lia. set (n1 := Z.min (Z.of_nat (length p)) ((n / 512 + 1) * 512 - n)). assert (Hn1 : 1 ≤ n1 ≤ Z.of_nat (length p) ∧ n + n1 ≤ 512 * (n / 512 + 1)) by (unfold n1; lia). clearbody n1.
  set (q := take (Z.to_nat n1) p). assert (Lq : Z.of_nat (length q) = n1) by (unfold q; rewrite length_take; lia).
  assert (Lr : Z.of_nat (length (drop (Z.to_nat n1) p)) = Z.of_nat (length p) - n1) by (rewrite length_drop; lia).
  assert (Eq : (c ++ q) ++ drop (Z.to_nat n1) p = c ++ p) by (rewrite <- app_assoc; unfold q; by rewrite take_drop).
  assert (Nw := need_within n n1 ltac:(lia) ltac:(lia) ltac:(lia)). assert (Nm := need_mono (n + n1) (n + Z.of_nat (length p)) ltac:(lia)).
  destruct (iblock_run k s fb own inum d c M Cn F ltac:(fold n; lia)) as (d1 & s1 & own1 & x & E1 & M1 & Cn1 & Fi1 & X1 & P1); [fold n; lia|]. fold n in E1, M1, Cn1, P1. rewrite <- Nw in M1, Cn1.
  rewrite (bind_Ok _ _ _ _ _ _ _ E1). cbn [fst snd]. destruct (pr_own _ _ _ _ _ _ _ _ P1) as [_ Ho]. destruct (own_range _ _ _ _ _ M1 Ho) as [Rx1 Rx2]. unfold DATA0 in Rx1.
  rewrite (bind_Ok _ _ _ _ _ _ _ (rsect_run k s1 x Rx2)), (bind_Ok _ _ _ _ _ _ _ (wsect_run k s1 x _ Rx2)). fold q. replace (n - n / 512 * 512) with (n - 512 * (n / 512)) by lia.
  assert (Hq : Forall byte q) by by apply Forall_take. assert (Hn32 : MAXBYTES < 2 ^ 32) by done. rewrite u32_small by lia.
  set (s2 := set_img _ s1). destruct (IH (drop (Z.to_nat n1) p) s2 (fb + (need (n + n1) - need n)) own1 d1 (c ++ q)) as (d' & s' & own' & fb' & E' & Efb & M' & Cn' & Fi' & X' & K' & F').
  - lia.
  - simpl. apply mimg_put; [done| |lia]. eapply (append_block_ok c _ _ _ x M1 q Hq). fold n. lia.
  - done.
  - simpl. eapply (append_mfile (img s) own inum d c F Hj _ _ _ _ x M1 X1 P1 q Hq); fold n; lia.
  - by apply Forall_drop.
  - rewrite Eq, Ln. lia.
  - rewrite Eq, Ln. rewrite length_app, Nat2Z.inj_add, Lq. fold n. lia.
  - rewrite Eq in E', F', Efb. replace (Z.of_nat (length (c ++ q))) with (n + n1) in E', Efb by (rewrite length_app, Nat2Z.inj_add, Lq; done).
    exists d', s', own', fb'. split_and!; [done|lia|done|done|by rewrite Fi'| |by eapply same_kind_trans; [apply (pr_kind _ _ _ _ _ _ _ _ P1)|]|done].
    eapply ext_trans; [exact X1|]. eapply ext_trans; [|exact X']. by eapply ext_put.
Qed.
