(* ===== verification/MkfsRun.v ===== *)
(** * What mkfs builds

    The image as a sequence of inodes with their contents, and the effect of each step of
    [main] on it. *)
From S2P Require Import Prelude Kernel ProcData FsDisk Fs FsFile FsDir Mkfs MkfsInv.
Local Open Scope Z_scope.

Definition idino (im : list block) (i : Z) : dinode := dinode_at (sect im (i2b i)) (i mod IPB).

(** The inode table has room for a few more than [ninodes] says. *)
Definition TABLE : Z := 208.

Lemma dinode_at_put_ne d i j di : block_ok d → 0 ≤ i < IPB → 0 ≤ j < IPB → i ≠ j → length (d_addrs di) = NADDRS → dinode_at (put_dinode d i di) j = dinode_at d j.
Proof.
  intros [Hl _] Hi Hj Hij T6. unfold IPB, BSIZE in *. change (512 / 64) with 8 in *. assert (Hl' : Z.of_nat (length d) = 512) by lia. unfold dinode_at, put_dinode.
  assert (Hw : Z.of_nat (length (d_addrs di)) = 13) by (rewrite T6; done).
  rewrite !get16_put_words_ne by (rewrite ?put32_length, ?put16_length; lia). rewrite get32_put_words_ne by (rewrite ?put32_length, ?put16_length; lia).
  rewrite !get16_put32_ne by (rewrite ?put16_length; lia). rewrite get32_put32_ne by (rewrite ?put16_length; lia).
  rewrite !get16_put16_ne by (rewrite ?put16_length; lia). rewrite !get32_put16_ne by (rewrite ?put16_length; lia). f_equal.
  apply list_fmap_ext. intros x k [-> Hk]%lookup_seq. unfold NADDRS in Hk.
  rewrite get32_put_words_ne by (rewrite ?put32_length, ?put16_length; lia). rewrite get32_put32_ne by (rewrite ?put16_length; lia).
  by rewrite !get32_put16_ne by (rewrite ?put16_length; lia).
Qed.

Lemma i2b_range i : 0 ≤ i < TABLE → 2 ≤ i2b i < 28 ∧ 0 ≤ i mod IPB < IPB.
Proof.
  unfold i2b, TABLE. change IPB with 8. intros H. pose proof (Z.div_mod i 8). pose proof (Z.mod_pos_bound i 8). lia.
Qed.

(** Writing one inode. *)
Lemma idino_put im fb own inum d : mimg im fb own → 0 ≤ inum < TABLE → dinode_ok d →
  let im' := <[Z.to_nat (i2b inum) := put_dinode (sect im (i2b inum)) (inum mod IPB) d]> im in
  mimg im' fb own ∧ (∀ i, 0 ≤ i < TABLE → idino im' i = if decide (i = inum) then d else idino im i) ∧
  (∀ a, 0 ≤ a → a < 2 ∨ 28 ≤ a → sect im' a = sect im a).
Proof.
  intros M Hi Hd im'. pose proof (mg_fb _ _ _ M) as Rf. destruct (i2b_range inum Hi) as [R1 R2]. unfold DATA0 in Rf. assert (B := sect_ok im (i2b inum) (mg_ok _ _ _ M)).
  assert (Lm : Z.of_nat (length im) = 1024) by (rewrite (mg_len _ _ _ M); done). split_and!.
  - apply mimg_put; [done|by apply put_dinode_ok|lia].
  - intros i Hi'. destruct (i2b_range i Hi') as [R3 R4]. unfold idino, im'. rewrite sect_put by lia. destruct (decide (i = inum)) as [->|Ne]; [rewrite decide_True by done; by apply dinode_at_put|].
    case_decide as E; [|done]. rewrite E. apply dinode_at_put_ne; [done|done|done| |apply (do_len _ Hd)]. intros Em. apply Ne.
    rewrite (Z.div_mod i IPB), (Z.div_mod inum IPB) by done. unfold i2b in E. rewrite Em. lia.
  - intros a Ha Hl. unfold im'. rewrite sect_put by lia. by rewrite decide_False by lia.
Qed.

Fixpoint total (cs : list (list Z)) : Z :=
  match cs with [] => 0 | c :: cs => need (Z.of_nat (length c)) + total cs end.

Record minv (sb : block) (s : mkst) (own : owners) (fl : list (dinode * list Z)) : Prop := {
  mv_img : mimg (img s) (DATA0 + total fl.*2) own;
  mv_cnt : counts s (DATA0 + total fl.*2);
  mv_inode : freeinode s = 1 + Z.of_nat (length fl) ∧ freeinode s ≤ ninodes;
  mv_file : ∀ k d c, fl !! k = Some (d, c) → idino (img s) (Z.of_nat k + 1) = d ∧ d_size d = Z.of_nat (length c) ∧ mfile (img s) own (Z.of_nat k + 1) d c;
  mv_free : ∀ i, freeinode s ≤ i < TABLE → d_type (idino (img s) i) = 0;
  mv_sb : sect (img s) 1 = sb }.

Lemma total_nonneg cs : 0 ≤ total cs.
Proof.
  induction cs as [|c cs IH]; [done|]. simpl. pose proof (need_mono 0 (Z.of_nat (length c)) ltac:(lia)). assert (need 0 = 0) by done. lia.
Qed.

Lemma total_app a b : total (a ++ b) = total a + total b.
Proof. induction a as [|x a IH]; [done|]. simpl. rewrite IH. lia. Qed.

Lemma file_total_insert cs k c c' : cs !! k = Some c → total (<[k := c']> cs) = total cs + (need (Z.of_nat (length c')) - need (Z.of_nat (length c))).
Proof.
  revert k. induction cs as [|x cs IH]; intros [|k] E; simplify_eq/=; [lia|]. rewrite (IH k) by done. lia.
Qed.

Lemma fl_lookup {fl : list (dinode * list Z)} {k d c} : fl !! k = Some (d, c) → fl.*2 !! k = Some c.
Proof. intros E. by rewrite list_lookup_fmap, E. Qed.

(** [winode] into a state. *)
Lemma winode_run ctx s fb own inum d : mimg (img s) fb own → 0 ≤ inum < TABLE →
  winode inum d ctx s = Ok () ctx (set_img (<[Z.to_nat (i2b inum) := put_dinode (sect (img s) (i2b inum)) (inum mod IPB) d]> (img s)) s).
Proof.
  intros M Hi. destruct (i2b_range inum Hi) as [R1 _]. assert (R : 0 ≤ i2b inum < Z.of_nat (length (img s))) by (rewrite (mg_len _ _ _ M); unfold fssize; lia).
  unfold winode. rewrite (bind_Ok _ _ _ _ _ _ _ (rsect_run ctx s _ R)). by rewrite wsect_run.
Qed.

Lemma rinode_run ctx s fb own inum : mimg (img s) fb own → 0 ≤ inum < TABLE → rinode inum ctx s = Ok (idino (img s) inum) ctx s.
Proof.
  intros M Hi. destruct (i2b_range inum Hi) as [R1 _]. assert (R : 0 ≤ i2b inum < Z.of_nat (length (img s))) by (rewrite (mg_len _ _ _ M); unfold fssize; lia).
  unfold rinode. by rewrite (bind_Ok _ _ _ _ _ _ _ (rsect_run ctx s _ R)).
Qed.

Lemma mfile_low im im' own fb inum d c : mfile im own inum d c → mimg im fb own → (∀ a, 28 ≤ a → sect im' a = sect im a) → mfile im' own inum d c.
Proof. intros F M H. eapply mfile_frame; [done|]. intros a o Ho. split; [done|]. apply H. pose proof (mg_own _ _ _ M _ _ Ho). unfold DATA0 in *. lia. Qed.

Lemma set_dsize_file im own inum d c n : mfile im own inum d c → 0 ≤ n < 2 ^ 32 → mfile im own inum (set_dsize n d) c.
Proof.
  intros [[O1 O2 O3 O4 O5 O6 O7] F2 F3 F4 F5 F6 F7 F8] Hn. split; try done. split; try done. simpl. by apply u32_small.
Qed.

(** ** The steps *)
Lemma iappend_run ctx sb s own fl k d c p : minv sb s own fl → fl !! k = Some (d, c) → Forall byte p → Z.of_nat (length (c ++ p)) ≤ MAXBYTES →
  DATA0 + total (<[k := c ++ p]> fl.*2) ≤ 512 →
  ∃ d' s' own', iappend (Z.of_nat k + 1) p ctx s = Ok () ctx s' ∧ minv sb s' own' (<[k := (d', c ++ p)]> fl) ∧ same_kind d d'.
Proof.
  intros [V1 V2 [V3 V3'] V4 V5 V6] Hk Hp Hmax Hfit. destruct (V4 k d c Hk) as (D1 & D2 & D3). assert (Lk := lookup_lt_Some _ _ _ Hk).
  assert (Ri : 0 ≤ Z.of_nat k + 1 < TABLE) by (unfold ninodes, TABLE in *; lia). assert (MAXBYTES < 2 ^ 32) by done. assert (Hl : Z.of_nat (length c) ≤ Z.of_nat (length (c ++ p))) by (rewrite length_app; lia).
  unfold iappend. rewrite (bind_Ok _ _ _ _ _ _ _ (rinode_run ctx s _ _ _ V1 Ri)), D1, D2, xint_id by lia. rewrite (file_total_insert _ _ _ _ (fl_lookup Hk)) in Hfit.
  destruct (iappend_loop_run ctx (Z.of_nat k + 1) (S (length p)) p s _ own d c ltac:(lia) V1 V2 D3 Hp Hmax ltac:(lia)) as (d' & s1 & own' & fb' & E & Efb & M1 & C1 & Fi & X & K & F).
  rewrite (bind_Ok _ _ _ _ _ _ _ E). cbn [fst snd]. rewrite xint_id by lia. rewrite (winode_run ctx s1 _ _ _ _ M1 Ri).
  assert (F' := set_dsize_file _ _ _ _ _ (Z.of_nat (length (c ++ p))) F ltac:(lia)). set (d2 := set_dsize _ d') in *.
  destruct (idino_put (img s1) fb' own' (Z.of_nat k + 1) d2 M1 Ri (mf_ok _ _ _ _ _ F')) as (M2 & T2 & L2). set (im2 := <[_ := _]> (img s1)) in *.
  assert (Lw : ∀ i, 0 ≤ i < TABLE → idino (img s1) i = idino (img s) i) by (intros i Hi; unfold idino; destruct (i2b_range i Hi); rewrite (ex_low _ _ _ _ _ X); [done|unfold DATA0; lia]).
  assert (Et : DATA0 + total (<[k := (d2, c ++ p)]> fl).*2 = fb') by (rewrite list_fmap_insert; simpl; rewrite (file_total_insert _ _ _ _ (fl_lookup Hk)); lia).
  exists d2, (set_img im2 s1), own'. split_and!; [done| |done]. split; cbn [img set_img freeinode].
  - by rewrite Et.
  - by rewrite Et.
  - by rewrite Fi, length_insert.
  - intros k' d0 c0 Hk'. apply list_lookup_insert_Some in Hk' as [(-> & [= <- <-] & _)|[Ne Hk']].
    + rewrite T2 by done. rewrite decide_True by done. split_and!; [done|done|]. eapply mfile_low; [exact F'|done|]. intros a Ha. apply L2; lia.
    + destruct (V4 k' d0 c0 Hk') as (G1 & G2 & G3). assert (Lk' := lookup_lt_Some _ _ _ Hk'). assert (Ri' : 0 ≤ Z.of_nat k' + 1 < TABLE) by (unfold ninodes, TABLE in *; lia).
      rewrite T2, Lw by done. rewrite decide_False by lia. split_and!; [done|done|]. eapply (mfile_low (img s1)); [|done|intros a Ha; apply L2; lia]. eapply mfile_ext; [done|exact X|lia].
  - intros i Hi. rewrite Fi in Hi. rewrite T2, Lw by (unfold TABLE, ninodes in *; lia). rewrite decide_False by lia. by apply V5.
  - rewrite L2 by lia. rewrite (ex_low _ _ _ _ _ X) by (unfold DATA0; lia). done.
Qed.

Definition new_dinode (type : Z) : dinode := Dinode type 0 0 1 0 (replicate NADDRS 0).

Lemma replicate_lookup_total (n k : nat) (v : Z) : (k < n)%nat → replicate n v !!! k = v.
Proof. intros H. by apply list_lookup_total_correct, lookup_replicate. Qed.

Lemma new_file im own inum type : s16 type = type → mfile im own inum (new_dinode type) [].
Proof.
  intros Ht. assert (A : ∀ j, 0 ≤ j < MAXFILE → maddr im (new_dinode type) j = 0).
  { intros j Hj. unfold maddr, mind. cbn [d_addrs new_dinode]. case_decide; [apply replicate_lookup_total; unfold NADDRS, NDIRECT in *; lia|]. by rewrite decide_True. }
  split.
  - split; try done. simpl. repeat constructor.
  - done.
  - constructor.
  - intros j Hj. by rewrite A.
  - done.
  - intros j Hj. rewrite A by done. simpl. lia.
  - simpl. unfold NDIRECT. split; [done|lia].
  - intros j x Hj Hx. unfold mblk. rewrite A by done. rewrite decide_True by done. rewrite get8_zero by (unfold BSIZE; lia). unfold cbyte. simpl. by rewrite decide_False by lia.
Qed.

Lemma ialloc_run ctx sb s own fl type : minv sb s own fl → 0 ≤ type < 2 ^ 15 → 1 + Z.of_nat (length fl) < ninodes →
  ∃ s', ialloc type ctx s = Ok (1 + Z.of_nat (length fl)) ctx s' ∧ minv sb s' own (fl ++ [(new_dinode type, [])]).
Proof.
  intros [V1 V2 [V3 V3'] V4 V5 V6] Ht Hn. assert (Ri : 0 ≤ freeinode s < TABLE) by (unfold ninodes, TABLE in *; lia). assert (Hs : s16 type = type) by (unfold s16; rewrite Z.mod_small; lia).
  unfold ialloc. rewrite kget_bind. cbv zeta. unfold mbind at 1, M_bind at 1. unfold kput. cbn [obind]. rewrite u32_small by (unfold ninodes in *; lia).
  rewrite xshort_id by lia. rewrite Hs. change (s16 (xshort 1)) with 1. change (xint 0) with 0. fold (new_dinode type). set (s1 := set_freeinode (freeinode s + 1) s).
  rewrite (bind_Ok _ _ _ _ _ _ _ (winode_run ctx s1 _ own (freeinode s) (new_dinode type) V1 Ri)). assert (F := new_file (img s) own (freeinode s) type Hs).
  destruct (idino_put (img s) _ own (freeinode s) (new_dinode type) V1 Ri (mf_ok _ _ _ _ _ F)) as (M2 & T2 & L2). change (img s1) with (img s). set (im2 := <[_ := _]> (img s)) in *.
  assert (Et : total (fl ++ [(new_dinode type, [])]).*2 = total fl.*2) by (rewrite fmap_app, total_app; change (total ([(new_dinode type, [] : list Z)].*2)) with (need 0 + 0); change (need 0) with 0; lia).
  exists (set_img im2 s1). split; [by rewrite ret_run, V3|]. split; cbn [img set_img freeinode set_freeinode s1].
  - by rewrite Et.
  - by rewrite Et.
  - rewrite length_app. simpl. lia.
  - intros k d c [Hk|[Lk Hk]]%lookup_app_Some.
    + destruct (V4 k d c Hk) as (G1 & G2 & G3). assert (Lk := lookup_lt_Some _ _ _ Hk). rewrite T2 by (unfold TABLE, ninodes in *; lia). rewrite decide_False by lia.
      split_and!; [done|done|]. eapply (mfile_low (img s)); [done|done|intros a Ha; apply L2; lia].
    + apply list_lookup_singleton_Some in Hk as [Ek [= <- <-]]. replace (Z.of_nat k + 1) with (freeinode s) by lia. rewrite T2, decide_True by done.
      split_and!; [done|done|by apply new_file].
  - intros i Hi. rewrite T2 by (unfold TABLE, ninodes in *; lia). rewrite decide_False by lia. apply V5. lia.
  - rewrite L2 by lia. done.
Qed.

Lemma total_mono cs k c c' : cs !! k = Some c → Z.of_nat (length c) ≤ Z.of_nat (length c') → total cs ≤ total (<[k := c']> cs).
Proof. intros Hk Hl. rewrite (file_total_insert _ _ _ _ Hk). pose proof (need_mono _ _ Hl). lia. Qed.

Lemma append_all_run ctx sb chunks : ∀ s own fl k d c, minv sb s own fl → fl !! k = Some (d, c) → Forall (Forall byte) chunks →
  Z.of_nat (length (c ++ mjoin chunks)) ≤ MAXBYTES → DATA0 + total (<[k := c ++ mjoin chunks]> fl.*2) ≤ 512 →
  ∃ d' s' own', append_all (Z.of_nat k + 1) chunks ctx s = Ok () ctx s' ∧ minv sb s' own' (<[k := (d', c ++ mjoin chunks)]> fl) ∧ same_kind d d'.
Proof.
  induction chunks as [|p l IH]; intros s own fl k d c V Hk Hb Hmax Hfit; cbn [append_all].
  - change (mjoin []) with ([] : list Z) in *. exists d, s, own. rewrite app_nil_r, list_insert_id by done. done.
  - apply Forall_cons in Hb as [Hp Hl]. assert (E : c ++ mjoin (p :: l) = (c ++ p) ++ mjoin l) by (simpl; apply app_assoc). rewrite E in Hmax, Hfit |- *.
    assert (L1 : Z.of_nat (length (c ++ p)) ≤ Z.of_nat (length ((c ++ p) ++ mjoin l))) by (rewrite (length_app (c ++ p)); lia). assert (Lk := lookup_lt_Some _ _ _ Hk).
    assert (Hk2 := fl_lookup Hk). assert (Lk2 := lookup_lt_Some _ _ _ Hk2).
    assert (M1 : total (<[k := c ++ p]> fl.*2) ≤ total (<[k := (c ++ p) ++ mjoin l]> fl.*2)).
    { rewrite <- (list_insert_insert_eq fl.*2 k ((c ++ p) ++ mjoin l) (c ++ p)). eapply total_mono; [by rewrite list_lookup_insert_eq|done]. }
    destruct (iappend_run ctx sb s own fl k d c p V Hk Hp) as (d1 & s1 & own1 & E1 & V1 & K1); [lia|lia|]. rewrite (bind_Ok _ _ _ _ _ _ _ E1).
    destruct (IH s1 own1 _ k d1 (c ++ p) V1) as (d' & s' & own' & E' & V' & K'); [by rewrite list_lookup_insert_eq|done|done| |].
    { rewrite list_fmap_insert. simpl. by rewrite list_insert_insert_eq. }
    rewrite list_insert_insert_eq in V'. exists d', s', own'. split_and!; [done|done|by eapply same_kind_trans].
Qed.

(** ** The files of the root directory *)

Definition name_ok (name : list Z) : Prop := Forall byte name ∧ 47 ∉ name.
Definition content (f : list Z * list (list Z)) : list Z := mjoin f.2.

(** The directory entries of the files, the first of which gets inode [inum]. *)
Fixpoint dirents (inum : Z) (files : list (list Z * list (list Z))) : list Z :=
  match files with [] => [] | f :: files => dirent inum (skip_underscore f.1) ++ dirents (inum + 1) files end.



Lemma dirent_length inum name : length (dirent inum name) = 16%nat.
Proof. unfold dirent. rewrite put16_length, splice_length; rewrite ?length_replicate, ?name_field_length; done || (unfold DIRSIZ; simpl; lia). Qed.

Lemma dirent_bytes inum name : Forall byte name → Forall byte (dirent inum name).
Proof.
  intros F. unfold dirent, put16. apply put8_bytes, put8_bytes. unfold splice. rewrite !Forall_app. split_and!; [|by apply name_field_bytes|]; [apply Forall_take|apply Forall_drop]; by apply Forall_replicate.
Qed.

Lemma dirents_length inum files : length (dirents inum files) = (16 * length files)%nat.
Proof. revert inum. induction files as [|f files IH]; intros inum; [done|]. cbn [dirents length]. rewrite length_app, dirent_length, IH. lia. Qed.

Lemma skip_underscore_bytes name : Forall byte name → Forall byte (skip_underscore name).
Proof. destruct name as [|c t]; [done|]. intros F. simpl. case_decide; [by apply Forall_cons in F as [_ F]|done]. Qed.

Definition file_made (f : list Z * list (list Z)) (e : dinode * list Z) : Prop :=
  e.2 = content f ∧ d_type e.1 = T_FILE ∧ d_nlink e.1 = 1.

Lemma copy_files_run ctx sb files : ∀ s own d0 c0 fl, minv sb s own ((d0, c0) :: fl) →
  Forall (λ f, name_ok f.1 ∧ Forall (Forall byte) f.2 ∧ Z.of_nat (length (content f)) ≤ MAXBYTES) files →
  1 + Z.of_nat (length ((d0, c0) :: fl)) + Z.of_nat (length files) ≤ ninodes → Z.of_nat (length c0 + 16 * length files) ≤ MAXBYTES →
  DATA0 + total ((c0 ++ dirents (2 + Z.of_nat (length fl)) files) :: fl.*2 ++ (content <$> files)) ≤ 512 →
  ∃ d' s' own' fl', copy_files 1 files ctx s = Ok () ctx s' ∧ minv sb s' own' ((d', c0 ++ dirents (2 + Z.of_nat (length fl)) files) :: fl ++ fl') ∧
    same_kind d0 d' ∧ Forall2 file_made files fl'.
Proof.
  induction files as [|[name chunks] files IH]; intros s own d0 c0 fl V Hf Hn Hroot Hfit.
  { exists d0, s, own, []. simpl. rewrite !app_nil_r. split_and!; [done|done|done|constructor]. }
  apply Forall_cons in Hf as [([Nb Ns] & Hb & Hc) Hf]. cbn [fst snd content] in *. cbn [copy_files]. rewrite decide_False by done. cbn [length] in Hn.
  destruct (ialloc_run ctx sb s own _ T_FILE V) as (s1 & E1 & V1); [done|simpl; lia|]. rewrite (bind_Ok _ _ _ _ _ _ _ E1). cbn [length]. replace (1 + Z.of_nat (S (length fl))) with (2 + Z.of_nat (length fl)) by lia.
  cbn [dirents fst snd] in *. set (de := dirent (2 + Z.of_nat (length fl)) (skip_underscore name)) in *. assert (Lde : length de = 16%nat) by apply dirent_length.
  set (rest := dirents (2 + Z.of_nat (length fl) + 1) files) in *. rewrite fmap_cons in Hfit. rewrite app_assoc in Hfit |- *. simpl total in Hfit. rewrite total_app in Hfit. cbn [total] in Hfit.
  assert (Lr : length rest = (16 * length files)%nat) by apply dirents_length.
  pose proof (total_nonneg (content <$> files)). pose proof (need_mono (Z.of_nat (length (c0 ++ de))) (Z.of_nat (length ((c0 ++ de) ++ rest))) ltac:(rewrite !length_app; lia)).
  pose proof (need_mono 0 (Z.of_nat (length (content (name, chunks)))) ltac:(lia)). assert (N0 : need 0 = 0) by done.
  destruct (iappend_run ctx sb s1 own _ 0 d0 c0 de V1 eq_refl) as (d1 & s2 & own2 & E2 & V2 & K2).
  { by apply dirent_bytes, skip_underscore_bytes. } { rewrite length_app, Lde. simpl in Hroot. lia. }
  { cbn [fmap list_fmap app snd list_insert insert]. rewrite fmap_app. simpl total. rewrite total_app. cbn [total fmap list_fmap snd length]. change (Z.of_nat 0) with 0. rewrite N0. lia. }
  change (Z.of_nat 0 + 1) with 1 in E2. rewrite (bind_Ok _ _ _ _ _ _ _ E2). cbn [app insert list_insert] in V2.
  assert (EI : ∀ e : dinode * list Z, <[S (length fl) := e]> ((d1, c0 ++ de) :: fl ++ [(new_dinode T_FILE, [])]) = (d1, c0 ++ de) :: fl ++ [e]).
  { intros e. simpl. f_equal. by rewrite insert_app_r_alt, Nat.sub_diag by lia. }
  destruct (append_all_run ctx sb chunks s2 own2 _ (S (length fl)) (new_dinode T_FILE) [] V2) as (d3 & s3 & own3 & E3 & V3 & K3).
  { simpl. by rewrite lookup_app_r, Nat.sub_diag by lia. } { done. } { done. }
  { assert (Es : ∀ l : list (dinode * list Z), <[S (length fl) := [] ++ mjoin chunks]> l.*2 = (<[S (length fl) := (d0, [] ++ mjoin chunks)]> l).*2) by (intros l; by rewrite list_fmap_insert).
    rewrite Es, EI. cbn [fmap list_fmap snd total]. rewrite fmap_app, total_app. cbn [fmap list_fmap snd total app].
    change (content (name, chunks)) with (mjoin chunks) in *. lia. }
  replace (Z.of_nat (S (length fl)) + 1) with (2 + Z.of_nat (length fl)) in E3 by lia. rewrite (bind_Ok _ _ _ _ _ _ _ E3).
  rewrite EI in V3. destruct (IH s3 own3 d1 (c0 ++ de) (fl ++ [(d3, mjoin chunks)]) V3 Hf) as (d' & s' & own' & fl' & E' & V' & K' & F').
  { cbn [length]. rewrite length_app. simpl. lia. } { rewrite length_app, Lde. simpl in Hroot. lia. }
  { rewrite length_app. simpl length. replace (2 + Z.of_nat (length fl + 1)) with (2 + Z.of_nat (length fl) + 1) by lia. fold rest. cbn [total]. rewrite fmap_app, !total_app. change ([(d3, mjoin chunks)].*2) with [mjoin chunks]. cbn [total].
    change (content (name, chunks)) with (mjoin chunks) in *. lia. }
  rewrite length_app in V'. simpl in V'. replace (2 + Z.of_nat (length fl + 1)) with (2 + Z.of_nat (length fl) + 1) in V' by lia. fold rest in V'.
  exists d', s', own', ((d3, mjoin chunks) :: fl'). split_and!; [done|by rewrite <- (app_assoc fl) in V'|by eapply same_kind_trans|]. constructor; [|done].
  destruct K3 as (K3a & _ & _ & K3b). by split_and!.
Qed.
