(* ===== verification/MkfsMain.v ===== *)
(** * mkfs and the kernel agree

    [mkfs] returns, and on any device that starts with the image it leaves, the kernel
    finds the super block, the bitmap, every file given on the command line with its
    blocks and contents, and the root directory that lists them.

    The invariant of the allocator ([fs_ok]) speaks of all the blocks that the bitmap has a
    bit for, 4096, because [balloc] looks at these bits too
    (FsExamples.balloc_beyond_size).  It holds on a device that goes on with zeros behind
    the 1024 sectors of the image. *)
From S2P Require Import Prelude Kernel ProcData FsDisk Fs FsAlloc FsFile FsDir Mkfs MkfsInv MkfsRun.
Local Open Scope Z_scope.

(** ** main *)
Lemma zero_sectors_run ctx n : ∀ s k, img s = replicate k zero_block →
  zero_sectors n (Z.of_nat k) ctx s = Ok () ctx (set_img (replicate (k + n) zero_block) s).
Proof.
  induction n as [|n IH]; intros s k E; cbn [zero_sectors].
  - rewrite Nat.add_0_r. rewrite ret_run, <- E. by destruct s.
  - unfold mbind, M_bind, wsect. unfold mbind at 1, M_bind at 1. cbn [kget obind]. rewrite E, Nat2Z.id, length_replicate, decide_False by lia. rewrite Nat.sub_diag. cbn [replicate app kput obind].
    replace (Z.of_nat k + 1) with (Z.of_nat (S k)) by lia. rewrite (IH _ (S k)); [by replace (k + S n)%nat with (S k + n)%nat by lia|].
    cbn [img set_img]. rewrite <- replicate_cons_app. done.
Qed.

(** ** The arguments *)
Definition root_content (files : list (list Z * list (list Z))) : list Z := dirent 1 [46] ++ dirent 1 [46; 46] ++ dirents 2 files.

(** What [mkfs] asserts of its arguments, and what it needs and does not check: that the
    inodes suffice. *)
Record input_ok (files : list (list Z * list (list Z))) : Prop := {
  in_files : Forall (λ f, name_ok f.1 ∧ Forall (Forall byte) f.2 ∧ Z.of_nat (length (content f)) ≤ MAXBYTES) files;
  in_inodes : 2 + Z.of_nat (length files) ≤ ninodes;
  in_blocks : DATA0 + total (root_content files :: (content <$> files)) < 512 }.

Lemma root_length files : Z.of_nat (length (root_content files)) = 32 + 16 * Z.of_nat (length files).
Proof. unfold root_content. rewrite !length_app, !dirent_length, dirents_length. lia. Qed.

Section mkfs.
Context (after_sb : list Z) (Hsb : length after_sb = 500%nat ∧ Forall byte after_sb).

Lemma sb_sector_ok : block_ok (sb_sector after_sb).
Proof.
  apply put_words_ok. destruct Hsb as [H1 H2]. split; [rewrite length_app, H1; done|]. apply Forall_app. split; [by apply Forall_replicate|done].
Qed.

Lemma superblock_made : superblock_at (sb_sector after_sb) = Superblock 1024 995 200.
Proof. reflexivity. Qed.

(** The state when the root directory is about to be made. *)
Definition blank : mkst := MkSt (<[1%nat := sb_sector after_sb]> (replicate (Z.to_nat fssize) zero_block)) 29 29 1.

Lemma zero_idino i : 0 ≤ i < TABLE → d_type (idino (img blank) i) = 0.
Proof.
  intros Hi. destruct (i2b_range i Hi) as [R1 R2]. assert (E : sect (img blank) (i2b i) = zero_block).
  { unfold sect, blank. cbn [img]. rewrite list_lookup_insert_ne by lia. rewrite lookup_replicate_2 by (unfold fssize; lia). done. }
  unfold idino, dinode_at. rewrite E. cbn [d_type]. unfold get16. change IPB with 8 in *. rewrite !get8_zero by (unfold BSIZE; lia). done.
Qed.

Lemma blank_minv : minv (sb_sector after_sb) blank ∅ [].
Proof.
  split.
  - split; cbn [img blank fmap list_fmap total].
    + by rewrite length_insert, length_replicate.
    + apply Forall_insert; [apply Forall_replicate, zero_block_ok|apply sb_sector_ok].
    + by intros a o ?%lookup_empty_Some.
    + unfold DATA0. lia.
    + intros a Ha. unfold DATA0, fssize in Ha. unfold sect. rewrite list_lookup_insert_ne by lia. by rewrite lookup_replicate_2 by (unfold fssize; lia).
  - done.
  - done.
  - by intros k d c ?.
  - intros i Hi. apply zero_idino. simpl in Hi. lia.
  - done.
Qed.

Lemma blank_run ctx s (f : M mkst unit) :
  (kput (MkSt [] 29 29 1);; (if decide (nblocks + 29 ≠ fssize) then panic "assert" else mret ());;
   zero_sectors (Z.to_nat (nblocks + 29)) 0;; wsect 1 (sb_sector after_sb);; f) ctx s = f ctx blank.
Proof.
  unfold mbind at 1, M_bind at 1. cbn [kput obind]. rewrite decide_False by (intros H; by apply H). rewrite ret_bind.
  change 0 with (Z.of_nat 0) at 1. rewrite (bind_Ok _ _ _ _ _ _ _ (zero_sectors_run ctx _ (MkSt [] 29 29 1) 0 eq_refl)).
  rewrite (bind_Ok _ _ _ _ _ _ _ (wsect_run ctx (set_img (replicate (0 + Z.to_nat (nblocks + 29)) zero_block) (MkSt [] 29 29 1)) 1 _ ltac:(cbn [img set_img]; rewrite length_replicate; done))). done.
Qed.

(** ** The whole run *)
Definition round_up (n : Z) : Z := (n / BSIZE + 1) * BSIZE.

(** What is on the disk at the end. *)
Record made (files : list (list Z * list (list Z))) (im : list block) (own : owners) : Prop := {
  ma_img : mimg im (DATA0 + total (root_content files :: (content <$> files))) own;
  ma_sb : sect im 1 = sb_sector after_sb;
  ma_bitmap : sect im 28 = set_bits (Z.to_nat (DATA0 + total (root_content files :: (content <$> files)))) zero_block;
  ma_root : let d := idino im 1 in d_type d = T_DIR ∧ d_nlink d = 1 ∧ d_size d = round_up (Z.of_nat (length (root_content files))) ∧
    mfile im own 1 d (root_content files);
  ma_file : ∀ k f, files !! k = Some f → let d := idino im (Z.of_nat k + 2) in
    d_type d = T_FILE ∧ d_nlink d = 1 ∧ d_size d = Z.of_nat (length (content f)) ∧ mfile im own (Z.of_nat k + 2) d (content f) }.

Lemma set_bits_ok n : block_ok (set_bits n zero_block).
Proof. induction n as [|n IH]; simpl; [apply zero_block_ok|by apply set_bit_ok]. Qed.

(** The end of [main]: the size of the root directory is rounded up and the bitmap
    written. *)
Definition finish : M mkst unit :=
  din ← rinode 1;
  winode 1 (set_dsize (xint ((xint (d_size din) / BSIZE + 1) * BSIZE)) din);;
  s ← kget;
  balloc (usedblocks s).

Lemma finish_run ctx sb s own d c fl : minv sb s own ((d, c) :: fl) → let u := DATA0 + total (c :: fl.*2) in u < 512 →
  ∃ s', finish ctx s = Ok () ctx s' ∧ mimg (img s') u own ∧ sect (img s') 1 = sb ∧ sect (img s') 28 = set_bits (Z.to_nat u) zero_block ∧
    idino (img s') 1 = set_dsize (round_up (Z.of_nat (length c))) d ∧ (∀ i, 2 ≤ i < TABLE → idino (img s') i = idino (img s) i) ∧
    (∀ a, DATA0 ≤ a → sect (img s') a = sect (img s) a).
Proof.
  intros [V1 [V2 V2'] [V3 V3'] V4 V5 V6] u Hu. destruct (V4 0%nat d c eq_refl) as (D1 & D2 & D3). change (Z.of_nat 0 + 1) with 1 in *. change (((d, c) :: fl).*2) with (c :: fl.*2) in *. fold u in V1, V2, V2'.
  assert (Hc := mf_len _ _ _ _ _ D3). change MAXBYTES with 71680 in Hc. assert (R1 : 0 ≤ 1 < TABLE) by done.
  assert (Rr : 0 ≤ round_up (Z.of_nat (length c)) < 2 ^ 32). { unfold round_up, BSIZE. pose proof (Z.div_mod (Z.of_nat (length c)) 512). pose proof (Z.mod_pos_bound (Z.of_nat (length c)) 512). lia. }
  unfold finish. rewrite (bind_Ok _ _ _ _ _ _ _ (rinode_run ctx s _ _ _ V1 R1)), D1, D2. rewrite (xint_id (Z.of_nat (length c))) by lia. fold (round_up (Z.of_nat (length c))). rewrite xint_id by done.
  set (d' := set_dsize _ d). assert (F' := set_dsize_file _ _ _ _ _ _ D3 Rr). fold d' in F'.
  rewrite (bind_Ok _ _ _ _ _ _ _ (winode_run ctx s _ _ 1 d' V1 R1)). destruct (idino_put (img s) u own 1 d' V1 R1 (mf_ok _ _ _ _ _ F')) as (M2 & T2 & L2). set (im2 := <[_ := _]> (img s)) in *.
  rewrite kget_bind. cbn [usedblocks set_img]. rewrite V2'. unfold balloc. rewrite decide_False by lia. change (ninodes / IPB + 3) with 28. set (bm := set_bits (Z.to_nat u) zero_block).
  assert (Ln : length im2 = Z.to_nat fssize) by apply (mg_len _ _ _ M2). pose proof (mg_fb _ _ _ M2) as Rf. unfold DATA0 in Rf.
  assert (Sc : ∀ a, 0 ≤ a → sect (<[Z.to_nat 28 := bm]> im2) a = if decide (a = 28) then bm else sect im2 a) by (intros a Ha; apply sect_put; [rewrite Ln; done|done]).
  exists (set_img (<[Z.to_nat 28 := bm]> im2) (set_img im2 s)). cbn [img set_img]. split_and!.
  - rewrite wsect_run; [done|]. cbn [img set_img]. rewrite Ln. done.
  - apply mimg_put; [done|apply set_bits_ok|lia].
  - rewrite Sc, decide_False by lia. rewrite L2 by lia. done.
  - by rewrite Sc, decide_True by lia.
  - unfold idino. destruct (i2b_range 1 R1). rewrite Sc, decide_False by lia. fold (idino im2 1). by rewrite T2, decide_True.
  - intros i Hi. assert (Ri : 0 ≤ i < TABLE) by lia. unfold idino. destruct (i2b_range i Ri). rewrite Sc, decide_False by lia. fold (idino im2 i). rewrite T2, decide_False by lia. done.
  - intros a Ha. unfold DATA0 in Ha. rewrite Sc, decide_False by lia. apply L2; lia.
Qed.

Lemma mkfs_run ctx s files : input_ok files → ∃ s' own, mkfs after_sb files ctx s = Ok () ctx s' ∧ made files (img s') own.
Proof.
  intros [If In Ib]. assert (Lr := root_length files). cbn [total] in Ib. pose proof (total_nonneg (content <$> files)).
  assert (Hb : ∀ c : list Z, Z.of_nat (length c) ≤ Z.of_nat (length (root_content files)) → DATA0 + (need (Z.of_nat (length c)) + 0) ≤ 512) by (intros c Hc; apply need_mono in Hc; lia).
  assert (Hm : Z.of_nat (length (root_content files)) ≤ MAXBYTES) by (rewrite Lr; unfold ninodes in In; change MAXBYTES with 71680; lia).
  unfold mkfs. change (ninodes / IPB + 3 + (fssize / (512 * 8) + 1)) with 29. cbv zeta. rewrite blank_run.
  destruct (ialloc_run ctx _ _ _ _ T_DIR blank_minv) as (s1 & E1 & V1); [done|done|]. rewrite (bind_Ok _ _ _ _ _ _ _ E1). change (1 + Z.of_nat (length [])) with 1. rewrite decide_False by (intros N; by apply N). rewrite ret_bind.
  set (d1 := dirent 1 [46]). set (d2 := dirent 1 [46; 46]). assert (Ld : length d1 = 16%nat ∧ length d2 = 16%nat) by (split; apply dirent_length). destruct Ld as [Ld1 Ld2].
  destruct (iappend_run ctx _ s1 _ _ 0 (new_dinode T_DIR) [] d1 V1 eq_refl) as (r1 & s2 & own2 & E2 & V2 & K2); [apply dirent_bytes; by repeat constructor|simpl app; rewrite Ld1; lia| |].
  { apply (Hb ([] ++ d1)). simpl app. rewrite Ld1, Lr. lia. }
  change (Z.of_nat 0 + 1) with 1 in E2. rewrite (bind_Ok _ _ _ _ _ _ _ E2).
  destruct (iappend_run ctx _ s2 _ _ 0 r1 d1 d2 V2 eq_refl) as (r2 & s3 & own3 & E3 & V3 & K3); [apply dirent_bytes; by repeat constructor|rewrite length_app, Ld1, Ld2; lia| |].
  { apply (Hb (d1 ++ d2)). rewrite length_app, Ld1, Ld2, Lr. lia. }
  change (Z.of_nat 0 + 1) with 1 in E3. rewrite (bind_Ok _ _ _ _ _ _ _ E3).
  assert (Er : (d1 ++ d2) ++ dirents 2 files = root_content files) by (rewrite <- app_assoc; done).
  destruct (copy_files_run ctx _ files s3 own3 r2 (d1 ++ d2) [] V3 If) as (r3 & s4 & own4 & fl & E4 & V4 & K4 & F4); [simpl; lia|rewrite length_app, Ld1, Ld2; lia| |].
  { change (2 + Z.of_nat (length [])) with 2. rewrite Er. change ([].*2 ++ (content <$> files)) with (content <$> files). cbn [total]. lia. }
  rewrite (bind_Ok _ _ _ _ _ _ _ E4). change (2 + Z.of_nat (length [])) with 2 in V4. rewrite Er in V4. cbn [app] in V4.
  fold finish. assert (Ec : fl.*2 = content <$> files). { clear -F4. induction F4 as [|f e files fl (H & _) F IH]; [done|]. rewrite !fmap_cons. by f_equal. }
  assert (Hu : DATA0 + total (root_content files :: fl.*2) < 512) by (rewrite Ec; cbn [total]; lia).
  destruct (finish_run ctx _ _ _ _ _ _ V4 Hu) as (s5 & E5 & M5 & B5 & Bm5 & R5 & I5 & D5). rewrite Ec in M5, Bm5. exists s5, own4. split; [done|].
  destruct V4 as [V4a _ [V4b V4c] V4d _ _]. destruct K2 as (K2 & _ & _ & N2), K3 as (K3 & _ & _ & N3), K4 as (K4 & _ & _ & N4). cbn [new_dinode d_type d_nlink] in K2, N2.
  assert (Mv : ∀ inum d c, mfile (img s4) own4 inum d c → mfile (img s5) own4 inum d c).
  { intros inum d c F. eapply mfile_frame; [done|]. intros a o Ho. split; [done|]. apply D5. apply (mg_own _ _ _ V4a _ _ Ho). }
  split; [done|done|done| |].
  - destruct (V4d 0%nat r3 (root_content files) eq_refl) as (G1 & G2 & G3). cbv zeta. rewrite R5. cbn [d_type d_nlink d_size set_dsize]. split_and!; [congruence|congruence|done|].
    apply set_dsize_file; [by apply Mv|]. unfold round_up, BSIZE. change MAXBYTES with 71680 in Hm. pose proof (Z.div_mod (Z.of_nat (length (root_content files))) 512). pose proof (Z.mod_pos_bound (Z.of_nat (length (root_content files))) 512). lia.
  - intros k f Hf. destruct (Forall2_lookup_l _ _ _ _ _ F4 Hf) as ([d c] & Hk & Hc & Ht & Hn). simpl in Hc, Ht, Hn. subst c. assert (Lk := lookup_lt_Some _ _ _ Hf).
    destruct (V4d (S k) d (content f) Hk) as (G1 & G2 & G3). replace (Z.of_nat (S k) + 1) with (Z.of_nat k + 2) in * by lia. cbv zeta. rewrite I5, G1 by (unfold ninodes, TABLE in *; lia).
    split_and!; [done|done|done|by apply Mv].
Qed.
End mkfs.

(** ** The kernel's view *)

(** A root device whose first sectors are the image. *)
Definition carries (dk : gmap (Z * Z) block) (im : list block) : Prop :=
  ∀ a, 0 ≤ a < Z.of_nat (length im) → dk !! (ROOTDEV, a) = Some (sect im a).

(** It goes on, with zeros, up to the last sector that the image's block of bitmap has a
    bit for; [balloc] looks at all the bits and does not compare with the size. *)
Record blank_behind (dk : gmap (Z * Z) block) (im : list block) : Prop := {
  bb_zero a : Z.of_nat (length im) ≤ a < BPB → dk !! (ROOTDEV, a) = Some zero_block;
  bb_blocks a d : dk !! (ROOTDEV, a) = Some d → block_ok d
}.

(** A device with the sectors of the image and no others. *)
Definition image_disk (im : list block) : gmap (Z * Z) block :=
  list_to_map (imap (λ k d, ((ROOTDEV, Z.of_nat k), d)) im).

Lemma list_to_map_imap (dev : Z) : ∀ (l : list block) (n : nat) a,
  (list_to_map (imap (λ k d, ((dev, Z.of_nat (n + k)), d)) l) : gmap (Z * Z) block) !! (dev, a) =
  if decide (Z.of_nat n ≤ a) then l !! (Z.to_nat a - n)%nat else None.
Proof.
  induction l as [|d l IH]; intros n a; [simpl; by case_decide|]. simpl. rewrite Nat.add_0_r.
  assert (E : imap ((λ k d, ((dev, Z.of_nat (n + k)), d)) ∘ S) l = imap (λ k d, ((dev, Z.of_nat (S n + k)), d)) l) by (apply imap_ext; intros; simpl; do 3 f_equal; lia).
  rewrite E. destruct (decide (a = Z.of_nat n)) as [->|Ne].
  - rewrite lookup_insert_eq, decide_True by lia. by rewrite Nat2Z.id, Nat.sub_diag.
  - rewrite lookup_insert_ne by congruence. rewrite IH. destruct (decide (Z.of_nat n ≤ a)).
    + rewrite decide_True by lia. replace (Z.to_nat a - n)%nat with (S (Z.to_nat a - S n)) by lia. done.
    + by rewrite decide_False by lia.
Qed.

Lemma image_disk_carries im : carries (image_disk im) im.
Proof.
  intros a Ha. unfold image_disk. rewrite (list_to_map_imap ROOTDEV _ 0), decide_True, Nat.sub_0_r by lia.
  unfold sect. destruct (lookup_lt_is_Some_2 im (Z.to_nat a)) as [d ->]; [lia|done].
Qed.

(** An inode in the cache, as [ilock] fills it in. *)
Definition inode_of (inum : Z) (d : dinode) : inode :=
  Inode ROOTDEV inum 1 true true (d_type d) (d_major d) (d_minor d) (d_nlink d) (d_size d) (d_addrs d).
Definition mounted (dk : gmap (Z * Z) block) (i : inode) : fsst := FsSt dk [] [i] None.

Section mount.
Context (im : list block) (u : Z) (own : owners) (M : mimg im u own).
Context (dk : gmap (Z * Z) block) (HC : carries dk im).

Lemma disk_own i a o : own !! a = Some o → disk (mounted dk i) !! (ROOTDEV, a) = Some (sect im a).
Proof. intros Ho. destruct (own_range _ _ _ _ _ M Ho) as [R1 R2]. apply HC. unfold DATA0 in R1. lia. Qed.

Section file.
Context (inum : Z) (d : dinode) (c : list Z) (F : mfile im own inum d c).
Let i : inode := inode_of inum d.
Let s : fsst := mounted dk i.

Lemma addr_of_mounted j : 0 ≤ j < MAXFILE → addr_of s i j = maddr im d j.
Proof.
  intros Hj. unfold addr_of, maddr. change (ind i) with (mind d). change (i_addrs i) with (d_addrs d). case_decide; [done|]. case_decide as Hi; [done|].
  change (i_dev i) with ROOTDEV. unfold s. rewrite (disk_own i _ _ (mf_ind _ _ _ _ _ F Hi)). done.
Qed.

Lemma fblk_mounted j : 0 ≤ j < MAXFILE → fblk s i j = mblk im d j.
Proof.
  intros Hj. unfold fblk, mblk. rewrite addr_of_mounted by done. case_decide as Ha; [done|]. change (i_dev i) with ROOTDEV. unfold s. by rewrite (disk_own i _ _ (mf_addr _ _ _ _ _ F j Hj Ha)).
Qed.

Lemma block_index x : 0 ≤ x < MAXBYTES → 0 ≤ x / BSIZE < MAXFILE ∧ 0 ≤ x mod BSIZE < 512 ∧ 512 * (x / BSIZE) + x mod BSIZE = x.
Proof. unfold MAXBYTES, BSIZE. change MAXFILE with 140. intros H. pose proof (Z.div_mod x 512). pose proof (Z.mod_pos_bound x 512). lia. Qed.

Lemma fbyte_mounted x : 0 ≤ x < MAXBYTES → fbyte s i x = cbyte c x.
Proof. intros Hx. destruct (block_index x Hx) as (H1 & H2 & H3). unfold fbyte. rewrite fblk_mounted by done. rewrite (mf_data _ _ _ _ _ F) by done. by rewrite H3. Qed.

Lemma fbytes_mounted off n : 0 ≤ off → 0 ≤ n → off + n ≤ MAXBYTES → off + n ≤ Z.of_nat (length c) → fbytes s i off n = slice c off n.
Proof.
  intros Ho Hn Hm Hc. apply get8_ext; [rewrite fbytes_length, slice_length by lia; done|]. rewrite fbytes_length. intros x Hx. rewrite get8_fbytes, get8_slice by lia.
  rewrite fbyte_mounted by lia. unfold cbyte. by rewrite decide_True by lia.
Qed.

Lemma in_file_own a : in_file s i a → ∃ o, own !! a = Some (inum, o).
Proof.
  intros [Ha [->|(j & Hj & Ej)]]; [exists None; by apply (mf_ind _ _ _ _ _ F)|]. exists (Some j). rewrite addr_of_mounted in Ej by done. rewrite <- Ej in *. by apply (mf_addr _ _ _ _ _ F).
Qed.
End file.
End mount.

Lemma bit_zero b : 0 ≤ b < BPB → bit zero_block b = false.
Proof.
  intros Hb. unfold bit. unfold BPB, BSIZE in Hb. pose proof (Z.div_mod b 8). pose proof (Z.mod_pos_bound b 8). rewrite get8_zero by (unfold BSIZE; lia). apply Z.bits_0.
Qed.

Lemma bit_set_bits n b : Z.of_nat n ≤ BPB → 0 ≤ b < BPB → bit (set_bits n zero_block) b = bool_decide (b < Z.of_nat n).
Proof.
  intros Hn Hb. induction n as [|n IH]; cbn [set_bits].
  - rewrite bit_zero by done. symmetry. apply bool_decide_eq_false_2. lia.
  - rewrite bit_set by (apply set_bits_ok || lia). rewrite IH by lia. do 2 case_bool_decide; repeat case_bool_decide; done || lia.
Qed.

Definition image_sb : superblock := Superblock 1024 995 200.

(** A file or directory of the image: its inode, and its blocks, each used by it alone
    and marked in use.  With the invariant of the allocator it is [file_wf]. *)
Record file_there (s : fsst) (i : inode) : Prop := {
  ft_file : file_ok ROOTDEV image_sb s i;
  ft_inode : inode_ok ROOTDEV image_sb s i;
  ft_type : i_type i ≠ T_DEV;
  ft_size : 0 ≤ i_size i ≤ MAXBYTES;
  ft_dense : ∀ x, 0 ≤ x < i_size i → addr_of s i (x / BSIZE) ≠ 0
}.

Section made.
Context (after_sb : list Z) (files : list (list Z * list (list Z))) (im : list block) (own : owners).
Context (Hin : input_ok files) (Hm : made after_sb files im own).
Context (dk : gmap (Z * Z) block) (HC : carries dk im).
Let u : Z := DATA0 + total (root_content files :: (content <$> files)).

Lemma u_range : DATA0 ≤ u < 512.
Proof. unfold u. split; [|apply (in_blocks _ Hin)]. pose proof (total_nonneg (root_content files :: (content <$> files))). lia. Qed.

Lemma im_length : length im = 1024%nat.
Proof. apply (mg_len _ _ _ (ma_img _ _ _ _ Hm)). Qed.
Lemma disk_at i a : 0 ≤ a < 1024 → disk (mounted dk i) !! (ROOTDEV, a) = Some (sect im a).
Proof. intros Ha. apply HC. rewrite im_length. lia. Qed.

Lemma scanned_block b : scanned image_sb b → 0 ≤ b < BPB ∧ BBLOCK b (sb_ninodes image_sb) = 28.
Proof.
  intros [H1 H2]. simpl sb_size in H2. unfold BBLOCK. simpl sb_ninodes. change (200 / IPB) with 25. unfold BPB, BSIZE in *. change (512 * 8) with 4096 in *.
  pose proof (Z.div_mod b 4096). pose proof (Z.mod_pos_bound b 4096). assert (0 ≤ b / 4096) by (apply Z.div_pos; lia). lia.
Qed.

Lemma block_scanned b : 0 ≤ b < BPB → scanned image_sb b.
Proof. intros H. split; [lia|]. rewrite Z.div_small by lia. done. Qed.

Lemma used_mounted i b : 0 ≤ b < BPB → used ROOTDEV image_sb (mounted dk i) b = bool_decide (b < u).
Proof.
  intros Hb. unfold used, bitmap_of. destruct (scanned_block b (block_scanned b Hb)) as [_ ->]. rewrite disk_at by done. rewrite (ma_bitmap _ _ _ _ Hm). fold u. pose proof u_range as Ru. unfold DATA0 in Ru.
  rewrite Z.mod_small by done. rewrite bit_set_bits by (done || (unfold BPB, BSIZE; lia)). by rewrite Z2Nat.id by lia.
Qed.

Lemma sb_made : ∃ b, dk !! (ROOTDEV, 1) = Some b ∧ superblock_at b = image_sb.
Proof.
  exists (sb_sector after_sb). rewrite HC by (rewrite im_length; lia). rewrite (ma_sb _ _ _ _ Hm).
  split; [done|apply superblock_made].
Qed.

Lemma fs_made i : blank_behind dk im → fs_ok ROOTDEV (mounted dk i) image_sb.
Proof.
  intros [Bz Bk]. pose proof (ma_img _ _ _ _ Hm) as M. fold u in M. pose proof u_range as Ru. unfold DATA0 in Ru.
  rewrite im_length in Bz. split.
  - apply sb_made.
  - intros b d. apply Bk.
  - intros b Hb. unfold bitmap_of. destruct (scanned_block b Hb) as [_ ->]. by rewrite disk_at.
  - intros b Hb Hu. destruct (scanned_block b Hb) as [Rb _]. rewrite used_mounted in Hu by done. apply bool_decide_eq_false_1 in Hu. split; [unfold data_block; simpl sb_ninodes; simpl sb_size; change (200 / IPB + 3 + 1024 / BPB) with 28; lia|].
    destruct (decide (b < 1024)); [|apply Bz; lia]. rewrite disk_at by lia. f_equal. apply (mg_zero _ _ _ M); unfold fssize; lia.
  - simpl. lia.
Qed.

Lemma file_made_ok inum d c : mfile im own inum d c → file_ok ROOTDEV image_sb (mounted dk (inode_of inum d)) (inode_of inum d).
Proof.
  intros F. pose proof (ma_img _ _ _ _ Hm) as M. fold u in M. pose proof u_range as Ru. unfold DATA0 in Ru. split; [done|apply (do_len _ (mf_ok _ _ _ _ _ F))|..].
  - intros a Ha. destruct (in_file_own im u own M dk HC inum d c F a Ha) as [o Ho]. pose proof (mg_own _ _ _ M _ _ Ho) as Ra. unfold DATA0 in Ra. assert (Rb : 0 ≤ a < BPB) by (unfold BPB, BSIZE; lia).
    split_and!; [by apply block_scanned|unfold data_block; simpl sb_ninodes; simpl sb_size; change (200 / IPB + 3 + 1024 / BPB) with 28; lia| |by rewrite disk_at by lia].
    rewrite used_mounted by done. apply bool_decide_eq_true_2. lia.
  - intros j k Hj Hk. rewrite !(addr_of_mounted im u own M dk HC inum d c F) by done. intros Hne E. assert (O1 := mf_addr _ _ _ _ _ F j Hj Hne). rewrite E in Hne, O1. assert (O2 := mf_addr _ _ _ _ _ F k Hk Hne). congruence.
  - intros j Hj. rewrite (addr_of_mounted im u own M dk HC inum d c F) by done. intros Hne E. assert (O1 := mf_addr _ _ _ _ _ F j Hj Hne). change (ind (inode_of inum d)) with (mind d) in E.
    rewrite E in Hne, O1. assert (O2 := mf_ind _ _ _ _ _ F Hne). congruence.
Qed.

Lemma file_made_there inum d c : mfile im own inum d c → 0 ≤ inum < 200 → d_type d ≠ T_DEV → 0 ≤ d_size d ≤ MAXBYTES →
  (∀ x, 0 ≤ x < d_size d → 512 * (x / 512) < Z.of_nat (length c)) → file_there (mounted dk (inode_of inum d)) (inode_of inum d).
Proof.
  intros F Hi Ht Hs Hd. pose proof (ma_img _ _ _ _ Hm) as M. fold u in M. split; [by eapply file_made_ok| |done|done|].
  - split; [done|]. destruct (i2b_range inum) as [R _]; [unfold TABLE; lia|]. change (IBLOCK (i_inum (inode_of inum d))) with (i2b inum). rewrite disk_at by lia. done.
  - intros x Hx. change (i_size (inode_of inum d)) with (d_size d) in Hx. destruct (block_index x) as (H1 & _); [lia|]. rewrite (addr_of_mounted im u own M dk HC inum d c F) by done. apply (mf_dense _ _ _ _ _ F); [done|]. by apply Hd.
Qed.

Lemma there_wf i : blank_behind dk im → file_there (mounted dk i) i → file_wf ROOTDEV image_sb 0 (mounted dk i) i.
Proof. intros B []. split; [split; [by apply fs_made|done..]|done..]. Qed.

(** ** The root directory *)
Let d : dinode := idino im 1.
Let i : inode := inode_of 1 d.

Lemma root_made : (2 + Z.of_nat (length files)) mod 32 ≠ 0 →
  file_there (mounted dk i) i ∧ i_type i = T_DIR ∧ i_size i mod 16 = 0 ∧ ∀ x, i_size i ≤ x < MAXBYTES → fbyte (mounted dk i) i x = 0.
Proof.
  intros Hr. destruct (ma_root _ _ _ _ Hm) as (T & _ & S & F). fold d in T, S, F. pose proof (ma_img _ _ _ _ Hm) as M. fold u in M. pose proof (root_length files) as L. pose proof (in_inodes _ Hin) as Hn. unfold ninodes in Hn.
  set (n := Z.of_nat (length (root_content files))) in *. assert (E : round_up n = 512 * (n / 512) + 512) by (unfold round_up, BSIZE; lia). rewrite E in S.
  pose proof (Z.div_mod n 512). pose proof (Z.mod_pos_bound n 512). assert (n mod 512 ≠ 0).
  { intros Z0. apply Hr. apply Z.mod_divide; [done|]. exists (n / 512). lia. }
  split; [|split; [done|split]].
  - apply (file_made_there 1 d _ F); [done|by rewrite T|rewrite S; change MAXBYTES with 71680; lia|]. intros x Hx. fold n. rewrite S in Hx. assert (x / 512 ≤ n / 512); [|lia]. apply Z.lt_succ_r, Z.div_lt_upper_bound; lia.
  - change (i_size i) with (d_size d). rewrite S. replace (512 * (n / 512) + 512) with ((32 * (n / 512) + 32) * 16) by lia. apply Z_mod_mult.
  - intros x Hx. change (i_size i) with (d_size d) in Hx. rewrite S in Hx. rewrite (fbyte_mounted im u own M dk HC 1 d _ F) by lia. unfold cbyte. fold n. by rewrite decide_False by lia.
Qed.
End made.

(** The entries, name fields and all. *)
Definition mkentry (e : Z * list Z) : list Z := put16 (splice (replicate 16 0) 2 e.2) 0 (xshort e.1).
Definition field (name : list Z) : list Z := name_field (Z.to_nat DIRSIZ) name.
Fixpoint listing (inum : Z) (files : list (list Z * list (list Z))) : list (Z * list Z) :=
  match files with [] => [] | f :: files => (inum, field (skip_underscore f.1)) :: listing (inum + 1) files end.
Definition root_listing (files : list (list Z * list (list Z))) : list (Z * list Z) :=
  (1, field [46]) :: (1, field [46; 46]) :: listing 2 files.

Lemma dirents_listing files : ∀ inum, dirents inum files = mjoin (mkentry <$> listing inum files).
Proof. induction files as [|f files IH]; intros inum; [done|]. cbn [dirents listing]. rewrite fmap_cons. simpl mjoin. by rewrite IH. Qed.

Lemma root_listing_content files : root_content files = mjoin (mkentry <$> root_listing files).
Proof. unfold root_content, root_listing. rewrite !fmap_cons. simpl mjoin. by rewrite dirents_listing. Qed.

Lemma listing_length files : ∀ inum, length (listing inum files) = length files.
Proof. induction files as [|f files IH]; intros inum; [done|]. simpl. by rewrite IH. Qed.

Lemma listing_ok files : ∀ inum, 0 ≤ inum → inum + Z.of_nat (length files) < 2 ^ 16 → Forall (λ e, 0 ≤ e.1 < 2 ^ 16 ∧ length e.2 = 14%nat) (listing inum files).
Proof.
  induction files as [|f files IH]; intros inum H1 H2; [constructor|]. cbn [length] in H2. constructor; [|apply IH; lia]. simpl fst. split; [lia|]. apply name_field_length.
Qed.

Lemma mkentry_length e : length e.2 = 14%nat → length (mkentry e) = 16%nat.
Proof. intros H. unfold mkentry. rewrite put16_length, splice_length; rewrite ?length_replicate, ?H; done. Qed.

Lemma get8_mkentry e o : length e.2 = 14%nat → 0 ≤ o < 14 → get8 (mkentry e) (2 + o) = get8 e.2 o.
Proof.
  intros H Ho. unfold mkentry, put16. assert (L : length (splice (replicate 16 0) 2 e.2) = 16%nat) by (rewrite splice_length; rewrite ?length_replicate, ?H; done).
  rewrite !get8_put8 by (rewrite ?put8_length, ?L; lia). rewrite !decide_False by lia. rewrite get8_splice by (rewrite ?length_replicate; lia). rewrite decide_True by (rewrite H; lia). f_equal. lia.
Qed.

Lemma get16_mkentry e : length e.2 = 14%nat → 0 ≤ e.1 < 2 ^ 16 → get16 (mkentry e) 0 = e.1.
Proof.
  intros H He. unfold mkentry. assert (L : length (splice (replicate 16 0) 2 e.2) = 16%nat) by (rewrite splice_length; rewrite ?length_replicate, ?H; done).
  rewrite get16_put16 by (rewrite ?L; lia). rewrite xshort_id by done. unfold u16. by apply Z.mod_small.
Qed.

Lemma get8_mjoin (l : list (list Z)) : Forall (λ p, length p = 16%nat) l → ∀ k p o, l !! k = Some p → 0 ≤ o < 16 → get8 (mjoin l) (16 * Z.of_nat k + o) = get8 p o.
Proof.
  induction 1 as [|p l Hp F IH]; intros k q o Hk Ho; [done|]. simpl mjoin. unfold get8. rewrite !list_lookup_total_alt. destruct k as [|k].
  - injection Hk as <-. rewrite lookup_app_l by lia. do 2 f_equal.
  - simpl in Hk. specialize (IH k q o Hk Ho). unfold get8 in IH. rewrite !list_lookup_total_alt in IH. rewrite <- IH. rewrite lookup_app_r by lia. do 2 f_equal. lia.
Qed.

Definition free_entry : Z * list Z := (0, replicate (Z.to_nat DIRSIZ) 0).

Section entries.
Context (after_sb : list Z) (files : list (list Z * list (list Z))) (im : list block) (own : owners).
Context (Hin : input_ok files) (Hm : made after_sb files im own).
Context (dk : gmap (Z * Z) block) (HC : carries dk im).
Let i : inode := inode_of 1 (idino im 1).
Let s : fsst := mounted dk i.

Lemma root_listing_ok : Forall (λ e, 0 ≤ e.1 < 2 ^ 16 ∧ length e.2 = 14%nat) (root_listing files).
Proof.
  pose proof (in_inodes _ Hin) as Hn. unfold ninodes in Hn. unfold root_listing. repeat constructor; try done. apply listing_ok; lia.
Qed.

Lemma pieces_ok : Forall (λ p, length p = 16%nat) (mkentry <$> root_listing files).
Proof. apply Forall_fmap. eapply Forall_impl; [apply root_listing_ok|]. intros e [_ H]. by apply mkentry_length. Qed.

Lemma root_mfile : mfile im own 1 (idino im 1) (root_content files) ∧ mimg im (DATA0 + total (root_content files :: (content <$> files))) own.
Proof. split; [apply (ma_root _ _ _ _ Hm)|apply (ma_img _ _ _ _ Hm)]. Qed.

Lemma entry_listed k e : root_listing files !! k = Some e → entry s i k = e.
Proof.
  intros Hk. destruct root_mfile as [F M]. pose proof root_listing_ok as O. rewrite Forall_lookup in O. destruct (O k e Hk) as [O1 O2]. pose proof (root_length files) as L.
  assert (Lk := lookup_lt_Some _ _ _ Hk). unfold root_listing in Lk. cbn [length] in Lk. rewrite listing_length in Lk. pose proof (in_inodes _ Hin) as Hn. unfold ninodes in Hn.
  assert (G : ∀ o, 0 ≤ o < 16 → get8 (root_content files) (16 * Z.of_nat k + o) = get8 (mkentry e) o).
  { intros o Ho. rewrite root_listing_content. apply get8_mjoin; [apply pieces_ok|by rewrite list_lookup_fmap, Hk|done]. }
  assert (B : ∀ o, 0 ≤ o < 16 → fbyte s i (16 * Z.of_nat k + o) = get8 (mkentry e) o).
  { intros o Ho. unfold s, i. rewrite (fbyte_mounted im _ own M dk HC 1 _ _ F) by (change MAXBYTES with 71680; lia). unfold cbyte. rewrite decide_True by lia. by apply G. }
  unfold entry. destruct e as [inum nm]. simpl in O1, O2. f_equal.
  - unfold dinum. rewrite <- (Z.add_0_r (16 * Z.of_nat k)) at 1. rewrite !B by lia. apply (get16_mkentry (inum, nm)); done.
  - unfold dname, s, i. rewrite (fbytes_mounted im _ own M dk HC 1 _ _ F) by (unfold DIRSIZ; change MAXBYTES with 71680; lia). apply get8_ext; [rewrite slice_length, O2 by (unfold DIRSIZ; lia); done|].
    rewrite slice_length by (unfold DIRSIZ; lia). intros x Hx. unfold DIRSIZ in *. rewrite get8_slice by lia. replace (16 * Z.of_nat k + 2 + x) with (16 * Z.of_nat k + (2 + x)) by lia. rewrite G by lia. apply (get8_mkentry (inum, nm)); [done|lia].
Qed.

Lemma entry_free (k : nat) : (2 + length files ≤ k)%nat → 16 * Z.of_nat k + 16 ≤ MAXBYTES → entry s i k = free_entry.
Proof.
  intros Hk Hb. destruct root_mfile as [F M]. pose proof (root_length files) as L. assert (B : ∀ x, 16 * Z.of_nat k ≤ x < MAXBYTES → fbyte s i x = 0).
  { intros x Hx. unfold s, i. rewrite (fbyte_mounted im _ own M dk HC 1 _ _ F) by lia. unfold cbyte. by rewrite decide_False by lia. }
  unfold entry, free_entry. f_equal; [unfold dinum; by rewrite !B by lia|]. unfold dname. apply get8_ext; [by rewrite fbytes_length, length_replicate|]. rewrite fbytes_length. unfold DIRSIZ. intros x Hx. rewrite get8_fbytes, B by lia.
  symmetry. unfold get8. apply list_lookup_total_correct, lookup_replicate. split; [done|lia].
Qed.

Lemma root_entries : entries s i = root_listing files ++ replicate (Z.to_nat (i_size i / 16) - (2 + length files)) free_entry.
Proof.
  destruct (ma_root _ _ _ _ Hm) as (_ & _ & S & _). pose proof (root_length files) as L. pose proof (in_inodes _ Hin) as Hn. unfold ninodes in Hn. fold (d_size (idino im 1)) in S. change (d_size (idino im 1)) with (i_size i) in S.
  set (n := Z.of_nat (length (root_content files))) in *. assert (E : i_size i / 16 = 32 * (n / 512) + 32). { rewrite S. unfold round_up, BSIZE. replace ((n / 512 + 1) * 512) with ((32 * (n / 512) + 32) * 16) by lia. by apply Z.div_mul. }
  pose proof (Z.div_mod n 512). pose proof (Z.mod_pos_bound n 512). assert (Ll : length (root_listing files) = (2 + length files)%nat) by (simpl; by rewrite listing_length).
  apply list_eq_same_length with (Z.to_nat (i_size i / 16)).
  - rewrite length_app, length_replicate, Ll. lia.
  - unfold entries. by rewrite length_fmap, length_seq.
  - intros k x y Hk Hx Hy. unfold entries in Hx. rewrite list_lookup_fmap, lookup_seq_lt in Hx by done. injection Hx as <-. apply lookup_app_Some in Hy as [Hy|[Lk Hy]]; [by apply entry_listed|].
    apply lookup_replicate in Hy as [-> _]. rewrite Ll in Lk. apply entry_free; [done|]. change MAXBYTES with 71680. lia.
Qed.
End entries.


(** Two files, one of them in two pieces. *)
Definition two_files : list (list Z * list (list Z)) := [([95; 99; 97; 116], [[1; 2; 3]; [4]]); ([82], [replicate 512 7; [8]])].

Lemma two_files_ok : input_ok two_files.
Proof.
  assert (B : ∀ l, bool_decide (Forall (λ v, 0 ≤ v < 256) l) = true → Forall byte l) by (intros l; apply bool_decide_eq_true_1).
  split; [|done|by vm_compute]. repeat apply Forall_cons_2; [| |done]; (split_and!; [cbn [fst]; split; [by apply B|rewrite !not_elem_of_cons; split_and?; try done; by apply not_elem_of_nil]| |by vm_compute]);
    repeat apply Forall_cons_2; try done; by apply B.
Qed.


(** [main] rounds the size of the root directory up by a whole block when it fills its
    last block exactly, which it does for 30 files, and for 32 more each time.  The
    directory then ends in a block that does not exist: [bmap] answers -1 for it, and the
    kernel takes that for the number of the sector to read. *)
Theorem mkfs_full_block after_sb files ctx s0 fuel c : length after_sb = 500%nat → Forall byte after_sb → input_ok files →
  (2 + Z.of_nat (length files)) mod 32 = 0 →
  ∃ s, mkfs after_sb files ctx s0 = Ok () ctx s ∧
    let i := inode_of 1 (idino (img s) 1) in let last := i_size i / BSIZE - 1 in
    last * BSIZE < i_size i ∧ ∀ dk, bmap fuel 0 last false c (mounted dk i) = Ok NOBLOCK c (mounted dk i).
Proof.
  intros H1 H2 Hin Hr. destruct (mkfs_run after_sb (conj H1 H2) ctx s0 files Hin) as (s & own & E & Hm). exists s. split; [done|]. intros i last.
  destruct (ma_root _ _ _ _ Hm) as (_ & _ & S & F). pose proof (ma_img _ _ _ _ Hm) as M. pose proof (root_length files) as L. pose proof (in_inodes _ Hin) as Hn. unfold ninodes in Hn. change (d_size (idino (img s) 1)) with (i_size i) in S.
  set (n := Z.of_nat (length (root_content files))) in *. assert (El : last = n / 512) by (unfold last; rewrite S; unfold round_up, BSIZE; rewrite Z.div_mul by done; lia).
  assert (En : n = 512 * (n / 512)). { pose proof (Z.div_mod (2 + Z.of_nat (length files)) 32) as D. rewrite Hr in D. replace n with ((2 + Z.of_nat (length files)) / 32 * 512) by lia. rewrite Z.div_mul by done. lia. }
  assert (Rl : 0 ≤ last < NDIRECT) by (unfold NDIRECT; lia). split; [rewrite S, El; unfold round_up, BSIZE; lia|].
  assert (A0 : d_addrs (idino (img s) 1) !!! Z.to_nat last = 0).
  { destruct (decide (maddr (img s) (idino (img s) 1) last = 0)) as [A|A]; [unfold maddr in A; by rewrite decide_True in A by lia|]. apply (mf_dense _ _ _ _ _ F) in A; [fold n in A; lia|]. unfold NDIRECT in Rl. change MAXFILE with 140. lia. }
  intros dk. unfold bmap, get_inode. unfold mbind at 1, M_bind at 1. rewrite kget_bind. cbn [icache mounted lookup list_lookup deref]. rewrite ret_run. cbn [obind]. rewrite decide_True by lia. cbv zeta. change (i_addrs i) with (d_addrs (idino (img s) 1)). rewrite A0. by rewrite decide_True.
Qed.
