(* ===== verification/Intr.v ===== *)
(** * Interrupt controllers and timers (picirq.c, ioapic.c, lapic.c, timer.c)

    The drivers write to I/O ports, to the two registers of the I/O APIC and to
    the registers of the local APIC.  The state has the drivers' variables, what
    mp.c found out about the machine ([mpst]), the writes to ports and to the
    local APIC in order, and the registers behind the I/O APIC.  What the
    hardware answers is a parameter: the version and identification registers of
    the local APIC and the values its command register shows while it is polled.

    [pic8259] and [ioapic_route] say how the controllers act on what is written:
    the 8259A takes the initialisation words one after the other at its second
    port and everything later as the mask, and an entry of the I/O APIC's table
    holds a vector, a disable bit and a destination. *)
From S2P Require Import Prelude Kernel ProcData SchedState CString Printf Console FsDisk.
Local Open Scope Z_scope.

(** traps.h *)
Definition IRQ_OFFSET : Z := 32.
Definition IRQ_TIMER : Z := 0.
Definition IRQ_KBD : Z := 1.
Definition IRQ_IDE : Z := 14.
Definition IRQ_ERROR : Z := 19.
Definition IRQ_SPURIOUS : Z := 31.

(** The variables of mp.c, and [lapic], the address of the local APIC or null. *)
Record mpst := Mp { ismp : bool; lapic : Z; mp_ncpu : Z; apicids : list Z; bcpu : Z; ioapic_id : Z }.

Record hwst := Hw {
  mpinfo : mpst;
  ports : list (Z * Z);        (* [outb], oldest first *)
  irqmask : Z;
  ioapic_set : bool;           (* the pointer [ioapic] is set *)
  ioapic_reg : Z;
  ioapic_regs : gmap Z Z;
  lapicws : list (Z * Z);      (* [lapic[index] = value], oldest first *)
  cpu_n : Z;                   (* the static [n] of [cpu] *)
  hcons : console
}.

Definition set_mpinfo v s := Hw v (ports s) (irqmask s) (ioapic_set s) (ioapic_reg s) (ioapic_regs s) (lapicws s) (cpu_n s) (hcons s).
Definition set_ports v s := Hw (mpinfo s) v (irqmask s) (ioapic_set s) (ioapic_reg s) (ioapic_regs s) (lapicws s) (cpu_n s) (hcons s).
Definition set_irqmask v s := Hw (mpinfo s) (ports s) v (ioapic_set s) (ioapic_reg s) (ioapic_regs s) (lapicws s) (cpu_n s) (hcons s).
Definition set_ioapic p r v s := Hw (mpinfo s) (ports s) (irqmask s) p r v (lapicws s) (cpu_n s) (hcons s).
Definition set_lapicws v s := Hw (mpinfo s) (ports s) (irqmask s) (ioapic_set s) (ioapic_reg s) (ioapic_regs s) v (cpu_n s) (hcons s).
Definition set_hcons v s := Hw (mpinfo s) (ports s) (irqmask s) (ioapic_set s) (ioapic_reg s) (ioapic_regs s) (lapicws s) (cpu_n s) v.
Definition set_cpu_n v s := Hw (mpinfo s) (ports s) (irqmask s) (ioapic_set s) (ioapic_reg s) (ioapic_regs s) (lapicws s) v (hcons s).

Definition on_hcons {A} : M console A → M hwst A := focus (λ s, Some (hcons s)) set_hcons.

Definition outb (port data : Z) : M hwst unit := kmodify (λ s, set_ports (ports s ++ [(u16 port, u8 data)]) s).

(** ** picirq.c *)
Definition IO_PIC1 : Z := 0x20.
Definition IO_PIC2 : Z := 0xA0.
Definition IRQ_SLAVE : Z := 2.
Definition irqmask0 : Z := Z.land 0xFFFF (Z.lnot (Z.shiftl 1 IRQ_SLAVE)).

Definition pic_setmask (mask : Z) : M hwst unit :=
  kmodify (set_irqmask mask);;
  outb (IO_PIC1 + 1) mask;;
  outb (IO_PIC2 + 1) (Z.shiftr mask 8).

Definition pic_enable (irq : Z) : M hwst unit :=
  m ← kgets irqmask; pic_setmask (u16 (Z.land m (Z.lnot (Z.shiftl 1 irq)))).

Definition pic_init : M hwst unit :=
  outb (IO_PIC1 + 1) 0xFF;;
  outb (IO_PIC2 + 1) 0xFF;;
  outb IO_PIC1 0x11;;
  outb (IO_PIC1 + 1) IRQ_OFFSET;;
  outb (IO_PIC1 + 1) (Z.shiftl 1 IRQ_SLAVE);;
  outb (IO_PIC1 + 1) 0x3;;
  outb IO_PIC2 0x11;;
  outb (IO_PIC2 + 1) (IRQ_OFFSET + 8);;
  outb (IO_PIC2 + 1) IRQ_SLAVE;;
  outb (IO_PIC2 + 1) 0x3;;
  outb IO_PIC1 0x68;;
  outb IO_PIC1 0x0a;;
  outb IO_PIC2 0x68;;
  outb IO_PIC2 0x0a;;
  m ← kgets irqmask;
  if decide (m ≠ 0xFFFF) then pic_setmask m else mret ().

(** ** timer.c *)
Definition IO_TIMER1 : Z := 0x040.
Definition TIMER_FREQ : Z := 1193182.
Definition TIMER_DIV (x : Z) : Z := (TIMER_FREQ + x / 2) / x.
Definition TIMER_MODE : Z := IO_TIMER1 + 3.
Definition TIMER_SEL0 : Z := 0x00.
Definition TIMER_RATEGEN : Z := 0x04.
Definition TIMER_16BIT : Z := 0x30.

Definition timer_init : M hwst unit :=
  outb TIMER_MODE (Z.lor (Z.lor TIMER_SEL0 TIMER_RATEGEN) TIMER_16BIT);;
  outb IO_TIMER1 (TIMER_DIV 100 mod 256);;
  outb IO_TIMER1 (TIMER_DIV 100 / 256);;
  pic_enable IRQ_TIMER.

(** ** ioapic.c *)
Definition REG_ID : Z := 0x00.
Definition REG_VER : Z := 0x01.
Definition REG_TABLE : Z := 0x10.
Definition INT_DISABLED : Z := 0x00010000.

Definition ioapic_read (reg : Z) : M hwst Z :=
  s ← kget;
  if ioapic_set s then kput (set_ioapic true reg (ioapic_regs s) s);; mret (default 0 (ioapic_regs s !! reg))
  else fault.

Definition ioapic_write (reg data : Z) : M hwst unit :=
  s ← kget;
  if ioapic_set s then kput (set_ioapic true reg (<[reg := data]> (ioapic_regs s)) s) else fault.

(** The loop of [ioapic_init], [i] going up to [maxintr]. *)
Fixpoint ioapic_clear (n : nat) (i : Z) : M hwst unit :=
  match n with
  | O => mret ()
  | S n =>
      ioapic_write (REG_TABLE + 2 * i) (Z.lor INT_DISABLED (IRQ_OFFSET + i));;
      ioapic_write (REG_TABLE + 2 * i + 1) 0;;
      ioapic_clear n (i + 1)
  end.

Definition ioapic_init : M hwst unit :=
  s ← kget;
  if ismp (mpinfo s) then
    kmodify (λ s, set_ioapic true (ioapic_reg s) (ioapic_regs s) s);;
    ver ← ioapic_read REG_VER;
    let maxintr := Z.land (Z.shiftr ver 16) 0xFF in
    r ← ioapic_read REG_ID;
    let id := Z.shiftr r 24 in
    (if decide (id ≠ ioapic_id (mpinfo s))
     then on_hcons (cprintf (lit "ioapic_init: id isn't equal to ioapic_id; not a MP" ++ [10]) []) else mret ());;
    ioapic_clear (Z.to_nat (maxintr + 1)) 0
  else mret ().

Definition ioapic_enable (irq cpunum : Z) : M hwst unit :=
  s ← kget;
  if ismp (mpinfo s) then
    ioapic_write (REG_TABLE + 2 * irq) (IRQ_OFFSET + irq);;
    ioapic_write (REG_TABLE + 2 * irq + 1) (u32 (Z.shiftl cpunum 24))
  else mret ().

(** ** lapic.c *)
Definition EOI : Z := 0x00B0 / 4.
Definition SVR : Z := 0x00F0 / 4.
Definition TPR : Z := 0x0080 / 4.
Definition ENABLE : Z := 0x00000100.
Definition ESR : Z := 0x0280 / 4.
Definition ICRLO : Z := 0x0300 / 4.
Definition INIT : Z := 0x00000500.
Definition STARTUP : Z := 0x00000600.
Definition DELIVS : Z := 0x00001000.
Definition ASSERT : Z := 0x00004000.
Definition LEVEL : Z := 0x00008000.
Definition BCAST : Z := 0x00080000.
Definition ICRHI : Z := 0x0310 / 4.
Definition TIMER : Z := 0x0320 / 4.
Definition X1 : Z := 0x0000000B.
Definition PERIODIC : Z := 0x00020000.
Definition PCINT : Z := 0x0340 / 4.
Definition LINT0 : Z := 0x0350 / 4.
Definition LINT1 : Z := 0x0360 / 4.
Definition ERROR : Z := 0x0370 / 4.
Definition MASKED : Z := 0x00010000.
Definition TICR : Z := 0x0380 / 4.
Definition TDCR : Z := 0x03E0 / 4.

(** A null [lapic] is not dereferenced by the callers that test it. *)
Definition lapicw (index value : Z) : M hwst unit :=
  s ← kget;
  if decide (lapic (mpinfo s) = 0) then fault
  else kput (set_lapicws (lapicws s ++ [(index, u32 value)]) s).

Section lapic.
(** [lapic[VER]], [lapic[ID]] of this processor, and [lapic[ICRLO]] the [n]-th time it is read. *)
Context (ver id : Z) (icr : nat → Z).

(** [while(lapic[ICRLO] & DELIVS)], from the [n]-th read on. *)
Fixpoint icr_wait (fuel n : nat) : M hwst unit :=
  match fuel with
  | O => diverge
  | S fuel => if decide (Z.land (icr n) DELIVS ≠ 0) then icr_wait fuel (S n) else mret ()
  end.

Definition lapic_init (fuel : nat) : M hwst unit :=
  s ← kget;
  if decide (lapic (mpinfo s) = 0) then mret () else
    lapicw SVR (Z.lor ENABLE (IRQ_OFFSET + IRQ_SPURIOUS));;
    lapicw TDCR X1;;
    lapicw TIMER (Z.lor PERIODIC (IRQ_OFFSET + IRQ_TIMER));;
    lapicw TICR 10000000;;
    lapicw LINT0 MASKED;;
    lapicw LINT1 MASKED;;
    (if decide (Z.land (Z.shiftr ver 16) 0xFF >= 4) then lapicw PCINT MASKED else mret ());;
    lapicw ERROR (IRQ_OFFSET + IRQ_ERROR);;
    lapicw ESR 0;;
    lapicw ESR 0;;
    lapicw EOI 0;;
    lapicw ICRHI 0;;
    lapicw ICRLO (Z.lor (Z.lor BCAST INIT) LEVEL);;
    icr_wait fuel 0;;
    lapicw TPR 0.

(** [cpu()]; [intr_on] is [FL_IF], [caller] the return address it prints. *)
Definition cpu (intr_on : bool) (caller : Z) : M hwst Z :=
  (if intr_on then
     n ← kgets cpu_n;
     kmodify (set_cpu_n (s32 (n + 1)));;
     (if decide (n = 0)
      then on_hcons (cprintf (lit "cpu called from %x with interrupts enabled" ++ [10]) [Num caller]) else mret ())
   else mret ());;
  s ← kget; if decide (lapic (mpinfo s) ≠ 0) then mret (Z.shiftr id 24) else mret 0.

Definition lapic_eoi : M hwst unit :=
  s ← kget; if decide (lapic (mpinfo s) ≠ 0) then lapicw EOI 0 else mret ().
End lapic.

Definition IO_RTC : Z := 0x70.

(** The body of the loop that sends the startup interrupt. *)
Definition send_startup (apicid addr : Z) : M hwst unit :=
  lapicw ICRHI (Z.shiftl apicid 24);;
  lapicw ICRLO (Z.lor STARTUP (Z.shiftr addr 12)).

(** [lapic_startap]; the result is what it stores in the warm reset vector, the
    words at [0x467].  The delays are left out. *)
Definition lapic_startap (apicid addr : Z) : M hwst (list (Z * Z)) :=
  outb IO_RTC 0xF;;
  outb (IO_RTC + 1) 0x0A;;
  let wrv := Z.lor (Z.shiftl 0x40 4) 0x67 in
  lapicw ICRHI (Z.shiftl apicid 24);;
  lapicw ICRLO (Z.lor (Z.lor INIT LEVEL) ASSERT);;
  lapicw ICRLO (Z.lor INIT LEVEL);;
  send_startup apicid addr;;
  send_startup apicid addr;;
  mret [(wrv, 0); (wrv + 2, u16 (Z.shiftr addr 4))].

(** ** What the controllers do with it *)
Inductive icw := ICW2 | ICW3 | ICW4.

(** An 8259A: the initialisation words it still expects, its vector base, its
    cascade word and its mask. *)
Record pic8259 := Pic { awaits : list icw; vbase : Z; cascade : Z; imr : Z }.

Definition pic_command (v : Z) (p : pic8259) : pic8259 :=
  if Z.testbit v 4 then
    Pic (ICW2 :: (if Z.testbit v 1 then [] else [ICW3]) ++ (if Z.testbit v 0 then [ICW4] else []))
        (vbase p) (cascade p) 0
  else p.
Definition pic_data (v : Z) (p : pic8259) : pic8259 :=
  match awaits p with
  | [] => Pic [] (vbase p) (cascade p) v
  | ICW2 :: r => Pic r (Z.land v 0xF8) (cascade p) (imr p)
  | ICW3 :: r => Pic r (vbase p) v (imr p)
  | ICW4 :: r => Pic r (vbase p) (cascade p) (imr p)
  end.

Definition pics_write (ps : pic8259 * pic8259) (w : Z * Z) : pic8259 * pic8259 :=
  let '(master, slave) := ps in let '(port, v) := w in
  if decide (port = 0x20) then (pic_command v master, slave)
  else if decide (port = 0x21) then (pic_data v master, slave)
  else if decide (port = 0xA0) then (master, pic_command v slave)
  else if decide (port = 0xA1) then (master, pic_data v slave)
  else ps.

(** The vector an interrupt line raises on the processor, if it does. *)
Definition pic_route (ps : pic8259 * pic8259) (irq : Z) : option Z :=
  let '(master, slave) := ps in
  match awaits master, awaits slave with
  | [], [] =>
      if decide (irq < 8) then
        if Z.testbit (imr master) irq || Z.testbit (cascade master) irq then None else Some (vbase master + irq)
      else
        if Z.testbit (cascade master) (cascade slave) && negb (Z.testbit (imr master) (cascade slave)) &&
           negb (Z.testbit (imr slave) (irq - 8))
        then Some (vbase slave + (irq - 8)) else None
  | _, _ => None
  end.

(** An entry of the I/O APIC's table: the vector and the processor it goes to. *)
Definition ioapic_route (regs : gmap Z Z) (irq : Z) : option (Z * Z) :=
  lo ← regs !! (0x10 + 2 * irq); hi ← regs !! (0x10 + 2 * irq + 1);
  if Z.testbit lo 16 then None else Some (Z.land lo 0xFF, Z.shiftr hi 24).

Fixpoint do_all {A} (f : A → M hwst unit) (l : list A) : M hwst unit :=
  match l with [] => mret () | x :: l => f x;; do_all f l end.

(** ** The 8259A *)
Definition mask_without (m : Z) (irqs : list Z) : Z :=
  foldl (λ m irq, u16 (Z.land m (Z.lnot (Z.shiftl 1 irq)))) m irqs.

(** The two mask registers for a mask. *)
Definition mask_writes (m : Z) : list (Z * Z) := [(0x21, u8 m); (0xA1, u8 (Z.shiftr m 8))].

Definition pics_ready (m : Z) : pic8259 * pic8259 :=
  (Pic [] 32 4 (u8 m), Pic [] 40 2 (u8 (Z.shiftr m 8))).

Lemma pic_setmask_run m c s :
  pic_setmask m c s = Ok () c (set_ports (ports s ++ mask_writes m) (set_irqmask m s)).
Proof.
  unfold pic_setmask, outb. rewrite !kmodify_bind, kmodify_run. unfold mask_writes, set_ports. simpl.
  by rewrite <- app_assoc.
Qed.

Lemma pic_enable_all c irqs : ∀ s, ∃ ws, do_all pic_enable irqs c s =
    Ok () c (set_ports (ports s ++ ws) (set_irqmask (mask_without (irqmask s) irqs) s)) ∧
  foldl pics_write (pics_ready (irqmask s)) ws = pics_ready (mask_without (irqmask s) irqs).
Proof.
  induction irqs as [|irq irqs IH]; intros s.
  { exists []. rewrite app_nil_r. by destruct s. }
  cbn [do_all mask_without foldl]. set (m := u16 _).
  rewrite (bind_Ok (pic_enable irq) _ _ _ _ _ _ (pic_setmask_run m c s)).
  destruct (IH (set_ports (ports s ++ mask_writes m) (set_irqmask m s))) as (ws & E & H).
  exists (mask_writes m ++ ws). rewrite E. cbn [ports irqmask set_ports set_irqmask mpinfo ioapic_set ioapic_reg
    ioapic_regs lapicws cpu_n hcons]. rewrite app_assoc. split; [done|]. rewrite foldl_app. exact H.
Qed.

(** [m] writes [ws] to the ports and changes nothing else, with the mask [k]. *)
Definition emits (k : Z) (c : kctx) (m : M hwst unit) (ws : list (Z * Z)) : Prop :=
  ∀ s, irqmask s = k → m c s = Ok () c (set_ports (ports s ++ ws) s).

Lemma emits_outb k c port v m ws : emits k c m ws → emits k c (outb port v;; m) ((u16 port, u8 v) :: ws).
Proof.
  intros H s Hk. unfold outb. rewrite kmodify_bind, H by done. unfold set_ports. simpl. by rewrite <- app_assoc.
Qed.

Lemma emits_setmask k c : k ≠ 0xFFFF →
  emits k c (m ← kgets irqmask; if decide (m ≠ 0xFFFF) then pic_setmask m else mret ()) (mask_writes k).
Proof. intros Hk s Hs. rewrite kgets_bind, Hs, decide_True, pic_setmask_run by done. by destruct s; simpl in *; subst. Qed.

Lemma pic_init_run c s : irqmask s ≠ 0xFFFF → ∃ ws, pic_init c s = Ok () c (set_ports (ports s ++ ws) s) ∧
  ∀ hw, foldl pics_write hw ws = pics_ready (irqmask s).
Proof.
  intros Hm. eexists. split.
  - assert (E : emits (irqmask s) c pic_init ?[ws]) by (repeat apply emits_outb; by apply emits_setmask).
    by apply E.
  - intros [ma sl]. reflexivity.
Qed.

Lemma mask_bits irqs : ∀ m j, 0 ≤ j < 16 → Forall (λ i, 0 ≤ i < 16) irqs →
  Z.testbit (mask_without m irqs) j = Z.testbit m j && negb (bool_decide (j ∈ irqs)).
Proof.
  induction irqs as [|i irqs IH]; intros m j Hj F; cbn [mask_without foldl].
  { rewrite bool_decide_false by apply not_elem_of_nil. by rewrite andb_true_r. }
  apply Forall_cons in F as [Hi F]. fold (mask_without (u16 (Z.land m (Z.lnot (Z.shiftl 1 i)))) irqs).
  rewrite IH by done. unfold u16. rewrite Z.mod_pow2_bits_low by lia.
  rewrite Z.land_spec, Z.lnot_spec, testbit_one by lia. rewrite <- andb_assoc, <- negb_orb. do 2 f_equal.
  rewrite <- bool_decide_or. apply bool_decide_ext. by rewrite elem_of_cons.
Qed.

Lemma route_ready m irq : 0 ≤ irq < 16 → irq ≠ 2 → Z.testbit m 2 = false →
  pic_route (pics_ready m) irq = if Z.testbit m irq then None else Some (32 + irq).
Proof.
  intros Hi H2 M2. unfold pic_route, pics_ready. cbn [awaits imr cascade vbase].
  destruct (decide (irq < 8)).
  - rewrite testbit_u8 by lia. assert (E : Z.testbit 4 irq = false).
    { change 4 with (Z.shiftl 1 2). rewrite testbit_one by lia. by apply bool_decide_false. }
    rewrite E, orb_false_r. done.
  - rewrite !testbit_u8 by lia. rewrite M2. rewrite Z.shiftr_spec by lia. replace (irq - 8 + 8) with irq by lia.
    change (Z.testbit 4 2) with true. simpl. destruct (Z.testbit m irq); simpl; [done|f_equal; lia].
Qed.

(** The legacy interrupt controllers, whatever state they are in at boot, end up
    delivering exactly the lines that drivers asked for with [pic_enable], before
    or after [pic_init], each at vector [IRQ_OFFSET] plus its number; line 2, by
    which the slave reaches the master, is kept open. *)
Theorem pic_routes before after hw irq c s :
  irqmask s = irqmask0 → ports s = [] → Forall (λ i, 0 ≤ i < 16) (before ++ after) → 0 ≤ irq < 16 → irq ≠ IRQ_SLAVE →
  ∃ s', (do_all pic_enable before;; pic_init;; do_all pic_enable after) c s = Ok () c s' ∧
    pic_route (foldl pics_write hw (ports s')) irq =
      if decide (irq ∈ before ++ after) then Some (IRQ_OFFSET + irq) else None.
Proof.
  intros Hm Hp F Hi H2. apply Forall_app in F as [Fb Fa].
  assert (B2 : ∀ l, Forall (λ i, 0 ≤ i < 16) l → Z.testbit (mask_without irqmask0 l) 2 = false).
  { intros l Fl. by rewrite mask_bits. }
  destruct (pic_enable_all c before s) as (w1 & E1 & _). rewrite (bind_Ok _ _ _ _ _ _ _ E1).
  rewrite Hm, Hp. cbn [app]. set (s1 := set_ports _ _).
  destruct (pic_init_run c s1) as (w2 & E2 & I2).
  { intros X. specialize (B2 before Fb). cbn in X. rewrite X in B2. done. }
  rewrite (bind_Ok _ _ _ _ _ _ _ E2).
  destruct (pic_enable_all c after (set_ports (ports s1 ++ w2) s1)) as (w3 & E3 & I3). rewrite E3.
  eexists. split; [reflexivity|]. cbn [ports set_ports irqmask set_irqmask s1] in I3 |- *.
  rewrite !foldl_app, I2. cbn [irqmask set_ports set_irqmask s1]. rewrite I3.
  unfold mask_without. rewrite <- foldl_app. fold (mask_without irqmask0 (before ++ after)).
  assert (Fx : Forall (λ i, 0 ≤ i < 16) (before ++ after)) by (by apply Forall_app).
  rewrite route_ready by (done || by apply B2). rewrite mask_bits by done.
  assert (E : Z.testbit irqmask0 irq = true).
  { change irqmask0 with (Z.land 0xFFFF (Z.lnot (Z.shiftl 1 2))). rewrite Z.land_spec, Z.lnot_spec, testbit_one by lia.
    rewrite bool_decide_false by done. change 0xFFFF with (Z.ones 16). by rewrite Z.ones_spec_low by lia. }
  rewrite E. case_decide; [by rewrite bool_decide_true|by rewrite bool_decide_false].
Qed.

(** ** The I/O APIC *)

(** Only the I/O APIC's registers and, for messages, the console differ. *)
Definition ioapic_only (s s' : hwst) (regs : gmap Z Z) : Prop :=
  ioapic_set s' = true ∧ ioapic_regs s' = regs ∧ mpinfo s' = mpinfo s ∧ ports s' = ports s ∧
  irqmask s' = irqmask s ∧ lapicws s' = lapicws s.

(** The table with entries [i], ..., [i + n - 1] disabled. *)
Fixpoint cleared (n : nat) (i : Z) (regs : gmap Z Z) : gmap Z Z :=
  match n with
  | O => regs
  | S n => cleared n (i + 1)
      (<[REG_TABLE + 2 * i + 1 := 0]> (<[REG_TABLE + 2 * i := Z.lor INT_DISABLED (IRQ_OFFSET + i)]> regs))
  end.

Definition enabled (regs : gmap Z Z) (e : Z * Z) : gmap Z Z :=
  <[REG_TABLE + 2 * e.1 + 1 := u32 (Z.shiftl e.2 24)]> (<[REG_TABLE + 2 * e.1 := IRQ_OFFSET + e.1]> regs).

Lemma ioapic_write_run reg v c s : ioapic_set s = true →
  ioapic_write reg v c s = Ok () c (set_ioapic true reg (<[reg := v]> (ioapic_regs s)) s).
Proof. intros H. unfold ioapic_write. by rewrite kget_bind, H. Qed.

Lemma ioapic_only_refl s : ioapic_set s = true → ioapic_only s s (ioapic_regs s).
Proof. done. Qed.

Lemma ioapic_clear_run c n : ∀ i s, ioapic_set s = true → ∃ s', ioapic_clear n i c s = Ok () c s' ∧
  ioapic_only s s' (cleared n i (ioapic_regs s)).
Proof.
  induction n as [|n IH]; intros i s H; cbn [ioapic_clear cleared]; [by exists s|].
  rewrite (bind_Ok _ _ _ _ _ _ _ (ioapic_write_run _ _ c s H)).
  erewrite bind_Ok; [|by apply ioapic_write_run]. set (s1 := set_ioapic _ _ _ _).
  destruct (IH (i + 1) s1) as (s' & E & O); [done|]. exists s'. split; [exact E|]. exact O.
Qed.

Lemma ioapic_enable_run e c s : ismp (mpinfo s) = true → ioapic_set s = true →
  ioapic_enable e.1 e.2 c s = Ok () c (set_ioapic true (REG_TABLE + 2 * e.1 + 1) (enabled (ioapic_regs s) e) s).
Proof.
  intros Hm H. unfold ioapic_enable. rewrite kget_bind, Hm, (bind_Ok _ _ _ _ _ _ _ (ioapic_write_run _ _ c s H)).
  by rewrite ioapic_write_run.
Qed.

Lemma ioapic_enable_all c es : ∀ s, ismp (mpinfo s) = true → ioapic_set s = true →
  ∃ s', do_all (λ e, ioapic_enable e.1 e.2) es c s = Ok () c s' ∧
    ioapic_only s s' (foldl enabled (ioapic_regs s) es).
Proof.
  induction es as [|[irq n] es IH]; intros s Hm H; cbn [do_all foldl fst snd]; [by exists s|].
  rewrite (bind_Ok _ _ _ _ _ _ _ (ioapic_enable_run (irq, n) c s Hm H)).
  set (s1 := set_ioapic _ _ _ _). destruct (IH s1 Hm eq_refl) as (s' & E & O). exists s'. split; [exact E|exact O].
Qed.

Lemma ioapic_init_run c s : ismp (mpinfo s) = true → alive (hcons s) → LkConsole ∉ held c →
  ∃ s', ioapic_init c s = Ok () c s' ∧
    ioapic_only s s' (cleared (Z.to_nat (Z.land (Z.shiftr (default 0 (ioapic_regs s !! REG_VER)) 16) 0xFF + 1)) 0
                              (ioapic_regs s)).
Proof.
  intros Hm [A1 A2] Hl. unfold ioapic_init. rewrite kget_bind, Hm, kmodify_bind.
  erewrite bind_Ok; [|reflexivity]. erewrite bind_Ok; [|reflexivity].
  cbn [ioapic_regs set_ioapic]. set (id := Z.shiftr _ 24). set (s1 := set_ioapic _ REG_ID _ _).
  assert (P : ∃ cs, (if decide (id ≠ ioapic_id (mpinfo s))
     then on_hcons (cprintf (lit "ioapic_init: id isn't equal to ioapic_id; not a MP" ++ [10]) []) else mret ()) c s1 =
     Ok () c (set_hcons cs s1)).
  { destruct (decide _).
    - edestruct (cprintf_run (lit "ioapic_init: id isn't equal to ioapic_id; not a MP" ++ [10]) [] c (hcons s1))
        as (cs & E & _); [done|done|done| |done|by vm_compute|].
      { by apply (bool_decide_unpack _); vm_compute. }
      exists cs. unfold on_hcons. by eapply focus_Ok.
    - exists (hcons s1). by destruct s1. }
  destruct P as (cs & P). rewrite (bind_Ok _ _ _ _ _ _ _ P).
  destruct (ioapic_clear_run c (Z.to_nat (Z.land (Z.shiftr (default 0 (ioapic_regs s !! REG_VER)) 16) 0xFF + 1)) 0
    (set_hcons cs s1)) as (s' & E & O); [done|]. exists s'. split; [exact E|exact O].
Qed.

(** Writing the two words of an entry. *)
Lemma route_written regs irq lo hi :
  ioapic_route (<[0x10 + 2 * irq + 1 := hi]> (<[0x10 + 2 * irq := lo]> regs)) irq =
    if Z.testbit lo 16 then None else Some (Z.land lo 0xFF, Z.shiftr hi 24).
Proof.
  unfold ioapic_route. rewrite (lookup_insert_ne _ (0x10 + 2 * irq + 1) (0x10 + 2 * irq)) by lia.
  by rewrite !lookup_insert_eq.
Qed.

(** What an entry routes once it was cleared. *)
Lemma cleared_low n : ∀ i regs k, k < REG_TABLE + 2 * i → cleared n i regs !! k = regs !! k.
Proof.
  induction n as [|n IH]; intros i regs k Hk; [done|]. cbn [cleared]. rewrite IH by lia.
  by rewrite !lookup_insert_ne by lia.
Qed.

Lemma cleared_route n : ∀ i regs irq, i ≤ irq < i + Z.of_nat n → 0 ≤ i → irq < 256 →
  ioapic_route (cleared n i regs) irq = None.
Proof.
  induction n as [|n IH]; intros i regs irq Hi H0 H1; [lia|]. cbn [cleared].
  destruct (decide (irq = i)) as [->|]; [|apply IH; lia].
  unfold ioapic_route. rewrite !cleared_low by (unfold REG_TABLE; lia).
  match goal with |- (_ ← ?r !! _; _) = _ => change (ioapic_route r i = None) end.
  unfold REG_TABLE. rewrite route_written, Z.lor_spec. unfold INT_DISABLED. change 65536 with (Z.shiftl 1 16). rewrite testbit_one by lia.
  by rewrite bool_decide_true.
Qed.

(** The last request for a line, if there is one. *)
Definition last_for (irq : Z) (es : list (Z * Z)) : option Z :=
  foldl (λ r e, if decide (e.1 = irq) then Some e.2 else r) None es.

Lemma enabled_route es irq : 0 ≤ irq < 224 → Forall (λ e, 0 ≤ e.2 < 256) es → ∀ regs r,
  ioapic_route regs irq = (λ n, (IRQ_OFFSET + irq, n)) <$> r →
  ioapic_route (foldl enabled regs es) irq =
    (λ n, (IRQ_OFFSET + irq, n)) <$> foldl (λ r e, if decide (e.1 = irq) then Some e.2 else r) r es.
Proof.
  intros Hi. induction es as [|[j n] es IH]; intros F regs r E; [done|]. apply Forall_cons in F as [Hn F].
  cbn [foldl fst snd]. apply IH; [done|]. cbn [fst snd] in *. unfold enabled, REG_TABLE, IRQ_OFFSET in *.
  cbn [fst snd]. destruct (decide (j = irq)) as [->|Hj].
  - rewrite route_written. assert (B : Z.testbit (32 + irq) 16 = false) by (apply Z.bits_above_log2; [lia|]; apply Z.log2_lt_pow2; lia).
    rewrite B. change ((λ n, (32 + irq, n)) <$> Some n) with (Some (32 + irq, n)). do 2 f_equal.
    + change 0xFF with (Z.ones 8). rewrite Z.land_ones by lia. apply Z.mod_small. lia.
    + unfold u32. rewrite Z.shiftl_mul_pow2, Z.mod_small, Z.shiftr_div_pow2, Z.div_mul by lia. done.
  - unfold ioapic_route in *. by rewrite !lookup_insert_ne by lia.
Qed.

(** On a multiprocessor the I/O APIC, whatever its table held at boot, delivers
    after [ioapic_init] exactly the lines enabled by [ioapic_enable], each at vector
    [IRQ_OFFSET] plus its number and to the processor of the last request. *)
Theorem ioapic_routes es irq c s :
  ismp (mpinfo s) = true → alive (hcons s) → LkConsole ∉ held c →
  0 ≤ irq ≤ Z.land (Z.shiftr (default 0 (ioapic_regs s !! REG_VER)) 16) 0xFF → irq < 224 →
  Forall (λ e, 0 ≤ e.2 < 256) es →
  ∃ s', (ioapic_init;; do_all (λ e, ioapic_enable e.1 e.2) es) c s = Ok () c s' ∧
    ioapic_route (ioapic_regs s') irq = (λ n, (IRQ_OFFSET + irq, n)) <$> last_for irq es.
Proof.
  intros Hm A Hl Hi H2 F. destruct (ioapic_init_run c s Hm A Hl) as (s1 & E1 & S1 & R1 & M1 & _).
  rewrite (bind_Ok _ _ _ _ _ _ _ E1). rewrite <- M1 in Hm.
  destruct (ioapic_enable_all c es s1 Hm S1) as (s2 & E2 & _ & R2 & _). exists s2. split; [exact E2|].
  rewrite R2, R1. apply enabled_route; [lia|done|]. apply cleared_route; lia.
Qed.

(** ** The local APIC *)

(** [m] writes [ws] to the local APIC and [ps] to the ports, and changes nothing else. *)
Definition sends {A} (c : kctx) (m : M hwst A) (a : A) (ps ws : list (Z * Z)) : Prop :=
  ∀ s, lapic (mpinfo s) ≠ 0 → m c s = Ok a c (set_ports (ports s ++ ps) (set_lapicws (lapicws s ++ ws) s)).

Lemma sends_ret {A} c (a : A) : sends c (mret a) a [] [].
Proof. intros s _. rewrite !app_nil_r. by destruct s. Qed.

Lemma sends_bind {A B} c (m : M hwst A) (f : A → M hwst B) a b ps ps' ws ws' :
  sends c m a ps ws → sends c (f a) b ps' ws' → sends c (m ≫= f) b (ps ++ ps') (ws ++ ws').
Proof.
  intros H1 H2 s Hs. rewrite (bind_Ok _ _ _ _ _ _ _ (H1 s Hs)), H2 by done.
  unfold set_ports, set_lapicws. simpl. by rewrite !app_assoc.
Qed.

Lemma sends_lapicw c i v : sends c (lapicw i v) () [] [(i, u32 v)].
Proof. intros s Hs. unfold lapicw. rewrite kget_bind, decide_False by done. rewrite app_nil_r. by destruct s. Qed.

Lemma sends_outb c p v : sends c (outb p v) () [(u16 p, u8 v)] [].
Proof. intros s Hs. unfold outb. rewrite kmodify_run, app_nil_r. by destruct s. Qed.

Create HintDb lapic.
#[export] Hint Resolve sends_ret sends_lapicw sends_outb : lapic.

Lemma icr_wait_run icr c k : (Z.land (icr k) DELIVS = 0) → ∀ fuel n, (n ≤ k < n + fuel)%nat →
  sends c (icr_wait icr fuel n) () [] [].
Proof.
  intros Hk. induction fuel as [|fuel IH]; intros n Hn; [lia|]. cbn [icr_wait].
  destruct (decide (Z.land (icr n) DELIVS ≠ 0)) as [D|D]; [|apply sends_ret].
  apply IH. destruct (decide (n = k)) as [->|]; [done|lia].
Qed.

(** The last value written to a register of the local APIC. *)
Definition last_write (ws : list (Z * Z)) (r : Z) : option Z :=
  foldl (λ o w, if decide (w.1 = r) then Some w.2 else o) None ws.

(** The vector at which the source with local vector table entry [r] interrupts the
    processor: the unit is enabled and the entry is not masked. *)
Definition lvt_vector (ws : list (Z * Z)) (r : Z) : option Z :=
  svr ← last_write ws SVR;
  v ← last_write ws r;
  if Z.testbit svr 8 && negb (Z.testbit v 16) then Some (Z.land v 0xFF) else None.

(** What [lapic_init] writes. *)
Definition lapic_writes (ver : Z) : list (Z * Z) :=
  [(SVR, 319); (TDCR, 11); (TIMER, 131104); (TICR, 10000000); (LINT0, MASKED); (LINT1, MASKED)] ++
  (if decide (Z.land (Z.shiftr ver 16) 0xFF >= 4) then [(PCINT, MASKED)] else []) ++
  [(ERROR, 51); (ESR, 0); (ESR, 0); (EOI, 0); (ICRHI, 0); (ICRLO, 558336); (TPR, 0)].

(** The interrupts of the local APIC after it. *)
Lemma lapic_writes_lvt ws ver :
  lvt_vector (ws ++ lapic_writes ver) <$> [TIMER; LINT0; LINT1; ERROR] =
    [Some (IRQ_OFFSET + IRQ_TIMER); None; None; Some (IRQ_OFFSET + IRQ_ERROR)] ∧
  last_write (ws ++ lapic_writes ver) <$> [TIMER; TICR; TDCR; TPR] =
    [Some (Z.lor PERIODIC (IRQ_OFFSET + IRQ_TIMER)); Some 10000000; Some X1; Some 0].
Proof.
  assert (G : ∀ o r, r ∈ [SVR; TIMER; LINT0; LINT1; ERROR; TICR; TDCR; TPR] →
    foldl (λ o w, if decide (w.1 = r) then Some w.2 else o) o (lapic_writes ver) = last_write (lapic_writes ver) r).
  { unfold last_write, lapic_writes. intros o r Hr. case_decide;
      repeat (apply elem_of_cons in Hr as [->|Hr]; [vm_compute; reflexivity|]); by apply elem_of_nil in Hr. }
  assert (L : ∀ r, r ∈ [SVR; TIMER; LINT0; LINT1; ERROR; TICR; TDCR; TPR] →
    last_write (ws ++ lapic_writes ver) r = last_write (lapic_writes ver) r).
  { intros r Hr. unfold last_write at 1. rewrite foldl_app. by apply G. }
  unfold lvt_vector. cbn [fmap list_fmap]. rewrite !L by inl.
  unfold lapic_writes. case_decide; vm_compute; split; reflexivity.
Qed.

Lemma lapic_init_sends ver icr k fuel c : Z.land (icr k) DELIVS = 0 → (k < fuel)%nat →
  sends c (lapic_init ver icr fuel) () [] (lapic_writes ver).
Proof.
  intros Hk Hf s0 H0. unfold lapic_init. rewrite kget_bind, decide_False by done. revert s0 H0.
  do 6 (apply (sends_bind c _ _ () () [] [] [_]); [apply sends_lapicw|]).
  apply (sends_bind c _ _ () () [] []); [by case_decide; auto with lapic|].
  do 6 (apply (sends_bind c _ _ () () [] [] [_]); [apply sends_lapicw|]).
  apply (sends_bind c _ _ () () [] [] []); [|apply sends_lapicw]. eapply icr_wait_run; [exact Hk|lia].
Qed.

(** [lapic_init] returns as soon as the local APIC has delivered the INIT message,
    and leaves it enabled, with a periodic timer at vector 32, errors at vector 51,
    spurious interrupts at vector 63, the two legacy lines masked, nothing held
    back by priority, and the interrupt in progress acknowledged. *)
Theorem lapic_init_sets ver icr k fuel c s :
  lapic (mpinfo s) ≠ 0 → lapicws s = [] → Z.land (icr k) DELIVS = 0 → (k < fuel)%nat →
  ∃ s', lapic_init ver icr fuel c s = Ok () c s' ∧
    mpinfo s' = mpinfo s ∧ ports s' = ports s ∧ irqmask s' = irqmask s ∧ ioapic_regs s' = ioapic_regs s ∧
    last_write (lapicws s') <$> [SVR; TIMER; TICR; TDCR; ERROR; LINT0; LINT1; TPR; EOI] =
      [Some (0x100 + 63); Some (0x20000 + 32); Some 10000000; Some 11; Some 51; Some MASKED; Some MASKED; Some 0; Some 0] ∧
    (4 ≤ Z.land (Z.shiftr ver 16) 0xFF → last_write (lapicws s') PCINT = Some MASKED).
Proof.
  intros Hl Hw Hk Hf. rewrite (lapic_init_sends ver icr k fuel c Hk Hf s Hl).
  eexists. split; [reflexivity|]. rewrite Hw, app_nil_r. unfold lapic_writes. cbn [app].
  do 4 (split; [done|]). case_decide; (split; [vm_compute; reflexivity|]); intros Hv; [vm_compute; reflexivity|lia].
Qed.

(** What [lapic_startap] writes for code at the start of a page. *)
Definition startap_ipis (apicid page : Z) : list (Z * Z) :=
  let v := apicid * 2 ^ 24 in let w := 0x600 + page in
  [(ICRHI, v); (ICRLO, 0xC500); (ICRLO, 0x8500); (ICRHI, v); (ICRLO, w); (ICRHI, v); (ICRLO, w)].
Lemma startap_sends apicid page c : 0 ≤ apicid < 256 → 0 ≤ page < 256 →
  sends c (lapic_startap apicid (page * 4096)) [(0x467, 0); (0x469, page * 256)]
    [(0x70, 0xF); (0x71, 0x0A)] (startap_ipis apicid page).
Proof.
  intros Ha Hp.
  assert (P : Z.lor STARTUP (Z.shiftr (page * 4096) 12) = 0x600 + page).
  { rewrite Z.shiftr_div_pow2, Z.div_mul by lia. unfold STARTUP. change 0x600 with (6 * 2 ^ 8).
    rewrite <- (Z.mod_small page (2 ^ 8)) at 1 by lia. rewrite <- Z.land_ones by lia.
    apply (below_check (λ p, bool_decide (Z.lor (6 * 2 ^ 8) (Z.land p (Z.ones 8)) = 6 * 2 ^ 8 + p)) 256) in Hp;
      [|vm_compute; reflexivity]. by apply bool_decide_eq_true in Hp. }
  assert (U : u32 (Z.shiftl apicid 24) = apicid * 2 ^ 24).
  { unfold u32. rewrite Z.shiftl_mul_pow2 by lia. apply Z.mod_small. lia. }
  assert (W : u16 (Z.shiftr (page * 4096) 4) = page * 256).
  { unfold u16. rewrite Z.shiftr_div_pow2 by lia. change (2 ^ 4) with 16.
    replace (page * 4096) with (page * 256 * 16) by lia. rewrite Z.div_mul by lia. apply Z.mod_small. lia. }
  assert (S : sends c (lapic_startap apicid (page * 4096)) [(0x467, 0); (0x469, page * 256)]
    ([(0x70, 0xF)] ++ [(0x71, 0x0A)] ++ [])
    (let v := u32 (Z.shiftl apicid 24) in let w := u32 (0x600 + page) in
     [(ICRHI, v); (ICRLO, 0xC500); (ICRLO, 0x8500); (ICRHI, v); (ICRLO, w); (ICRHI, v); (ICRLO, w)])).
  { unfold lapic_startap, send_startup. rewrite P, W. cbv zeta.
    do 2 (apply (sends_bind c _ _ () _ [_] _ []); [apply sends_outb|]).
    do 3 (apply (sends_bind c _ _ () _ [] [] [_]); [apply sends_lapicw|]).
    do 2 (apply (sends_bind c _ _ () _ [] [] [_; _]);
      [apply (sends_bind c _ _ () () [] [] [_]); apply sends_lapicw|]).
    apply sends_ret. }
  assert (Q : u32 (0x600 + page) = 0x600 + page) by (apply Z.mod_small; lia).
  cbv zeta in S. rewrite U, Q in S. exact S.
Qed.

(** Starting another processor: the warm reset vector at [0x467] and the startup
    message both name the address of the bootstrap code, which must be a page of
    the first megabyte, and only the processor [apicid] is addressed. *)
Theorem startap_address apicid page c s :
  lapic (mpinfo s) ≠ 0 → 0 ≤ apicid < 256 → 0 ≤ page < 256 →
  ∃ s' seg ipis, lapic_startap apicid (page * 4096) c s = Ok [(0x467, 0); (0x469, seg)] c s' ∧
    seg * 16 = page * 4096 ∧
    ports s' = ports s ++ [(0x70, 0xF); (0x71, 0x0A)] ∧
    lapicws s' = lapicws s ++ ipis ∧
    (∀ v, (ICRHI, v) ∈ ipis → v = apicid * 2 ^ 24) ∧
    filter (λ w, w.1 = ICRLO) ipis =
      [(ICRLO, 0xC500); (ICRLO, 0x8500); (ICRLO, 0x600 + page); (ICRLO, 0x600 + page)].
Proof.
  intros Hl Ha Hp.
  rewrite (startap_sends apicid page c Ha Hp s Hl). eexists _, (page * 256), (startap_ipis apicid page).
  split; [reflexivity|]. split; [lia|]. split; [done|]. split; [reflexivity|].
  split; [|done]. intros x Hx. repeat (apply elem_of_cons in Hx as [Hx|Hx]; [by inversion Hx|]). by apply elem_of_nil in Hx.
Qed.
