(* ===== verification/Kbd.v ===== *)
(** * The keyboard (kbd.c, kbd.h)

    [kbd_getc] takes one byte from the keyboard controller and turns scan codes
    into characters with the tables of kbd.h, keeping the modifier keys in its
    static variable [shift].  [kbd_intr] feeds the console with what it returns.

    The theorem is against a description of a US keyboard that does not use the
    tables: which key, with which modifier, a person presses for a character. *)
From S2P Require Import Prelude Kernel ProcData SchedState Ring CString Printf Console.
Local Open Scope Z_scope.

(** ** kbd.h *)
Definition NO : Z := 0.
Definition SHIFT : Z := Z.shiftl 1 0.
Definition CTL : Z := Z.shiftl 1 1.
Definition ALT : Z := Z.shiftl 1 2.
Definition CAPSLOCK : Z := Z.shiftl 1 3.
Definition NUMLOCK : Z := Z.shiftl 1 4.
Definition SCROLLLOCK : Z := Z.shiftl 1 5.
Definition E0ESC : Z := Z.shiftl 1 6.

Definition KEY_HOME : Z := 0xE0.
Definition KEY_END : Z := 0xE1.
Definition KEY_UP : Z := 0xE2.
Definition KEY_DN : Z := 0xE3.
Definition KEY_LF : Z := 0xE4.
Definition KEY_RT : Z := 0xE5.
Definition KEY_PGUP : Z := 0xE6.
Definition KEY_PGDN : Z := 0xE7.
Definition KEY_INS : Z := 0xE8.
Definition KEY_DEL : Z := 0xE9.

(** An array of 256 bytes: the first ones, then those given by index. *)
Definition table (first : list Z) (designated : list (nat * Z)) : list Z :=
  foldl (λ t e, <[e.1 := e.2]> t) (first ++ replicate (256 - length first) 0) designated.

Definition shiftcode : list Z :=
  table [] [(0x1D, CTL); (0x2A, SHIFT); (0x36, SHIFT); (0x38, ALT); (0x9D, CTL); (0xB8, ALT)]%nat.

Definition togglecode : list Z :=
  table [] [(0x3A, CAPSLOCK); (0x45, NUMLOCK); (0x46, SCROLLLOCK)]%nat.

(** The keys after an escape code, [0x9C] and [0xB5] apart. *)
Definition arrow_keys : list (nat * Z) :=
  [(0xC8, KEY_UP); (0xD0, KEY_DN); (0xC9, KEY_PGUP); (0xD1, KEY_PGDN); (0xCB, KEY_LF); (0xCD, KEY_RT);
   (0x97, KEY_HOME); (0xCF, KEY_END); (0xD2, KEY_INS); (0xD3, KEY_DEL)]%nat.

Definition normalmap : list Z := table
  ([NO; 0x1B] ++ lit "123456" ++
   lit "7890-=" ++ [8; 9] ++
   lit "qwertyui" ++
   lit "op[]" ++ [10; NO] ++ lit "as" ++
   lit "dfghjkl;" ++
   lit "'`" ++ [NO] ++ lit "\zxcv" ++
   lit "bnm,./" ++ [NO] ++ lit "*" ++
   [NO] ++ lit " " ++ [NO; NO; NO; NO; NO; NO] ++
   [NO; NO; NO; NO; NO; NO; NO] ++ lit "7" ++
   lit "89-456+1" ++
   lit "230." ++ [NO; NO; NO; NO])
  ((0x9C%nat, 10) :: (0xB5%nat, 47) :: arrow_keys).

Definition shiftmap : list Z := table
  ([NO; 27] ++ lit "!@#$%^" ++
   lit "&*()_+" ++ [8; 9] ++
   lit "QWERTYUI" ++
   lit "OP{}" ++ [10; NO] ++ lit "AS" ++
   lit "DFGHJKL:" ++
   [34] ++ lit "~" ++ [NO] ++ lit "|ZXCV" ++
   lit "BNM<>?" ++ [NO] ++ lit "*" ++
   [NO] ++ lit " " ++ [NO; NO; NO; NO; NO; NO] ++
   [NO; NO; NO; NO; NO; NO; NO] ++ lit "7" ++
   lit "89-456+1" ++
   lit "230." ++ [NO; NO; NO; NO])
  ((0x9C%nat, 10) :: (0xB5%nat, 47) :: arrow_keys).

(** [C(x)] of a character, as the byte stored. *)
Definition ctls (s : string) : list Z := (λ x, u8 (Ctl x)) <$> lit s.

Definition ctlmap : list Z := table
  (replicate 8 NO ++
   replicate 8 NO ++
   ctls "QWERTYUI" ++
   ctls "OP" ++ [NO; NO; 13; NO] ++ ctls "AS" ++
   ctls "DFGHJKL" ++ [NO] ++
   [NO; NO; NO] ++ ctls "\ZXCV" ++
   ctls "BNM" ++ [NO; NO] ++ ctls "/" ++ [NO; NO])
  ((0x9C%nat, 13) :: (0xB5%nat, u8 (Ctl 47)) :: arrow_keys).

(** ** kbd.c *)

(** The variable [shift], the bytes the controller has ready, and the console. *)
Record kbdst := Kbd { kshift : Z; kdata : list Z; kcons : console }.

Definition set_kcons v s := Kbd (kshift s) (kdata s) v.
Definition on_cons {A} : M console A → M kbdst A := focus (λ s, Some (kcons s)) set_kcons.

Definition charcode : list (list Z) := [normalmap; shiftmap; ctlmap; ctlmap].

(** What [kbd_getc] does with a byte: the new [shift] and the result. *)
Definition kbd_code (shift data : Z) : Z * Z :=
  if decide (data = 0xE0) then (Z.lor shift E0ESC, 0)
  else if decide (Z.land data 0x80 ≠ 0) then
    let data := if decide (Z.land shift E0ESC ≠ 0) then data else Z.land data 0x7F in
    (Z.land shift (Z.lnot (Z.lor (shiftcode !!! Z.to_nat data) E0ESC)), 0)
  else
    let '(data, shift) :=
      if decide (Z.land shift E0ESC ≠ 0) then (Z.lor data 0x80, Z.land shift (Z.lnot E0ESC)) else (data, shift) in
    let shift := Z.lor shift (shiftcode !!! Z.to_nat data) in
    let shift := Z.lxor shift (togglecode !!! Z.to_nat data) in
    let c := (charcode !!! Z.to_nat (Z.land shift (Z.lor CTL SHIFT))) !!! Z.to_nat data in
    let c :=
      if decide (Z.land shift CAPSLOCK ≠ 0) then
        if decide (97 ≤ c ∧ c ≤ 122) then u32 (c + (65 - 97))
        else if decide (65 ≤ c ∧ c ≤ 90) then u32 (c + (97 - 65)) else c
      else c in
    (shift, c).

Definition kbd_getc : M kbdst Z :=
  s ← kget;
  match kdata s with
  | [] => mret (-1)
  | data :: rest =>
      let '(shift, c) := kbd_code (kshift s) data in
      kput (Kbd shift rest (kcons s));; mret c
  end.

(** [while((c = getc()) >= 0)] of [console_intr], one character at a time; every
    turn takes a byte from the controller. *)
Fixpoint getc_loop (dump : M console unit) (fuel : nat) : M kbdst unit :=
  match fuel with
  | O => diverge
  | S fuel =>
      c ← kbd_getc;
      if decide (c >= 0) then on_cons (console_key dump c);; getc_loop dump fuel else mret ()
  end.

Definition kbd_intr (dump : M console unit) : M kbdst unit :=
  s ← kget;
  acquire LkInput;; getc_loop dump (S (length (kdata s)));; release LkInput.

(** ** A US keyboard *)
Inductive modifier := Plain | Shifted | Control.

(** Rows of keys with consecutive scan codes: what they print alone and with a
    shift key. *)
Definition us_rows : list (Z * list Z * list Z) :=
  [(0x01, [27], []); (0x02, lit "1234567890-=", lit "!@#$%^&*()_+"); (0x0E, [8; 9], []);
   (0x10, lit "qwertyuiop[]", lit "QWERTYUIOP{}"); (0x1C, [10], []);
   (0x1E, lit "asdfghjkl;'`", lit "ASDFGHJKL:" ++ [34] ++ lit "~");
   (0x2B, lit "\zxcvbnm,./", lit "|ZXCVBNM<>?"); (0x39, lit " ", [])].

Fixpoint index_of (c : Z) (l : list Z) : option Z :=
  match l with
  | [] => None
  | x :: l => if decide (x = c) then Some 0 else Z.succ <$> index_of c l
  end.

Fixpoint key_in (rows : list (Z * list Z * list Z)) (c : Z) : option (modifier * Z) :=
  match rows with
  | [] => None
  | (k, plain, shifted) :: rows =>
      match index_of c plain, index_of c shifted with
      | Some i, _ => Some (Plain, k + i)
      | None, Some i => Some (Shifted, k + i)
      | None, None => key_in rows c
      end
  end.

(** The key for a character: its own, or a letter with the control key. *)
Definition key_for (c : Z) : option (modifier * Z) :=
  match key_in us_rows c with
  | Some k => Some k
  | None => if decide (1 ≤ c ≤ 26) then (λ k, (Control, k.2)) <$> key_in us_rows (c + 96) else None
  end.

(** The bytes the keyboard sends for it: a key sends its code when it goes down,
    and the code with the high bit set when it comes up. *)
Definition strokes (c : Z) : option (list Z) :=
  k ← key_for c;
  let tap := [k.2; k.2 + 0x80] in
  Some (match k.1 with
        | Plain => tap
        | Shifted => [0x2A] ++ tap ++ [0xAA]
        | Control => [0x1D] ++ tap ++ [0x9D]
        end).

(** With caps lock on, letters come in the other case. *)
Definition with_caps (shift c : Z) : Z :=
  if decide (Z.testbit shift 3 = true) then
    if decide (97 ≤ c ≤ 122) then c - 32 else if decide (65 ≤ c ≤ 90) then c + 32 else c
  else c.

(** No shift or control key is down and no escape is pending. *)
Definition at_rest (shift : Z) : Prop := 0 ≤ shift < 128 ∧ Z.land shift (Z.lor (Z.lor SHIFT CTL) E0ESC) = 0.

(** ** Decoding *)
Fixpoint decode (shift : Z) (bytes : list Z) : Z * list Z :=
  match bytes with
  | [] => (shift, [])
  | b :: bytes =>
      let '(shift, c) := kbd_code shift b in
      let '(shift, cs) := decode shift bytes in (shift, c :: cs)
  end.

Definition shown_keys (cs : list Z) : list Z := filter (λ c, c ≠ 0) cs.

Lemma decode_app bs1 bs2 : ∀ shift,
  decode shift (bs1 ++ bs2) =
    ((decode (decode shift bs1).1 bs2).1, (decode shift bs1).2 ++ (decode (decode shift bs1).1 bs2).2).
Proof.
  induction bs1 as [|b bs1 IH]; intros shift; cbn [decode app fst snd]; [by destruct (decode shift bs2)|].
  destruct (kbd_code shift b) as [s1 c]. rewrite IH. destruct (decode s1 bs1) as [s2 cs]. done.
Qed.

Definition code_in_range (shift data : Z) : bool :=
  let '(s, c) := kbd_code shift data in bool_decide (0 ≤ s < 128 ∧ 0 ≤ c < 256).

Lemma kbd_code_range shift data : 0 ≤ shift < 128 → 0 ≤ data < 256 →
  0 ≤ (kbd_code shift data).1 < 128 ∧ 0 ≤ (kbd_code shift data).2 < 256.
Proof.
  intros Hs Hd.
  pose proof (below_check (λ s, forallb (code_in_range s) (Z.of_nat <$> seq 0 256)) 128) as K.
  specialize (K ltac:(vm_compute; reflexivity) shift Hs).
  pose proof (below_check _ 256 K data Hd) as C. unfold code_in_range in C.
  destruct (kbd_code shift data). by apply bool_decide_eq_true in C.
Qed.

Lemma decode_range bs : ∀ shift, 0 ≤ shift < 128 → Forall (λ b, 0 ≤ b < 256) bs →
  0 ≤ (decode shift bs).1 < 128 ∧ Forall (λ c, 0 ≤ c < 256) (decode shift bs).2.
Proof.
  induction bs as [|b bs IH]; intros shift Hs F; cbn [decode]; [done|].
  inversion_clear F as [|? ? Hb Hbs]. destruct (kbd_code_range shift b Hs Hb) as [R1 R2].
  destruct (kbd_code shift b) as [s1 c]. specialize (IH s1 R1 Hbs).
  destruct (decode s1 bs). split; [apply IH|]. constructor; [done|apply IH].
Qed.

(** Every character, in every resting state of the modifiers. *)
Definition stroke_ok (shift c : Z) : bool :=
  if decide (Z.land shift (Z.lor (Z.lor SHIFT CTL) E0ESC) = 0) then
    match strokes c with
    | Some bs => bool_decide (Forall (λ b, 0 ≤ b < 256) bs) &&
        let '(s, cs) := decode shift bs in bool_decide (s = shift ∧ shown_keys cs = [with_caps shift c])
    | None => true
    end
  else true.

Lemma key_in_range rows c k : key_in rows c = Some k → ∃ r, r ∈ rows ∧ (c ∈ r.1.2 ∨ c ∈ r.2).
Proof.
  assert (I : ∀ l i, index_of c l = Some i → c ∈ l).
  { induction l as [|x l IH]; intros i Hi; [done|]. simpl in Hi. case_decide; [subst; inl|].
    apply fmap_Some in Hi as (j & Hj & _). apply list_elem_of_further. eauto. }
  induction rows as [|[[k0 pl] sh] rows IH]; [done|]. simpl.
  destruct (index_of c pl) eqn:E1; [intros _; exists (k0, pl, sh); split; [inl|left; eauto]|].
  destruct (index_of c sh) eqn:E2; [intros _; exists (k0, pl, sh); split; [inl|right; eauto]|].
  intros H. destruct (IH H) as (r & Hr & Hc). exists r. split; [by apply list_elem_of_further|done].
Qed.

Lemma strokes_ascii c bs : strokes c = Some bs → 0 ≤ c < 128.
Proof.
  unfold strokes, key_for. intros H. destruct (key_in us_rows c) as [k|] eqn:E.
  - apply key_in_range in E as (r & Hr & Hc).
    assert (F : Forall (λ r, Forall (λ c, 0 ≤ c < 128) r.1.2 ∧ Forall (λ c, 0 ≤ c < 128) r.2) us_rows)
      by (apply (bool_decide_unpack _); vm_compute; exact I).
    rewrite Forall_forall in F. destruct (F r Hr) as [F1 F2]. rewrite Forall_forall in F1, F2.
    destruct Hc as [Hc|Hc]; [by apply F1|by apply F2].
  - case_decide; [lia|done].
Qed.

Lemma decode_strokes shift c bs : at_rest shift → strokes c = Some bs →
  Forall (λ b, 0 ≤ b < 256) bs ∧ (decode shift bs).1 = shift ∧ shown_keys (decode shift bs).2 = [with_caps shift c].
Proof.
  intros [Hs Hr] E. pose proof (strokes_ascii _ _ E) as Hc.
  pose proof (below_check (λ s, forallb (stroke_ok s) (Z.of_nat <$> seq 0 128)) 128) as K.
  specialize (K ltac:(vm_compute; reflexivity) shift Hs).
  pose proof (below_check _ 128 K c Hc) as C. unfold stroke_ok in C.
  rewrite decide_True, E in C by done. apply andb_true_iff in C as [C1 C2].
  apply bool_decide_eq_true in C1. destruct (decode shift bs) as [s cs]. by apply bool_decide_eq_true in C2.
Qed.

Lemma decode_text shift text : at_rest shift → ∀ ls, mapM strokes text = Some ls →
  Forall (λ b, 0 ≤ b < 256) (concat ls) ∧ (decode shift (concat ls)).1 = shift ∧
  shown_keys (decode shift (concat ls)).2 = with_caps shift <$> text.
Proof.
  intros Hr. induction text as [|c text IH]; intros ls E.
  - injection E as <-. done.
  - apply mapM_Some in E. inversion E as [|? bs ? ls' E1 E2]; subst. apply mapM_Some in E2.
    destruct (decode_strokes shift c bs Hr E1) as (B1 & S1 & K1).
    destruct (IH ls' E2) as (B2 & S2 & K2). cbn [concat fmap list_fmap].
    rewrite decode_app, S1. cbn [fst snd]. unfold shown_keys in *. rewrite filter_app, K1, K2.
    split_and!; [by apply Forall_app|done|done].
Qed.

(** ** Interrupts *)
Lemma line_key_shown cs : ∀ st, foldl line_key st cs = foldl line_key st (shown_keys cs).
Proof.
  unfold shown_keys. induction cs as [|c cs IH]; intros st; [done|]. rewrite filter_cons. cbn [foldl].
  destruct (decide (c ≠ 0)) as [Hc|Hc]; [apply IH|]. apply dec_stable in Hc. subst c. rewrite IH. f_equal.
  by destruct st as [[Q E] w].
Qed.

Section intrs.
Context (v : schst) (mlfq : bool) (word : Z → Z) (T : tables_ok v mlfq).

(** Bytes arrive at the controller, which raises the interrupt. *)
Definition arrive (bs : list Z) : M kbdst unit := kmodify (λ s, Kbd (kshift s) (kdata s ++ bs) (kcons s)).
Fixpoint arrivals (chunks : list (list Z)) : M kbdst unit :=
  match chunks with
  | [] => mret ()
  | bs :: chunks => arrive bs;; kbd_intr (procdump v mlfq word);; arrivals chunks
  end.

Lemma getc_loop_run dump h : (∀ w, dumps dump (KCtx h w)) → ∀ bs fuel shift cons Q E w,
  (length bs < fuel)%nat → 0 ≤ shift < 128 → Forall (λ b, 0 ≤ b < 256) bs →
  irep (input cons) Q E → alive cons →
  let '(Q', E', w') := foldl line_key (Q, E, w) (decode shift bs).2 in
  ∃ cons', getc_loop dump fuel (KCtx h w) (Kbd shift bs cons) =
      Ok () (KCtx h w') (Kbd (decode shift bs).1 [] cons') ∧ irep (input cons') Q' E' ∧ alive cons'.
Proof.
  intros D. induction bs as [|b bs IH]; intros [|fuel] shift cons Q E w Hf Hs F R A; try (simpl in Hf; lia).
  { exists cons. done. }
  apply Forall_cons in F as [Hb F]. destruct (kbd_code_range shift b Hs Hb) as [R1 R2].
  cbn [getc_loop decode]. unfold kbd_getc. unfold mbind at 1, M_bind at 1. rewrite kget_bind. cbn [kdata kshift kcons].
  destruct (kbd_code shift b) as [s1 c] eqn:K. cbn [fst snd] in R1, R2.
  unfold mbind at 1, M_bind at 1, kput, obind, mret, M_ret. rewrite decide_True by lia.
  destruct (decode s1 bs) as [s2 cs] eqn:Dc. cbn [fst snd foldl].
  pose proof (console_key_run dump h D c cons Q E w R A R2) as Key.
  destruct (line_key (Q, E, w) c) as [[Q1 E1] w1]. destruct Key as (cons1 & K1 & I1 & A1).
  unfold on_cons. erewrite bind_Ok; [|by eapply focus_Ok; [done|exact K1]]. cbn [set_kcons kshift kdata].
  specialize (IH fuel s1 cons1 Q1 E1 w1 ltac:(simpl in Hf; lia) R1 F I1 A1). by rewrite Dc in IH.
Qed.

Context (h : list lock_id) (Hc : LkConsole ∉ h) (Hp : LkProcTable ∉ h) (Hi : LkInput ∉ h) (Hr : ∀ q, LkRq q ∉ h).

Lemma kbd_intr_run s Q E w : 0 ≤ kshift s < 128 → Forall (λ b, 0 ≤ b < 256) (kdata s) →
  irep (input (kcons s)) Q E → alive (kcons s) →
  let '(Q', E', w') := foldl line_key (Q, E, w) (decode (kshift s) (kdata s)).2 in
  ∃ cons', kbd_intr (procdump v mlfq word) (KCtx h w) s =
      Ok () (KCtx h w') (Kbd (decode (kshift s) (kdata s)).1 [] cons') ∧ irep (input cons') Q' E' ∧ alive cons'.
Proof.
  intros Hs F R A. unfold kbd_intr. rewrite kget_bind.
  rewrite (bind_Ok _ _ _ _ _ _ _ (acquire_ok LkInput (KCtx h w) s Hi)). cbn [held woken].
  assert (D : ∀ w, dumps (procdump v mlfq word) (KCtx (LkInput :: h) w)).
  { intros w0. apply procdump_ok; [done| | |intros q]; rewrite elem_of_cons; intros [?|X]; try done. by apply Hr in X. }
  pose proof (getc_loop_run _ _ D (kdata s) (S (length (kdata s))) (kshift s) (kcons s) Q E w
    ltac:(lia) Hs F R A) as L.
  destruct (foldl line_key _ _) as [[Q' E'] w']. destruct L as (cons' & L & R' & A').
  exists cons'. destruct s as [sh bs cs]. cbn [kshift kdata kcons] in *.
  by rewrite (bind_Ok _ _ _ _ _ _ _ L), release_ok.
Qed.

Lemma arrivals_run chunks : ∀ shift cons Q E w, 0 ≤ shift < 128 → Forall (λ b, 0 ≤ b < 256) (concat chunks) →
  irep (input cons) Q E → alive cons →
  let '(Q', E', w') := foldl line_key (Q, E, w) (decode shift (concat chunks)).2 in
  ∃ cons', arrivals chunks (KCtx h w) (Kbd shift [] cons) =
      Ok () (KCtx h w') (Kbd (decode shift (concat chunks)).1 [] cons') ∧ irep (input cons') Q' E' ∧ alive cons'.
Proof.
  induction chunks as [|bs chunks IH]; intros shift cons Q E w Hs F R A; cbn [concat arrivals].
  { by exists cons. }
  cbn [concat] in F. apply Forall_app in F as [F1 F2]. rewrite decode_app. cbn [fst snd]. rewrite foldl_app.
  pose proof (kbd_intr_run (Kbd shift bs cons) Q E w Hs F1 R A) as K. cbn [kshift kdata] in K.
  destruct (foldl line_key (Q, E, w) _) as [[Q1 E1] w1]. destruct K as (cons1 & K & R1 & A1).
  unfold arrive. rewrite kmodify_bind. cbn [kshift kdata kcons app]. rewrite (bind_Ok _ _ _ _ _ _ _ K).
  apply IH; [|done..]. by apply decode_range.
Qed.
End intrs.

(** C18 Typing on a US keyboard enters what was typed: for any text of printable
    characters, newlines and control characters, in any state of caps lock and
    the other locks, whose scan codes arrive in any number of interrupts cut at
    any byte, the console's input line and what readers may take are those of the
    text itself (letters in the other case under caps lock), the modifiers are
    back at rest, the controller is empty and all locks are released. *)
Theorem kbd_typing v mlfq word text chunks codes s Q E h w :
  tables_ok v mlfq → alive (kcons s) → irep (input (kcons s)) Q E → kdata s = [] → at_rest (kshift s) →
  mapM strokes text = Some codes → concat chunks = concat codes →
  LkConsole ∉ h → LkProcTable ∉ h → LkInput ∉ h → (∀ q, LkRq q ∉ h) →
  let '(Q', E', w') := foldl line_key (Q, E, w) (with_caps (kshift s) <$> text) in
  ∃ s', arrivals v mlfq word chunks (KCtx h w) s = Ok () (KCtx h w') s' ∧
    irep (input (kcons s')) Q' E' ∧ alive (kcons s') ∧ kshift s' = kshift s ∧ kdata s' = [].
Proof.
  intros T A R Hd Hs Ht Hch Hc Hp Hi Hr. destruct s as [shift bs cons]. cbn [kshift kdata kcons] in *. subst bs.
  destruct (decode_text shift text Hs codes Ht) as (B & S & K). rewrite <- Hch in B, S, K.
  pose proof (arrivals_run v mlfq word T h Hc Hp Hi Hr chunks shift cons Q E w (proj1 Hs) B R A) as X.
  rewrite line_key_shown, K, S in X. destruct (foldl line_key _ _) as [[Q' E'] w'].
  destruct X as (cons' & X & R' & A'). exists (Kbd shift [] cons'). done.
Qed.

(** The keys of a capital A and return, in three interrupts. *)
Lemma kbd_typing_witness : ∃ s',
  arrivals one_cpu false (λ _, 0) [[0x2A; 0x1E]; [0x9E]; [0xAA; 0x1C; 0x9C]] (KCtx [] []) (Kbd 0 [] blank_console) =
    Ok () (KCtx [] [ChInput]) s' ∧ irep (input (kcons s')) [65; 10] [].
Proof.
  destruct (kbd_typing one_cpu false (λ _, 0) [65; 10] [[0x2A; 0x1E]; [0x9E]; [0xAA; 0x1C; 0x9C]]
    [[0x2A; 0x1E; 0x9E; 0xAA]; [0x1C; 0x9C]] (Kbd 0 [] blank_console) [] [] [] []) as (s' & X & R & _).
  - apply one_cpu_ok.
  - apply blank_alive.
  - apply blank_irep.
  - reflexivity.
  - split; [simpl; lia|reflexivity].
  - vm_compute. reflexivity.
  - reflexivity.
  - apply not_elem_of_nil.
  - apply not_elem_of_nil.
  - apply not_elem_of_nil.
  - intros q. apply not_elem_of_nil.
  - exists s'. split; [exact X|exact R].
Defined.

(** The Home key sends [E0 47], which is entry [0xC7] of the tables, but they
    have [KEY_HOME] in entry [0x97]: the key gives no character. *)
Theorem home_key_dead shift : 0 ≤ shift < 128 → shown_keys (decode shift [0xE0; 0x47; 0xE0; 0xC7]).2 = [].
Proof.
  intros Hs. pose proof (below_check (λ s, bool_decide (shown_keys (decode s [0xE0; 0x47; 0xE0; 0xC7]).2 = [])) 128) as K.
  specialize (K ltac:(vm_compute; reflexivity) shift Hs). by apply bool_decide_eq_true in K.
Qed.

(** Letting go of one of two shift keys counts as letting go of both: with the
    left one still down, a gives a. *)
Theorem second_shift_forgotten :
  (decode 0 [0x2A; 0x36; 0xB6; 0x1E]).2 = [0; 0; 0; 97].
Proof. reflexivity. Qed.
