(* ===== verification/Mp.v ===== *)
(** * Multiprocessor tables (mp.c, mp.h)

    [mp_init] looks for the MP floating pointer structure in the memory the
    firmware left, follows it to the configuration table and takes the
    processors, the I/O APIC and the local APIC's address from it.  Memory is the
    byte memory of the string functions; structures are read at the offsets of
    mp.h.  Each step of the search advances 16 bytes and each entry of the table
    is at least 8 bytes long, which bounds the loops. *)
From S2P Require Import Prelude Kernel ProcData SchedState CString Printf Console Kalloc Pipe Fs Mmu KState FsDisk Intr.
Local Open Scope Z_scope.

(** ** mp.h *)
Definition sizeof_mp : Z := 16.
Definition mp_physaddr (m : mem) (p : Z) : Z := rd32 m (p + 4).
Definition mp_imcrp (m : mem) (p : Z) : Z := rd m (p + 12).

Definition rd16 (m : mem) (a : Z) : Z := rd m a + 2 ^ 8 * rd m (a + 1).
Definition sizeof_mpconf : Z := 44.
Definition conf_length (m : mem) (p : Z) : Z := rd16 m (p + 4).
Definition conf_version (m : mem) (p : Z) : Z := rd m (p + 6).
Definition conf_lapicaddr (m : mem) (p : Z) : Z := rd32 m (p + 36).

Definition sizeof_mpproc : Z := 20.
Definition proc_apicid (m : mem) (p : Z) : Z := rd m (p + 1).
Definition proc_flags (m : mem) (p : Z) : Z := rd m (p + 3).
Definition MPBOOT : Z := 0x02.

Definition sizeof_mpioapic : Z := 8.
Definition ioapic_apicno (m : mem) (p : Z) : Z := rd m (p + 1).

Definition MPPROC : Z := 0x00.
Definition MPBUS : Z := 0x01.
Definition MPIOAPIC : Z := 0x02.
Definition MPIOINTR : Z := 0x03.
Definition MPLINTR : Z := 0x04.

(** ** mp.c *)
Fixpoint sum_loop (m : mem) (addr : Z) (n : nat) (acc : Z) : Z :=
  match n with O => acc | S n => sum_loop m (addr + 1) n (acc + rd m addr) end.
Definition sum (m : mem) (addr len : Z) : Z := u8 (sum_loop m addr (Z.to_nat len) 0).

(** [memcmp] with a literal of four bytes is 0. *)
Definition signature (m : mem) (p : Z) (s : string) : bool := bool_decide (get_bytes m p 4 = lit s).

Fixpoint mp_search1_loop (m : mem) (fuel : nat) (p e : Z) : Z :=
  match fuel with
  | O => 0
  | S fuel =>
      if decide (p < e) then
        if signature m p "_MP_" && bool_decide (sum m p sizeof_mp = 0) then p
        else mp_search1_loop m fuel (u32 (p + sizeof_mp)) e
      else 0
  end.
Definition mp_search1 (m : mem) (addr len : Z) : Z :=
  mp_search1_loop m (Z.to_nat (len / sizeof_mp + 1)) addr (u32 (addr + len)).

Definition mp_search (m : mem) : Z :=
  let bda := 0x400 in
  let p := Z.shiftl (Z.lor (Z.shiftl (rd m (bda + 0x0F)) 8) (rd m (bda + 0x0E))) 4 in
  let mp :=
    if decide (p ≠ 0) then mp_search1 m p 1024
    else
      let p := Z.lor (Z.shiftl (rd m (bda + 0x14)) 8) (rd m (bda + 0x13)) * 1024 in
      mp_search1 m (u32 (p - 1024)) 1024 in
  if decide (mp ≠ 0) then mp else mp_search1 m 0xF0000 0x10000.

(** The structure and the table it points to. *)
Definition mp_config (m : mem) : option (Z * Z) :=
  let mp := mp_search m in
  if decide (mp = 0 ∨ mp_physaddr m mp = 0) then None
  else
    let conf := mp_physaddr m mp in
    if negb (signature m conf "PCMP") then None
    else if decide (conf_version m conf ≠ 1 ∧ conf_version m conf ≠ 4) then None
    else if decide (sum m conf (conf_length m conf) ≠ 0) then None
    else Some (mp, conf).

Definition set_mp (f : mpst → mpst) : M hwst unit := kmodify (λ s, set_mpinfo (f (mpinfo s)) s).

(** [case MPPROC]; the array of processors has [NCPU] elements. *)
Definition add_proc (apicid flags : Z) : M hwst unit :=
  mp ← kgets mpinfo;
  if decide (mp_ncpu mp < Z.of_nat NCPU) then
    set_mp (λ mp, Mp (ismp mp) (lapic mp) (mp_ncpu mp + 1) (<[Z.to_nat (mp_ncpu mp) := apicid]> (apicids mp))
                     (if decide (Z.land flags MPBOOT ≠ 0) then mp_ncpu mp else bcpu mp) (ioapic_id mp))
  else fault.

Fixpoint mp_entries (m : mem) (fuel : nat) (p e : Z) : M hwst unit :=
  match fuel with
  | O => diverge
  | S fuel =>
      if decide (p < e) then
        let t := rd m p in
        if decide (t = MPPROC) then
          add_proc (proc_apicid m p) (proc_flags m p);; mp_entries m fuel (u32 (p + sizeof_mpproc)) e
        else if decide (t = MPIOAPIC) then
          set_mp (λ mp, Mp (ismp mp) (lapic mp) (mp_ncpu mp) (apicids mp) (bcpu mp) (ioapic_apicno m p));;
          mp_entries m fuel (u32 (p + sizeof_mpioapic)) e
        else if decide (t = MPBUS ∨ t = MPIOINTR ∨ t = MPLINTR) then mp_entries m fuel (u32 (p + 8)) e
        else
          on_hcons (cprintf (lit "mp_init: unknown config type %x" ++ [10]) [Num t]);; panic "mp_init"
      else mret ()
  end.

(** [imcr]: what port 0x23 reads. *)
Definition mp_init (m : mem) (imcr : Z) : M hwst unit :=
  set_mp (λ mp, Mp (ismp mp) (lapic mp) (mp_ncpu mp) (apicids mp) (mp_ncpu mp) (ioapic_id mp));;
  match mp_config m with
  | None => mret ()
  | Some (mp, conf) =>
      set_mp (λ mp, Mp true (conf_lapicaddr m conf) (mp_ncpu mp) (apicids mp) (bcpu mp) (ioapic_id mp));;
      let len := conf_length m conf in
      mp_entries m (Z.to_nat (len / 8 + 1)) (u32 (conf + sizeof_mpconf)) (u32 (conf + len));;
      if decide (mp_imcrp m mp ≠ 0) then
        outb 0x22 0x70;;
        outb 0x23 (Z.lor imcr 1)
      else mret ()
  end.

Definition mp_bcpu : M hwst Z := s ← kget; mret (bcpu (mpinfo s)).

(** At boot, before [mp_init]. *)
Definition mp0 : mpst := Mp false 0 0 (replicate NCPU 0) 0 0.

(** ** The search *)
Definition floating (m : mem) (p : Z) : Prop := signature m p "_MP_" = true ∧ sum m p sizeof_mp = 0.
#[export] Instance floating_dec m p : Decision (floating m p) := _.

(** The addresses looked at: the first kilobyte of the extended BIOS data area or,
    where there is none, the last of base memory; then the BIOS ROM. *)
Definition area (a : Z) (n : nat) : list Z := (λ i, a + 16 * Z.of_nat i) <$> seq 0 n.
Definition ebda (m : mem) : Z := rd16 m 0x40E * 16.
Definition base_memory (m : mem) : Z := rd16 m 0x413 * 1024.
Definition candidates (m : mem) : list Z :=
  (if decide (ebda m ≠ 0) then area (ebda m) 64
   else if decide (base_memory m ≠ 0) then area (base_memory m - 1024) 64 else []) ++ area 0xF0000 (Z.to_nat 4096).

Lemma area_S a n : area a (S n) = a :: area (a + 16) n.
Proof.
  unfold area. cbn [seq fmap list_fmap]. rewrite Z.mul_0_r, Z.add_0_r. f_equal.
  rewrite <- fmap_S_seq, <- list_fmap_compose. apply list_fmap_ext. intros i x _. simpl. lia.
Qed.

Lemma search_loop_spec m n : ∀ a fuel, 0 ≤ a → a + 16 * Z.of_nat n < 2 ^ 32 → (n < fuel)%nat →
  mp_search1_loop m fuel a (a + 16 * Z.of_nat n) = default 0 (head (filter (floating m) (area a n))).
Proof.
  induction n as [|n IH]; intros a [|fuel] Ha Hn Hf; try lia; cbn [mp_search1_loop].
  { by rewrite decide_False by lia. }
  rewrite decide_True by lia. rewrite area_S, filter_cons.
  assert (D : signature m a "_MP_" && bool_decide (sum m a sizeof_mp = 0) = true ↔ floating m a).
  { unfold floating. by rewrite andb_true_iff, bool_decide_eq_true. }
  destruct (decide (floating m a)) as [F|F]; [by rewrite (proj2 D F)|].
  rewrite (not_true_is_false _ (λ X, F (proj1 D X))).
  rewrite <- IH with (fuel := fuel) by lia. unfold sizeof_mp. rewrite (u32_small (a + 16)) by lia. f_equal. lia.
Qed.

Lemma search1_spec m a n : 0 ≤ a → a + 16 * Z.of_nat n < 2 ^ 32 →
  mp_search1 m a (16 * Z.of_nat n) = default 0 (head (filter (floating m) (area a n))).
Proof.
  intros Ha Hn. unfold mp_search1, sizeof_mp. rewrite u32_small by lia. apply search_loop_spec; [done|done|].
  rewrite (Z.mul_comm 16), Z.div_mul by lia. lia.
Qed.

Lemma word_range m a : bytes_mem m → 0 ≤ rd16 m a < 2 ^ 16.
Proof. intros B. unfold rd16. pose proof (B a). pose proof (B (a + 1)). lia. Qed.

Lemma lor_byte x y : 0 ≤ x → 0 ≤ y < 2 ^ 8 → Z.lor (Z.shiftl x 8) y = 2 ^ 8 * x + y.
Proof.
  intros Hx Hy. assert (L : Z.land (Z.shiftl x 8) y = 0).
  { apply Z.bits_inj'. intros n Hn. rewrite Z.land_spec, Z.bits_0. destruct (decide (n < 8)).
    - by rewrite Z.shiftl_spec_low by lia.
    - rewrite <- (Z.mod_small y (2 ^ 8)) by lia. rewrite (Z.mod_pow2_bits_high y) by lia. apply andb_false_r. }
  rewrite <- Z.lxor_lor, <- Z.add_nocarry_lxor by done. rewrite Z.shiftl_mul_pow2 by lia. lia.
Qed.

Lemma mp_search_spec m : bytes_mem m → (ebda m = 0 → base_memory m ≠ 1024) →
  mp_search m = default 0 (head (filter (floating m) (candidates m))).
Proof.
  intros B Hb. unfold mp_search, candidates. pose proof (word_range m 0x40E B) as W1. pose proof (word_range m 0x413 B) as W2.
  cbv zeta.
  assert (E1 : Z.shiftl (Z.lor (Z.shiftl (rd m (0x400 + 0x0F)) 8) (rd m (0x400 + 0x0E))) 4 = ebda m).
  { rewrite lor_byte by apply B. rewrite Z.shiftl_mul_pow2 by lia. unfold ebda, rd16.
    change (0x400 + 0x0F) with 0x40F. change (0x400 + 0x0E) with 0x40E. change (0x40E + 1) with 0x40F. lia. }
  assert (E2 : Z.lor (Z.shiftl (rd m (0x400 + 0x14)) 8) (rd m (0x400 + 0x13)) * 1024 = base_memory m).
  { rewrite lor_byte by apply B. unfold base_memory, rd16.
    change (0x400 + 0x14) with 0x414. change (0x400 + 0x13) with 0x413. change (0x413 + 1) with 0x414. lia. }
  rewrite E1, E2, filter_app.
  assert (Rom : mp_search1 m 0xF0000 0x10000 = default 0 (head (filter (floating m) (area 0xF0000 (Z.to_nat 4096))))).
  { rewrite <- search1_spec by lia. done. }
  set (r := if decide (ebda m ≠ 0) then mp_search1 m (ebda m) 1024 else mp_search1 m (u32 (base_memory m - 1024)) 1024).
  set (l := if decide (ebda m ≠ 0) then area (ebda m) 64
            else if decide (base_memory m ≠ 0) then area (base_memory m - 1024) 64 else []).
  assert (E : r = default 0 (head (filter (floating m) l)) ∧ 0 ∉ l).
  { unfold r, l, ebda, base_memory in *. destruct (decide (rd16 m 0x40E * 16 ≠ 0)).
    - split; [apply (search1_spec m _ 64); lia|]. unfold area. rewrite list_elem_of_fmap. intros (i & ? & _). lia.
    - apply dec_stable in n. specialize (Hb n). case_decide.
      + rewrite u32_small by lia. split; [apply (search1_spec m _ 64); lia|].
        unfold area. rewrite list_elem_of_fmap. intros (i & ? & _). lia.
      + assert (rd16 m 0x413 = 0) as -> by lia. split; [|apply not_elem_of_nil]. reflexivity. }
  clearbody r l. destruct E as [-> N]. rewrite Rom. clear Rom. generalize (filter (floating m) (area 0xF0000 (Z.to_nat 4096))).
  intros rom. destruct (filter (floating m) l) as [|p q] eqn:F; [done|].
  simpl. rewrite decide_True; [done|]. intros ->. apply N.
  assert (0 ∈ filter (floating m) l) as [_ ?]%list_elem_of_filter by (rewrite F; inl). done.
Qed.

(** ** The table *)

(** The entries of a configuration table; of the fields the kernel does not use
    only the bytes are kept. *)
Inductive mpentry :=
| EProc (apicid version flags : Z) (rest : list Z)
| EIoapic (apicno : Z) (rest : list Z)
| EOther (type : Z) (rest : list Z).

Definition entry_bytes (e : mpentry) : list Z :=
  match e with
  | EProc apicid version flags rest => [0; apicid; version; flags] ++ rest
  | EIoapic apicno rest => [2; apicno] ++ rest
  | EOther type rest => type :: rest
  end.
Definition entry_ok (e : mpentry) : Prop :=
  match e with
  | EProc _ _ _ rest => length rest = 16%nat
  | EIoapic _ rest => length rest = 6%nat
  | EOther type rest => (type = 1 ∨ type = 3 ∨ type = 4) ∧ length rest = 7%nat
  end.

(** What the kernel should learn from them. *)
Definition procs_of (es : list mpentry) : list (Z * Z) :=
  omap (λ e, match e with EProc a _ f _ => Some (a, f) | _ => None end) es.
Definition ioapics_of (es : list mpentry) : list Z :=
  omap (λ e, match e with EIoapic a _ => Some a | _ => None end) es.

(** The last processor marked as the boot processor, counting from [n]. *)
Fixpoint boot_from (n b : Z) (ps : list (Z * Z)) : Z :=
  match ps with [] => b | (_, f) :: ps => boot_from (n + 1) (if Z.testbit f 1 then n else b) ps end.

Definition learned (mp : mpst) (es : list mpentry) : mpst :=
  let ps := procs_of es in
  let n := Z.to_nat (mp_ncpu mp) in
  Mp (ismp mp) (lapic mp) (mp_ncpu mp + Z.of_nat (length ps))
     (take n (apicids mp) ++ (fst <$> ps) ++ drop (n + length ps) (apicids mp))
     (boot_from (mp_ncpu mp) (bcpu mp) ps) (default (ioapic_id mp) (last (ioapics_of es))).

Lemma mpboot_bit f : (Z.land f MPBOOT ≠ 0) ↔ Z.testbit f 1 = true.
Proof.
  unfold MPBOOT. change 2 with (Z.shiftl 1 1). rewrite land_bit by lia. by destruct (Z.testbit f 1).
Qed.

Lemma learned_proc mp a v f r es : 0 ≤ mp_ncpu mp < Z.of_nat (length (apicids mp)) →
  learned mp (EProc a v f r :: es) =
  learned (Mp (ismp mp) (lapic mp) (mp_ncpu mp + 1) (<[Z.to_nat (mp_ncpu mp) := a]> (apicids mp))
              (if decide (Z.land f MPBOOT ≠ 0) then mp_ncpu mp else bcpu mp) (ioapic_id mp)) es.
Proof.
  intros H. unfold learned. cbn [ismp lapic mp_ncpu apicids bcpu ioapic_id].
  change (procs_of (EProc a v f r :: es)) with ((a, f) :: procs_of es).
  change (ioapics_of (EProc a v f r :: es)) with (ioapics_of es). set (ps := procs_of es). cbn [length fmap list_fmap fst boot_from].
  set (n := mp_ncpu mp) in *. set (l := apicids mp) in *. f_equal; [lia| |].
  - replace (Z.to_nat (n + 1)) with (S (Z.to_nat n)) by lia.
    rewrite (take_S_r _ (Z.to_nat n) a) by (apply list_lookup_insert_eq; lia).
    rewrite take_insert_ge by lia. rewrite drop_insert_lt by lia. rewrite <- app_assoc. simpl.
    do 4 f_equal. lia.
  - f_equal. case_decide as D; [by rewrite (proj1 (mpboot_bit f) D)|].
    destruct (Z.testbit f 1) eqn:E; [|done]. by apply mpboot_bit in E.
Qed.

(** Bytes followed by bytes. *)
Lemma bytes_at_app m a l l' : bytes_at m a (l ++ l') ↔ bytes_at m a l ∧ bytes_at m (a + Z.of_nat (length l)) l'.
Proof.
  revert a. induction l as [|b l IH]; intros a; simpl.
  { rewrite Z.add_0_r. split; [split; [apply bytes_at_nil|done]|by intros []]. }
  rewrite !bytes_at_cons, IH. replace (a + 1 + Z.of_nat (length l)) with (a + Z.of_nat (S (length l))) by lia. tauto.
Qed.

Lemma last_cons_default {A} (d x : A) l : default d (last (x :: l)) = default x (last l).
Proof. rewrite last_cons. by destruct (last l). Qed.

(** The loop over the entries learns all of them, or runs past the end of [cpus]
    when there are more processors than that. *)
Lemma mp_entries_run m c es : Forall entry_ok es → ∀ p fuel s,
  0 ≤ p → p + Z.of_nat (length (concat (entry_bytes <$> es))) < 2 ^ 32 → (length es < fuel)%nat →
  bytes_at m p (concat (entry_bytes <$> es)) →
  length (apicids (mpinfo s)) = NCPU → 0 ≤ mp_ncpu (mpinfo s) ≤ Z.of_nat NCPU →
  mp_entries m fuel p (p + Z.of_nat (length (concat (entry_bytes <$> es)))) c s =
    if decide (mp_ncpu (mpinfo s) + Z.of_nat (length (procs_of es)) ≤ Z.of_nat NCPU)
    then Ok () c (set_mpinfo (learned (mpinfo s) es) s) else Fault.
Proof.
  induction es as [|e es IH]; intros F p [|fuel] s Hp Hl Hf B La Hn; try (simpl in Hf; lia).
  { cbn [fmap list_fmap concat length] in *. cbn [mp_entries]. rewrite decide_False by lia.
    rewrite decide_True by (simpl; lia). unfold learned. cbn [procs_of ioapics_of omap list_omap length fmap list_fmap boot_from].
    rewrite Nat.add_0_r, Z.add_0_r. cbn [app]. rewrite take_drop. by destruct s as [[] ? ? ? ? ? ? ? ?]. }
  apply Forall_cons in F as [Fe F]. cbn [fmap list_fmap concat] in *. rewrite length_app in Hl |- *.
  apply bytes_at_app in B as [Be B]. simpl in Hf.
  assert (Le : Z.of_nat (length (entry_bytes e)) = match e with EProc _ _ _ _ => 20 | _ => 8 end ∧
               0 < Z.of_nat (length (entry_bytes e))).
  { destruct e; simpl in Fe |- *; lia. }
  destruct Le as [Le Pos]. cbn [mp_entries]. rewrite decide_True by lia.
  replace (p + Z.of_nat (length (entry_bytes e) + length (concat (entry_bytes <$> es))))
    with (p + Z.of_nat (length (entry_bytes e)) + Z.of_nat (length (concat (entry_bytes <$> es)))) by lia.
  destruct e as [a v f r|a r|t r]; cbn [entry_bytes app] in Be; rewrite Le in *.
  - rewrite !bytes_at_cons in Be. destruct Be as (T & Ba & _ & Bf & _).
    rewrite T, decide_True by done. unfold proc_apicid, proc_flags, sizeof_mpproc.
    replace (p + 1 + 1 + 1) with (p + 3) in Bf by lia. rewrite Ba, Bf, u32_small by lia.
    unfold add_proc. unfold mbind at 1, M_bind at 1. rewrite kgets_bind.
    change (procs_of (EProc a v f r :: es)) with ((a, f) :: procs_of es). cbn [length].
    destruct (decide (mp_ncpu (mpinfo s) < Z.of_nat NCPU)) as [D|D].
    2: { rewrite decide_False by lia. done. }
    unfold set_mp. rewrite kmodify_run. cbn [obind]. set (s1 := set_mpinfo _ s).
    rewrite IH; [|done|lia|lia|lia|done|by cbn; rewrite length_insert|cbn; lia].
    rewrite (learned_proc _ a v f r es) by (rewrite La; lia). cbn [mp_ncpu mpinfo set_mpinfo s1].
    repeat case_decide; (reflexivity || lia).
  - rewrite !bytes_at_cons in Be. destruct Be as (T & Ba & _).
    rewrite T, decide_False, decide_True by done. unfold ioapic_apicno, sizeof_mpioapic, set_mp.
    rewrite Ba, u32_small, kmodify_bind by lia. rewrite IH by (done || lia).
    cbn [mp_ncpu mpinfo set_mpinfo]. change (procs_of (EIoapic a r :: es)) with (procs_of es).
    unfold learned. cbn [ismp lapic mp_ncpu apicids bcpu ioapic_id]. change (procs_of (EIoapic a r :: es)) with (procs_of es).
    change (ioapics_of (EIoapic a r :: es)) with (a :: ioapics_of es). by rewrite last_cons_default.
  - rewrite bytes_at_cons in Be. destruct Be as (T & _). destruct Fe as [Ft _].
    rewrite T, !decide_False by (unfold MPPROC, MPIOAPIC; lia).
    rewrite decide_True by (unfold MPBUS, MPIOINTR, MPLINTR; lia). rewrite u32_small by lia.
    rewrite IH by (done || lia). done.
Qed.

Record mptable := MpTable {
  t_version : Z; t_checksum : Z; t_oem : list Z; t_lapic : Z; t_ext : list Z; t_entries : list mpentry
}.

Definition t_length (t : mptable) : Z := 44 + Z.of_nat (length (concat (entry_bytes <$> t_entries t))).
Definition table_bytes (t : mptable) : list Z :=
  (lit "PCMP" ++ [t_length t mod 256; t_length t / 256; t_version t; t_checksum t] ++ t_oem t ++
   [t_lapic t mod 256; t_lapic t / 2 ^ 8 mod 256; t_lapic t / 2 ^ 16 mod 256; t_lapic t / 2 ^ 24] ++ t_ext t) ++
  concat (entry_bytes <$> t_entries t).

Record table_ok (t : mptable) : Prop := {
  to_version : t_version t = 1 ∨ t_version t = 4;
  to_oem : length (t_oem t) = 28%nat;
  to_ext : length (t_ext t) = 4%nat;
  to_lapic : 0 ≤ t_lapic t < 2 ^ 32;
  to_entries : Forall entry_ok (t_entries t);
  to_length : t_length t < 2 ^ 16;
  to_sum : foldr Z.add 0 (table_bytes t) mod 256 = 0
}.

Lemma sum_loop_bytes m l : ∀ a acc, bytes_at m a l → sum_loop m a (length l) acc = acc + foldr Z.add 0 l.
Proof.
  induction l as [|b l IH]; intros a acc B; cbn [length sum_loop foldr]; [lia|].
  apply bytes_at_cons in B as [B1 B2]. rewrite IH, B1 by done. lia.
Qed.

Lemma get_bytes_at m a l : bytes_at m a l → get_bytes m a (Z.of_nat (length l)) = l.
Proof.
  unfold get_bytes. rewrite Nat2Z.id. revert a. induction l as [|b l IH]; intros a B; [done|].
  apply bytes_at_cons in B as [B1 B2]. cbn [length seq fmap list_fmap]. rewrite Z.add_0_r, B1. f_equal.
  rewrite <- (IH (a + 1)) at 2 by done. rewrite <- fmap_S_seq, <- list_fmap_compose.
  apply list_fmap_ext. intros i x _. simpl. f_equal. lia.
Qed.

Lemma le_word x :
  x = x mod 256 + 2 ^ 8 * (x / 2 ^ 8 mod 256) + 2 ^ 16 * (x / 2 ^ 16 mod 256) + 2 ^ 24 * (x / 2 ^ 24).
Proof.
  change (2 ^ 16) with (2 ^ 8 * 256). change (2 ^ 24) with (2 ^ 8 * 256 * 256). rewrite <- !Z.div_div by lia.
  change (2 ^ 8) with 256. pose proof (Z.div_mod x 256). pose proof (Z.div_mod (x / 256) 256).
  pose proof (Z.div_mod (x / 256 / 256) 256). lia.
Qed.

Section table.
Context (m : mem) (t : mptable) (conf : Z) (T : table_ok t) (B : bytes_at m conf (table_bytes t)).

Lemma header_length : Z.of_nat (length (table_bytes t)) = t_length t.
Proof.
  destruct T. unfold table_bytes, t_length. rewrite !length_app, to_oem0, to_ext0. simpl. lia.
Qed.

(** The fields of the header, and where the entries are. *)
Lemma header_fields : signature m conf "PCMP" = true ∧ conf_length m conf = t_length t ∧
  conf_version m conf = t_version t ∧ conf_lapicaddr m conf = t_lapic t ∧
  bytes_at m (conf + 44) (concat (entry_bytes <$> t_entries t)).
Proof.
  destruct T as [V O X L E Le S]. pose proof B as H. unfold table_bytes in H.
  assert (Hl : 44 ≤ t_length t) by (unfold t_length; lia).
  apply bytes_at_app in H as [H He]. rewrite !length_app, O, X in He. simpl in He.
  apply bytes_at_app in H as [Hs H]. apply bytes_at_app in H as [Hf H]. apply bytes_at_app in H as [_ H].
  apply bytes_at_app in H as [Ha _]. rewrite O in Ha. simpl in Hf, Ha.
  change (Z.of_nat 4) with 4 in *. change (Z.of_nat 28) with 28 in *. rewrite !bytes_at_cons in Hf, Ha.
  destruct Hf as (F1 & F2 & F3 & _). destruct Ha as (A1 & A2 & A3 & A4 & _). split_and!.
  - apply bool_decide_eq_true. exact (get_bytes_at m conf (lit "PCMP") Hs).
  - unfold conf_length, rd16. rewrite F1, F2. pose proof (Z.div_mod (t_length t) 256). lia.
  - unfold conf_version. replace (conf + 6) with (conf + 4 + 1 + 1) by lia. exact F3.
  - unfold conf_lapicaddr, rd32. replace (conf + 36) with (conf + 4 + 4 + 28) by lia. rewrite A1, A2.
    replace (conf + 4 + 4 + 28 + 2) with (conf + 4 + 4 + 28 + 1 + 1) by lia.
    replace (conf + 4 + 4 + 28 + 3) with (conf + 4 + 4 + 28 + 1 + 1 + 1) by lia. rewrite A3, A4. symmetry. apply le_word.
  - exact He.
Qed.

Lemma table_sum : sum m conf (t_length t) = 0.
Proof.
  unfold sum. rewrite <- header_length, Nat2Z.id, (sum_loop_bytes _ (table_bytes t)) by done. apply (to_sum _ T).
Qed.
End table.

Lemma candidate_nonzero m p : bytes_mem m → (ebda m = 0 → base_memory m ≠ 1024) → p ∈ candidates m → p ≠ 0.
Proof.
  intros B H. pose proof (word_range m 0x40E B). pose proof (word_range m 0x413 B).
  unfold candidates, area, ebda, base_memory in *. rewrite elem_of_app. intros [Hp|Hp].
  - repeat case_decide; [| |by apply elem_of_nil in Hp]; apply list_elem_of_fmap in Hp as (i & -> & _); lia.
  - apply list_elem_of_fmap in Hp as (i & -> & _). lia.
Qed.

Lemma entries_count es : Forall entry_ok es → 8 * Z.of_nat (length es) ≤ Z.of_nat (length (concat (entry_bytes <$> es))).
Proof.
  induction 1 as [|e es He _ IH]; [done|]. cbn [fmap list_fmap concat]. rewrite length_app. cbn [length].
  destruct e; simpl in He |- *; lia.
Qed.

Section init.
Context (m : mem) (p : Z) (t : mptable) (Bm : bytes_mem m) (Hb : ebda m = 0 → base_memory m ≠ 1024).
Context (Hp : head (filter (floating m) (candidates m)) = Some p).
Context (H0 : mp_physaddr m p ≠ 0) (Hl : mp_physaddr m p + t_length t < 2 ^ 32).
Context (T : table_ok t) (B : bytes_at m (mp_physaddr m p) (table_bytes t)).

Lemma mp_config_found : mp_config m = Some (p, mp_physaddr m p).
Proof.
  unfold mp_config. rewrite mp_search_spec, Hp by done. change (default 0 (Some p)) with p. cbv zeta.
  assert (p ≠ 0).
  { apply (candidate_nonzero m); [done..|]. eapply list_elem_of_filter. apply head_Some_elem_of in Hp. exact Hp. }
  rewrite decide_False by (intros [?|?]; done). destruct (header_fields m t _ T B) as (S & L & V & _).
  rewrite S, V, L, (table_sum m t _ T B). cbn [negb]. destruct T.
  rewrite decide_False by lia. by rewrite decide_False by lia.
Qed.

Lemma mp_init_run imcr c s : mpinfo s = mp0 →
  mp_init m imcr c s =
    if decide (Z.of_nat (length (procs_of (t_entries t))) ≤ Z.of_nat NCPU) then
      Ok () c (set_ports (ports s ++ if decide (mp_imcrp m p ≠ 0) then [(0x22, 0x70); (0x23, u8 (Z.lor imcr 1))] else [])
        (set_mpinfo (learned (Mp true (t_lapic t) 0 (replicate NCPU 0) 0 0) (t_entries t)) s))
    else Fault.
Proof.
  intros Hm. unfold mp_init, set_mp. rewrite kmodify_bind, mp_config_found, kmodify_bind.
  destruct (header_fields m t _ T B) as (_ & L & _ & A & Be). rewrite L, A. cbv zeta.
  pose proof (rd32_range m (p + 4) Bm) as R. unfold mp_physaddr in *. set (conf := rd32 m (p + 4)) in *.
  assert (L44 : 44 ≤ t_length t) by (unfold t_length; lia). unfold sizeof_mpconf. rewrite !u32_small by lia.
  replace (conf + t_length t) with (conf + 44 + Z.of_nat (length (concat (entry_bytes <$> t_entries t))))
    by (unfold t_length; lia).
  pose proof (to_entries _ T) as E. pose proof (entries_count _ E) as Cnt. cbn [mpinfo set_mpinfo]. rewrite Hm.
  cbn [ismp lapic mp_ncpu apicids bcpu ioapic_id mp0].
  set (s1 := set_mpinfo (Mp true _ _ _ _ _) _).
  assert (Run : mp_entries m (Z.to_nat (t_length t / 8 + 1)) (conf + 44)
     (conf + 44 + Z.of_nat (length (concat (entry_bytes <$> t_entries t)))) c s1 =
    if decide (Z.of_nat (length (procs_of (t_entries t))) ≤ Z.of_nat NCPU)
    then Ok () c (set_mpinfo (learned (mpinfo s1) (t_entries t)) s1) else Fault).
  { rewrite mp_entries_run; [done|done|lia|unfold t_length in Hl; lia| |done|done|cbn; lia].
    unfold t_length. enough (Z.of_nat (length (t_entries t)) ≤ (44 + Z.of_nat (length (concat (entry_bytes <$> t_entries t)))) / 8)
      by lia. apply Z.div_le_lower_bound; lia. }
  unfold mbind, M_bind. rewrite Run. case_decide; [|done]. cbn [obind].
  destruct (decide (mp_imcrp m p ≠ 0)).
  - unfold outb, kmodify. cbn [obind]. unfold set_ports, set_mpinfo. simpl. by rewrite <- app_assoc.
  - unfold set_ports. rewrite app_nil_r. by destruct s.
Qed.
End init.

(** C21 The firmware's description of the machine is read back: when the first valid
    floating pointer structure among the places searched points to a configuration
    table with up to eight processors, [mp_init] records the local APIC's address,
    the processors with their APIC numbers in order, the last one marked as the
    boot processor and the last I/O APIC, and masks external interrupts when the
    machine starts in PIC mode. *)
Theorem mp_init_learns m p t imcr c s :
  bytes_mem m → (ebda m = 0 → base_memory m ≠ 1024) → head (filter (floating m) (candidates m)) = Some p →
  mp_physaddr m p ≠ 0 → mp_physaddr m p + t_length t < 2 ^ 32 →
  table_ok t → bytes_at m (mp_physaddr m p) (table_bytes t) →
  (length (procs_of (t_entries t)) ≤ NCPU)%nat → mpinfo s = mp0 →
  let ps := procs_of (t_entries t) in
  ∃ s', mp_init m imcr c s = Ok () c s' ∧
    mpinfo s' = Mp true (t_lapic t) (Z.of_nat (length ps)) ((fst <$> ps) ++ replicate (NCPU - length ps) 0)
                   (boot_from 0 0 ps) (default 0 (last (ioapics_of (t_entries t)))) ∧
    ports s' = ports s ++ if decide (mp_imcrp m p ≠ 0) then [(0x22, 0x70); (0x23, u8 (Z.lor imcr 1))] else [].
Proof.
  intros Bm Hb Hp H0 Hl T B Hn Hm ps. rewrite (mp_init_run m p t) by done. rewrite decide_True by lia.
  eexists. split; [reflexivity|]. split; [|done]. cbn [mpinfo set_ports set_mpinfo]. unfold learned.
  cbn [ismp lapic mp_ncpu apicids bcpu ioapic_id]. fold ps. rewrite drop_replicate. done.
Qed.

(** With more than eight processors in the table, [mp_init] writes past the end of
    the array [cpus]. *)
Theorem mp_init_overruns m p t imcr c s :
  bytes_mem m → (ebda m = 0 → base_memory m ≠ 1024) → head (filter (floating m) (candidates m)) = Some p →
  mp_physaddr m p ≠ 0 → mp_physaddr m p + t_length t < 2 ^ 32 →
  table_ok t → bytes_at m (mp_physaddr m p) (table_bytes t) →
  (NCPU < length (procs_of (t_entries t)))%nat → mpinfo s = mp0 →
  mp_init m imcr c s = Fault.
Proof. intros. rewrite (mp_init_run m p t) by done. by rewrite decide_False by lia. Qed.

(** ** An example: two processors and an I/O APIC, described at [0x9F000] *)
Definition with_checksum (l : Z → list Z) : list Z := l (u8 (- foldr Z.add 0 (l 0))).
Definition example_floating : list Z :=
  with_checksum (λ ck, lit "_MP_" ++ [0; 0xF0; 0x09; 0; 1; 4; ck; 0; 0x80; 0; 0; 0]).
Definition example_table : mptable :=
  let t ck := MpTable 4 ck (replicate 28 32) 0xFEE00000 (replicate 4 0)
    [EProc 0 17 3 (replicate 16 0); EProc 1 17 1 (replicate 16 0); EOther 1 (replicate 7 0); EIoapic 2 (replicate 6 0)] in
  t (u8 (- foldr Z.add 0 (table_bytes (t 0)))).
(** The data area starts at [0x9FC00]; the structure is its second paragraph. *)
Definition example_memory : mem :=
  put_bytes 0x9F000 (table_bytes example_table) (put_bytes 0x9FC10 example_floating (put_bytes 0x40E [0xC0; 0x9F] ∅)).

Lemma put_bytes_mem l : ∀ a m, bytes_mem m → bytes_mem (put_bytes a l m).
Proof. induction l as [|b l IH]; intros a m H; [done|]. simpl. by apply IH, wr_bytes. Qed.

Lemma example_bytes : bytes_mem example_memory.
Proof. do 3 apply put_bytes_mem. intros x. unfold rd. rewrite lookup_empty. simpl. lia. Qed.

Lemma example_table_ok : table_ok example_table.
Proof. split; try (vm_compute; intuition congruence). repeat constructor. Qed.

Definition hw0 : hwst := Hw mp0 [] irqmask0 false 0 ∅ [] 0 blank_console.

Lemma mp_init_learns_witness : ∃ s', mp_init example_memory 0 (KCtx [] []) hw0 = Ok () (KCtx [] []) s' ∧
  mpinfo s' = Mp true 0xFEE00000 2 [0; 1; 0; 0; 0; 0; 0; 0] 0 2 ∧ ports s' = [(0x22, 0x70); (0x23, 1)].
Proof.
  destruct (mp_init_learns example_memory 0x9FC10 example_table 0 (KCtx [] []) hw0) as (s' & E & I & P).
  - apply example_bytes.
  - vm_compute. congruence.
  - vm_compute. reflexivity.
  - vm_compute. congruence.
  - vm_compute. reflexivity.
  - apply example_table_ok.
  - apply put_bytes_at. apply (bool_decide_unpack _). vm_compute. exact Logic.I.
  - vm_compute. lia.
  - reflexivity.
  - exists s'. split; [exact E|]. rewrite I, P. split; vm_compute; reflexivity.
Defined.
