(* ===== verification/Trap.v ===== *)
(** * Traps and interrupts (trap.c, the table of syscall.c)

    The whole machine as one processor sees it: the kernel's state, the buffer
    cache with its disk, the keyboard controller, and the interrupt controllers
    with the console.  [trap] dispatches system calls, device interrupts and
    faults to the components.

    A component only logs the channels it calls [wakeup] on; [waking] runs a
    handler and then makes the processes that sleep on those channels runnable,
    which no other code can tell from doing it inside the handler, as interrupts
    are off.  The file system part of the kernel's state and the buffer cache are
    two views of the same disk; BioRefine relates them.

    The result of [trap] says whether the trap returns to the code it interrupted;
    it does not when the process exits. *)
From S2P Require Import Prelude Kernel ProcData Rq SchedState SchedClass SchedMLFQ Sched SchedInv SchedEvents SchedBoot Kalloc CString Printf Console.
From S2P Require Import FsDisk Fs Mmu KState Syscall FileTable Exec Sysfile Process Bio BioInv BioRefine Intr Kbd.
Local Open Scope Z_scope.

Record machine := Machine { m_k : kst; m_bio : bio; m_shift : Z; m_kdata : list Z; m_hw : hwst }.

Definition set_mk v s := Machine v (m_bio s) (m_shift s) (m_kdata s) (m_hw s).
Definition set_mbio v s := Machine (m_k s) v (m_shift s) (m_kdata s) (m_hw s).
Definition set_mhw v s := Machine (m_k s) (m_bio s) (m_shift s) (m_kdata s) v.

Definition on_k {A} : M kst A → M machine A := focus (λ s, Some (m_k s)) set_mk.
Definition on_bio {A} : M bio A → M machine A := focus (λ s, Some (m_bio s)) set_mbio.
Definition on_hw {A} : M hwst A → M machine A := focus (λ s, Some (m_hw s)) set_mhw.
Definition on_kbd {A} : M kbdst A → M machine A :=
  focus (λ s, Some (Kbd (m_shift s) (m_kdata s) (hcons (m_hw s))))
        (λ t s, Machine (m_k s) (m_bio s) (kshift t) (kdata t) (set_hcons (kcons t) (m_hw s))).

(** ** Wakeups *)
Fixpoint wake_all (chs : list chan_id) : M machine unit :=
  match chs with [] => mret () | ch :: chs => on_k (on_sch (proc_wakeup ch));; wake_all chs end.

(** [m] with a log of its own, then its wakeups. *)
Definition waking {A} (m : M machine A) : M machine A := λ c s,
  (a ← m;
   chs ← (λ c s, Ok (woken c) (KCtx (held c) []) s);
   wake_all chs;;
   mret a) (KCtx (held c) []) s.

Section trap.
Context (fuel : nat) (ts forkret : Z) (stack : list Z).
Context (dev_read : Z → option (nat → Z → M fsst (option (list Z)))).
Context (dev_write : Z → option (nat → list Z → M fsst Z)).
(** What [procdump] needs, this processor's local APIC number register. *)
Context (mlfq : bool) (word : Z → Z) (id : Z).

(** [syscalls[]]; all handlers but that of [exit] return. *)
Definition returning (m : M kst Z) : M kst (option Z) := r ← m; mret (Some r).
Definition syscalls (n : sysno) : M kst (option Z) :=
  match n with
  | SYS_chdir => returning (sys_chdir fuel)
  | SYS_close => returning (sys_close fuel)
  | SYS_dup => returning sys_dup
  | SYS_exec => returning (sys_exec fuel dev_read ts stack)
  | SYS_exit => sys_exit fuel
  | SYS_fork => returning (sys_fork forkret)
  | SYS_fstat => returning (sys_fstat fuel)
  | SYS_getpid => returning sys_getpid
  | SYS_kill => returning sys_kill
  | SYS_link => returning (sys_link fuel dev_read dev_write)
  | SYS_mkdir => returning (sys_mkdir fuel dev_read dev_write)
  | SYS_mknod => returning (sys_mknod fuel dev_read dev_write)
  | SYS_open => returning (sys_open fuel dev_read dev_write)
  | SYS_pipe => returning (sys_pipe fuel)
  | SYS_read => returning (sys_read fuel dev_read)
  | SYS_sbrk => returning (sys_sbrk ts)
  | SYS_sleep => returning (sys_sleep fuel)
  | SYS_unlink => returning (sys_unlink fuel dev_read dev_write)
  | SYS_wait => returning (sys_wait fuel)
  | SYS_write => returning (sys_write fuel dev_write)
  end.

Definition eoi : M machine unit := on_hw lapic_eoi.
Definition mprint (fmt : list Z) (argp : list arg) : M machine unit := on_hw (on_hcons (cprintf fmt argp)).
(** [cpu()], called with interrupts off. *)
Definition mcpu : M machine Z := on_hw (cpu id false 0).

(** The cases of the [switch]. *)
Definition timer_case : M machine unit :=
  n ← mcpu;
  (if decide (n = 0) then
     acquire LkTicks;;
     on_k (kmodify (λ s, set_k_ticks s (s32 (k_ticks s + 1))));;
     on_k (on_sch (proc_wakeup ChTicks));;
     release LkTicks
   else mret ());;
  eoi.

Definition ide_case : M machine unit := waking (on_bio ide_intr);; eoi.

Definition kbd_case : M machine unit :=
  s ← kget;
  waking (on_kbd (kbd_intr (procdump (k_sch (m_k s)) mlfq word)));; eoi.

Definition spurious_case (tf : trapframe) : M machine unit :=
  n ← mcpu;
  mprint (lit "cpu%d: spurious interrupt at %x:%x" ++ [10]) [Num n; Num (tf_cs tf); Num (tf_eip tf)];;
  eoi.

(** Printing the name of a null [cp] reads through a bad pointer. *)
Definition fault_case (tf : trapframe) : M machine unit :=
  s ← kget;
  n ← mcpu;
  let me := cur_proc (m_k s) in
  if decide (me = None ∨ Z.land (tf_cs tf) 3 = 0) then
    p ← deref me;
    mprint (lit "unexpected trap %d from cpu %d eip %x, cp = [%s]" ++ [10])
           [Num (tf_trapno tf); Num n; Num (tf_eip tf); Ptr (Some (c_string (p_name p)))];;
    panic "trap"
  else
    p ← deref me;
    mprint (lit "pid %d %s: trap %d err %d on cpu %d eip %x -- kill proc" ++ [10])
           [Num (p_pid p); Ptr (Some (c_string (p_name p))); Num (tf_trapno tf); Num (tf_err tf); Num n;
            Num (tf_eip tf)];;
    on_k (cp_set (λ p, set_killed p true)).

Definition trap_switch (tf : trapframe) : M machine unit :=
  let n := tf_trapno tf in
  if decide (n = IRQ_OFFSET + IRQ_TIMER) then timer_case
  else if decide (n = IRQ_OFFSET + IRQ_IDE) then ide_case
  else if decide (n = IRQ_OFFSET + IRQ_KBD) then kbd_case
  else if decide (n = IRQ_OFFSET + IRQ_SPURIOUS) then spurious_case tf
  else fault_case tf.

(** [if(cp->killed) exit();] for a process that exists. *)
Definition exit_if_killed : M machine bool :=
  p ← on_k cp_get;
  if p_killed p then on_k (exit fuel);; mret false else mret true.

Definition trap_syscall (tf : trapframe) : M machine bool :=
  go ← exit_if_killed;
  if (go : bool) then
    on_k (cp_set (λ p, set_tf p tf));;
    r ← on_k (syscall syscalls);
    if (r : bool) then exit_if_killed else mret false
  else mret false.

Definition trap (tf : trapframe) : M machine bool :=
  if decide (tf_trapno tf = Z.of_nat T_SYSCALL) then trap_syscall tf
  else
    trap_switch tf;;
    s ← kget;
    go ← (if decide (cur_proc (m_k s) ≠ None ∧ Z.land (tf_cs tf) 3 = DPL_USER) then exit_if_killed else mret true);
    if (go : bool) then
      (if decide (tf_trapno tf = IRQ_OFFSET + IRQ_TIMER) then on_k (on_sch (timer_resched true)) else mret ());;
      mret true
    else mret false.
End trap.

(** ** Running the handlers *)
Lemma on_kbd_Ok {A} (m : M kbdst A) c s a c' t :
  m c (Kbd (m_shift s) (m_kdata s) (hcons (m_hw s))) = Ok a c' t →
  on_kbd m c s = Ok a c' (Machine (m_k s) (m_bio s) (kshift t) (kdata t) (set_hcons (kcons t) (m_hw s))).
Proof.
  exact (focus_Ok (λ s, Some (Kbd (m_shift s) (m_kdata s) (hcons (m_hw s))))
    (λ t s, Machine (m_k s) (m_bio s) (kshift t) (kdata t) (set_hcons (kcons t) (m_hw s))) m c s _ _ _ _ eq_refl).
Qed.

(** What a set of wakeups does to the processes. *)
Definition awakened (chs : list chan_id) (s s' : schst) : Prop :=
  ∀ y pr, procs s !! y = Some pr → ∃ pr', procs s' !! y = Some pr' ∧
    p_chan pr' = p_chan pr ∧ p_killed pr' = p_killed pr ∧
    p_state pr' = if decide (p_state pr = SLEEPING ∧ p_chan pr ∈ chs) then RUNNABLE else p_state pr.

Lemma woke_awakened ch k q s s' lv p : sched_inv k q s lv p → woke ch (seq 0 NPROC) s s' → awakened [ch] s s'.
Proof.
  intros J W y pr Hy. destruct (wk_procs _ _ _ _ W y pr Hy) as (ts & rq' & E). eexists. split; [exact E|].
  pose proof (mq_len _ _ (ri_mlfq _ _ _ _ (ru_rq _ _ _ _ _ (si_run _ _ _ _ _ J)))) as Hlen.
  pose proof (lookup_lt_Some _ _ _ Hy) as Hlt.
  assert (Hs : y ∈ seq 0 NPROC) by (apply elem_of_seq; lia).
  assert (D : (y ∈ seq 0 NPROC ∧ wakes s ch y = true) ↔ (p_state pr = SLEEPING ∧ p_chan pr ∈ [ch])).
  { unfold wakes. rewrite Hy, bool_decide_eq_true, list_elem_of_singleton. tauto. }
  destruct (decide (y ∈ seq 0 NPROC ∧ wakes s ch y = true)) as [X|X];
    [rewrite (decide_True (P := p_state pr = SLEEPING ∧ _)) by (by apply D)
    |rewrite (decide_False (P := p_state pr = SLEEPING ∧ _)) by (by rewrite <- D)]; done.
Qed.

Lemma awakened_trans ch chs s1 s2 s3 : awakened [ch] s1 s2 → awakened chs s2 s3 → awakened (ch :: chs) s1 s3.
Proof.
  intros H1 H2 y pr Hy. destruct (H1 y pr Hy) as (pr2 & Hy2 & C2 & K2 & S2).
  destruct (H2 y pr2 Hy2) as (pr3 & Hy3 & C3 & K3 & S3). exists pr3. split_and!; [done|congruence..|].
  rewrite S3, C2. clear S3.
  destruct (decide (p_state pr = SLEEPING ∧ p_chan pr ∈ [ch])) as [[A B%list_elem_of_singleton]|X].
  - rewrite (decide_True (P := p_state pr = SLEEPING ∧ _)) by (split; [done|inl]).
    rewrite decide_False; [done|]. rewrite S2. by intros [? _].
  - rewrite S2. destruct (decide (p_state pr = SLEEPING ∧ p_chan pr ∈ chs)) as [[A B]|Y].
    + rewrite decide_True; [done|]. split; [done|by apply list_elem_of_further].
    + rewrite decide_False; [done|]. rewrite elem_of_cons. rewrite list_elem_of_singleton in X. tauto.
Qed.

Lemma wake_all_run k q p h chs : LkProcTable ∉ h → LkRq q ∉ h → ∀ s lv, sched_inv k q (k_sch (m_k s)) lv p →
  ∃ t lv', wake_all chs (KCtx h []) s = Ok () (KCtx h []) (set_mk (set_k_sch (m_k s) t) s) ∧
    sched_inv k q t lv' p ∧ awakened chs (k_sch (m_k s)) t.
Proof.
  intros H1 H2. induction chs as [|ch chs IH]; intros s lv J; cbn [wake_all].
  { exists (k_sch (m_k s)), lv. split; [by destruct s as [[] ? ? ? ?]|]. split; [done|].
    intros y pr Hy. exists pr. split_and!; try done. rewrite decide_False; [done|]. intros [_ X]. by apply elem_of_nil in X. }
  destruct (proc_wakeup_spec (KCtx h []) k q (k_sch (m_k s)) lv p ch J H1 H2) as (t & E & W & J').
  unfold on_k. erewrite bind_Ok by (eapply focus_Ok; [reflexivity|]; apply on_sch_Ok; exact E).
  destruct (IH (set_mk (set_k_sch (m_k s) t) s) _ J') as (t' & lv' & E' & J'' & A). exists t', lv'.
  split; [exact E'|]. split; [done|]. eapply awakened_trans; [by eapply woke_awakened|exact A].
Qed.

Lemma waking_run {A} (m : M machine A) k q p h w a chs s s1 lv : LkProcTable ∉ h → LkRq q ∉ h →
  m (KCtx h []) s = Ok a (KCtx h chs) s1 → sched_inv k q (k_sch (m_k s1)) lv p →
  ∃ t lv', waking m (KCtx h w) s = Ok a (KCtx h []) (set_mk (set_k_sch (m_k s1) t) s1) ∧
    sched_inv k q t lv' p ∧ awakened chs (k_sch (m_k s1)) t.
Proof.
  intros H1 H2 E J. unfold waking. cbn [held]. rewrite (bind_Ok _ _ _ _ _ _ _ E).
  erewrite bind_Ok by reflexivity. cbn [held woken].
  destruct (wake_all_run k q p h chs H1 H2 s1 lv J) as (t & lv' & E' & R). exists t, lv'. split; [|exact R].
  by rewrite (bind_Ok _ _ _ _ _ _ _ E').
Qed.

Lemma eoi_run c s : ∃ ws, eoi c s = Ok () c (set_mhw (set_lapicws ws (m_hw s)) s).
Proof.
  unfold eoi, on_hw, lapic_eoi, focus. rewrite kget_bind. case_decide as D.
  - unfold lapicw. rewrite kget_bind, decide_False by done. by eexists.
  - exists (lapicws (m_hw s)). by destruct s as [? ? ? ? []].
Qed.

(** The current process of the scheduler's invariant. *)
Lemma inv_current k q s lv p : sched_inv k q (k_sch s) lv p →
  ∃ pr, procs (k_sch s) !! p = Some pr ∧ p_state pr = RUNNING ∧ cur_proc s = Some pr.
Proof.
  intros J. pose proof (si_run _ _ _ _ _ J) as I. destruct (ru_running _ _ _ _ _ I) as (pr & Hp & St).
  exists pr. split_and!; [done..|]. unfold cur_proc, running. pose proof (ru_cur _ _ _ _ _ I) as C. unfold cur in C.
  destruct (cpus (k_sch s) !! cpu_id (k_sch s)) as [u|]; [|done]. simpl in *. rewrite C. simpl. by rewrite Hp.
Qed.

Section traps.
Context (fuel : nat) (ts forkret : Z) (stack : list Z).
Context (dev_read : Z → option (nat → Z → M fsst (option (list Z)))).
Context (dev_write : Z → option (nat → list Z → M fsst Z)).
Context (mlfq : bool) (word : Z → Z) (id : Z).
Notation trap := (trap fuel ts forkret stack dev_read dev_write mlfq word id).
Notation trap_switch := (trap_switch mlfq word id).

Lemma exit_if_killed_run c s pr : cur_proc (m_k s) = Some pr → p_killed pr = false →
  exit_if_killed fuel c s = Ok true c s.
Proof.
  intros E K. unfold exit_if_killed, on_k. erewrite bind_Ok by (eapply focus_Ok; [reflexivity|]; by apply cp_get_run).
  rewrite K. by destruct s.
Qed.

(** After an interrupt that leaves a live process current. *)
Lemma trap_device tf c s c' s' pr :
  tf_trapno tf ≠ Z.of_nat T_SYSCALL → tf_trapno tf ≠ IRQ_OFFSET + IRQ_TIMER →
  trap_switch tf c s = Ok () c' s' → cur_proc (m_k s') = Some pr → p_killed pr = false →
  trap tf c s = Ok true c' s'.
Proof.
  intros H1 H2 E C K. unfold trap. rewrite decide_False by done. rewrite (bind_Ok _ _ _ _ _ _ _ E), kget_bind.
  assert (G : (if decide (cur_proc (m_k s') ≠ None ∧ Z.land (tf_cs tf) 3 = DPL_USER) then exit_if_killed fuel else mret true)
    c' s' = Ok true c' s') by (case_decide; [by eapply exit_if_killed_run|done]).
  rewrite (bind_Ok _ _ _ _ _ _ _ G). rewrite decide_False by done. done.
Qed.

(** What every interrupt handler leaves: the scheduler's invariant with the same
    process running, the processes that slept on the channels [chs] runnable, and
    the other parts of the kernel as they were. *)
Record kept (k : class_id) (q p : nat) (chs : list chan_id) (s s' : machine) : Prop := {
  kp_inv : ∃ lv, sched_inv k q (k_sch (m_k s')) lv p;
  kp_awake : awakened chs (k_sch (m_k s)) (k_sch (m_k s'));
  kp_rest : m_k s' = set_k_sch (m_k s) (k_sch (m_k s'))
}.

Lemma kept_alive k q p chs s s' lv pr : sched_inv k q (k_sch (m_k s)) lv p → kept k q p chs s s' →
  cur_proc (m_k s) = Some pr → ∃ pr', cur_proc (m_k s') = Some pr' ∧ p_killed pr' = p_killed pr.
Proof.
  intros J [[lv' J'] A _] C. destruct (inv_current _ _ _ _ _ J) as (pr0 & P0 & _ & C0). simplify_eq.
  destruct (inv_current _ _ _ _ _ J') as (pr1 & P1 & _ & C1). destruct (A p pr P0) as (pr2 & P2 & _ & K & _).
  simplify_eq. by exists pr1.
Qed.

(** C16 A keyboard interrupt: the console takes the keys, and if they complete a line
    every process waiting for input becomes runnable. *)
Theorem trap_keyboard tf w s k q lv p pr Q E :
  tf_trapno tf = IRQ_OFFSET + IRQ_KBD → sched_inv k q (k_sch (m_k s)) lv p →
  cur_proc (m_k s) = Some pr → p_killed pr = false →
  tables_ok (k_sch (m_k s)) mlfq → alive (hcons (m_hw s)) → irep (input (hcons (m_hw s))) Q E →
  0 ≤ m_shift s < 128 → Forall (λ b, 0 ≤ b < 256) (m_kdata s) →
  let '(Q', E', chs) := foldl line_key (Q, E, []) (decode (m_shift s) (m_kdata s)).2 in
  ∃ s', trap tf (KCtx [] w) s = Ok true (KCtx [] []) s' ∧ kept k q p chs s s' ∧
    irep (input (hcons (m_hw s'))) Q' E' ∧ alive (hcons (m_hw s')) ∧ m_kdata s' = [] ∧ m_bio s' = m_bio s.
Proof.
  intros Ht J C Kl T A R Hs F.
  pose proof (kbd_intr_run (k_sch (m_k s)) mlfq word T [] (not_elem_of_nil _) (not_elem_of_nil _) (not_elem_of_nil _)
    (λ q, not_elem_of_nil _) (Kbd (m_shift s) (m_kdata s) (hcons (m_hw s))) Q E [] Hs F R A) as K. cbn [kshift kdata] in K.
  destruct (foldl line_key _ _) as [[Q' E'] chs]. destruct K as (cons' & K & R' & A').
  set (s1 := Machine (m_k s) (m_bio s) (decode (m_shift s) (m_kdata s)).1 [] (set_hcons cons' (m_hw s))).
  destruct (waking_run (on_kbd (kbd_intr (procdump (k_sch (m_k s)) mlfq word))) k q p [] w () chs s s1 lv)
    as (t & lv' & W & J' & Aw); [apply not_elem_of_nil|apply not_elem_of_nil| |exact J|].
  { exact (on_kbd_Ok _ _ _ _ _ _ K). }
  destruct (eoi_run (KCtx [] []) (set_mk (set_k_sch (m_k s1) t) s1)) as (ws & Eo).
  set (s2 := set_mhw _ _) in Eo. exists s2.
  assert (Kp : kept k q p chs s s2) by (split; [by exists lv'|done|done]).
  destruct (kept_alive _ _ _ _ _ _ _ _ J Kp C) as (pr' & C' & K').
  split; [|done]. eapply trap_device; [by rewrite Ht|by rewrite Ht| |exact C'|congruence].
  unfold Trap.trap_switch. rewrite Ht. unfold kbd_case. rewrite !(decide_False (P := _ = _)) by done.
  rewrite decide_True by done. rewrite kget_bind, (bind_Ok _ _ _ _ _ _ _ W). exact Eo.
Qed.
(** C17 A disk interrupt: the request at the head of the queue is finished, its buffer
    holds the block of the disk, the next request is started, and every process
    waiting for the buffer becomes runnable. *)
Theorem trap_disk tf w s k q lv p pr D b rest before t :
  tf_trapno tf = IRQ_OFFSET + IRQ_IDE → sched_inv k q (k_sch (m_k s)) lv p →
  cur_proc (m_k s) = Some pr → p_killed pr = false →
  (∀ x, D x → addressable x) → repr D (b :: rest) before t → m_bio s = complete before →
  ∃ s' x d, trap tf (KCtx [] w) s = Ok true (KCtx [] []) s' ∧ kept k q p [ChBuf b] s s' ∧
    repr D rest (m_bio s') t ∧ buf_at before b x ∧ disk t !! key x = Some d ∧ buf_at (m_bio s') b (done_buf x d) ∧
    hcons (m_hw s') = hcons (m_hw s) ∧ m_kdata s' = m_kdata s.
Proof.
  intros Ht J C Kl HD Rp Hb. destruct (interrupt_run D HD b rest before t Rp) as (x & d & bio' & B1 & Dk & I & R' & B2 & _).
  unfold interrupt in I. rewrite <- Hb in I. set (s1 := set_mbio bio' s).
  destruct (waking_run (on_bio ide_intr) k q p [] w () [ChBuf b] s s1 lv)
    as (t' & lv' & W & J' & Aw); [apply not_elem_of_nil|apply not_elem_of_nil| |exact J|].
  { exact (focus_Ok (λ s, Some (m_bio s)) set_mbio ide_intr _ s _ _ _ _ eq_refl I). }
  destruct (eoi_run (KCtx [] []) (set_mk (set_k_sch (m_k s1) t') s1)) as (ws & Eo).
  set (s2 := set_mhw _ _) in Eo. exists s2, x, d.
  assert (Kp : kept k q p [ChBuf b] s s2) by (split; [by exists lv'|done|done]).
  destruct (kept_alive _ _ _ _ _ _ _ _ J Kp C) as (pr' & C' & K').
  split; [|done]. eapply trap_device; [by rewrite Ht|by rewrite Ht| |exact C'|congruence].
  unfold Trap.trap_switch, ide_case. rewrite Ht, !(decide_False (P := _ = _)) by done.
  rewrite decide_True by done. rewrite (bind_Ok _ _ _ _ _ _ _ W). exact Eo.
Qed.

(** The end of a timer interrupt for a process that is not the idle process. *)
Lemma resched_run k q t lv p h : sched_inv k q t lv p → ¬ idles t p → held h = [] →
  ∃ h' t', timer_resched true h t = Ok () h' t' ∧ quiet h' ∧ ∃ lv' n, sched_inv k q t' lv' n.
Proof.
  intros J Ni Hh. pose proof (si_run _ _ _ _ _ J) as I. pose proof (ru_rq _ _ _ _ _ I) as R.
  destruct (ru_running _ _ _ _ _ I) as (pr & Hp & St). destruct (ru_idle _ _ _ _ _ I) as (i & Hi & _).
  unfold timer_resched. rewrite (cp_bind _ _ _ _ (ru_cur _ _ _ _ _ I)), (get_proc_at_bind _ _ _ _ _ Hp).
  rewrite decide_True by done. rewrite (my_idle_bind _ _ _ _ Hi), (my_rq_bind R).
  assert (Ne : Some p ≠ Some i).
  { intros [= ->]. apply Ni. unfold idles. by eapply list_elem_of_lookup_2. }
  rewrite bool_decide_false by done. cbn [andb]. rewrite ret_bind.
  destruct (proc_tick_spec h k q t lv p J Hh) as (h' & t' & lv' & n & E & J' & Qt).
  { intros _ X. destruct Ne. congruence. }
  exists h', t'. eauto.
Qed.

(** A timer interrupt on processor 0 while a process runs: the clock advances,
    every process whose sleep waits for it becomes runnable, and the process's
    time slice is charged, which may hand the processor to another process. *)
Theorem trap_timer tf w s k q lv p pr :
  tf_trapno tf = IRQ_OFFSET + IRQ_TIMER → sched_inv k q (k_sch (m_k s)) lv p → ¬ idles (k_sch (m_k s)) p →
  cur_proc (m_k s) = Some pr → p_killed pr = false → Z.shiftr id 24 = 0 →
  ∃ c' s1 s', trap tf (KCtx [] w) s = Ok true c' s' ∧ quiet c' ∧
    kept k q p [ChTicks] s (set_mk (set_k_ticks (m_k s1) (k_ticks (m_k s))) s1) ∧
    k_ticks (m_k s1) = s32 (k_ticks (m_k s) + 1) ∧
    m_k s' = set_k_sch (m_k s1) (k_sch (m_k s')) ∧ (∃ lv' n, sched_inv k q (k_sch (m_k s')) lv' n).
Proof.
  intros Ht J Ni C Kl Hid. set (c1 := KCtx [LkTicks] w).
  set (s0 := set_mk (set_k_ticks (m_k s) (s32 (k_ticks (m_k s) + 1))) s).
  destruct (proc_wakeup_spec c1 k q (k_sch (m_k s0)) lv p ChTicks J) as (t & E & W & J'); [simpl; inl..|].
  set (s1 := set_mk (set_k_sch (m_k s0) t) s0). destruct (eoi_run (KCtx [] w) s1) as (ws & Eo). set (s2 := set_mhw _ _) in Eo.
  assert (Sw : trap_switch tf (KCtx [] w) s = Ok () (KCtx [] w) s2).
  { unfold Trap.trap_switch. rewrite Ht, decide_True by done. unfold timer_case, mcpu, on_hw, cpu.
    erewrite bind_Ok.
    2: { eapply (focus_Ok (λ s, Some (m_hw s)) set_mhw); [reflexivity|]. rewrite ret_bind, kget_bind.
         instantiate (1 := m_hw s). instantiate (1 := KCtx [] w). instantiate (1 := 0). by case_decide; rewrite ?Hid. }
    rewrite decide_True by done. replace (set_mhw (m_hw s) s) with s by (by destruct s).
    erewrite bind_Ok; [exact Eo|]. rewrite (bind_Ok _ _ _ _ _ _ _ (acquire_ok LkTicks (KCtx [] w) s (not_elem_of_nil _))).
    erewrite bind_Ok by (eapply (focus_Ok (λ s, Some (m_k s)) set_mk); reflexivity).
    erewrite bind_Ok by (eapply (focus_Ok (λ s, Some (m_k s)) set_mk); [reflexivity|]; apply on_sch_Ok; exact E).
    apply release_ok, not_elem_of_nil. }
  assert (Kp : kept k q p [ChTicks] s (set_mk (set_k_ticks (m_k s2) (k_ticks (m_k s))) s2)).
  { split; [by eexists|by eapply woke_awakened|by destruct s as [[] ? ? ? ?]]. }
  destruct (kept_alive _ _ _ _ _ _ _ _ J Kp C) as (pr' & C' & K').
  destruct (resched_run k q t _ p (KCtx [] w) J') as (h' & t' & Er & Qt & In); [unfold idles; by rewrite (wk_idle _ _ _ _ W)|done|].
  exists h', s2, (set_mk (set_k_sch (m_k s2) t') s2). split_and!; try done.
  unfold Trap.trap. rewrite decide_False by (by rewrite Ht). rewrite (bind_Ok _ _ _ _ _ _ _ Sw), kget_bind.
  assert (G : (if decide (cur_proc (m_k s2) ≠ None ∧ Z.land (tf_cs tf) 3 = DPL_USER) then exit_if_killed fuel else mret true)
    (KCtx [] w) s2 = Ok true (KCtx [] w) s2).
  { case_decide; [|done]. eapply exit_if_killed_run; [exact C'|congruence]. }
  rewrite (bind_Ok _ _ _ _ _ _ _ G), decide_True by done. erewrite bind_Ok; [reflexivity|].
  unfold on_k. eapply (focus_Ok (λ s, Some (m_k s)) set_mk); [reflexivity|]. by apply on_sch_Ok.
Qed.
(** [Q] holds if and when the code returns, whatever other threads did while it slept. *)
Fixpoint when_returns {S A} (o : outcome S A) (Q : A → S → Prop) : Prop :=
  match o with
  | Ok a _ s => Q a s
  | Sleep _ _ _ _ k => ∀ s', when_returns (k s') Q
  | _ => True
  end.

Lemma when_bind {S A B} (m : M S A) (f : A → M S B) c s (P : A → S → Prop) Q :
  when_returns (m c s) P → (∀ a c s, P a s → when_returns (f a c s) Q) → when_returns ((m ≫= f) c s) Q.
Proof.
  unfold mbind, M_bind. generalize (m c s) as o. clear c s. intros o Ho Hf.
  induction o; simpl in *; auto.
Qed.

Lemma when_any {S A} (o : outcome S A) : when_returns o (λ _ _, True).
Proof. induction o; simpl; auto. Qed.

(** The current process of the machine is not killed. *)
Definition unkilled (s : machine) : Prop := ∀ pr, cur_proc (m_k s) = Some pr → p_killed pr = false.

Lemma exit_if_killed_returns c s : when_returns (exit_if_killed fuel c s) (λ go s', go = true → unkilled s').
Proof.
  unfold exit_if_killed. eapply (when_bind _ _ _ _ (λ pr s', cur_proc (m_k s') = Some pr)).
  - unfold on_k, focus, cp_get. rewrite kget_bind. destruct (cur_proc (m_k s)) eqn:E; [|done]. simpl. by destruct s.
  - intros pr c' s' E. destruct (p_killed pr) eqn:K.
    + eapply when_bind; [apply when_any|]. by intros ? ? ? _.
    + simpl. intros _ pr' E'. congruence.
Qed.

(** C15 A trap from user mode, a timer interrupt apart, returns to the process only if
    it has not been killed, by the trap itself or by others while a system call
    slept. *)
Theorem trap_killed_stays tf c s :
  tf_trapno tf ≠ IRQ_OFFSET + IRQ_TIMER → (tf_trapno tf = Z.of_nat T_SYSCALL ∨ Z.land (tf_cs tf) 3 = DPL_USER) →
  when_returns (trap tf c s) (λ go s', go = true → unkilled s').
Proof.
  intros Ht Hu. unfold Trap.trap. destruct (decide (tf_trapno tf = Z.of_nat T_SYSCALL)) as [Hs|Hs].
  - unfold trap_syscall. eapply when_bind; [apply when_any|]. intros [|] c1 s1 _; [|done].
    eapply when_bind; [apply when_any|]. intros [] c2 s2 _.
    eapply when_bind; [apply when_any|]. intros [|] c3 s3 _; [apply exit_if_killed_returns|done].
  - destruct Hu as [?|Hu]; [done|]. eapply when_bind; [apply when_any|]. intros [] c1 s1 _. rewrite kget_bind.
    eapply (when_bind _ _ _ _ (λ go s', go = true → unkilled s')).
    + destruct (decide (cur_proc (m_k s1) ≠ None ∧ Z.land (tf_cs tf) 3 = DPL_USER)) as [D|D];
        [apply exit_if_killed_returns|]. simpl. intros _ pr E. destruct D. split; [by rewrite E|done].
    + intros [|] c2 s2 K; [|done]. rewrite decide_False by done. rewrite ret_bind. simpl. auto.
Qed.

Lemma cp_killed_set c s : when_returns (on_k (cp_set (λ p, set_killed p true)) c s)
  (λ _ s', ∃ pr, cur_proc (m_k s') = Some pr ∧ p_killed pr = true).
Proof.
  unfold on_k, focus, cp_set, on_sch, focus, at_cp, cp, get_cpu. unfold mbind, M_bind, kget, deref, mret, M_ret. simpl.
  set (v := k_sch (m_k s)).
  destruct (cpus v !! cpu_id v) as [u|] eqn:Eu; [|done]. simpl. destruct (curproc u) as [i|] eqn:Ei; [|done].
  simpl. unfold at_proc, get_proc_at. unfold mbind, M_bind, kget, deref, mret, M_ret. simpl.
  destruct (procs v !! i) as [pr|] eqn:Ep; [|done]. simpl. exists (set_killed pr true). split; [|done].
  unfold cur_proc, running. simpl. rewrite Eu. simpl. rewrite Ei. simpl.
  by rewrite list_lookup_insert_eq by (by eapply lookup_lt_Some).
Qed.

(** A process that causes any other trap in user mode never gets back to it. *)
Theorem trap_fault_exits tf c s :
  tf_trapno tf ≠ Z.of_nat T_SYSCALL → Z.land (tf_cs tf) 3 = DPL_USER →
  tf_trapno tf ∉ (λ i, IRQ_OFFSET + i) <$> [IRQ_TIMER; IRQ_IDE; IRQ_KBD; IRQ_SPURIOUS] →
  when_returns (trap tf c s) (λ go _, go = false).
Proof.
  intros Hs Hu Hn. unfold Trap.trap. rewrite decide_False by done. cbn [fmap list_fmap] in Hn.
  rewrite !not_elem_of_cons in Hn. destruct Hn as (N1 & N2 & N3 & N4 & _).
  apply (when_bind _ _ _ _ (λ _ s', ∃ pr, cur_proc (m_k s') = Some pr ∧ p_killed pr = true)).
  - unfold Trap.trap_switch. rewrite !decide_False by done. unfold fault_case. rewrite kget_bind.
    eapply when_bind; [apply when_any|]. intros n c1 s1 _. rewrite Hu.
    destruct (decide (cur_proc (m_k s) = None ∨ DPL_USER = 0)) as [D|D].
    + eapply when_bind; [apply when_any|]. intros ? ? ? _. eapply when_bind; [apply when_any|]. done.
    + eapply when_bind; [apply when_any|]. intros ? ? ? _. eapply when_bind; [apply when_any|].
      intros ? ? ? _. apply cp_killed_set.
  - intros [] c1 s1 (pr & E & K). rewrite kget_bind, (decide_True (P := cur_proc (m_k s1) ≠ None ∧ _)) by (split; [by rewrite E|done]).
    eapply (when_bind _ _ _ _ (λ go s', go = false)).
    + unfold exit_if_killed, on_k. erewrite bind_Ok by (eapply focus_Ok; [reflexivity|]; by apply cp_get_run).
      rewrite K. eapply when_bind; [apply when_any|]. done.
    + intros go c2 s2 ->. done.
Qed.
End traps.

(** ** Examples *)
Definition one_process (cfg : class_id) : kst :=
  KSt (idle_running cfg) (KMem 0 ∅) ∅ [] (FsSt ∅ [] [] None) ∅ 0 (Segs 0 0 []).
Definition example (b : bio) (keys : list Z) : machine :=
  Machine (one_process sched_class_MLFQ) b 0 keys (Hw (Mp false 0 0 [] 0 0) [] irqmask0 false 0 ∅ [] 0 blank_console).
Definition user_frame (trapno : Z) : trapframe :=
  Trapframe 0 0 0 0 0 0 0 0 0 0 trapno 0 0 (SEG_UCODE * 8 + 3) 0 0 0.
Notation example_trap := (trap 100 0 0 [] (λ _, None) (λ _, None) true (λ _, 0) 0).

Lemma idle_tables_ok : tables_ok (idle_running sched_class_MLFQ) true.
Proof.
  split.
  - intros [|i] Hi; [|simpl in Hi; lia]. do 5 eexists. do 5 (split; [reflexivity|]). intros _. do 4 eexists.
    do 3 (split; [reflexivity|]). reflexivity.
  - assert (Q : ∀ i c, cpus (idle_running sched_class_MLFQ) !! i = Some c → cpu_rq c = Some i).
    { intros i c. do 8 (destruct i as [|i]; [by intros [= <-]|]). done. }
    intros i j c d q Hi Hj Hc Hd. apply Q in Hi, Hj. congruence.
  - apply Forall_forall. intros pr Hp. assert (p_name pr = p_name proc_zero) as ->.
    { apply list_elem_of_lookup in Hp as [i Hp]. apply list_lookup_insert_Some in Hp as [(_ & <- & _)|[_ Hp]]; [done|].
      apply list_lookup_insert_Some in Hp as [(_ & <- & _)|[_ Hp]]; [done|]. by apply lookup_replicate in Hp as [-> _]. }
    apply (bool_decide_unpack _). by vm_compute.
Qed.

(** The return key is pressed. *)
Lemma trap_keyboard_witness : ∃ s',
  example_trap (user_frame 33) (KCtx [] []) (example (boot_bio 0x40) [0x1C]) = Ok true (KCtx [] []) s' ∧
  irep (input (hcons (m_hw s'))) [10] [] ∧ kept sched_class_MLFQ 0 0 [ChInput] (example (boot_bio 0x40) [0x1C]) s'.
Proof.
  destruct (trap_keyboard 100 0 0 [] (λ _, None) (λ _, None) true (λ _, 0) 0 (user_frame 33) []
    (example (boot_bio 0x40) [0x1C]) sched_class_MLFQ 0 (booted_levels sched_class_MLFQ 0) 0 (set_state proc_zero RUNNING) [] [])
    as (s' & E & K & I & _).
  - reflexivity.
  - apply idle_running_inv.
  - reflexivity.
  - reflexivity.
  - apply idle_tables_ok.
  - apply blank_alive.
  - apply blank_irep.
  - simpl. lia.
  - repeat constructor; lia.
  - exists s'. split; [exact E|]. split; [exact I|exact K].
Defined.

(** A buffer cache with a read of the disk's only block under way. *)
Lemma pending_read : ∃ b before, repr only_block [b] before (set_bbusy [(1, 5)] boot_fs).
Proof.
  destruct (binit_related only_block only_block_addressable BioRefine.no_locks (boot_bio 0x40) boot_fs) as (s & E & [q R] & _);
    [done|apply boot_zero|done|apply boot_ready|done|done|apply only_block_there|].
  assert (Es : Some s = match binit BioRefine.no_locks (boot_bio 0x40) with Ok _ _ s => Some s | _ => None end) by (by rewrite E).
  vm_compute in Es. injection Es as ->. pose proof (rp_inv _ _ _ _ R) as I.
  assert (q = []) as -> by (destruct q as [|b q]; [done|]; by destruct (bi_chain _ _ _ I)).
  set (s := Bio.Bio _ _ _ _ _ _) in *.
  destruct (buf_exists only_block [] s 0 I) as (x & Hx); [unfold NBUF; lia|].
  destruct (take_fresh only_block only_block_addressable [] s boot_fs 0 x 1 5 R Hx) as (R' & _ & _);
    [destruct Hx as [_ Hx]; injection Hx as <-; reflexivity|done| |].
  { intros i y [Hi Hy] [L|L]; do 10 (destruct i as [|i]; [injection Hy as <-; discriminate L|]); unfold NBUF in Hi; lia. }
  exists 0%nat. eexists. apply (enq_repr only_block only_block_addressable [] _ 0 _
    (set_key 1 5 (set_flags true false false x)) (rp_inv _ _ _ _ R')
    (buf_at_upd_eq s 0 x _ Hx) (not_elem_of_nil _)) in R'; [exact R'|done|done|done|by left].
Qed.

(** Its interrupt. *)
Lemma trap_disk_witness : ∃ b before s' x d,
  example_trap (user_frame 46) (KCtx [] []) (example (complete before) []) = Ok true (KCtx [] []) s' ∧
  buf_at (m_bio s') b (done_buf x d).
Proof.
  destruct pending_read as (b & before & R).
  destruct (trap_disk 100 0 0 [] (λ _, None) (λ _, None) true (λ _, 0) 0 (user_frame 46) []
    (example (complete before) []) sched_class_MLFQ 0 (booted_levels sched_class_MLFQ 0) 0 (set_state proc_zero RUNNING)
    only_block b [] before (set_bbusy [(1, 5)] boot_fs)) as (s' & x & d & E & _ & _ & _ & _ & B & _).
  - reflexivity.
  - apply idle_running_inv.
  - reflexivity.
  - reflexivity.
  - apply only_block_addressable.
  - exact R.
  - reflexivity.
  - exists b, before, s', x, d. split; [exact E|exact B].
Defined.

(** A system call with an unknown number. *)
Lemma trap_killed_stays_witness :
  when_returns (example_trap (user_frame 48) (KCtx [] []) (example (boot_bio 0x40) [])) (λ go s', go = true → unkilled s').
Proof.
  apply (trap_killed_stays 100 0 0 [] (λ _, None) (λ _, None) true (λ _, 0) 0 (user_frame 48)).
  - discriminate.
  - left. reflexivity.
Defined.
