(* ===== verification/Main.v ===== *)
(** * Device initialisation at boot (main.c, and the interrupt lines of console.c and ide.c)

    What [main] does to the interrupt hardware, in its order: the machine is
    looked up, the local APIC and the two interrupt controllers are set up, the
    console and the disk driver enable their lines and, on a machine without MP
    tables, the 8253 timer is started.  The other calls of [main] in between
    ([pinit], [binit], [kinit], [tvinit], [fileinit], [iinit]) work on other
    parts of the kernel.

    The theorems say which interrupts can arrive once it is done, and that [trap]
    has a case for each, but for the error interrupt of the local APIC. *)
From S2P Require Import Prelude Kernel ProcData SchedState CString Printf Console FsDisk Kalloc Pipe Fs Mmu KState Intr Mp Trap.
Local Open Scope Z_scope.

Section main.
(** Memory as the firmware left it, port 0x23, and the local APIC's answers. *)
Context (m : mem) (imcr ver id : Z) (icr : nat → Z) (fuel : nat).

Definition console_enable : M hwst unit :=
  on_hcons console_init;;
  pic_enable IRQ_KBD;;
  ioapic_enable IRQ_KBD 0.

Definition ide_enable : M hwst unit :=
  pic_enable IRQ_IDE;;
  s ← kget;
  ioapic_enable IRQ_IDE (mp_ncpu (mpinfo s) - 1).

Definition init_devices : M hwst unit :=
  mp_init m imcr;;
  lapic_init ver icr fuel;;
  n ← cpu id false 0;
  on_hcons (cprintf ([10] ++ lit "cpu%d: starting xv6" ++ [10; 10]) [Num n]);;
  pic_init;;
  ioapic_init;;
  console_enable;;
  ide_enable;;
  s ← kget;
  if ismp (mpinfo s) then mret () else timer_init.
End main.

(** [trap] has a case for the vector, that of a fault apart. *)
Definition handled (v : Z) : Prop := v ∈ (λ i, IRQ_OFFSET + i) <$> [IRQ_TIMER; IRQ_IDE; IRQ_KBD; IRQ_SPURIOUS].

Lemma starting_run n kc s : alive s → LkConsole ∉ held kc → 0 ≤ n < 256 →
  ∃ s', cprintf ([10] ++ lit "cpu%d: starting xv6" ++ [10; 10]) [Num n] kc s = Ok () kc s' ∧ alive s'.
Proof.
  intros [A1 A2] Hl Hn.
  destruct (render_all (parse_fmt false ([10] ++ lit "cpu%d: starting xv6" ++ [10; 10])) [Num n]) as [l|] eqn:E.
  - edestruct (cprintf_run ([10] ++ lit "cpu%d: starting xv6" ++ [10; 10]) [Num n] kc s l) as (s' & R & Sh);
      [done|done|done| | |exact E|].
    { by apply (bool_decide_unpack _); vm_compute. }
    { repeat constructor. }
    exists s'. split; [done|]. destruct Sh. split; [done|congruence].
  - exfalso. apply (below_check (λ n, bool_decide (is_Some (render_all
      (parse_fmt false ([10] ++ lit "cpu%d: starting xv6" ++ [10; 10])) [Num n]))) 256) in Hn; [|vm_compute; reflexivity].
    apply bool_decide_eq_true in Hn as [? Hn]. congruence.
Qed.

(** A machine without MP tables: of the lines of the 8259A (the one to the slave
    apart), exactly the timer, the keyboard and the disk are delivered, at vectors
    that [trap] handles, whatever state the controllers were in. *)
Theorem boot_uniprocessor m imcr ver id icr fuel hw c s :
  mp_config m = None → mpinfo s = mp0 → irqmask s = irqmask0 → ports s = [] → alive (hcons s) → LkConsole ∉ held c →
  ∃ s', init_devices m imcr ver id icr fuel c s = Ok () c s' ∧
    ∀ irq, 0 ≤ irq < 16 → irq ≠ IRQ_SLAVE →
      pic_route (foldl pics_write hw (ports s')) irq =
        (if decide (irq ∈ [IRQ_TIMER; IRQ_KBD; IRQ_IDE]) then Some (IRQ_OFFSET + irq) else None) ∧
      ∀ v, pic_route (foldl pics_write hw (ports s')) irq = Some v → handled v.
Proof.
  intros Hm Hi Hk Hp A Hl. unfold init_devices.
  assert (E1 : mp_init m imcr c s = Ok () c s).
  { unfold mp_init, set_mp. rewrite kmodify_bind, Hm, Hi. by destruct s; simpl in *; subst. }
  rewrite (bind_Ok _ _ _ _ _ _ _ E1).
  assert (E2 : lapic_init ver icr fuel c s = Ok () c s) by (unfold lapic_init; by rewrite kget_bind, Hi).
  rewrite (bind_Ok _ _ _ _ _ _ _ E2).
  assert (E3 : cpu id false 0 c s = Ok 0 c s) by (unfold cpu; by rewrite ret_bind, kget_bind, Hi).
  rewrite (bind_Ok _ _ _ _ _ _ _ E3).
  destruct (starting_run 0 c (hcons s) A Hl ltac:(lia)) as (cs & E4 & _).
  rewrite (bind_Ok (on_hcons _) _ _ _ _ _ _ (focus_Ok _ _ _ _ _ _ _ _ _ eq_refl E4)).
  set (s1 := set_hcons cs s). destruct (pic_init_run c s1) as (ws & E5 & W); [by simpl; rewrite Hk|].
  rewrite (bind_Ok _ _ _ _ _ _ _ E5). simpl in W. rewrite Hk in W.
  set (s2 := set_ports _ _).
  assert (Hs : ismp (mpinfo s2) = false ∧ ports s2 = ws ∧ irqmask s2 = irqmask0).
  { unfold s2. simpl. by rewrite Hi, Hp, Hk. }
  clearbody s2. destruct Hs as (H1 & H2 & H3). destruct s2 as [[im la nc ap bc io] pt mk iset ir irs lws cn hc].
  simpl in H1, H2, H3. subst im pt mk.
  eexists. split; [lazy -[app]; reflexivity|]. cbn [ports]. intros irq Hq Hn. rewrite !foldl_app, W.
  apply (below_check (λ i, bool_decide (i ≠ IRQ_SLAVE → pic_route (pics_ready 49144) i =
    if decide (i ∈ [IRQ_TIMER; IRQ_KBD; IRQ_IDE]) then Some (IRQ_OFFSET + i) else None)) 16) in Hq; [|vm_compute; reflexivity].
  apply bool_decide_eq_true in Hq. specialize (Hq Hn).
  match goal with |- pic_route ?p _ = _ ∧ _ => change p with (pics_ready 49144) end.
  rewrite Hq. split; [done|]. intros v Hv. case_decide as D; [|done]. injection Hv as <-.
  unfold handled. apply list_elem_of_fmap. exists irq. split; [done|]. rewrite !elem_of_cons in *. intuition.
Qed.

Lemma pic_enable_run irq c s : ∃ ws k, pic_enable irq c s = Ok () c (set_ports (ports s ++ ws) (set_irqmask k s)).
Proof.
  destruct (pic_enable_all c [irq] s) as (ws & E & _). exists ws. eexists. cbn [do_all] in E.
  unfold mbind, M_bind in E. destruct (pic_enable irq c s) as [[] c' s'| | | |]; simpl in E; simplify_eq. done.
Qed.

(** C19 A machine with MP tables: of the lines of the I/O APIC, exactly the keyboard,
    sent to processor 0, and the disk, sent to the last processor, are delivered,
    at vectors that [trap] handles.  The timer is the local APIC's: the unit is enabled
    with no priority threshold, its timer is periodic with the bus clock and a count of
    ten million, unmasked, at the timer vector that [trap] handles, and its two legacy
    lines are masked.  (Its error interrupt is enabled too, at a vector for which [trap]
    has no case.) *)
Theorem boot_multiprocessor m imcr ver id icr k fuel c s s1 :
  mp_init m imcr c s = Ok () c s1 → ismp (mpinfo s1) = true → lapic (mpinfo s1) ≠ 0 → 1 ≤ mp_ncpu (mpinfo s1) ≤ 256 →
  irqmask s1 = irqmask0 → alive (hcons s1) → LkConsole ∉ held c → 0 ≤ Z.shiftr id 24 < 256 →
  Z.land (icr k) DELIVS = 0 → (k < fuel)%nat →
  ∃ s', init_devices m imcr ver id icr fuel c s = Ok () c s' ∧
    (∀ irq, 0 ≤ irq ≤ Z.land (Z.shiftr (default 0 (ioapic_regs s1 !! REG_VER)) 16) 0xFF → irq < 224 →
      ioapic_route (ioapic_regs s') irq =
        (if decide (irq = IRQ_KBD) then Some (IRQ_OFFSET + IRQ_KBD, 0)
         else if decide (irq = IRQ_IDE) then Some (IRQ_OFFSET + IRQ_IDE, mp_ncpu (mpinfo s1) - 1) else None) ∧
      ∀ v n, ioapic_route (ioapic_regs s') irq = Some (v, n) → handled v) ∧
    lvt_vector (lapicws s') <$> [TIMER; LINT0; LINT1; ERROR] =
      [Some (IRQ_OFFSET + IRQ_TIMER); None; None; Some (IRQ_OFFSET + IRQ_ERROR)] ∧
    last_write (lapicws s') <$> [TIMER; TICR; TDCR; TPR] =
      [Some (Z.lor PERIODIC (IRQ_OFFSET + IRQ_TIMER)); Some 10000000; Some X1; Some 0] ∧
    handled (IRQ_OFFSET + IRQ_TIMER) ∧ ¬ handled (IRQ_OFFSET + IRQ_ERROR).
Proof.
  intros E1 Im La Nc Mk A Hl Hid Hk Hf. unfold init_devices. rewrite (bind_Ok _ _ _ _ _ _ _ E1).
  rewrite (bind_Ok _ _ _ _ _ _ _ (lapic_init_sends ver icr k fuel c Hk Hf s1 La)). set (s2 := set_ports _ _).
  assert (E3 : cpu id false 0 c s2 = Ok (Z.shiftr id 24) c s2).
  { unfold cpu. by rewrite ret_bind, kget_bind, decide_True. }
  rewrite (bind_Ok _ _ _ _ _ _ _ E3).
  destruct (starting_run _ c (hcons s2) A Hl Hid) as (cs & E4 & A4).
  rewrite (bind_Ok (on_hcons _) _ _ _ _ _ _ (focus_Ok _ _ _ _ _ _ _ _ _ eq_refl E4)). set (s3 := set_hcons cs s2).
  destruct (pic_init_run c s3) as (ws & E5 & _); [by simpl; rewrite Mk|]. rewrite (bind_Ok _ _ _ _ _ _ _ E5).
  set (s4 := set_ports _ s3). destruct (ioapic_init_run c s4 Im A4 Hl) as (s5 & E6 & S5 & R5 & M5 & _ & _ & L5).
  rewrite (bind_Ok _ _ _ _ _ _ _ E6). change (mpinfo s4) with (mpinfo s1) in M5. change (ioapic_regs s4) with (ioapic_regs s1) in R5.
  set (s6 := set_hcons (set_use_lock true (hcons s5)) s5).
  destruct (pic_enable_run IRQ_KBD c s6) as (w7 & k7 & E7). set (s7 := set_ports _ _) in E7.
  assert (E8 : console_enable c s5 = Ok () c (set_ioapic true (REG_TABLE + 2 * IRQ_KBD + 1) (enabled (ioapic_regs s5) (IRQ_KBD, 0)) s7)).
  { unfold console_enable. erewrite bind_Ok by reflexivity. rewrite (bind_Ok _ _ _ _ _ _ _ E7).
    apply (ioapic_enable_run (IRQ_KBD, 0) c s7); [by simpl; rewrite M5|done]. }
  rewrite (bind_Ok _ _ _ _ _ _ _ E8). set (s8 := set_ioapic _ _ _ s7).
  destruct (pic_enable_run IRQ_IDE c s8) as (w9 & k9 & E9). set (s9 := set_ports _ _) in E9.
  assert (N9 : mp_ncpu (mpinfo s9) = mp_ncpu (mpinfo s1)) by (simpl; by rewrite M5).
  assert (I9 : ismp (mpinfo s9) = true) by (simpl; by rewrite M5).
  set (n := mp_ncpu (mpinfo s1)) in *.
  assert (E10 : ide_enable c s8 = Ok () c (set_ioapic true (REG_TABLE + 2 * IRQ_IDE + 1) (enabled (ioapic_regs s9) (IRQ_IDE, n - 1)) s9)).
  { unfold ide_enable. rewrite (bind_Ok _ _ _ _ _ _ _ E9), kget_bind, N9. by apply (ioapic_enable_run (IRQ_IDE, n - 1) c s9). }
  rewrite (bind_Ok _ _ _ _ _ _ _ E10), kget_bind. set (s10 := set_ioapic _ _ _ s9).
  change (ismp (mpinfo s10)) with (ismp (mpinfo s9)). rewrite I9. exists s10. split; [done|].
  split; [|change (lapicws s10) with (lapicws s5); rewrite L5; change (lapicws s4) with (lapicws s1 ++ lapic_writes ver);
    destruct (lapic_writes_lvt (lapicws s1) ver) as [V1 V2]; split_and!; [exact V1|exact V2|by left|];
    by apply (bool_decide_unpack (¬ handled (IRQ_OFFSET + IRQ_ERROR)))].
  intros irq Hi Hlt.
  assert (Rt : ioapic_route (ioapic_regs s10) irq =
    (if decide (irq = IRQ_KBD) then Some (IRQ_OFFSET + IRQ_KBD, 0)
     else if decide (irq = IRQ_IDE) then Some (IRQ_OFFSET + IRQ_IDE, n - 1) else None)).
  { change (ioapic_regs s10) with (foldl enabled (ioapic_regs s5) [(IRQ_KBD, 0); (IRQ_IDE, n - 1)]). rewrite R5.
    rewrite (enabled_route _ irq) with (r := None); [|lia|repeat constructor; simpl; lia|apply cleared_route; lia].
    cbn [foldl fst snd]. destruct (decide (irq = IRQ_KBD)) as [->|H1]; [done|]. rewrite (decide_False (P := IRQ_KBD = irq)) by done.
    destruct (decide (irq = IRQ_IDE)) as [->|H2]; [done|]. by rewrite decide_False by done. }
  rewrite Rt. split; [done|]. intros v j. unfold handled. cbn [fmap list_fmap]. rewrite !elem_of_cons.
  repeat case_decide; intros [= <- <-]; tauto.
Qed.

(** ** An example: the two processors of Mp, and an I/O APIC with 24 lines *)
Definition example_hw : hwst := Hw mp0 [] irqmask0 false 0 {[REG_VER := 0x170011]} [] 0 blank_console.
Definition example_mp : hwst := set_ports [(0x22, 0x70); (0x23, 1)]
  (set_mpinfo (learned (Mp true 0xFEE00000 0 (replicate NCPU 0) 0 0) (t_entries example_table)) example_hw).

Lemma boot_multiprocessor_witness : ∃ s',
  init_devices example_memory 0 0 0 (λ _, 0) 1 (KCtx [] []) example_hw = Ok () (KCtx [] []) s' ∧
  ioapic_route (ioapic_regs s') IRQ_IDE = Some (46, 1) ∧
  lvt_vector (lapicws s') TIMER = Some 32.
Proof.
  assert (E : mp_init example_memory 0 (KCtx [] []) example_hw = Ok () (KCtx [] []) example_mp).
  { rewrite (mp_init_run example_memory 0x9FC10 example_table); [reflexivity|apply example_bytes| | | | | | |reflexivity].
    - vm_compute. congruence.
    - vm_compute. reflexivity.
    - vm_compute. congruence.
    - vm_compute. reflexivity.
    - apply example_table_ok.
    - apply put_bytes_at. apply (bool_decide_unpack _). vm_compute. exact Logic.I. }
  destruct (boot_multiprocessor example_memory 0 0 0 (λ _, 0) 0 1 (KCtx [] []) example_hw example_mp E) as (s' & B & R & T & _).
  - reflexivity.
  - discriminate.
  - vm_compute. split; discriminate.
  - reflexivity.
  - apply blank_alive.
  - apply not_elem_of_nil.
  - split; [discriminate|reflexivity].
  - reflexivity.
  - lia.
  - exists s'. split; [exact B|]. destruct (R IRQ_IDE) as [X _]; [split; vm_compute; discriminate|reflexivity|]. split; [exact X|].
    by injection T.
Defined.
