(* ===== verification/StartUp.v ===== *)
(** * Start-up (main.c)

    [main] as a whole, on the machine of Trap with the table of interrupt vectors, the
    [booted] flags, and the processors that have been started: for each its APIC
    identifier, and the stack pointer and address that it finds when it comes out of
    bootother.S.  A processor is started by the interrupts that have been sent to it:
    [started] reads them off the writes to the interrupt command register.  It sets its
    flag, the one its APIC identifier indexes, if it has come to [mpmain].  The bss
    segment is clear in the states [main] starts from.

    [ncpu] is kept both with the MP information and with the scheduler; [mp_init] sets
    the first, [tell_sched] copies it.  Interrupts are off throughout. *)
From S2P Require Import Prelude Kernel ProcData SchedState SchedClass Sched Kalloc CString Printf Console FsDisk Fs Mmu KState Process Bio BioRefine Intr Mp Trap Main.
Local Open Scope Z_scope.

Record bootst := BootSt { b_m : machine; b_idt : list gatedesc; booted : list bool; woken : list (Z * Z * Z) }.

Definition set_bm v s := BootSt v (b_idt s) (booted s) (woken s).
Definition set_idt v s := BootSt (b_m s) v (booted s) (woken s).
Definition set_booted v s := BootSt (b_m s) (b_idt s) v (woken s).
Definition set_woken v s := BootSt (b_m s) (b_idt s) (booted s) v.

Definition on_m {A} : M machine A → M bootst A := focus (λ s, Some (b_m s)) set_bm.
Definition boot_k {A} (m : M kst A) : M bootst A := on_m (on_k m).
Definition boot_hw {A} (m : M hwst A) : M bootst A := on_m (on_hw m).
Definition boot_bytes (g : mem → mem) : M bootst unit := boot_k (on_bytes g).

(** Where the code of bootother.S is put. *)
Definition CODE : Z := 0x7000.

(** ** The startup interrupts

    The destination written last, the processors that an INIT has put in the halted
    state, and those that a STARTUP has made run, with the address they start at.  A
    processor takes a STARTUP only when it is halted. *)
Record ipist := Ipis { ip_dest : Z; ip_halted : list Z; ip_started : list (Z * Z) }.

Definition ipi_write (st : ipist) (w : Z * Z) : ipist :=
  let '(r, v) := w in
  let d := ip_dest st in
  if decide (r = ICRHI) then Ipis (Z.shiftr v 24) (ip_halted st) (ip_started st)
  else if decide (r = ICRLO ∧ Z.land v 0xC0000 = 0) then
    if decide (Z.land v 0x700 = INIT ∧ Z.land v ASSERT ≠ 0) then Ipis d (d :: ip_halted st) (ip_started st)
    else if decide (Z.land v 0x700 = STARTUP ∧ d ∈ ip_halted st)
    then Ipis d (filter (λ x, x ≠ d) (ip_halted st)) (ip_started st ++ [(d, Z.land v 0xFF * 4096)])
    else st
  else st.

Definition ipi_writes (ws : list (Z * Z)) : ipist := foldl ipi_write (Ipis 0 [] []) ws.
Definition started (ws : list (Z * Z)) : list (Z * Z) := ip_started (ipi_writes ws).

Section start.
(** The registers of this processor's local APIC; the code of bootother.S and the address
    of [mpmain]; whether the processor with an APIC identifier has set its flag when the
    flag is looked at for the [n]-th time. *)
Context (ver id : Z) (icr : nat → Z) (fuel : nat).
Context (bootother : list Z) (mpmain_addr : Z) (answers : nat → nat → bool).

Definition this_cpu : M bootst Z := boot_hw (cpu id false 0).

(** A processor that starts runs the code at its start address, which must be that of
    bootother.S, linked for [CODE]: it loads the stack pointer from the word before
    and jumps to the address in the word before that. *)
Definition code_at (m : mem) (a : Z) : bool :=
  bool_decide (a = CODE ∧ (λ k, rd m (CODE + Z.of_nat k)) <$> seq 0 (length bootother) = bootother).
Fixpoint wake_each (l : list (Z * Z)) : M bootst unit :=
  match l with
  | [] => mret ()
  | (apicid, a) :: l =>
      s ← kget;
      let m := k_bytes (m_k (b_m s)) in
      if code_at m a
      then kput (set_woken (woken s ++ [(apicid, rd32 m (CODE - 4), rd32 m (CODE - 8))]) s);; wake_each l
      else fault
  end.
(** The processors that the interrupts sent so far have started and that are not yet
    running. *)
Definition wake : M bootst unit :=
  s ← kget; wake_each (drop (length (woken s)) (started (lapicws (m_hw (b_m s))))).

(** [xchg(&cpus[cpu()].booted, 1)] of the processors that have come to it. *)
Definition flag_each (n : nat) (ws : list (Z * Z * Z)) (b : list bool) : list bool :=
  foldl (λ b w, if decide (w.2 = mpmain_addr) then
    if answers (Z.to_nat w.1.1) n then <[Z.to_nat w.1.1 := true]> b else b else b) b ws.

Fixpoint wait_booted (fuel n i : nat) : M bootst unit :=
  match fuel with
  | O => diverge
  | S fuel =>
      kmodify (λ s, set_booted (flag_each n (woken s) (booted s)) s);;
      s ← kget;
      b ← deref (booted s !! i);
      if (b : bool) then mret () else wait_booted fuel (S n) i
  end.

Definition put16 (w : Z * Z) (m : mem) : mem := wr (wr m w.1 w.2) (w.1 + 1) (w.2 / 2 ^ 8).

(** The body of the loop of [bootothers]. *)
Definition start_cpu (i : nat) : M bootst unit :=
  me ← this_cpu;
  if decide (Z.of_nat i = me) then mret ()
  else
    stack ← boot_k (on_kmem (kalloc KSTACKSIZE));
    boot_bytes (λ m, wr32 m (CODE - 4) (stack + KSTACKSIZE));;
    boot_bytes (λ m, wr32 m (CODE - 8) mpmain_addr);;
    s ← kget;
    apicid ← deref (apicids (mpinfo (m_hw (b_m s))) !! i);
    ws ← boot_hw (lapic_startap apicid CODE);
    boot_bytes (λ m, foldl (flip put16) m ws);;
    wake;;
    wait_booted fuel 0 i.

Definition bootothers : M bootst unit :=
  boot_bytes (put_bytes CODE bootother);;
  s ← kget;
  for_each (seq 0 (Z.to_nat (mp_ncpu (mpinfo (m_hw (b_m s)))))) start_cpu.

(** [idtinit] loads the address of the table. *)
Definition mpmain (ts : Z) : M bootst unit :=
  n ← this_cpu;
  boot_hw (on_hcons (cprintf (lit "cpu%d: mpmain" ++ [10]) [Num n]));;
  b ← boot_hw mp_bcpu;
  (if decide (n ≠ b) then boot_hw (lapic_init ver icr fuel) else mret ());;
  boot_k (kmodify (λ s, set_k_segs s (setupsegs None ts)));;
  kmodify (λ s, set_booted (<[Z.to_nat n := true]> (booted s)) s);;
  boot_hw (on_hcons (cprintf (lit "cpu%d: scheduling" ++ [10]) [Num n]));;
  boot_k (on_sch runIdle;; load_segs ts).

(** Memory as the firmware left it, port 0x23, the end of the kernel, the entry points of
    the vectors, the status of disk 1, the scheduler compiled in, and the programs linked
    into the kernel. *)
Context (m : mem) (imcr kend : Z) (vectors : list Z) (status : nat → Z) (cfg : class_id).
Context (forkret ts : Z) (idlecode initcode : list Z).

Definition tell_sched : M bootst unit :=
  n ← this_cpu;
  kmodify (λ s, let c := k_sch (m_k (b_m s)) in
    set_bm (set_mk (set_k_sch (m_k (b_m s))
      (SchSt (rqs c) (procs c) (cpus c) (idleproc c) (initproc c) (nextpid c) (konts c)
         (Z.to_nat (mp_ncpu (mpinfo (m_hw (b_m s))))) (Z.to_nat n))) (b_m s)) s).

Definition main : M bootst unit :=
  boot_hw (mp_init m imcr);;
  boot_hw (lapic_init ver icr fuel);;
  tell_sched;;
  n ← this_cpu;
  boot_hw (on_hcons (cprintf ([10] ++ lit "cpu%d: starting xv6" ++ [10; 10]) [Num n]));;
  boot_k (on_sch (pinit cfg));;
  on_m (on_bio binit);;
  boot_hw pic_init;;
  boot_hw ioapic_init;;
  boot_k (on_kmem (kinit kend));;
  kmodify (set_idt (tvinit vectors));;
  boot_hw console_enable;;
  boot_hw ide_enable;;
  on_m (on_bio (ide_init status));;
  s ← kget;
  (if ismp (mpinfo (m_hw (b_m s))) then mret () else boot_hw timer_init);;
  boot_k (userinit fuel forkret idlecode initcode);;
  bootothers;;
  mpmain ts.
End start.

(** ** The other processors are started *)
Definition kmem_of (s : bootst) : kmem := k_kmem (m_k (b_m s)).
Definition mp_of (s : bootst) : mpst := mpinfo (m_hw (b_m s)).
Definition ipis_of (s : bootst) : list (Z * Z) := lapicws (m_hw (b_m s)).

(** The bytes of the free runs. *)
Definition total (rs : list (Z * Z)) : Z := foldr (λ rl t, rl.2 + t) 0 rs.

Lemma falloc_total n : ∀ rs p rs', falloc n rs = Some (p, rs') → total rs' = total rs - n.
Proof.
  induction rs as [|[r l] rs IH]; intros p rs' E; simpl in E; [done|].
  repeat case_decide; simplify_eq/=; [lia|lia|]. destruct (falloc n rs) as [[p1 rs1]|]; simplify_eq/=.
  rewrite (IH p rs1) by done. lia.
Qed.
Lemma falloc_page rs lo : sorted_from lo rs → PAGE ≤ total rs → is_Some (falloc PAGE rs).
Proof.
  destruct rs as [|[r l] rs]; [unfold PAGE; simpl; lia|]. intros (_ & H & _ & [k ->] & _) _. simpl.
  case_decide; [by eexists|]. rewrite decide_True; [by eexists|]. unfold PAGE in *. lia.
Qed.

(** *** The interrupts *)
Lemma startap_writes st a page : 0 ≤ a < 256 → 0 ≤ page < 256 →
  foldl ipi_write st (startap_ipis a page) =
    Ipis a (filter (λ x, x ≠ a) (ip_halted st)) (ip_started st ++ [(a, page * 4096)]).
Proof.
  intros Ha Hp. unfold startap_ipis. cbn [foldl].
  assert (D : Z.shiftr (a * 2 ^ 24) 24 = a) by (rewrite Z.shiftr_div_pow2, Z.div_mul; lia).
  assert (B : Z.land (0x600 + page) 0xC0000 = 0 ∧ Z.land (0x600 + page) 0x700 = STARTUP ∧ Z.land (0x600 + page) 0xFF = page).
  { apply (below_check (λ p, bool_decide (Z.land (0x600 + p) 0xC0000 = 0 ∧ Z.land (0x600 + p) 0x700 = STARTUP ∧
      Z.land (0x600 + p) 0xFF = p)) 256) in Hp; [|vm_compute; reflexivity]. by apply bool_decide_eq_true in Hp. }
  destruct B as (B1 & B2 & B3).
  assert (W1 : ∀ st, ipi_write st (ICRHI, a * 2 ^ 24) = Ipis a (ip_halted st) (ip_started st)) by (intros; unfold ipi_write; by rewrite decide_True, D).
  assert (W2 : ∀ st, ipi_write st (ICRLO, 0xC500) = Ipis (ip_dest st) (ip_dest st :: ip_halted st) (ip_started st)) by done.
  assert (W3 : ∀ st, ipi_write st (ICRLO, 0x8500) = st) by done.
  assert (W4 : ∀ st, ipi_write st (ICRLO, 0x600 + page) = if decide (ip_dest st ∈ ip_halted st)
    then Ipis (ip_dest st) (filter (λ x, x ≠ ip_dest st) (ip_halted st)) (ip_started st ++ [(ip_dest st, page * 4096)]) else st).
  { intros st'. unfold ipi_write. rewrite (decide_False (P := ICRLO = ICRHI)) by done. rewrite decide_True by done.
    rewrite decide_False by (intros [? _]; rewrite B2 in *; done). rewrite B3. repeat case_decide; tauto. }
  rewrite (W1 st), (W2 (Ipis _ _ _)), (W3 (Ipis _ _ _)), (W1 (Ipis _ _ _)), (W4 (Ipis _ _ _)).
  cbn [ip_dest ip_halted ip_started]. rewrite decide_True by (by left).
  rewrite filter_cons_False by (intros H; by apply H). rewrite (W1 (Ipis _ _ _)), (W4 (Ipis _ _ _)).
  cbn [ip_dest ip_halted ip_started]. rewrite decide_False; [done|]. rewrite list_elem_of_filter. tauto.
Qed.

Section starts.
Context (id : Z) (fuel : nat) (bootother : list Z) (mpmain_addr : Z) (answers : nat → nat → bool).
Hypothesis Hanswers : ∀ i, ∃ k, (k < fuel)%nat ∧ answers i k = true.
Hypothesis Haddr : 0 ≤ mpmain_addr < 2 ^ 32.

(** *** The flags *)
Record flagged (b b' : list bool) : Prop := {
  fl_len : length b' = length b;
  fl_mono j : b !! j = Some true → b' !! j = Some true
}.

Lemma flagged_trans b1 b2 b3 : flagged b1 b2 → flagged b2 b3 → flagged b1 b3.
Proof. intros [L1 M1] [L2 M2]. split; [congruence|auto]. Qed.

Lemma flagged_insert b i : flagged b (<[i := true]> b).
Proof.
  split; [apply length_insert|]. intros j Hj. destruct (decide (j = i)) as [->|]; [|by rewrite list_lookup_insert_ne].
  apply list_lookup_insert_eq. by eapply lookup_lt_Some.
Qed.

Lemma flag_each_flagged n ws : ∀ b, flagged b (flag_each mpmain_addr answers n ws b).
Proof.
  induction ws as [|w ws IH]; intros b; [done|]. cbn [flag_each foldl].
  destruct (decide (w.2 = mpmain_addr)); [|apply IH]. destruct (answers _ n); [|apply IH].
  eapply flagged_trans; [apply flagged_insert|apply IH].
Qed.

Lemma flag_each_sets n i sp ws : answers i n = true → (Z.of_nat i, sp, mpmain_addr) ∈ ws → ∀ b, (i < length b)%nat →
  flag_each mpmain_addr answers n ws b !! i = Some true.
Proof.
  intros Hn. induction ws as [|w ws IH]; intros Hw b Hb; [by apply elem_of_nil in Hw|].
  apply elem_of_cons in Hw as [<-|Hw]; cbn [flag_each foldl].
  - cbn [fst snd]. rewrite decide_True by done. rewrite Nat2Z.id, Hn.
    apply (fl_mono _ _ (flag_each_flagged n ws _)). by apply list_lookup_insert_eq.
  - apply IH; [done|]. pose proof (fl_len _ _ (flag_each_flagged n [w] b)) as L. cbn [flag_each foldl] in L. lia.
Qed.

Lemma wait_booted_run c s i sp k : (Z.of_nat i, sp, mpmain_addr) ∈ woken s → ∀ f n b,
  (i < length b)%nat → (k < f)%nat → answers i (n + k)%nat = true →
  ∃ b', wait_booted mpmain_addr answers f n i c (set_booted b s) = Ok () c (set_booted b' s) ∧ flagged b b' ∧ b' !! i = Some true.
Proof.
  intros Hw. induction k as [|k IH]; intros [|f] n b Hb Hf E; try lia; cbn [wait_booted]; rewrite kmodify_bind, kget_bind.
  - rewrite Nat.add_0_r in E. cbn [booted set_booted woken]. rewrite (flag_each_sets n i sp) by done. rewrite deref_bind.
    eexists. split; [reflexivity|]. split; [apply flag_each_flagged|by eapply flag_each_sets].
  - cbn [booted set_booted woken]. pose proof (flag_each_flagged n (woken s) b) as F. set (b1 := flag_each _ _ _ _ _) in *.
    destruct (lookup_lt_is_Some_2 b1 i) as [x Hx]; [by rewrite (fl_len _ _ F)|]. rewrite Hx, deref_bind.
    destruct x; [by exists b1|].
    destruct (IH f (S n) b1) as (b' & E' & F' & Hb'); [by rewrite (fl_len _ _ F)|lia|by rewrite Nat.add_succ_l, <- Nat.add_succ_r|].
    exists b'. split; [exact E'|]. split; [by eapply flagged_trans|done].
Qed.

Lemma this_cpu_run c s : lapic (mp_of s) ≠ 0 → this_cpu id c s = Ok (Z.shiftr id 24) c s.
Proof.
  intros H. unfold this_cpu, boot_hw. destruct s as [[k b sh kd hw] idt bt wk].
  unfold on_m, on_hw, focus. simpl. unfold cpu. rewrite ret_bind, kget_bind. unfold mp_of in H. simpl in H. by rewrite decide_True.
Qed.

(** *** The memory a started processor finds *)
Lemma code_at_rd m m' : (∀ x, CODE ≤ x → rd m' x = rd m x) →
  code_at bootother m' CODE = code_at bootother m CODE.
Proof.
  intros H. unfold code_at. assert (E : (λ k, rd m' (CODE + Z.of_nat k)) <$> seq 0 (length bootother) =
    (λ k, rd m (CODE + Z.of_nat k)) <$> seq 0 (length bootother)); [|by rewrite E].
  apply list_fmap_ext. intros i k _. apply H. lia.
Qed.

Lemma left_for_it m sp seg :
  let m' := foldl (flip put16) (wr32 (wr32 m (CODE - 4) sp) (CODE - 8) mpmain_addr) [(0x467, 0); (0x469, seg)] in
  rd32 m' (CODE - 4) = u32 sp ∧ rd32 m' (CODE - 8) = mpmain_addr ∧ code_at bootother m' CODE = code_at bootother m CODE.
Proof.
  unfold CODE, put16. cbn [foldl flip fst snd]. rewrite !rd32_wr_ne by lia.
  rewrite rd32_wr32_ne, !rd32_wr32 by lia. split; [done|]. split; [by apply u32_small|].
  apply code_at_rd. unfold CODE, wr32. intros x Hx. by rewrite !rd_wr_ne by lia.
Qed.

Lemma boot_bytes_run g c k b sh kd hw idt bt wk :
  boot_bytes g c (BootSt (Machine k b sh kd hw) idt bt wk) =
    Ok () c (BootSt (Machine (set_k_bytes k (g (k_bytes k))) b sh kd hw) idt bt wk).
Proof. done. Qed.
Lemma boot_hw_run {A} (m : M hwst A) c k b sh kd hw idt bt wk a hw' : m c hw = Ok a c hw' →
  boot_hw m c (BootSt (Machine k b sh kd hw) idt bt wk) = Ok a c (BootSt (Machine k b sh kd hw') idt bt wk).
Proof. intros E. unfold boot_hw, on_m, on_hw, focus. simpl. by rewrite E. Qed.

(** The code is in place and every processor that was started is running. *)
Definition settled (s : bootst) : Prop :=
  code_at bootother (k_bytes (m_k (b_m s))) CODE = true ∧ length (woken s) = length (started (ipis_of s)).
Lemma started_startap ws a : 0 ≤ a < 256 → started (ws ++ startap_ipis a 7) = started ws ++ [(a, CODE)].
Proof. intros Ha. unfold started, ipi_writes. rewrite foldl_app, startap_writes by lia. done. Qed.

Lemma started_startaps l : Forall (λ i, (i < 256)%nat) l → ∀ ws,
  started (ws ++ mjoin ((λ i, startap_ipis (Z.of_nat i) 7) <$> l)) = started ws ++ ((λ i, (Z.of_nat i, CODE)) <$> l).
Proof.
  induction 1 as [|i l Hi _ IH]; intros ws; cbn [fmap list_fmap mjoin list_join]; [by rewrite !app_nil_r|].
  by rewrite app_assoc, IH, started_startap, <- app_assoc by lia.
Qed.

Lemma wake_run c s ws a : settled s → lapicws (m_hw (b_m s)) = ws → 0 ≤ a < 256 →
  ∀ s1, code_at bootother (k_bytes (m_k (b_m s1))) CODE = true → woken s1 = woken s →
    lapicws (m_hw (b_m s1)) = ws ++ startap_ipis a 7 →
    wake bootother c s1 = Ok () c (set_woken (woken s ++ [(a, rd32 (k_bytes (m_k (b_m s1))) (CODE - 4),
      rd32 (k_bytes (m_k (b_m s1))) (CODE - 8))]) s1).
Proof.
  intros [_ L] Hw Ha s1 Hc W1 I1. unfold wake. rewrite kget_bind, I1, (started_startap _ _ Ha), W1.
  unfold ipis_of in L. rewrite Hw in L. rewrite drop_app_length' by done.
  cbn [wake_each]. rewrite kget_bind, Hc, W1. done.
Qed.

Lemma start_cpu_run c s rs i :
  lapic (mp_of s) ≠ 0 → Z.shiftr id 24 ≠ Z.of_nat i → apicids (mp_of s) !! i = Some (Z.of_nat i) → (i < 256)%nat →
  (i < length (booted s))%nat → settled s → allocator (kmem_of s) rs → LkKalloc ∉ held c → PAGE ≤ total rs →
  ∃ p rs' s', start_cpu id fuel bootother mpmain_addr answers i c s = Ok () c s' ∧ falloc PAGE rs = Some (p, rs') ∧
    allocator (kmem_of s') rs' ∧ mp_of s' = mp_of s ∧ ipis_of s' = ipis_of s ++ startap_ipis (Z.of_nat i) 7 ∧
    woken s' = woken s ++ [(Z.of_nat i, u32 (p + KSTACKSIZE), mpmain_addr)] ∧ settled s' ∧
    flagged (booted s) (booted s') ∧ booted s' !! i = Some true.
Proof.
  intros Hl Hi Ha Hr Hb Se A Hc Ht. destruct (falloc_page rs 0 (proj1 (proj2 A)) Ht) as [[p rs'] F].
  destruct (kalloc_run c (kmem_of s) rs PAGE A Hc) as (k' & E & A'); [done|by exists 1|]. rewrite F in E, A'. simpl in E, A'.
  destruct (Hanswers i) as (j & Hj & Ej). exists p, rs'.
  unfold start_cpu. rewrite (bind_Ok _ _ _ _ _ _ _ (this_cpu_run c s Hl)), decide_False by done.
  destruct s as [[k b sh kd hw] idt bt wk]. unfold kmem_of, mp_of in *. simpl in *.
  assert (E1 : boot_k (on_kmem (kalloc KSTACKSIZE)) c (BootSt (Machine k b sh kd hw) idt bt wk) =
    Ok p c (BootSt (Machine (set_k_kmem k k') b sh kd hw) idt bt wk)).
  { unfold boot_k, on_m, on_k, on_kmem, focus. simpl. change KSTACKSIZE with PAGE. by rewrite E. }
  rewrite (bind_Ok _ _ _ _ _ _ _ E1). do 2 rewrite (bind_Ok _ _ _ _ _ _ _ (boot_bytes_run _ _ _ _ _ _ _ _ _ _)).
  rewrite kget_bind. cbn [b_m m_hw]. rewrite Ha. cbn [deref]. rewrite ret_bind.
  pose proof (startap_sends (Z.of_nat i) 7 c ltac:(lia) ltac:(lia) hw Hl) as S. change (7 * 4096) with CODE in S.
  rewrite (bind_Ok _ _ _ _ _ _ _ (boot_hw_run _ _ _ _ _ _ _ _ _ _ _ _ S)).
  rewrite (bind_Ok _ _ _ _ _ _ _ (boot_bytes_run _ _ _ _ _ _ _ _ _ _)).
  destruct (left_for_it (k_bytes k) (p + KSTACKSIZE) (7 * 256)) as (R1 & R2 & R3).
  erewrite (bind_Ok (wake bootother)) by (eapply (wake_run c _ _ (Z.of_nat i) Se eq_refl); [lia|etransitivity; [exact R3|apply Se]|done..]).
  cbn [b_m m_k k_bytes set_k_bytes set_k_kmem woken]. rewrite R1, R2.
  match goal with |- context [wait_booted _ _ _ _ _ _ ?st] =>
    destruct (wait_booted_run c st i (u32 (p + KSTACKSIZE)) j) with (f := fuel) (n := 0%nat) (b := bt) as (b' & Eb & Fb & Hb') end;
    [simpl; apply elem_of_app; right; by left|done..|].
  eexists. split; [exact Eb|]. split; [done|]. split; [exact A'|]. split; [done|]. split; [done|]. split; [done|].
  split; [|done]. destruct Se as [Se1 Se2]. split; [etransitivity; [exact R3|exact Se1]|].
  unfold ipis_of in *. simpl in *. rewrite started_startap by lia. rewrite !length_app. simpl. lia.
Qed.

(** A page that was free and is so no longer. *)
Definition taken (rs rs' : list (Z * Z)) (p : Z) : Prop :=
  0 < p ∧ (PAGE | p) ∧ ∀ x, p ≤ x < p + PAGE → free rs x ∧ ¬ free rs' x.

Lemma start_all c me (Hme : Z.shiftr id 24 = Z.of_nat me) (Hc : LkKalloc ∉ held c) : ∀ cs s rs,
  lapic (mp_of s) ≠ 0 → allocator (kmem_of s) rs → PAGE * Z.of_nat (length cs) ≤ total rs → settled s →
  Forall (λ i, apicids (mp_of s) !! i = Some (Z.of_nat i) ∧ (i < 256)%nat ∧ (i < length (booted s))%nat) cs →
  let others := filter (λ i, i ≠ me) cs in
  ∃ stacks rs' s', for_each cs (start_cpu id fuel bootother mpmain_addr answers) c s = Ok () c s' ∧
    allocator (kmem_of s') rs' ∧ (∀ x, free rs' x → free rs x) ∧ mp_of s' = mp_of s ∧
    ipis_of s' = ipis_of s ++ mjoin ((λ i, startap_ipis (Z.of_nat i) 7) <$> others) ∧
    woken s' = woken s ++ zip_with (λ i p, (Z.of_nat i, u32 (p + KSTACKSIZE), mpmain_addr)) others stacks ∧
    length stacks = length others ∧ NoDup stacks ∧ Forall (taken rs rs') stacks ∧
    flagged (booted s) (booted s') ∧ Forall (λ i, booted s' !! i = Some true) others.
Proof.
  induction cs as [|i cs IH]; intros s rs Hl A Ht Se Hcs others; cbn [for_each].
  { exists [], rs, s. subst others. simpl. rewrite !app_nil_r. split_and!; try done; constructor. }
  apply Forall_cons in Hcs as [(Ha & Hr & Hb) Hcs]. subst others. cbn [length] in Ht.
  destruct (decide (i = me)) as [->|Hi].
  - rewrite filter_cons_False by (intros H; by apply H).
    assert (E : start_cpu id fuel bootother mpmain_addr answers me c s = Ok () c s).
    { unfold start_cpu. rewrite (bind_Ok _ _ _ _ _ _ _ (this_cpu_run c s Hl)). by rewrite decide_True. }
    rewrite (bind_Ok _ _ _ _ _ _ _ E). apply IH; [done|done|unfold PAGE in *; lia|done..].
  - rewrite filter_cons_True by done.
    destruct (start_cpu_run c s rs i) as (p & rs1 & s1 & E & F & A1 & M1 & I1 & W1 & Se1 & Fl1 & B1); try done; [congruence || lia|unfold PAGE in *; lia|].
    rewrite (bind_Ok _ _ _ _ _ _ _ E). pose proof (falloc_total _ _ _ _ F) as T.
    pose proof (falloc_ok PAGE rs 0 ltac:(done) ltac:(by exists 1) ltac:(done) (proj1 (proj2 A))) as K. rewrite F in K.
    destruct K as (K1 & K2 & _ & K4 & K5).
    destruct (IH s1 rs1) as (st & rs' & s' & E' & A' & Fr & M' & I' & W' & L' & N' & T' & Fl' & B');
      [by rewrite M1|done|unfold PAGE in *; lia|done|by rewrite M1, (fl_len _ _ Fl1)|].
    exists (p :: st), rs', s'. split; [exact E'|]. split; [done|].
    split; [intros x Hx%Fr; by apply K5|]. split; [congruence|].
    cbn [fmap list_fmap mjoin list_join zip_with length].
    split; [by rewrite I', I1, <- app_assoc|]. split; [by rewrite W', W1, <- app_assoc|]. split; [by rewrite L'|].
    split; [constructor; [|done]|split; [constructor|]].
    + intros Hp. rewrite Forall_forall in T'. destruct (T' p Hp) as (_ & _ & X).
      destruct (X p) as [X1 _]; [unfold PAGE; lia|]. apply K5 in X1 as [_ X1]. apply X1. unfold PAGE. lia.
    + split; [lia|]. split; [done|]. intros x Hx. split; [by apply K4|]. intros Y%Fr%K5. tauto.
    + eapply Forall_impl; [exact T'|]. intros q (Q1 & Q2 & Q3). split; [done|]. split; [done|].
      intros x Hx. destruct (Q3 x Hx) as [Y Z]. split; [by apply K5|done].
    + split; [by eapply flagged_trans|]. constructor; [by apply (fl_mono _ _ Fl')|done].
Qed.
End starts.

(** C20 [bootothers] starts every processor of the MP tables but its own, each once and in
    the order of the tables, when the APIC identifiers are the indices in the tables, the
    processors answer once they run [mpmain], and there is a free page for each.  It
    returns, so each of them has set its flag.  A processor runs only because of the
    INIT and STARTUP interrupts sent to it, which must name the page that holds the code of
    bootother.S; each comes out of that code at [mpmain], on a stack of its own in pages that
    were free, and are so no longer; and no other processor has been sent an interrupt. *)
Theorem bootothers_starts id fuel bootother mpmain_addr answers c s rs me n :
  (∀ i, ∃ k, (k < fuel)%nat ∧ answers i k = true) → 0 ≤ mpmain_addr < 2 ^ 32 → Forall (λ b, 0 ≤ b < 256) bootother →
  Z.shiftr id 24 = Z.of_nat me → LkKalloc ∉ held c → lapic (mp_of s) ≠ 0 → mp_ncpu (mp_of s) = Z.of_nat n →
  (∀ i, (i < n)%nat → apicids (mp_of s) !! i = Some (Z.of_nat i)) → (n ≤ 256)%nat → (n ≤ length (booted s))%nat →
  woken s = [] → started (ipis_of s) = [] →
  allocator (kmem_of s) rs → PAGE * Z.of_nat n ≤ total rs →
  let others := filter (λ i, i ≠ me) (seq 0 n) in
  ∃ stacks rs' s', bootothers id fuel bootother mpmain_addr answers c s = Ok () c s' ∧
    allocator (kmem_of s') rs' ∧
    started (ipis_of s') = (λ i, (Z.of_nat i, CODE)) <$> others ∧
    woken s' = zip_with (λ i p, (Z.of_nat i, u32 (p + KSTACKSIZE), mpmain_addr)) others stacks ∧
    Forall (λ i, booted s' !! i = Some true) others ∧
    length stacks = length others ∧ NoDup stacks ∧ Forall (taken rs rs') stacks ∧
    ∃ ws, ipis_of s' = ipis_of s ++ ws ∧ ∀ v, (ICRHI, v) ∈ ws → ∃ i, i ∈ others ∧ v = Z.of_nat i * 2 ^ 24.
Proof.
  intros Hans Haddr Hcode Hme Hc Hl Hn Hids H256 Hbt Hw Hst A Ht others. unfold bootothers.
  set (s1 := set_bm (set_mk (set_k_bytes (m_k (b_m s)) (put_bytes CODE bootother (k_bytes (m_k (b_m s))))) (b_m s)) s).
  assert (E : boot_bytes (put_bytes CODE bootother) c s = Ok () c s1) by (by destruct s as [[? ? ? ? ?] ? ? ?]).
  rewrite (bind_Ok _ _ _ _ _ _ _ E), kget_bind. change (mpinfo (m_hw (b_m s1))) with (mp_of s). rewrite Hn, Nat2Z.id.
  assert (Se : settled bootother s1).
  { split; [|change (woken s1) with (woken s); change (ipis_of s1) with (ipis_of s); by rewrite Hw, Hst].
    unfold code_at. apply bool_decide_eq_true. split; [done|]. apply list_eq. intros k. rewrite list_lookup_fmap.
    destruct (bootother !! k) as [x|] eqn:Hk.
    - rewrite lookup_seq_lt by (by eapply lookup_lt_Some). simpl. f_equal.
      by apply (put_bytes_at bootother CODE _ Hcode).
    - rewrite lookup_seq_ge; [done|]. by apply lookup_ge_None. }
  destruct (start_all id fuel bootother mpmain_addr answers Hans Haddr c me Hme Hc (seq 0 n) s1 rs Hl A)
    as (st & rs' & s' & E' & A' & _ & _ & I & W & L & N & T & _ & B).
  - by rewrite length_seq.
  - done.
  - apply Forall_forall. intros i Hi%elem_of_seq. split_and!; [apply Hids; lia|lia|simpl; lia].
  - exists st, rs', s'. fold others in I, W, L, B. change (woken s1) with (woken s) in W. rewrite Hw in W.
    change (ipis_of s1) with (ipis_of s) in I. split_and!; try done.
    + rewrite I. assert (Ho : Forall (λ i, (i < 256)%nat) others).
      { apply Forall_forall. intros i [_ Hi%elem_of_seq]%list_elem_of_filter. lia. }
      by rewrite started_startaps, Hst.
    + exists (mjoin ((λ i, startap_ipis (Z.of_nat i) 7) <$> others)). split; [done|].
      intros v (l & Hv & (a & -> & Ha)%list_elem_of_fmap)%list_elem_of_join. exists a. split; [done|].
      unfold startap_ipis in Hv. repeat (apply elem_of_cons in Hv as [Hv|Hv]; [by inversion Hv|]). by apply elem_of_nil in Hv.
Qed.

(** The condition on the APIC identifiers is needed: [mpmain] sets the flag that its APIC
    identifier indexes, [bootothers] waits for the flag of its place in the tables, and
    with no started processor of that identifier the wait does not end. *)
Theorem wait_booted_hangs mpmain_addr answers c i fuel : ∀ n s,
  Forall (λ w, Z.to_nat w.1.1 ≠ i) (woken s) → booted s !! i = Some false →
  wait_booted mpmain_addr answers fuel n i c s = Diverge.
Proof.
  induction fuel as [|fuel IH]; intros n s Hw Hb; [done|]. cbn [wait_booted]. rewrite kmodify_bind, kget_bind.
  assert (E : flag_each mpmain_addr answers n (woken s) (booted s) !! i = Some false).
  { revert Hb. generalize (booted s). induction Hw as [|w ws Hw _ IHw]; intros b Hb; [done|]. cbn [flag_each foldl].
    apply IHw. repeat case_match; try done. by rewrite list_lookup_insert_ne. }
  cbn [booted set_booted]. rewrite E, deref_bind. by apply IH.
Qed.

(** ** Starting the machine of Mp *)
Definition no_inodes : list inode := replicate 50 (Inode 0 0 0 false false 0 0 0 0 0 (replicate 13 0)).
Definition cold : bootst :=
  BootSt (Machine (KSt (boot_state 0 0) (KMem 0 ∅) ∅ (replicate 100 file_zero) (FsSt ∅ [] no_inodes None) ∅ 0 (Segs 0 0 []))
            (Bio (replicate (S NBUF) boot_buf) None false (Regs 0 0 0 0 0 0 []) 0x40 ∅) 0 [] example_hw)
    [] (replicate NCPU false) [].
Definition example_main (cfg : class_id) : M bootst unit :=
  main 0 0 (λ _, 0) 10 [0xfa] 0x100200 (λ _ _, true) example_memory 0 0x108000 (replicate 256 0x100000) (λ _, 1) cfg
    0x100100 0 [0xeb; 0xfe] [0x90].

(** A timer interrupt. *)
Definition tick : M bootst bool :=
  on_m (trap 10 0 0x100100 [] (λ _, None) (λ _, None) true (λ _, 0) 0
    (Trapframe 0 0 0 0 0 0 0 0 0 0 (IRQ_OFFSET + IRQ_TIMER) 0 0 (SEG_UCODE * 8 + 3) 0 1024 0)).
Definition running_after (o : outcome bootst bool) : option (option nat * list (Z * Z * Z)) :=
  match o with Ok _ _ s => Some (running (k_sch (m_k (b_m s))), woken s) | _ => None end.
Definition faults (o : outcome bootst bool) : bool := match o with Fault => true | _ => false end.

(** The whole start of a machine with two processors, under the simple, fifo and
    round-robin schedulers: the second processor is started, the first runs its idle
    process, and the first clock tick hands it to init, process 0. *)
Theorem main_runs_init :
  Forall (λ cfg, running_after ((example_main cfg;; tick) (KCtx [] []) cold) = Some (Some 0%nat, [(1, 0x1f7000, 0x100200)]))
    [simple_sched_class; sched_class_fifo; sched_class_RR].
Proof. repeat constructor; vm_compute; reflexivity. Qed.

(** Under the scheduler that proc.c selects, the multi-level one, that tick balances the
    load first, and goes through the null pointer of an empty level. *)
Theorem default_tick_reads_null : faults ((example_main sched_class_MLFQ;; tick) (KCtx [] []) cold) = true.
Proof. vm_compute. reflexivity. Qed.

Definition two_cpus : bootst :=
  BootSt (Machine (KSt (boot_state 2 0) (KMem 16384 (<[16384 := Run 0 8192]> ∅)) ∅ [] (FsSt ∅ [] [] None) ∅ 0 (Segs 0 0 []))
            (Bio [] None false (Regs 0 0 0 0 0 0 []) 0x40 ∅) 0 [] example_mp)
    [] (replicate NCPU false) [].
Lemma two_cpus_memory : allocator (kmem_of two_cpus) [(16384, 8192)].
Proof.
  split; simpl; [split_and!; try done; by exists 0|].
  split; [split_and!; try lia; try done; (by exists 4) || (by exists 2)|unfold MEMTOP; lia].
Qed.

Lemma bootothers_starts_witness : ∃ p s', bootothers 0 1 [0xfa] 0x100200 (λ _ _, true) (KCtx [] []) two_cpus = Ok () (KCtx [] []) s' ∧
  woken s' = [(1, u32 (p + KSTACKSIZE), 0x100200)] ∧ started (ipis_of s') = [(1, CODE)].
Proof.
  destruct (bootothers_starts 0 1 [0xfa] 0x100200 (λ _ _, true) (KCtx [] []) two_cpus [(16384, 8192)] 0 2)
    as (st & rs' & s' & E & _ & X & W & _ & L & _).
  - intros i. exists 0%nat. split; [lia|reflexivity].
  - lia.
  - repeat constructor; lia.
  - reflexivity.
  - apply not_elem_of_nil.
  - discriminate.
  - reflexivity.
  - intros [|[|i]] Hi; [reflexivity|reflexivity|lia].
  - lia.
  - vm_compute. lia.
  - reflexivity.
  - reflexivity.
  - apply two_cpus_memory.
  - unfold PAGE. simpl. lia.
  - vm_compute in L. destruct st as [|p [|q st]]; try discriminate L. exists p, s'.
    split; [exact E|]. split; [exact W|exact X].
Defined.
