(* ===== verification/Boot.v ===== *)
(** * The boot loader (bootmain.c)

    [bootmain] runs from the boot sector: it reads the first page of the kernel's
    ELF file from the disk, whose sector 0 is the boot sector itself, then every
    program segment, and jumps to the entry point.  Memory is the byte memory of
    the string functions; the disk gives the 512 bytes of a sector of a drive,
    selected through the same registers as in the disk driver.  The loop of
    [readseg] runs once for each sector it has to read. *)
From S2P Require Import Prelude Kernel ProcData CString FsDisk Kalloc Pipe Fs Mmu KState Bio.
Local Open Scope Z_scope.

(** elf.h *)
Definition ELF_MAGIC : Z := 0x464C457F.
Definition elf_magic (m : mem) (p : Z) : Z := rd32 m p.
Definition elf_entry (m : mem) (p : Z) : Z := rd32 m (p + 24).
Definition elf_phoff (m : mem) (p : Z) : Z := rd32 m (p + 28).
Definition elf_phnum (m : mem) (p : Z) : Z := rd m (p + 44) + 2 ^ 8 * rd m (p + 45).
Definition sizeof_proghdr : Z := 32.
Definition ph_offset (m : mem) (p : Z) : Z := rd32 m (p + 4).
Definition ph_va (m : mem) (p : Z) : Z := rd32 m (p + 8).
Definition ph_memsz (m : mem) (p : Z) : Z := rd32 m (p + 20).

Definition SECTSIZE : Z := 512.

Section boot.
Context (disk : Z * Z → list Z).

(** The writes to the task file, and the words read back. *)
Definition readsect (dst offset : Z) (m : mem) : mem :=
  put_bytes dst
    (disk (lba (Regs 1 (u8 offset) (u8 (Z.shiftr offset 8)) (u8 (Z.shiftr offset 16))
                     (u8 (Z.lor (Z.shiftr offset 24) 0xE0)) 0x20 []))) m.

(** [None]: the loop does not end, which happens when [va] wraps around below [eva]. *)
Fixpoint readseg_loop (fuel : nat) (va eva offset : Z) (m : mem) : option mem :=
  if decide (va < eva) then
    match fuel with
    | O => None
    | S fuel => readseg_loop fuel (u32 (va + SECTSIZE)) eva (u32 (offset + 1)) (readsect va offset m)
    end
  else Some m.

Definition readseg (va count offset : Z) (m : mem) : option mem :=
  let eva := u32 (va + count) in
  let va := Z.land va (Z.lnot (SECTSIZE - 1)) in
  let offset := offset / SECTSIZE + 1 in
  readseg_loop (Z.to_nat ((eva - va) / SECTSIZE + 1)) va eva offset m.

(** The loop over the program headers, which are read from memory each time. *)
Fixpoint load_segments (n : nat) (ph : Z) (m : mem) : option mem :=
  match n with
  | O => Some m
  | S n =>
      m ← readseg (Z.land (ph_va m ph) 0xFFFFFF) (ph_memsz m ph) (ph_offset m ph) m;
      load_segments n (u32 (ph + sizeof_proghdr)) m
  end.

(** The jump to the entry point, the loop at [bad], or a segment that never ends. *)
Inductive boot_end := Jump (m : mem) (entry : Z) | Bad | Stuck.

Definition bootmain (m : mem) : boot_end :=
  let elf := 0x10000 in
  match readseg elf (SECTSIZE * 8) 0 m with
  | None => Stuck
  | Some m =>
      if decide (elf_magic m elf ≠ ELF_MAGIC) then Bad
      else
        match load_segments (Z.to_nat (elf_phnum m elf)) (u32 (elf + elf_phoff m elf)) m with
        | None => Stuck
        | Some m => Jump m (Z.land (elf_entry m elf) 0xFFFFFF)
        end
  end.
End boot.

(** ** What is loaded *)
Section loads.
(** The file's bytes, and the disk that holds them from sector 1 on. *)
Context (fb : Z → Z) (Hfb : ∀ i, 0 ≤ fb i < 256).
Context (disk : Z * Z → list Z).
Context (Hdisk : ∀ i, 0 ≤ i < 2 ^ 28 - 1 → disk (0, i + 1) = (λ j, fb (512 * i + Z.of_nat j)) <$> seq 0 512).

Lemma lba_sector n : 0 ≤ n < 2 ^ 28 →
  lba (Regs 1 (u8 n) (u8 (Z.shiftr n 8)) (u8 (Z.shiftr n 16)) (u8 (Z.lor (Z.shiftr n 24) 0xE0)) 0x20 []) = (0, n).
Proof.
  intros Hn. unfold lba. cbn [r_head r_lba0 r_lba1 r_lba2].
  assert (H : 0 ≤ Z.shiftr n 24 < 16).
  { rewrite Z.shiftr_div_pow2 by lia. split; [apply Z.div_pos; lia|apply Z.div_lt_upper_bound; lia]. }
  apply (below_check (λ h, bool_decide (Z.land (Z.shiftr (u8 (Z.lor h 0xE0)) 4) 1 = 0 ∧ Z.land (u8 (Z.lor h 0xE0)) 0x0f = h)) 16)
    in H; [|vm_compute; reflexivity]. apply bool_decide_eq_true in H as [-> ->]. f_equal.
  unfold u8. rewrite !Z.shiftr_div_pow2 by lia.
  replace (n / 2 ^ 24) with (n / 2 ^ 8 / 2 ^ 8 / 2 ^ 8) by (rewrite !Z.div_div by lia; f_equal).
  replace (n / 2 ^ 16) with (n / 2 ^ 8 / 2 ^ 8) by (rewrite !Z.div_div by lia; f_equal).
  pose proof (Z.div_mod n (2 ^ 8) ltac:(lia)). pose proof (Z.div_mod (n / 2 ^ 8) (2 ^ 8) ltac:(lia)).
  pose proof (Z.div_mod (n / 2 ^ 8 / 2 ^ 8) (2 ^ 8) ltac:(lia)). lia.
Qed.

Lemma put_bytes_rd l : Forall (λ b, 0 ≤ b < 256) l → ∀ a m x, a ≤ x < a + Z.of_nat (length l) →
  rd (put_bytes a l m) x = l !!! Z.to_nat (x - a).
Proof.
  intros F a m x Hx. pose proof (put_bytes_at l a m F) as B.
  destruct (lookup_lt_is_Some_2 l (Z.to_nat (x - a))) as [b Hb]; [lia|]. specialize (B _ _ Hb).
  rewrite Z2Nat.id in B by lia. replace (a + (x - a)) with x in B by lia. rewrite B.
  symmetry. by apply list_lookup_total_correct.
Qed.

Lemma readsect_rd dst i m x : 0 ≤ i < 2 ^ 28 - 1 →
  rd (readsect disk dst (i + 1) m) x = if decide (dst ≤ x < dst + 512) then fb (512 * i + (x - dst)) else rd m x.
Proof.
  intros Hi. unfold readsect. rewrite lba_sector, Hdisk by lia. set (l := _ <$> seq 0 512).
  assert (L : length l = 512%nat) by (unfold l; by rewrite length_fmap, length_seq).
  destruct (decide (dst ≤ x < dst + 512)) as [D|D].
  - rewrite put_bytes_rd; [|apply Forall_fmap, Forall_forall; intros; apply Hfb|rewrite L; lia].
    unfold l. apply list_lookup_total_correct. rewrite list_lookup_fmap, lookup_seq_lt by lia. simpl. do 2 f_equal. lia.
  - apply put_bytes_outside. rewrite L. lia.
Qed.

Lemma readseg_loop_rd n : ∀ fuel va eva i m, (n ≤ fuel)%nat → 0 ≤ va → 0 ≤ i → i + Z.of_nat n < 2 ^ 28 - 1 →
  va + 512 * Z.of_nat n < 2 ^ 32 → va + 512 * (Z.of_nat n - 1) < eva ≤ va + 512 * Z.of_nat n →
  ∃ m', readseg_loop disk fuel va eva (i + 1) m = Some m' ∧
    ∀ x, rd m' x = if decide (va ≤ x < va + 512 * Z.of_nat n) then fb (512 * i + (x - va)) else rd m x.
Proof.
  induction n as [|n IH]; intros fuel va eva i m Hf Hv Hi Hn Hw He.
  { exists m. split; [destruct fuel; simpl; by rewrite decide_False by lia|]. intros x. by rewrite decide_False by lia. }
  destruct fuel as [|fuel]; [lia|]. cbn [readseg_loop]. rewrite decide_True by lia. unfold SECTSIZE.
  rewrite !u32_small by lia.
  destruct (IH fuel (va + 512) eva (i + 1) (readsect disk va (i + 1) m)) as (m' & E & R); [lia..|].
  exists m'. split; [exact E|]. intros x. rewrite R, readsect_rd by lia.
  destruct (decide (va + 512 ≤ x < va + 512 + 512 * Z.of_nat n)).
  - rewrite decide_True by lia. f_equal. lia.
  - destruct (decide (va ≤ x < va + 512)); [by rewrite decide_True by lia|by rewrite decide_False by lia].
Qed.

(** The sectors that hold [va .. va + count). *)
Definition first_sector (va : Z) : Z := 512 * (va / 512).
Definition sectors (va count : Z) : Z := (va mod 512 + count + 511) / 512.

(** [readseg] copies whole sectors, correctly when the segment has the same place
    in its first sector in the file and in memory. *)
Lemma readseg_rd va count off m : 0 ≤ va → 0 ≤ count → 0 ≤ off → va + count < 2 ^ 31 → off + count < 2 ^ 31 →
  off mod 512 = va mod 512 → ∃ m', readseg disk va count off m = Some m' ∧
    ∀ x, rd m' x = if decide (first_sector va ≤ x < first_sector va + 512 * sectors va count)
                   then fb (x - va + off) else rd m x.
Proof.
  intros Hv Hc Ho H1 H2 Hm. unfold readseg, SECTSIZE, first_sector, sectors.
  pose proof (Z.mod_pos_bound va 512 ltac:(lia)) as Mv. pose proof (Z.div_mod va 512 ltac:(lia)) as Dv.
  pose proof (Z.div_mod off 512 ltac:(lia)) as Do.
  assert (L : Z.land va (Z.lnot (512 - 1)) = 512 * (va / 512)).
  { change (512 - 1) with (Z.ones 9). rewrite <- Z.ldiff_land, Z.ldiff_ones_r by lia.
    rewrite Z.shiftl_mul_pow2, Z.shiftr_div_pow2 by lia. change (2 ^ 9) with 512. lia. }
  rewrite L, u32_small by lia. set (n := (va mod 512 + count + 511) / 512).
  pose proof (Z.div_mod (va mod 512 + count + 511) 512 ltac:(lia)) as Dn. fold n in Dn.
  pose proof (Z.mod_pos_bound (va mod 512 + count + 511) 512 ltac:(lia)) as Mn.
  pose proof (Z.div_pos off 512 Ho ltac:(lia)). pose proof (Z.div_pos va 512 Hv ltac:(lia)).
  assert (0 ≤ n) by (apply Z.div_pos; lia).
  pose proof (Z.div_mod (va + count - 512 * (va / 512)) 512 ltac:(lia)) as Df.
  pose proof (Z.mod_pos_bound (va + count - 512 * (va / 512)) 512 ltac:(lia)).
  destruct (readseg_loop_rd (Z.to_nat n) (Z.to_nat ((va + count - 512 * (va / 512)) / 512 + 1)) (512 * (va / 512))
    (va + count) (off / 512) m) as (m' & E & R); [lia..|].
  exists m'. split; [exact E|]. intros x. rewrite R, Z2Nat.id by lia. case_decide; [|done]. f_equal. lia.
Qed.
(** ** The kernel *)

(** The fields of the file's headers. *)
Definition fw (o : Z) : Z := fb o + 2 ^ 8 * fb (o + 1) + 2 ^ 16 * fb (o + 2) + 2 ^ 24 * fb (o + 3).
Definition phnum : Z := fb 44 + 2 ^ 8 * fb 45.
Definition seg_off (i : Z) : Z := fw (fw 28 + 32 * i + 4).
Definition seg_va (i : Z) : Z := Z.land (fw (fw 28 + 32 * i + 8)) 0xFFFFFF.
Definition seg_memsz (i : Z) : Z := fw (fw 28 + 32 * i + 20).
(** The sectors of memory segment [i] is loaded into. *)
Definition in_seg (i x : Z) : Prop :=
  first_sector (seg_va i) ≤ x < first_sector (seg_va i) + 512 * sectors (seg_va i) (seg_memsz i).
Definition header_page (x : Z) : Prop := 0x10000 ≤ x < 0x11000.

(** A kernel the loader can load: an ELF file whose program headers are in its first
    page, every segment of which has the same place within a sector in the file as
    in memory and stays clear of the page the headers are read into; segments that
    meet in a sector are also next to each other in the file. *)
Record loadable : Prop := {
  ld_magic : fw 0 = ELF_MAGIC;
  ld_headers : fw 28 + 32 * phnum ≤ 4096;
  ld_align : ∀ i, 0 ≤ i < phnum → seg_off i mod 512 = seg_va i mod 512;
  ld_bounds : ∀ i, 0 ≤ i < phnum → seg_va i + seg_memsz i < 2 ^ 31 ∧ seg_off i + seg_memsz i < 2 ^ 31;
  ld_clear : ∀ i x, 0 ≤ i < phnum → in_seg i x → ¬ header_page x;
  ld_meet : ∀ i j x, 0 ≤ i < phnum → 0 ≤ j < phnum → in_seg i x → in_seg j x →
    seg_off i - seg_va i = seg_off j - seg_va j
}.
Context (L : loadable).

Lemma fw_range o : 0 ≤ fw o < 2 ^ 32.
Proof. unfold fw. pose proof (Hfb o). pose proof (Hfb (o + 1)). pose proof (Hfb (o + 2)). pose proof (Hfb (o + 3)). lia. Qed.

Lemma seg_va_range i : 0 ≤ seg_va i < 2 ^ 24.
Proof. unfold seg_va. change 0xFFFFFF with (Z.ones 24). rewrite Z.land_ones by lia. apply Z.mod_pos_bound. lia. Qed.

(** Memory with the header page and the first [k] segments loaded, [m0] elsewhere. *)
Record loaded (m0 : mem) (k : Z) (m : mem) : Prop := {
  lo_page : ∀ x, header_page x → rd m x = fb (x - 0x10000);
  lo_segs : ∀ i x, 0 ≤ i < k → in_seg i x → rd m x = fb (x - seg_va i + seg_off i);
  lo_rest : ∀ x, ¬ header_page x → (∀ i, 0 ≤ i < k → ¬ in_seg i x) → rd m x = rd m0 x
}.

Lemma page_word m0 k m o : loaded m0 k m → 0 ≤ o ≤ 4092 → rd32 m (0x10000 + o) = fw o.
Proof.
  intros I Ho. assert (P : ∀ d, 0 ≤ d ≤ 3 → rd m (0x10000 + o + d) = fb (o + d)).
  { intros d Hd. rewrite (lo_page _ _ _ I) by (unfold header_page; lia). f_equal. lia. }
  unfold rd32, fw. rewrite !P by lia. specialize (P 0). rewrite !Z.add_0_r in P. by rewrite P by lia.
Qed.

Lemma load_segment m0 k m : loaded m0 k m → 0 ≤ k < phnum →
  ∃ m', readseg disk (seg_va k) (seg_memsz k) (seg_off k) m = Some m' ∧ loaded m0 (k + 1) m'.
Proof.
  intros I Hk. destruct (ld_bounds L k Hk) as [B1 B2]. pose proof (seg_va_range k).
  pose proof (fw_range (fw 28 + 32 * k + 20)) as R1. pose proof (fw_range (fw 28 + 32 * k + 4)) as R2.
  destruct (readseg_rd (seg_va k) (seg_memsz k) (seg_off k) m) as (m' & E & R); [lia|apply R1|apply R2|done|done|by apply (ld_align L)|].
  exists m'. split; [exact E|]. split.
  - intros x Hx. rewrite R, decide_False by (intros X; by apply (ld_clear L k x Hk X)). by apply (lo_page _ _ _ I).
  - intros i x Hi Hx. rewrite R. case_decide as D.
    + f_equal. pose proof (ld_meet L i k x ltac:(lia) Hk Hx D). lia.
    + apply (lo_segs _ _ _ I); [|done]. destruct (decide (i = k)) as [->|]; [done|lia].
  - intros x Hp Hn. rewrite R, decide_False by (apply (Hn k); lia). apply (lo_rest _ _ _ I); [done|]. intros i Hi. apply Hn. lia.
Qed.

Lemma load_all m0 n : ∀ k m, 0 ≤ k → k + Z.of_nat n = phnum → loaded m0 k m →
  ∃ m', load_segments disk n (0x10000 + (fw 28 + 32 * k)) m = Some m' ∧ loaded m0 phnum m'.
Proof.
  induction n as [|n IH]; intros k m Hk Hn I; cbn [load_segments].
  { exists m. split; [done|]. by replace phnum with k by lia. }
  pose proof (ld_headers L) as H. pose proof (fw_range 28). unfold ph_va, ph_memsz, ph_offset, sizeof_proghdr.
  replace (0x10000 + (fw 28 + 32 * k) + 8) with (0x10000 + (fw 28 + 32 * k + 8)) by lia.
  replace (0x10000 + (fw 28 + 32 * k) + 20) with (0x10000 + (fw 28 + 32 * k + 20)) by lia.
  replace (0x10000 + (fw 28 + 32 * k) + 4) with (0x10000 + (fw 28 + 32 * k + 4)) by lia.
  rewrite !(page_word _ _ _ _ I) by lia. fold (seg_va k) (seg_memsz k) (seg_off k).
  destruct (load_segment m0 k m I ltac:(lia)) as (m1 & E & I1). rewrite E. cbn [mbind option_bind].
  rewrite u32_small by lia.
  replace (0x10000 + (fw 28 + 32 * k) + 32) with (0x10000 + (fw 28 + 32 * (k + 1))) by lia.
  apply IH; [lia|lia|done].
Qed.

Lemma boot_run m : ∃ m', bootmain disk m = Jump m' (Z.land (fw 24) 0xFFFFFF) ∧ loaded m phnum m'.
Proof.
  unfold bootmain. destruct (readseg_rd 0x10000 (SECTSIZE * 8) 0 m) as (m1 & E & R); [unfold SECTSIZE; lia..|done|].
  rewrite E. assert (I : loaded m 0 m1).
  { split; [|intros; lia|].
    - intros x Hx. rewrite R, decide_True by exact Hx. f_equal. lia.
    - intros x Hx _. by rewrite R, decide_False by exact Hx. }
  pose proof (ld_headers L) as H. pose proof (fw_range 28) as Hw.
  pose proof (Hfb 44) as B1. pose proof (Hfb 45) as B2. cbv zeta. unfold elf_magic, elf_phoff, elf_entry.
  assert (P : elf_phnum m1 0x10000 = phnum).
  { unfold elf_phnum, phnum. by rewrite !(lo_page _ _ _ I) by (unfold header_page; lia). }
  rewrite P, (page_word _ _ _ 28 I), u32_small by (unfold phnum in H; lia).
  pose proof (page_word _ _ _ 0 I ltac:(lia)) as Mg. rewrite (ld_magic L) in Mg.
  rewrite decide_False by (intros X; by apply X).
  destruct (load_all m (Z.to_nat phnum) 0 m1) as (m' & El & I'); [lia|unfold phnum; lia|done|].
  rewrite Z.mul_0_r, Z.add_0_r in El. rewrite El. exists m'. split; [|done]. by rewrite (page_word _ _ _ 24 I') by lia.
Qed.
End loads.

(** C22 The boot loader loads the kernel: started with any memory on a disk that holds
    a loadable ELF file from sector 1 on, it jumps to the file's entry point with
    every byte of every program segment in place, and has changed nothing outside
    the sectors of the segments and the page at [0x10000]. *)
Theorem bootmain_loads fb disk m :
  (∀ i, 0 ≤ fb i < 256) →
  (∀ i, 0 ≤ i < 2 ^ 28 - 1 → disk (0, i + 1) = (λ j, fb (512 * i + Z.of_nat j)) <$> seq 0 512) →
  loadable fb →
  ∃ m', bootmain disk m = Jump m' (Z.land (fw fb 24) 0xFFFFFF) ∧
    (∀ i x, 0 ≤ i < phnum fb → seg_va fb i ≤ x < seg_va fb i + seg_memsz fb i →
       rd m' x = fb (x - seg_va fb i + seg_off fb i)) ∧
    (∀ x, ¬ header_page x → (∀ i, 0 ≤ i < phnum fb → ¬ in_seg fb i x) → rd m' x = rd m x).
Proof.
  intros Hfb Hd L. destruct (boot_run fb Hfb disk Hd L m) as (m' & E & I). exists m'. split; [exact E|].
  split; [|apply (lo_rest _ _ _ _ I)]. intros i x Hi Hx. apply (lo_segs _ _ _ _ I); [done|].
  unfold in_seg, first_sector, sectors. pose proof (Z.div_mod (seg_va fb i) 512 ltac:(lia)).
  pose proof (Z.mod_pos_bound (seg_va fb i) 512 ltac:(lia)).
  pose proof (Z.div_mod (seg_va fb i mod 512 + seg_memsz fb i + 511) 512 ltac:(lia)).
  pose proof (Z.mod_pos_bound (seg_va fb i mod 512 + seg_memsz fb i + 511) 512 ltac:(lia)). lia.
Qed.

(** ** An example: a kernel with one segment of 1000 bytes, 0x80 bytes into its file *)
Definition example_headers : list Z :=
  [0x7F; 0x45; 0x4C; 0x46] ++ replicate 20 0 ++ [0x80; 0; 0x10; 0] ++ [52; 0; 0; 0] ++ replicate 12 0 ++ [1; 0] ++
  replicate 6 0 ++ [1; 0; 0; 0] ++ [0x80; 0; 0; 0] ++ [0x80; 0; 0x10; 0] ++ replicate 8 0 ++ [0xE8; 3; 0; 0] ++ replicate 8 0.
(** After the headers, byte [i] of the file is [i mod 251]. *)
Definition example_file (i : Z) : Z :=
  if decide (0 ≤ i < 84) then example_headers !!! Z.to_nat i else i mod 251.
Definition example_disk (k : Z * Z) : list Z := (λ j, example_file (512 * (k.2 - 1) + Z.of_nat j)) <$> seq 0 512.

Lemma example_file_byte i : 0 ≤ example_file i < 256.
Proof.
  unfold example_file. case_decide as D.
  - apply (below_check (λ i, bool_decide (0 ≤ example_headers !!! Z.to_nat i < 256)) 84) in D; [|vm_compute; reflexivity].
    by apply bool_decide_eq_true in D.
  - pose proof (Z.mod_pos_bound i 251). lia.
Qed.

Lemma example_loadable : loadable example_file.
Proof.
  assert (N : phnum example_file = 1) by reflexivity.
  assert (V : seg_va example_file 0 = 0x100080 ∧ seg_memsz example_file 0 = 1000 ∧ seg_off example_file 0 = 0x80) by (vm_compute; done).
  destruct V as (V1 & V2 & V3). split; rewrite ?N.
  - reflexivity.
  - vm_compute. discriminate.
  - intros i Hi. replace i with 0 by lia. by rewrite V1, V3.
  - intros i Hi. replace i with 0 by lia. rewrite V1, V2, V3. lia.
  - intros i x Hi. replace i with 0 by lia. unfold in_seg, header_page. rewrite V1, V2. vm_compute first_sector. lia.
  - intros i j x Hi Hj _ _. by replace i with j by lia.
Qed.

Lemma bootmain_loads_witness : ∃ m', bootmain example_disk ∅ = Jump m' 0x100080 ∧ rd m' 0x100100 = 0x100 mod 251.
Proof.
  destruct (bootmain_loads example_file example_disk ∅) as (m' & E & R & _).
  - apply example_file_byte.
  - intros i Hi. unfold example_disk. cbn [snd]. by replace (i + 1 - 1) with i by lia.
  - apply example_loadable.
  - exists m'. split; [exact E|].
    assert (X : rd m' 0x100100 = example_file (0x100100 - seg_va example_file 0 + seg_off example_file 0)).
    { apply R; [split; [lia|reflexivity]|]. vm_compute. split; [discriminate|reflexivity]. }
    rewrite X. vm_compute. reflexivity.
Defined.
