(* ===== verification/User.v ===== *)
(** * User programs (cat.c, wc.c, echo.c, ls.c, rm.c, mkdir.c, ln.c, kill.c, zombie.c, init.c, idle.c; gets and stat of ulib.c)

    A user program is a tree of the system calls it makes: [prog].  The programs
    are written in that monad; [main] gets the arguments after [argv[0]].  A loop
    takes fuel and ends in [Spin] without it.  [printf] writes one byte at a time,
    as [putc] does.

    [os] is what a process can see of the system calls on files: regular files
    with their contents, its open descriptors, the bytes written to the standard
    output, and an oracle for how much a read returns when less than asked for is
    available at once.  [run] runs a program on it. *)
From S2P Require Import Prelude CString Printf.
Local Open Scope Z_scope.

(** What fstat tells. *)
Record ustat := UStat { u_type : Z; u_ino : Z; u_size : Z }.

(** A system call and what it returns; -1 is [None] where the call also delivers
    data. *)
Inductive sysE : Type → Type :=
| SOpen (path : list Z) (omode : Z) : sysE Z
| SClose (fd : Z) : sysE Z
| SRead (fd n : Z) : sysE (option (list Z))
| SWrite (fd : Z) (l : list Z) : sysE Z
| SFstat (fd : Z) : sysE (option ustat)
| SDup (fd : Z) : sysE Z
| SPipe : sysE (option (Z * Z))
| SFork : sysE Z
| SWait : sysE Z
| SExec (path : list Z) (argv : list (list Z)) : sysE Z
| SExit : sysE Empty_set
| SMknod (path : list Z) (major minor : Z) : sysE Z
| SMkdir (path : list Z) : sysE Z
| SUnlink (path : list Z) : sysE Z
| SLink (old new : list Z) : sysE Z
| SChdir (path : list Z) : sysE Z
| SKill (pid : Z) : sysE Z
| SGetpid : sysE Z
| SSleep (n : Z) : sysE Z.

(** [Crash] is an access to bad memory, [Spin] a loop without fuel. *)
Inductive prog (A : Type) : Type :=
| Ret (a : A)
| Vis (X : Type) (e : sysE X) (k : X → prog A)
| Crash
| Spin.
Arguments Ret {A} a.
Arguments Vis {A} X e k.
Arguments Crash {A}.
Arguments Spin {A}.

Fixpoint tbind {A B} (p : prog A) (f : A → prog B) : prog B :=
  match p with
  | Ret a => f a
  | Vis X e k => Vis X e (λ x, tbind (k x) f)
  | Crash => Crash
  | Spin => Spin
  end.
#[export] Instance prog_ret : MRet prog := λ A a, Ret a.
#[export] Instance prog_bind : MBind prog := λ A B f p, tbind p f.

Definition call {X} (e : sysE X) : prog X := Vis X e Ret.
Definition uexit {A} : prog A := Vis _ SExit (λ x, match x with end).

(** ** printf.c *)
Fixpoint puts (fd : Z) (l : list Z) : prog unit :=
  match l with [] => mret () | c :: l => call (SWrite fd [c]);; puts fd l end.
Definition uprintf (fd : Z) (fmt : list Z) (ap : list arg) : prog unit :=
  match printf fmt ap with Some l => puts fd l | None => Crash end.
(** A format that ends with a newline. *)
Definition line (s : string) : list Z := lit s ++ [10].
Definition str (l : list Z) : arg := Ptr (Some l).

Fixpoint for_all {A} (l : list A) (f : A → prog unit) : prog unit :=
  match l with [] => mret () | x :: l => f x;; for_all l f end.

(** ** cat.c *)
Definition BUF : Z := 512.

Fixpoint cat (fuel : nat) (fd : Z) : prog unit :=
  match fuel with
  | O => Spin
  | S fuel =>
      r ← call (SRead fd BUF);
      match r with
      | None => uprintf 1 (line "cat: read error") [];; uexit
      | Some [] => mret ()
      | Some l => call (SWrite 1 l);; cat fuel fd
      end
  end.

(** [main] of cat.c and of wc.c: [body] for standard input or for every file. *)
Definition each_file (body : Z → list Z → prog unit) (argv : list (list Z)) : prog unit :=
  match argv with
  | [] => body 0 [];; uexit
  | _ =>
      for_all argv (λ path,
        fd ← call (SOpen path 0);
        if decide (fd < 0) then uprintf 1 (line "cat: cannot open %s") [str path];; uexit
        else body fd path;; call (SClose fd);; mret ());;
      uexit
  end.
Definition cat_main (fuel : nat) (argv : list (list Z)) : prog unit := each_file (λ fd _, cat fuel fd) argv.

(** ** wc.c *)
Definition space : list Z := [32; 13; 9; 10; 11].

Record counts := Counts { c_l : Z; c_w : Z; c_c : Z; inword : bool }.
(** The body of the inner loop; the counters are [int]s. *)
Definition wc_char (x : counts) (b : Z) : counts :=
  let c := s32 (c_c x + 1) in
  let l := if decide (b = 10) then s32 (c_l x + 1) else c_l x in
  if decide (b ∈ space) then Counts l (c_w x) c false
  else if inword x then Counts l (c_w x) c true
  else Counts l (s32 (c_w x + 1)) c true.

Fixpoint wc_loop (fuel : nat) (fd : Z) (x : counts) : prog counts :=
  match fuel with
  | O => Spin
  | S fuel =>
      r ← call (SRead fd BUF);
      match r with
      | None => uprintf 1 (line "wc: read error") [];; uexit
      | Some [] => mret x
      | Some l => wc_loop fuel fd (foldl wc_char x l)
      end
  end.
Definition wc (fuel : nat) (fd : Z) (name : list Z) : prog unit :=
  x ← wc_loop fuel fd (Counts 0 0 0 false);
  uprintf 1 (line "%d %d %d %s") [Num (c_l x); Num (c_w x); Num (c_c x); str name].
Definition wc_main (fuel : nat) (argv : list (list Z)) : prog unit := each_file (wc fuel) argv.

(** ** echo.c *)
Fixpoint echo (argv : list (list Z)) : prog unit :=
  match argv with
  | [] => mret ()
  | s :: argv => uprintf 1 (lit "%s%s") [str s; str (match argv with [] => [10] | _ => [32] end)];; echo argv
  end.
Definition echo_main (argv : list (list Z)) : prog unit := echo argv;; uexit.

(** ** rm.c, mkdir.c, ln.c, kill.c, zombie.c *)
Fixpoint until_fails (f : list Z → sysE Z) (msg : list Z) (argv : list (list Z)) : prog unit :=
  match argv with
  | [] => mret ()
  | p :: argv =>
      r ← call (f p);
      if decide (r < 0) then uprintf 2 msg [str p] else until_fails f msg argv
  end.
Definition rm_main (argv : list (list Z)) : prog unit :=
  match argv with
  | [] => uprintf 2 (line "Usage: rm files...") [];; uexit
  | _ => until_fails SUnlink (line "rm: %s failed to delete") argv;; uexit
  end.
Definition mkdir_main (argv : list (list Z)) : prog unit :=
  match argv with
  | [] => uprintf 2 (line "Usage: mkdir files...") [];; uexit
  | _ => until_fails SMkdir (line "mkdir: %s failed to create") argv;; uexit
  end.
Definition ln_main (argv : list (list Z)) : prog unit :=
  match argv with
  | [old; new] =>
      r ← call (SLink old new);
      (if decide (r < 0) then uprintf 2 (line "link %s %s: failed") [str old; str new] else mret ());;
      uexit
  | _ => uprintf 2 (line "Usage: ln old new") [];; uexit
  end.
(** [atoi] of a string, given as a list. *)
Fixpoint atoi_list (l : list Z) (n : Z) : Z :=
  match l with
  | [] => n
  | c :: l => if decide (48 ≤ c ∧ c ≤ 57) then atoi_list l (s32 (n * 10 + c - 48)) else n
  end.
(** [argc < 1] does not happen: [argv[0]] is the program's name. *)
Definition kill_main (argv : list (list Z)) : prog unit :=
  for_all argv (λ s, call (SKill (atoi_list s 0));; mret ());; uexit.
Definition zombie_main : prog unit :=
  pid ← call SFork;
  (if decide (pid > 0) then call (SSleep 5);; mret () else mret ());;
  uexit.

(** idle.c: [i] is not initialised, and [main] returns, to the address 0xffffffff that
    exec left on the stack. *)
Definition idle_main (i : Z) : prog unit := uprintf 1 (line "in idle") [Num i];; Crash.

(** ** init.c *)
Definition O_RDWR : Z := 2.

Fixpoint init_wait (fuel : nat) (pid : Z) : prog unit :=
  match fuel with
  | O => Spin
  | S fuel =>
      wpid ← call SWait;
      if decide (wpid >= 0 ∧ wpid ≠ pid) then uprintf 1 (line "zombie!") [];; init_wait fuel pid else mret ()
  end.
Fixpoint init_loop (fuel : nat) : prog unit :=
  match fuel with
  | O => Spin
  | S fuel' =>
      uprintf 1 (line "init: starting sh") [];;
      pid ← call SFork;
      (if decide (pid < 0) then uprintf 1 (line "init: fork failed") [];; uexit else mret ());;
      (if decide (pid = 0) then
         call (SExec (lit "sh") [lit "sh"]);;
         uprintf 1 (line "init: exec sh failed") [];; uexit
       else mret ());;
      init_wait fuel pid;;
      init_loop fuel'
  end.
Definition init_main (fuel : nat) : prog unit :=
  call SGetpid;;
  fd ← call (SOpen (lit "console") O_RDWR);
  (if decide (fd < 0) then
     call (SMknod (lit "console") 1 1);;
     call (SOpen (lit "console") O_RDWR);; mret ()
   else mret ());;
  call (SDup 0);;
  call (SDup 0);;
  init_loop fuel.

(** ** ulib.c *)
Definition stat (n : list Z) : prog (option ustat) :=
  fd ← call (SOpen n 0);
  if decide (fd < 0) then mret None
  else r ← call (SFstat fd); call (SClose fd);; mret r.

(** [gets(buf, max)]: the bytes before the terminating NUL. *)
Fixpoint gets_loop (k : nat) (l : list Z) : prog (list Z) :=
  match k with
  | O => mret l
  | S k =>
      r ← call (SRead 0 1);
      match r with
      | Some [c] => if decide (c = 10 ∨ c = 13) then mret (l ++ [c]) else gets_loop k (l ++ [c])
      | _ => mret l
      end
  end.
Definition gets (max : nat) : prog (list Z) := gets_loop (max - 1) [].

(** ** ls.c *)
Definition DIRSIZ : nat := 14.
Definition T_DIR : Z := 1.
Definition T_FILE : Z := 2.

(** The scan of [fmtname] from the end of the path back to a slash. *)
Fixpoint back_to_slash (rev name : list Z) : list Z :=
  match rev with
  | [] => name
  | c :: rev => if decide (c = 47) then name else back_to_slash rev (c :: name)
  end.
Definition fmtname (path : list Z) : list Z :=
  let p := back_to_slash (reverse path) [] in
  if decide (DIRSIZ ≤ length p)%nat then p else p ++ replicate (DIRSIZ - length p) 32.

(** The characters of an array before its first NUL. *)
Fixpoint until_nul (l : list Z) : list Z :=
  match l with [] => [] | c :: l => if decide (c = 0) then [] else c :: until_nul l end.

Definition show_stat (name : list Z) (st : ustat) : prog unit :=
  uprintf 1 (line "%s %d %d %d") [str name; Num (u_type st); Num (u_ino st); Num (u_size st)].

(** The loop over a directory; [path] ends with the slash. *)
Fixpoint ls_entries (fuel : nat) (fd : Z) (path : list Z) : prog unit :=
  match fuel with
  | O => Spin
  | S fuel =>
      r ← call (SRead fd 16);
      match r with
      | Some (i0 :: i1 :: name) =>
          if decide (length name = DIRSIZ) then
            (if decide (i0 + 256 * i1 = 0) then mret ()
             else
               let buf := path ++ until_nul name in
               st ← stat buf;
               match st with
               | None => uprintf 1 (line "ls: cannot stat %s") [str buf]
               | Some st => show_stat (fmtname buf) st
               end);;
            ls_entries fuel fd path
          else mret ()
      | _ => mret ()
      end
  end.

Definition ls (fuel : nat) (path : list Z) : prog unit :=
  fd ← call (SOpen path 0);
  if decide (fd < 0) then uprintf 2 (line "ls: cannot open %s") [str path]
  else
    r ← call (SFstat fd);
    match r with
    | None => uprintf 2 (line "ls: cannot stat %s") [str path];; call (SClose fd);; mret ()
    | Some st =>
        (if decide (u_type st = T_FILE) then show_stat (fmtname path) st
         else if decide (u_type st = T_DIR) then
           if decide (512 < length path + 1 + DIRSIZ + 1)%nat then uprintf 1 (line "ls: path too long") []
           else ls_entries fuel fd (path ++ [47])
         else mret ());;
        call (SClose fd);; mret ()
    end.
Definition ls_main (fuel : nat) (argv : list (list Z)) : prog unit :=
  match argv with
  | [] => ls fuel (lit ".");; uexit
  | _ => for_all argv (ls fuel);; uexit
  end.

(** ** What a process sees of the kernel *)
Record os := Os {
  o_files : gmap (list Z) (list Z);
  o_fds : gmap Z (list Z * nat);      (* the file and the offset *)
  o_out : list Z;
  o_next : Z;                         (* the next descriptor [open] returns *)
  o_partial : list nat                (* how much a read delivers at most *)
}.

(** A read delivers at least one byte where there is one. *)
Definition read_len (n : Z) (avail : nat) (partial : list nat) : nat :=
  Z.to_nat n `min` (avail `min` S (default avail (head partial))).

Definition os_call {X} (e : sysE X) : os → option (X * os) :=
  match e in sysE X return os → option (X * os) with
  | SOpen path omode => λ s,
      match o_files s !! path with
      | Some _ => Some (o_next s, Os (o_files s) (<[o_next s := (path, 0%nat)]> (o_fds s)) (o_out s) (o_next s + 1) (o_partial s))
      | None => Some (-1, s)
      end
  | SClose fd => λ s, Some (0, Os (o_files s) (delete fd (o_fds s)) (o_out s) (o_next s) (o_partial s))
  | SRead fd n => λ s,
      match o_fds s !! fd with
      | Some (path, off) =>
          let l := drop off (default [] (o_files s !! path)) in
          let k := read_len n (length l) (o_partial s) in
          Some (Some (take k l), Os (o_files s) (<[fd := (path, off + k)%nat]> (o_fds s)) (o_out s) (o_next s) (tail (o_partial s)))
      | None => Some (None, s)
      end
  | SWrite fd l => λ s,
      if decide (fd = 1) then
        Some (Z.of_nat (length l), Os (o_files s) (o_fds s) (o_out s ++ l) (o_next s) (o_partial s))
      else Some (Z.of_nat (length l), s)
  | _ => λ _, None
  end.

Inductive ending (A : Type) := Returned (a : A) (s : os) | Exited (s : os) | Wrong.
Arguments Returned {A} a s.
Arguments Exited {A} s.
Arguments Wrong {A}.

Fixpoint run {A} (p : prog A) (s : os) : ending A :=
  match p with
  | Ret a => Returned a s
  | Vis X e k =>
      match e with
      | SExit => Exited s
      | _ => match os_call e s with Some (x, s) => run (k x) s | None => Wrong end
      end
  | Crash | Spin => Wrong
  end.

(** ** Running programs *)
Lemma run_bind {A B} (p : prog A) (f : A → prog B) : ∀ s,
  run (p ≫= f) s = match run p s with Returned a s' => run (f a) s' | Exited s' => Exited s' | Wrong => Wrong end.
Proof.
  unfold mbind, prog_bind. induction p as [a|X e k IH| |]; intros s; cbn [tbind run]; try done.
  destruct e; try done; match goal with |- context [os_call ?e ?s] => destruct (os_call e s) as [[x s']|] end; simpl; auto.
Qed.

Lemma run_call {X} (e : sysE X) s x s' : os_call e s = Some (x, s') → run (call e) s = Returned x s'.
Proof. intros E. unfold call. destruct e; cbn [run]; try (by rewrite E). by destruct x. Qed.

Lemma run_ret {A} (a : A) s : run (mret a) s = Returned a s.
Proof. done. Qed.

Lemma run_exit {A} s : run (uexit (A := A)) s = Exited s.
Proof. done. Qed.

Definition set_out (l : list Z) (s : os) : os := Os (o_files s) (o_fds s) l (o_next s) (o_partial s).

Lemma run_write l s : run (call (SWrite 1 l)) s = Returned (Z.of_nat (length l)) (set_out (o_out s ++ l) s).
Proof. by apply run_call. Qed.

Lemma run_puts l : ∀ s, run (puts 1 l) s = Returned () (set_out (o_out s ++ l) s).
Proof.
  induction l as [|c l IH]; intros s; cbn [puts]; [rewrite run_ret, app_nil_r; by destruct s|].
  rewrite run_bind, run_write, IH. unfold set_out. simpl. by rewrite <- app_assoc.
Qed.

Lemma run_printf fmt ap l s : printf fmt ap = Some l → run (uprintf 1 fmt ap) s = Returned () (set_out (o_out s ++ l) s).
Proof. intros E. unfold uprintf. rewrite E. apply run_puts. Qed.

(** A reader of [path] at [off]; the state after it has read to the end. *)
Definition reader (s : os) (fd : Z) (path text : list Z) (off : nat) : Prop :=
  o_files s !! path = Some text ∧ o_fds s !! fd = Some (path, off).
Definition at_end (s : os) (fd : Z) (path text : list Z) (out : list Z) (s' : os) : Prop :=
  ∃ partial, s' = Os (o_files s) (<[fd := (path, length text)]> (o_fds s)) (o_out s ++ out) (o_next s) partial.

(** One read: what it delivers, and the reader after it. *)
Lemma read_step s fd path text off : reader s fd path text off → (off ≤ length text)%nat →
  ∃ l s', run (call (SRead fd BUF)) s = Returned (Some l) s' ∧ drop off text = l ++ drop (off + length l) text ∧
    (l = [] → off = length text) ∧ reader s' fd path text (off + length l) ∧
    o_files s' = o_files s ∧ o_fds s' = <[fd := (path, off + length l)%nat]> (o_fds s) ∧ o_out s' = o_out s ∧ o_next s' = o_next s.
Proof.
  intros [Hf Hd] Ho. set (k := read_len BUF (length (drop off text)) (o_partial s)).
  assert (Hk : (k ≤ length (drop off text))%nat) by (unfold k, read_len; lia).
  assert (Lt : length (take k (drop off text)) = k) by (rewrite length_take; lia).
  exists (take k (drop off text)). eexists. split; [apply run_call; simpl; rewrite Hd, Hf; reflexivity|].
  rewrite Lt. fold k. split; [|split; [|split; [|done]]].
  - rewrite <- drop_drop. by rewrite take_drop.
  - intros E. rewrite E in Lt. simpl in Lt. rewrite length_drop in Hk. unfold k, read_len, BUF in Lt. rewrite length_drop in Lt. lia.
  - split; [done|]. cbn [o_fds]. by rewrite lookup_insert_eq.
Qed.

Section loops.
Context (fd : Z) (path text : list Z).

Lemma cat_run fuel : ∀ s off, reader s fd path text off → (off ≤ length text)%nat → (length text - off < fuel)%nat →
  ∃ s', run (cat fuel fd) s = Returned () s' ∧ at_end s fd path text (drop off text) s'.
Proof.
  induction fuel as [|fuel IH]; intros s off R Ho Hf; [lia|]. cbn [cat]. rewrite run_bind.
  destruct (read_step s fd path text off R Ho) as (l & s1 & E & D & N & R1 & F1 & F2 & F3 & F4). rewrite E.
  destruct l as [|c l].
  - exists s1. split; [done|]. specialize (N eq_refl). subst off. rewrite drop_ge by done.
    exists (o_partial s1). destruct s1; simpl in *. subst. by rewrite app_nil_r, Nat.add_0_r.
  - assert (Le : (off + length (c :: l) ≤ length text)%nat).
    { apply (f_equal length) in D. rewrite length_app, !length_drop in D. simpl in *. lia. }
    rewrite run_bind, run_write. destruct (IH (set_out (o_out s1 ++ c :: l) s1) (off + length (c :: l))%nat) as (s' & E' & [p A]);
      [done|done|simpl in *; lia|].
    exists s'. split; [exact E'|]. exists p. rewrite A. simpl in *. rewrite F1, F2, F3, F4, insert_insert_eq, D, <- app_assoc. done.
Qed.

Lemma wc_loop_run fuel : ∀ s off x, reader s fd path text off → (off ≤ length text)%nat → (length text - off < fuel)%nat →
  ∃ s', run (wc_loop fuel fd x) s = Returned (foldl wc_char x (drop off text)) s' ∧ at_end s fd path text [] s'.
Proof.
  induction fuel as [|fuel IH]; intros s off x R Ho Hf; [lia|]. cbn [wc_loop]. rewrite run_bind.
  destruct (read_step s fd path text off R Ho) as (l & s1 & E & D & N & R1 & F1 & F2 & F3 & F4). rewrite E.
  destruct l as [|c l].
  - exists s1. specialize (N eq_refl). subst off. rewrite drop_ge by done. split; [done|].
    exists (o_partial s1). destruct s1; simpl in *. subst. by rewrite app_nil_r, Nat.add_0_r.
  - assert (Le : (off + length (c :: l) ≤ length text)%nat).
    { apply (f_equal length) in D. rewrite length_app, !length_drop in D. simpl in *. lia. }
    destruct (IH s1 (off + length (c :: l))%nat (foldl wc_char x (c :: l))) as (s' & E' & [p A]);
      [done|done|simpl in *; lia|].
    exists s'. rewrite D, foldl_app. split; [exact E'|]. exists p. rewrite A. rewrite F1, F2, F3, F4, insert_insert_eq. done.
Qed.
End loops.

Section files.
Context (fuel : nat) (body : Z → list Z → prog unit) (outf : list Z → list Z → list Z).
Context (Hbody : ∀ s fd path text, reader s fd path text 0 → (length text < fuel)%nat →
  ∃ s', run (body fd path) s = Returned () s' ∧ at_end s fd path text (outf path text) s').

Lemma each_file_run argv : ∀ texts s, Forall2 (λ p t, o_files s !! p = Some t ∧ (length t < fuel)%nat) argv texts →
  0 ≤ o_next s → argv ≠ [] →
  ∃ s', run (each_file body argv) s = Exited s' ∧ o_out s' = o_out s ++ concat (zip_with outf argv texts) ∧ o_files s' = o_files s.
Proof.
  intros texts s F Hn Ne. unfold each_file. destruct argv as [|p0 argv0]; [done|]. clear Ne.
  revert texts s F Hn. generalize (p0 :: argv0) as argv. clear p0 argv0. intros argv texts s F Hn. rewrite run_bind.
  match goal with |- context [run (for_all argv ?f) s] => set (step := f) end.
  assert (L : ∃ s', run (for_all argv step) s = Returned () s' ∧ o_out s' = o_out s ++ concat (zip_with outf argv texts) ∧
    o_files s' = o_files s); [|destruct L as (s' & E & O & Fl); exists s'; by rewrite E].
  revert s F Hn. revert texts. induction argv as [|p argv IH]; intros texts s F Hn.
  { inversion F; subst. exists s. cbn. by rewrite app_nil_r. }
  inversion F as [|? t ? texts' [Hp Hl] F']; subst. cbn [for_all zip_with concat]. rewrite run_bind.
  assert (St : ∃ s1, run (step p) s = Returned () s1 ∧ o_out s1 = o_out s ++ outf p t ∧ o_files s1 = o_files s ∧ 0 ≤ o_next s1).
  { unfold step. rewrite run_bind. erewrite run_call by (simpl; rewrite Hp; reflexivity). rewrite decide_False by lia.
    rewrite run_bind.
    edestruct (Hbody (Os (o_files s) (<[o_next s := (p, 0%nat)]> (o_fds s)) (o_out s) (o_next s + 1) (o_partial s))
      (o_next s) p t) as (s2 & E & [pa A]); [split; [done|]; simpl; by rewrite lookup_insert_eq|done|].
    rewrite E, run_bind. erewrite run_call by reflexivity. eexists. split; [reflexivity|]. rewrite A. simpl. split_and!; done || lia. }
  destruct St as (s1 & E1 & O1 & F1 & N1). rewrite E1.
  destruct (IH texts' s1) as (s' & E' & O' & F2'); [|done|].
  { eapply Forall2_impl; [exact F'|]. intros q u. by rewrite F1. }
  exists s'. rewrite E', O', O1, F2', F1, <- app_assoc. done.
Qed.
End files.

(** [cat] copies the files it is given, one after the other, to the standard
    output, however many reads it takes to get them. *)
Theorem cat_copies fuel argv texts s :
  Forall2 (λ p t, o_files s !! p = Some t ∧ (length t < fuel)%nat) argv texts → 0 ≤ o_next s → argv ≠ [] →
  ∃ s', run (cat_main fuel argv) s = Exited s' ∧ o_out s' = o_out s ++ concat texts ∧ o_files s' = o_files s.
Proof.
  intros F Hn Ne. destruct (each_file_run fuel (λ fd _, cat fuel fd) (λ _ t, t)) with argv texts s as (s' & E & O & Fl); try done.
  - intros s0 fd path text R Hl. apply (cat_run fd path text fuel s0 0 R); lia.
  - exists s'. split; [exact E|]. rewrite O. split; [|done]. do 2 f_equal. clear -F.
    induction F as [|p t argv texts _ F IH]; simpl; congruence.
Qed.

(** ** Counting *)
Definition word_at (l : list Z) (i : nat) : bool :=
  match l !! i with Some b => bool_decide (b ∉ space) | None => false end.
(** A word starts where a character that is not space follows one that is. *)
Definition starts (l : list Z) (i : nat) : bool :=
  word_at l i && negb (match i with O => false | S j => word_at l j end).
Definition lines_of (l : list Z) : Z := Z.of_nat (length (filter (λ b, b = 10) l)).
Definition words_of (l : list Z) : Z := Z.of_nat (length (filter (λ i, starts l i = true) (seq 0 (length l)))).

Lemma word_at_snoc l c i : (i < length l)%nat → word_at (l ++ [c]) i = word_at l i.
Proof. intros H. unfold word_at. by rewrite lookup_app_l. Qed.

Lemma words_snoc l c : words_of (l ++ [c]) =
  words_of l + (if decide (c ∈ space) then 0 else if word_at l (length l - 1) then 0 else 1).
Proof.
  unfold words_of. rewrite length_app, Nat.add_comm. cbn [length Nat.add]. rewrite seq_S, filter_app, length_app.
  rewrite Nat2Z.inj_add. f_equal.
  - do 2 f_equal. apply filter_ext. intros i [_ Hi]%elem_of_seq. unfold starts. rewrite word_at_snoc by lia.
    destruct i; [done|]. by rewrite word_at_snoc by lia.
  - assert (W : word_at (l ++ [c]) (length l) = bool_decide (c ∉ space)).
    { unfold word_at. by rewrite lookup_app_r, Nat.sub_diag by done. }
    assert (P : (match length l with O => false | S j => word_at (l ++ [c]) j end) = word_at l (length l - 1)).
    { destruct (length l) as [|j] eqn:E; [by destruct l|]. rewrite word_at_snoc by lia. f_equal. lia. }
    rewrite filter_cons, filter_nil. unfold starts. cbn [Nat.add]. rewrite W, P. destruct (decide (c ∈ space)) as [D|D].
    + rewrite bool_decide_false by (by intros X). done.
    + rewrite bool_decide_true by done. by destruct (word_at l (length l - 1)).
Qed.

Lemma words_bound l : 0 ≤ words_of l ≤ Z.of_nat (length l).
Proof.
  unfold words_of. pose proof (length_filter (λ i, starts l i = true) (seq 0 (length l))) as H. rewrite length_seq in H. lia.
Qed.
Lemma lines_bound l : 0 ≤ lines_of l ≤ Z.of_nat (length l).
Proof. unfold lines_of. pose proof (length_filter (λ b, b = 10) l). lia. Qed.

Lemma lines_snoc l c : lines_of (l ++ [c]) = lines_of l + (if decide (c = 10) then 1 else 0).
Proof.
  unfold lines_of. rewrite filter_app, length_app, filter_cons, filter_nil. case_decide; simpl; lia.
Qed.

Lemma wc_counts_text l : Z.of_nat (length l) < 2 ^ 31 →
  foldl wc_char (Counts 0 0 0 false) l =
    Counts (lines_of l) (words_of l) (Z.of_nat (length l)) (word_at l (length l - 1)).
Proof.
  induction l as [|c l IH] using rev_ind; intros Hl; [done|]. rewrite length_app in Hl. simpl in Hl.
  rewrite foldl_app, IH by lia. cbn [foldl]. unfold wc_char. cbn [c_l c_w c_c inword].
  pose proof (words_bound l). pose proof (lines_bound l).
  rewrite words_snoc, lines_snoc, length_app, Nat.add_sub, !s32_small by lia. cbn [length].
  assert (W : word_at (l ++ [c]) (length l) = bool_decide (c ∉ space)).
  { unfold word_at. by rewrite lookup_app_r, Nat.sub_diag by done. }
  rewrite W. replace (Z.of_nat (length l + 1)) with (Z.of_nat (length l) + 1) by lia.
  assert (Ln : (if decide (c = 10) then lines_of l + 1 else lines_of l) = lines_of l + (if decide (c = 10) then 1 else 0))
    by (destruct (decide (c = 10)); lia).
  rewrite Ln. destruct (decide (c ∈ space)) as [D|D].
  - rewrite bool_decide_false by (by intros X). by rewrite Z.add_0_r.
  - rewrite bool_decide_true by done. destruct (word_at l (length l - 1)); [by rewrite Z.add_0_r|done].
Qed.

(** The line [wc] prints. *)
Definition wc_line (name text : list Z) : list Z :=
  decimal (lines_of text) ++ [32] ++ decimal (words_of text) ++ [32] ++ decimal (Z.of_nat (length text)) ++ [32] ++ name ++ [10].

Lemma wc_line_printed l w c name : printf (line "%d %d %d %s") [Num l; Num w; Num c; str name] =
  Some (decimal l ++ [32] ++ decimal w ++ [32] ++ decimal c ++ [32] ++ name ++ [10]).
Proof.
  unfold printf. rewrite (printf_loop_renders (length (line "%d %d %d %s"))) by done.
  replace (parse_fmt true (line "%d %d %d %s")) with [Dec; Lit 32; Dec; Lit 32; Dec; Lit 32; Str; Lit 10] by reflexivity.
  cbn [render_all takes_arg head tail mbind option_bind render arg_num arg_string str fmap option_fmap option_map app].
  done.
Qed.

Lemma wc_run fuel fd s path text : reader s fd path text 0 → (length text < fuel)%nat → Z.of_nat fuel ≤ 2 ^ 31 →
  ∃ s', run (wc fuel fd path) s = Returned () s' ∧ at_end s fd path text (wc_line path text) s'.
Proof.
  intros R Hl Hf. unfold wc. rewrite run_bind.
  destruct (wc_loop_run fd path text fuel s 0 (Counts 0 0 0 false) R) as (s1 & E & [pa A]); [lia|lia|].
  rewrite E, drop_0, wc_counts_text by lia. cbn [c_l c_w c_c].
  erewrite run_printf by apply wc_line_printed. eexists. split; [reflexivity|]. exists pa. rewrite A. simpl. by rewrite app_nil_r.
Qed.

(** C39 [wc], given at least one name, each of a file of less than 2 GB that can be opened,
    prints for every file the number of its newlines, of its words (maximal runs of
    characters other than space, tab, newline, carriage return and vertical tab) and of
    its bytes, in decimal, and its name, reading it in pieces of 512 bytes, and exits. *)
Theorem wc_counts fuel argv texts s :
  Forall2 (λ p t, o_files s !! p = Some t ∧ (length t < fuel)%nat) argv texts → Z.of_nat fuel ≤ 2 ^ 31 →
  0 ≤ o_next s → argv ≠ [] →
  ∃ s', run (wc_main fuel argv) s = Exited s' ∧ o_out s' = o_out s ++ concat (zip_with wc_line argv texts) ∧
    o_files s' = o_files s.
Proof.
  intros F Hf Hn Ne. destruct (each_file_run fuel (wc fuel) wc_line) with argv texts s as (s' & E & O & Fl); try done.
  - intros s0 fd path text R Hl. by apply wc_run.
  - by exists s'.
Qed.

(** [fmtname] gives the last element of a path, blank-padded to the width of a
    directory entry's name. *)
Lemma back_to_slash_spec rev : ∀ name, 47 ∉ name →
  ∃ dir, reverse rev ++ name = dir ++ back_to_slash rev name ∧ 47 ∉ back_to_slash rev name ∧
    (dir = [] ∨ last dir = Some 47).
Proof.
  induction rev as [|c rev IH]; intros name Hn; cbn [back_to_slash].
  { exists []. split_and!; [done|done|by left]. }
  rewrite reverse_cons, <- app_assoc. destruct (decide (c = 47)) as [->|Hc].
  - exists (reverse rev ++ [47]). rewrite <- app_assoc. split_and!; [done|done|]. right. by rewrite last_app.
  - destruct (IH (c :: name)) as (dir & E & N & D); [rewrite elem_of_cons; intros [?|?]; done|]. exists dir. done.
Qed.

Theorem fmtname_pads path : ∃ dir name, path = dir ++ name ∧ 47 ∉ name ∧ (dir = [] ∨ last dir = Some 47) ∧
  fmtname path = name ++ replicate (DIRSIZ - length name) 32.
Proof.
  destruct (back_to_slash_spec (reverse path) [] (not_elem_of_nil _)) as (dir & E & N & D).
  rewrite reverse_involutive, app_nil_r in E. exists dir, (back_to_slash (reverse path) []). split_and!; [done..|].
  unfold fmtname. case_decide as L; [|done]. replace (DIRSIZ - _)%nat with 0%nat by lia. by rewrite app_nil_r.
Qed.

(** ** Examples *)
Definition example_text : list Z := lit "two words" ++ [10] ++ lit " and three more" ++ [10].
(** The reads deliver 1, 4 and then all the bytes that are left. *)
Definition example_os : os := Os {[lit "f" := example_text]} ∅ [] 3 [0; 3]%nat.

Lemma example_file_there :
  Forall2 (λ p t, o_files example_os !! p = Some t ∧ (length t < 100)%nat) [lit "f"] [example_text].
Proof. constructor; [|constructor]. split; [reflexivity|vm_compute; lia]. Qed.

Lemma cat_copies_witness : ∃ s', run (cat_main 100 [lit "f"]) example_os = Exited s' ∧ o_out s' = example_text.
Proof.
  destruct (cat_copies 100 [lit "f"] [example_text] example_os) as (s' & E & O & _).
  - apply example_file_there.
  - simpl. lia.
  - discriminate.
  - exists s'. split; [exact E|]. rewrite O. vm_compute. reflexivity.
Defined.

Lemma wc_counts_witness : ∃ s', run (wc_main 100 [lit "f"]) example_os = Exited s' ∧ o_out s' = line "2 5 26 f".
Proof.
  destruct (wc_counts 100 [lit "f"] [example_text] example_os) as (s' & E & O & _).
  - apply example_file_there.
  - lia.
  - simpl. lia.
  - discriminate.
  - exists s'. split; [exact E|]. rewrite O. vm_compute. reflexivity.
Defined.
