(* ===== verification/ForkTest.v ===== *)
(** * Programs that fork (forktest.c, matmul16.c; exitwait and forktest of usertests.c)

    The programs over the system calls, and the processes as they see them: at most
    [slots] children at a time, a child that has exited keeps its slot until its parent
    has waited for it, and [wait] returns the children in the order they exited.  A
    child runs until it exits before its parent goes on. *)
From S2P Require Import Prelude CString Printf User.
Local Open Scope Z_scope.

(** ** forktest.c *)

(** The first loop: how many forks succeed. *)
Fixpoint fork_loop (room n : nat) : prog nat :=
  match room with
  | O => mret n
  | S room =>
      pid ← call SFork;
      if decide (pid < 0) then mret n
      else if decide (pid = 0) then uexit
      else fork_loop room (S n)
  end.
Fixpoint wait_all (print : list Z → prog unit) (n : nat) : prog unit :=
  match n with
  | O => mret ()
  | S n =>
      r ← call SWait;
      if decide (r < 0) then print (line "wait stopped early");; uexit else wait_all print n
  end.

(** [print]: the [printf] of forktest.c, or the usual one in usertests.c. *)
Definition forktest (print : list Z → prog unit) : prog unit :=
  print (line "fork test");;
  n ← fork_loop 1000 0;
  (if decide (n = 1000)%nat then print (line "fork claimed to work 1000 times!");; uexit else mret ());;
  wait_all print n;;
  r ← call SWait;
  (if decide (r ≠ -1) then print (line "wait got too many");; uexit else mret ());;
  print (line "fork test OK").
(** [printf] of forktest.c. *)
Definition print_all (s : list Z) : prog unit := call (SWrite 1 s);; mret ().
Definition forktest_main : prog unit := forktest print_all;; uexit.

(** ** usertests.c *)
Fixpoint exitwait_loop (n : nat) : prog bool :=
  match n with
  | O => mret true
  | S n =>
      pid ← call SFork;
      if decide (pid < 0) then uprintf 1 (line "fork failed") [];; mret false
      else if decide (pid ≠ 0) then
        r ← call SWait;
        if decide (r ≠ pid) then uprintf 1 (line "wait wrong pid") [];; mret false else exitwait_loop n
      else uexit
  end.
Definition exitwait : prog unit :=
  ok ← exitwait_loop 100;
  if (ok : bool) then uprintf 1 (line "exitwait ok") [] else mret ().

(** ** matmul16.c *)
Notation matrix := (list (list Z)).
Definition MATSIZE : nat := 3.
Definition entry (m : matrix) (i j : nat) : Z := m !!! i !!! j.
(** The sum is an [int]. *)
Fixpoint dot (a b : matrix) (i j : nat) (ks : list nat) (sum : Z) : Z :=
  match ks with [] => sum | k :: ks => dot a b i j ks (s32 (sum + s32 (entry a i k * entry b k j))) end.
Definition matmul (a b : matrix) : matrix :=
  (λ i, (λ j, dot a b i j (seq 0 MATSIZE) 0) <$> seq 0 MATSIZE) <$> seq 0 MATSIZE.
Definition all_ones : matrix := replicate MATSIZE (replicate MATSIZE 1).

(** The rounds of [testMatMul]; [matC] is copied to [matB] after each. *)
Definition rounds (n : nat) : matrix := Nat.iter n (matmul all_ones) all_ones.

(** The result is not printed. *)
Definition testMatMul : prog matrix :=
  pid ← call SGetpid; uprintf 1 (line "pid %d done!") [Num pid];; mret (rounds (Z.to_nat 2000000)).
Fixpoint matmul_loop (n : nat) : prog unit :=
  match n with
  | O => mret ()
  | S n =>
      pid ← call SFork;
      if decide (pid < 0) then uprintf 1 (line "matmul16 fork failed!") [];; uexit
      else if decide (pid = 0) then testMatMul;; uexit
      else matmul_loop n
  end.
Definition matmul16_main : prog unit := matmul_loop 16;; uprintf 1 (line "All children have been create!") [];; uexit.

(** ** Processes *)
Record family := Family { slots : nat; gone : list Z; nextid : Z; said : list Z }.
Inductive fate (A : Type) := Back (a : A) (s : family) | Left (s : family) | Lost.
Arguments Back {A} a s.
Arguments Left {A} s.
Arguments Lost {A}.

Fixpoint live {A} (me : Z) (p : prog A) (s : family) : fate A :=
  match p with
  | Ret a => Back a s
  | Vis X e k =>
      match e in sysE X return (X → Z → family → fate A) → fate A with
      | SFork => λ k,
          if decide (length (gone s) < slots s)%nat then
            match k 0 (nextid s) (Family (slots s) [] (nextid s + 1) (said s)) with
            | Left c => k (nextid s) me (Family (slots s) (gone s ++ [nextid s]) (nextid c) (said c))
            | _ => Lost
            end
          else k (-1) me s
      | SWait => λ k,
          match gone s with
          | [] => k (-1) me s
          | z :: zs => k z me (Family (slots s) zs (nextid s) (said s))
          end
      | SWrite fd l => λ k, k (Z.of_nat (length l)) me (Family (slots s) (gone s) (nextid s) (said s ++ l))
      | SGetpid => λ k, k me me s
      | SExit => λ _, Left s
      | _ => λ _, Lost
      end (λ x me, live me (k x))
  | _ => Lost
  end.

(** A child that returns from [p] would go on with [f] as well. *)
Lemma live_then {A B} (p : prog A) (f : A → prog B) : ∀ me s,
  match live me p s with
  | Back a s' => live me (p ≫= f) s = live me (f a) s'
  | Left s' => live me (p ≫= f) s = Left s'
  | Lost => True
  end.
Proof.
  unfold mbind, prog_bind. induction p as [a|X e k IH| |]; intros me s; try done.
  cbn [tbind live]. destruct e; try done; try apply IH.
  - case_decide; [|apply IH].
    specialize (IH 0 (nextid s) (Family (slots s) [] (nextid s + 1) (said s))) as Hc.
    destruct (live _ (k 0) _); try done. rewrite Hc. apply IH.
  - destruct (gone s); apply IH.
Qed.
Lemma live_back {A B} (p : prog A) (f : A → prog B) me s a s' : live me p s = Back a s' → live me (p ≫= f) s = live me (f a) s'.
Proof. intros E. pose proof (live_then p f me s) as H. by rewrite E in H. Qed.

Lemma live_fork {A} (f : Z → prog A) me s c : (length (gone s) < slots s)%nat →
  live (nextid s) (f 0) (Family (slots s) [] (nextid s + 1) (said s)) = Left c →
  live me (call SFork ≫= f) s = live me (f (nextid s)) (Family (slots s) (gone s ++ [nextid s]) (nextid c) (said c)).
Proof. intros H Hc. unfold mbind, prog_bind. cbn [call tbind live]. by rewrite decide_True, Hc by done. Qed.
Lemma live_wait {A} (f : Z → prog A) me sl z g nx sd :
  live me (call SWait ≫= f) (Family sl (z :: g) nx sd) = live me (f z) (Family sl g nx sd).
Proof. done. Qed.

Definition speak (s : family) (l : list Z) : family := Family (slots s) (gone s) (nextid s) (said s ++ l).

Lemma live_puts me fd l : ∀ s, live me (puts fd l) s = Back () (speak s l).
Proof.
  induction l as [|c l IH]; intros s; simpl; [destruct s; unfold speak; simpl; by rewrite app_nil_r|].
  unfold mbind, prog_bind. simpl. rewrite IH. unfold speak. simpl. by rewrite <-app_assoc.
Qed.

(** ** The tests succeed *)

(** As many forks succeed as there are slots; the children have exited. *)
Lemma fork_loop_live me m : ∀ room n s, (length (gone s) + m = slots s)%nat → (m < room)%nat → 0 < nextid s →
  live me (fork_loop room n) s =
    Back (n + m)%nat (Family (slots s) (gone s ++ seqZ (nextid s) (Z.of_nat m)) (nextid s + Z.of_nat m) (said s)).
Proof.
  induction m as [|m IH]; intros [|room] n s Hm Hr Hpos; try lia; cbn [fork_loop].
  - unfold mbind, prog_bind; cbn [call tbind live].
    rewrite decide_False by lia. cbn. destruct s; simpl. by rewrite app_nil_r, !Z.add_0_r, Nat.add_0_r.
  - erewrite live_fork; [|lia|rewrite decide_False, decide_True by lia; reflexivity]. cbn [nextid said].
    rewrite decide_False, decide_False by lia.
    rewrite IH; simpl; rewrite ?length_app; simpl; try lia.
    rewrite <-app_assoc, (seqZ_cons (nextid s)) by lia. simpl.
    f_equal; [lia|]. repeat (f_equal; try lia).
Qed.
Lemma wait_all_live me print : ∀ n s, length (gone s) = n → Forall (λ z, 0 < z) (gone s) →
  live me (wait_all print n) s = Back () (Family (slots s) [] (nextid s) (said s)).
Proof.
  induction n as [|n IH]; intros [sl [|z g] nx sd] Hn Hz; try done. cbn [wait_all gone] in *. simpl in Hn.
  apply Forall_cons in Hz as [? ?]. rewrite live_wait, decide_False by lia. rewrite IH by (simpl; lia || done). done.
Qed.

Lemma forktest_live me print s : (∀ l s, live me (print l) s = Back () (speak s l)) →
  (slots s < 1000)%nat → gone s = [] → 0 < nextid s →
  live me (forktest print) s =
    Back () (Family (slots s) [] (nextid s + Z.of_nat (slots s)) (said s ++ line "fork test" ++ line "fork test OK")).
Proof.
  intros Hp Hs Hg Hn. unfold forktest. rewrite (live_back _ _ _ _ _ _ (Hp _ _)).
  erewrite live_back by (apply (fork_loop_live _ (slots s)); simpl; rewrite ?Hg; simpl; lia).
  erewrite live_back by (rewrite decide_False by lia; done).
  erewrite live_back by (apply wait_all_live; simpl; rewrite ?Hg; simpl; [by rewrite length_seqZ, Nat2Z.id|
    apply Forall_forall; intros z Hz%elem_of_seqZ; lia]).
  erewrite live_back by done. erewrite live_back by done. rewrite Hp. unfold speak. cbn [slots gone nextid said].
  by rewrite <-app_assoc.
Qed.

(** When there is room for fewer than 1000 children, forktest counts the forks that
    succeed, waits for each child once, and says that the test is OK. *)
Theorem forktest_passes me s : (slots s < 1000)%nat → gone s = [] → 0 < nextid s →
  live me forktest_main s = Left (Family (slots s) [] (nextid s + Z.of_nat (slots s)) (said s ++ line "fork test" ++ line "fork test OK")).
Proof. intros. unfold forktest_main. by erewrite live_back by (by apply forktest_live). Qed.

Lemma uprintf_live me fd msg ap l s : printf msg ap = Some l → live me (uprintf fd msg ap) s = Back () (speak s l).
Proof. intros E. unfold uprintf. rewrite E. apply live_puts. Qed.

Lemma exitwait_loop_live me n : ∀ s, (0 < slots s)%nat → gone s = [] → 0 < nextid s →
  live me (exitwait_loop n) s = Back true (Family (slots s) [] (nextid s + Z.of_nat n) (said s)).
Proof.
  induction n as [|n IH]; intros [sl g nx sd] Hs Hg Hn; cbn in Hs, Hg, Hn; subst g; cbn [exitwait_loop]; [simpl; by rewrite Z.add_0_r|].
  erewrite live_fork; [|simpl; lia|rewrite decide_False, decide_False by lia; reflexivity]. cbn [slots gone nextid said app].
  rewrite decide_False, decide_True by lia. rewrite live_wait, decide_False by lia.
  rewrite IH by (simpl; lia || done). cbn [slots nextid said]. repeat (f_equal; try lia).
Qed.

Lemma exitwait_message : printf (line "exitwait ok") [] = Some (line "exitwait ok").
Proof. by vm_compute. Qed.
(** With room for one child, each [wait] of exitwait returns the child just forked. *)
Theorem exitwait_passes me s : (0 < slots s)%nat → gone s = [] → 0 < nextid s →
  live me exitwait s = Back () (Family (slots s) [] (nextid s + 100) (said s ++ line "exitwait ok")).
Proof.
  intros Hs Hg Hn. unfold exitwait. rewrite (live_back _ _ _ _ _ _ (exitwait_loop_live me 100 s Hs Hg Hn)). cbv iota beta.
  rewrite (uprintf_live _ _ _ _ _ _ exitwait_message). done.
Qed.

Lemma s32_shift x k : s32 (x + k * 2 ^ 32) = s32 x.
Proof. unfold s32. replace (x + k * 2 ^ 32 + 2 ^ 31) with (x + 2 ^ 31 + k * 2 ^ 32) by lia. by rewrite Z.mod_add. Qed.
Lemma s32_back x : ∃ k, s32 x = x + k * 2 ^ 32.
Proof. unfold s32. exists (- ((x + 2 ^ 31) / 2 ^ 32)). pose proof (Z.div_mod (x + 2 ^ 31) (2 ^ 32)). lia. Qed.
Lemma s32_triple x : s32 (3 * s32 x) = s32 (3 * x).
Proof.
  destruct (s32_back x) as [k ->]. replace (3 * (x + k * 2 ^ 32)) with (3 * x + 3 * k * 2 ^ 32) by lia. apply s32_shift.
Qed.

(** The product with the matrix of ones triples a constant matrix. *)
Lemma matmul_const x :
  matmul all_ones (replicate MATSIZE (replicate MATSIZE x)) = replicate MATSIZE (replicate MATSIZE (s32 (3 * x))).
Proof.
  assert (E : s32 (s32 (s32 (0 + s32 (1 * x)) + s32 (1 * x)) + s32 (1 * x)) = s32 (3 * x)).
  { destruct (s32_back (1 * x)) as [k ->]. destruct (s32_back (0 + (1 * x + k * 2 ^ 32))) as [j ->].
    destruct (s32_back (0 + (1 * x + k * 2 ^ 32) + j * 2 ^ 32 + (1 * x + k * 2 ^ 32))) as [i ->].
    rewrite <-(s32_shift (3 * x) (3 * k + j + i)). f_equal. lia. }
  unfold matmul, MATSIZE, entry. cbn -[s32 Z.mul Z.add]. by rewrite E.
Qed.

(** After [n] rounds every entry of [matB] is 3 to the [n], as an [int]. *)
Theorem rounds_powers n : rounds n = replicate MATSIZE (replicate MATSIZE (s32 (3 ^ Z.of_nat n))).
Proof.
  unfold rounds. induction n as [|n IH]; [done|]. rewrite Nat.iter_succ, IH, matmul_const, s32_triple.
  rewrite Nat2Z.inj_succ, Z.pow_succ_r by lia. done.
Qed.
