(* ===== verification/UserRun.v ===== *)
(** * User programs on the kernel

    The whole way of a system call: the program's call puts its arguments on the stack
    of the process, the stub of usys.S loads the number of the call and traps, [trap]
    dispatches it, the handler fetches the arguments from the memory of the process,
    and the program goes on with the result from the trap frame.  Strings and buffers
    are passed in a part of the process's memory set aside for them.

    A program that writes to a file and reads it again is followed all the way. *)
From S2P Require Import Prelude Kernel ProcData SchedState Sched Kalloc CString FsDisk Fs FsAlloc FsFile FsExamples FileIO Mmu KState Syscall FileTable Sysfile Process Console Bio BioRefine Intr Mp Trap User.
Local Open Scope Z_scope.

Section calls.
Context (fuel : nat) (ts forkret : Z) (stack : list Z).
Context (dev_read : Z → option (nat → Z → M fsst (option (list Z)))).
Context (dev_write : Z → option (nat → list Z → M fsst Z)).
Notation trap := (trap fuel ts forkret stack dev_read dev_write true (λ _, 0) 0).

(** The memory of the process. *)
Definition poke (a : Z) (l : list Z) : M machine unit :=
  on_k (p ← cp_get; on_bytes (put_bytes (p_mem p + a) l)).
Definition peek_bytes (a n : Z) : M machine (list Z) :=
  on_k (p ← cp_get; m ← kgets k_bytes; mret (get_bytes m (p_mem p + a) n)).

Definition le32 (v : Z) : list Z := [u8 v; u8 (v / 2 ^ 8); u8 (v / 2 ^ 16); u8 (v / 2 ^ 24)].

Definition call_frame (num : Z) (tf : trapframe) : trapframe :=
  Trapframe (tf_edi tf) (tf_esi tf) (tf_ebp tf) (tf_oesp tf) (tf_ebx tf) (tf_edx tf) (tf_ecx tf) num
    (tf_es tf) (tf_ds tf) (Z.of_nat T_SYSCALL) (tf_err tf) (tf_eip tf) (tf_cs tf) (tf_eflags tf) (tf_esp tf) (tf_ss tf).

(** A stub of usys.S, called with [args]; [None] when the process does not come back. *)
Definition stub (num : Z) (args : list Z) : M machine (option Z) :=
  p ← on_k cp_get;
  poke (tf_esp (p_tf p) + 4) (mjoin (le32 <$> args));;
  go ← trap (call_frame num (p_tf p));
  if (go : bool) then p ← on_k cp_get; mret (Some (s32 (tf_eax (p_tf p)))) else mret None.

(** Where paths and buffers are in the process. *)
Definition PATH1 : Z := 4096.
Definition PATH2 : Z := 6144.
Definition BUFFER : Z := 8192.

Definition with_path (path : list Z) (num : Z) (args : list Z) : M machine (option Z) :=
  poke PATH1 (path ++ [0]);; stub num (PATH1 :: args).

(** The strings of [argv] from [a] on: their addresses and their bytes. *)
Fixpoint lay_out (a : Z) (argv : list (list Z)) : list Z * list Z :=
  match argv with
  | [] => ([0], [])
  | x :: argv => let '(ps, bs) := lay_out (a + Z.of_nat (length x) + 1) argv in (a :: ps, x ++ [0] ++ bs)
  end.

(** What a program gets from a call that delivers data on success. *)
Definition data {X} (r : option Z) (m : Z → M machine X) : M machine (option (option X)) :=
  match r with
  | None => mret None
  | Some r => if decide (r < 0) then mret (Some None) else x ← m r; mret (Some (Some x))
  end.

(** The calls of user.h.  A program that is replaced by [exec] does not go on; what a
    forked child does is not followed here. *)
Definition usys {X} (e : sysE X) : M machine (option X) :=
  match e in sysE X return M machine (option X) with
  | SOpen path omode => with_path path 10 [omode]
  | SClose fd => stub 7 [fd]
  | SRead fd n => r ← stub 6 [fd; BUFFER; n]; data r (λ r, peek_bytes BUFFER r)
  | SWrite fd l => poke BUFFER l;; stub 5 [fd; BUFFER; Z.of_nat (length l)]
  | SFstat fd =>
      r ← stub 13 [fd; BUFFER];
      data r (λ _, l ← peek_bytes BUFFER 16; mret (UStat (s16 (get16 l 8)) (get32 l 4) (get32 l 12)))
  | SDup fd => stub 17 [fd]
  | SPipe => r ← stub 4 [BUFFER]; data r (λ _, l ← peek_bytes BUFFER 8; mret (get32 l 0, get32 l 4))
  | SFork => stub 1 []
  | SWait => stub 3 []
  | SExec path argv =>
      let '(ps, bs) := lay_out PATH2 argv in
      poke PATH2 bs;;
      poke BUFFER (mjoin (le32 <$> ps));;
      r ← with_path path 9 [BUFFER];
      mret (match r with Some r => if decide (r < 0) then Some r else None | None => None end)
  | SExit => stub 2 [];; mret None
  | SMknod path major minor => with_path path 11 [major; minor]
  | SMkdir path => with_path path 15 []
  | SUnlink path => with_path path 12 []
  | SLink old new => poke PATH2 (new ++ [0]);; with_path old 14 [PATH2]
  | SChdir path => with_path path 16 []
  | SKill pid => stub 8 [pid]
  | SGetpid => stub 18 []
  | SSleep n => stub 20 [n]
  end.

(** [None]: the process has exited. *)
Fixpoint run_user {A} (p : prog A) : M machine (option A) :=
  match p with
  | Ret a => mret (Some a)
  | Vis X e k => r ← usys e; match r with Some x => run_user (k x) | None => mret None end
  | Crash => fault
  | Spin => diverge
  end.
End calls.


(** ** Arguments *)
Lemma put_bytes_app l1 : ∀ a l2 m, put_bytes a (l1 ++ l2) m = put_bytes (a + Z.of_nat (length l1)) l2 (put_bytes a l1 m).
Proof.
  induction l1 as [|b l1 IH]; intros a l2 m; simpl; [by rewrite Z.add_0_r|]. rewrite IH. f_equal. lia.
Qed.

Lemma rd32_le32 a v m : rd32 (put_bytes a (le32 v) m) a = u32 v.
Proof.
  rewrite <- (rd32_wr32 m a v). f_equal. unfold le32, wr32, wr. cbn [put_bytes]. unfold wr, u8. rewrite !Zmod_mod.
  by replace (a + 1 + 1 + 1) with (a + 3) by lia; replace (a + 1 + 1) with (a + 2) by lia.
Qed.

(** The words of a call are where its handler looks for them. *)
Lemma rd32_args args : ∀ a n v m, args !! n = Some v →
  rd32 (put_bytes a (mjoin (le32 <$> args)) m) (a + 4 * Z.of_nat n) = u32 v.
Proof.
  induction args as [|x args IH]; intros a n v m Hn; [done|]. cbn [fmap list_fmap mjoin list_join]. rewrite put_bytes_app.
  destruct n as [|n]; simplify_eq/=.
  - rewrite Z.add_0_r. unfold rd32. rewrite !put_bytes_outside by (cbn [length le32]; lia). apply rd32_le32.
  - replace (a + 4 * Z.of_nat (S n)) with (a + 4 + 4 * Z.of_nat n) by lia. by apply IH.
Qed.

(** ** The way into the kernel and back *)
Lemma s32_u32 x : - 2 ^ 31 ≤ x < 2 ^ 31 → s32 (u32 x) = x.
Proof. intros H. unfold s32, u32. rewrite Zplus_mod_idemp_l. fold (s32 x). by apply s32_small. Qed.

Lemma on_k_goes {A} (m : M kst A) h s a k' : goes m h (m_k s) a k' → goes (on_k m) h s a (set_mk k' s).
Proof.
  intros G w. destruct (G w) as [w' E]. exists w'. exact (focus_Ok (λ s, Some (m_k s)) set_mk m _ _ _ _ _ _ eq_refl E).
Qed.
Lemma on_k_reads {A} (m : M kst A) h s a : goes m h (m_k s) a (m_k s) → goes (on_k m) h s a s.
Proof. intros G%on_k_goes. by destruct s. Qed.
Lemma on_k_stops {A} (m : M kst A) h s msg : stops m h (m_k s) msg → stops (on_k m) h s msg.
Proof.
  intros G w. destruct (G w) as [k E]. exists (set_mk k s). exact (focus_Panic (λ s, Some (m_k s)) set_mk m _ _ _ _ _ eq_refl E).
Qed.

(** Process [i], with the structure [p], runs. *)
Definition runs_now (k : kst) (i : nat) (p : proc) : Prop := running (k_sch k) = Some i ∧ procs (k_sch k) !! i = Some p.

Lemma runs_now_cur k i p : runs_now k i p → cur_proc k = Some p.
Proof. intros [R P]. unfold cur_proc. by rewrite R. Qed.
Lemma runs_now_upd k i p q : runs_now k i p → runs_now (upd_cp i q k) i q.
Proof. intros [R P]. split; [exact R|]. simpl. apply list_lookup_insert_eq. by eapply lookup_lt_Some. Qed.

Lemma cp_get_goes h k i p : runs_now k i p → goes cp_get h k p k.
Proof. intros R w. exists w. apply cp_get_run. by eapply runs_now_cur. Qed.
Lemma cp_set_goes h k i p f : runs_now k i p → goes (cp_set f) h k () (upd_cp i (f p) k).
Proof. intros [R P] w. exists w. by apply cp_set_run. Qed.

Definition poked (p : proc) (a : Z) (l : list Z) (k : kst) : kst := set_k_bytes k (put_bytes (p_mem p + a) l (k_bytes k)).

Lemma poke_goes h s i p a l : runs_now (m_k s) i p → goes (poke a l) h s () (set_mk (poked p a l (m_k s)) s).
Proof.
  intros R. apply on_k_goes. eapply goes_bind; [by eapply cp_get_goes|]. intros w. by exists w.
Qed.

Lemma set_mk_mk k k' s : set_mk k (set_mk k' s) = set_mk k s.
Proof. done. Qed.

Section stub.
Context (fuel : nat) (ts forkret : Z) (stack : list Z).
Context (dev_read : Z → option (nat → Z → M fsst (option (list Z)))).
Context (dev_write : Z → option (nat → list Z → M fsst Z)).
Notation syscalls := (syscalls fuel ts forkret stack dev_read dev_write).
Notation stub := (stub fuel ts forkret stack dev_read dev_write).
Context (h : list lock_id) (s : machine) (i : nat) (p : proc) (num : Z) (args : list Z) (sn : sysno).
Context (R : runs_now (m_k s) i p) (Hk : p_killed p = false) (Hn : 0 ≤ num < 2 ^ 31) (Hs : sysno_of num = Some sn).

(** The state in which the handler starts. *)
Definition callee : proc := set_tf p (call_frame num (p_tf p)).
Definition entered : kst := upd_cp i callee (poked p (tf_esp (p_tf p) + 4) (mjoin (le32 <$> args)) (m_k s)).
(** The state the program goes on in. *)
Definition back (r : Z) (p' : proc) (k' : kst) : machine :=
  set_mk (upd_cp i (set_tf p' (set_tf_eax (u32 r) (p_tf p'))) k') s.

Lemma entered_now : runs_now entered i callee.
Proof. apply (runs_now_upd _ _ p). exact R. Qed.

Lemma not_killed_goes t q : runs_now (m_k t) i q → p_killed q = false → goes (exit_if_killed fuel) h t true t.
Proof.
  intros Rt Hq. eapply goes_bind; [apply on_k_reads; by eapply cp_get_goes|]. rewrite Hq. apply goes_ret.
Qed.

Lemma stub_goes r k' p' : goes (syscalls sn) h entered (Some r) k' → runs_now k' i p' → p_killed p' = false →
  - 2 ^ 31 ≤ r < 2 ^ 31 → goes (stub num args) h s (Some r) (back r p' k').
Proof.
  intros G R' Hk' Hr. unfold UserRun.stub. eapply goes_bind; [apply on_k_reads; by eapply cp_get_goes|].
  eapply goes_bind; [by eapply poke_goes|]. eapply goes_bind.
  - unfold trap. rewrite decide_True by done. unfold trap_syscall. eapply goes_bind; [by eapply not_killed_goes|].
    eapply goes_bind; [apply on_k_goes; by eapply (cp_set_goes _ _ i p)|].
    eapply goes_bind.
    + apply on_k_goes. unfold syscall. eapply goes_bind; [apply (cp_get_goes _ _ i callee), entered_now|].
      cbn [p_tf callee set_tf tf_eax call_frame]. rewrite s32_small by lia. cbv zeta. rewrite decide_True by lia. rewrite Hs.
      eapply goes_bind; [exact G|]. cbv iota. eapply goes_bind; [by eapply cp_set_goes|apply goes_ret].
    + cbv iota. eapply not_killed_goes; [by eapply runs_now_upd|done].
  - cbv iota. eapply goes_bind; [apply on_k_reads; by eapply cp_get_goes, runs_now_upd|].
    cbn [p_tf set_tf tf_eax set_tf_eax]. rewrite s32_u32 by done. apply goes_ret.
Qed.

Lemma stub_stops msg : stops (syscalls sn) h entered msg → stops (stub num args) h s msg.
Proof.
  intros G. unfold UserRun.stub. eapply goes_stops; [apply on_k_reads; by eapply cp_get_goes|].
  eapply goes_stops; [by eapply poke_goes|]. apply stops_bind.
  unfold trap. rewrite decide_True by done. unfold trap_syscall. eapply goes_stops; [by eapply not_killed_goes|].
  eapply goes_stops; [apply on_k_goes; by eapply (cp_set_goes _ _ i p)|]. apply stops_bind.
  apply on_k_stops. unfold syscall. eapply goes_stops; [apply (cp_get_goes _ _ i callee), entered_now|].
  cbn [p_tf callee set_tf tf_eax call_frame]. rewrite s32_small by lia. cbv zeta. rewrite decide_True by lia. rewrite Hs.
  by apply stops_bind.
Qed.
End stub.

(** A process whose memory has room for the stack and the buffers below its size. *)
Record proc_ready (p : proc) : Prop := {
  pr_mem : 0 ≤ p_mem p;
  pr_top : p_mem p + p_sz p ≤ 2 ^ 31;
  pr_stack : 0 ≤ tf_esp (p_tf p) ∧ tf_esp (p_tf p) + 24 ≤ PATH1;
  pr_buffer : BUFFER + 4096 < p_sz p;
  pr_files : length (p_ofile p) = NOFILE;
  pr_killed : p_killed p = false
}.

Lemma proc_ready_frame p tf : proc_ready p → tf_esp tf = tf_esp (p_tf p) → proc_ready (set_tf p tf).
Proof. intros [H1 H2 H3 H4 H5 H6] E. split; try done. cbn. by rewrite E. Qed.

Section args.
Context (p : proc) (Hp : proc_ready p) (num : Z) (args : list Z) (m0 : mem).
Notation m := (put_bytes (p_mem p + (tf_esp (p_tf p) + 4)) (mjoin (le32 <$> args)) m0).

Lemma argint_args n k v : args !! n = Some v → k = Z.of_nat n → (n < 4)%nat → - 2 ^ 31 ≤ v < 2 ^ 31 →
  argint m (callee p num) k = Some v.
Proof.
  intros Hv -> Hn Hr. destruct Hp as [P1 P2 [P3 P4] P5 P6 P7]. unfold PATH1, BUFFER in *. unfold argint, fetchint.
  change (tf_esp (p_tf (callee p num))) with (tf_esp (p_tf p)). change (p_sz (callee p num)) with (p_sz p).
  change (p_mem (callee p num)) with (p_mem p). rewrite !u32_small by (rewrite ?u32_small; lia).
  rewrite decide_False by lia. f_equal.
  replace (p_mem p + (tf_esp (p_tf p) + 4 + 4 * Z.of_nat n)) with (p_mem p + (tf_esp (p_tf p) + 4) + 4 * Z.of_nat n) by lia.
  rewrite (rd32_args _ _ _ _ _ Hv). by apply s32_u32.
Qed.

Lemma rw_args_args fd f n : args = [Z.of_nat fd; BUFFER; n] → p_ofile p !! fd = Some (Some f) → 0 ≤ n ≤ 4096 →
  rw_args m (callee p num) = Some (f, p_mem p + BUFFER, n).
Proof.
  intros Ea Hf Hn. pose proof (lookup_lt_Some _ _ _ Hf) as Lf. destruct Hp as [P1 P2 [P3 P4] P5 P6 P7] eqn:EP. rewrite P6 in Lf.
  unfold NOFILE in *. unfold rw_args, argfd.
  rewrite (argint_args 0 0 (Z.of_nat fd)) by (subst; done || lia). cbn [mbind option_bind].
  rewrite decide_False by (unfold NOFILE; lia). rewrite Nat2Z.id. change (p_ofile (callee p num)) with (p_ofile p).
  rewrite Hf. cbn [mjoin option_join mbind option_bind snd].
  rewrite (argint_args 2 2 n) by (subst; done || lia). cbn [mbind option_bind]. unfold argptr.
  rewrite (argint_args 1 1 BUFFER) by (subst; done || (unfold BUFFER; lia)). cbn [mbind option_bind].
  unfold PATH1, BUFFER in *. change (p_sz (callee p num)) with (p_sz p).
  rewrite decide_False by (rewrite !u32_small by lia; lia). done.
Qed.
End args.

(** ** Files *)
Lemma has_file_fsv dev sb ip k k' i : fsv k' = fsv k → has_file dev sb ip k i → has_file dev sb ip k' i.
Proof. intros E [H1 H2 H3 H4]. split; try done. by rewrite E. Qed.
Lemma fsv_cwd k k' p p' : k_fs k' = k_fs k → cur_proc k = Some p → cur_proc k' = Some p' → p_cwd p' = p_cwd p → fsv k' = fsv k.
Proof. intros E1 E2 E3 E4. unfold fsv. rewrite E1, E2, E3. simpl. by rewrite E4. Qed.

Lemma with_args_goes {A} (args : mem → proc → option A) body h k i p a r k' : runs_now k i p → args (k_bytes k) p = Some a →
  goes (body a) h k r k' → goes (with_args args body) h k r k'.
Proof.
  intros R Ha G. eapply goes_bind; [by eapply cp_get_goes|]. eapply goes_bind; [intros w; by exists w|]. by rewrite Ha.
Qed.
Lemma with_args_stops {A} (args : mem → proc → option A) body h k i p a msg : runs_now k i p → args (k_bytes k) p = Some a →
  stops (body a) h k msg → stops (with_args args body) h k msg.
Proof.
  intros R Ha G. eapply goes_stops; [by eapply cp_get_goes|]. eapply goes_stops; [intros w; by exists w|]. by rewrite Ha.
Qed.

Section files.
Context (fuel : nat) (Hf : (0 < fuel)%nat) (ts forkret : Z) (stack : list Z).
Context (dev_read : Z → option (nat → Z → M fsst (option (list Z)))).
Context (dev_write : Z → option (nat → list Z → M fsst Z)).
Notation usys := (usys fuel ts forkret stack dev_read dev_write).
Notation run_user := (run_user fuel ts forkret stack dev_read dev_write).
Context (dev : Z) (sb : superblock) (ip : nat).

(** Process [i] runs and its descriptor [fd] is entry [f] of the file table, a file open
    at inode [ip]. *)
Record descriptor (s : machine) (i : nat) (p : proc) (fd f : nat) (x : file) : Prop := {
  de_runs : runs_now (m_k s) i p;
  de_ready : proc_ready p;
  de_fd : p_ofile p !! fd = Some (Some f);
  de_open : file_open (m_k s) f ip x
}.

(** After a call that moved the offset of [f]. *)
Record after (s s' : machine) (i : nat) (p : proc) (f : nat) (x : file) (off : Z) : Prop := {
  af_proc : ∃ p', runs_now (m_k s') i p' ∧ proc_ready p' ∧ p_ofile p' = p_ofile p;
  af_files : k_files (m_k s') = <[f := set_f_off off x]> (k_files (m_k s))
}.

Lemma after_back s i p f x off num args k' r : runs_now (m_k s) i p → proc_ready p →
  io_done (entered s i p num args) k' f x off → after s (back s i r (callee p num) k') i p f x off.
Proof.
  intros R P [E1 E2 E3 E4]. split; [|by cbn; rewrite E2].
  exists (set_tf (callee p num) (set_tf_eax (u32 r) (p_tf (callee p num)))). split_and!; [|apply proc_ready_frame; [by apply proc_ready_frame|done]|done].
  apply (runs_now_upd _ _ (callee p num)). unfold runs_now. rewrite E1. by apply entered_now.
Qed.

Lemma fsv_entered s i p num args : runs_now (m_k s) i p → fsv (entered s i p num args) = fsv (m_k s).
Proof.
  intros R. eapply fsv_cwd; [done|by eapply runs_now_cur|eapply runs_now_cur; by apply entered_now|done].
Qed.

(** The call [write(fd, l)] of a program writes the bytes [l] to the file. *)
Lemma user_write s i p fd f x ino l : descriptor s i p fd f x → has_file dev sb ip (m_k s) ino → f_writable x = true →
  0 ≤ f_off x ≤ i_size ino → f_off x + Z.of_nat (length l) ≤ MAXBYTES → Forall byte l → (length l ≤ 4096)%nat →
  (∃ s' ino', goes (usys (SWrite (Z.of_nat fd) l)) [] s (Some (Z.of_nat (length l))) s' ∧
     after s s' i p f x (f_off x + Z.of_nat (length l)) ∧ has_file dev sb ip (m_k s') ino' ∧
     contents (fsv (m_k s')) ino' = splice (contents (fsv (m_k s)) ino) (f_off x) l) ∨
  stops (usys (SWrite (Z.of_nat fd) l)) [] s "balloc: out of blocks".
Proof.
  intros [R P Fd O] HF Hw Ho Hmax Hl Hlen. set (n := Z.of_nat (length l)) in *. set (s1 := set_mk (poked p BUFFER l (m_k s)) s).
  assert (Gp : goes (poke BUFFER l) [] s () s1) by by eapply poke_goes.
  assert (R1 : runs_now (m_k s1) i p) by exact R. set (args := [Z.of_nat fd; BUFFER; n]). set (k := entered s1 i p 5 args).
  assert (Hb : get_bytes (k_bytes k) (p_mem p + BUFFER) n = l).
  { apply get_bytes_at. eapply bytes_at_frame; [|by apply put_bytes_at]. intros y Hy. destruct P as [P1 P2 [P3 P4] P5 P6 P7].
    apply put_bytes_outside. cbn. unfold PATH1, BUFFER in *. lia. }
  assert (Ha : rw_args (k_bytes k) (callee p 5) = Some (f, p_mem p + BUFFER, n)) by (apply (rw_args_args p P 5 args _ fd); [done|done|lia]).
  assert (HF1 : has_file dev sb ip k ino). { eapply has_file_fsv; [|exact HF]. by apply (fsv_entered s1). }
  assert (Rk : runs_now k i (callee p 5)) by by apply entered_now.
  destruct (filewrite_goes fuel Hf [] (not_elem_of_nil _) (not_elem_of_nil _) dev sb ip dev_write k ino f x (p_mem p + BUFFER) n HF1)
    as [(k' & ino' & G & HF' & C & Io & _)|St]; try done; [by destruct O|lia|by rewrite Hb|..].
  - left. exists (back s1 i n (callee p 5) k'), ino'. assert (Rk' : runs_now k' i (callee p 5)) by (unfold runs_now; by rewrite (io_sch _ _ _ _ _ Io)).
    assert (E : fsv (m_k (back s1 i n (callee p 5) k')) = fsv k').
    { eapply fsv_cwd; [done|by eapply runs_now_cur|eapply runs_now_cur; by eapply runs_now_upd|done]. }
    pose proof (after_back s1 i p f x _ 5 args k' n R1 P Io) as [Ap Af].
    split_and!; [|by split|by eapply has_file_fsv|].
    + eapply goes_bind; [exact Gp|]. eapply (stub_goes _ _ _ _ _ _ _ _ _ _ _ _ SYS_write); [exact R1|apply P|lia|done| |exact Rk'|apply P|lia].
      eapply goes_bind; [|apply goes_ret]. eapply with_args_goes; [exact Rk|exact Ha|exact G].
    + rewrite E, C, Hb. unfold k. by rewrite (fsv_entered s1).
  - right. eapply goes_stops; [exact Gp|]. eapply (stub_stops _ _ _ _ _ _ _ _ _ _ _ _ SYS_write); [exact R1|apply P|lia|done|].
    apply stops_bind. eapply with_args_stops; [exact Rk|exact Ha|exact St].
Qed.

Lemma contents_bytes k ino : has_file dev sb ip k ino → Forall byte (contents (fsv k) ino).
Proof.
  intros HF. pose proof (hf_wf _ _ _ _ _ HF) as W. pose proof (wf_size _ _ _ _ _ W) as Hs. apply Forall_fmap, Forall_forall.
  intros j Hj%elem_of_seq. simpl. destruct (byte_block (0 + Z.of_nat j)) as (B & _); [lia|].
  apply get8_byte. apply (fblk_ok _ _ _ _ _ (wf_at _ _ _ _ _ W) _ B).
Qed.

Lemma slice_bytes d o n : Forall byte d → Forall byte (slice d o n).
Proof. intros H. unfold slice. by apply Forall_take, Forall_drop. Qed.

(** The call [read(fd, buf, n)] of a program gets the bytes of the file. *)
Lemma user_read s i p fd f x ino n : descriptor s i p fd f x → has_file dev sb ip (m_k s) ino → f_readable x = true →
  0 ≤ f_off x ≤ i_size ino → 0 ≤ n ≤ 4096 →
  let l := slice (contents (fsv (m_k s)) ino) (f_off x) (Z.min n (i_size ino - f_off x)) in
  ∃ s' ino', goes (usys (SRead (Z.of_nat fd) n)) [] s (Some (Some l)) s' ∧
    after s s' i p f x (f_off x + Z.of_nat (length l)) ∧ has_file dev sb ip (m_k s') ino' ∧
    contents (fsv (m_k s')) ino' = contents (fsv (m_k s)) ino.
Proof.
  intros [R P Fd O] HF Hr Ho Hn l. set (args := [Z.of_nat fd; BUFFER; n]). set (k := entered s i p 6 args).
  pose proof (wf_size _ _ _ _ _ (hf_wf _ _ _ _ _ HF)) as Hs. assert (M : MAXBYTES < 2 ^ 31) by done.
  assert (Ek : fsv k = fsv (m_k s)) by by apply fsv_entered.
  assert (HF1 : has_file dev sb ip k ino) by (eapply has_file_fsv; [exact Ek|exact HF]).
  assert (Ha : rw_args (k_bytes k) (callee p 6) = Some (f, p_mem p + BUFFER, n)) by (apply (rw_args_args p P 6 args _ fd); [done|done|lia]).
  assert (Rk : runs_now k i (callee p 6)) by by apply entered_now.
  destruct (fileread_goes fuel Hf [] (not_elem_of_nil _) (not_elem_of_nil _) dev sb ip dev_read k ino f x (p_mem p + BUFFER) n HF1)
    as (k' & ino' & G & HF' & C & Io & Eb); try done; [by destruct O|lia|lia|]. rewrite Ek in G, C, Eb, Io. fold l in G, Io, Eb.
  assert (Ll : Z.of_nat (length l) ≤ 4096). { unfold l, slice. rewrite length_take. lia. }
  assert (Lp : 0 ≤ Z.of_nat (length l)) by lia. set (r := Z.of_nat (length l)) in *. exists (back s i r (callee p 6) k'), ino'.
  assert (Rk' : runs_now k' i (callee p 6)) by (unfold runs_now; by rewrite (io_sch _ _ _ _ _ Io)).
  assert (E : fsv (m_k (back s i r (callee p 6) k')) = fsv k').
  { eapply fsv_cwd; [done|by eapply runs_now_cur|eapply runs_now_cur; by eapply runs_now_upd|done]. }
  split_and!; [|by eapply after_back|by eapply has_file_fsv|by rewrite E, C].
  eapply goes_bind.
  - eapply (stub_goes _ _ _ _ _ _ _ _ _ _ _ _ SYS_read) with (r := r); [exact R|apply P|lia|done| |exact Rk'|apply P|lia].
    eapply goes_bind; [|apply goes_ret]. eapply with_args_goes; [exact Rk|exact Ha|exact G].
  - unfold data. rewrite decide_False by lia. eapply goes_bind; [|apply goes_ret]. apply on_k_reads.
    eapply goes_bind; [eapply cp_get_goes; by eapply runs_now_upd|]. eapply goes_bind; [intros w; by exists w|].
    intros w. exists w. unfold mret, M_ret. f_equal. cbn. rewrite Eb. apply get_bytes_at, put_bytes_at.
    by apply slice_bytes, (contents_bytes (m_k s)).
Qed.

(** ** A file as programs see it *)

(** Programs that read and write a file through several descriptors. *)
Inductive fop := OpWrite (fd : nat) (l : list Z) | OpRead (fd : nat) (n : Z).
Inductive answer := Wrote (n : Z) | Got (r : option (list Z)).

Definition op_prog (op : fop) : prog answer :=
  match op with
  | OpWrite fd l => n ← call (SWrite (Z.of_nat fd) l); mret (Wrote n)
  | OpRead fd n => r ← call (SRead (Z.of_nat fd) n); mret (Got r)
  end.
Fixpoint file_prog (ops : list fop) : prog (list answer) :=
  match ops with [] => mret [] | op :: ops => r ← op_prog op; rs ← file_prog ops; mret (r :: rs) end.

(** The file as a sequence of bytes, and an offset for each open file; descriptors that
    are duplicates of each other share it. *)
Record afile := AFile { a_bytes : list Z; a_off : nat → Z }.
Definition move (f : nat) (off : Z) (o : nat → Z) : nat → Z := λ g, if decide (g = f) then off else o g.

(** [tab]: the descriptors of the process.  [mode]: for the open files at the inode,
    whether they can be read and written. *)
Context (tab : list (option nat)) (mode : nat → option (bool * bool)).

Definition afile_step (a : afile) (op : fop) : option (answer * afile) :=
  match op with
  | OpWrite fd l =>
      f ← mjoin (tab !! fd);
      md ← mode f;
      let n := Z.of_nat (length l) in
      if decide (md.2 = true ∧ Forall byte l ∧ n ≤ 4096 ∧ a_off a f + n ≤ MAXBYTES)
      then Some (Wrote n, AFile (splice (a_bytes a) (a_off a f) l) (move f (a_off a f + n) (a_off a)))
      else None
  | OpRead fd n =>
      f ← mjoin (tab !! fd);
      md ← mode f;
      if decide (md.1 = true ∧ 0 ≤ n ≤ 4096)
      then
        let l := slice (a_bytes a) (a_off a f) (Z.min n (Z.of_nat (length (a_bytes a)) - a_off a f)) in
        Some (Got (Some l), AFile (a_bytes a) (move f (a_off a f + Z.of_nat (length l)) (a_off a)))
      else None
  end.
Fixpoint afile_run (a : afile) (ops : list fop) : option (list answer * afile) :=
  match ops with
  | [] => Some ([], a)
  | op :: ops => '(r, a) ← afile_step a op; '(rs, a) ← afile_run a ops; Some (r :: rs, a)
  end.

(** The kernel's state represents the file. *)
Record shows (s : machine) (i : nat) (a : afile) : Prop := {
  sh_proc : ∃ p, runs_now (m_k s) i p ∧ proc_ready p ∧ p_ofile p = tab;
  sh_file : ∃ ino, has_file dev sb ip (m_k s) ino ∧ contents (fsv (m_k s)) ino = a_bytes a;
  sh_open : ∀ f md, mode f = Some md → ∃ x, file_open (m_k s) f ip x ∧ (f_readable x, f_writable x) = md ∧
              f_off x = a_off a f ∧ 0 ≤ a_off a f ≤ Z.of_nat (length (a_bytes a))
}.

Lemma shows_after s s' i a p f x bytes off : shows s i a → p_ofile p = tab → k_files (m_k s) !! f = Some x → after s s' i p f x off →
  (∃ ino, has_file dev sb ip (m_k s') ino ∧ contents (fsv (m_k s')) ino = bytes) →
  (length (a_bytes a) ≤ length bytes)%nat → 0 ≤ off ≤ Z.of_nat (length bytes) →
  shows s' i (AFile bytes (move f off (a_off a))).
Proof.
  intros [S1 S2 S3] Ht Hx [(p' & A1 & A2 & A3) A4] Hc Hl Ho. split; [exists p'; by rewrite A3|done|].
  intros g md Hg. destruct (S3 g md Hg) as (y & [Y1 Y2 Y3] & Y4 & Y5 & Y6). cbn [a_off a_bytes]. unfold move.
  destruct (decide (g = f)) as [->|].
  - assert (y = x) as -> by congruence. exists (set_f_off off x). split_and!; try done; [|lia..]. split; try done.
    rewrite A4. apply list_lookup_insert_eq. by eapply lookup_lt_Some.
  - exists y. split_and!; try done; [|lia..]. split; try done. rewrite A4. by rewrite list_lookup_insert_ne.
Qed.

(** Programs one after the other. *)
Lemma run_user_then {A B} (p : prog A) (f : A → prog B) : ∀ c s a c1 s1,
  run_user p c s = Ok (Some a) c1 s1 → run_user (p ≫= f) c s = run_user (f a) c1 s1.
Proof.
  unfold mbind, prog_bind. induction p as [x|X e k IH| |]; intros c s a c1 s1; cbn [tbind UserRun.run_user]; try done.
  - by intros [= -> -> ->].
  - unfold mbind, M_bind. destruct (usys e c s) as [[x|] c2 s2| | | |]; simpl; try done. apply IH.
Qed.
Lemma run_user_panic {A B} (p : prog A) (f : A → prog B) : ∀ c s msg t,
  run_user p c s = Panic msg t → run_user (p ≫= f) c s = Panic msg t.
Proof.
  unfold mbind, prog_bind. induction p as [x|X e k IH| |]; intros c s msg t; cbn [tbind UserRun.run_user]; try done.
  unfold mbind, M_bind. destruct (usys e c s) as [[x|] c2 s2| | | |]; simpl; try done; [apply IH|by intros [= -> ->]].
Qed.
Lemma run_goes {A B} (p : prog A) (f : A → prog B) h s a s1 b s2 :
  goes (run_user p) h s (Some a) s1 → goes (run_user (f a)) h s1 b s2 → goes (run_user (p ≫= f)) h s b s2.
Proof. intros G1 G2 w. destruct (G1 w) as [w1 E1]. rewrite (run_user_then _ _ _ _ _ _ _ E1). apply G2. Qed.
Lemma run_stops {A B} (p : prog A) (f : A → prog B) h s msg : stops (run_user p) h s msg → stops (run_user (p ≫= f)) h s msg.
Proof. intros G w. destruct (G w) as [t E]. exists t. by apply run_user_panic. Qed.
Lemma run_goes_stops {A B} (p : prog A) (f : A → prog B) h s a s1 msg :
  goes (run_user p) h s (Some a) s1 → stops (run_user (f a)) h s1 msg → stops (run_user (p ≫= f)) h s msg.
Proof. intros G1 G2 w. destruct (G1 w) as [w1 E1]. rewrite (run_user_then _ _ _ _ _ _ _ E1). apply G2. Qed.

Lemma afile_step_goes s i a op r a' : shows s i a → afile_step a op = Some (r, a') →
  (∃ s', shows s' i a' ∧ goes (run_user (op_prog op)) [] s (Some r) s') ∨
  stops (run_user (op_prog op)) [] s "balloc: out of blocks".
Proof.
  intros Sh E. pose proof Sh as [(p & R & P & Ht) (ino & HF & C) S3].
  assert (Sz : Z.of_nat (length (a_bytes a)) = i_size ino).
  { rewrite <- C, contents_length. pose proof (wf_size _ _ _ _ _ (hf_wf _ _ _ _ _ HF)). lia. }
  destruct op as [fd l|fd n]; cbn [afile_step] in E; destruct (tab !! fd) as [[f|]|] eqn:Efd; try done; cbn [mjoin option_join mbind option_bind] in E;
    destruct (mode f) as [md|] eqn:Em; try done; cbn [mbind option_bind] in E; destruct (S3 f md Em) as (x & O & <- & Eo & Ho); cbn [fst snd] in E;
    case_decide as D; simplify_eq; (assert (De : descriptor s i p fd f x) by (split; [done|done|by rewrite Ht|done])); rewrite <- Eo in *.
  - destruct D as (D1 & D2 & D3 & D4).
    destruct (user_write s i p fd f x ino l De HF D1 ltac:(lia) D4 D2 ltac:(lia)) as [(s' & ino' & G & A & HF' & C')|St].
    + left. exists s'. split; [|eapply goes_bind; [exact G|apply goes_ret]]. eapply shows_after; [exact Sh|exact Ht|apply O|exact A| | |].
      * exists ino'. by rewrite C', C.
      * unfold splice. rewrite !length_app, length_take, length_drop. lia.
      * unfold splice. rewrite !length_app, length_take, length_drop. lia.
    + right. by apply stops_bind.
  - destruct D as (D1 & D2). left. destruct (user_read s i p fd f x ino n De HF D1 ltac:(lia) D2) as (s' & ino' & G & A & HF' & C').
    rewrite C, <- Sz in G, A. exists s'. split; [|eapply goes_bind; [exact G|apply goes_ret]].
    eapply shows_after; [exact Sh|exact Ht|apply O|exact A| |done|].
    + exists ino'. by rewrite C', C.
    + unfold slice. rewrite length_take, length_drop. lia.
Qed.
End files.

(** C6 Programs see files as sequences of bytes.  A program that reads and writes a file
    through any of its descriptors, in calls of at most 4096 bytes and not beyond the
    largest size of a file, gets the results of the abstract file, in which each
    open file has an offset of its own and [write] and [read] move it: from the call of
    the stub and the arguments on the stack through the trap, the dispatch, the file
    table, the lock of the inode and the blocks on disk, back to the result and the
    bytes in the program's buffer.  The one way to fail is that the disk is full. *)
Theorem programs_see_files fuel ts forkret stack dev_read dev_write dev sb ip tab mode s i a ops rs a' :
  (0 < fuel)%nat → shows dev sb ip tab mode s i a → afile_run tab mode a ops = Some (rs, a') →
  (∃ s', goes (run_user fuel ts forkret stack dev_read dev_write (file_prog ops)) [] s (Some rs) s' ∧ shows dev sb ip tab mode s' i a') ∨
  stops (run_user fuel ts forkret stack dev_read dev_write (file_prog ops)) [] s "balloc: out of blocks".
Proof.
  intros Hf. revert s a rs. induction ops as [|op ops IH]; intros s a rs Sh E; cbn [afile_run] in E.
  - simplify_eq. left. exists s. split; [apply goes_ret|done].
  - destruct (afile_step tab mode a op) as [[r a1]|] eqn:E1; [|done]. simpl in E.
    destruct (afile_run tab mode a1 ops) as [[rs1 a2]|] eqn:E2; [|done]. simplify_eq/=.
    destruct (afile_step_goes fuel Hf ts forkret stack dev_read dev_write dev sb ip tab mode s i a op r a1 Sh E1) as [(s1 & Sh1 & G1)|St]; [|right; by apply run_stops].
    destruct (IH s1 a1 rs1 Sh1 E2) as [(s2 & G2 & Sh2)|St].
    + left. exists s2. split; [|done]. eapply run_goes; [exact G1|]. eapply run_goes; [exact G2|apply goes_ret].
    + right. eapply run_goes_stops; [exact G1|]. by apply run_stops.
Qed.

(** ** Example *)

(** The file of the small file system, open for reading and writing as descriptor 0 and
    for reading as descriptor 1. *)
Definition io_proc : proc :=
  set_ofile (set_state (set_tf (set_sz (set_mem proc_zero 65536) 16384)
    (Trapframe 0 0 0 0 0 0 0 0 0 0 0 0 0 (SEG_UCODE * 8 + 3) 0 1024 0)) RUNNING) ([Some 0%nat; Some 1%nat] ++ replicate 14 None).
Definition io_machine : machine :=
  Machine (KSt (SchSt [] [io_proc] [Cpu (Some 0%nat) context_zero (Some 0%nat)] [] None 2 [KForkret] 1 0)
    (KMem 0 ∅) ∅ [File FD_INODE 1 true true 0 (Some 0%nat) 0; File FD_INODE 1 true false 0 (Some 0%nat) 1]
    (FsSt (disk small_fs) [] [set_busy false small_inode] None) ∅ 0 (Segs 0 0 [])) (boot_bio 0x40) 0 []
    (Hw (Mp false 0 0 [] 0 0) [] irqmask0 false 0 ∅ [] 0 blank_console).
Definition io_mode (f : nat) : option (bool * bool) :=
  match f with 0%nat => Some (true, true) | 1%nat => Some (true, false) | _ => None end.
Definition io_file : afile := AFile [97; 98; 99] (λ f, if decide (f = 1%nat) then 1 else 0).

Lemma io_shows : shows 1 small_sb 0 (p_ofile io_proc) io_mode io_machine 0 io_file.
Proof.
  split.
  - exists io_proc. split_and!; [by split|split; try done; by vm_compute|done].
  - exists (set_busy false small_inode). split; [|by vm_compute]. split; try done.
    eapply (moved_wf _ _ _ small_fs); [apply moved_busy|done|apply small_file_wf|done|done].
  - intros [|[|f]] md [= <-]; (eexists; split_and!; [by split|done|done|by vm_compute..]).
Qed.

Lemma programs_see_files_witness :
  let ops := [OpWrite 0 [120; 121]; OpRead 1 5; OpWrite 0 [122; 10]; OpRead 1 5; OpRead 0 5] in
  let answers := [Wrote 2; Got (Some [121; 99]); Wrote 2; Got (Some [10]); Got (Some [])] in
  (∃ s', goes (run_user 1 0 0 [] no_dev_read no_dev_write (file_prog ops)) [] io_machine (Some answers) s' ∧
     shows 1 small_sb 0 (p_ofile io_proc) io_mode s' 0
       (AFile [120; 121; 122; 10] (move 0 4 (move 1 4 (move 0 4 (move 1 3 (move 0 2 (a_off io_file)))))))) ∨
  stops (run_user 1 0 0 [] no_dev_read no_dev_write (file_prog ops)) [] io_machine "balloc: out of blocks".
Proof.
  apply (programs_see_files 1 0 0 [] no_dev_read no_dev_write 1 small_sb 0 (p_ofile io_proc) io_mode io_machine 0 io_file);
    [lia|apply io_shows|reflexivity].
Defined.
