(* ===== verification/UserTests.v ===== *)
(** * The tests of the file system (usertests.c)

    The tests that one process runs by itself, as programs over the system calls.  The
    global [buf] is passed from test to test; [read] leaves what it does not fill.
    A test that finds a mistake prints its message and exits.  The tests then run on the
    model of the kernel, on a disk made by mkfs. *)
From S2P Require Import Prelude Kernel ProcData SchedState Kalloc CString FsDisk Fs Mmu KState Syscall Sysfile Process Intr Trap Mkfs MkfsMain Console Bio BioRefine.
From S2P Require Import Printf User UserRun.
Local Open Scope Z_scope.

Definition check (bad : bool) (msg : list Z) : prog unit := if bad then uprintf 1 msg [];; uexit else mret ().
Definition say (msg : string) : prog unit := uprintf 1 (line msg) [].
Definition fails (r : Z) : bool := bool_decide (r < 0).
Definition works (r : Z) : bool := bool_decide (0 ≤ r).
Definition not_zero (r : Z) : bool := bool_decide (r ≠ 0).
Definition is_zero (r : Z) : bool := bool_decide (r = 0).

(** [read(fd, buf, n)]: its result and [buf]. *)
Definition read_buf (fd n : Z) (buf : list Z) : prog (Z * list Z) :=
  r ← call (SRead fd n);
  match r with
  | None => mret (-1, buf)
  | Some l => mret (Z.of_nat (length l), l ++ drop (length l) buf)
  end.
Definition buf0 : list Z := replicate 2048 0.

Definition opentest : prog unit :=
  say "open test";;
  fd ← call (SOpen (lit "echo") 0);
  check (fails fd) (line "open echo failed!");;
  call (SClose fd);;
  fd ← call (SOpen (lit "doesnotexist") 0);
  check (works fd) (line "open doesnotexist succeeded!");;
  say "open test ok".

Definition writetest (buf : list Z) : prog (list Z) :=
  say "small file test";;
  fd ← call (SOpen (lit "small") (Z.lor O_CREATE O_RDWR));
  (if decide (0 ≤ fd) then say "creat small succeeded; ok" else say "error: creat small failed!";; uexit);;
  for_all (seq 0 100) (λ i,
    r ← call (SWrite fd (replicate 10 97));
    (if decide (r ≠ 10) then uprintf 1 (line "error: write aa %d new file failed") [Num (Z.of_nat i)];; uexit else mret ());;
    r ← call (SWrite fd (replicate 10 98));
    (if decide (r ≠ 10) then uprintf 1 (line "error: write bb %d new file failed") [Num (Z.of_nat i)];; uexit else mret ()));;
  say "writes ok";;
  call (SClose fd);;
  fd ← call (SOpen (lit "small") 0);
  (if decide (0 ≤ fd) then say "open small succeeded ok" else say "error: open small failed!";; uexit);;
  '(i, buf) ← read_buf fd 2000 buf;
  (if decide (i = 2000) then say "read succeeded ok" else say "read failed";; uexit);;
  call (SClose fd);;
  r ← call (SUnlink (lit "small"));
  check (fails r) (line "unlink small failed");;
  say "small file test ok";;
  mret buf.

(** The loop that reads the big file. *)
Fixpoint read_big (fuel : nat) (fd n : Z) (buf : list Z) : prog (list Z) :=
  match fuel with
  | O => Spin
  | S fuel =>
      '(i, buf) ← read_buf fd 512 buf;
      if decide (i = 0) then
        if decide (n = MAXFILE - 1) then uprintf 1 (lit "read only %d blocks from big") [Num n];; uexit
        else mret buf
      else if decide (i ≠ 512) then uprintf 1 (line "read failed %d") [Num i];; uexit
      else if decide (get32 buf 0 ≠ n) then
        uprintf 1 (line "read content of block %d is %d") [Num n; Num (get32 buf 0)];; uexit
      else read_big fuel fd (n + 1) buf
  end.

Definition writetest1 (buf : list Z) : prog (list Z) :=
  say "big files test";;
  fd ← call (SOpen (lit "big") (Z.lor O_CREATE O_RDWR));
  check (fails fd) (line "error: creat big failed!");;
  for_all (seq 0 (Z.to_nat MAXFILE)) (λ i,
    r ← call (SWrite fd (take 512 (put32 buf 0 (Z.of_nat i))));
    check (negb (bool_decide (r = 512))) (line "error: write big file failed"));;
  let buf := put32 buf 0 (MAXFILE - 1) in
  call (SClose fd);;
  fd ← call (SOpen (lit "big") 0);
  check (fails fd) (line "error: open big failed!");;
  buf ← read_big (S (S (Z.to_nat MAXFILE))) fd 0 buf;
  call (SClose fd);;
  r ← call (SUnlink (lit "big"));
  check (fails r) (line "unlink big failed");;
  say "big files ok";;
  mret buf.

(** [name] with the letter [c] and the [i]-th character from 0 on. *)
Definition numbered (c : Z) (i : nat) : list Z := [c; u8 (48 + Z.of_nat i)].

Definition createtest : prog unit :=
  say "many creates, followed by unlink test";;
  for_all (seq 0 52) (λ i,
    fd ← call (SOpen (numbered 97 i) (Z.lor O_CREATE O_RDWR)); call (SClose fd);; mret ());;
  for_all (seq 0 52) (λ i, call (SUnlink (numbered 97 i));; mret ());;
  say "many creates, followed by unlink; ok".

Definition dirtest : prog unit :=
  say "mkdir test";;
  r ← call (SMkdir (lit "dir0")); check (fails r) (line "mkdir failed");;
  r ← call (SChdir (lit "dir0")); check (fails r) (line "chdir dir0 failed");;
  r ← call (SChdir (lit "..")); check (fails r) (line "chdir .. failed");;
  r ← call (SUnlink (lit "dir0")); check (fails r) (line "unlink dir0 failed");;
  say "mkdir test".

Definition unlinkread (buf : list Z) : prog (list Z) :=
  say "unlinkread test";;
  fd ← call (SOpen (lit "unlinkread") (Z.lor O_CREATE O_RDWR));
  check (fails fd) (line "create unlinkread failed");;
  call (SWrite fd (lit "hello"));;
  call (SClose fd);;
  fd ← call (SOpen (lit "unlinkread") O_RDWR);
  check (fails fd) (line "open unlinkread failed");;
  r ← call (SUnlink (lit "unlinkread"));
  check (not_zero r) (line "unlink unlinkread failed");;
  fd1 ← call (SOpen (lit "unlinkread") (Z.lor O_CREATE O_RDWR));
  call (SWrite fd1 (lit "yyy"));;
  call (SClose fd1);;
  '(r, buf) ← read_buf fd 2048 buf;
  check (negb (bool_decide (r = 5))) (lit "unlinkread read failed");;
  check (negb (bool_decide (get8 buf 0 = 104))) (line "unlinkread wrong data");;
  r ← call (SWrite fd (take 10 buf));
  check (negb (bool_decide (r = 10))) (line "unlinkread write failed");;
  call (SClose fd);;
  call (SUnlink (lit "unlinkread"));;
  say "unlinkread ok";;
  mret buf.

Definition linktest (buf : list Z) : prog (list Z) :=
  say "linktest";;
  call (SUnlink (lit "lf1"));;
  call (SUnlink (lit "lf2"));;
  fd ← call (SOpen (lit "lf1") (Z.lor O_CREATE O_RDWR));
  check (fails fd) (line "create lf1 failed");;
  r ← call (SWrite fd (lit "hello"));
  check (negb (bool_decide (r = 5))) (line "write lf1 failed");;
  call (SClose fd);;
  r ← call (SLink (lit "lf1") (lit "lf2")); check (fails r) (line "link lf1 lf2 failed");;
  call (SUnlink (lit "lf1"));;
  r ← call (SOpen (lit "lf1") 0); check (works r) (line "unlinked lf1 but it is still there!");;
  fd ← call (SOpen (lit "lf2") 0);
  check (fails fd) (line "open lf2 failed");;
  '(r, buf) ← read_buf fd 2048 buf;
  check (negb (bool_decide (r = 5))) (line "read lf2 failed");;
  call (SClose fd);;
  r ← call (SLink (lit "lf2") (lit "lf2")); check (works r) (line "link lf2 lf2 succeeded! oops");;
  call (SUnlink (lit "lf2"));;
  r ← call (SLink (lit "lf2") (lit "lf1")); check (works r) (line "link non-existant succeeded! oops");;
  r ← call (SLink (lit ".") (lit "lf1")); check (works r) (line "link . lf1 succeeded! oops");;
  say "linktest ok";;
  mret buf.

Definition big_name (i : nat) : list Z := [120; 48 + Z.of_nat i / 64; 48 + Z.of_nat i mod 64].
Definition bigdir : prog unit :=
  say "bigdir test";;
  call (SUnlink (lit "bd"));;
  fd ← call (SOpen (lit "bd") O_CREATE);
  check (fails fd) (line "bigdir create failed");;
  call (SClose fd);;
  for_all (seq 0 500) (λ i, r ← call (SLink (lit "bd") (big_name i)); check (not_zero r) (line "bigdir link failed"));;
  call (SUnlink (lit "bd"));;
  for_all (seq 0 500) (λ i, r ← call (SUnlink (big_name i)); check (not_zero r) (lit "bigdir unlink failed"));;
  say "bigdir ok".

(** A call that must succeed, or fail, and the message if it does not. *)
Definition expect (bad : Z → bool) (e : sysE Z) (msg : string) : prog unit := r ← call e; check (bad r) (line msg).

Definition subdir_make (buf : list Z) : prog (list Z) :=
  call (SUnlink (lit "ff"));;
  expect not_zero (SMkdir (lit "dd")) "subdir mkdir dd failed";;
  fd ← call (SOpen (lit "dd/ff") (Z.lor O_CREATE O_RDWR));
  check (fails fd) (line "create dd/ff failed");;
  call (SWrite fd (lit "ff"));;
  call (SClose fd);;
  expect works (SUnlink (lit "dd")) "unlink dd (non-empty dir) succeeded!";;
  expect not_zero (SMkdir (lit "/dd/dd")) "subdir mkdir dd/dd failed";;
  fd ← call (SOpen (lit "dd/dd/ff") (Z.lor O_CREATE O_RDWR));
  check (fails fd) (line "create dd/dd/ff failed");;
  call (SWrite fd (lit "FF"));;
  call (SClose fd);;
  fd ← call (SOpen (lit "dd/dd/../ff") 0);
  check (fails fd) (line "open dd/dd/../ff failed");;
  '(cc, buf) ← read_buf fd 2048 buf;
  check (bool_decide (cc ≠ 2 ∨ get8 buf 0 ≠ 102)) (line "dd/dd/../ff wrong content");;
  call (SClose fd);;
  expect not_zero (SLink (lit "dd/dd/ff") (lit "dd/dd/ffff")) "link dd/dd/ff dd/dd/ffff failed";;
  expect not_zero (SUnlink (lit "dd/dd/ff")) "unlink dd/dd/ff failed";;
  expect works (SOpen (lit "dd/dd/ff") 0) "open (unlinked) dd/dd/ff succeeded";;
  mret buf.

Definition subdir_move (buf : list Z) : prog (list Z) :=
  expect not_zero (SChdir (lit "dd")) "chdir dd failed";;
  expect not_zero (SChdir (lit "dd/../../dd")) "chdir dd/../../dd failed";;
  expect not_zero (SChdir (lit "dd/../../../dd")) "chdir dd/../../dd failed";;
  expect not_zero (SChdir (lit "./..")) "chdir ./.. failed";;
  fd ← call (SOpen (lit "dd/dd/ffff") 0);
  check (fails fd) (line "open dd/dd/ffff failed");;
  '(r, buf) ← read_buf fd 2048 buf;
  check (negb (bool_decide (r = 2))) (line "read dd/dd/ffff wrong len");;
  call (SClose fd);;
  mret buf.

Definition subdir_errors : prog unit :=
  expect works (SOpen (lit "dd/dd/ff") 0) "open (unlinked) dd/dd/ff succeeded!";;
  expect works (SOpen (lit "dd/ff/ff") (Z.lor O_CREATE O_RDWR)) "create dd/ff/ff succeeded!";;
  expect works (SOpen (lit "dd/xx/ff") (Z.lor O_CREATE O_RDWR)) "create dd/xx/ff succeeded!";;
  expect works (SOpen (lit "dd") O_CREATE) "create dd succeeded!";;
  expect works (SOpen (lit "dd") O_RDWR) "open dd rdwr succeeded!";;
  expect works (SOpen (lit "dd") O_WRONLY) "open dd wronly succeeded!";;
  expect is_zero (SLink (lit "dd/ff/ff") (lit "dd/dd/xx")) "link dd/ff/ff dd/dd/xx succeeded!";;
  expect is_zero (SLink (lit "dd/xx/ff") (lit "dd/dd/xx")) "link dd/xx/ff dd/dd/xx succeeded!";;
  expect is_zero (SLink (lit "dd/ff") (lit "dd/dd/ffff")) "link dd/ff dd/dd/ffff succeeded!";;
  expect is_zero (SMkdir (lit "dd/ff/ff")) "mkdir dd/ff/ff succeeded!";;
  expect is_zero (SMkdir (lit "dd/xx/ff")) "mkdir dd/xx/ff succeeded!";;
  expect is_zero (SMkdir (lit "dd/dd/ffff")) "mkdir dd/dd/ffff succeeded!";;
  expect is_zero (SUnlink (lit "dd/xx/ff")) "unlink dd/xx/ff succeeded!";;
  expect is_zero (SUnlink (lit "dd/ff/ff")) "unlink dd/ff/ff succeeded!";;
  expect is_zero (SChdir (lit "dd/ff")) "chdir dd/ff succeeded!";;
  expect is_zero (SChdir (lit "dd/xx")) "chdir dd/xx succeeded!".

Definition subdir (buf : list Z) : prog (list Z) :=
  say "subdir test";;
  buf ← subdir_make buf;
  buf ← subdir_move buf;
  subdir_errors;;
  expect not_zero (SUnlink (lit "dd/dd/ffff")) "unlink dd/dd/ff failed";;
  expect not_zero (SUnlink (lit "dd/ff")) "unlink dd/ff failed";;
  expect is_zero (SUnlink (lit "dd")) "unlink non-empty dd succeeded!";;
  expect fails (SUnlink (lit "dd/dd")) "unlink dd/dd failed";;
  expect fails (SUnlink (lit "dd")) "unlink dd failed";;
  say "subdir ok";;
  mret buf.

(** The loop that reads [bigfile]; the result is the number of bytes. *)
Fixpoint read_bigfile (fuel : nat) (fd i total : Z) (buf : list Z) : prog (Z * list Z) :=
  match fuel with
  | O => Spin
  | S fuel =>
      '(cc, buf) ← read_buf fd 300 buf;
      check (fails cc) (line "read bigfile failed");;
      if decide (cc = 0) then mret (total, buf)
      else
        check (negb (bool_decide (cc = 300))) (line "short read bigfile");;
        check (bool_decide (get8 buf 0 ≠ i / 2 ∨ get8 buf 299 ≠ i / 2)) (line "read bigfile wrong data");;
        read_bigfile fuel fd (i + 1) (total + cc) buf
  end.

Definition bigfile (buf : list Z) : prog (list Z) :=
  say "bigfile test";;
  call (SUnlink (lit "bigfile"));;
  fd ← call (SOpen (lit "bigfile") (Z.lor O_CREATE O_RDWR));
  check (fails fd) (lit "cannot create bigfile");;
  for_all (seq 0 20) (λ i,
    r ← call (SWrite fd (replicate 600 (Z.of_nat i)));
    check (negb (bool_decide (r = 600))) (line "write bigfile failed"));;
  let buf := replicate 600 19 ++ drop 600 buf in
  call (SClose fd);;
  fd ← call (SOpen (lit "bigfile") 0);
  check (fails fd) (line "cannot open bigfile");;
  '(total, buf) ← read_bigfile 50 fd 0 0 buf;
  call (SClose fd);;
  check (negb (bool_decide (total = 20 * 600))) (line "read bigfile wrong total");;
  call (SUnlink (lit "bigfile"));;
  say "bigfile test ok";;
  mret buf.

Definition fourteen : prog unit :=
  say "fourteen test";;
  expect not_zero (SMkdir (lit "12345678901234")) "mkdir 12345678901234 failed";;
  expect not_zero (SMkdir (lit "12345678901234/123456789012345")) "mkdir 12345678901234/123456789012345 failed";;
  fd ← call (SOpen (lit "123456789012345/123456789012345/123456789012345") O_CREATE);
  check (fails fd) (line "create 123456789012345/123456789012345/123456789012345 failed");;
  call (SClose fd);;
  fd ← call (SOpen (lit "12345678901234/12345678901234/12345678901234") 0);
  check (fails fd) (line "open 12345678901234/12345678901234/12345678901234 failed");;
  call (SClose fd);;
  expect is_zero (SMkdir (lit "12345678901234/12345678901234")) "mkdir 12345678901234/12345678901234 succeeded!";;
  expect is_zero (SMkdir (lit "123456789012345/12345678901234")) "mkdir 12345678901234/123456789012345 succeeded!";;
  say "fourteen ok".

Definition rmdot : prog unit :=
  say "rmdot test";;
  expect not_zero (SMkdir (lit "dots")) "mkdir dots failed";;
  expect not_zero (SChdir (lit "dots")) "chdir dots failed";;
  expect is_zero (SUnlink (lit ".")) "rm . worked!";;
  expect is_zero (SUnlink (lit "..")) "rm .. worked!";;
  expect not_zero (SChdir (lit "/")) "chdir / failed";;
  expect is_zero (SUnlink (lit "dots/.")) "unlink dots/. worked!";;
  expect is_zero (SUnlink (lit "dots/..")) "unlink dots/.. worked!";;
  expect not_zero (SUnlink (lit "dots")) "unlink dots failed!";;
  say "rmdot ok".

Definition dirfile : prog unit :=
  say "dir vs file";;
  fd ← call (SOpen (lit "dirfile") O_CREATE);
  check (fails fd) (line "create dirfile failed");;
  call (SClose fd);;
  expect is_zero (SChdir (lit "dirfile")) "chdir dirfile succeeded!";;
  expect works (SOpen (lit "dirfile/xx") 0) "create dirfile/xx succeeded!";;
  expect works (SOpen (lit "dirfile/xx") O_CREATE) "create dirfile/xx succeeded!";;
  expect is_zero (SMkdir (lit "dirfile/xx")) "mkdir dirfile/xx succeeded!";;
  expect is_zero (SUnlink (lit "dirfile/xx")) "unlink dirfile/xx succeeded!";;
  expect is_zero (SLink (lit "README") (lit "dirfile/xx")) "link to dirfile/xx succeeded!";;
  expect not_zero (SUnlink (lit "dirfile")) "unlink dirfile failed!";;
  expect works (SOpen (lit ".") O_RDWR) "open . for writing succeeded!";;
  fd ← call (SOpen (lit ".") 0);
  r ← call (SWrite fd (lit "x"));
  check (bool_decide (0 < r)) (line "write . succeeded!");;
  call (SClose fd);;
  say "dir vs file OK".

Definition close_open (fd : Z) : prog unit := if decide (0 ≤ fd) then call (SClose fd);; mret () else mret ().

Definition iref : prog unit :=
  say "empty file name";;
  for_all (seq 0 51) (λ _,
    expect not_zero (SMkdir (lit "irefd")) "mkdir irefd failed";;
    expect not_zero (SChdir (lit "irefd")) "chdir irefd failed";;
    call (SMkdir []);;
    call (SLink (lit "README") []);;
    fd ← call (SOpen [] O_CREATE);
    close_open fd;;
    fd ← call (SOpen (lit "xx") O_CREATE);
    close_open fd;;
    call (SUnlink (lit "xx"));;
    mret ());;
  call (SChdir (lit "/"));;
  say "empty file name OK".

(** [main] without the tests that fork or execute programs: [mem], [pipe1], [preempt],
    [exitwait], [concreate], [createdelete], [twofiles], [sharedfd], [forktest] and
    [exectest]. *)
Definition file_tests : prog unit :=
  say "usertests starting";;
  fd ← call (SOpen (lit "usertests.ran") 0);
  check (works fd) (line "already ran user tests -- rebuild fs.img");;
  fd ← call (SOpen (lit "usertests.ran") O_CREATE);
  call (SClose fd);;
  opentest;;
  buf ← writetest buf0;
  buf ← writetest1 buf;
  createtest;;
  rmdot;;
  fourteen;;
  buf ← bigfile buf;
  buf ← subdir buf;
  buf ← linktest buf;
  buf ← unlinkread buf;
  dirfile;;
  iref;;
  bigdir.

(** ** The tests on the kernel *)

(** The console as a device of the file system: [console_write] unlocks the inode while
    it prints; what it prints is not kept here. *)
Definition console_dev (major : Z) : option (nat → list Z → M fsst Z) :=
  if decide (major = 1) then Some (λ ip l, iunlock ip;; ilock 1 ip;; mret (Z.of_nat (length l))) else None.

(** The image, with two files. *)
Definition test_files : list (list Z * list (list Z)) :=
  [(lit "_echo", [[127; 69; 76; 70]]); (lit "README", [lit "xv6 is a re-implementation"])].
Definition image_of (o : outcome mkst unit) : list block := match o with Ok _ _ s => img s | _ => [] end.
Definition test_image : list block := image_of (mkfs (replicate 500 0) test_files (KCtx [] []) mkst0).

(** One process of four pages at 64K, in the root directory. *)
Definition test_proc : proc :=
  set_cwd (set_ofile (set_state (set_tf (set_sz (set_mem proc_zero 65536) 16384)
    (Trapframe 0 0 0 0 0 0 0 0 0 0 0 0 0 (SEG_UCODE * 8 + 3) 0 1024 0)) RUNNING) (replicate NOFILE None)) (Some 0%nat).
Definition no_inode : inode := Inode 0 0 0 false false 0 0 0 0 0 (replicate 13 0).
Definition test_kst : kst :=
  KSt (SchSt [] [test_proc] [Cpu (Some 0%nat) context_zero (Some 0%nat)] [] None 2 [KForkret] 1 0)
    (KMem 0 ∅) ∅ (replicate NFILE file_zero)
    (FsSt (image_disk test_image) [] (Inode 1 1 1 false false 0 0 0 0 0 (replicate 13 0) :: replicate 49 no_inode) None) ∅ 0 (Segs 0 0 []).
Definition test_machine : machine :=
  Machine test_kst (boot_bio 0x40) 0 [] (Hw (Mp false 0 0 [] 0 0) [] irqmask0 false 0 ∅ [] 0 blank_console).

(** The start of [init]. *)
Definition open_std : prog unit :=
  fd ← call (SOpen (lit "console") User.O_RDWR);
  (if decide (fd < 0) then
     call (SMknod (lit "console") 1 1);;
     call (SOpen (lit "console") User.O_RDWR);; mret ()
   else mret ());;
  call (SDup 0);; call (SDup 0);; mret ().

Notation run_test := (run_user 1 0 0 [] (λ _, None) console_dev).
Definition passes {A} (p : prog A) : bool :=
  match run_test (open_std;; p) (KCtx [] []) test_machine with Ok (Some _) _ _ => true | _ => false end.

(** The tests that are quick. *)
Definition quick_tests : prog unit :=
  opentest;;
  dirtest;;
  rmdot;;
  fourteen;;
  buf ← bigfile buf0;
  buf ← subdir buf;
  buf ← linktest buf;
  buf ← unlinkread buf;
  dirfile.

(** These tests on one concrete machine, a disk of the 1024 sectors that [mkfs] makes of two
    files: run on the model of the whole kernel, from the trap to the blocks, none of them
    stops with its message. *)
Theorem usertests_pass : passes quick_tests = true.
Proof. vm_compute. reflexivity. Qed.
