(* ===== verification/ShRun.v ===== *)
(** * Running commands (runcmd, fork1 and panic of sh.c)

    [runcmd] as the tree of its system calls, on the commands the parser makes.
    [behave] follows the descriptor table of a process through such a tree: [open],
    [dup] and [pipe] take the lowest free descriptors, a forked child starts with a
    copy of the table, and the child's behaviour is a subtree of its own.  Files
    that can be opened and programs that can be executed are parameters, forks
    succeed, and what is written (the messages) is not recorded. *)
From S2P Require Import Prelude CString FsDisk Sysfile Printf Sh ShTotal ShPrint ProcData User.
Local Open Scope Z_scope.

Definition sh_panic {A} (s : list Z) : prog A := uprintf 2 (line "%s") [str s];; uexit.

Definition fork1 : prog Z :=
  pid ← call SFork;
  if decide (pid = -1) then sh_panic (lit "fork") else mret pid.

(** A null [cmd] does not occur: the parser returns a command or stops. *)
Fixpoint runcmd (c : cmd (list Z)) : prog unit :=
  match c with
  | EXEC [] => uexit
  | EXEC (path :: args) =>
      call (SExec path (path :: args));;
      uprintf 2 (line "exec %s failed") [str path];;
      uexit
  | REDIR c file mode fd =>
      call (SClose fd);;
      r ← call (SOpen file mode);
      (if decide (r < 0) then uprintf 2 (line "open %s failed") [str file];; uexit else mret ());;
      runcmd c;;
      uexit
  | LIST c1 c2 =>
      pid ← fork1;
      (if decide (pid = 0) then runcmd c1 else mret ());;
      call SWait;;
      runcmd c2;;
      uexit
  | PIPE c1 c2 =>
      p ← call SPipe;
      match p with
      | None => sh_panic (lit "pipe")
      | Some (p0, p1) =>
          pid ← fork1;
          (if decide (pid = 0) then
             call (SClose 1);; call (SDup p1);; call (SClose p0);; call (SClose p1);; runcmd c1
           else mret ());;
          pid ← fork1;
          (if decide (pid = 0) then
             call (SClose 0);; call (SDup p0);; call (SClose p0);; call (SClose p1);; runcmd c2
           else mret ());;
          call (SClose p0);;
          call (SClose p1);;
          call SWait;;
          call SWait;;
          uexit
      end
  | BACK c =>
      pid ← fork1;
      (if decide (pid = 0) then runcmd c else mret ());;
      uexit
  end.

(** What the child does with a line: [parsecmd], whose [panic] prints its message (the
    leftovers printed before [syntax] are left out), and [runcmd] on the words as the
    C strings they point to. *)
Definition run_line (s : list Z) : prog unit :=
  match parsecmd s with
  | POk (c, mem) _ => runcmd (cmd_map (λ w, cstring_at mem w.1) c)
  | PPanic msg => sh_panic (lit msg)
  | PFuel => Spin
  end.

(** [getcmd] with the bytes of [buf] before the first NUL; [None] is the -1. *)
Definition getcmd (nbuf : nat) : prog (option (list Z)) :=
  uprintf 2 (lit "$ ") [];;
  l ← gets nbuf;
  match cstring l with [] => mret None | s => mret (Some s) end.

Fixpoint open_consoles (fuel : nat) : prog unit :=
  match fuel with
  | O => Spin
  | S fuel =>
      fd ← call (SOpen (lit "console") O_RDWR);
      if decide (fd < 0) then mret ()
      else if decide (3 ≤ fd) then call (SClose fd);; mret ()
      else open_consoles fuel
  end.

Fixpoint sh_loop (fuel : nat) : prog unit :=
  match fuel with
  | O => Spin
  | S fuel =>
      b ← getcmd 100;
      match b with
      | None => uexit
      | Some s =>
          (if decide (take 3 s = lit "cd ") then
             let dir := drop 3 (take (length s - 1) s) in
             r ← call (SChdir dir);
             (if decide (r < 0) then uprintf 2 (line "cannot cd %s") [str dir] else mret ())
           else
             pid ← fork1;
             (if decide (pid = 0) then run_line s else mret ());;
             call SWait;; mret ());;
          sh_loop fuel
      end
  end.

Definition sh_main (fuel : nat) : prog unit := open_consoles fuel;; sh_loop fuel.

(** ** Descriptor tables *)
Inductive desc := DStd (n : nat) | DFile (path : list Z) (mode : Z) | DPipeR (id : nat) | DPipeW (id : nat).
Notation fdt := (list (option desc)).

(** The lowest free descriptor. *)
Fixpoint lowest (T : fdt) : option nat :=
  match T with
  | [] => None
  | None :: _ => Some 0%nat
  | Some _ :: T => S <$> lowest T
  end.

(** What a process and its descendants do; a leaf has the table at that time. *)
Inductive tree :=
| TExec (path : list Z) (argv : list (list Z)) (T : fdt)
| TExit (T : fdt)
| TFork (child parent : tree)
| TWait (t : tree)
| TStuck.

Section behave.
Context (can_open : list Z → Z → bool) (can_exec : list Z → bool).

(** [n] is the number of the next pipe. *)
Fixpoint behave {A} (p : prog A) (T : fdt) (n : nat) : tree * nat :=
  match p with
  | Vis X e k =>
      match e in sysE X return (X → fdt → nat → tree * nat) → tree * nat with
      | SClose fd => λ k,
          if decide (0 ≤ fd ∧ is_Some (mjoin (T !! Z.to_nat fd))) then k 0 (<[Z.to_nat fd := None]> T) n
          else k (-1) T n
      | SOpen path mode => λ k,
          match (if can_open path mode then lowest T else None) with
          | Some i => k (Z.of_nat i) (<[i := Some (DFile path mode)]> T) n
          | None => k (-1) T n
          end
      | SDup fd => λ k,
          match mjoin (T !! Z.to_nat fd), lowest T with
          | Some d, Some i => if decide (0 ≤ fd) then k (Z.of_nat i) (<[i := Some d]> T) n else k (-1) T n
          | _, _ => k (-1) T n
          end
      | SPipe => λ k,
          match lowest T with
          | Some a =>
              let T1 := <[a := Some (DPipeR n)]> T in
              match lowest T1 with
              | Some b => k (Some (Z.of_nat a, Z.of_nat b)) (<[b := Some (DPipeW n)]> T1) (S n)
              | None => k None T n
              end
          | None => k None T n
          end
      | SFork => λ k,
          let '(child, n) := k 0 T n in
          let '(parent, n) := k 1 T n in (TFork child parent, n)
      | SWait => λ k, let '(t, n) := k 1 T n in (TWait t, n)
      | SExec path argv => λ k, if can_exec path then (TExec path argv T, n) else k (-1) T n
      | SExit => λ _, (TExit T, n)
      | SWrite fd l => λ k, k (Z.of_nat (length l)) T n
      | _ => λ _, (TStuck, n)
      end (λ x, behave (k x))
  | _ => (TStuck, n)
  end.

(** ** What a command should do *)
Fixpoint job (c : cmd (list Z)) (T : fdt) (n : nat) : tree * nat :=
  match c with
  | EXEC [] => (TExit T, n)
  | EXEC (path :: args) => (if can_exec path then TExec path (path :: args) T else TExit T, n)
  | REDIR c file mode fd =>
      if can_open file mode then job c (<[Z.to_nat fd := Some (DFile file mode)]> T) n
      else (TExit (<[Z.to_nat fd := None]> T), n)
  | LIST c1 c2 =>
      let '(l, n) := job c1 T n in
      let '(r, n) := job c2 T n in (TFork l (TWait r), n)
  | PIPE c1 c2 =>
      let '(l, m) := job c1 (<[1%nat := Some (DPipeW n)]> T) (S n) in
      let '(r, m) := job c2 (<[0%nat := Some (DPipeR n)]> T) m in
      (TFork l (TFork r (TWait (TWait (TExit T)))), m)
  | BACK c => let '(t, n) := job c T n in (TFork t (TExit T), n)
  end.
End behave.

(** ** Following a program *)
Section follow.
Context (can_open : list Z → Z → bool) (can_exec : list Z → bool).
Notation behave := (behave can_open can_exec).
Notation job := (job can_open can_exec).

Lemma behave_assoc {A B C} (p : prog A) (g : A → prog B) (f : B → prog C) : ∀ T n,
  behave ((p ≫= g) ≫= f) T n = behave (p ≫= (λ x, g x ≫= f)) T n.
Proof.
  unfold mbind, prog_bind. induction p as [a|X e k IH| |]; intros T n; try done.
  cbn [tbind ShRun.behave]. destruct e; repeat case_match; try done; rewrite ?IH; congruence || (rewrite IH in *; congruence).
Qed.

Lemma behave_ret {A} (p : prog A) : ∀ T n, behave (p ≫= mret) T n = behave p T n.
Proof.
  unfold mbind, prog_bind. induction p as [a|X e k IH| |]; intros T n; try done.
  cbn [tbind ShRun.behave]. destruct e; repeat case_match; try done; rewrite ?IH; congruence || (rewrite IH in *; congruence).
Qed.

Lemma behave_printf {A} fd fmt ap (f : unit → prog A) T n : is_Some (printf fmt ap) →
  behave (uprintf fd fmt ap ≫= f) T n = behave (f ()) T n.
Proof. intros [l E]. unfold uprintf. rewrite E. clear E. induction l as [|c l IH]; [done|exact IH]. Qed.

Lemma exec_message s : is_Some (printf (line "exec %s failed") [str s]).
Proof. vm_compute. by eexists. Qed.

Lemma open_message s : is_Some (printf (line "open %s failed") [str s]).
Proof. vm_compute. by eexists. Qed.

(** One call at a time. *)
Lemma b_close {A} fd (f : Z → prog A) T n d : 0 ≤ fd → T !! Z.to_nat fd = Some (Some d) →
  behave (call (SClose fd) ≫= f) T n = behave (f 0) (<[Z.to_nat fd := None]> T) n.
Proof. intros H E. cbn. rewrite decide_True; [done|]. split; [done|]. by rewrite E. Qed.

Lemma b_dup {A} fd (f : Z → prog A) T n d i : 0 ≤ fd → T !! Z.to_nat fd = Some (Some d) → lowest T = Some i →
  behave (call (SDup fd) ≫= f) T n = behave (f (Z.of_nat i)) (<[i := Some d]> T) n.
Proof. intros H E L. cbn. rewrite E, L. simpl. by rewrite decide_True. Qed.

Lemma b_fork {A} (f : Z → prog A) T n :
  behave (fork1 ≫= f) T n =
    let '(child, n) := behave (f 0) T n in let '(parent, n) := behave (f 1) T n in (TFork child parent, n).
Proof. done. Qed.

Lemma b_wait {A} (f : Z → prog A) T n :
  behave (call SWait ≫= f) T n = let '(t, n) := behave (f 1) T n in (TWait t, n).
Proof. done. Qed.

Lemma b_exec {A} path argv (f : Z → prog A) T n :
  behave (call (SExec path argv) ≫= f) T n = if can_exec path then (TExec path argv T, n) else behave (f (-1)) T n.
Proof. done. Qed.

Lemma b_pipe {A} (f : option (Z * Z) → prog A) T n a b : lowest T = Some a → lowest (<[a := Some (DPipeR n)]> T) = Some b →
  behave (call SPipe ≫= f) T n =
    behave (f (Some (Z.of_nat a, Z.of_nat b))) (<[b := Some (DPipeW n)]> (<[a := Some (DPipeR n)]> T)) (S n).
Proof. intros L1 L2. cbn. by rewrite L1, L2. Qed.

Lemma b_open {A} file mode (f : Z → prog A) T n i : lowest T = Some i →
  behave (call (SOpen file mode) ≫= f) T n =
    if can_open file mode then behave (f (Z.of_nat i)) (<[i := Some (DFile file mode)]> T) n else behave (f (-1)) T n.
Proof. intros L. cbn. rewrite L. by destruct (can_open file mode). Qed.

(** ** Tables *)
Lemma lowest_iff T : ∀ a, lowest T = Some a ↔ T !! a = Some None ∧ ∀ j, (j < a)%nat → ∃ d, T !! j = Some (Some d).
Proof.
  induction T as [|[d|] T IH]; intros a; cbn [lowest].
  - split; [done|]. by intros [? _].
  - split.
    + intros (b & Hb & ->)%fmap_Some. apply IH in Hb as [H1 H2]. split; [done|]. intros [|j] Hj; [by exists d|]. apply H2. lia.
    + destruct a as [|a]; [by intros [? _]|]. intros [H1 H2]. apply fmap_Some. exists a. split; [|done]. apply IH.
      split; [done|]. intros j Hj. apply (H2 (S j)). lia.
  - split.
    + intros [= <-]. split; [done|]. lia.
    + destruct a as [|a]; [done|]. intros [_ H]. by destruct (H 0%nat ltac:(lia)).
Qed.

(** The three standard descriptors are open and two others are free. *)
Definition ready (T : fdt) : Prop :=
  (∀ i, (i < 3)%nat → ∃ d, T !! i = Some (Some d)) ∧
  ∃ a b, (a < b)%nat ∧ T !! a = Some None ∧ T !! b = Some None ∧
    ∀ j, (j < b)%nat → j ≠ a → ∃ d, T !! j = Some (Some d).

Lemma ready_std T i d : ready T → (i < 3)%nat → ready (<[i := Some d]> T).
Proof.
  intros [S (a & b & Hab & Ha & Hb & R)] Hi. pose proof (S i Hi) as [di Di]. pose proof (lookup_lt_Some _ _ _ Di) as Hlt.
  assert (Hne : ∀ j, T !! j = Some None → j ≠ i) by (intros j Hj ->; congruence). split.
  - intros j Hj. destruct (decide (j = i)) as [->|]; [exists d; by apply list_lookup_insert_eq|].
    rewrite list_lookup_insert_ne by done. by apply S.
  - exists a, b. rewrite !list_lookup_insert_ne by (symmetry; by apply Hne). do 3 (split; [done|]).
    intros j Hj Hja. destruct (decide (j = i)) as [->|]; [exists d; by apply list_lookup_insert_eq|].
    rewrite list_lookup_insert_ne by done. by apply R.
Qed.

(** Entries of a table written more than once. *)
Ltac table_lookup :=
  repeat first [ rewrite list_lookup_insert_eq by (rewrite ?length_insert; lia)
               | rewrite list_lookup_insert_ne by lia ].

(** The child of a pipeline that keeps one end, of the table's [a] and [b], as [i]. *)
Lemma take_end {A B} (p : prog A) (f : A → prog B) T n i a b x y keep d : (i < 2)%nat → (3 ≤ a)%nat → (a < b)%nat →
  T !! a = Some None → T !! b = Some None → (∀ j, (j < 3)%nat → ∃ d, T !! j = Some (Some d)) →
  keep = a ∧ d = x ∨ keep = b ∧ d = y →
  behave ((call (SClose (Z.of_nat i));; call (SDup (Z.of_nat keep));; call (SClose (Z.of_nat a));; call (SClose (Z.of_nat b));; p) ≫= f)
    (<[b := Some y]> (<[a := Some x]> T)) n =
  behave (p ≫= f) (<[i := Some d]> T) n.
Proof.
  intros Hi Ha Hab Ta Tb S K. pose proof (lookup_lt_Some _ _ _ Ta). pose proof (lookup_lt_Some _ _ _ Tb).
  destruct (S i ltac:(lia)) as [di Di]. set (T1 := <[b := Some y]> (<[a := Some x]> T)).
  rewrite behave_assoc, (b_close _ _ _ _ di) by (rewrite ?Nat2Z.id; unfold T1; table_lookup; done || lia). rewrite Nat2Z.id.
  rewrite behave_assoc, (b_dup _ _ _ _ d i).
  2: lia.
  2: { rewrite Nat2Z.id. unfold T1. destruct K as [[-> ->]|[-> ->]]; by table_lookup. }
  2: { apply lowest_iff. unfold T1. split; [by table_lookup|]. intros j Hj. table_lookup. apply S. lia. }
  rewrite behave_assoc, (b_close _ _ _ _ x) by (rewrite ?Nat2Z.id; unfold T1; table_lookup; done || lia). rewrite Nat2Z.id.
  rewrite behave_assoc, (b_close _ _ _ _ y) by (rewrite ?Nat2Z.id; unfold T1; table_lookup; done || lia). rewrite Nat2Z.id.
  f_equal. unfold T1. apply list_eq. intros j.
  destruct (decide (j = b)) as [->|]; [by table_lookup|]. destruct (decide (j = a)) as [->|]; [by table_lookup|].
  destruct (decide (j = i)) as [->|]; by table_lookup.
Qed.

(** Redirections of the standard input and output only. *)
Fixpoint std_redirs (c : cmd (list Z)) : Prop :=
  match c with
  | EXEC _ => True
  | REDIR c _ _ fd => (fd = 0 ∨ fd = 1) ∧ std_redirs c
  | PIPE l r | LIST l r => std_redirs l ∧ std_redirs r
  | BACK c => std_redirs c
  end.

Lemma printable_redirs c : printable c → std_redirs c.
Proof. induction c; simpl; try tauto. intros (? & _ & [[_ ?]|[_ ?]]); tauto. Qed.

Ltac skip_ret := match goal with |- context [mret () ≫= ?g] => change (mret () ≫= g) with (g ()); cbv beta end.

Definition follows_job (c : cmd (list Z)) : Prop :=
  ∀ {A} (f : unit → prog A) T n, ready T → behave (runcmd c ≫= f) T n = job c T n.

Lemma exec_job argv : follows_job (EXEC argv).
Proof.
  intros A f T n _. destruct argv as [|path args]; [done|]. cbn [runcmd ShRun.job]. rewrite behave_assoc, b_exec.
  destruct (can_exec path); [done|]. rewrite behave_assoc, (behave_printf _ _ _ _ _ _ (exec_message path)). reflexivity.
Qed.

Lemma redir_job c file mode fd : fd = 0 ∨ fd = 1 → follows_job c → follows_job (REDIR c file mode fd).
Proof.
  intros Hfd IH A f T n R. cbn [runcmd]. assert (Hi : (Z.to_nat fd < 3)%nat) by lia. pose proof R as [S _].
  destruct (S _ Hi) as [d Di]. pose proof (lookup_lt_Some _ _ _ Di) as Hlt.
  rewrite behave_assoc, (b_close _ _ _ _ d), behave_assoc by (done || lia).
  rewrite (b_open _ _ _ _ _ (Z.to_nat fd)).
  2: { apply lowest_iff. split; [by table_lookup|]. intros j Hj. table_lookup. apply S. lia. }
  cbn [ShRun.job]. destruct (can_open file mode).
  - rewrite decide_False by lia. rewrite list_insert_insert_eq, behave_assoc. skip_ret. rewrite behave_assoc. apply IH. by apply ready_std.
  - rewrite decide_True by lia. rewrite !behave_assoc. rewrite (behave_printf _ _ _ _ _ _ (open_message file)). reflexivity.
Qed.

Lemma list_job l r : follows_job l → follows_job r → follows_job (LIST l r).
Proof.
  intros IHl IHr A f T n R. cbn [runcmd ShRun.job]. rewrite behave_assoc, b_fork. cbv beta.
  rewrite decide_True, behave_assoc by done. rewrite IHl by done. destruct (job l T n) as [tl m].
  rewrite decide_False, behave_assoc by done.
  skip_ret. rewrite behave_assoc, b_wait, behave_assoc, IHr by done.
  by destruct (job r T m).
Qed.

Lemma back_job c : follows_job c → follows_job (BACK c).
Proof.
  intros IH A f T n R. cbn [runcmd ShRun.job]. rewrite behave_assoc, b_fork. cbv beta.
  rewrite decide_True, behave_assoc, IH by done. by destruct (job c T n) as [t m].
Qed.

Lemma pipe_job l r : follows_job l → follows_job r → follows_job (PIPE l r).
Proof.
  intros IHl IHr A f T n R. pose proof R as [S (a & b & Hab & Ha & Hb & O)].
  assert (H3 : (3 ≤ a)%nat). { destruct (decide (a < 3)%nat) as [H|]; [|lia]. destruct (S a H); congruence. }
  pose proof (lookup_lt_Some _ _ _ Ha). pose proof (lookup_lt_Some _ _ _ Hb).
  cbn [runcmd]. rewrite behave_assoc, (b_pipe _ _ _ a b).
  2: { apply lowest_iff. split; [done|]. intros j Hj. apply O; lia. }
  2: { apply lowest_iff. split; [by table_lookup|]. intros j Hj.
       destruct (decide (j = a)) as [->|]; [eexists; by table_lookup|]. table_lookup. apply O; lia. }
  cbv iota. rewrite behave_assoc, b_fork. cbv beta. rewrite decide_True, behave_assoc by done.
  rewrite (take_end _ _ T _ 1 a b (DPipeR n) (DPipeW n) b (DPipeW n)), IHl by ((by apply ready_std; [|lia]) || (by right) || done || lia).
  cbn [ShRun.job]. destruct (job l _ (Datatypes.S n)) as [tl m].
  rewrite decide_False, behave_assoc by done. skip_ret. rewrite behave_assoc, b_fork. cbv beta. rewrite decide_True, behave_assoc by done.
  rewrite (take_end _ _ T _ 0 a b (DPipeR n) (DPipeW n) a (DPipeR n)), IHr by ((by apply ready_std; [|lia]) || (by left) || done || lia).
  destruct (job r _ m) as [tr m'].
  rewrite decide_False, behave_assoc by done. skip_ret.
  rewrite behave_assoc, (b_close _ _ _ _ (DPipeR n)), Nat2Z.id by (rewrite ?Nat2Z.id; table_lookup; done || lia).
  rewrite behave_assoc, (b_close _ _ _ _ (DPipeW n)), Nat2Z.id by (rewrite ?Nat2Z.id; table_lookup; done || lia).
  rewrite behave_assoc, b_wait, behave_assoc, b_wait. cbn. do 6 f_equal. apply list_eq. intros j.
  destruct (decide (j = b)) as [->|]; [by table_lookup|]. destruct (decide (j = a)) as [->|]; by table_lookup.
Qed.

Lemma runcmd_job c : std_redirs c → follows_job c.
Proof.
  induction c as [argv|c IH f mode fd|l IHl r IHr|l IHl r IHr|c IH]; cbn [std_redirs].
  - intros _. apply exec_job.
  - intros [? ?]. apply redir_job; auto.
  - intros [? ?]. apply pipe_job; auto.
  - intros [? ?]. apply list_job; auto.
  - intros ?. apply back_job; auto.
Qed.

(** ** No descriptor is left over *)
Fixpoint leaves (t : tree) : list fdt :=
  match t with
  | TExec _ _ T | TExit T => [T]
  | TFork l r => leaves l ++ leaves r
  | TWait t => leaves t
  | TStuck => [[]]
  end.

Definition same_above (T T' : fdt) : Prop := ∀ i, (2 ≤ i)%nat → T' !! i = T !! i.

Lemma same_above_insert T T' i d : (i < 2)%nat → same_above (<[i := d]> T) T' → same_above T T'.
Proof. intros Hi H j Hj. rewrite H by done. apply list_lookup_insert_ne. lia. Qed.

Lemma job_leaves c : ∀ T n, std_redirs c → Forall (same_above T) (leaves (job c T n).1).
Proof.
  assert (W : ∀ T i d (l : list fdt), (i < 2)%nat → Forall (same_above (<[i := d]> T)) l → Forall (same_above T) l)
    by (intros T i d l Hi H; eapply Forall_impl; [exact H|]; intros x; by apply same_above_insert).
  assert (X : ∀ T, same_above T T) by done.
  induction c as [argv|c IH f mode fd|l IHl r IHr|l IHl r IHr|c IH]; intros T n Hc; cbn [std_redirs ShRun.job] in *.
  - destruct argv as [|path args]; [by repeat constructor|]. destruct (can_exec path); by repeat constructor.
  - destruct Hc as [Hfd Hc]. destruct (can_open f mode); [eapply W; [|by apply IH]; lia|].
    apply (W T (Z.to_nat fd) None); [lia|]. by repeat constructor.
  - destruct Hc as [Hl Hr]. specialize (IHl (<[1%nat := Some (DPipeW n)]> T) (S n) Hl).
    destruct (job l _ _) as [tl m]. specialize (IHr (<[0%nat := Some (DPipeR n)]> T) m Hr). destruct (job r _ _) as [tr m'].
    cbn in *. rewrite !Forall_app. split_and!; [eapply W; [|done]; lia..|by repeat constructor].
  - destruct Hc as [Hl Hr]. specialize (IHl T n Hl). destruct (job l _ _) as [tl m].
    specialize (IHr T m Hr). destruct (job r _ _) as [tr m']. cbn in *. by apply Forall_app.
  - specialize (IH T n Hc). destruct (job c T n) as [t m]. cbn in *. apply Forall_app. split; [done|]. by repeat constructor.
Qed.

(** C11 The shell wires its processes as the line says: for every printed command, in a
    process with its three standard descriptors and two free ones, when no [fork] fails,
    parsing and running the line makes the processes of the command, each with the
    standard input and output that its redirections and pipes give it, and none of them,
    when it executes its program or exits, holds a pipe end or file in another
    descriptor. *)
Theorem shell_wires c T n : printable c → ready T →
  behave (run_line (show c 3)) T n = job c T n ∧ Forall (same_above T) (leaves (job c T n).1).
Proof.
  intros Hp R. pose proof (printable_redirs c Hp) as Hs. split; [|by apply job_leaves].
  destruct (parsecmd_shows c Hp) as (c' & mem & k & E & Ec). unfold run_line. rewrite E, Ec.
  rewrite <- behave_ret. by apply runcmd_job.
Qed.

(** ** The table the shell starts with *)
Definition std_only (a b c : option desc) : fdt := [a; b; c] ++ replicate (NOFILE - 3) None.

Lemma std_only_ready a b c : ready (std_only (Some a) (Some b) (Some c)).
Proof.
  split; [intros [|[|[|i]]] Hi; [by eexists..|lia]|]. exists 3%nat, 4%nat. split_and!; [lia|done|done|].
  intros [|[|[|[|i]]]] Hi Hne; [by eexists..|done|lia].
Qed.

Lemma open_consoles_step {A} (f : unit → prog A) k T n i :
  can_open (lit "console") O_RDWR = true → lowest T = Some i →
  behave (open_consoles (S k) ≫= f) T n =
    if decide (3 ≤ i)%nat then behave (f ()) T n
    else behave (open_consoles k ≫= f) (<[i := Some (DFile (lit "console") O_RDWR)]> T) n.
Proof.
  intros Hc L. cbn [open_consoles]. rewrite behave_assoc, (b_open _ _ _ _ _ i), Hc by done.
  rewrite decide_False by lia. apply lowest_iff in L as [L _]. pose proof (lookup_lt_Some _ _ _ L).
  destruct (decide (3 ≤ i)%nat).
  - rewrite decide_True, behave_assoc, (b_close _ _ _ _ (DFile (lit "console") O_RDWR)) by (rewrite ?Nat2Z.id; table_lookup; done || lia).
    rewrite Nat2Z.id, list_insert_insert_eq, list_insert_id by done. done.
  - by rewrite decide_False by lia.
Qed.

(** The loop of [main] opens the console on the standard descriptors that are closed,
    whichever they are, and leaves nothing else open. *)
Lemma open_consoles_std {A} (f : unit → prog A) a b c n : can_open (lit "console") O_RDWR = true →
  behave (open_consoles 4 ≫= f) (std_only a b c) n =
    let con o := Some (default (DFile (lit "console") O_RDWR) o) in behave (f ()) (std_only (con a) (con b) (con c)) n.
Proof.
  intros Hc. destruct a, b, c; repeat
    (match goal with |- context [behave (open_consoles _ ≫= _) ?T _] =>
       let o := eval vm_compute in (lowest T) in
       match o with Some ?i => rewrite (open_consoles_step _ _ T _ i Hc eq_refl) end
     end; match goal with |- context [decide (3 ≤ ?i)%nat] =>
       (rewrite (decide_True (P := (3 ≤ i)%nat)) by lia) || (rewrite (decide_False (P := (3 ≤ i)%nat)) by lia)
     end); done.
Qed.
End follow.

(** The table of a shell started by init. *)
Definition std_table : fdt := std_only (Some (DStd 0)) (Some (DStd 1)) (Some (DStd 2)).

Lemma shell_wires_witness :
  behave (λ _ _, true) (λ _, true) (run_line (show some_cmd 3)) std_table 0 = job (λ _ _, true) (λ _, true) some_cmd std_table 0 ∧
  Forall (same_above std_table) (leaves (job (λ _ _, true) (λ _, true) some_cmd std_table 0).1).
Proof. apply (shell_wires (λ _ _, true) (λ _, true) some_cmd std_table 0); [apply some_cmd_printable|apply std_only_ready]. Defined.
